(* ===== verification/_CoqProject ===== *)
-Q . S2P
Prelude.v
Text.v
Bounded.v
Protocol.v
Advertisement.v
Codec.v
Message.v
MessageSpec.v
Base64.v
SeatGate.v
BrokerProtocol.v
InputSet.v
Effects.v
Discovery.v
Ownership.v
OwnershipTheorems.v
Config.v
Policy.v
X11.v
Scan.v
Observer.v
Manager.v
ObserverSpec.v
ObserverTheorems.v
InputServer.v
Keyboard.v
KeyboardTheorems.v
Input.v
Capture.v
TextTransfer.v
Recorder.v
ManagerTheorems.v
ObserverRuns.v
InputTheorems.v
CaptureTheorems.v
TextTransferTheorems.v
PolicyTheorems.v
Host.v
PolicyStore.v
PolicyDisk.v
PolicyStoreTheorems.v
Runtime.v
Active.v
ActiveTheorems.v
DesktopEntry.v
Catalog.v
Launch.v
CatalogTheorems.v
Settings.v
SettingsTheorems.v
LaunchTheorems.v
Diagnostics.v
Replies.v
Session.v
SessionTheorems.v
Provider.v
ProviderTheorems.v
DeviceSet.v
DeviceSetTheorems.v
BrokerSystem.v
InheritedFiles.v
Broker.v
BrokerTheorems.v
BrokerRuns.v
Uevent.v
Guard.v
GuardTheorems.v
Json.v
McpTools.v
SeatClient.v
Mcp.v
McpTheorems.v
McpReplies.v
McpCalls.v
McpContexts.v
Companion.v
Enroll.v
EnrollInstall.v
EnrollTheorems.v
EnrollRuns.v
