(* ===== verification/Prelude.v ===== *)
(** * Agent Seat: a verification library

    Agent Seat lets a program (an agent) observe and operate one X11 desktop through a
    provider that the person at the desktop controls.  This library models the wire
    protocol, the provider, the activity broker and the companion that offers the desktop
    to MCP clients, and proves what makes them correct.

    ** The program

    A client connects to the provider's socket and speaks length-prefixed JSON frames
    (crate agent-seat-proto).  The provider (crate agent-seat-x11) authenticates the
    peer, grants the requested capabilities its policy lists, and answers requests one at
    a time: observation of windows, events, window management, pointer and keyboard input,
    text transfer, pixel capture, the application catalog and launching.  The person
    switches the seat on and off through a second socket; the switch is one atomic word
    that every acting operation re-reads.  The activity broker (crate
    agent-seat-activity-broker) is a process of its own: it watches the reviewed input
    devices and an eligibility channel, and answers status requests of the provider over
    fixed-size frames; the eligibility guard at the other end of that channel reduces logind
    and the kernel's device changes to one frame or two; the administrator's enrolment tool
    inspects the devices, renders and verifies a bundle of units and manifests, installs it
    and starts and stops both.  The companion (crate agent-seat-mcp) is a client
    of the provider: it reads JSON-RPC lines, keeps the connections behind a legacy client
    and the contexts of modern ones, and turns tool calls into protocol calls.  The settings
    model (crate agent-seat-settings) edits, reviews and saves the provider's policy.

    ** Files

    Shared: [Prelude] (results, machine integers, lists), [Text] (Rust's strings),
    [Effects] (the state-and-error monad, its postconditions [wp], and the classes
    [Preserves], [Advances] and [Errs]; states with a journal, and what a computation adds to it),
    [Host] (files and processes as an interface).

    agent-seat-proto/src: [Protocol] (lib.rs, ids.rs), [Bounded] (bounded.rs),
    [Advertisement] (advertisement.rs), [Codec] (codec.rs), [Message] (message.rs).
    [MessageSpec] and [Base64] hold the declarative side of the validators.

    agent-seat-activity-broker/src: [BrokerProtocol] (lib.rs), [InputSet]
    (initial_input_set.rs), [DeviceSet] (device_set.rs), [BrokerSystem] (the system calls,
    as an interface), [InheritedFiles] (inherited_files.rs), [Broker] (main.rs);
    [Uevent] and [Guard] (bin/agent-seat-eligibility-guard.rs); [Enroll] and [EnrollInstall]
    (bin/agent-seat-activity-enroll.rs: arguments and inspection; bundle, installation and life).

    agent-seat-x11/src: [SeatGate] (seat.rs); [Config] and [Policy] (config.rs, the policy
    and the editor's draft), [PolicyStore] (config.rs, reading and replacing the file); [X11], [Scan] and [Observer] (observer.rs), [Manager]
    (observer/manager.rs), [InputServer] (the further X requests), [Keyboard]
    (observer/keyboard.rs), [Input] (observer/input.rs), [Capture] (observer/capture.rs),
    [TextTransfer] (observer/text_transfer.rs); [DesktopEntry], [Catalog] and [Launch]
    (launch.rs); [Session] (session.rs); [Ownership] (ownership.rs), [Runtime] (runtime.rs),
    [Active] (active.rs) and [Provider] (lib.rs), which starts and serves with all of these.

    agent-seat-settings/src: [Settings] (lib.rs).

    agent-seat-mcp/src: [Json] (the values of serde_json), [McpTools] (mcp.rs, the published
    tools), [SeatClient] (seat.rs), [Discovery] (discovery.rs), [Mcp] (mcp.rs), [Companion] (lib.rs).

    State is explicit.  An operation of the observer is a computation over
    [Observer * W], where [W] is any state with the operations of the class [XServer] (and
    [XInput], [XImages], [XSelections] where it needs them): other clients of the server
    may change [W] between any two requests.  A session is a computation over
    [SessionState], which holds the observer, the catalog, the world and the connection;
    the companion is one over [Server * W], and what it does with one session is one over
    [ProviderSession * W] or [Seat * W].
    Rust names are kept: [Type_method] for [Type::method], [Type_field] for a field,
    [Type_Variant] for a variant; a [Result] is [Ok]/[Err] and an early return leaves the
    state as the code left it.

    ** What the theorems show

    - Wire: the validators accept exactly the well-formed messages ([MessageSpec]); frames
      round-trip and the reader refines a specification on arbitrary fragments
      ([Codec]); the capture check accepts exactly base64 of PNG ([Base64]); the codecs of
      the broker, the manifest and the advertisement are canonical round trips.
    - Seat: a permit that was revoked is never accepted again, under any interleaving of
      operators ([SeatGate]).
    - Observer: replaying the events gives the model, polling loses nothing, every reply
      is valid, waits end ([ObserverSpec], [ObserverTheorems], [ObserverRuns]).
    - Acting: [Recorder] notes what an operation asks of the server.  Management, input,
      capture and text transfer ask only for what the fresh reading, the grab, the
      ownership checks and the seat word allow, and their replies say what was done
      ([ManagerTheorems], [InputTheorems], [CaptureTheorems], [TextTransferTheorems]); key
      resolution is exact and minimal ([KeyboardTheorems]).
    - Policy file: whatever calls fail, the file is at every moment the complete old or
      the complete valid new policy ([PolicyDisk] states the laws of a directory,
      [PolicyStoreTheorems] the replacement); what the settings model saves is in force,
      what it replaced can be put back, and its review shows exactly the change
      ([SettingsTheorems]).
    - Provider: what a provider claims is what its clients discover, until it withdrew
      ([OwnershipTheorems]); the policy status that is reported is that of the markers running
      providers keep locked ([ActiveTheorems]); against a journal of its workers, the loop
      never has more of them than the policy allows and joins all of them when it is
      stopped ([ProviderTheorems]).
    - Broker: the device set is canonical and a capability value matches exactly its bits
      ([DeviceSetTheorems]); against a journal of its system calls, every
      answer of a run is justified: to the enrolled user, after a request, usable only
      while nothing was evidence, and terminal for good ([BrokerTheorems] for the loop,
      [BrokerRuns] for whole runs).
    - Guard: it accepts exactly the kernel messages of a grammar ([Uevent]); against a journal
      of what it asks, hears and says, a run says eligible only after every fact was
      favourable with the evidence channels open, and then only ineligible, last
      ([GuardTheorems]).
    - Enrolment: an installation publishes the whole bundle without replacing anything, or
      leaves nothing of it ([EnrollTheorems], over the laws of a directory); an arm cycle that
      fails is stopped and one that succeeds was seen active twice, and every command ends
      ([EnrollRuns], against a clock and a journal of the runs of systemctl).
    - Policy and launching: validation is exact, drafts stay valid, only permitted entries
      are started, the catalog is valid and its pages cover it ([PolicyTheorems],
      [CatalogTheorems], [LaunchTheorems]).
    - Session: the composition.  A run of a session is a conversation of the protocol,
      every message it sends is valid, and it never panics ([Diagnostics], [Replies],
      [SessionTheorems]).
    - Companion: against a journal of what it reads, writes and sends, its side of every
      provider connection follows the protocol and the open connections are those it
      holds ([McpTheorems]); every line gets exactly the reply it calls for ([McpReplies]);
      contexts do not touch each other and names are not used again ([McpContexts]); a
      legacy client must look again after its session ended, remembered clicks are replayed
      as they were saved, and what is published is served ([McpCalls]).  A toy world runs it.

    ** Bounds and fuel

    A loop that waits takes fuel and returns [None] (or a stop of its own) without it.
    The theorems give amounts that suffice: [ENOUGH] for the waits of the enrolment tool (16 KiB
    of output a byte at a time, 400 rounds of 5 ms or 500 of 10 ms), [fuel_for] for the frame reader (one step per
    read result), [samples wait] for the observer's waits (one round per 25 ms, two more),
    [transfer_rounds] for a text transfer.  [walk_fuel] (one turn per path the scan may
    count), the nine rounds of [instance_bytes] (each adds a byte of eight), the 64 of
    [word_codes] (one per bit) and the eight rounds of [random_bytes] are enough for every
    input and are fixed in the definitions; the rounds of [reap_from] and
    [reap_workers] are the number of children and of workers.  [lost] takes fuel for the
    events that wait, and [turns] serves so many rounds: their theorem holds for any.  Machine
    integers are [Z] with the code's checked or wrapping operations.

    ** Parameters

    The JSON and TOML libraries, the PNG encoder, the base64 engine, the X server, the
    file system, processes, the connection of a session and the random source are
    arguments or classes; so are the JSON conversions of the companion ([Serde]) and its
    standard streams.  What is relied on of them is in the classes ending in [Laws],
    in [Transcript] and the class [McpTheorems.Companion], and in the named hypotheses of the theorems.  Concrete instances are
    in the modules ending in [Toy].

    ** Not modelled

    The settings tool's two interfaces (terminal and GTK), which show the model and call its
    operations; each program's [main], which prints the error of [run]; and the probe of
    contrib/t5, which tests a deployment from outside.  Of the enrolment
    tool, the failure that its tests inject while publishing is left out.  The broker's main
    loop serves without end: [run_broker] runs any number of its rounds, and
    its theorem holds for each; its wait for the first frame may be prolonged by readiness
    without data, so it takes fuel and stops with [BrokerStop_OutOfFuel].  The
    companion's loop likewise ends with its input: [serve] reads any number of lines.  The
    guard watches for so many rounds ([GuardEnd_Running] after the last), and its loops that
    wait for a peer or drain a channel take fuel ([GuardStop_OutOfFuel]).
    The provider's workers are threads; [Provider] starts and joins them through an
    interface, and [Session] models what one does.
*)

From stdpp Require Export base list numbers option decidable strings.
From Stdlib Require Export ZArith Lia.

#[global] Open Scope Z_scope.

(** ** Results

    Rust's [Result<T, E>]; [let?] is the [?] operator. *)

Inductive result (A E : Type) : Type :=
| Ok (value : A)
| Err (error : E).
Arguments Ok {A E} value.
Arguments Err {A E} error.

#[export] Instance result_eq_dec `{EqDecision A, EqDecision E} : EqDecision (result A E).
Proof. solve_decision. Defined.

Definition and_then {A B E} (r : result A E) (k : A → result B E) : result B E :=
  match r with Ok a => k a | Err e => Err e end.

Definition result_map {A B E} (f : A → B) (r : result A E) : result B E :=
  match r with Ok a => Ok (f a) | Err e => Err e end.

Definition map_err {A E F} (f : E → F) (r : result A E) : result A F :=
  match r with Ok a => Ok a | Err e => Err (f e) end.

Definition ok_or {A E} (o : option A) (e : E) : result A E :=
  match o with Some a => Ok a | None => Err e end.

(** [.ok()] *)
Definition result_ok {A E} (r : result A E) : option A :=
  match r with Ok a => Some a | Err _ => None end.

(** [.is_ok()] *)
Definition is_ok {A E} (r : result A E) : bool :=
  match r with Ok _ => true | Err _ => false end.

(** [P] of the value, if there is one. *)
Definition opt {A} (P : A → Prop) (o : option A) : Prop := ∀ x, o = Some x → P x.

(** [cond.then_some(()).ok_or(e)] and the early return [if bad { return Err(e) }]. *)
Definition ensure {E} (cond : bool) (e : E) : result unit E :=
  if cond then Ok tt else Err e.

Declare Scope rust_scope.
Delimit Scope rust_scope with rust.
Notation "'let?' x ':=' e 'in' k" := (and_then e (λ x, k))
  (at level 10, x binder, e at level 200, k at level 200, only parsing) : rust_scope.
Notation "e1 ';?' e2" := (and_then e1 (λ _ : unit, e2))
  (at level 95, right associativity) : rust_scope.
#[global] Open Scope rust_scope.

(** ** Machine integers

    A [w]-bit unsigned integer is a [Z] in [0 .. 2^w - 1]; the code's arithmetic on
    it is either checked ([checked_*]) or wrapping ([wrap]). *)

Definition U16_MAX : Z := 65535.
Definition U32_MAX : Z := 4294967295.
Definition U64_MAX : Z := 18446744073709551615.
Definition I16_MIN : Z := -32768.
Definition I16_MAX : Z := 32767.
Definition I32_MIN : Z := -2147483648.
Definition I32_MAX : Z := 2147483647.

Definition is_u8 (x : Z) : Prop := 0 ≤ x < 256.
Definition is_u16 (x : Z) : Prop := 0 ≤ x ≤ U16_MAX.
Definition is_u32 (x : Z) : Prop := 0 ≤ x ≤ U32_MAX.
Definition is_u64 (x : Z) : Prop := 0 ≤ x ≤ U64_MAX.
Definition is_i32 (x : Z) : Prop := I32_MIN ≤ x ≤ I32_MAX.

#[export] Instance is_u8_dec x : Decision (is_u8 x).
Proof. unfold is_u8. apply _. Defined.
#[export] Instance is_u16_dec x : Decision (is_u16 x).
Proof. unfold is_u16. apply _. Defined.
#[export] Instance is_u32_dec x : Decision (is_u32 x).
Proof. unfold is_u32. apply _. Defined.
#[export] Instance is_u64_dec x : Decision (is_u64 x).
Proof. unfold is_u64. apply _. Defined.
#[export] Instance is_i32_dec x : Decision (is_i32 x).
Proof. unfold is_i32. apply _. Defined.

Definition checked_in (lo hi : Z) (x : Z) : option Z :=
  if (lo <=? x) && (x <=? hi) then Some x else None.

Definition checked_u16 : Z → option Z := checked_in 0 U16_MAX.
Definition checked_u32 : Z → option Z := checked_in 0 U32_MAX.
Definition checked_u64 : Z → option Z := checked_in 0 U64_MAX.
Definition checked_i16 : Z → option Z := checked_in I16_MIN I16_MAX.
Definition checked_i32 : Z → option Z := checked_in I32_MIN I32_MAX.

Ltac int_bounds :=
  unfold is_u8, is_u16, is_u32, is_u64, is_i32,
    U16_MAX, U32_MAX, U64_MAX, I16_MIN, I16_MAX, I32_MIN, I32_MAX in *.

(** ** Boolean goals *)

Ltac bool_props :=
  repeat match goal with
  | H : _ && _ = true |- _ => apply andb_true_iff in H as [? ?]
  | H : _ || _ = false |- _ => apply orb_false_iff in H as [? ?]
  | H : negb _ = true |- _ => apply negb_true_iff in H
  | H : negb _ = false |- _ => apply negb_false_iff in H
  | H : bool_decide _ = true |- _ => apply bool_decide_eq_true in H
  | H : bool_decide _ = false |- _ => apply bool_decide_eq_false in H
  | H : (_ =? _) = true |- _ => apply Z.eqb_eq in H
  | H : (_ =? _) = false |- _ => apply Z.eqb_neq in H
  | H : (_ <=? _) = true |- _ => apply Z.leb_le in H
  | H : (_ <=? _) = false |- _ => apply Z.leb_gt in H
  | H : (_ <? _) = true |- _ => apply Z.ltb_lt in H
  | H : (_ <? _) = false |- _ => apply Z.ltb_ge in H
  end.

(** Splits the next [if]/[match]/[?] in a hypothesis about a computation and keeps
    only the consistent branches. *)
Ltac split_result H :=
  unfold and_then, ensure, ok_or, map_err, result_map, result_ok in H;
  repeat first [discriminate H | progress cbn beta iota in H | case_match];
  bool_props; simplify_eq.

Lemma checked_in_Some lo hi x y :
  checked_in lo hi x = Some y ↔ y = x ∧ lo ≤ x ≤ hi.
Proof. unfold checked_in. case_match; bool_props; naive_solver lia. Qed.

Lemma checked_in_None lo hi x :
  checked_in lo hi x = None ↔ x < lo ∨ hi < x.
Proof. unfold checked_in. case_match; [naive_solver lia|]. apply andb_false_iff in H as [?|?]; bool_props; naive_solver lia. Qed.

Lemma checked_in_intro lo hi x : lo ≤ x ≤ hi → checked_in lo hi x = Some x.
Proof. intros. by apply checked_in_Some. Qed.

(** ** Byte strings

    A byte is a [Z]; [&[u8]], [Vec<u8>], [&str] and [String] are lists of bytes (a
    Rust string is its UTF-8 encoding; its [len] is the number of bytes). *)

Abbreviation bytes := (list Z).
Abbreviation str := (list Z).

Definition len {A} (l : list A) : Z := Z.of_nat (length l).

Definition bstr (s : string) : str :=
  (λ a, Z.of_N (Ascii.N_of_ascii a)) <$> String.list_ascii_of_string s.

Lemma len_nonneg {A} (l : list A) : 0 ≤ len l.
Proof. unfold len. lia. Qed.

Lemma len_cons {A} (a : A) l : len (a :: l) = 1 + len l.
Proof. unfold len. cbn [length]. lia. Qed.

Lemma len_app {A} (l k : list A) : len (l ++ k) = len l + len k.
Proof. unfold len. rewrite length_app. lia. Qed.

Lemma len_nil_iff {A} (l : list A) : len l = 0 ↔ l = [].
Proof. unfold len. destruct l; naive_solver lia. Qed.

Definition is_empty {A} (l : list A) : bool := match l with [] => true | _ => false end.

Lemma is_empty_true {A} (l : list A) : is_empty l = true ↔ l = [].
Proof. by destruct l. Qed.
Lemma is_empty_false {A} (l : list A) : is_empty l = false ↔ l ≠ [].
Proof. by destruct l. Qed.

Lemma sublist_fmap {A B} (f : A → B) (l k : list A) :
  l `sublist_of` k → f <$> l `sublist_of` f <$> k.
Proof. induction 1; cbn; by constructor. Qed.

Lemma NoDup_fmap_sublist {A B} (f : A → B) (l k : list A) :
  l `sublist_of` k → NoDup (f <$> k) → NoDup (f <$> l).
Proof. intros. eapply sublist_NoDup; [done|]. by apply sublist_fmap. Qed.

Lemma filter_ext_elem {A} (P Q : A → Prop) `{∀ x, Decision (P x), ∀ x, Decision (Q x)} (l : list A) :
  (∀ x, x ∈ l → P x ↔ Q x) → filter P l = filter Q l.
Proof.
  induction l as [|x l IH]; intros Hpq; [done|]. rewrite !filter_cons.
  rewrite IH by (intros; apply Hpq; by right).
  pose proof (Hpq x ltac:(by left)). repeat case_decide; naive_solver.
Qed.

(** *** Little- and big-endian integers *)

Fixpoint le_bytes (n : nat) (x : Z) : bytes :=
  match n with
  | O => []
  | S n => x mod 256 :: le_bytes n (x / 256)
  end.

Fixpoint from_le (l : bytes) : Z :=
  match l with
  | [] => 0
  | b :: l => b + 256 * from_le l
  end.

Definition be_bytes (n : nat) (x : Z) : bytes := reverse (le_bytes n x).
Definition from_be (l : bytes) : Z := from_le (reverse l).

Lemma le_bytes_length n x : length (le_bytes n x) = n.
Proof. revert x; induction n; intros; simpl; [done|]. by rewrite IHn. Qed.

Lemma be_bytes_length n x : length (be_bytes n x) = n.
Proof. unfold be_bytes. by rewrite length_reverse, le_bytes_length. Qed.

Lemma le_bytes_u8 n x : Forall is_u8 (le_bytes n x).
Proof.
  revert x; induction n; intros; simpl; constructor; [|done].
  apply Z.mod_pos_bound. lia.
Qed.

Lemma be_bytes_u8 n x : Forall is_u8 (be_bytes n x).
Proof. unfold be_bytes. apply Forall_reverse, le_bytes_u8. Qed.

Lemma from_le_le_bytes n x : 0 ≤ x < 256 ^ Z.of_nat n → from_le (le_bytes n x) = x.
Proof.
  revert x; induction n; intros x Hx; simpl.
  - change (256 ^ Z.of_nat 0) with 1 in Hx. lia.
  - rewrite Nat2Z.inj_succ, Z.pow_succ_r in Hx by lia.
    rewrite IHn; [pose proof (Z.div_mod x 256); lia|].
    split; [apply Z.div_pos; lia|]. apply Z.div_lt_upper_bound; lia.
Qed.

Lemma from_be_be_bytes n x : 0 ≤ x < 256 ^ Z.of_nat n → from_be (be_bytes n x) = x.
Proof. intros. unfold from_be, be_bytes. rewrite reverse_involutive. by apply from_le_le_bytes. Qed.

Lemma from_le_bound l : Forall is_u8 l → 0 ≤ from_le l < 256 ^ Z.of_nat (length l).
Proof.
  induction 1 as [|b l Hb _ IH]; [simpl; lia|].
  cbn [from_le length]. rewrite Nat2Z.inj_succ, Z.pow_succ_r by lia. int_bounds. lia.
Qed.

Lemma le_bytes_from_le l : Forall is_u8 l → le_bytes (length l) (from_le l) = l.
Proof.
  induction 1 as [|b l Hb _ IH]; [done|]. cbn [from_le length le_bytes]. int_bounds.
  rewrite Z.mul_comm, Z.mod_add, Z.mod_small, Z.div_add, Z.div_small, Z.add_0_l, IH by lia.
  done.
Qed.

Lemma from_be_bound l : Forall is_u8 l → 0 ≤ from_be l < 256 ^ Z.of_nat (length l).
Proof.
  intros H. unfold from_be. rewrite <- length_reverse. apply from_le_bound.
  by apply Forall_reverse.
Qed.

Lemma be_bytes_from_be l : Forall is_u8 l → be_bytes (length l) (from_be l) = l.
Proof.
  intros H. unfold be_bytes, from_be. rewrite <- (length_reverse l), le_bytes_from_le.
  - apply reverse_involutive.
  - by apply Forall_reverse.
Qed.
