(* ===== verification/Text.v ===== *)
(** * The parts of Rust's [str], [char], [Path] and integer formatting the program uses

    Strings are byte lists ([Prelude.str]).  This file models the standard-library
    routines the components call (splitting, prefixes, decimal printing and parsing,
    UTF-8 validation, byte-wise ordering, path components) and the lemmas about them
    that the round-trip theorems share. *)

From S2P Require Import Prelude.

(** ** Searching and splitting *)

Definition contains (c : Z) (s : str) : bool := existsb (Z.eqb c) s.

Fixpoint strip_prefix (p s : str) : option str :=
  match p, s with
  | [], _ => Some s
  | a :: p, b :: s => if a =? b then strip_prefix p s else None
  | _ :: _, [] => None
  end.

Definition starts_with (p s : str) : bool :=
  match strip_prefix p s with Some _ => true | None => false end.

Definition ends_with (p s : str) : bool := starts_with (reverse p) (reverse s).

(** [str::contains] of a nonempty pattern. *)
Fixpoint contains_str (p s : str) : bool :=
  starts_with p s || match s with [] => false | _ :: s => contains_str p s end.

(** [str::split(sep)]: never empty, one more field than separators. *)
Fixpoint split (sep : Z) (s : str) : list str :=
  match s with
  | [] => [[]]
  | c :: s =>
      if c =? sep then [] :: split sep s
      else match split sep s with
           | [] => [[c]]
           | f :: fs => (c :: f) :: fs
           end
  end.

Fixpoint join (sep : str) (fs : list str) : str :=
  match fs with
  | [] => []
  | [f] => f
  | f :: fs => f ++ sep ++ join sep fs
  end.

(** [str::split_terminator(sep)]: like [split], without a last empty field. *)
Definition split_terminator (sep : Z) (s : str) : list str :=
  let fs := split sep s in
  match reverse fs with
  | [] :: fs' => reverse fs'
  | _ => fs
  end.

(** [str::split_once(sep)] *)
Fixpoint split_once (sep : Z) (s : str) : option (str * str) :=
  match s with
  | [] => None
  | c :: s =>
      if c =? sep then Some ([], s)
      else match split_once sep s with
           | Some (a, b) => Some (c :: a, b)
           | None => None
           end
  end.

(** [str::lines]: a line ends at a newline, with the carriage return before it; a last line
    without a newline is as it is, and is none when it is empty. *)
Definition strip_cr (s : str) : str :=
  match reverse s with c :: s' => if c =? 13 then reverse s' else s | [] => s end.
Definition lines (s : str) : list str :=
  match reverse (split 10 s) with
  | [] => []
  | last :: ended => (strip_cr <$> reverse ended) ++ (if is_empty last then [] else [last])
  end.

Lemma contains_true c s : contains c s = true ↔ c ∈ s.
Proof.
  unfold contains. rewrite existsb_exists. setoid_rewrite list_elem_of_In.
  split; [intros (x & Hx & ->%Z.eqb_eq); done | intros; exists c; by rewrite Z.eqb_refl].
Qed.

Lemma contains_false c s : contains c s = false ↔ c ∉ s.
Proof. rewrite <- contains_true. by destruct (contains c s). Qed.

Lemma strip_prefix_Some p s r : strip_prefix p s = Some r ↔ s = p ++ r.
Proof.
  revert s. induction p as [|a p IH]; intros s; simpl; [naive_solver|].
  destruct s as [|b s]; simpl; [naive_solver|].
  destruct (Z.eqb_spec a b) as [->|Hne]; [rewrite IH; naive_solver|naive_solver].
Qed.

Lemma starts_with_true p s : starts_with p s = true ↔ ∃ r, s = p ++ r.
Proof.
  unfold starts_with. destruct (strip_prefix p s) as [r|] eqn:E.
  - apply strip_prefix_Some in E. naive_solver.
  - split; [done|]. intros [r Hr]. apply strip_prefix_Some in Hr. congruence.
Qed.

Lemma ends_with_true p s : ends_with p s = true ↔ ∃ r, s = r ++ p.
Proof.
  unfold ends_with. rewrite starts_with_true. split; intros [r Hr].
  - exists (reverse r). rewrite <- (reverse_involutive s), Hr, reverse_app.
    by rewrite reverse_involutive.
  - exists (reverse r). by rewrite Hr, reverse_app.
Qed.

Lemma split_nonempty sep s : split sep s ≠ [].
Proof. induction s as [|c s IH]; simpl; [done|]. repeat case_match; done. Qed.

Lemma split_no_sep sep s : Forall (λ f, sep ∉ f) (split sep s).
Proof.
  induction s as [|c s IH]; simpl; [repeat constructor; apply not_elem_of_nil|].
  destruct (Z.eqb_spec c sep); [constructor; [apply not_elem_of_nil|done]|].
  destruct (split sep s) as [|f fs].
  - constructor; [by intros ->%list_elem_of_singleton|done].
  - apply Forall_cons in IH as [Hf Hfs]. constructor; [|done].
    by intros [->|?]%elem_of_cons.
Qed.

Lemma join_split sep s : join [sep] (split sep s) = s.
Proof.
  induction s as [|c s IH]; simpl; [done|].
  pose proof (split_nonempty sep s) as Hne.
  destruct (Z.eqb_spec c sep) as [->|].
  - destruct (split sep s) as [|f fs]; [done|]. by rewrite <- IH.
  - destruct (split sep s) as [|f [|g fs]]; [done| |]; rewrite <- IH; done.
Qed.

(** A field without separator, then a separator: the field is the first one split off. *)
Lemma split_app sep f s :
  sep ∉ f → split sep (f ++ sep :: s) = f :: split sep s.
Proof.
  induction f as [|c f IH]; intros Hf; simpl; [by rewrite Z.eqb_refl|].
  apply not_elem_of_cons in Hf as [Hc Hf].
  destruct (Z.eqb_spec c sep); [congruence|]. by rewrite IH.
Qed.

Lemma split_single sep f : sep ∉ f → split sep f = [f].
Proof.
  induction f as [|c f IH]; intros Hf; simpl; [done|].
  apply not_elem_of_cons in Hf as [Hc Hf].
  destruct (Z.eqb_spec c sep); [congruence|]. by rewrite IH.
Qed.

Lemma split_join sep fs :
  fs ≠ [] → Forall (λ f, sep ∉ f) fs → split sep (join [sep] fs) = fs.
Proof.
  intros Hne Hfs. induction Hfs as [|f fs Hf Hfs IH]; [done|].
  destruct fs as [|g fs]; [by apply split_single|].
  change (join [sep] (f :: g :: fs)) with (f ++ sep :: join [sep] (g :: fs)).
  rewrite split_app by done. by rewrite IH.
Qed.

Lemma split_once_Some sep s a b :
  split_once sep s = Some (a, b) ↔ s = a ++ sep :: b ∧ sep ∉ a.
Proof.
  revert a. induction s as [|c s IH]; intros a; simpl.
  - split; [done|]. intros [H _]. by destruct a.
  - destruct (Z.eqb_spec c sep) as [->|Hne].
    + split; [intros [= <- <-]; split; [done|apply not_elem_of_nil]|].
      intros [H Ha]. destruct a as [|x a]; simplify_eq/=; [done|].
      apply not_elem_of_cons in Ha. naive_solver.
    + destruct (split_once sep s) as [[a' b']|] eqn:E.
      * split.
        -- intros [= <- <-]. destruct (proj1 (IH a') eq_refl) as [-> ?].
           split; [done|]. apply not_elem_of_cons; naive_solver.
        -- intros [H Ha]. destruct a as [|x a]; simplify_eq/=.
           apply not_elem_of_cons in Ha as [? Ha].
           specialize (proj2 (IH a) (conj eq_refl Ha)). naive_solver.
      * split; [done|]. intros [H Ha]. destruct a as [|x a]; simplify_eq/=.
        apply not_elem_of_cons in Ha as [? Ha].
        specialize (proj2 (IH a) (conj eq_refl Ha)). naive_solver.
Qed.

(** Newline-terminated records: [concat] of terminated lines splits back. *)
Fixpoint terminated (sep : Z) (ls : list str) : str :=
  match ls with
  | [] => []
  | l :: ls => l ++ sep :: terminated sep ls
  end.

Lemma split_terminated sep ls :
  Forall (λ l, sep ∉ l) ls → split sep (terminated sep ls) = ls ++ [[]].
Proof.
  induction 1 as [|l ls Hl _ IH]; simpl; [done|]. rewrite split_app by done. by rewrite IH.
Qed.

Lemma terminated_join sep ls :
  ls ≠ [] → terminated sep ls = join [sep] ls ++ [sep].
Proof.
  induction ls as [|l [|l' ls] IH]; intros Hne; [done|done|].
  cbn [terminated join]. cbn [terminated] in IH. rewrite IH by done.
  by rewrite <- !(assoc_L (++)).
Qed.

Lemma split_terminator_terminated sep ls :
  Forall (λ l, sep ∉ l) ls → split_terminator sep (terminated sep ls) = ls.
Proof.
  intros H. unfold split_terminator. rewrite split_terminated by done.
  rewrite reverse_app. simpl. by rewrite reverse_involutive.
Qed.

Lemma lines_terminated ls : Forall (λ l, 10 ∉ l) ls → lines (terminated 10 ls) = strip_cr <$> ls.
Proof.
  intros H. unfold lines. rewrite split_terminated, reverse_app by done.
  change (reverse [[]] ++ reverse ls) with ([] :: reverse ls). cbn [is_empty].
  by rewrite reverse_involutive, app_nil_r.
Qed.

Lemma split_terminator_inv sep s :
  ends_with [sep] s = true →
  s = terminated sep (split_terminator sep s) ∧ Forall (λ l, sep ∉ l) (split_terminator sep s).
Proof.
  intros [r Hr]%ends_with_true.
  assert (∃ ls, r = join [sep] ls ∧ ls ≠ [] ∧ Forall (λ f, sep ∉ f) ls)
    as (ls & Hjoin & Hne & Hls).
  { exists (split sep r). rewrite join_split.
    auto using split_nonempty, split_no_sep. }
  assert (s = terminated sep ls) as Hs by (rewrite terminated_join; congruence).
  rewrite Hs, split_terminator_terminated by done. done.
Qed.

(** ** Decimal integers *)

Fixpoint dec_digits (fuel : nat) (x : Z) : str :=
  match fuel with
  | O => []
  | S fuel => if x <? 10 then [48 + x] else dec_digits fuel (x / 10) ++ [48 + x mod 10]
  end.

(** [u64::to_string]: 20 digits hold every value below [10 ^ 20 > 2 ^ 64]. *)
Definition to_dec (x : Z) : str := dec_digits 20 x.

(** The text as a Rocq string, for the messages built with [format!]. *)
Definition string_of_str (s : str) : string :=
  String.string_of_list_ascii ((λ b, Ascii.ascii_of_N (Z.to_N b)) <$> s).

Definition within (lo hi b : Z) : bool := (lo <=? b) && (b <=? hi).
Definition is_ascii_digit (c : Z) : bool := (48 <=? c) && (c <=? 57).
Definition is_ascii_alphanumeric (c : Z) : bool := within 48 57 c || within 65 90 c || within 97 122 c.

(** [{:0digits$x}] of a number that has no more digits. *)
Definition hex_digit (d : Z) : Z := if d <? 10 then 48 + d else 87 + d.
Fixpoint hex_fixed (digits : nat) (x : Z) : str :=
  match digits with
  | O => []
  | S digits => hex_fixed digits (x / 16) ++ [hex_digit (x mod 16)]
  end.

Definition dec_value (s : str) : Z := fold_left (λ acc c, 10 * acc + (c - 48)) s 0.

(** [str::parse::<u32>]: an optional [+], at least one digit, no overflow. *)
Definition parse_u32 (s : str) : option Z :=
  let digits :=
    match s with c :: ((_ :: _) as s') => if c =? 43 then s' else s | _ => s end in
  if negb (is_empty digits) && forallb is_ascii_digit digits
  then checked_u32 (dec_value digits) else None.

Lemma dec_digits_spec fuel x :
  0 ≤ x < 10 ^ Z.of_nat fuel →
  dec_value (dec_digits fuel x) = x ∧ forallb is_ascii_digit (dec_digits fuel x) = true
  ∧ (fuel ≠ O → dec_digits fuel x ≠ []).
Proof.
  revert x. induction fuel as [|fuel IH]; intros x Hx.
  - change (10 ^ Z.of_nat 0) with 1 in Hx. assert (x = 0) as -> by lia. done.
  - cbn [dec_digits]. destruct (Z.ltb_spec x 10) as [Hlt|Hge].
    + unfold dec_value, is_ascii_digit. simpl. split_and!; [lia| |done].
      rewrite !andb_true_iff, !Z.leb_le. lia.
    + rewrite Nat2Z.inj_succ, Z.pow_succ_r in Hx by lia.
      pose proof (Z.div_mod x 10) as Hdm. pose proof (Z.mod_pos_bound x 10) as Hm.
      destruct (IH (x / 10)) as (Hv & Hd & _).
      { split; [apply Z.div_pos; lia|apply Z.div_lt_upper_bound; lia]. }
      split_and!.
      * unfold dec_value in *. rewrite fold_left_app, Hv. simpl. lia.
      * rewrite forallb_app, Hd. simpl. unfold is_ascii_digit.
        rewrite !andb_true_iff, !Z.leb_le. lia.
      * intros _ ?%app_nil. naive_solver.
Qed.

Lemma is_ascii_digit_not c s d :
  forallb is_ascii_digit s = true → is_ascii_digit d = false → d = c → c ∉ s.
Proof.
  intros Hs Hd -> Hin. rewrite forallb_forall in Hs.
  apply list_elem_of_In, Hs in Hin. congruence.
Qed.

Lemma to_dec_spec x :
  is_u32 x → dec_value (to_dec x) = x ∧ forallb is_ascii_digit (to_dec x) = true
             ∧ to_dec x ≠ [].
Proof.
  intros H. unfold to_dec.
  assert (0 ≤ x < 10 ^ Z.of_nat 20) as Hx by (int_bounds; lia).
  destruct (dec_digits_spec 20 x Hx) as (Hv & Hd & Hne).
  split; [exact Hv|]. split; [exact Hd|]. by apply Hne.
Qed.

#[global] Opaque to_dec.

Lemma parse_u32_digits s :
  s ≠ [] → forallb is_ascii_digit s = true → parse_u32 s = checked_u32 (dec_value s).
Proof.
  intros Hne Hs. unfold parse_u32. destruct s as [|c s]; [done|].
  assert (c =? 43 = false) as ->.
  { apply Z.eqb_neq. intros ->. done. }
  assert (match s with [] => c :: s | _ :: _ => c :: s end = c :: s) as -> by by destruct s.
  by rewrite Hs.
Qed.

Lemma parse_u32_to_dec x : is_u32 x → parse_u32 (to_dec x) = Some x.
Proof.
  intros H. destruct (to_dec_spec x H) as (Hv & Hd & Hne).
  rewrite parse_u32_digits by done. rewrite Hv. apply checked_in_Some. int_bounds. lia.
Qed.

Lemma to_dec_no_byte x c : is_u32 x → is_ascii_digit c = false → c ∉ to_dec x.
Proof.
  intros H Hc. destruct (to_dec_spec x H) as (_ & Hd & _).
  by eapply is_ascii_digit_not.
Qed.

Lemma parse_u32_range s x : parse_u32 s = Some x → is_u32 x.
Proof.
  unfold parse_u32. case_match; [|done]. intros [-> ?]%checked_in_Some. done.
Qed.

(** ** UTF-8 *)

(** Unicode scalar values ([char]). *)
Definition is_scalar (c : Z) : bool :=
  (0 <=? c) && (c <=? 1114111) && negb ((55296 <=? c) && (c <=? 57343)).

Definition cont (b : Z) : bool := (128 <=? b) && (b <=? 191).

(** [char::encode_utf8] *)
Definition utf8_encode (c : Z) : bytes :=
  if c <? 128 then [c]
  else if c <? 2048 then [192 + c / 64; 128 + c mod 64]
  else if c <? 65536 then [224 + c / 4096; 128 + c / 64 mod 64; 128 + c mod 64]
  else [240 + c / 262144; 128 + c / 4096 mod 64; 128 + c / 64 mod 64; 128 + c mod 64].

(** [str::from_utf8]: strict decoding (shortest forms, no surrogates, at most
    U+10FFFF), as the scalar values of the string. *)
Fixpoint utf8_decode (s : bytes) : option (list Z) :=
  match s with
  | [] => Some []
  | b0 :: s1 =>
      if within 0 127 b0 then (cons b0) <$> utf8_decode s1
      else match s1 with
      | [] => None
      | b1 :: s2 =>
          if within 194 223 b0 then
            if cont b1 then (cons ((b0 - 192) * 64 + (b1 - 128))) <$> utf8_decode s2
            else None
          else match s2 with
          | [] => None
          | b2 :: s3 =>
              if within 224 239 b0 then
                if within (if b0 =? 224 then 160 else 128)
                          (if b0 =? 237 then 159 else 191) b1 && cont b2
                then (cons ((b0 - 224) * 4096 + (b1 - 128) * 64 + (b2 - 128)))
                       <$> utf8_decode s3
                else None
              else match s3 with
              | [] => None
              | b3 :: s4 =>
                  if within 240 244 b0
                     && within (if b0 =? 240 then 144 else 128)
                               (if b0 =? 244 then 143 else 191) b1
                     && cont b2 && cont b3
                  then (cons ((b0 - 240) * 262144 + (b1 - 128) * 4096
                              + (b2 - 128) * 64 + (b3 - 128))) <$> utf8_decode s4
                  else None
              end
          end
      end
  end.

Definition utf8_valid (s : bytes) : bool :=
  match utf8_decode s with Some _ => true | None => false end.

(** [str::chars]: the scalar values of a Rust string.  A [str] is always valid UTF-8,
    so the decoder's failure case is never taken on one. *)
Definition chars (s : str) : list Z := default [] (utf8_decode s).

(** [char::is_control]: general category Cc. *)
Definition is_control (c : Z) : bool := within 0 31 c || within 127 159 c.

Lemma within_iff lo hi b : within lo hi b = true ↔ lo ≤ b ≤ hi.
Proof. unfold within. rewrite andb_true_iff, !Z.leb_le. done. Qed.

Lemma within_false lo hi b : within lo hi b = false ↔ b < lo ∨ hi < b.
Proof. unfold within. rewrite andb_false_iff, !Z.leb_gt. done. Qed.

Lemma cont_true b : 128 ≤ b ≤ 191 → cont b = true.
Proof. intros. by apply within_iff. Qed.

(** A run of ASCII bytes decodes to itself. *)
Lemma utf8_decode_ascii s : Forall (λ b, within 0 127 b = true) s → utf8_decode s = Some s.
Proof. induction 1 as [|b s Hb _ IH]; simpl; [done|]. by rewrite Hb, IH. Qed.

Ltac byte_in lo hi b := rewrite (proj2 (within_iff lo hi b)) by (done || lia).
Ltac byte_out lo hi b := rewrite (proj2 (within_false lo hi b)) by lia.
Ltac euclid := Z.div_mod_to_equations; lia.

Lemma utf8_decode_2 b0 b1 t :
  194 ≤ b0 ≤ 223 → 128 ≤ b1 ≤ 191 →
  utf8_decode (b0 :: b1 :: t) = cons ((b0 - 192) * 64 + (b1 - 128)) <$> utf8_decode t.
Proof.
  intros H0 H1. cbn [utf8_decode].
  byte_out 0 127 b0. byte_in 194 223 b0. rewrite (cont_true b1) by lia. done.
Qed.

Lemma utf8_decode_3 b0 b1 b2 t :
  224 ≤ b0 ≤ 239 → (if b0 =? 224 then 160 else 128) ≤ b1 ≤ (if b0 =? 237 then 159 else 191) →
  128 ≤ b2 ≤ 191 →
  utf8_decode (b0 :: b1 :: b2 :: t)
  = cons ((b0 - 224) * 4096 + (b1 - 128) * 64 + (b2 - 128)) <$> utf8_decode t.
Proof.
  intros H0 H1 H2. cbn [utf8_decode].
  byte_out 0 127 b0. byte_out 194 223 b0. byte_in 224 239 b0.
  byte_in (if b0 =? 224 then 160 else 128) (if b0 =? 237 then 159 else 191) b1.
  rewrite (cont_true b2) by lia. done.
Qed.

Lemma utf8_decode_4 b0 b1 b2 b3 t :
  240 ≤ b0 ≤ 244 → (if b0 =? 240 then 144 else 128) ≤ b1 ≤ (if b0 =? 244 then 143 else 191) →
  128 ≤ b2 ≤ 191 → 128 ≤ b3 ≤ 191 →
  utf8_decode (b0 :: b1 :: b2 :: b3 :: t)
  = cons ((b0 - 240) * 262144 + (b1 - 128) * 4096 + (b2 - 128) * 64 + (b3 - 128))
      <$> utf8_decode t.
Proof.
  intros H0 H1 H2 H3. cbn [utf8_decode].
  byte_out 0 127 b0. byte_out 194 223 b0. byte_out 224 239 b0. byte_in 240 244 b0.
  byte_in (if b0 =? 240 then 144 else 128) (if b0 =? 244 then 143 else 191) b1.
  rewrite (cont_true b2) by lia. rewrite (cont_true b3) by lia. done.
Qed.

(** Decoding undoes encoding, one scalar value at a time. *)
Lemma utf8_decode_encode c t :
  is_scalar c = true → utf8_decode (utf8_encode c ++ t) = cons c <$> utf8_decode t.
Proof.
  unfold is_scalar. intros H. bool_props.
  assert (c < 55296 ∨ 57343 < c) as Hs.
  { apply andb_false_iff in H0 as [?|?]; bool_props; lia. }
  unfold utf8_encode.
  destruct (Z.ltb_spec c 128).
  { simpl. byte_in 0 127 c. done. }
  destruct (Z.ltb_spec c 2048).
  { simpl app. rewrite utf8_decode_2 by euclid.
    replace ((192 + c / 64 - 192) * 64 + (128 + c mod 64 - 128)) with c by euclid. done. }
  destruct (Z.ltb_spec c 65536).
  { simpl app. rewrite utf8_decode_3.
    - replace (_ + _ + _) with c by euclid. done.
    - euclid.
    - destruct (Z.eqb_spec (224 + c / 4096) 224), (Z.eqb_spec (224 + c / 4096) 237); euclid.
    - euclid. }
  simpl app. rewrite utf8_decode_4.
  - replace (_ + _ + _ + _) with c by euclid. done.
  - euclid.
  - destruct (Z.eqb_spec (240 + c / 262144) 240), (Z.eqb_spec (240 + c / 262144) 244); euclid.
  - euclid.
  - euclid.
Qed.

(** The Rust string holding the scalar values [cs]. *)
Definition utf8 (cs : list Z) : str := concat (utf8_encode <$> cs).

Lemma chars_utf8 cs : forallb is_scalar cs = true → chars (utf8 cs) = cs.
Proof.
  intros H. unfold chars. assert (utf8_decode (utf8 cs) = Some cs) as ->; [|done].
  induction cs as [|c cs IH]; [done|]. cbn [forallb] in H. bool_props.
  change (utf8 (c :: cs)) with (utf8_encode c ++ utf8 cs).
  by rewrite utf8_decode_encode, IH.
Qed.

Lemma utf8_encode_nonempty c : utf8_encode c ≠ [].
Proof. unfold utf8_encode. by repeat case_match. Qed.

Lemma is_empty_utf8 cs : is_empty (utf8 cs) = is_empty cs.
Proof.
  destruct cs as [|c cs]; [done|]. change (utf8 (c :: cs)) with (utf8_encode c ++ utf8 cs).
  pose proof (utf8_encode_nonempty c). by destruct (utf8_encode c).
Qed.

(** Decoding is local: a valid prefix can be split off. *)
Lemma utf8_decode_app s t cs :
  utf8_decode s = Some cs → utf8_decode (s ++ t) = app cs <$> utf8_decode t.
Proof.
  remember (length s) as n eqn:Hn. revert s cs Hn.
  induction (lt_wf n) as [n _ IH]. intros s cs -> Hs.
  assert (∀ s' cs', (length s' < length s)%nat → utf8_decode s' = Some cs' →
            utf8_decode (s' ++ t) = app cs' <$> utf8_decode t) as IH'.
  { intros s' cs' Hlt. by apply (IH (length s') Hlt). }
  clear IH. destruct s as [|b0 s1]; [cbn in Hs; simplify_eq; cbn [app]; by destruct (utf8_decode t)|].
  cbn [utf8_decode app] in *. destruct (within 0 127 b0).
  { apply fmap_Some in Hs as (cs' & Hs & ->). rewrite (IH' _ cs'); [|cbn; lia|done].
    by destruct (utf8_decode t). }
  destruct s1 as [|b1 s2]; [done|]. cbn [app]. destruct (within 194 223 b0).
  { destruct (cont b1); [|done].
    apply fmap_Some in Hs as (cs' & Hs & ->). rewrite (IH' _ cs'); [|cbn; lia|done].
    by destruct (utf8_decode t). }
  destruct s2 as [|b2 s3]; [done|]. cbn [app]. destruct (within 224 239 b0).
  { destruct (_ && cont b2); [|done].
    apply fmap_Some in Hs as (cs' & Hs & ->). rewrite (IH' _ cs'); [|cbn; lia|done].
    by destruct (utf8_decode t). }
  destruct s3 as [|b3 s4]; [done|]. cbn [app]. destruct (_ && cont b3); [|done].
  apply fmap_Some in Hs as (cs' & Hs & ->). rewrite (IH' _ cs'); [|cbn; lia|done].
  by destruct (utf8_decode t).
Qed.

Lemma utf8_valid_app s t : utf8_valid s = true → utf8_valid t = true → utf8_valid (s ++ t) = true.
Proof.
  unfold utf8_valid. destruct (utf8_decode s) as [cs|] eqn:Hs; [|done].
  rewrite (utf8_decode_app _ t _ Hs). by destruct (utf8_decode t).
Qed.

Lemma utf8_valid_ascii s : Forall (λ b, within 0 127 b = true) s → utf8_valid s = true.
Proof. intros. unfold utf8_valid. by rewrite utf8_decode_ascii. Qed.

(** ** Byte-wise order of strings ([Ord for str]) *)

Fixpoint str_ltb (s t : str) : bool :=
  match s, t with
  | _, [] => false
  | [], _ :: _ => true
  | a :: s, b :: t => if a =? b then str_ltb s t else a <? b
  end.

Lemma str_ltb_irrefl s : str_ltb s s = false.
Proof. induction s as [|a s IH]; simpl; [done|]. by rewrite Z.eqb_refl. Qed.

Lemma str_ltb_trans s t u : str_ltb s t = true → str_ltb t u = true → str_ltb s u = true.
Proof.
  revert t u. induction s as [|a s IH]; intros [|b t] [|c u]; simpl; try done.
  destruct (Z.eqb_spec a b), (Z.eqb_spec b c), (Z.eqb_spec a c); subst;
    rewrite ?Z.ltb_lt; intros; try lia; eauto.
Qed.

Lemma str_ltb_total s t : str_ltb s t = false → str_ltb t s = false → s = t.
Proof.
  revert t. induction s as [|a s IH]; intros [|b t]; cbn; try done.
  destruct (Z.eqb_spec a b) as [->|Hne].
  - rewrite Z.eqb_refl. intros H1 H2. f_equal. by apply IH.
  - rewrite (proj2 (Z.eqb_neq b a)) by done. rewrite !Z.ltb_ge. lia.
Qed.

Lemma str_ltb_asym s t : str_ltb s t = true → str_ltb t s = false.
Proof.
  intros Hst. destruct (str_ltb t s) eqn:Hts; [|done].
  pose proof (str_ltb_trans s t s Hst Hts) as Hs. by rewrite str_ltb_irrefl in Hs.
Qed.

(** ** Unix paths ([std::path]) *)

Inductive Component :=
| RootDir
| CurDir
| ParentDir
| Normal (name : str).

#[export] Instance Component_eq_dec : EqDecision Component.
Proof. solve_decision. Defined.

Definition is_absolute (p : str) : bool := starts_with (bstr "/") p.

(** [Path::components]: empty components and [.] vanish, except a leading [.] of a
    relative path. *)
Definition component_of (f : str) : option Component :=
  if is_empty f || bool_decide (f = bstr ".") then None
  else if bool_decide (f = bstr "..") then Some ParentDir else Some (Normal f).

Definition components (p : str) : list Component :=
  let fs := split 47 p in
  if is_absolute p then RootDir :: omap component_of fs
  else match fs with
       | f :: fs' =>
           if bool_decide (f = bstr ".") then CurDir :: omap component_of fs'
           else omap component_of fs
       | [] => []
       end.

(** [Path::starts_with]: a prefix component by component. *)
Fixpoint component_prefix (p q : list Component) : bool :=
  match p, q with
  | [], _ => true
  | a :: p, b :: q => bool_decide (a = b) && component_prefix p q
  | _ :: _, [] => false
  end.

Definition path_starts_with (p base : str) : bool :=
  component_prefix (components base) (components p).

(** [Path::file_name] *)
Definition file_name (p : str) : option str :=
  match last (components p) with Some (Normal f) => Some f | _ => None end.

(** [PathBuf::join] with a relative path. *)
Definition path_join (base relative : str) : str :=
  if ends_with (bstr "/") base || is_empty base then base ++ relative
  else base ++ bstr "/" ++ relative.

Definition is_root_or_normal (c : Component) : bool :=
  match c with RootDir | Normal _ => true | _ => false end.
