(* ===== verification/Bounded.v ===== *)
(** * [agent-seat-proto/src/bounded.rs]: allocation-bounded strings and lists

    A [BoundedText MAX] or [BoundedList T MAX] carries the proof of its bound, as the
    private field of the Rust type makes every value go through [new] or the
    deserialization visitor. *)

From stdpp Require Import pretty.
From S2P Require Import Prelude Text.

#[global] Coercion Z.of_N : N >-> Z.

Record BoundError := { BoundError_limit : Z; BoundError_actual : Z }.

#[export] Instance BoundError_eq_dec : EqDecision BoundError.
Proof. solve_decision. Defined.

(** [{}] of an unsigned integer in [format!]. *)
Definition decimal (x : Z) : string := pretty (Z.to_N x).

(** [BoundError::to_string] *)
Definition BoundError_to_string (self : BoundError) : string :=
  "value has " +:+ decimal (BoundError_actual self) +:+ " bytes or items; maximum is "
  +:+ decimal (BoundError_limit self).

Definition over (MAX : N) {A} (l : list A) : bool := MAX <? len l.

Lemma over_false MAX {A} (l : list A) : over MAX l = false ↔ len l ≤ MAX.
Proof. unfold over. rewrite Z.ltb_ge. done. Qed.

(** ** [BoundedList] *)

Record BoundedList (T : Type) (MAX : N) := mkBoundedList {
  as_slice : list T;
  as_slice_bound : over MAX as_slice = false
}.
Arguments mkBoundedList {T MAX} _ _.
Arguments as_slice {T MAX} _.
Arguments as_slice_bound {T MAX} _.

Definition BoundedList_new {T} {MAX : N} (values : list T)
  : result (BoundedList T MAX) BoundError :=
  match sumbool_of_bool (over MAX values) with
  | left _ => Err {| BoundError_limit := MAX; BoundError_actual := len values |}
  | right H => Ok (mkBoundedList values H)
  end.

Program Definition BoundedList_default {T} {MAX : N} : BoundedList T MAX :=
  mkBoundedList [] _.
Next Obligation. intros. apply over_false. unfold len. simpl. lia. Qed.

Lemma as_slice_inj {T MAX} (l k : BoundedList T MAX) : as_slice l = as_slice k → l = k.
Proof.
  destruct l as [l Hl], k as [k Hk]; simpl. intros ->. f_equal. apply proof_irrel.
Qed.

#[export] Instance BoundedList_eq_dec {T MAX} `{EqDecision T} : EqDecision (BoundedList T MAX).
Proof.
  intros l k. destruct (decide (as_slice l = as_slice k)) as [H|H].
  - left. by apply as_slice_inj.
  - right. congruence.
Defined.

Lemma as_slice_le {T MAX} (l : BoundedList T MAX) : len (as_slice l) ≤ MAX.
Proof. apply over_false, as_slice_bound. Qed.

Lemma BoundedList_new_Ok {T MAX} (values : list T) (l : BoundedList T MAX) :
  BoundedList_new values = Ok l ↔ as_slice l = values.
Proof.
  unfold BoundedList_new. destruct (sumbool_of_bool _) as [H|H]; split.
  - done.
  - intros <-. by rewrite as_slice_bound in H.
  - by intros [= <-].
  - intros <-. f_equal. by apply as_slice_inj.
Qed.

Lemma BoundedList_new_fits {T} (MAX : N) (values : list T) :
  len values ≤ MAX → ∃ l : BoundedList T MAX, BoundedList_new values = Ok l.
Proof.
  intros H%over_false. unfold BoundedList_new. destruct (sumbool_of_bool _); [congruence|eauto].
Qed.

(** ** [BoundedText] *)

Record BoundedText (MAX : N) := mkBoundedText {
  as_str : str;
  as_str_bound : over MAX as_str = false
}.
Arguments mkBoundedText {MAX} _ _.
Arguments as_str {MAX} _.
Arguments as_str_bound {MAX} _.

Definition BoundedText_new {MAX : N} (value : str) : result (BoundedText MAX) BoundError :=
  match sumbool_of_bool (over MAX value) with
  | left _ => Err {| BoundError_limit := MAX; BoundError_actual := len value |}
  | right H => Ok (mkBoundedText value H)
  end.

Lemma as_str_inj {MAX} (s t : BoundedText MAX) : as_str s = as_str t → s = t.
Proof.
  destruct s as [s Hs], t as [t Ht]; simpl. intros ->. f_equal. apply proof_irrel.
Qed.

#[export] Instance BoundedText_eq_dec {MAX} : EqDecision (BoundedText MAX).
Proof.
  intros s t. destruct (decide (as_str s = as_str t)) as [H|H].
  - left. by apply as_str_inj.
  - right. congruence.
Defined.

Lemma as_str_le {MAX} (s : BoundedText MAX) : len (as_str s) ≤ MAX.
Proof. apply over_false, as_str_bound. Qed.

Lemma BoundedText_new_Ok {MAX} (value : str) (s : BoundedText MAX) :
  BoundedText_new value = Ok s ↔ as_str s = value.
Proof.
  unfold BoundedText_new. destruct (sumbool_of_bool _) as [H|H]; split.
  - done.
  - intros <-. by rewrite as_str_bound in H.
  - by intros [= <-].
  - intros <-. f_equal. by apply as_str_inj.
Qed.

Lemma BoundedText_new_spec {MAX : N} (value : str) :
  (len value ≤ MAX ∧ ∃ s, @BoundedText_new MAX value = Ok s ∧ as_str s = value)
  ∨ (MAX < len value ∧ @BoundedText_new MAX value
       = Err {| BoundError_limit := MAX; BoundError_actual := len value |}).
Proof.
  unfold BoundedText_new. destruct (sumbool_of_bool _) as [H|H].
  - right. split; [by apply Z.ltb_lt|done].
  - left. split; [by apply over_false|eauto].
Qed.

(** ** Deserialization of a bounded list

    The format's sequence access is an argument: the pending raw elements, what
    [next_element::<T>] and [next_element::<IgnoredAny>] make of one, and the optional
    size hint. *)

Section visit_seq.
Context {Raw T E : Type} (MAX : N).
Context (next : Raw → result T E) (ignored : Raw → result unit E) (custom : string → E).

(** [while values.len() < MAX { .. }], then one probe for a surplus element. *)
Fixpoint visit_items (values : list T) (sequence : list Raw) : result (list T) E :=
  if len values <? MAX then
    match sequence with
    | [] => Ok values
    | raw :: sequence => let? value := next raw in visit_items (values ++ [value]) sequence
    end
  else
    match sequence with
    | [] => Ok values
    | raw :: _ => ignored raw ;? Err (custom "list exceeds its item bound")
    end.

Lemma visit_items_bound values sequence l :
  len values ≤ MAX → visit_items values sequence = Ok l → over MAX l = false.
Proof.
  revert values. induction sequence as [|raw sequence IH]; intros values Hv; simpl.
  - case_match; intros [= <-]; by apply over_false.
  - case_match; bool_props.
    + destruct (next raw) as [v|]; simpl; [|done]. apply IH.
      rewrite len_app. unfold len in *. simpl. lia.
    + by destruct (ignored raw).
Qed.

Lemma visit_start : len (@nil T) ≤ MAX.
Proof. unfold len. simpl. lia. Qed.

Definition visit_seq (size_hint : option N) (sequence : list Raw)
  : result (BoundedList T MAX) E :=
  if match size_hint with Some size => MAX <? size | None => false end
  then Err (custom "list exceeds its item bound")
  else
    match visit_items [] sequence as r
          return visit_items [] sequence = r → result (BoundedList T MAX) E with
    | Ok values => λ H, Ok (mkBoundedList values (visit_items_bound [] sequence values visit_start H))
    | Err error => λ _, Err error
    end eq_refl.

Lemma visit_seq_no_hint sequence :
  result_map as_slice (visit_seq None sequence) = visit_items [] sequence.
Proof.
  unfold visit_seq. generalize (visit_items_bound [] sequence).
  by destruct (visit_items [] sequence).
Qed.

(** Elements [next] reads are kept in order while there is room for them. *)
Lemma visit_items_read values sequence vs :
  Forall2 (λ raw v, next raw = Ok v) sequence vs →
  len values + len vs ≤ MAX → visit_items values sequence = Ok (values ++ vs).
Proof.
  intros H. revert values. induction H as [|raw v sequence vs Hv _ IH]; intros values Hlen.
  - simpl. rewrite app_nil_r. by case_match.
  - simpl. assert (len (v :: vs) = 1 + len vs) as Hc by (unfold len; simpl; lia).
    pose proof (len_nonneg vs). rewrite (proj2 (Z.ltb_lt _ _)) by lia.
    rewrite Hv. simpl. rewrite IH; [by rewrite <- (assoc_L (++))|].
    rewrite len_app. unfold len at 2. simpl. lia.
Qed.
(** And nothing else is built. *)
Lemma visit_items_Ok values sequence l :
  visit_items values sequence = Ok l →
  ∃ vs, l = values ++ vs ∧ Forall2 (λ raw v, next raw = Ok v) sequence vs.
Proof.
  revert values. induction sequence as [|raw sequence IH]; intros values; simpl.
  - case_match; intros [= <-]; exists []; by rewrite app_nil_r.
  - case_match; [|by destruct (ignored raw)].
    destruct (next raw) as [v|] eqn:Hv; simpl; [|done].
    intros (vs & -> & Hvs)%IH. exists (v :: vs). rewrite <- (assoc_L (++)). by split; [|constructor].
Qed.

(** A surplus element ends the visit. *)
Lemma visit_items_surplus values read vs surplus rest :
  Forall2 (λ raw v, next raw = Ok v) read vs →
  len values + len vs = MAX → ignored surplus = Ok tt →
  visit_items values (read ++ surplus :: rest) = Err (custom "list exceeds its item bound").
Proof.
  intros H. revert values. induction H as [|raw v read vs Hv _ IH]; intros values Hlen Hs.
  - simpl. change (len (@nil T)) with 0 in Hlen. rewrite (proj2 (Z.ltb_ge _ _)) by lia.
    by rewrite Hs.
  - simpl. assert (len (v :: vs) = 1 + len vs) as Hc by (unfold len; simpl; lia).
    pose proof (len_nonneg vs). rewrite (proj2 (Z.ltb_lt _ _)) by lia.
    rewrite Hv. simpl. apply IH; [|done]. rewrite len_app. unfold len at 2. simpl. lia.
Qed.

Lemma visit_seq_Ok size_hint sequence l :
  visit_seq size_hint sequence = Ok l ↔
  (∀ size, size_hint = Some size → size ≤ MAX) ∧ visit_items [] sequence = Ok (as_slice l).
Proof.
  rewrite <- visit_seq_no_hint.
  assert (∀ r : result (BoundedList T MAX) E, r = Ok l ↔ result_map as_slice r = Ok (as_slice l)) as Hinj.
  { intros [k|]; simpl; [|done]. split; [by intros [= ->]|intros [= ?]; f_equal; by apply as_slice_inj]. }
  rewrite <- Hinj. unfold visit_seq. destruct size_hint as [size|]; [|naive_solver].
  destruct (Z.ltb_spec MAX size); split; try done.
  - intros [Hle _]. specialize (Hle _ eq_refl). lia.
  - intros Hok. split; [|done]. intros ? [= <-]. lia.
  - by intros [_ Hok].
Qed.

(** Deserializing a bounded list is exact and stops at the bound.  Whatever the element
    decoder is, a list is produced precisely when the size hint does not exceed the bound,
    the sequence has at most [MAX] elements and each decodes, and it holds those elements
    in order.  A sequence with a surplus element is refused whatever follows that element,
    so at most [MAX] elements are ever decoded and kept. *)
Theorem bounded_list_deserializes_exactly size_hint sequence l :
  (visit_seq size_hint sequence = Ok l ↔
     (∀ size, size_hint = Some size → size ≤ MAX) ∧ len sequence ≤ MAX ∧
     Forall2 (λ raw v, next raw = Ok v) sequence (as_slice l)) ∧
  (∀ read vs surplus rest,
     Forall2 (λ raw v, next raw = Ok v) read vs → len read = MAX → ignored surplus = Ok tt →
     visit_seq None (read ++ surplus :: rest) = Err (custom "list exceeds its item bound")).
Proof.
  split.
  - rewrite visit_seq_Ok. apply and_iff_compat_l. split.
    + intros (vs & Hl & Hvs)%visit_items_Ok. simpl in Hl. subst vs. split; [|done].
      pose proof (as_slice_le l). apply Forall2_length in Hvs. unfold len in *. lia.
    + intros [Hlen Hvs]. apply (visit_items_read []); [done|]. exact (as_slice_le l).
  - intros read vs surplus rest Hvs Hlen Hs. pose proof (Forall2_length _ _ _ Hvs) as Hl.
    assert (visit_items [] (read ++ surplus :: rest) = Err (custom "list exceeds its item bound")) as Hv.
    { apply (visit_items_surplus [] read vs); [done| |done]. unfold len in *. simpl. lia. }
    pose proof (visit_seq_no_hint (read ++ surplus :: rest)) as Heq. rewrite Hv in Heq.
    destruct (visit_seq None _); simplify_eq/=; done.
Qed.
End visit_seq.
