(* ===== verification/Protocol.v ===== *)
(** * [agent-seat-proto/src/lib.rs] and [ids.rs]: constants, [Validate] and identities

    An identity is its wire value; the nonzero identities ([RequestId], [SessionId],
    [ClientId], [LaunchToken]) are built from a [NonZeroU64], whose constructor refuses
    zero. *)

From S2P Require Import Prelude.

Definition PROTOCOL_NAME : str := bstr "agent-seat".
Definition PROTOCOL_REVISION : Z := 9.
Definition MAX_ADVERTISEMENT_BYTES : Z := 256.
Definition MAX_REQUEST_FRAME_BYTES : Z := 64 * 1024.
Definition MAX_RESPONSE_FRAME_BYTES : Z := 12 * 1024 * 1024.

(** Validation performed after strict deserialization and before use; the error is a
    static description. *)
Class Validate (T : Type) := validate : T → result unit string.

(** ** Identities *)

Definition RequestId : Type := Z.
Definition SessionId : Type := Z.
Definition ClientId : Type := Z.
Definition LaunchToken : Type := Z.
Definition Sequence : Type := Z.
Definition Generation : Type := Z.
Definition WorkspaceId : Type := Z.

Definition NonZeroU64_new (value : Z) : option Z := if value =? 0 then None else Some value.

Definition nonzero_id (id : Z) : Prop := 0 < id ≤ U64_MAX.

Lemma NonZeroU64_new_Some value id :
  is_u64 value → NonZeroU64_new value = Some id → nonzero_id id ∧ id = value.
Proof.
  unfold NonZeroU64_new, nonzero_id. intros H Hn. case_match; bool_props; simplify_eq.
  int_bounds. lia.
Qed.
