(* ===== verification/Advertisement.v ===== *)
(** * [agent-seat-proto/src/advertisement.rs]: the X11 discovery property *)

From S2P Require Import Prelude Text Protocol.

Definition SEPARATOR : Z := 0.
Definition REVISION_TEXT : str := bstr "9".

Record Advertisement := { Advertisement_socket : str }.

Inductive AdvertisementError :=
| AdvertisementError_TooLarge
| AdvertisementError_Fields
| AdvertisementError_Protocol
| AdvertisementError_Revision
| AdvertisementError_Socket.

#[export] Instance Advertisement_eq_dec : EqDecision Advertisement.
Proof. solve_decision. Defined.
#[export] Instance AdvertisementError_eq_dec : EqDecision AdvertisementError.
Proof. solve_decision. Defined.

Definition validate_socket (socket : str) : result unit AdvertisementError :=
  if is_empty socket || negb (starts_with (bstr "/") socket) || contains SEPARATOR socket
  then Err AdvertisementError_Socket
  else if 107 <? len socket then Err AdvertisementError_Socket
  else Ok tt.

(** The iterator [fields] is the list of the fields still to come: [next] is [head]. *)
Definition Advertisement_parse (value : str) : result Advertisement AdvertisementError :=
  if MAX_ADVERTISEMENT_BYTES <? len value then Err AdvertisementError_TooLarge else
  let fields := split SEPARATOR value in
  if negb (bool_decide (head fields = Some PROTOCOL_NAME))
  then Err AdvertisementError_Protocol else
  let fields := tail fields in
  let? revision := ok_or (head fields) AdvertisementError_Fields in
  let fields := tail fields in
  if negb (bool_decide (revision = REVISION_TEXT)) then Err AdvertisementError_Revision else
  let? socket := ok_or (head fields) AdvertisementError_Fields in
  let fields := tail fields in
  if bool_decide (is_Some (head fields)) then Err AdvertisementError_Fields else
  validate_socket socket ;?
  Ok {| Advertisement_socket := socket |}.

Definition Advertisement_new (socket : str) : result Advertisement AdvertisementError :=
  validate_socket socket ;?
  let encoded_len := len PROTOCOL_NAME + 1 + len REVISION_TEXT + 1 + len socket in
  if MAX_ADVERTISEMENT_BYTES <? encoded_len then Err AdvertisementError_TooLarge else
  Ok {| Advertisement_socket := socket |}.

Definition Advertisement_encode (self : Advertisement) : str :=
  PROTOCOL_NAME ++ [SEPARATOR] ++ to_dec PROTOCOL_REVISION ++ [SEPARATOR]
    ++ Advertisement_socket self.

(** ** Lemmas *)

Definition socket_ok (socket : str) : Prop :=
  (∃ rest, socket = bstr "/" ++ rest) ∧ SEPARATOR ∉ socket ∧ len socket ≤ 107.

Lemma validate_socket_ok socket : validate_socket socket = Ok tt ↔ socket_ok socket.
Proof.
  unfold validate_socket, socket_ok. split.
  - intros H. repeat case_match; try done. bool_props.
    rewrite <- starts_with_true, <- contains_false. split_and!; done.
  - intros ([rest ->] & Hsep & Hlen).
    rewrite (proj2 (contains_false _ _) Hsep), (proj2 (Z.ltb_ge _ _) Hlen).
    rewrite (proj2 (starts_with_true _ _)) by eauto. done.
Qed.

Lemma REVISION_TEXT_dec : to_dec PROTOCOL_REVISION = REVISION_TEXT.
Proof. by vm_compute. Qed.

(** The separator-joined form of the encoding. *)
Lemma encode_join a :
  Advertisement_encode a
  = join [SEPARATOR] [PROTOCOL_NAME; REVISION_TEXT; Advertisement_socket a].
Proof. unfold Advertisement_encode. by rewrite REVISION_TEXT_dec. Qed.

Lemma encode_len a :
  len (Advertisement_encode a) = 13 + len (Advertisement_socket a).
Proof.
  rewrite encode_join. cbn [join]. rewrite !len_app.
  change (len PROTOCOL_NAME) with 10. change (len REVISION_TEXT) with 1.
  change (len [SEPARATOR]) with 1. lia.
Qed.

Lemma encode_split a :
  socket_ok (Advertisement_socket a) →
  split SEPARATOR (Advertisement_encode a)
  = [PROTOCOL_NAME; REVISION_TEXT; Advertisement_socket a].
Proof.
  intros (_ & Hsep & _). rewrite encode_join. apply split_join; [done|].
  repeat constructor; [..|done]; apply contains_false; by vm_compute.
Qed.

Lemma Advertisement_new_Ok socket a :
  Advertisement_new socket = Ok a ↔ a = {| Advertisement_socket := socket |} ∧ socket_ok socket.
Proof.
  unfold Advertisement_new. rewrite <- validate_socket_ok.
  destruct (validate_socket socket) as [[]|] eqn:Hs; simpl; [|naive_solver].
  apply validate_socket_ok in Hs as (_ & _ & Hlen).
  rewrite (proj2 (Z.ltb_ge _ _)); [naive_solver|].
  change (len PROTOCOL_NAME) with 10. change (len REVISION_TEXT) with 1.
  unfold MAX_ADVERTISEMENT_BYTES. lia.
Qed.

Lemma Advertisement_parse_Ok value a :
  Advertisement_parse value = Ok a →
  value = Advertisement_encode a ∧ socket_ok (Advertisement_socket a).
Proof.
  unfold Advertisement_parse. intros H. rewrite encode_join.
  pose proof (join_split SEPARATOR value) as Hjoin.
  destruct (split SEPARATOR value) as [|p [|r [|s [|x rest]]]]; simpl in H; split_result H.
  split; [done|]. apply validate_socket_ok. by destruct value0.
Qed.

Lemma Advertisement_parse_encode a :
  socket_ok (Advertisement_socket a) → Advertisement_parse (Advertisement_encode a) = Ok a.
Proof.
  intros Hok. unfold Advertisement_parse. rewrite encode_len, encode_split by done.
  pose proof Hok as (_ & _ & Hlen). unfold MAX_ADVERTISEMENT_BYTES.
  rewrite (proj2 (Z.ltb_ge _ _)) by lia. cbn [head tail negb ok_or and_then].
  do 2 (case_bool_decide; [|done]). cbn [negb]. case_bool_decide as Hnone; [by destruct Hnone|].
  rewrite (proj2 (validate_socket_ok _) Hok). by destruct a.
Qed.

(** ** Properties *)

(** The advertisement grammar is canonical: [parse] accepts a value exactly when it is
    the encoding of an advertisement that [new] builds from the same socket, and it
    returns that advertisement. *)
Theorem advertisement_parse_canonical (value : str) (a : Advertisement) :
  Advertisement_parse value = Ok a ↔
  Advertisement_new (Advertisement_socket a) = Ok a ∧ value = Advertisement_encode a.
Proof.
  rewrite Advertisement_new_Ok. split.
  - intros [-> Hok]%Advertisement_parse_Ok. by destruct a.
  - intros [[_ Hok] ->]. by apply Advertisement_parse_encode.
Qed.
