(* ===== verification/Codec.v ===== *)
(** * [agent-seat-proto/src/codec.rs]: four-byte length-prefixed JSON framing

    The stream is a reader whose [read] calls return arbitrary fragments of the data,
    [Interrupted] errors or other errors; the JSON library ([serde_json::to_vec],
    [serde_json::from_slice]) is an argument. *)

From S2P Require Import Prelude Protocol.

(** ** Readers and writers of the standard library *)

Inductive ErrorKind :=
| ErrorKind_Interrupted
| ErrorKind_UnexpectedEof
| ErrorKind_Other (code : Z).

#[export] Instance ErrorKind_eq_dec : EqDecision ErrorKind.
Proof. solve_decision. Defined.

(** What one [read] call meets: available bytes, an interruption, or a failure.  An
    exhausted reader is at its end of file, as is one that meets [Data []]. *)
Inductive ReadEvent :=
| Data (chunk : bytes)
| Interrupted
| Failure (code : Z).

Definition Reader : Type := list ReadEvent.

(** [Read::read] into a buffer of [n] bytes. *)
Definition read (r : Reader) (n : nat) : result bytes ErrorKind * Reader :=
  match r with
  | [] => (Ok [], [])
  | Data chunk :: r =>
      if bool_decide (length chunk ≤ n)%nat then (Ok chunk, r)
      else (Ok (take n chunk), Data (drop n chunk) :: r)
  | Interrupted :: r => (Err ErrorKind_Interrupted, r)
  | Failure code :: r => (Err (ErrorKind_Other code), r)
  end.

(** [Read::read_exact], after the bytes [got]: it retries interruptions and reports an
    early end of file as [UnexpectedEof]. *)
Fixpoint read_exact (fuel : nat) (r : Reader) (got : bytes) (n : nat)
  : option (result bytes ErrorKind * Reader) :=
  match fuel with
  | O => None
  | S fuel =>
      if bool_decide (n ≤ length got)%nat then Some (Ok got, r)
      else
        match read r (n - length got) with
        | (Ok [], r) => Some (Err ErrorKind_UnexpectedEof, r)
        | (Ok chunk, r) => read_exact fuel r (got ++ chunk) n
        | (Err ErrorKind_Interrupted, r) => read_exact fuel r got n
        | (Err error, r) => Some (Err error, r)
        end
  end.

(** ** The codec *)

Definition PREFIX_BYTES : nat := 4.

Inductive ReadFrame (T : Type) :=
| ReadFrame_Message (message : T)
| ReadFrame_CleanEof.
Arguments ReadFrame_Message {T} message.
Arguments ReadFrame_CleanEof {T}.

Inductive CodecError (JsonError : Type) :=
| CodecError_Io (error : ErrorKind)
| CodecError_TruncatedPrefix
| CodecError_TruncatedPayload
| CodecError_Empty
| CodecError_TooLarge (length limit : Z)
| CodecError_Json (error : JsonError)
| CodecError_Invalid (error : string).
Arguments CodecError_Io {JsonError} error.
Arguments CodecError_TruncatedPrefix {JsonError}.
Arguments CodecError_TruncatedPayload {JsonError}.
Arguments CodecError_Empty {JsonError}.
Arguments CodecError_TooLarge {JsonError} length limit.
Arguments CodecError_Json {JsonError} error.
Arguments CodecError_Invalid {JsonError} error.

Section codec.
Context {T JsonError W : Type} `{Validate T}.
Context (to_vec : T → result bytes JsonError) (from_slice : bytes → result T JsonError).
Context (write_all : W → bytes → result unit ErrorKind * W).

Notation Error := (CodecError JsonError).

(** The loop over [prefix]: [inl] is an early return of [read_frame]. *)
Fixpoint read_prefix (fuel : nat) (r : Reader) (prefix : bytes)
  : option ((result (ReadFrame T) Error + bytes) * Reader) :=
  match fuel with
  | O => None
  | S fuel =>
      if bool_decide (length prefix < PREFIX_BYTES)%nat then
        match read r (PREFIX_BYTES - length prefix) with
        | (Ok [], r) =>
            if bool_decide (length prefix = 0%nat) then Some (inl (Ok ReadFrame_CleanEof), r)
            else Some (inl (Err CodecError_TruncatedPrefix), r)
        | (Ok chunk, r) => read_prefix fuel r (prefix ++ chunk)
        | (Err ErrorKind_Interrupted, r) => read_prefix fuel r prefix
        | (Err error, r) => Some (inl (Err (CodecError_Io error)), r)
        end
      else Some (inr prefix, r)
  end.

Definition decode_payload (payload : bytes) : result (ReadFrame T) Error :=
  let? message := map_err CodecError_Json (from_slice payload) in
  map_err CodecError_Invalid (validate message) ;?
  Ok (ReadFrame_Message message).

(** [None] is running out of fuel. *)
Definition read_frame (fuel : nat) (r : Reader) (limit : Z)
  : option (result (ReadFrame T) Error * Reader) :=
  match read_prefix fuel r [] with
  | None => None
  | Some (inl res, r) => Some (res, r)
  | Some (inr prefix, r) =>
      let length := from_be prefix in
      if length =? 0 then Some (Err CodecError_Empty, r)
      else if limit <? length then Some (Err (CodecError_TooLarge length limit), r)
      else
        match read_exact fuel r [] (Z.to_nat length) with
        | None => None
        | Some (Err error, r) =>
            Some (Err (if bool_decide (error = ErrorKind_UnexpectedEof)
                       then CodecError_TruncatedPayload else CodecError_Io error), r)
        | Some (Ok payload, r) => Some (decode_payload payload, r)
        end
  end.

Definition write_frame (w : W) (message : T) (limit : Z) : result unit Error * W :=
  match validate message with
  | Err error => (Err (CodecError_Invalid error), w)
  | Ok _ =>
      match to_vec message with
      | Err error => (Err (CodecError_Json error), w)
      | Ok payload =>
          if is_empty payload then (Err CodecError_Empty, w)
          else if (limit <? len payload) || (U32_MAX <? len payload)
          then (Err (CodecError_TooLarge (len payload) limit), w)
          else
            match write_all w (be_bytes 4 (len payload)) with
            | (Err error, w) => (Err (CodecError_Io error), w)
            | (Ok _, w) =>
                match write_all w payload with
                | (Err error, w) => (Err (CodecError_Io error), w)
                | (Ok _, w) => (Ok tt, w)
                end
            end
      end
  end.

(** ** Specification on the flat byte stream *)

Definition read_frame_spec (content : bytes) (limit : Z)
  : result (ReadFrame T) Error * bytes :=
  if is_empty content then (Ok ReadFrame_CleanEof, [])
  else if len content <? 4 then (Err CodecError_TruncatedPrefix, [])
  else
    let n := from_be (take 4 content) in
    let rest := drop 4 content in
    if n =? 0 then (Err CodecError_Empty, rest)
    else if limit <? n then (Err (CodecError_TooLarge n limit), rest)
    else if len rest <? n then (Err CodecError_TruncatedPayload, [])
    else (decode_payload (take (Z.to_nat n) rest), drop (Z.to_nat n) rest).

(** A stream that delivers its bytes in nonempty fragments between interruptions. *)
Definition delivers (r : Reader) : Prop :=
  Forall (λ e, match e with Data c => c ≠ [] | Interrupted => True | Failure _ => False end) r.

Fixpoint content (r : Reader) : bytes :=
  match r with
  | [] => []
  | Data c :: r => c ++ content r
  | _ :: r => content r
  end.

Definition fuel_for (r : Reader) : nat := S (S (length r)).

(** ** Fragmentation does not matter *)

(** One [read] of a delivering stream takes a prefix of its content. *)
Inductive read_view (r : Reader) (n : nat) : result bytes ErrorKind * Reader → Prop :=
| read_view_eof : r = [] → read_view r n (Ok [], [])
| read_view_all c r' :
    r = Data c :: r' → c ≠ [] → (length c ≤ n)%nat → read_view r n (Ok c, r')
| read_view_part c r' :
    r = Data c :: r' → (n < length c)%nat →
    read_view r n (Ok (take n c), Data (drop n c) :: r')
| read_view_interrupted r' :
    r = Interrupted :: r' → read_view r n (Err ErrorKind_Interrupted, r').

Lemma read_delivers r n : delivers r → read_view r n (read r n).
Proof.
  intros Hr. destruct Hr as [|e r He Hr]; [by constructor|].
  destruct e as [c| |code]; [|by eapply read_view_interrupted|done].
  simpl. case_bool_decide; [by eapply read_view_all|]. eapply read_view_part; [done|lia].
Qed.

Definition full (n : nat) (got : bytes) : nat := if bool_decide (n ≤ length got)%nat then 0 else 1.

Lemma delivers_part c r n : (n < length c)%nat → delivers (Data c :: r) →
  delivers (Data (drop n c) :: r).
Proof.
  intros Hn H0. inversion_clear H0. constructor; [|done].
  intros Hd%(f_equal length). rewrite length_drop in Hd. simpl in Hd. lia.
Qed.

Lemma take_drop_part (c l : bytes) n : (n < length c)%nat →
  take n (c ++ l) = take n c ∧ drop n (c ++ l) = drop n c ++ l.
Proof. intros. rewrite take_app_le, drop_app_le by lia. done. Qed.

Lemma take_drop_all (c l : bytes) n : (length c ≤ n)%nat →
  take n (c ++ l) = c ++ take (n - length c) l ∧ drop n (c ++ l) = drop (n - length c) l.
Proof. intros. rewrite take_app_ge, drop_app_ge by lia. done. Qed.

Lemma read_exact_content fuel r got n :
  delivers r → (length got ≤ n)%nat → (length r + full n got < fuel)%nat →
  let need := (n - length got)%nat in
  ∃ r', delivers r' ∧ (length r' ≤ length r)%nat ∧
    if bool_decide (need ≤ length (content r))%nat
    then read_exact fuel r got n = Some (Ok (got ++ take need (content r)), r')
         ∧ content r' = drop need (content r)
    else read_exact fuel r got n = Some (Err ErrorKind_UnexpectedEof, r') ∧ content r' = [].
Proof.
  revert r got. induction fuel as [|fuel IH]; intros r got Hr Hgot Hfuel need; [lia|].
  unfold full in Hfuel. simpl. case_bool_decide as Hfull.
  { exists r. assert (need = 0%nat) as -> by (unfold need; lia).
    rewrite bool_decide_eq_true_2 by lia. rewrite take_0, drop_0, app_nil_r. done. }
  fold need. destruct (read_delivers r need Hr) as [->|c r' -> Hc Hle|c r' -> Hlt|r' ->].
  - exists []. simpl. rewrite bool_decide_eq_false_2 by (unfold need; lia). done.
  - apply Forall_cons in Hr as [_ Hr]. simpl in Hfuel.
    destruct (IH r' (got ++ c) Hr) as (r'' & ? & ? & Hres).
    { rewrite length_app. unfold need in Hle. lia. }
    { unfold full. case_bool_decide; lia. }
    exists r''. split; [done|]. split; [simpl; lia|].
    replace (n - length (got ++ c))%nat with (need - length c)%nat in Hres
      by (rewrite length_app; unfold need; lia).
    simpl content. destruct (take_drop_all c (content r') need Hle) as [-> ->].
    rewrite (assoc_L (++)). destruct c as [|b c]; [done|].
    rewrite length_app. case_bool_decide; case_bool_decide; try lia; done.
  - assert (delivers (Data (drop need c) :: r')) as Hr' by by apply delivers_part.
    assert (length (take need c) = need) as Htake by (rewrite length_take; lia).
    simpl in Hfuel. destruct (IH (Data (drop need c) :: r') (got ++ take need c) Hr')
      as (r'' & ? & ? & Hres).
    { rewrite length_app, Htake. unfold need. lia. }
    { unfold full. rewrite length_app, Htake.
      rewrite bool_decide_eq_true_2 by (unfold need; lia). simpl. lia. }
    exists r''. split; [done|]. split; [done|].
    replace (n - length (got ++ take need c))%nat with 0%nat in Hres
      by (rewrite length_app, Htake; unfold need; lia).
    rewrite bool_decide_eq_true_2 in Hres by lia.
    rewrite take_0, app_nil_r, drop_0 in Hres.
    simpl content. destruct (take_drop_part c (content r') need Hlt) as [-> ->].
    rewrite bool_decide_eq_true_2 by (rewrite length_app; lia).
    destruct (take need c) eqn:Et; [unfold need in *; simpl in Htake; lia|]. exact Hres.
  - apply Forall_cons in Hr as [_ Hr]. simpl in Hfuel.
    destruct (IH r' got Hr Hgot) as (r'' & ? & ? & Hres).
    { unfold full. case_bool_decide; lia. }
    exists r''. split; [done|]. split; [simpl; lia|]. exact Hres.
Qed.

(** The prefix loop is [read_exact] with its own end-of-file cases. *)
Lemma read_prefix_exact fuel r prefix :
  delivers r →
  read_prefix fuel r prefix =
  match read_exact fuel r prefix PREFIX_BYTES with
  | None => None
  | Some (Ok prefix', r') => Some (inr prefix', r')
  | Some (Err error, r') =>
      Some (inl (if bool_decide (error = ErrorKind_UnexpectedEof)
                 then if is_empty (prefix ++ content r) then Ok ReadFrame_CleanEof
                      else Err CodecError_TruncatedPrefix
                 else Err (CodecError_Io error)), r')
  end.
Proof.
  revert r prefix. induction fuel as [|fuel IH]; intros r prefix Hr; [done|].
  cbn [read_prefix read_exact].
  case_bool_decide as Hlt;
    [rewrite (bool_decide_eq_false_2 (PREFIX_BYTES ≤ length prefix)%nat) by lia
    |by rewrite bool_decide_eq_true_2 by lia].
  destruct (read_delivers r (PREFIX_BYTES - length prefix) Hr)
    as [->|c r' -> Hc Hle|c r' -> Hc|r' ->].
  - rewrite (bool_decide_eq_true_2 (ErrorKind_UnexpectedEof = ErrorKind_UnexpectedEof))
      by done.
    simpl. rewrite app_nil_r. by destruct prefix; case_bool_decide.
  - apply Forall_cons in Hr as [_ Hr]. destruct c as [|b c]; [done|].
    rewrite IH by done. cbn [content]. by rewrite (assoc_L (++)).
  - rewrite IH by by apply delivers_part. cbn [content].
    rewrite <- (assoc_L (++)), (assoc_L (++) (take _ _)), take_drop.
    destruct (take (PREFIX_BYTES - length prefix) c) eqn:Et; [|done].
    apply (f_equal length) in Et. rewrite length_take in Et. simpl in Et. lia.
  - apply Forall_cons in Hr as [_ Hr]. by rewrite IH.
Qed.

(** What [read_frame] computes depends on the bytes of the stream, not on how they are
    cut into [read] results. *)
Lemma read_frame_content fuel r limit :
  delivers r → (fuel_for r ≤ fuel)%nat →
  ∃ res r', read_frame fuel r limit = Some (res, r') ∧ delivers r'
            ∧ (length r' ≤ length r)%nat
            ∧ read_frame_spec (content r) limit = (res, content r').
Proof.
  intros Hr Hfuel. unfold fuel_for in Hfuel. unfold read_frame.
  rewrite read_prefix_exact by done.
  destruct (read_exact_content fuel r [] PREFIX_BYTES Hr) as (r1 & Hr1 & Hl1 & Hpre);
    [simpl; lia|unfold full; case_bool_decide; lia|].
  unfold PREFIX_BYTES in *. unfold read_frame_spec. change (length []) with 0%nat in Hpre.
  change (4 - 0)%nat with 4%nat in Hpre. simpl app in *.
  case_bool_decide as Hlen; destruct Hpre as [-> Hc1].
  2:{ rewrite bool_decide_eq_true_2 by done. exists
        (if is_empty (content r) then Ok ReadFrame_CleanEof else Err CodecError_TruncatedPrefix), r1.
      rewrite Hc1, (proj2 (Z.ltb_lt (len (content r)) 4)) by (unfold len; lia).
      split; [done|]. split; [done|]. split; [done|]. by destruct (content r). }
  assert (is_empty (content r) = false) as ->.
  { apply is_empty_false. intros He. rewrite He in Hlen. simpl in Hlen. lia. }
  rewrite (proj2 (Z.ltb_ge (len (content r)) 4)) by (unfold len; lia).
  rewrite <- Hc1. cbv zeta. set (n := from_be (take 4 (content r))).
  destruct (n =? 0); [by eauto 10|]. destruct (limit <? n); [by eauto 10|].
  destruct (read_exact_content fuel r1 [] (Z.to_nat n) Hr1) as (r2 & Hr2 & Hl2 & Hpay);
    [simpl; lia| |].
  { unfold full. case_bool_decide; lia. }
  change (length []) with 0%nat in Hpay. rewrite Nat.sub_0_r in Hpay. simpl app in Hpay.
  case_bool_decide as Hpl; destruct Hpay as [-> Hc2].
  - rewrite (proj2 (Z.ltb_ge (len (content r1)) n)) by (unfold len; lia).
    rewrite <- Hc2. eauto 10 with lia.
  - rewrite (proj2 (Z.ltb_lt (len (content r1)) n)) by (unfold len; lia).
    rewrite bool_decide_eq_true_2 by done. rewrite <- Hc2. eauto 10 with lia.
Qed.

(** ** Every reader is answered *)

Lemma read_shrinks r n :
  (length (read r n).2 ≤ length r)%nat
  ∧ (length (read r n).2 < length r ∨ (read r n).1 = Ok []
     ∨ ∃ c, (read r n).1 = Ok c ∧ length c = n)%nat.
Proof.
  destruct r as [|[c| |code] r]; simpl; [auto| |simpl; lia|simpl; lia].
  case_bool_decide; simpl; [lia|]. split; [lia|]. right; right.
  eexists; split; [done|]. rewrite length_take. lia.
Qed.

Lemma read_exact_total fuel r got n :
  (length r + full n got < fuel)%nat →
  ∃ res r', read_exact fuel r got n = Some (res, r') ∧ (length r' ≤ length r)%nat.
Proof.
  revert r got. induction fuel as [|fuel IH]; intros r got Hfuel; [lia|].
  cbn [read_exact]. case_bool_decide as Hfull; [eauto|].
  unfold full in Hfuel. rewrite bool_decide_eq_false_2 in Hfuel by lia.
  destruct (read_shrinks r (n - length got)) as [Hle Hsh].
  destruct (read r (n - length got)) as [[[|b c]|[]] r']; simpl in *; eauto.
  - destruct (IH r' (got ++ b :: c)) as (res & r'' & -> & ?); [|eauto with lia].
    unfold full. case_bool_decide as Hf; [lia|]. rewrite length_app in Hf. simpl in Hf.
    destruct Hsh as [?|[?|(c' & [= <-] & Hc')]]; [lia|done|]. simpl in Hc'. lia.
  - destruct (IH r' got) as (res & r'' & -> & ?); [|eauto with lia].
    destruct Hsh as [?|[?|(c' & ? & ?)]]; [|done|done].
    unfold full. case_bool_decide; lia.
Qed.

Lemma read_prefix_total fuel r prefix :
  (length r + full PREFIX_BYTES prefix < fuel)%nat →
  ∃ res r', read_prefix fuel r prefix = Some (res, r') ∧ (length r' ≤ length r)%nat.
Proof.
  revert r prefix. induction fuel as [|fuel IH]; intros r prefix Hfuel; [lia|].
  cbn [read_prefix]. case_bool_decide as Hfull; [|eauto].
  unfold full in Hfuel. rewrite bool_decide_eq_false_2 in Hfuel by lia.
  destruct (read_shrinks r (PREFIX_BYTES - length prefix)) as [Hle Hsh].
  destruct (read r (PREFIX_BYTES - length prefix)) as [[[|b c]|[]] r']; simpl in *; eauto.
  - case_bool_decide; eauto.
  - destruct (IH r' (prefix ++ b :: c)) as (res & r'' & -> & ?); [|eauto with lia].
    unfold full. case_bool_decide as Hf; [lia|]. rewrite length_app in Hf. simpl in Hf.
    destruct Hsh as [?|[?|(c' & [= <-] & Hc')]]; [lia|done|]. simpl in Hc'. lia.
  - destruct (IH r' prefix) as (res & r'' & -> & ?); [|eauto with lia].
    destruct Hsh as [?|[?|(c' & ? & ?)]]; [|done|done].
    unfold full. case_bool_decide; lia.
Qed.

(** ** Frames *)

Definition frame (payload : bytes) : bytes := be_bytes 4 (len payload) ++ payload.

(** Messages [write_frame] sends. *)
Definition sendable (message : T) (limit : Z) (payload : bytes) : Prop :=
  validate message = Ok tt ∧ to_vec message = Ok payload
  ∧ 0 < len payload ≤ limit ∧ len payload ≤ U32_MAX.

Lemma write_frame_cases w message limit :
  (∃ payload, sendable message limit payload
     ∧ write_frame w message limit =
       match write_all w (be_bytes 4 (len payload)) with
       | (Err error, w) => (Err (CodecError_Io error), w)
       | (Ok _, w) =>
           match write_all w payload with
           | (Err error, w) => (Err (CodecError_Io error), w)
           | (Ok _, w) => (Ok tt, w)
           end
       end)
  ∨ (∃ error, write_frame w message limit = (Err error, w)
     ∧ (∀ payload, ¬ sendable message limit payload)
     ∧ (∀ kind, error ≠ CodecError_Io kind)).
Proof.
  clear from_slice. unfold write_frame, sendable.
  destruct (validate message) as [[]|e]; [|right; naive_solver].
  destruct (to_vec message) as [payload|e]; [|right; naive_solver].
  destruct (is_empty payload) eqn:Hemp.
  { apply is_empty_true in Hemp as ->. right. eexists; split; [done|].
    split; [|done]. intros payload (_ & [= <-] & ? & _). unfold len in *. simpl in *. lia. }
  destruct ((limit <? len payload) || (U32_MAX <? len payload)) eqn:Hbig.
  { right. eexists; split; [done|]. split; [|done]. intros ? (_ & [= <-] & ? & ?).
    apply orb_true_iff in Hbig as [?|?]; bool_props; lia. }
  left. exists payload. apply is_empty_false in Hemp. bool_props.
  split; [|done]. split_and!; try done.
  pose proof (len_nonneg payload). rewrite <- len_nil_iff in Hemp. lia.
Qed.

Lemma read_frame_spec_frame message limit payload rest :
  sendable message limit payload → from_slice payload = Ok message →
  read_frame_spec (frame payload ++ rest) limit = (Ok (ReadFrame_Message message), rest).
Proof.
  intros (Hv & _ & Hlen & Hu) Hfrom. unfold read_frame_spec, frame.
  pose proof (be_bytes_length 4 (len payload)) as H4.
  assert (take 4 ((be_bytes 4 (len payload) ++ payload) ++ rest) = be_bytes 4 (len payload)
          ∧ drop 4 ((be_bytes 4 (len payload) ++ payload) ++ rest) = payload ++ rest)
    as [Ht Hd].
  { rewrite <- (assoc_L (++)). by rewrite take_app_length', drop_app_length'. }
  assert (len ((be_bytes 4 (len payload) ++ payload) ++ rest)
          = 4 + len payload + len rest) as Hl.
  { rewrite !len_app. unfold len at 1. rewrite H4. lia. }
  destruct (is_empty _) eqn:Hemp.
  { apply is_empty_true in Hemp. rewrite Hemp in Hl. change (len []) with 0 in Hl.
    pose proof (len_nonneg rest). lia. }
  rewrite (proj2 (Z.ltb_ge _ 4)) by (pose proof (len_nonneg rest); lia).
  rewrite Ht, Hd. cbv zeta.
  rewrite from_be_be_bytes by (change (256 ^ Z.of_nat 4) with 4294967296; int_bounds; lia).
  rewrite (proj2 (Z.eqb_neq _ 0)), (proj2 (Z.ltb_ge limit _)) by lia.
  rewrite (proj2 (Z.ltb_ge (len (payload ++ rest)) _))
    by (rewrite len_app; pose proof (len_nonneg rest); lia).
  replace (Z.to_nat (len payload)) with (length payload) by (unfold len; lia).
  rewrite take_app_length, drop_app_length. unfold decode_payload. rewrite Hfrom. simpl.
  by rewrite Hv.
Qed.
End codec.

(** ** Properties *)

(** [read_frame] answers on every reader, faulty ones included: fuel two above the
    number of read events always suffices, and no event is read twice. *)
Theorem read_frame_terminates {T JsonError} `{Validate T}
    (from_slice : bytes → result T JsonError) (r : Reader) (limit : Z) :
  ∃ res r', read_frame from_slice (fuel_for r) r limit = Some (res, r')
            ∧ (length r' ≤ length r)%nat.
Proof.
  unfold read_frame, fuel_for.
  edestruct (read_prefix_total (T := T) (JsonError := JsonError) (S (S (length r))) r [])
    as (res & r1 & -> & Hle); [unfold full; case_bool_decide; lia|].
  destruct res as [|prefix]; [by eauto|]. cbv zeta. repeat (case_match; [by eauto|]).
  edestruct (read_exact_total (S (S (length r))) r1 []) as (res & r2 & -> & Hle2);
    [unfold full; case_bool_decide; lia|].
  destruct res; eauto with lia.
Qed.

(** C18: Fragmentation of the stream is invisible: however the bytes are cut into [read]
    results and interruptions, [read_frame] returns what the flat specification of the
    frame format computes from the bytes, and leaves the stream at the specification's
    remaining bytes.  In particular an over-limit length is refused with only the four
    prefix bytes consumed. *)
Theorem read_frame_refines_spec {T JsonError} `{Validate T}
    (from_slice : bytes → result T JsonError) (r : Reader) (limit : Z) :
  delivers r →
  ∃ res r', read_frame from_slice (fuel_for r) r limit = Some (res, r') ∧ delivers r'
            ∧ read_frame_spec from_slice (content r) limit = (res, content r').
Proof.
  intros Hr. destruct (read_frame_content from_slice (fuel_for r) r limit Hr) as
    (res & r' & ? & ? & _ & ?); eauto.
Qed.

(** A client of the codec: sends a list of messages into a growing buffer. *)
Fixpoint write_frames {T JsonError} `{Validate T} (to_vec : T → result bytes JsonError)
    (w : bytes) (ms : list T) (limit : Z) : result unit (CodecError JsonError) * bytes :=
  match ms with
  | [] => (Ok tt, w)
  | m :: ms =>
      match write_frame to_vec (λ w b, (Ok tt, w ++ b)) w m limit with
      | (Ok _, w) => write_frames to_vec w ms limit
      | (Err e, w) => (Err e, w)
      end
  end.

(** Receives at most [n] messages; [Some ms] when the stream ended cleanly after them. *)
Fixpoint read_frames {T JsonError} `{Validate T} (from_slice : bytes → result T JsonError)
    (n : nat) (r : Reader) (limit : Z) : option (list T) :=
  match read_frame from_slice (fuel_for r) r limit with
  | Some (Ok ReadFrame_CleanEof, _) => Some []
  | Some (Ok (ReadFrame_Message m), r) =>
      match n with O => None | S n => cons m <$> read_frames from_slice n r limit end
  | _ => None
  end.

Lemma write_frames_frames {T JsonError} `{Validate T} (to_vec : T → result bytes JsonError)
    (from_slice : bytes → result T JsonError) w ms limit w' :
  (∀ m payload, to_vec m = Ok payload → from_slice payload = Ok m) →
  write_frames to_vec w ms limit = (Ok tt, w') →
  ∃ payloads, Forall2 (λ m p, sendable to_vec m limit p ∧ from_slice p = Ok m) ms payloads
    ∧ w' = w ++ concat (frame <$> payloads).
Proof.
  intros Hcodec. revert w. induction ms as [|m ms IH]; intros w; cbn [write_frames].
  { intros [= <-]. exists []. by rewrite app_nil_r. }
  destruct (write_frame_cases to_vec (λ w b, (Ok tt, w ++ b)) w m limit)
    as [(payload & Hs & ->)|(e & -> & _)]; [|done].
  intros (payloads & Hps & ->)%IH. exists (payload :: payloads). split.
  - constructor; [|done]. split; [done|]. by apply Hcodec, Hs.
  - cbn [fmap list_fmap concat]. unfold frame at 2. by rewrite !(assoc_L (++)).
Qed.

(** C22: Round trip: when a list of messages is written frame by frame without an error, any
    reader that delivers exactly the written bytes, in whatever fragments, reads back the
    same messages in the same order and then a clean end of stream.  The JSON library is
    only required to parse back what it printed. *)
Theorem frames_round_trip {T JsonError} `{Validate T}
    (to_vec : T → result bytes JsonError) (from_slice : bytes → result T JsonError)
    (ms : list T) (limit : Z) (w : bytes) (r : Reader) :
  (∀ m payload, to_vec m = Ok payload → from_slice payload = Ok m) →
  write_frames to_vec [] ms limit = (Ok tt, w) →
  delivers r → content r = w →
  read_frames from_slice (length ms) r limit = Some ms.
Proof.
  intros Hcodec Hw Hr Hc.
  destruct (write_frames_frames to_vec from_slice _ _ _ _ Hcodec Hw) as (payloads & Hps & ->).
  simpl in Hc. clear Hw. revert r Hr Hc.
  induction Hps as [|m p ms ps [Hs Hp] _ IH]; intros r Hr Hc; cbn [length read_frames];
    destruct (read_frame_content from_slice (fuel_for r) r limit Hr (le_n _))
      as (res & r' & -> & Hr' & _ & Hspec); rewrite Hc in Hspec.
  - by injection Hspec as <- _.
  - cbn [fmap list_fmap concat] in Hspec.
    rewrite (read_frame_spec_frame to_vec from_slice m limit p _ Hs Hp) in Hspec.
    injection Hspec as <- Hrest. by rewrite (IH r' Hr').
Qed.

(** Writes the parts one after the other, up to the first failure. *)
Fixpoint write_parts {W JsonError} (write_all : W → bytes → result unit ErrorKind * W) (w : W)
    (parts : list bytes) : result unit (CodecError JsonError) * W :=
  match parts with
  | [] => (Ok tt, w)
  | part :: parts =>
      match write_all w part with
      | (Err kind, w) => (Err (CodecError_Io kind), w)
      | (Ok _, w) => write_parts write_all w parts
      end
  end.

(** Outbound checks precede writes, on every stream: a message that validates,
    serializes to a nonempty payload, and fits both the limit and the 32-bit prefix is
    written as its big-endian length and then its payload, stopping at the first failed
    write; for every other message [write_frame] returns an error that is not an I/O error
    and leaves the stream unchanged. *)
Theorem write_frame_checks_before_writing {T JsonError W} `{Validate T}
    (to_vec : T → result bytes JsonError) (write_all : W → bytes → result unit ErrorKind * W)
    (w : W) (m : T) (limit : Z) :
  (∃ payload, sendable to_vec m limit payload
     ∧ write_frame to_vec write_all w m limit
       = write_parts write_all w [be_bytes 4 (len payload); payload]) ∨
  (∃ error, write_frame to_vec write_all w m limit = (Err error, w)
            ∧ (∀ payload, ¬ sendable to_vec m limit payload)
            ∧ ∀ kind, error ≠ CodecError_Io kind).
Proof.
  destruct (write_frame_cases to_vec write_all w m limit) as [(payload&Hs&Heq)|(?&?&?&?)];
    [left|right; by eauto].
  exists payload. split; [done|]. rewrite Heq. cbn [write_parts].
  by do 2 (case_match; case_match; try done; subst).
Qed.

(** *** Concrete instances *)

Module Number.
(** The message type of the codec's tests: one nonzero byte value. *)
Record t := { value : Z }.
#[local] Instance Validate_t : Validate t :=
  λ self, if negb (value self =? 0) then Ok tt else Err "value must be nonzero"%string.
Definition to_vec (n : t) : result bytes unit := Ok [value n].
Definition from_slice (b : bytes) : result t unit :=
  match b with [x] => Ok {| value := x |} | _ => Err tt end.
Definition stream : Reader := [Data [0; 0]; Interrupted; Data [0; 1; 7; 0]; Data [0; 0; 1; 9]].

Lemma stream_delivers : delivers stream.
Proof. repeat constructor; discriminate. Defined.

Lemma read_frame_refines_spec_witness :
  ∃ res r', read_frame from_slice (fuel_for stream) stream 64 = Some (res, r') ∧ delivers r'
            ∧ read_frame_spec from_slice (content stream) 64 = (res, content r').
Proof. exact (read_frame_refines_spec from_slice stream 64 stream_delivers). Defined.

Lemma frames_round_trip_witness :
  read_frames from_slice 2 stream 64 = Some [{| value := 7 |}; {| value := 9 |}].
Proof.
  apply (frames_round_trip to_vec from_slice [{| value := 7 |}; {| value := 9 |}] 64
           (content stream) stream).
  - intros [x] payload [= <-]. reflexivity.
  - vm_compute. reflexivity.
  - exact stream_delivers.
  - reflexivity.
Defined.

(** The tests of the source, evaluated. *)
Example oversized_prefix_is_refused :
  read_frame from_slice 9 [Data [0; 0; 0; 65]] 64
  = Some (Err (CodecError_TooLarge 65 64), []).
Proof. by vm_compute. Qed.
Example truncated_prefix :
  read_frame from_slice 9 [Data [0; 0]] 64 = Some (Err CodecError_TruncatedPrefix, []).
Proof. by vm_compute. Qed.
Example truncated_payload :
  read_frame from_slice 9 [Data [0; 0; 0; 2; 123]] 64
  = Some (Err CodecError_TruncatedPayload, []).
Proof. by vm_compute. Qed.
Example clean_close : read_frame from_slice 9 [] 64 = Some (Ok ReadFrame_CleanEof, []).
Proof. by vm_compute. Qed.
End Number.
