(* ===== verification/Message.v ===== *)
(** * [agent-seat-proto/src/message.rs]: wire messages and their validation

    One type per Rust type, with the source's constructors ([Type_Constructor] for
    [Type::Constructor]) and fields ([Type_field]), and one [validate] function per
    [impl Validate].  Wire integers are [Z]; [usize] is 64 bits wide. *)

From S2P Require Import Prelude Text Bounded Protocol.

(** ** Bounds *)

Definition MAX_NAME_BYTES : N := 128.
Definition MAX_VERSION_BYTES : N := 64.
Definition MAX_PURPOSE_BYTES : N := 256.
Definition MAX_DIAGNOSTIC_BYTES : N := 512.
Definition MAX_TITLE_BYTES : N := 1024.
Definition MAX_APPLICATION_ID_BYTES : N := 256.
Definition MAX_WORKSPACE_NAME_BYTES : N := 256.
Definition MAX_CAPABILITIES : N := 32.
Definition MAX_FEATURES : N := 16.
Definition MAX_WORKSPACES : N := 128.
Definition MAX_CLIENTS : N := 1024.
Definition MAX_EVENTS : N := 1024.
Definition MAX_APPLICATIONS : N := 256.
Definition MAX_INPUT_TEXT_BYTES : N := 1024.
Definition MAX_INPUT_ACTIONS : N := 256.
Definition MAX_LONG_INPUT_TEXT_BYTES : N := 16 * 1024.
Definition MAX_LONG_INPUT_ACTIONS : N := 4096.
Definition MAX_TEXT_TRANSFER_BYTES : N := 32 * 1024.
Definition MAX_TEXT_TRANSFER_SCALARS : N := 16 * 1024.
Definition MAX_KEYBOARD_MODIFIERS : N := 4.
Definition MAX_CAPTURE_WIDTH : N := 2048.
Definition MAX_CAPTURE_HEIGHT : N := 2048.
Definition MAX_CAPTURE_PIXELS : N := 1920 * 1080.
Definition MAX_CAPTURE_REGION_WIDTH : N := 1024.
Definition MAX_CAPTURE_REGION_HEIGHT : N := 1024.
Definition MAX_CAPTURE_REGION_PIXELS : N := 512 * 512.
Definition MAX_CAPTURE_PNG_BYTES : N := 7 * 1024 * 1024.
Definition MAX_CAPTURE_DATA_BYTES : N := (MAX_CAPTURE_PNG_BYTES + 2) / 3 * 4.
Definition MAX_POLL_WAIT_MS : N := 30000.

Definition Name : Type := BoundedText MAX_NAME_BYTES.
Definition Version : Type := BoundedText MAX_VERSION_BYTES.
Definition Purpose : Type := BoundedText MAX_PURPOSE_BYTES.
Definition Diagnostic : Type := BoundedText MAX_DIAGNOSTIC_BYTES.
Definition Title : Type := BoundedText MAX_TITLE_BYTES.
Definition ApplicationId : Type := BoundedText MAX_APPLICATION_ID_BYTES.
Definition InputText : Type := BoundedText MAX_INPUT_TEXT_BYTES.
Definition LongInputText : Type := BoundedText MAX_LONG_INPUT_TEXT_BYTES.
Definition TransferText : Type := BoundedText MAX_TEXT_TRANSFER_BYTES.
Definition CaptureData : Type := BoundedText MAX_CAPTURE_DATA_BYTES.
Definition WorkspaceName : Type := BoundedText MAX_WORKSPACE_NAME_BYTES.

#[export] Instance Name_eq_dec : EqDecision Name := BoundedText_eq_dec.
#[export] Instance Title_eq_dec : EqDecision Title := BoundedText_eq_dec.
#[export] Instance ApplicationId_eq_dec : EqDecision ApplicationId := BoundedText_eq_dec.
#[export] Instance WorkspaceName_eq_dec : EqDecision WorkspaceName := BoundedText_eq_dec.

(** ** Order of derived [Ord] enumerations *)

Class Ord (T : Type) := ord_lt : T → T → bool.

Class OrdLaws (T : Type) `{Ord T} := {
  ord_irrefl : ∀ a : T, ord_lt a a = false;
  ord_trans : ∀ a b c : T, ord_lt a b = true → ord_lt b c = true → ord_lt a c = true
}.

(** [values.windows(2).all(|pair| pair[0] < pair[1])] *)
Fixpoint strictly_ordered {T} `{Ord T} (values : list T) : bool :=
  match values with
  | a :: ((b :: _) as rest) => ord_lt a b && strictly_ordered rest
  | _ => true
  end.

(** Every value's key differs from the keys of the values before it. *)
Definition unique_by {T K} `{EqDecision K} (values : list T) (key : T → K) : bool :=
  forallb id
    (imap (λ index value,
             forallb (λ prior, negb (bool_decide (key prior = key value))) (take index values))
          values).

Definition is_some_and {A} (f : A → bool) (o : option A) : bool :=
  match o with Some a => f a | None => false end.

(** [for value in values { value.validate()?; }] *)
Fixpoint validate_all {T} `{Validate T} (values : list T) : result unit string :=
  match values with
  | [] => Ok tt
  | value :: values => validate value ;? validate_all values
  end.

(** ** Opening messages *)

Record PeerInfo := {
  PeerInfo_name : Name;
  PeerInfo_version : Version;
  PeerInfo_purpose : Purpose
}.

Definition PeerInfo_validate (self : PeerInfo) : result unit string :=
  if is_empty (as_str (PeerInfo_name self)) then Err "peer name is empty"%string else
  if is_empty (as_str (PeerInfo_version self)) then Err "peer version is empty"%string else
  if is_empty (as_str (PeerInfo_purpose self)) then Err "peer purpose is empty"%string else
  Ok tt.
#[export] Instance PeerInfo_Validate : Validate PeerInfo := PeerInfo_validate.

Inductive Backend := Backend_X11Ewmh.

Inductive Assurance := Assurance_Tier0.

Inductive Capability :=
| Capability_ObserveStructure
| Capability_ObserveTitles
| Capability_ObserveEvents
| Capability_ManageActivate
| Capability_ManageClose
| Capability_ManageWorkspace
| Capability_ManageState
| Capability_ManageGeometry
| Capability_LaunchList
| Capability_LaunchExecute
| Capability_InputPointer
| Capability_InputKeyboard
| Capability_TextTransfer
| Capability_CaptureObscured.

#[export] Instance Capability_eq_dec : EqDecision Capability.
Proof. solve_decision. Defined.

Definition Capability_index (c : Capability) : Z :=
  match c with
  | Capability_ObserveStructure => 0 | Capability_ObserveTitles => 1
  | Capability_ObserveEvents => 2 | Capability_ManageActivate => 3
  | Capability_ManageClose => 4 | Capability_ManageWorkspace => 5
  | Capability_ManageState => 6 | Capability_ManageGeometry => 7
  | Capability_LaunchList => 8 | Capability_LaunchExecute => 9
  | Capability_InputPointer => 10 | Capability_InputKeyboard => 11
  | Capability_TextTransfer => 12 | Capability_CaptureObscured => 13
  end.
#[export] Instance Capability_Ord : Ord Capability :=
  λ a b, Capability_index a <? Capability_index b.

Inductive Feature :=
| Feature_EwmhObservation
| Feature_EwmhManagement
| Feature_DesktopLaunch
| Feature_ClientVisibleCapture
| Feature_ObscuredCapture
| Feature_OutputCapture
| Feature_InputInjection
| Feature_TextTransfer
| Feature_HumanActivity
| Feature_Accessibility.

#[export] Instance Feature_eq_dec : EqDecision Feature.
Proof. solve_decision. Defined.

Definition Feature_index (f : Feature) : Z :=
  match f with
  | Feature_EwmhObservation => 0 | Feature_EwmhManagement => 1
  | Feature_DesktopLaunch => 2 | Feature_ClientVisibleCapture => 3
  | Feature_ObscuredCapture => 4 | Feature_OutputCapture => 5
  | Feature_InputInjection => 6 | Feature_TextTransfer => 7
  | Feature_HumanActivity => 8 | Feature_Accessibility => 9
  end.
#[export] Instance Feature_Ord : Ord Feature := λ a b, Feature_index a <? Feature_index b.

Record Hello := {
  Hello_protocol : Name;
  Hello_revision : Z;
  Hello_peer : PeerInfo;
  Hello_requested : BoundedList Capability MAX_CAPABILITIES
}.

Definition Hello_is_compatible (self : Hello) : bool :=
  bool_decide (as_str (Hello_protocol self) = PROTOCOL_NAME)
  && (Hello_revision self =? PROTOCOL_REVISION).

Definition Hello_validate (self : Hello) : result unit string :=
  validate (Hello_peer self) ;?
  ensure (strictly_ordered (as_slice (Hello_requested self)))
    "requested capabilities must be unique and canonically ordered"%string.
#[export] Instance Hello_Validate : Validate Hello := Hello_validate.

Record ProviderInfo := { ProviderInfo_name : Name; ProviderInfo_version : Version }.

Definition ProviderInfo_validate (self : ProviderInfo) : result unit string :=
  if is_empty (as_str (ProviderInfo_name self)) || is_empty (as_str (ProviderInfo_version self))
  then Err "provider name and version must be nonempty"%string
  else Ok tt.
#[export] Instance ProviderInfo_Validate : Validate ProviderInfo := ProviderInfo_validate.

Record Limits := {
  Limits_request_frame_bytes : Z;
  Limits_response_frame_bytes : Z;
  Limits_events_per_poll : Z;
  Limits_poll_wait_ms : Z
}.

Definition Limits_validate (self : Limits) : result unit string :=
  if (Limits_request_frame_bytes self =? 0)
     || (MAX_REQUEST_FRAME_BYTES <? Limits_request_frame_bytes self)
     || (Limits_response_frame_bytes self =? 0)
     || (MAX_RESPONSE_FRAME_BYTES <? Limits_response_frame_bytes self)
     || (Limits_events_per_poll self =? 0)
     || (MAX_EVENTS <? Limits_events_per_poll self)
     || (MAX_POLL_WAIT_MS <? Limits_poll_wait_ms self)
  then Err "provider limits are outside revision bounds"%string
  else Ok tt.
#[export] Instance Limits_Validate : Validate Limits := Limits_validate.

Record Welcome := {
  Welcome_protocol : Name;
  Welcome_revision : Z;
  Welcome_session : SessionId;
  Welcome_provider : ProviderInfo;
  Welcome_backend : Backend;
  Welcome_assurance : Assurance;
  Welcome_features : BoundedList Feature MAX_FEATURES;
  Welcome_granted : BoundedList Capability MAX_CAPABILITIES;
  Welcome_limits : Limits
}.

Definition Welcome_validate (self : Welcome) : result unit string :=
  if negb (bool_decide (as_str (Welcome_protocol self) = PROTOCOL_NAME))
     || negb (Welcome_revision self =? PROTOCOL_REVISION)
  then Err "welcome protocol or revision is incompatible"%string else
  validate (Welcome_provider self) ;?
  validate (Welcome_limits self) ;?
  if negb (strictly_ordered (as_slice (Welcome_features self)))
     || negb (strictly_ordered (as_slice (Welcome_granted self)))
  then Err "welcome features and grants must be canonically ordered"%string
  else Ok tt.
#[export] Instance Welcome_Validate : Validate Welcome := Welcome_validate.

(** ** Errors *)

Inductive ErrorCode :=
| ErrorCode_Unavailable
| ErrorCode_IncompatibleRevision
| ErrorCode_Refused
| ErrorCode_NoSuchClient
| ErrorCode_Stale
| ErrorCode_Unsupported
| ErrorCode_TimedOut
| ErrorCode_InvalidArgument
| ErrorCode_Malformed
| ErrorCode_TooLarge
| ErrorCode_Internal
| ErrorCode_ResyncRequired
| ErrorCode_Revoked
| ErrorCode_SessionClosed.

#[export] Instance ErrorCode_eq_dec : EqDecision ErrorCode.
Proof. solve_decision. Defined.

Definition ErrorCode_as_str (self : ErrorCode) : string :=
  match self with
  | ErrorCode_Unavailable => "unavailable"
  | ErrorCode_IncompatibleRevision => "incompatible_revision"
  | ErrorCode_Refused => "refused"
  | ErrorCode_NoSuchClient => "no_such_client"
  | ErrorCode_Stale => "stale"
  | ErrorCode_Unsupported => "unsupported"
  | ErrorCode_TimedOut => "timed_out"
  | ErrorCode_InvalidArgument => "invalid_argument"
  | ErrorCode_Malformed => "malformed"
  | ErrorCode_TooLarge => "too_large"
  | ErrorCode_Internal => "internal"
  | ErrorCode_ResyncRequired => "resync_required"
  | ErrorCode_Revoked => "revoked"
  | ErrorCode_SessionClosed => "session_closed"
  end.

Inductive Retry := Retry_Never | Retry_Reobserve | Retry_Reconnect.

#[export] Instance Retry_eq_dec : EqDecision Retry.
Proof. solve_decision. Defined.

Definition Retry_as_str (self : Retry) : string :=
  match self with
  | Retry_Never => "never"
  | Retry_Reobserve => "reobserve"
  | Retry_Reconnect => "reconnect"
  end.

Record Goodbye := { Goodbye_code : ErrorCode; Goodbye_message : option Diagnostic }.

Definition Goodbye_validate (self : Goodbye) : result unit string :=
  if is_some_and (λ message, is_empty (as_str message)) (Goodbye_message self)
  then Err "goodbye diagnostic is empty"%string
  else Ok tt.
#[export] Instance Goodbye_Validate : Validate Goodbye := Goodbye_validate.

Record ProtocolError := {
  ProtocolError_code : ErrorCode;
  ProtocolError_retry : Retry;
  ProtocolError_field : option Name;
  ProtocolError_message : option Diagnostic;
  ProtocolError_current_generation : option Generation;
  ProtocolError_current_sequence : option Sequence
}.

Definition ProtocolError_validate (self : ProtocolError) : result unit string :=
  if is_some_and (λ field, is_empty (as_str field)) (ProtocolError_field self)
     || is_some_and (λ message, is_empty (as_str message)) (ProtocolError_message self)
  then Err "error field or diagnostic is empty"%string
  else Ok tt.
#[export] Instance ProtocolError_Validate : Validate ProtocolError := ProtocolError_validate.

(** ** Requests *)

Definition Empty : Type := unit.

Record TargetRequest := {
  TargetRequest_client : ClientId;
  TargetRequest_generation : Generation
}.
#[export] Instance TargetRequest_eq_dec : EqDecision TargetRequest.
Proof. unfold ClientId, Generation. solve_decision. Defined.

Definition TargetRequest_validate (self : TargetRequest) : result unit string := Ok tt.
#[export] Instance TargetRequest_Validate : Validate TargetRequest := TargetRequest_validate.

Inductive EventKind :=
| EventKind_ClientAdded
| EventKind_ClientChanged
| EventKind_ClientRemoved
| EventKind_ActiveChanged
| EventKind_WorkspaceChanged
| EventKind_ApplicationsChanged.

#[export] Instance EventKind_eq_dec : EqDecision EventKind.
Proof. solve_decision. Defined.

Definition EventKind_index (k : EventKind) : Z :=
  match k with
  | EventKind_ClientAdded => 0 | EventKind_ClientChanged => 1
  | EventKind_ClientRemoved => 2 | EventKind_ActiveChanged => 3
  | EventKind_WorkspaceChanged => 4 | EventKind_ApplicationsChanged => 5
  end.
#[export] Instance EventKind_Ord : Ord EventKind := λ a b, EventKind_index a <? EventKind_index b.

Record SubscribeRequest := { SubscribeRequest_kinds : BoundedList EventKind 8 }.

Definition SubscribeRequest_validate (self : SubscribeRequest) : result unit string :=
  ensure (strictly_ordered (as_slice (SubscribeRequest_kinds self)))
    "event kinds must be unique and canonically ordered"%string.
#[export] Instance SubscribeRequest_Validate : Validate SubscribeRequest :=
  SubscribeRequest_validate.

Record PollRequest := {
  PollRequest_after : Sequence;
  PollRequest_limit : Z;
  PollRequest_wait_ms : Z
}.

Definition PollRequest_validate (self : PollRequest) : result unit string :=
  if (PollRequest_limit self =? 0)
     || (MAX_EVENTS <? PollRequest_limit self)
     || (MAX_POLL_WAIT_MS <? PollRequest_wait_ms self)
  then Err "event poll limit or wait is outside revision bounds"%string
  else Ok tt.
#[export] Instance PollRequest_Validate : Validate PollRequest := PollRequest_validate.

Record WorkspaceRequest := {
  WorkspaceRequest_workspace : WorkspaceId;
  WorkspaceRequest_sequence : Sequence
}.

Definition WorkspaceRequest_validate (self : WorkspaceRequest) : result unit string := Ok tt.
#[export] Instance WorkspaceRequest_Validate : Validate WorkspaceRequest :=
  WorkspaceRequest_validate.

Record ClientWorkspaceRequest := {
  ClientWorkspaceRequest_target : TargetRequest;
  ClientWorkspaceRequest_workspace : WorkspaceId
}.

Definition ClientWorkspaceRequest_validate (self : ClientWorkspaceRequest)
  : result unit string := validate (ClientWorkspaceRequest_target self).
#[export] Instance ClientWorkspaceRequest_Validate : Validate ClientWorkspaceRequest :=
  ClientWorkspaceRequest_validate.

Inductive ClientState :=
| ClientState_Above
| ClientState_Below
| ClientState_Fullscreen
| ClientState_Hidden
| ClientState_MaximizedHorizontal
| ClientState_MaximizedVertical
| ClientState_DemandsAttention
| ClientState_Sticky
| ClientState_Shaded.

#[export] Instance ClientState_eq_dec : EqDecision ClientState.
Proof. solve_decision. Defined.

Definition ClientState_index (s : ClientState) : Z :=
  match s with
  | ClientState_Above => 0 | ClientState_Below => 1 | ClientState_Fullscreen => 2
  | ClientState_Hidden => 3 | ClientState_MaximizedHorizontal => 4
  | ClientState_MaximizedVertical => 5 | ClientState_DemandsAttention => 6
  | ClientState_Sticky => 7 | ClientState_Shaded => 8
  end.
#[export] Instance ClientState_Ord : Ord ClientState :=
  λ a b, ClientState_index a <? ClientState_index b.

Inductive StateAction := StateAction_Add | StateAction_Remove | StateAction_Toggle.

Record ClientStateRequest := {
  ClientStateRequest_target : TargetRequest;
  ClientStateRequest_state : ClientState;
  ClientStateRequest_action : StateAction
}.

Definition ClientStateRequest_validate (self : ClientStateRequest) : result unit string :=
  validate (ClientStateRequest_target self).
#[export] Instance ClientStateRequest_Validate : Validate ClientStateRequest :=
  ClientStateRequest_validate.

Record Rect := { Rect_x : Z; Rect_y : Z; Rect_width : Z; Rect_height : Z }.

#[export] Instance Rect_eq_dec : EqDecision Rect.
Proof. solve_decision. Defined.

Definition Rect_validate (self : Rect) : result unit string :=
  if (Rect_width self =? 0) || (Rect_height self =? 0)
  then Err "rectangle extent must be nonzero"%string
  else Ok tt.
#[export] Instance Rect_Validate : Validate Rect := Rect_validate.

Record ClientGeometryRequest := {
  ClientGeometryRequest_target : TargetRequest;
  ClientGeometryRequest_frame : Rect
}.

Definition ClientGeometryRequest_validate (self : ClientGeometryRequest)
  : result unit string :=
  validate (ClientGeometryRequest_target self) ;?
  validate (ClientGeometryRequest_frame self).
#[export] Instance ClientGeometryRequest_Validate : Validate ClientGeometryRequest :=
  ClientGeometryRequest_validate.

Record ApplicationListRequest := {
  ApplicationListRequest_cursor : Z;
  ApplicationListRequest_limit : Z
}.

Definition ApplicationListRequest_validate (self : ApplicationListRequest)
  : result unit string :=
  if (ApplicationListRequest_limit self =? 0)
     || (MAX_APPLICATIONS <? ApplicationListRequest_limit self)
  then Err "application page limit is outside revision bounds"%string
  else Ok tt.
#[export] Instance ApplicationListRequest_Validate : Validate ApplicationListRequest :=
  ApplicationListRequest_validate.

Record ApplicationLaunchRequest := { ApplicationLaunchRequest_application : ApplicationId }.

Definition ApplicationLaunchRequest_validate (self : ApplicationLaunchRequest)
  : result unit string :=
  let application := as_str (ApplicationLaunchRequest_application self) in
  if is_empty application || negb (ends_with (bstr ".desktop") application)
     || (contains 47 application || contains 0 application)
  then Err "application ID is not canonical"%string
  else Ok tt.
#[export] Instance ApplicationLaunchRequest_Validate : Validate ApplicationLaunchRequest :=
  ApplicationLaunchRequest_validate.

(** ** Input requests *)

Record PointerMoveRequest := {
  PointerMoveRequest_target : TargetRequest;
  PointerMoveRequest_x : Z;
  PointerMoveRequest_y : Z
}.

Definition PointerMoveRequest_validate (self : PointerMoveRequest) : result unit string :=
  validate (PointerMoveRequest_target self).
#[export] Instance PointerMoveRequest_Validate : Validate PointerMoveRequest :=
  PointerMoveRequest_validate.

Inductive PointerButton :=
| PointerButton_Primary
| PointerButton_Middle
| PointerButton_Secondary.

Record PointerClickRequest := {
  PointerClickRequest_target : TargetRequest;
  PointerClickRequest_x : Z;
  PointerClickRequest_y : Z;
  PointerClickRequest_button : PointerButton
}.

Definition PointerClickRequest_validate (self : PointerClickRequest) : result unit string :=
  validate (PointerClickRequest_target self).
#[export] Instance PointerClickRequest_Validate : Validate PointerClickRequest :=
  PointerClickRequest_validate.

Record TextValidationErrors := {
  TextValidationErrors_empty : string;
  TextValidationErrors_control : string;
  TextValidationErrors_bound : string
}.

Definition TextValidationErrors_KEYBOARD : TextValidationErrors := {|
  TextValidationErrors_empty := "keyboard text is empty";
  TextValidationErrors_control := "keyboard text contains an unsupported control character";
  TextValidationErrors_bound := "keyboard text exceeds the action bound"
|}.

Definition TextValidationErrors_TRANSFER : TextValidationErrors := {|
  TextValidationErrors_empty := "transfer text is empty";
  TextValidationErrors_control := "transfer text contains an unsupported control character";
  TextValidationErrors_bound := "transfer text exceeds the scalar bound"
|}.

(** The loop over [text.chars()]: control characters other than newline and tab are
    refused; the counter is a [usize]. *)
Fixpoint count_scalars (errors : TextValidationErrors) (scalars : Z) (characters : list Z)
  : result Z string :=
  match characters with
  | [] => Ok scalars
  | character :: characters =>
      if is_control character && negb ((character =? 10) || (character =? 9))
      then Err (TextValidationErrors_control errors)
      else
        let? scalars := ok_or (checked_u64 (scalars + 1)) "text scalar count overflowed"%string in
        count_scalars errors scalars characters
  end.

Definition validate_text_content (text : str) (maximum_scalars : Z)
  (errors : TextValidationErrors) : result unit string :=
  if is_empty text then Err (TextValidationErrors_empty errors) else
  let? scalars := count_scalars errors 0 (chars text) in
  if maximum_scalars <? scalars then Err (TextValidationErrors_bound errors) else
  Ok tt.

Definition validate_keyboard_text (text : str) (maximum_actions : Z) : result unit string :=
  validate_text_content text maximum_actions TextValidationErrors_KEYBOARD.

Record KeyboardTypeRequest := {
  KeyboardTypeRequest_target : TargetRequest;
  KeyboardTypeRequest_text : InputText
}.

Definition KeyboardTypeRequest_validate (self : KeyboardTypeRequest) : result unit string :=
  validate (KeyboardTypeRequest_target self) ;?
  validate_keyboard_text (as_str (KeyboardTypeRequest_text self)) MAX_INPUT_ACTIONS.
#[export] Instance KeyboardTypeRequest_Validate : Validate KeyboardTypeRequest :=
  KeyboardTypeRequest_validate.

Record KeyboardWriteRequest := {
  KeyboardWriteRequest_target : TargetRequest;
  KeyboardWriteRequest_text : LongInputText
}.

Definition KeyboardWriteRequest_validate (self : KeyboardWriteRequest) : result unit string :=
  validate (KeyboardWriteRequest_target self) ;?
  validate_keyboard_text (as_str (KeyboardWriteRequest_text self)) MAX_LONG_INPUT_ACTIONS.
#[export] Instance KeyboardWriteRequest_Validate : Validate KeyboardWriteRequest :=
  KeyboardWriteRequest_validate.

Record TextInsertRequest := {
  TextInsertRequest_target : TargetRequest;
  TextInsertRequest_text : TransferText
}.

Definition TextInsertRequest_validate (self : TextInsertRequest) : result unit string :=
  validate (TextInsertRequest_target self) ;?
  validate_text_content (as_str (TextInsertRequest_text self)) MAX_TEXT_TRANSFER_SCALARS
    TextValidationErrors_TRANSFER.
#[export] Instance TextInsertRequest_Validate : Validate TextInsertRequest :=
  TextInsertRequest_validate.

Inductive KeyboardKey :=
| KeyboardKey_Backspace
| KeyboardKey_Delete
| KeyboardKey_Enter
| KeyboardKey_Escape
| KeyboardKey_Tab
| KeyboardKey_Space
| KeyboardKey_Insert
| KeyboardKey_Home
| KeyboardKey_End
| KeyboardKey_PageUp
| KeyboardKey_PageDown
| KeyboardKey_ArrowLeft
| KeyboardKey_ArrowRight
| KeyboardKey_ArrowUp
| KeyboardKey_ArrowDown
| KeyboardKey_A
| KeyboardKey_B
| KeyboardKey_C
| KeyboardKey_D
| KeyboardKey_E
| KeyboardKey_F
| KeyboardKey_G
| KeyboardKey_H
| KeyboardKey_I
| KeyboardKey_J
| KeyboardKey_K
| KeyboardKey_L
| KeyboardKey_M
| KeyboardKey_N
| KeyboardKey_O
| KeyboardKey_P
| KeyboardKey_Q
| KeyboardKey_R
| KeyboardKey_S
| KeyboardKey_T
| KeyboardKey_U
| KeyboardKey_V
| KeyboardKey_W
| KeyboardKey_X
| KeyboardKey_Y
| KeyboardKey_Z
| KeyboardKey_Digit0
| KeyboardKey_Digit1
| KeyboardKey_Digit2
| KeyboardKey_Digit3
| KeyboardKey_Digit4
| KeyboardKey_Digit5
| KeyboardKey_Digit6
| KeyboardKey_Digit7
| KeyboardKey_Digit8
| KeyboardKey_Digit9
| KeyboardKey_F1
| KeyboardKey_F2
| KeyboardKey_F3
| KeyboardKey_F4
| KeyboardKey_F5
| KeyboardKey_F6
| KeyboardKey_F7
| KeyboardKey_F8
| KeyboardKey_F9
| KeyboardKey_F10
| KeyboardKey_F11
| KeyboardKey_F12.

Inductive KeyboardModifier :=
| KeyboardModifier_Control
| KeyboardModifier_Alt
| KeyboardModifier_Shift
| KeyboardModifier_Super.

#[export] Instance KeyboardModifier_eq_dec : EqDecision KeyboardModifier.
Proof. solve_decision. Defined.

Definition KeyboardModifier_index (m : KeyboardModifier) : Z :=
  match m with
  | KeyboardModifier_Control => 0 | KeyboardModifier_Alt => 1
  | KeyboardModifier_Shift => 2 | KeyboardModifier_Super => 3
  end.
#[export] Instance KeyboardModifier_Ord : Ord KeyboardModifier :=
  λ a b, KeyboardModifier_index a <? KeyboardModifier_index b.

Record KeyboardKeyRequest := {
  KeyboardKeyRequest_target : TargetRequest;
  KeyboardKeyRequest_key : KeyboardKey;
  KeyboardKeyRequest_modifiers : BoundedList KeyboardModifier MAX_KEYBOARD_MODIFIERS
}.

Definition KeyboardKeyRequest_validate (self : KeyboardKeyRequest) : result unit string :=
  validate (KeyboardKeyRequest_target self) ;?
  if negb (strictly_ordered (as_slice (KeyboardKeyRequest_modifiers self)))
  then Err "keyboard modifiers must be unique and canonically ordered"%string
  else Ok tt.
#[export] Instance KeyboardKeyRequest_Validate : Validate KeyboardKeyRequest :=
  KeyboardKeyRequest_validate.

(** ** Capture *)

Inductive CaptureFormat := CaptureFormat_Png.

Record CaptureRegion := {
  CaptureRegion_x : Z;
  CaptureRegion_y : Z;
  CaptureRegion_width : Z;
  CaptureRegion_height : Z
}.

Definition CaptureRegion_validate (self : CaptureRegion) : result unit string :=
  let? pixels := ok_or (checked_u64 (CaptureRegion_width self * CaptureRegion_height self))
                   "capture region dimensions overflow"%string in
  let? right' := ok_or (checked_u16 (CaptureRegion_x self + CaptureRegion_width self))
                  "capture region horizontal extent overflowed"%string in
  let? bottom := ok_or (checked_u16 (CaptureRegion_y self + CaptureRegion_height self))
                   "capture region vertical extent overflowed"%string in
  if (CaptureRegion_width self =? 0)
     || (CaptureRegion_height self =? 0)
     || (MAX_CAPTURE_REGION_WIDTH <? CaptureRegion_width self)
     || (MAX_CAPTURE_REGION_HEIGHT <? CaptureRegion_height self)
     || (MAX_CAPTURE_REGION_PIXELS <? pixels)
     || (MAX_CAPTURE_WIDTH <? right')
     || (MAX_CAPTURE_HEIGHT <? bottom)
  then Err "capture region is outside revision bounds"%string
  else Ok tt.
#[export] Instance CaptureRegion_Validate : Validate CaptureRegion := CaptureRegion_validate.

Record CaptureRegionRequest := {
  CaptureRegionRequest_target : TargetRequest;
  CaptureRegionRequest_region : CaptureRegion
}.

Definition CaptureRegionRequest_validate (self : CaptureRegionRequest) : result unit string :=
  validate (CaptureRegionRequest_target self) ;?
  validate (CaptureRegionRequest_region self).
#[export] Instance CaptureRegionRequest_Validate : Validate CaptureRegionRequest :=
  CaptureRegionRequest_validate.

Definition base64_value (byte : Z) : option Z :=
  if within 65 90 byte then Some (byte - 65)
  else if within 97 122 byte then Some (byte - 97 + 26)
  else if within 48 57 byte then Some (byte - 48 + 52)
  else if byte =? 43 then Some 62
  else if byte =? 47 then Some 63
  else None.

(** [iter().rev().take_while(p).count()] *)
Fixpoint take_while_count (p : Z → bool) (l : list Z) : nat :=
  match l with
  | b :: l => if p b then S (take_while_count p l) else O
  | [] => O
  end.

Definition valid_png_base64 (data : bytes) : bool :=
  if (len data <? 12) || negb (len data mod 4 =? 0)
     || negb (starts_with (bstr "iVBORw0KGgo") data)
  then false else
  let padding := take_while_count (λ byte, byte =? 61) (reverse data) in
  if (2 <? padding)%nat then false else
  let body := take (length data - padding) data in
  if negb (forallb (λ byte, is_ascii_alphanumeric byte || ((byte =? 43) || (byte =? 47))) body)
     || negb (forallb (λ byte, byte =? 61) (drop (length data - padding) data))
  then false else
  match padding with
  | 0%nat => true
  | 1%nat => is_some_and (λ value, Z.land value 3 =? 0) (last body ≫= base64_value)
  | 2%nat => is_some_and (λ value, Z.land value 15 =? 0) (last body ≫= base64_value)
  | _ => false
  end.

Record CaptureReply := {
  CaptureReply_target : TargetRequest;
  CaptureReply_width : Z;
  CaptureReply_height : Z;
  CaptureReply_format : CaptureFormat;
  CaptureReply_data : CaptureData
}.

Definition CaptureReply_validate (self : CaptureReply) : result unit string :=
  validate (CaptureReply_target self) ;?
  let? pixels := ok_or (checked_u64 (CaptureReply_width self * CaptureReply_height self))
                   "capture dimensions overflow"%string in
  if (CaptureReply_width self =? 0)
     || (CaptureReply_height self =? 0)
     || (MAX_CAPTURE_WIDTH <? CaptureReply_width self)
     || (MAX_CAPTURE_HEIGHT <? CaptureReply_height self)
     || (MAX_CAPTURE_PIXELS <? pixels)
  then Err "capture dimensions are outside revision bounds"%string else
  if negb (valid_png_base64 (as_str (CaptureReply_data self)))
  then Err "capture data is not a canonical base64 PNG"%string
  else Ok tt.
#[export] Instance CaptureReply_Validate : Validate CaptureReply := CaptureReply_validate.

Record CaptureRegionReply := {
  CaptureRegionReply_target : TargetRequest;
  CaptureRegionReply_region : CaptureRegion;
  CaptureRegionReply_format : CaptureFormat;
  CaptureRegionReply_data : CaptureData
}.

Definition CaptureRegionReply_validate (self : CaptureRegionReply) : result unit string :=
  validate (CaptureRegionReply_target self) ;?
  validate (CaptureRegionReply_region self) ;?
  if negb (valid_png_base64 (as_str (CaptureRegionReply_data self)))
  then Err "capture data is not a canonical base64 PNG"%string
  else Ok tt.
#[export] Instance CaptureRegionReply_Validate : Validate CaptureRegionReply :=
  CaptureRegionReply_validate.

(** ** Calls *)

Inductive Call :=
| Call_SeatStatus (arguments : Empty)
| Call_DesktopSnapshot (arguments : Empty)
| Call_EventsSubscribe (arguments : SubscribeRequest)
| Call_EventsPoll (arguments : PollRequest)
| Call_ClientActivate (arguments : TargetRequest)
| Call_ClientClose (arguments : TargetRequest)
| Call_WorkspaceSwitch (arguments : WorkspaceRequest)
| Call_ClientWorkspace (arguments : ClientWorkspaceRequest)
| Call_ClientState (arguments : ClientStateRequest)
| Call_ClientGeometry (arguments : ClientGeometryRequest)
| Call_ApplicationsList (arguments : ApplicationListRequest)
| Call_ApplicationLaunch (arguments : ApplicationLaunchRequest)
| Call_PointerMove (arguments : PointerMoveRequest)
| Call_PointerClick (arguments : PointerClickRequest)
| Call_KeyboardType (arguments : KeyboardTypeRequest)
| Call_KeyboardWrite (arguments : KeyboardWriteRequest)
| Call_KeyboardKey (arguments : KeyboardKeyRequest)
| Call_TextInsert (arguments : TextInsertRequest)
| Call_CaptureObscured (arguments : TargetRequest)
| Call_CaptureRegion (arguments : CaptureRegionRequest).

Definition Call_required_capability (self : Call) : Capability :=
  match self with
  | Call_SeatStatus _ | Call_DesktopSnapshot _ => Capability_ObserveStructure
  | Call_EventsSubscribe _ | Call_EventsPoll _ => Capability_ObserveEvents
  | Call_ClientActivate _ => Capability_ManageActivate
  | Call_ClientClose _ => Capability_ManageClose
  | Call_WorkspaceSwitch _ | Call_ClientWorkspace _ => Capability_ManageWorkspace
  | Call_ClientState _ => Capability_ManageState
  | Call_ClientGeometry _ => Capability_ManageGeometry
  | Call_ApplicationsList _ => Capability_LaunchList
  | Call_ApplicationLaunch _ => Capability_LaunchExecute
  | Call_PointerMove _ | Call_PointerClick _ => Capability_InputPointer
  | Call_KeyboardType _ | Call_KeyboardWrite _ | Call_KeyboardKey _ => Capability_InputKeyboard
  | Call_TextInsert _ => Capability_TextTransfer
  | Call_CaptureObscured _ | Call_CaptureRegion _ => Capability_CaptureObscured
  end.

Definition Call_validate (self : Call) : result unit string :=
  match self with
  | Call_SeatStatus _ | Call_DesktopSnapshot _ => Ok tt
  | Call_EventsSubscribe value => validate value
  | Call_EventsPoll value => validate value
  | Call_ClientActivate value | Call_ClientClose value => validate value
  | Call_WorkspaceSwitch value => validate value
  | Call_ClientWorkspace value => validate value
  | Call_ClientState value => validate value
  | Call_ClientGeometry value => validate value
  | Call_ApplicationsList value => validate value
  | Call_ApplicationLaunch value => validate value
  | Call_PointerMove value => validate value
  | Call_PointerClick value => validate value
  | Call_KeyboardType value => validate value
  | Call_KeyboardWrite value => validate value
  | Call_KeyboardKey value => validate value
  | Call_TextInsert value => validate value
  | Call_CaptureObscured value => validate value
  | Call_CaptureRegion value => validate value
  end.
#[export] Instance Call_Validate : Validate Call := Call_validate.

Record Request := { Request_id : RequestId; Request_call : Call }.

Definition Request_validate (self : Request) : result unit string :=
  validate (Request_call self).
#[export] Instance Request_Validate : Validate Request := Request_validate.

Inductive ClientMessage :=
| ClientMessage_Hello (value : Hello)
| ClientMessage_Request (value : Request)
| ClientMessage_Goodbye (value : Goodbye).

Definition ClientMessage_validate (self : ClientMessage) : result unit string :=
  match self with
  | ClientMessage_Hello value => validate value
  | ClientMessage_Request value => validate value
  | ClientMessage_Goodbye value => validate value
  end.
#[export] Instance ClientMessage_Validate : Validate ClientMessage := ClientMessage_validate.

(** ** Replies *)

Inductive InputTerminal := InputTerminal_Queued | InputTerminal_Interrupted.

Record InputReply := {
  InputReply_completed : Z;
  InputReply_requested : Z;
  InputReply_terminal : InputTerminal
}.

Definition InputReply_validate (self : InputReply) : result unit string :=
  if (InputReply_requested self =? 0) || (InputReply_requested self <? InputReply_completed self)
  then Err "input action counts are invalid"%string else
  if match InputReply_terminal self with InputTerminal_Queued => true | _ => false end
     && negb (InputReply_completed self =? InputReply_requested self)
  then Err "queued input result is incomplete"%string
  else Ok tt.
#[export] Instance InputReply_Validate : Validate InputReply := InputReply_validate.

Inductive TextTransferTerminal :=
| TextTransferTerminal_Delivered
| TextTransferTerminal_Offered
| TextTransferTerminal_Interrupted.

Record TextTransferReply := {
  TextTransferReply_target : TargetRequest;
  TextTransferReply_requested_bytes : Z;
  TextTransferReply_delivered_bytes : Z;
  TextTransferReply_terminal : TextTransferTerminal
}.

Definition TextTransferReply_validate (self : TextTransferReply) : result unit string :=
  validate (TextTransferReply_target self) ;?
  if (TextTransferReply_requested_bytes self =? 0)
     || (MAX_TEXT_TRANSFER_BYTES <? TextTransferReply_requested_bytes self)
     || (TextTransferReply_requested_bytes self <? TextTransferReply_delivered_bytes self)
  then Err "text-transfer byte counts are invalid"%string else
  let contradiction :=
    Err "text-transfer terminal state contradicts its byte counts"%string in
  match TextTransferReply_terminal self with
  | TextTransferTerminal_Delivered =>
      if TextTransferReply_delivered_bytes self =? TextTransferReply_requested_bytes self
      then Ok tt else contradiction
  | TextTransferTerminal_Offered | TextTransferTerminal_Interrupted =>
      if TextTransferReply_delivered_bytes self =? 0 then Ok tt else contradiction
  end.
#[export] Instance TextTransferReply_Validate : Validate TextTransferReply :=
  TextTransferReply_validate.

Record SeatStatus := {
  SeatStatus_session : SessionId;
  SeatStatus_sequence : Sequence;
  SeatStatus_assurance : Assurance
}.

Definition SeatStatus_validate (self : SeatStatus) : result unit string := Ok tt.
#[export] Instance SeatStatus_Validate : Validate SeatStatus := SeatStatus_validate.

Inductive ClientAction :=
| ClientAction_Activate
| ClientAction_Close
| ClientAction_ChangeWorkspace
| ClientAction_ChangeState
| ClientAction_ChangeGeometry.

#[export] Instance ClientAction_eq_dec : EqDecision ClientAction.
Proof. solve_decision. Defined.

Definition ClientAction_index (a : ClientAction) : Z :=
  match a with
  | ClientAction_Activate => 0 | ClientAction_Close => 1 | ClientAction_ChangeWorkspace => 2
  | ClientAction_ChangeState => 3 | ClientAction_ChangeGeometry => 4
  end.
#[export] Instance ClientAction_Ord : Ord ClientAction :=
  λ a b, ClientAction_index a <? ClientAction_index b.

Record WorkspaceDescriptor := {
  WorkspaceDescriptor_id : WorkspaceId;
  WorkspaceDescriptor_name : option WorkspaceName;
  WorkspaceDescriptor_work_area : option Rect
}.

#[export] Instance WorkspaceDescriptor_eq_dec : EqDecision WorkspaceDescriptor.
Proof. unfold WorkspaceId. solve_decision. Defined.

Definition WorkspaceDescriptor_validate (self : WorkspaceDescriptor) : result unit string :=
  if is_some_and (λ name, is_empty (as_str name)) (WorkspaceDescriptor_name self)
  then Err "workspace name is empty"%string else
  match WorkspaceDescriptor_work_area self with
  | Some work_area => validate work_area
  | None => Ok tt
  end.
#[export] Instance WorkspaceDescriptor_Validate : Validate WorkspaceDescriptor :=
  WorkspaceDescriptor_validate.

Record ClientDescriptor := {
  ClientDescriptor_id : ClientId;
  ClientDescriptor_generation : Generation;
  ClientDescriptor_title : option Title;
  ClientDescriptor_workspace : option WorkspaceId;
  ClientDescriptor_frame : option Rect;
  ClientDescriptor_states : BoundedList ClientState 16;
  ClientDescriptor_actions : BoundedList ClientAction 8
}.

#[export] Instance ClientDescriptor_eq_dec : EqDecision ClientDescriptor.
Proof. unfold WorkspaceId, ClientId, Generation. solve_decision. Defined.

Definition ClientDescriptor_validate (self : ClientDescriptor) : result unit string :=
  if is_some_and (λ title, is_empty (as_str title)) (ClientDescriptor_title self)
  then Err "client title is empty"%string else
  match ClientDescriptor_frame self with
  | Some frame => validate frame
  | None => Ok tt
  end ;?
  if negb (strictly_ordered (as_slice (ClientDescriptor_states self)))
     || negb (strictly_ordered (as_slice (ClientDescriptor_actions self)))
  then Err "client states and actions must be canonically ordered"%string
  else Ok tt.
#[export] Instance ClientDescriptor_Validate : Validate ClientDescriptor :=
  ClientDescriptor_validate.

Record DesktopSnapshot := {
  DesktopSnapshot_sequence : Sequence;
  DesktopSnapshot_current_workspace : WorkspaceId;
  DesktopSnapshot_workspaces : BoundedList WorkspaceDescriptor MAX_WORKSPACES;
  DesktopSnapshot_clients : BoundedList ClientDescriptor MAX_CLIENTS;
  DesktopSnapshot_active : option ClientId
}.

Definition DesktopSnapshot_validate (self : DesktopSnapshot) : result unit string :=
  let workspaces := as_slice (DesktopSnapshot_workspaces self) in
  let clients := as_slice (DesktopSnapshot_clients self) in
  validate_all workspaces ;?
  validate_all clients ;?
  if negb (unique_by (K := Z) workspaces WorkspaceDescriptor_id)
     || negb (unique_by (K := Z) clients ClientDescriptor_id)
  then Err "snapshot identities are duplicated"%string else
  if negb (existsb (λ workspace,
             WorkspaceDescriptor_id workspace =? DesktopSnapshot_current_workspace self)
             workspaces)
  then Err "current workspace is absent from snapshot"%string else
  if is_some_and (λ active, negb (existsb (λ client, ClientDescriptor_id client =? active)
                                    clients)) (DesktopSnapshot_active self)
  then Err "active client is absent from snapshot"%string
  else Ok tt.
#[export] Instance DesktopSnapshot_Validate : Validate DesktopSnapshot :=
  DesktopSnapshot_validate.

Record Subscription := { Subscription_cursor : Sequence }.

Definition Subscription_validate (self : Subscription) : result unit string := Ok tt.
#[export] Instance Subscription_Validate : Validate Subscription := Subscription_validate.

Inductive Event :=
| Event_ClientAdded (client : ClientDescriptor)
| Event_ClientChanged (client : ClientDescriptor)
| Event_ClientRemoved (client : ClientId)
| Event_ActiveChanged (client : option ClientId)
| Event_WorkspaceChanged (workspace : WorkspaceId)
| Event_ApplicationsChanged (empty : Empty).

Definition Event_validate (self : Event) : result unit string :=
  match self with
  | Event_ClientAdded client | Event_ClientChanged client => validate client
  | Event_ClientRemoved _
  | Event_ActiveChanged _
  | Event_WorkspaceChanged _
  | Event_ApplicationsChanged _ => Ok tt
  end.
#[export] Instance Event_Validate : Validate Event := Event_validate.

Record EventEnvelope := { EventEnvelope_sequence : Sequence; EventEnvelope_event : Event }.

Definition EventEnvelope_validate (self : EventEnvelope) : result unit string :=
  validate (EventEnvelope_event self).
#[export] Instance EventEnvelope_Validate : Validate EventEnvelope := EventEnvelope_validate.

Record EventBatch := {
  EventBatch_events : BoundedList EventEnvelope MAX_EVENTS;
  EventBatch_cursor : Sequence
}.

(** The loop over the events, with the sequence of the prior one. *)
Fixpoint check_sequences (cursor : Sequence) (prior : option Sequence)
  (events : list EventEnvelope) : result unit string :=
  match events with
  | [] => Ok tt
  | event :: events =>
      validate event ;?
      if is_some_and (λ prior, EventEnvelope_sequence event <=? prior) prior
         || (cursor <? EventEnvelope_sequence event)
      then Err "event sequences are not strictly increasing within the cursor"%string
      else check_sequences cursor (Some (EventEnvelope_sequence event)) events
  end.

Definition EventBatch_validate (self : EventBatch) : result unit string :=
  check_sequences (EventBatch_cursor self) None (as_slice (EventBatch_events self)).
#[export] Instance EventBatch_Validate : Validate EventBatch := EventBatch_validate.

Inductive Observation :=
| Observation_Observed
| Observation_TimedOut
| Observation_TargetGone.

Record ManagementReply := {
  ManagementReply_observation : Observation;
  ManagementReply_sequence : Sequence
}.

Definition ManagementReply_validate (self : ManagementReply) : result unit string := Ok tt.
#[export] Instance ManagementReply_Validate : Validate ManagementReply :=
  ManagementReply_validate.

Record ApplicationDescriptor := {
  ApplicationDescriptor_id : ApplicationId;
  ApplicationDescriptor_name : Name;
  ApplicationDescriptor_user_entry : bool
}.

Definition ApplicationDescriptor_validate (self : ApplicationDescriptor)
  : result unit string :=
  if is_empty (as_str (ApplicationDescriptor_id self))
     || negb (ends_with (bstr ".desktop") (as_str (ApplicationDescriptor_id self)))
     || is_empty (as_str (ApplicationDescriptor_name self))
  then Err "application descriptor is not canonical"%string
  else Ok tt.
#[export] Instance ApplicationDescriptor_Validate : Validate ApplicationDescriptor :=
  ApplicationDescriptor_validate.

#[export] Instance str_Ord : Ord str := str_ltb.

Record ApplicationPage := {
  ApplicationPage_applications : BoundedList ApplicationDescriptor MAX_APPLICATIONS;
  ApplicationPage_next_cursor : option Z
}.

Definition ApplicationPage_validate (self : ApplicationPage) : result unit string :=
  let applications := as_slice (ApplicationPage_applications self) in
  validate_all applications ;?
  if negb (strictly_ordered
             ((λ application, as_str (ApplicationDescriptor_id application)) <$> applications))
  then Err "application IDs must be unique and canonically ordered"%string
  else Ok tt.
#[export] Instance ApplicationPage_Validate : Validate ApplicationPage :=
  ApplicationPage_validate.

Record LaunchReply := { LaunchReply_token : LaunchToken; LaunchReply_client : option ClientId }.

Definition LaunchReply_validate (self : LaunchReply) : result unit string := Ok tt.
#[export] Instance LaunchReply_Validate : Validate LaunchReply := LaunchReply_validate.

Inductive Reply :=
| Reply_SeatStatus (value : SeatStatus)
| Reply_DesktopSnapshot (value : DesktopSnapshot)
| Reply_Subscribed (value : Subscription)
| Reply_Events (value : EventBatch)
| Reply_Management (value : ManagementReply)
| Reply_Applications (value : ApplicationPage)
| Reply_Launched (value : LaunchReply)
| Reply_Input (value : InputReply)
| Reply_TextTransfer (value : TextTransferReply)
| Reply_Capture (value : CaptureReply)
| Reply_CaptureRegion (value : CaptureRegionReply).

Definition Reply_validate (self : Reply) : result unit string :=
  match self with
  | Reply_SeatStatus value => validate value
  | Reply_DesktopSnapshot value => validate value
  | Reply_Subscribed value => validate value
  | Reply_Events value => validate value
  | Reply_Management value => validate value
  | Reply_Applications value => validate value
  | Reply_Launched value => validate value
  | Reply_Input value => validate value
  | Reply_TextTransfer value => validate value
  | Reply_Capture value => validate value
  | Reply_CaptureRegion value => validate value
  end.
#[export] Instance Reply_Validate : Validate Reply := Reply_validate.

Inductive Outcome :=
| Outcome_Ok (reply : Reply)
| Outcome_Error (error : ProtocolError).

Definition Outcome_validate (self : Outcome) : result unit string :=
  match self with
  | Outcome_Ok reply => validate reply
  | Outcome_Error error => validate error
  end.
#[export] Instance Outcome_Validate : Validate Outcome := Outcome_validate.

Record Response := { Response_id : RequestId; Response_outcome : Outcome }.

Definition Response_validate (self : Response) : result unit string :=
  validate (Response_outcome self).
#[export] Instance Response_Validate : Validate Response := Response_validate.

Inductive ServerMessage :=
| ServerMessage_Welcome (value : Welcome)
| ServerMessage_Response (value : Response)
| ServerMessage_Goodbye (value : Goodbye).

Definition ServerMessage_validate (self : ServerMessage) : result unit string :=
  match self with
  | ServerMessage_Welcome value => validate value
  | ServerMessage_Response value => validate value
  | ServerMessage_Goodbye value => validate value
  end.
#[export] Instance ServerMessage_Validate : Validate ServerMessage := ServerMessage_validate.
