(* ===== verification/MessageSpec.v ===== *)
(** * What the wire validators accept

    A declarative well-formedness predicate for every message and the theorems that the
    executable validators of [Message.v] accept exactly the well-formed messages. *)

From Stdlib Require Import Sorting.Sorted.
From S2P Require Import Prelude Text Bounded Protocol Message.

(** ** Orders *)

Lemma index_OrdLaws {T} `{Ord T} (index : T → Z) :
  (∀ a b, ord_lt a b = (index a <? index b)) → OrdLaws T.
Proof.
  intros Hlt. split; intros; rewrite ?Hlt, ?Z.ltb_lt in *; [by rewrite Z.ltb_irrefl|lia].
Qed.

#[export] Instance Capability_OrdLaws : OrdLaws Capability.
Proof. by apply (index_OrdLaws Capability_index). Qed.
#[export] Instance Feature_OrdLaws : OrdLaws Feature.
Proof. by apply (index_OrdLaws Feature_index). Qed.
#[export] Instance EventKind_OrdLaws : OrdLaws EventKind.
Proof. by apply (index_OrdLaws EventKind_index). Qed.
#[export] Instance ClientState_OrdLaws : OrdLaws ClientState.
Proof. by apply (index_OrdLaws ClientState_index). Qed.
#[export] Instance ClientAction_OrdLaws : OrdLaws ClientAction.
Proof. by apply (index_OrdLaws ClientAction_index). Qed.
#[export] Instance KeyboardModifier_OrdLaws : OrdLaws KeyboardModifier.
Proof. by apply (index_OrdLaws KeyboardModifier_index). Qed.
#[export] Instance str_OrdLaws : OrdLaws str.
Proof. split; [apply str_ltb_irrefl|apply str_ltb_trans]. Qed.

(** Canonical lists: strictly increasing, hence free of duplicates. *)
Definition canonical {T} `{Ord T} (l : list T) : Prop :=
  StronglySorted (λ a b, ord_lt a b = true) l.

Section canonical.
Context {T : Type} `{OrdLaws T}.

Lemma strictly_ordered_canonical (l : list T) : strictly_ordered l = true ↔ canonical l.
Proof.
  split.
  - intros Hl. apply Sorted_StronglySorted.
    { intros a b c. apply ord_trans. }
    induction l as [|a [|b l] IH]; [repeat constructor..|].
    cbn [strictly_ordered] in Hl. apply andb_true_iff in Hl as [Hab Hl].
    constructor; [by apply IH|by constructor].
  - intros Hl. induction Hl as [|a l Hl IH Ha]; [done|]. destruct l as [|b l]; [done|].
    cbn [strictly_ordered]. apply Forall_cons in Ha as [-> _]. exact IH.
Qed.

Lemma canonical_NoDup (l : list T) : canonical l → NoDup l.
Proof.
  induction 1 as [|a l _ IH Ha]; constructor; [|done].
  intros Hin. rewrite Forall_forall in Ha. apply Ha in Hin. by rewrite ord_irrefl in Hin.
Qed.

(** Keeping some elements of a canonical list keeps it canonical. *)
Lemma canonical_filter (P : T → Prop) `{∀ x, Decision (P x)} (l : list T) :
  canonical l → canonical (filter P l).
Proof.
  induction 1 as [|a l _ IH Ha]; [constructor|]. rewrite filter_cons. case_decide; [|done].
  constructor; [done|]. rewrite Forall_forall in *. intros x [_ Hx]%list_elem_of_filter. auto.
Qed.
End canonical.

Lemma unique_by_NoDup {T K} `{EqDecision K} (l : list T) (key : T → K) :
  unique_by l key = true ↔ NoDup (key <$> l).
Proof.
  unfold unique_by. rewrite forallb_forall. rewrite NoDup_alt. setoid_rewrite list_lookup_fmap.
  split.
  - intros Hall i j x (a & Ha & ->)%fmap_Some (b & Hb & Heq)%fmap_Some.
    assert (∀ i j a b, (i < j)%nat → l !! i = Some a → l !! j = Some b → key a ≠ key b)
      as Hlt.
    { clear -Hall. intros i j a b Hij Ha Hb Heq.
      specialize (Hall (forallb (λ prior, negb (bool_decide (key prior = key b))) (take j l))).
      assert (id (forallb (λ prior, negb (bool_decide (key prior = key b))) (take j l)) = true)
        as Hf.
      { apply Hall, list_elem_of_In, list_elem_of_lookup. exists j.
        by rewrite list_lookup_imap, Hb. }
      unfold id in Hf. rewrite forallb_forall in Hf.
      assert (In a (take j l)) as Hin.
      { apply list_elem_of_In, list_elem_of_lookup. exists i. by rewrite lookup_take_lt. }
      apply Hf in Hin. bool_props. done. }
    destruct (Nat.lt_trichotomy i j) as [?|[?|?]]; [|done|]; exfalso.
    + by apply (Hlt i j a b).
    + by apply (Hlt j i b a).
  - intros Hinj x (j & b & -> & Hb)%list_elem_of_In%elem_of_lookup_imap. unfold id.
    rewrite forallb_forall. intros a Ha. apply list_elem_of_In, list_elem_of_lookup in Ha as [i Ha].
    apply lookup_take_Some in Ha as [Ha Hij]. apply negb_true_iff, bool_decide_eq_false.
    intros Heq. assert (i = j); [|lia]. eapply Hinj; rewrite ?Ha, ?Hb; simpl; [done|congruence].
Qed.

Lemma validate_all_Forall {T} `{Validate T} (l : list T) :
  validate_all l = Ok tt ↔ Forall (λ x, validate x = Ok tt) l.
Proof.
  induction l as [|x l IH]; simpl; [done|]. rewrite Forall_cons, <- IH.
  destruct (validate x) as [[]|]; naive_solver.
Qed.

Lemma is_some_and_false {A} (f : A → bool) o :
  is_some_and f o = false ↔ ∀ x, o = Some x → f x = false.
Proof. destruct o; naive_solver. Qed.

(** ** Well-formed values *)

Definition nonempty_text {MAX} (t : BoundedText MAX) : Prop := as_str t ≠ [].
Definition PeerInfo_wf (p : PeerInfo) : Prop :=
  nonempty_text (PeerInfo_name p) ∧ nonempty_text (PeerInfo_version p)
  ∧ nonempty_text (PeerInfo_purpose p).

Definition Hello_wf (h : Hello) : Prop :=
  PeerInfo_wf (Hello_peer h) ∧ canonical (as_slice (Hello_requested h)).

Definition Limits_wf (l : Limits) : Prop :=
  Limits_request_frame_bytes l ≠ 0 ∧ Limits_request_frame_bytes l ≤ MAX_REQUEST_FRAME_BYTES
  ∧ Limits_response_frame_bytes l ≠ 0 ∧ Limits_response_frame_bytes l ≤ MAX_RESPONSE_FRAME_BYTES
  ∧ Limits_events_per_poll l ≠ 0 ∧ Limits_events_per_poll l ≤ MAX_EVENTS
  ∧ Limits_poll_wait_ms l ≤ MAX_POLL_WAIT_MS.

Definition Welcome_wf (w : Welcome) : Prop :=
  as_str (Welcome_protocol w) = PROTOCOL_NAME ∧ Welcome_revision w = PROTOCOL_REVISION
  ∧ nonempty_text (ProviderInfo_name (Welcome_provider w))
  ∧ nonempty_text (ProviderInfo_version (Welcome_provider w))
  ∧ Limits_wf (Welcome_limits w)
  ∧ canonical (as_slice (Welcome_features w)) ∧ canonical (as_slice (Welcome_granted w)).

Definition Goodbye_wf (g : Goodbye) : Prop := opt nonempty_text (Goodbye_message g).

Definition ProtocolError_wf (e : ProtocolError) : Prop :=
  opt nonempty_text (ProtocolError_field e) ∧ opt nonempty_text (ProtocolError_message e).

Definition Rect_wf (r : Rect) : Prop := Rect_width r ≠ 0 ∧ Rect_height r ≠ 0.

(** Desktop application identifiers. *)
Definition desktop_id (id : str) : Prop := ∃ stem, id = stem ++ bstr ".desktop".

(** Text an agent may type: no control characters but newline and tab. *)
Definition typeable (maximum : Z) (text : str) : Prop :=
  text ≠ [] ∧ Forall (λ c, is_control c = true → c = 10 ∨ c = 9) (chars text)
  ∧ len (chars text) ≤ maximum.

Definition CaptureRegion_wf (r : CaptureRegion) : Prop :=
  0 < CaptureRegion_width r ≤ MAX_CAPTURE_REGION_WIDTH
  ∧ 0 < CaptureRegion_height r ≤ MAX_CAPTURE_REGION_HEIGHT
  ∧ CaptureRegion_width r * CaptureRegion_height r ≤ MAX_CAPTURE_REGION_PIXELS
  ∧ CaptureRegion_x r + CaptureRegion_width r ≤ MAX_CAPTURE_WIDTH
  ∧ CaptureRegion_y r + CaptureRegion_height r ≤ MAX_CAPTURE_HEIGHT.

(** The integer fields of a region are 16-bit. *)
Definition CaptureRegion_typed (r : CaptureRegion) : Prop :=
  is_u16 (CaptureRegion_x r) ∧ is_u16 (CaptureRegion_y r)
  ∧ is_u16 (CaptureRegion_width r) ∧ is_u16 (CaptureRegion_height r).

Definition Call_wf (c : Call) : Prop :=
  match c with
  | Call_EventsSubscribe a => canonical (as_slice (SubscribeRequest_kinds a))
  | Call_EventsPoll a =>
      PollRequest_limit a ≠ 0 ∧ PollRequest_limit a ≤ MAX_EVENTS
      ∧ PollRequest_wait_ms a ≤ MAX_POLL_WAIT_MS
  | Call_ClientGeometry a => Rect_wf (ClientGeometryRequest_frame a)
  | Call_ApplicationsList a =>
      ApplicationListRequest_limit a ≠ 0 ∧ ApplicationListRequest_limit a ≤ MAX_APPLICATIONS
  | Call_ApplicationLaunch a =>
      let id := as_str (ApplicationLaunchRequest_application a) in
      desktop_id id ∧ 47 ∉ id ∧ 0 ∉ id
  | Call_KeyboardType a => typeable MAX_INPUT_ACTIONS (as_str (KeyboardTypeRequest_text a))
  | Call_KeyboardWrite a =>
      typeable MAX_LONG_INPUT_ACTIONS (as_str (KeyboardWriteRequest_text a))
  | Call_KeyboardKey a => canonical (as_slice (KeyboardKeyRequest_modifiers a))
  | Call_TextInsert a => typeable MAX_TEXT_TRANSFER_SCALARS (as_str (TextInsertRequest_text a))
  | Call_CaptureRegion a => CaptureRegion_wf (CaptureRegionRequest_region a)
  | _ => True
  end.

Definition Call_typed (c : Call) : Prop :=
  match c with
  | Call_CaptureRegion a => CaptureRegion_typed (CaptureRegionRequest_region a)
  | _ => True
  end.

Definition ClientMessage_wf (m : ClientMessage) : Prop :=
  match m with
  | ClientMessage_Hello h => Hello_wf h
  | ClientMessage_Request r => Call_wf (Request_call r)
  | ClientMessage_Goodbye g => Goodbye_wf g
  end.

Definition ClientMessage_typed (m : ClientMessage) : Prop :=
  match m with
  | ClientMessage_Request r => Call_typed (Request_call r)
  | _ => True
  end.

Definition WorkspaceDescriptor_wf (w : WorkspaceDescriptor) : Prop :=
  opt nonempty_text (WorkspaceDescriptor_name w) ∧ opt Rect_wf (WorkspaceDescriptor_work_area w).

Definition ClientDescriptor_wf (c : ClientDescriptor) : Prop :=
  opt nonempty_text (ClientDescriptor_title c) ∧ opt Rect_wf (ClientDescriptor_frame c)
  ∧ canonical (as_slice (ClientDescriptor_states c))
  ∧ canonical (as_slice (ClientDescriptor_actions c)).

Definition DesktopSnapshot_wf (s : DesktopSnapshot) : Prop :=
  let workspaces := as_slice (DesktopSnapshot_workspaces s) in
  let clients := as_slice (DesktopSnapshot_clients s) in
  Forall WorkspaceDescriptor_wf workspaces ∧ Forall ClientDescriptor_wf clients
  ∧ NoDup (WorkspaceDescriptor_id <$> workspaces) ∧ NoDup (ClientDescriptor_id <$> clients)
  ∧ DesktopSnapshot_current_workspace s ∈ (WorkspaceDescriptor_id <$> workspaces)
  ∧ opt (λ active, active ∈ (ClientDescriptor_id <$> clients)) (DesktopSnapshot_active s).

Definition Event_wf (e : Event) : Prop :=
  match e with
  | Event_ClientAdded c | Event_ClientChanged c => ClientDescriptor_wf c
  | _ => True
  end.

(** Sequences strictly increase, from after [prior] up to [cursor]. *)
Definition sequences_within (prior : option Z) (cursor : Z) (sequences : list Z) : Prop :=
  StronglySorted Z.lt sequences ∧ Forall (λ s, s ≤ cursor ∧ opt (λ p, p < s) prior) sequences.

Definition EventBatch_wf (b : EventBatch) : Prop :=
  let events := as_slice (EventBatch_events b) in
  Forall (λ e, Event_wf (EventEnvelope_event e)) events
  ∧ sequences_within None (EventBatch_cursor b) (EventEnvelope_sequence <$> events).

Definition ApplicationDescriptor_wf (a : ApplicationDescriptor) : Prop :=
  desktop_id (as_str (ApplicationDescriptor_id a)) ∧ nonempty_text (ApplicationDescriptor_name a).

Definition ApplicationPage_wf (p : ApplicationPage) : Prop :=
  let applications := as_slice (ApplicationPage_applications p) in
  Forall ApplicationDescriptor_wf applications
  ∧ canonical ((λ a, as_str (ApplicationDescriptor_id a)) <$> applications).

Definition InputReply_wf (r : InputReply) : Prop :=
  InputReply_requested r ≠ 0 ∧ InputReply_completed r ≤ InputReply_requested r
  ∧ (InputReply_terminal r = InputTerminal_Queued →
     InputReply_completed r = InputReply_requested r).

Definition TextTransferReply_wf (r : TextTransferReply) : Prop :=
  TextTransferReply_requested_bytes r ≠ 0
  ∧ TextTransferReply_requested_bytes r ≤ MAX_TEXT_TRANSFER_BYTES
  ∧ TextTransferReply_delivered_bytes r ≤ TextTransferReply_requested_bytes r
  ∧ TextTransferReply_delivered_bytes r
    = match TextTransferReply_terminal r with
      | TextTransferTerminal_Delivered => TextTransferReply_requested_bytes r
      | TextTransferTerminal_Offered | TextTransferTerminal_Interrupted => 0
      end.

Definition CaptureReply_wf (r : CaptureReply) : Prop :=
  0 < CaptureReply_width r ≤ MAX_CAPTURE_WIDTH ∧ 0 < CaptureReply_height r ≤ MAX_CAPTURE_HEIGHT
  ∧ CaptureReply_width r * CaptureReply_height r ≤ MAX_CAPTURE_PIXELS
  ∧ valid_png_base64 (as_str (CaptureReply_data r)) = true.

Definition CaptureRegionReply_wf (r : CaptureRegionReply) : Prop :=
  CaptureRegion_wf (CaptureRegionReply_region r)
  ∧ valid_png_base64 (as_str (CaptureRegionReply_data r)) = true.

Definition Reply_wf (r : Reply) : Prop :=
  match r with
  | Reply_DesktopSnapshot v => DesktopSnapshot_wf v
  | Reply_Events v => EventBatch_wf v
  | Reply_Applications v => ApplicationPage_wf v
  | Reply_Input v => InputReply_wf v
  | Reply_TextTransfer v => TextTransferReply_wf v
  | Reply_Capture v => CaptureReply_wf v
  | Reply_CaptureRegion v => CaptureRegionReply_wf v
  | _ => True
  end.

Definition Reply_typed (r : Reply) : Prop :=
  match r with
  | Reply_Capture v => is_u16 (CaptureReply_width v) ∧ is_u16 (CaptureReply_height v)
  | Reply_CaptureRegion v => CaptureRegion_typed (CaptureRegionReply_region v)
  | _ => True
  end.

Definition ServerMessage_wf (m : ServerMessage) : Prop :=
  match m with
  | ServerMessage_Welcome w => Welcome_wf w
  | ServerMessage_Response r =>
      match Response_outcome r with
      | Outcome_Ok reply => Reply_wf reply
      | Outcome_Error e => ProtocolError_wf e
      end
  | ServerMessage_Goodbye g => Goodbye_wf g
  end.

Definition ServerMessage_typed (m : ServerMessage) : Prop :=
  match m with
  | ServerMessage_Response {| Response_outcome := Outcome_Ok reply |} => Reply_typed reply
  | _ => True
  end.

(** ** Validators decide well-formedness *)

Lemma if_err_ok {A E} (b : bool) (e : E) (k : result A E) (a : A) :
  (if b then Err e else k) = Ok a ↔ b = false ∧ k = Ok a.
Proof. destruct b; naive_solver. Qed.

Lemma then_ok {E} (a : result unit E) (k : result unit E) :
  (a ;? k) = Ok tt ↔ a = Ok tt ∧ k = Ok tt.
Proof. destruct a as [[]|]; simpl; naive_solver. Qed.

Lemma ensure_ok {E} (b : bool) (e : E) : ensure b e = Ok tt ↔ b = true.
Proof. unfold ensure. destruct b; naive_solver. Qed.

Lemma let_ok_or {A B E} (o : option A) (e : E) (k : A → result B E) (b : B) :
  and_then (ok_or o e) k = Ok b ↔ ∃ a, o = Some a ∧ k a = Ok b.
Proof. destruct o; simpl; naive_solver. Qed.

Lemma trivial_ok : (@Ok unit string tt = Ok tt) ↔ True.
Proof. done. Qed.

Lemma empty_message_iff {MAX} (o : option (BoundedText MAX)) :
  is_some_and (λ t, is_empty (as_str t)) o = false ↔ opt nonempty_text o.
Proof.
  rewrite is_some_and_false. unfold opt, nonempty_text.
  by setoid_rewrite is_empty_false.
Qed.

Create HintDb validate.
#[export] Hint Rewrite @if_err_ok @then_ok @ensure_ok @let_ok_or trivial_ok
  orb_false_iff negb_false_iff Z.eqb_neq Z.eqb_eq Z.ltb_ge Z.leb_gt
  @is_empty_false @bool_decide_eq_true @empty_message_iff : validate.

(** Unfolds a validator and reads its tests as propositions. *)
Ltac validator f := unfold f, validate; autorewrite with validate.

Lemma PeerInfo_validate_iff p : PeerInfo_validate p = Ok tt ↔ PeerInfo_wf p.
Proof. validator PeerInfo_validate. unfold PeerInfo_wf, nonempty_text. tauto. Qed.

Lemma Hello_validate_iff h : Hello_validate h = Ok tt ↔ Hello_wf h.
Proof.
  unfold Hello_validate. autorewrite with validate.
  rewrite strictly_ordered_canonical. unfold Hello_wf. by rewrite <- PeerInfo_validate_iff.
Qed.

Lemma Limits_validate_iff l : Limits_validate l = Ok tt ↔ Limits_wf l.
Proof. validator Limits_validate. unfold Limits_wf. tauto. Qed.

Lemma ProviderInfo_validate_iff p :
  ProviderInfo_validate p = Ok tt ↔
  nonempty_text (ProviderInfo_name p) ∧ nonempty_text (ProviderInfo_version p).
Proof. validator ProviderInfo_validate. unfold nonempty_text. tauto. Qed.

Lemma Welcome_validate_iff w : Welcome_validate w = Ok tt ↔ Welcome_wf w.
Proof.
  unfold Welcome_validate, Welcome_wf. autorewrite with validate.
  rewrite !strictly_ordered_canonical.
  change (validate (Welcome_provider w)) with (ProviderInfo_validate (Welcome_provider w)).
  change (validate (Welcome_limits w)) with (Limits_validate (Welcome_limits w)).
  rewrite ProviderInfo_validate_iff, Limits_validate_iff. tauto.
Qed.

Lemma Goodbye_validate_iff g : Goodbye_validate g = Ok tt ↔ Goodbye_wf g.
Proof. validator Goodbye_validate. unfold Goodbye_wf. tauto. Qed.

Lemma ProtocolError_validate_iff e : ProtocolError_validate e = Ok tt ↔ ProtocolError_wf e.
Proof. validator ProtocolError_validate. unfold ProtocolError_wf. tauto. Qed.

Lemma Rect_validate_iff r : Rect_validate r = Ok tt ↔ Rect_wf r.
Proof. validator Rect_validate. unfold Rect_wf. tauto. Qed.

Lemma ends_with_desktop id : ends_with (bstr ".desktop") id = true ↔ desktop_id id.
Proof. apply ends_with_true. Qed.

Lemma desktop_id_nonempty id : desktop_id id → id ≠ [].
Proof. intros [stem ->]. by destruct stem. Qed.

Lemma count_scalars_ok errors n cs total :
  0 ≤ n → n + len cs ≤ U64_MAX →
  count_scalars errors n cs = Ok total ↔
  total = n + len cs ∧ Forall (λ c, is_control c = true → c = 10 ∨ c = 9) cs.
Proof.
  revert n. induction cs as [|c cs IH]; intros n Hn Hmax.
  { simpl. replace (n + len []) with n by (unfold len; simpl; lia). naive_solver. }
  assert (len (c :: cs) = 1 + len cs) as Hlen by (unfold len; simpl; lia).
  rewrite Hlen in *. pose proof (len_nonneg cs). cbn [count_scalars].
  rewrite if_err_ok, let_ok_or, Forall_cons.
  setoid_rewrite checked_in_Some. rewrite andb_false_iff, negb_false_iff, orb_true_iff, !Z.eqb_eq.
  split.
  - intros (Hc & s & (-> & ?) & Hrec). apply IH in Hrec as [-> ?]; [|lia..].
    split; [lia|]. split; [|done]. intros Ht. destruct Hc; [congruence|done].
  - intros (-> & Hc & Hcs). split; [destruct (is_control c); naive_solver|].
    exists (n + 1). split; [lia|]. apply IH; [lia..|]. split; [lia|done].
Qed.

Lemma validate_text_content_iff text maximum errors :
  maximum ≤ U64_MAX → len (chars text) ≤ U64_MAX →
  validate_text_content text maximum errors = Ok tt ↔ typeable maximum text.
Proof.
  intros Hmax Hlen. unfold validate_text_content, typeable.
  rewrite if_err_ok, is_empty_false. apply and_iff_compat_l.
  pose proof (count_scalars_ok errors 0 (chars text)) as Hcount.
  destruct (count_scalars errors 0 (chars text)) as [total|e]; cbn [and_then].
  - destruct (proj1 (Hcount total ltac:(lia) ltac:(lia)) eq_refl) as [-> ?].
    rewrite if_err_ok, Z.ltb_ge. naive_solver.
  - split; [done|]. intros [Hc _].
    by discriminate (proj2 (Hcount _ ltac:(lia) ltac:(lia)) (conj eq_refl Hc)).
Qed.

(** A string has at most as many scalar values as bytes. *)
Lemma utf8_decode_length s cs : utf8_decode s = Some cs → (length cs ≤ length s)%nat.
Proof.
  revert cs. induction (well_founded_ltof _ (@length Z) s) as [s _ IH]. intros cs.
  unfold ltof in IH. destruct s as [|b0 s1]; [by intros [= <-]|]. cbn [utf8_decode].
  assert (∀ t d c, (length t < length (b0 :: s1))%nat → cons c <$> utf8_decode t = Some d →
            (length d ≤ length (b0 :: s1))%nat) as Hstep.
  { intros t d c Ht Hd. destruct (utf8_decode t) as [ds|] eqn:E; [|done].
    simpl in Hd. injection Hd as <-. apply IH in E; [|done]. simpl in *. lia. }
  repeat case_match; try done; apply Hstep; simpl; lia.
Qed.

Lemma chars_length s : len (chars s) ≤ len s.
Proof.
  unfold chars, len. destruct (utf8_decode s) as [cs|] eqn:E; simpl; [|lia].
  apply utf8_decode_length in E. lia.
Qed.

Lemma bounded_text_typeable {MAX : N} (t : BoundedText MAX) (maximum : N) errors :
  MAX ≤ U64_MAX → maximum ≤ U64_MAX →
  validate_text_content (as_str t) maximum errors = Ok tt ↔ typeable maximum (as_str t).
Proof.
  intros HM Hm. apply validate_text_content_iff; [done|].
  pose proof (as_str_le t). pose proof (chars_length (as_str t)). lia.
Qed.

Lemma CaptureRegion_validate_iff r :
  CaptureRegion_typed r → CaptureRegion_validate r = Ok tt ↔ CaptureRegion_wf r.
Proof.
  intros (Hx & Hy & Hw & Hh). unfold CaptureRegion_validate, CaptureRegion_wf.
  unfold MAX_CAPTURE_REGION_WIDTH, MAX_CAPTURE_REGION_HEIGHT, MAX_CAPTURE_REGION_PIXELS,
    MAX_CAPTURE_WIDTH, MAX_CAPTURE_HEIGHT.
  split.
  - intros (p & [-> _]%checked_in_Some & (rt & [-> _]%checked_in_Some &
      (bt & [-> _]%checked_in_Some & H)%let_ok_or)%let_ok_or)%let_ok_or.
    autorewrite with validate in H. int_bounds. lia.
  - int_bounds. intros. do 3 (apply let_ok_or; eexists; split;
      [apply checked_in_Some; split; [done|int_bounds; nia]|]).
    autorewrite with validate. lia.
Qed.

Lemma Call_validate_iff c : Call_typed c → Call_validate c = Ok tt ↔ Call_wf c.
Proof.
  intros Hty. destruct c as [| |a|a| | |a|a|a|a|a|a|a|a|a|a|a|a|a|a]; cbn [Call_validate Call_wf];
    unfold validate; try done.
  - unfold SubscribeRequest_Validate. validator SubscribeRequest_validate. apply strictly_ordered_canonical.
  - unfold PollRequest_Validate. validator PollRequest_validate. tauto.
  - unfold ClientGeometryRequest_Validate, ClientGeometryRequest_validate.
    autorewrite with validate. unfold validate, Rect_Validate. rewrite Rect_validate_iff.
    naive_solver.
  - unfold ApplicationListRequest_Validate. validator ApplicationListRequest_validate. tauto.
  - unfold ApplicationLaunchRequest_Validate. validator ApplicationLaunchRequest_validate.
    rewrite ends_with_desktop, !contains_false.
    pose proof (desktop_id_nonempty (as_str (ApplicationLaunchRequest_application a))). tauto.
  - unfold KeyboardTypeRequest_Validate, KeyboardTypeRequest_validate, validate_keyboard_text.
    rewrite then_ok, bounded_text_typeable by done. naive_solver.
  - unfold KeyboardWriteRequest_Validate, KeyboardWriteRequest_validate, validate_keyboard_text.
    rewrite then_ok, bounded_text_typeable by done. naive_solver.
  - unfold KeyboardKeyRequest_Validate, KeyboardKeyRequest_validate.
    autorewrite with validate. rewrite strictly_ordered_canonical. naive_solver.
  - unfold TextInsertRequest_Validate, TextInsertRequest_validate.
    rewrite then_ok, bounded_text_typeable by done. naive_solver.
  - unfold CaptureRegionRequest_Validate, CaptureRegionRequest_validate.
    rewrite then_ok. unfold validate, CaptureRegion_Validate.
    rewrite CaptureRegion_validate_iff by done. naive_solver.
Qed.

Lemma opt_None {A} (P : A → Prop) : opt P None.
Proof. intros x. done. Qed.

Lemma opt_Some {A} (P : A → Prop) x : opt P (Some x) ↔ P x.
Proof. unfold opt. naive_solver. Qed.

Lemma WorkspaceDescriptor_validate_iff w :
  WorkspaceDescriptor_validate w = Ok tt ↔ WorkspaceDescriptor_wf w.
Proof.
  unfold WorkspaceDescriptor_validate, WorkspaceDescriptor_wf. autorewrite with validate.
  destruct (WorkspaceDescriptor_work_area w) as [r|].
  - rewrite opt_Some, <- Rect_validate_iff. done.
  - pose proof (opt_None Rect_wf). naive_solver.
Qed.

Lemma ClientDescriptor_validate_iff c :
  ClientDescriptor_validate c = Ok tt ↔ ClientDescriptor_wf c.
Proof.
  unfold ClientDescriptor_validate, ClientDescriptor_wf. rewrite if_err_ok, then_ok, if_err_ok.
  autorewrite with validate. rewrite !strictly_ordered_canonical.
  destruct (ClientDescriptor_frame c) as [r|].
  - rewrite opt_Some, <- Rect_validate_iff. unfold validate, Rect_Validate. tauto.
  - pose proof (opt_None Rect_wf). tauto.
Qed.

Lemma existsb_id {A} (f : A → Z) (l : list A) (id : Z) :
  existsb (λ x, f x =? id) l = true ↔ id ∈ (f <$> l).
Proof.
  rewrite existsb_exists, list_elem_of_fmap. setoid_rewrite list_elem_of_In.
  setoid_rewrite Z.eqb_eq. naive_solver.
Qed.

Lemma validate_all_iff {T} `{Validate T} (P : T → Prop) (l : list T) :
  (∀ x, validate x = Ok tt ↔ P x) → validate_all l = Ok tt ↔ Forall P l.
Proof. intros HP. rewrite validate_all_Forall. by apply Forall_proper. Qed.

Lemma DesktopSnapshot_validate_iff s :
  DesktopSnapshot_validate s = Ok tt ↔ DesktopSnapshot_wf s.
Proof.
  unfold DesktopSnapshot_validate, DesktopSnapshot_wf. cbv zeta.
  autorewrite with validate. rewrite !unique_by_NoDup, existsb_id.
  rewrite (validate_all_iff WorkspaceDescriptor_wf) by apply WorkspaceDescriptor_validate_iff.
  rewrite (validate_all_iff ClientDescriptor_wf) by apply ClientDescriptor_validate_iff.
  assert (∀ o, is_some_and
            (λ active, negb (existsb (λ client, ClientDescriptor_id client =? active)
               (as_slice (DesktopSnapshot_clients s)))) o = false
          ↔ opt (λ active, active ∈ (ClientDescriptor_id <$> as_slice (DesktopSnapshot_clients s))) o)
    as ->.
  { intros o. rewrite is_some_and_false. unfold opt.
    setoid_rewrite negb_false_iff. by setoid_rewrite existsb_id. }
  tauto.
Qed.

Lemma Event_validate_iff e : Event_validate e = Ok tt ↔ Event_wf e.
Proof. destruct e; try done; apply ClientDescriptor_validate_iff. Qed.

Lemma sequences_within_cons prior cursor s l :
  sequences_within prior cursor (s :: l) ↔
  s ≤ cursor ∧ opt (λ p, p < s) prior ∧ sequences_within (Some s) cursor l.
Proof.
  unfold sequences_within. rewrite Forall_cons. split.
  - intros [Hs [[Hc Hp] Hl]]. inversion_clear Hs as [|? ? Hsl Hlt]. split; [done|].
    split; [done|]. split; [done|]. rewrite Forall_forall in *. intros x Hx.
    split; [by apply Hl|]. apply opt_Some. by apply Hlt.
  - intros (Hc & Hp & Hsl & Hl). rewrite Forall_forall in Hl. split.
    + constructor; [done|]. rewrite Forall_forall. intros x Hx.
      destruct (Hl x Hx) as [_ Hsx]. by rewrite opt_Some in Hsx.
    + split; [done|]. rewrite Forall_forall. intros x Hx. destruct (Hl x Hx) as [? Hsx].
      rewrite opt_Some in Hsx. split; [done|]. intros p Hpp. specialize (Hp p Hpp). simpl in Hp. lia.
Qed.

Lemma check_sequences_iff cursor prior events :
  check_sequences cursor prior events = Ok tt ↔
  Forall (λ e, Event_wf (EventEnvelope_event e)) events
  ∧ sequences_within prior cursor (EventEnvelope_sequence <$> events).
Proof.
  revert prior. induction events as [|e events IH]; intros prior.
  { split; [repeat constructor|done]. }
  cbn [check_sequences fmap list_fmap]. rewrite sequences_within_cons, Forall_cons.
  rewrite then_ok, if_err_ok, IH, orb_false_iff, Z.ltb_ge.
  change (validate e) with (Event_validate (EventEnvelope_event e)). rewrite Event_validate_iff.
  assert (is_some_and (λ prior, EventEnvelope_sequence e <=? prior) prior = false
          ↔ opt (λ p, p < EventEnvelope_sequence e) prior) as ->.
  { rewrite is_some_and_false. unfold opt. by setoid_rewrite Z.leb_gt. }
  tauto.
Qed.

Lemma ApplicationPage_validate_iff p : ApplicationPage_validate p = Ok tt ↔ ApplicationPage_wf p.
Proof.
  unfold ApplicationPage_validate, ApplicationPage_wf. cbv zeta. autorewrite with validate.
  rewrite strictly_ordered_canonical.
  rewrite (validate_all_iff ApplicationDescriptor_wf); [tauto|].
  intros a. change (validate a) with (ApplicationDescriptor_validate a).
  unfold ApplicationDescriptor_validate, ApplicationDescriptor_wf, nonempty_text.
  autorewrite with validate. rewrite ends_with_desktop.
  pose proof (desktop_id_nonempty (as_str (ApplicationDescriptor_id a))). tauto.
Qed.

Lemma InputReply_validate_iff r : InputReply_validate r = Ok tt ↔ InputReply_wf r.
Proof.
  unfold InputReply_validate, InputReply_wf. rewrite !if_err_ok, orb_false_iff, andb_false_iff.
  rewrite negb_false_iff, Z.eqb_neq, Z.ltb_ge, Z.eqb_eq.
  destruct (InputReply_terminal r); naive_solver.
Qed.

Lemma TextTransferReply_validate_iff r :
  TextTransferReply_validate r = Ok tt ↔ TextTransferReply_wf r.
Proof.
  unfold TextTransferReply_validate, TextTransferReply_wf. rewrite then_ok, if_err_ok.
  rewrite !orb_false_iff, Z.eqb_neq, !Z.ltb_ge. unfold validate.
  destruct (TextTransferReply_terminal r); (destruct (Z.eqb_spec (TextTransferReply_delivered_bytes r)
    (TextTransferReply_requested_bytes r)), (Z.eqb_spec (TextTransferReply_delivered_bytes r) 0));
    naive_solver.
Qed.

Lemma CaptureReply_validate_iff r :
  is_u16 (CaptureReply_width r) → is_u16 (CaptureReply_height r) →
  CaptureReply_validate r = Ok tt ↔ CaptureReply_wf r.
Proof.
  intros Hw Hh. unfold CaptureReply_validate, CaptureReply_wf. rewrite then_ok, let_ok_or.
  unfold MAX_CAPTURE_WIDTH, MAX_CAPTURE_HEIGHT, MAX_CAPTURE_PIXELS. split.
  - intros (_ & p & [-> _]%checked_in_Some & H). autorewrite with validate in H.
    int_bounds. split_and!; tauto || lia.
  - intros (? & ? & ? & Hpng). split; [done|]. eexists. split.
    + apply checked_in_Some. split; [done|]. int_bounds. nia.
    + autorewrite with validate. split_and!; done || lia.
Qed.

Lemma Reply_validate_iff r : Reply_typed r → Reply_validate r = Ok tt ↔ Reply_wf r.
Proof.
  intros Hty. destruct r as [v|v|v|v|v|v|v|v|v|v|v]; cbn [Reply_validate Reply_wf]; try done.
  - apply DesktopSnapshot_validate_iff.
  - apply check_sequences_iff.
  - apply ApplicationPage_validate_iff.
  - apply InputReply_validate_iff.
  - apply TextTransferReply_validate_iff.
  - by apply CaptureReply_validate_iff; apply Hty.
  - unfold validate, CaptureRegionReply_Validate, CaptureRegionReply_validate,
      CaptureRegionReply_wf. rewrite !then_ok. autorewrite with validate.
    unfold validate, CaptureRegion_Validate. rewrite CaptureRegion_validate_iff by done.
    unfold TargetRequest_Validate, TargetRequest_validate. tauto.
Qed.

Lemma ClientMessage_validate_iff m :
  ClientMessage_typed m → ClientMessage_validate m = Ok tt ↔ ClientMessage_wf m.
Proof.
  intros Hty. destruct m as [h|r|g].
  - apply Hello_validate_iff.
  - by apply Call_validate_iff.
  - apply Goodbye_validate_iff.
Qed.

Lemma ServerMessage_validate_iff m :
  ServerMessage_typed m → ServerMessage_validate m = Ok tt ↔ ServerMessage_wf m.
Proof.
  intros Hty. destruct m as [w|[id [reply|e]]|g].
  - apply Welcome_validate_iff.
  - by apply Reply_validate_iff.
  - apply ProtocolError_validate_iff.
  - apply Goodbye_validate_iff.
Qed.

(** ** Properties *)

(** C19: A client-to-provider message whose fixed-width fields are in range passes
    validation exactly when it is well formed: nonempty peer texts, strictly increasing
    capability, event-kind and modifier lists, bounded page and wait requests, nonempty
    geometry, canonical desktop identifiers, typeable text, and capture regions that fit
    the revision bounds without 16-bit overflow. *)
Theorem client_message_validation_exact (m : ClientMessage) :
  ClientMessage_typed m → validate m = Ok tt ↔ ClientMessage_wf m.
Proof. apply ClientMessage_validate_iff. Qed.

Lemma client_message_validation_exact_witness :
  let m := ClientMessage_Request {| Request_id := 1; Request_call := Call_CaptureRegion
             {| CaptureRegionRequest_target :=
                  {| TargetRequest_client := 1; TargetRequest_generation := 0 |};
                CaptureRegionRequest_region :=
                  {| CaptureRegion_x := 1536; CaptureRegion_y := 0;
                     CaptureRegion_width := 512; CaptureRegion_height := 512 |} |} |} in
  validate m = Ok tt ↔ ClientMessage_wf m.
Proof.
  apply client_message_validation_exact. vm_compute. repeat split; discriminate.
Defined.

(** C20: A provider-to-client message whose fixed-width fields are in range passes validation
    exactly when it is well formed: an exact protocol revision and canonical feature and
    grant lists in the welcome, snapshots with unique identities that contain the current
    workspace and the active client, event batches whose sequences strictly increase up
    to the cursor, ordered application pages, consistent input and transfer counts, and
    bounded PNG captures. *)
Theorem server_message_validation_exact (m : ServerMessage) :
  ServerMessage_typed m → validate m = Ok tt ↔ ServerMessage_wf m.
Proof. apply ServerMessage_validate_iff. Qed.

Lemma server_message_validation_exact_witness :
  let m := ServerMessage_Response {| Response_id := 7; Response_outcome := Outcome_Ok (Reply_Input
             {| InputReply_completed := 2; InputReply_requested := 3;
                InputReply_terminal := InputTerminal_Interrupted |}) |} in
  validate m = Ok tt ↔ ServerMessage_wf m.
Proof. apply server_message_validation_exact. exact I. Defined.
