(* ===== verification/Base64.v ===== *)
(** * The PNG check of the capture replies against a reference base64 encoder

    [valid_png_base64] of [message.rs] inspects the text of a capture; here it is shown to
    accept exactly the canonical base64 encodings of byte strings that start as PNG files
    do. *)

From S2P Require Import Prelude Text Bounded Message.

(** ** The reference encoder (RFC 4648, with padding) *)

Definition base64_char (v : Z) : Z :=
  if v <? 26 then 65 + v
  else if v <? 52 then 97 + (v - 26)
  else if v <? 62 then 48 + (v - 52)
  else if v =? 62 then 43 else 47.

Fixpoint base64_encode (p : bytes) : bytes :=
  match p with
  | [] => []
  | [a] => [base64_char (a / 4); base64_char (a mod 4 * 16); 61; 61]
  | [a; b] =>
      [base64_char (a / 4); base64_char (a mod 4 * 16 + b / 16); base64_char (b mod 16 * 4); 61]
  | a :: b :: c :: p =>
      base64_char (a / 4) :: base64_char (a mod 4 * 16 + b / 16)
      :: base64_char (b mod 16 * 4 + c / 64) :: base64_char (c mod 64) :: base64_encode p
  end.

Definition PNG_SIGNATURE : bytes := [137; 80; 78; 71; 13; 10; 26; 10].

(** A byte string that begins with the PNG signature; the eleventh base64 character also
    holds the two high bits of the byte after it (the first byte of a chunk length). *)
Definition starts_png (p : bytes) : Prop :=
  take 8 p = PNG_SIGNATURE ∧ ∀ b, p !! 8%nat = Some b → b < 64.

(** ** The alphabet *)

Definition in_alphabet (x : Z) : bool := is_ascii_alphanumeric x || ((x =? 43) || (x =? 47)).

Ltac zcases :=
  repeat match goal with
  | |- context [?a <? ?b] => destruct (Z.ltb_spec a b)
  | |- context [?a =? ?b] => destruct (Z.eqb_spec a b)
  | |- context [?a <=? ?b] => destruct (Z.leb_spec a b)
  end; simpl.

Lemma base64_value_Some x v :
  base64_value x = Some v ↔ x = base64_char v ∧ 0 ≤ v < 64.
Proof.
  unfold base64_value, base64_char, within. split.
  - zcases; try done; intros [= <-]; split; try lia; zcases; lia.
  - intros [-> Hv]. zcases; try lia; f_equal; lia.
Qed.

Lemma in_alphabet_value x : in_alphabet x = true ↔ ∃ v, base64_value x = Some v.
Proof.
  unfold in_alphabet, is_ascii_alphanumeric, base64_value, within.
  zcases; naive_solver lia.
Qed.

Lemma base64_char_alphabet v : 0 ≤ v < 64 → in_alphabet (base64_char v) = true.
Proof. intros. apply in_alphabet_value. exists v. by apply base64_value_Some. Qed.

Lemma in_alphabet_char x : in_alphabet x = true → ∃ v, x = base64_char v ∧ 0 ≤ v < 64.
Proof. intros [v Hv%base64_value_Some]%in_alphabet_value. by exists v. Qed.

Lemma in_alphabet_not_pad x : in_alphabet x = true → x ≠ 61.
Proof. by intros H ->. Qed.

(** ** Padded texts *)

(** The bits of the last body character that the padding leaves unused are zero. *)
Definition last_bits (pad : nat) (body : bytes) : Prop :=
  match pad with
  | 0%nat => True
  | _ => ∃ v, last body ≫= base64_value = Some v
              ∧ v mod (if bool_decide (pad = 1%nat) then 4 else 16) = 0
  end.

Definition padded (d : bytes) : Prop :=
  ∃ body pad, d = body ++ replicate pad 61 ∧ (pad ≤ 2)%nat
              ∧ Forall (λ x, in_alphabet x = true) body ∧ last_bits pad body.

Lemma take_while_count_pad pad body :
  Forall (λ x, in_alphabet x = true) body →
  take_while_count (λ b, b =? 61) (reverse (body ++ replicate pad 61)) = pad.
Proof.
  intros Hb. rewrite reverse_app, reverse_replicate.
  induction pad as [|pad IH]; simpl; [|by rewrite IH].
  destruct body as [|x body _] using rev_ind; [done|].
  rewrite reverse_snoc. simpl. apply Forall_app in Hb as [_ Hx].
  apply Forall_singleton, in_alphabet_not_pad, Z.eqb_neq in Hx. by rewrite Hx.
Qed.

Lemma take_while_count_le p l : (take_while_count p l ≤ length l)%nat.
Proof. induction l as [|x l IH]; simpl; [done|]. case_match; lia. Qed.

Lemma forallb_replicate (l : bytes) :
  forallb (λ b, b =? 61) l = true → l = replicate (length l) 61.
Proof.
  induction l as [|x l IH]; simpl; [done|]. intros [->%Z.eqb_eq Hl]%andb_true_iff.
  by rewrite <- IH.
Qed.

Lemma forallb_pad n : forallb (λ b, b =? 61) (replicate n 61) = true.
Proof. by induction n. Qed.

Lemma land_3 v : Z.land v 3 = v mod 4.
Proof. change 3 with (Z.ones 2). by rewrite Z.land_ones by lia. Qed.
Lemma land_15 v : Z.land v 15 = v mod 16.
Proof. change 15 with (Z.ones 4). by rewrite Z.land_ones by lia. Qed.

Lemma is_some_and_true {A} (f : A → bool) o :
  is_some_and f o = true ↔ ∃ x, o = Some x ∧ f x = true.
Proof. destruct o; naive_solver. Qed.

Lemma valid_png_base64_padded d :
  valid_png_base64 d = true ↔
  12 ≤ len d ∧ len d mod 4 = 0 ∧ starts_with (bstr "iVBORw0KGgo") d = true ∧ padded d.
Proof.
  unfold valid_png_base64. cbv zeta. split.
  - intros H. destruct (_ || _) eqn:Hpre in H; [done|]. bool_props.
    set (pad := take_while_count _ _) in H.
    destruct (2 <? pad)%nat eqn:Hpad; [done|]. apply Nat.ltb_ge in Hpad.
    destruct (_ || _) eqn:Hbody in H; [done|]. bool_props.
    assert (pad ≤ length d)%nat as Hle.
    { unfold pad. rewrite <- length_reverse. apply take_while_count_le. }
    match goal with Hd : forallb _ (drop _ _) = true |- _ =>
      apply forallb_replicate in Hd; rewrite length_drop in Hd;
      replace (length d - (length d - pad))%nat with pad in Hd by lia; rename Hd into Hdrop end.
    match goal with Ht : forallb _ (take _ _) = true |- _ => rename Ht into Hal end.
    split_and!; [done..|]. exists (take (length d - pad) d), pad.
    split; [by rewrite <- Hdrop, take_drop|]. split; [done|]. split.
    { apply Forall_forall. intros x Hx. rewrite forallb_forall in Hal. by apply Hal, list_elem_of_In. }
    unfold last_bits. destruct pad as [|[|[|pad]]]; [done|..|done];
      apply is_some_and_true in H as (v & Hv & Hz); bool_props;
      exists v; (split; [done|]); [rewrite <- land_3|rewrite <- land_15]; done.
  - intros (Hlen & Hmod & Hpre & body & pad & Hd & Hpad & Hal & Hlast).
    rewrite (proj2 (Z.ltb_ge _ _) Hlen), (proj2 (Z.eqb_eq _ _) Hmod), Hpre. simpl.
    rewrite Hd, take_while_count_pad by done. rewrite (proj2 (Nat.ltb_ge _ _)) by done.
    rewrite length_app, length_replicate, Nat.add_sub, take_app_length, drop_app_length.
    assert (forallb (λ b, is_ascii_alphanumeric b || ((b =? 43) || (b =? 47))) body = true) as ->.
    { apply forallb_forall. intros x Hx%list_elem_of_In. rewrite Forall_forall in Hal.
      by apply Hal. }
    assert (forallb (λ b, b =? 61) (replicate pad 61) = true) as ->.
    { apply forallb_pad. }
    simpl. destruct pad as [|[|[|pad]]]; [done|..|lia];
      destruct Hlast as (v & -> & Hv); simpl; [rewrite land_3|rewrite land_15];
      by apply Z.eqb_eq.
Qed.

(** ** Canonical encodings are the padded texts of whole quads *)

(** Induction four characters at a time. *)
Lemma quad_ind (P : bytes → Prop) :
  P [] → (∀ a b c e d, len d mod 4 = 0 → P d → P (a :: b :: c :: e :: d)) →
  ∀ d, len d mod 4 = 0 → P d.
Proof.
  intros H0 H4 d. induction (well_founded_ltof _ (@length Z) d) as [d _ IH]. intros Hd.
  unfold len in Hd. destruct d as [|a [|b [|c [|e d]]]]; try done.
  assert (len d mod 4 = 0).
  { unfold len. cbn [length] in Hd.
    replace (Z.of_nat (S (S (S (S (length d)))))) with (Z.of_nat (length d) + 1 * 4) in Hd by lia.
    by rewrite Z.mod_add in Hd. }
  apply H4; [done|]. apply IH; [unfold ltof; simpl; lia|done].
Qed.

Ltac chars_of :=
  repeat match goal with
  | H : in_alphabet (base64_char _) = true |- _ => clear H
  | H : in_alphabet ?x = true |- _ =>
      let v := fresh "v" in let Hv := fresh "Hv" in
      apply in_alphabet_char in H as (v & -> & Hv)
  end.

(** The last quad: one, two or three bytes. *)
Lemma padded_quad a b c e :
  padded [a; b; c; e] → ∃ p, Forall is_u8 p ∧ [a; b; c; e] = base64_encode p.
Proof.
  intros (body & pad & Hd & Hpad & Hal & Hlast).
  destruct pad as [|[|[|pad]]]; [..|lia];
    destruct body as [|a' [|b' [|c' [|e' [|f body]]]]]; simplify_eq/=;
    rewrite ?Forall_cons in Hal; destruct_and?.
  - chars_of. exists [v2 * 4 + v1 / 16; v1 mod 16 * 16 + v0 / 4; v0 mod 4 * 64 + v].
    split; [repeat constructor; int_bounds; euclid|]. simpl. repeat f_equal; euclid.
  - destruct Hlast as (w & [-> ?]%base64_value_Some & Hz).
    chars_of.
    exists [v0 * 4 + v / 16; v mod 16 * 16 + w / 4].
    split; [repeat constructor; int_bounds; euclid|]. simpl. repeat f_equal; euclid.
  - destruct Hlast as (w & [-> ?]%base64_value_Some & Hz).
    chars_of.
    exists [v * 4 + w / 16].
    split; [repeat constructor; int_bounds; euclid|]. simpl. repeat f_equal; euclid.
Qed.

Lemma padded_tail a b c e d :
  len d mod 4 = 0 → d ≠ [] → padded (a :: b :: c :: e :: d) →
  in_alphabet a = true ∧ in_alphabet b = true ∧ in_alphabet c = true ∧ in_alphabet e = true
  ∧ padded d.
Proof.
  intros Hmod Hne (body & pad & Hd & Hpad & Hal & Hlast).
  assert (4 ≤ length d)%nat as Hlen.
  { unfold len in Hmod. destruct d as [|? [|? [|? [|]]]]; try done. simpl. lia. }
  pose proof (f_equal length Hd) as Hl. rewrite length_app, length_replicate in Hl. simpl in Hl.
  destruct body as [|a' [|b' [|c' [|e' [|f body]]]]]; simpl in Hl; try lia.
  cbn [app] in Hd. injection Hd as -> -> -> -> ->. rewrite !Forall_cons in Hal. destruct_and!.
  do 4 (split; [done|]). exists (f :: body), pad. split_and!; try done.
  - by rewrite Forall_cons.
Qed.

Lemma padded_cons a b c e d :
  in_alphabet a = true → in_alphabet b = true → in_alphabet c = true → in_alphabet e = true →
  d ≠ [] → len d mod 4 = 0 → padded d → padded (a :: b :: c :: e :: d).
Proof.
  intros ? ? ? ? Hne Hmod (body & pad & Hd & Hpad & Hal & Hlast).
  exists (a :: b :: c :: e :: body), pad. split; [by rewrite Hd|]. split; [done|].
  split; [by repeat constructor|]. destruct body as [|f body]; [|by destruct pad].
  destruct pad as [|[|[|pad]]]; [done|by subst..|lia].
Qed.

Lemma padded_encode d : len d mod 4 = 0 → padded d → ∃ p, Forall is_u8 p ∧ d = base64_encode p.
Proof.
  revert d. apply (quad_ind (λ d, padded d → ∃ p, Forall is_u8 p ∧ d = base64_encode p)).
  { intros _. by exists []. }
  intros a b c e d Hmod IH Hp. destruct (decide (d = [])) as [->|Hne]; [by apply padded_quad|].
  apply padded_tail in Hp as (Ha & Hb & Hc & He & Hp); [|done..].
  destruct (IH Hp) as (p & Hu & ->). chars_of.
  exists (v2 * 4 + v1 / 16 :: v1 mod 16 * 16 + v0 / 4 :: v0 mod 4 * 64 + v :: p).
  split; [repeat constructor; [int_bounds; euclid..|done]|].
  cbn [base64_encode]. repeat f_equal; euclid.
Qed.

(** Induction three bytes at a time. *)
Lemma triple_ind (P : bytes → Prop) :
  P [] → (∀ a, P [a]) → (∀ a b, P [a; b]) → (∀ a b c p, P p → P (a :: b :: c :: p)) → ∀ p, P p.
Proof.
  intros H0 H1 H2 H3 p. induction (well_founded_ltof _ (@length Z) p) as [p _ IH].
  destruct p as [|a [|b [|c p]]]; auto. apply H3, IH. unfold ltof. simpl. lia.
Qed.

Lemma base64_encode_quads p : len (base64_encode p) mod 4 = 0.
Proof.
  induction p as [| | |a b c p IH] using triple_ind; [done..|]. cbn [base64_encode].
  unfold len in *. cbn [length].
  replace (Z.of_nat (S (S (S (S (length (base64_encode p)))))))
    with (Z.of_nat (length (base64_encode p)) + 1 * 4) by lia.
  by rewrite Z.mod_add.
Qed.

Lemma base64_encode_nonempty a p : base64_encode (a :: p) ≠ [].
Proof. by destruct p as [|b [|c p]]. Qed.

Ltac u8_chars := rewrite ?Forall_cons in *; destruct_and?; split_and?;
  first [apply base64_char_alphabet; int_bounds; euclid | by constructor].

Lemma encode_padded p : Forall is_u8 p → padded (base64_encode p).
Proof.
  induction p as [|a|a b|a b c p IH] using triple_ind; intros Hu.
  - exists [], 0%nat. split_and!; [done|lia|constructor|done].
  - exists [base64_char (a / 4); base64_char (a mod 4 * 16)], 2%nat.
    split_and!; [done|done|u8_chars|].
    exists (a mod 4 * 16). split; [|simpl; euclid]. apply base64_value_Some.
    split; [done|euclid].
  - exists [base64_char (a / 4); base64_char (a mod 4 * 16 + b / 16);
            base64_char (b mod 16 * 4)], 1%nat.
    split_and!; [done|lia|u8_chars|].
    exists (b mod 16 * 4). split; [|simpl; euclid]. apply base64_value_Some.
    split; [done|euclid].
  - rewrite !Forall_cons in Hu. destruct Hu as (Ha & Hb & Hc & Hp).
    assert (∀ v, 0 ≤ v < 64 → in_alphabet (base64_char v) = true) as Halpha
      by apply base64_char_alphabet.
    cbn [base64_encode]. destruct p as [|x p].
    + exists [base64_char (a / 4); base64_char (a mod 4 * 16 + b / 16);
              base64_char (b mod 16 * 4 + c / 64); base64_char (c mod 64)], 0%nat.
      split_and!; [done|lia|u8_chars|done].
    + apply padded_cons; try (apply Halpha; int_bounds; euclid).
      * apply base64_encode_nonempty.
      * apply base64_encode_quads.
      * by apply IH.
Qed.

(** ** The PNG prefix *)

Lemma char_inv e n v : base64_char e = n → 0 ≤ e < 64 → base64_value n = Some v → e = v.
Proof.
  intros He Hr Hv. assert (base64_value n = Some e) as H by (apply base64_value_Some; done).
  congruence.
Qed.

Ltac char_eqs :=
  repeat match goal with
  | H : base64_char ?e = ?n |- _ =>
      apply char_inv with (v := ltac:(let v := eval vm_compute in (default 0 (base64_value n))
                                      in exact v)) in H;
      [|euclid|by vm_compute]
  end.

Lemma png_prefix_short : ∃ r, base64_encode PNG_SIGNATURE = bstr "iVBORw0KGgo" ++ r.
Proof. by exists [61]. Qed.

Lemma png_prefix_long b q :
  0 ≤ b < 64 → ∃ r, base64_encode (PNG_SIGNATURE ++ b :: q) = bstr "iVBORw0KGgo" ++ r.
Proof.
  intros Hb. exists (base64_char (b mod 64) :: base64_encode q).
  change (base64_encode (PNG_SIGNATURE ++ b :: q)) with
    (take 10 (bstr "iVBORw0KGgo") ++ base64_char (40 + b / 64) :: base64_char (b mod 64)
       :: base64_encode q).
  by rewrite Z.div_small by lia.
Qed.

Lemma png_prefix_encode p :
  Forall is_u8 p → starts_png p → starts_with (bstr "iVBORw0KGgo") (base64_encode p) = true.
Proof.
  intros Hu [Hsig Hb]. apply starts_with_true.
  assert (p = PNG_SIGNATURE ++ drop 8 p) as Hp by (by rewrite <- Hsig, take_drop).
  destruct (drop 8 p) as [|b q] eqn:Hq; rewrite Hp in *.
  - rewrite app_nil_r. apply png_prefix_short.
  - apply png_prefix_long. specialize (Hb b eq_refl).
    apply Forall_app in Hu as [_ [? _]%Forall_cons]. int_bounds. lia.
Qed.

Lemma png_prefix_inv p :
  Forall is_u8 p → 12 ≤ len (base64_encode p) →
  starts_with (bstr "iVBORw0KGgo") (base64_encode p) = true → starts_png p.
Proof.
  intros Hu Hlen [r Hr]%starts_with_true.
  change (bstr "iVBORw0KGgo" ++ r)
    with ([105; 86; 66; 79; 82; 119; 48; 75; 71; 103; 111] ++ r) in Hr.
  do 7 (destruct p as [|? p]; [done|]). destruct p as [|a8 [|a9 p]]; simplify_eq/=.
  - rewrite !Forall_cons in Hu. destruct_and!. int_bounds. char_eqs.
    split; [|done]. unfold PNG_SIGNATURE. simpl. repeat f_equal; euclid.
  - rewrite !Forall_cons in Hu. destruct_and!. int_bounds. char_eqs.
    split; [unfold PNG_SIGNATURE; simpl; repeat f_equal; euclid|].
    intros b [= <-]. euclid.
Qed.

Lemma base64_encode_length p : len (base64_encode p) = (len p + 2) / 3 * 4.
Proof.
  induction p as [| | |a b c p IH] using triple_ind; [done..|]. cbn [base64_encode].
  rewrite !len_cons, IH. replace (1 + (1 + (1 + len p)) + 2) with (len p + 2 + 1 * 3) by lia.
  rewrite Z.div_add by lia. lia.
Qed.

Lemma png_base64_valid p :
  Forall is_u8 p → starts_png p → valid_png_base64 (base64_encode p) = true.
Proof.
  rewrite valid_png_base64_padded. intros Hu Hpng. pose proof (png_prefix_encode p Hu Hpng) as Hpre.
  split; [|split; [apply base64_encode_quads|split; [done|by apply encode_padded]]].
  apply starts_with_true in Hpre as [r Hr]. pose proof (base64_encode_quads p) as Hq.
  rewrite Hr, len_app in *. change (len (bstr "iVBORw0KGgo")) with 11 in *.
  pose proof (len_nonneg r). euclid.
Qed.

(** ** Properties *)

(** The PNG check of capture replies is exact: a text passes precisely when it is the
    canonical padded base64 encoding of some byte string that begins with the eight-byte
    PNG signature (whose following byte, the top of a chunk length, is below 64). *)
Theorem valid_png_base64_exact (data : bytes) :
  valid_png_base64 data = true ↔
  ∃ p, Forall is_u8 p ∧ data = base64_encode p ∧ starts_png p.
Proof.
  split; [|intros (p & Hu & -> & Hpng); by apply png_base64_valid].
  rewrite valid_png_base64_padded. intros (Hlen & Hmod & Hpre & Hpad).
  destruct (padded_encode data Hmod Hpad) as (p & Hu & ->).
  exists p. split; [done|]. split; [done|]. by apply png_prefix_inv.
Qed.
