(* ===== verification/SeatGate.v ===== *)
(** * [agent-seat-x11/src/seat.rs]: the volatile operator gate and its control protocol

    The gate is one atomic 64-bit word.  Even words are disabled, odd words are enabled
    generations, and [u64::MAX] is a terminal disabled word.  Sessions hold a permit (the
    word at which they were admitted); operators move the word with a compare-exchange
    loop, modelled as atomic steps so that any number of them may interleave. *)

From stdpp Require Import relations.
From S2P Require Import Prelude.

Definition CONTROL_MAGIC : bytes := bstr "ASG1".
Definition REQUEST_BYTES : nat := length CONTROL_MAGIC + 1.
Definition RESPONSE_BYTES : nat := length CONTROL_MAGIC + 1 + 8.
Definition STATUS : Z := 0.
Definition ENABLE : Z := 1.
Definition DISABLE : Z := 2.
Definition DISABLED_TERMINAL : Z := U64_MAX.

(** The permit is the admitted word. *)
Definition SeatPermit : Type := Z.

Definition is_enabled (raw : Z) : bool :=
  negb (raw =? DISABLED_TERMINAL) && (Z.land raw 1 =? 1).

Record SeatStatus := { SeatStatus_enabled : bool; SeatStatus_generation : Z }.

#[export] Instance SeatStatus_eq_dec : EqDecision SeatStatus.
Proof. solve_decision. Defined.

Definition SeatStatus_from_raw (raw : Z) : SeatStatus :=
  {| SeatStatus_enabled := is_enabled raw; SeatStatus_generation := raw / 2 |}.

Definition SeatGate_new : Z := 0.

Definition SeatGate_permit (gate : Z) : option SeatPermit :=
  if is_enabled gate then Some gate else None.

Definition SeatGate_accepts (gate : Z) (permit : SeatPermit) : bool :=
  (gate =? permit) && is_enabled permit.

Definition SeatGate_status (gate : Z) : SeatStatus := SeatStatus_from_raw gate.

Definition exhausted : string :=
  "seat transition space is exhausted; restart the provider".

(** Where an operator is in [set_enabled]: before the first load, at the head of the loop
    with its last observation of the word, or returned. *)
Inductive SetEnabled :=
| SetEnabled_Start
| SetEnabled_Loop (current : Z)
| SetEnabled_Done (res : result SeatStatus string).

(** One atomic access of [set_enabled(enabled)] with the computation around it: the new
    word and the operator's next position. *)
Definition set_enabled_step (enabled : bool) (gate : Z) (pc : SetEnabled) : Z * SetEnabled :=
  match pc with
  | SetEnabled_Start => (gate, SetEnabled_Loop gate)
  | SetEnabled_Loop current =>
      let status := SeatStatus_from_raw current in
      if Bool.eqb (SeatStatus_enabled status) enabled then (gate, SetEnabled_Done (Ok status))
      else
        match checked_u64 (current + 1) with
        | None =>
            (DISABLED_TERMINAL,
             SetEnabled_Done (if enabled then Err exhausted
                              else Ok (SeatStatus_from_raw DISABLED_TERMINAL)))
        | Some next =>
            if next =? DISABLED_TERMINAL
            then (DISABLED_TERMINAL, SetEnabled_Done (Err exhausted))
            else if gate =? current
            then (next, SetEnabled_Done (Ok (SeatStatus_from_raw next)))
            else (gate, SetEnabled_Loop gate)
        end
  | SetEnabled_Done res => (gate, SetEnabled_Done res)
  end.

Fixpoint run_set_enabled (fuel : nat) (enabled : bool) (gate : Z) (pc : SetEnabled)
  : Z * SetEnabled :=
  match fuel with
  | O => (gate, pc)
  | S fuel => let '(gate, pc) := set_enabled_step enabled gate pc in
              run_set_enabled fuel enabled gate pc
  end.

(** [set_enabled] without interference, as the control loop calls it. *)
Definition set_enabled (enabled : bool) (gate : Z) : Z * option (result SeatStatus string) :=
  match run_set_enabled 2 enabled gate SetEnabled_Start with
  | (gate, SetEnabled_Done res) => (gate, Some res)
  | (gate, _) => (gate, None)
  end.

(** ** Interleaved operators *)

Record System := { gate : Z; operators : list (bool * SetEnabled) }.

Inductive system_step : System → System → Prop :=
| system_spawn s enabled :
    system_step s {| gate := gate s; operators := operators s ++ [(enabled, SetEnabled_Start)] |}
| system_operator s i enabled pc gate' pc' :
    operators s !! i = Some (enabled, pc) →
    set_enabled_step enabled (gate s) pc = (gate', pc') →
    system_step s {| gate := gate'; operators := <[i := (enabled, pc')]> (operators s) |}.

Definition system_init : System := {| gate := SeatGate_new; operators := [] |}.

(** ** The control protocol *)

Inductive ControlCommand := ControlCommand_Status | ControlCommand_Enable | ControlCommand_Disable.

Definition ControlCommand_code (self : ControlCommand) : Z :=
  match self with
  | ControlCommand_Status => STATUS
  | ControlCommand_Enable => ENABLE
  | ControlCommand_Disable => DISABLE
  end.

Definition encode_status (status : SeatStatus) : bytes :=
  CONTROL_MAGIC ++ [if SeatStatus_enabled status then 1 else 0]
    ++ le_bytes 8 (SeatStatus_generation status).

Definition decode_status (response : bytes) : result SeatStatus string :=
  if negb (bool_decide (take (length CONTROL_MAGIC) response = CONTROL_MAGIC))
  then Err "provider returned an invalid seat-control response"%string
  else
    let state := nth (length CONTROL_MAGIC) response 0 in
    let? enabled := if state =? 0 then Ok false else if state =? 1 then Ok true
                    else Err "provider returned an invalid seat-control state"%string in
    Ok {| SeatStatus_enabled := enabled;
          SeatStatus_generation := from_le (drop (length CONTROL_MAGIC + 1) response) |}.

(** What the operating system reports about one [accept] of the control listener. *)
Record ControlStream := {
  stream_peer : result Z string;       (** [socket_peercred] *)
  stream_timeouts : result unit string;
  stream_request : option bytes;       (** [read_exact] of [REQUEST_BYTES] bytes *)
  stream_write : result unit string    (** [write_all] of the acknowledgement *)
}.

Inductive Accept :=
| Accept_WouldBlock
| Accept_Failed (error : string)
| Accept_Stream (stream : ControlStream).

(** The gate after the call, the acknowledgement sent, and the result. *)
Definition handle_pending (euid : Z) (accept : Accept) (gate : Z)
  : Z * option bytes * result unit string :=
  match accept with
  | Accept_WouldBlock => (gate, None, Ok tt)
  | Accept_Failed error => (gate, None, Err ("seat-control accept failed: " +:+ error)%string)
  | Accept_Stream stream =>
      match stream_peer stream with
      | Err error =>
          (gate, None, Err ("cannot authenticate seat-control peer: " +:+ error)%string)
      | Ok uid =>
          if negb (uid =? euid) then (gate, None, Ok tt) else
          match stream_timeouts stream with
          | Err error => (gate, None, Err ("cannot bound seat-control I/O: " +:+ error)%string)
          | Ok _ =>
              match stream_request stream with
              | None => (gate, None, Ok tt)
              | Some request =>
                  if negb (bool_decide (take (length CONTROL_MAGIC) request = CONTROL_MAGIC))
                  then (gate, None, Ok tt) else
                  let command := nth (length CONTROL_MAGIC) request 0 in
                  let reply gate status :=
                    (gate, Some (encode_status status),
                     match stream_write stream with
                     | Ok _ => Ok tt
                     | Err error =>
                         Err ("cannot acknowledge seat-control request: " +:+ error)%string
                     end) in
                  let transition enabled :=
                    match set_enabled enabled gate with
                    | (gate, Some (Ok status)) => reply gate status
                    | (gate, Some (Err error)) => (gate, None, Err error)
                    | (gate, None) => (gate, None, Ok tt)
                    end in
                  if command =? STATUS then reply gate (SeatGate_status gate)
                  else if command =? ENABLE then transition true
                  else if command =? DISABLE then transition false
                  else (gate, None, Ok tt)
              end
          end
      end
  end.

(** The request a client sends for a command. *)
Definition encode_request (command : ControlCommand) : bytes :=
  CONTROL_MAGIC ++ [ControlCommand_code command].

(** What the client's [read_exact] of the acknowledgement yields is decoded. *)
Definition request_outcome (acknowledgement : result bytes string) : result SeatStatus string :=
  match acknowledgement with
  | Ok response => decode_status response
  | Err error => Err ("cannot read seat-control response: " +:+ error)%string
  end.

(** ** Facts about the word *)

Lemma is_enabled_spec raw : is_enabled raw = true ↔ raw ≠ DISABLED_TERMINAL ∧ Z.odd raw = true.
Proof.
  unfold is_enabled. change 1 with (Z.ones 1) at 1. rewrite Z.land_ones by lia.
  change (2 ^ 1) with 2. rewrite Zmod_odd.
  destruct (Z.eqb_spec raw DISABLED_TERMINAL), (Z.odd raw); cbn; naive_solver.
Qed.

Lemma is_enabled_terminal : is_enabled DISABLED_TERMINAL = false.
Proof. reflexivity. Qed.

Lemma is_enabled_succ raw :
  raw + 1 ≠ DISABLED_TERMINAL → raw ≠ DISABLED_TERMINAL →
  is_enabled (raw + 1) = negb (is_enabled raw).
Proof.
  intros Hn Hr. apply eq_true_iff_eq. rewrite negb_true_iff, <- not_true_iff_false.
  rewrite !is_enabled_spec, Z.add_1_r, Z.odd_succ, <- Z.negb_odd.
  destruct (Z.odd raw); cbn; naive_solver.
Qed.

(** Every operator's last observation is a past value of the word. *)
Definition system_inv (s : System) : Prop :=
  is_u64 (gate s) ∧
  ∀ i enabled current, operators s !! i = Some (enabled, SetEnabled_Loop current) →
    0 ≤ current ≤ gate s.

Lemma set_enabled_step_facts enabled gate pc gate' pc' :
  is_u64 gate →
  (∀ current, pc = SetEnabled_Loop current → 0 ≤ current ≤ gate) →
  set_enabled_step enabled gate pc = (gate', pc') →
  is_u64 gate' ∧ gate ≤ gate' ∧
  (∀ current, pc' = SetEnabled_Loop current → 0 ≤ current ≤ gate').
Proof.
  unfold is_u64. intros Hg Hpc Hstep.
  destruct pc as [|current|res]; cbn in Hstep.
  - simplify_eq. split_and!; [lia..|]. intros; simplify_eq; lia.
  - specialize (Hpc current eq_refl).
    destruct (Bool.eqb _ _); [by simplify_eq|].
    destruct (checked_u64 _) as [next|] eqn:Hnext.
    + apply checked_in_Some in Hnext as [-> Hnext]. unfold DISABLED_TERMINAL in Hstep.
      destruct (Z.eqb_spec (current + 1) U64_MAX); [|destruct (Z.eqb_spec gate current)];
        simplify_eq; split_and!; try done; int_bounds; try lia; intros; simplify_eq; lia.
    + simplify_eq. unfold DISABLED_TERMINAL. split_and!; [int_bounds; lia..|done].
  - simplify_eq. split_and!; [lia..|done].
Qed.

Lemma system_init_inv : system_inv system_init.
Proof. split; [cbn; unfold SeatGate_new; int_bounds; lia|]. intros i ??. by destruct i. Qed.

Lemma system_step_inv s s' : system_step s s' → system_inv s → system_inv s' ∧ gate s ≤ gate s'.
Proof.
  intros Hstep [Hg Hops]. destruct Hstep as [s enabled | s i enabled pc gate' pc' Hi Hrun]; cbn.
  - split; [|lia]. split; [done|]. cbn. intros j e c.
    rewrite lookup_app_Some. intros [?|[? Hj]]; [eauto|].
    by apply list_lookup_singleton_Some in Hj as [_ [=]].
  - destruct (set_enabled_step_facts enabled (gate s) pc gate' pc' Hg) as (? & ? & Hpc');
      [intros c ->; eauto | done |].
    split; [|done]. split; [done|]. cbn. intros j e c Hj.
    apply list_lookup_insert_Some in Hj as [(-> & Hj & _) | (_ & Hj)]; [naive_solver|].
    apply Hops in Hj. lia.
Qed.

Lemma system_steps_inv s s' :
  rtc system_step s s' → system_inv s → system_inv s' ∧ gate s ≤ gate s'.
Proof.
  induction 1 as [|s1 s2 s3 H12 _ IH]; [done|]. intros [H2 ?]%(system_step_inv _ _ H12).
  destruct (IH H2). split; [done | lia].
Qed.

Lemma permit_accepts g p : SeatGate_permit g = Some p → p = g ∧ is_enabled p = true.
Proof. unfold SeatGate_permit. case_match; naive_solver. Qed.

(** C17: revocation is final.  Take any execution in which operators enter and leave
    [set_enabled] in any interleaving: a permit issued at [s0] that the gate refuses at a
    later state [s1] is refused at every state after [s1], however often the seat is
    enabled again; and the word stays an unsigned 64-bit integer throughout. *)
Theorem revoked_permit_never_accepted s0 s1 s2 permit :
  rtc system_step system_init s0 → SeatGate_permit (gate s0) = Some permit →
  rtc system_step s0 s1 → SeatGate_accepts (gate s1) permit = false →
  rtc system_step s1 s2 →
  SeatGate_accepts (gate s2) permit = false ∧ is_u64 (gate s2).
Proof.
  intros H0 [-> Hon]%permit_accepts H1 Hno H2.
  destruct (system_steps_inv _ _ H0 system_init_inv) as [I0 _].
  destruct (system_steps_inv _ _ H1 I0) as [I1 L1].
  destruct (system_steps_inv _ _ H2 I1) as [[? _] L2]. split; [|done].
  unfold SeatGate_accepts in *. rewrite Hon, andb_true_r in *.
  apply Z.eqb_neq in Hno. apply Z.eqb_neq. lia.
Qed.

(** ** One operator alone *)

(** What an unhindered transition promises. *)
Definition set_enabled_spec (enabled : bool) (gate : Z) : Z * result SeatStatus string :=
  if decide (is_enabled gate = enabled) then (gate, Ok (SeatGate_status gate))
  else if decide (gate + 1 < DISABLED_TERMINAL)
       then (gate + 1, Ok {| SeatStatus_enabled := enabled; SeatStatus_generation := (gate + 1) / 2 |})
       else (DISABLED_TERMINAL, Err exhausted).

Lemma set_enabled_exact enabled gate :
  is_u64 gate →
  set_enabled enabled gate =
    ((set_enabled_spec enabled gate).1, Some (set_enabled_spec enabled gate).2).
Proof.
  intros Hg. unfold set_enabled, set_enabled_spec. cbn [run_set_enabled set_enabled_step].
  cbn [SeatStatus_from_raw SeatStatus_enabled]. destruct (decide _) as [Heq|Hne].
  { by rewrite Heq, Bool.eqb_reflx. }
  destruct (Bool.eqb _ _) eqn:Heq; [by apply eqb_prop in Heq|].
  destruct (checked_u64 _) as [next|] eqn:Hnext.
  - apply checked_in_Some in Hnext as [-> Hb]. unfold DISABLED_TERMINAL.
    destruct (Z.eqb_spec (gate + 1) U64_MAX), (decide _); try (cbn; int_bounds; lia || done).
    rewrite Z.eqb_refl. cbn. unfold SeatStatus_from_raw. rewrite is_enabled_succ;
      unfold DISABLED_TERMINAL; [|lia..].
    repeat f_equal. by destruct (is_enabled gate), enabled.
  - apply checked_in_None in Hnext. assert (gate = U64_MAX) as -> by (int_bounds; lia).
    destruct enabled; [|by destruct Hne]. by destruct (decide _).
Qed.

Lemma set_enabled_spec_u64 enabled gate : is_u64 gate → is_u64 (set_enabled_spec enabled gate).1.
Proof.
  unfold set_enabled_spec, DISABLED_TERMINAL. intros. repeat case_decide; cbn; int_bounds; lia.
Qed.

(** An unhindered [set_enabled] always returns.  A request for the present state
    changes nothing and reports it; otherwise the word moves to its successor, whose
    status has the requested state and whose permits are exactly the new word; when the
    successor is not below [u64::MAX] the word becomes the terminal one, which is disabled
    for good, and the call fails.  The terminal word is reached only by failing to
    enable. *)
Theorem set_enabled_functional enabled gate :
  is_u64 gate →
  set_enabled enabled gate =
    ((set_enabled_spec enabled gate).1, Some (set_enabled_spec enabled gate).2) ∧
  (∀ status, (set_enabled_spec enabled gate).2 = Ok status →
     SeatStatus_enabled status = enabled ∧
     status = SeatGate_status (set_enabled_spec enabled gate).1 ∧
     SeatGate_permit (set_enabled_spec enabled gate).1 =
       if enabled then Some (set_enabled_spec enabled gate).1 else None) ∧
  ((set_enabled_spec enabled gate).2 = Err exhausted →
     enabled = true ∧ (set_enabled_spec enabled gate).1 = DISABLED_TERMINAL).
Proof.
  intros Hg. split; [by apply set_enabled_exact|].
  unfold set_enabled_spec. destruct (decide _) as [Heq|Hne]; [|destruct (decide _) as [Hlt|Hge]];
    cbn; split; intros; simplify_eq.
  - by unfold SeatGate_permit.
  - unfold SeatGate_permit, SeatGate_status, SeatStatus_from_raw.
    assert (is_enabled (gate + 1) = enabled) as ->;
      [|by destruct enabled].
    rewrite is_enabled_succ; [|unfold DISABLED_TERMINAL in *; lia..].
    by destruct (is_enabled gate), enabled.
  - split; [|done]. destruct enabled; [done|]. exfalso. apply Hne.
    apply not_true_iff_false. rewrite is_enabled_spec. unfold DISABLED_TERMINAL in *.
    assert (gate = U64_MAX ∨ gate = U64_MAX - 1) as [->| ->] by (int_bounds; lia); naive_solver.
Qed.

(** ** The control protocol *)

Lemma decode_encode_status status :
  is_u64 (SeatStatus_generation status) → decode_status (encode_status status) = Ok status.
Proof.
  intros Hg. destruct status as [enabled generation]. unfold decode_status, encode_status.
  cbn [SeatStatus_enabled SeatStatus_generation] in *.
  rewrite take_app_length. rewrite bool_decide_true by done. cbn [negb].
  replace (drop _ _) with (le_bytes 8 generation) by done.
  replace (nth _ _ _) with (if enabled then 1 else 0) by done.
  rewrite from_le_le_bytes by (int_bounds; lia). by destruct enabled.
Qed.

Lemma status_generation_u64 gate : is_u64 gate → is_u64 (SeatStatus_generation (SeatGate_status gate)).
Proof. cbn. int_bounds. intros. split; [by apply Z.div_pos; lia|]. apply Z.div_le_upper_bound; lia. Qed.

(** [read_exact] fills the request buffer or fails. *)
Definition accept_wf (accept : Accept) : Prop :=
  match accept with
  | Accept_Stream stream =>
      ∀ request, stream_request stream = Some request →
        length request = REQUEST_BYTES ∧ Forall is_u8 request
  | _ => True
  end.

#[export] Instance accept_wf_dec accept : Decision (accept_wf accept).
Proof.
  refine (match accept with
          | Accept_Stream stream =>
              match stream_request stream as r return Decision (∀ request, r = Some request → _) with
              | Some request =>
                  cast_if (decide (length request = REQUEST_BYTES ∧ Forall is_u8 request))
              | None => left _
              end
          | _ => left _
          end); naive_solver.
Defined.

(** The abstract effect of an authenticated command on the word, and its result. *)
Definition command_spec (command : ControlCommand) (gate : Z) : Z * result SeatStatus string :=
  match command with
  | ControlCommand_Status => (gate, Ok (SeatGate_status gate))
  | ControlCommand_Enable => set_enabled_spec true gate
  | ControlCommand_Disable => set_enabled_spec false gate
  end.

Lemma command_spec_status command gate status :
  is_u64 gate → (command_spec command gate).2 = Ok status →
  status = SeatGate_status (command_spec command gate).1 ∧
  is_u64 (SeatStatus_generation status).
Proof.
  intros Hg Hs. assert (status = SeatGate_status (command_spec command gate).1) as ->.
  { destruct command; cbn in *; [by simplify_eq|..]; revert Hs; unfold set_enabled_spec;
      (destruct (decide _) as [|Hne]; [naive_solver|]); (destruct (decide _) as [Hlt|]; [|done]);
      intros; cbn in *; simplify_eq; unfold SeatGate_status, SeatStatus_from_raw;
      rewrite is_enabled_succ by (unfold DISABLED_TERMINAL in *; lia);
      by destruct (is_enabled gate). }
  split; [done|]. apply status_generation_u64.
  destruct command; [done|apply (set_enabled_spec_u64 true)|apply (set_enabled_spec_u64 false)]; done.
Qed.

Definition stream_of (accept : Accept) : option ControlStream :=
  match accept with Accept_Stream stream => Some stream | _ => None end.

(** An authenticated request, as the listener sees it. *)
Definition requests (euid : Z) (accept : Accept) (command : ControlCommand) : Prop :=
  ∃ stream, stream_of accept = Some stream ∧ stream_peer stream = Ok euid ∧
    stream_timeouts stream = Ok tt ∧ stream_request stream = Some (encode_request command).

Lemma decode_request (request : bytes) :
  length request = REQUEST_BYTES → take (length CONTROL_MAGIC) request = CONTROL_MAGIC →
  ∃ code, request = CONTROL_MAGIC ++ [code].
Proof.
  intros Hlen Htake. rewrite <- (take_drop (length CONTROL_MAGIC) request), Htake.
  assert (length (drop (length CONTROL_MAGIC) request) = 1%nat) as Hd
    by (rewrite length_drop, Hlen; done).
  destruct (drop _ _) as [|code [|]]; [done| |done]. by exists code.
Qed.

Lemma handle_pending_command euid stream command gate :
  is_u64 gate → requests euid (Accept_Stream stream) command →
  handle_pending euid (Accept_Stream stream) gate =
    match command_spec command gate with
    | (gate', Ok status) =>
        (gate', Some (encode_status status),
         map_err (λ e, "cannot acknowledge seat-control request: " +:+ e)%string
           (stream_write stream))
    | (gate', Err error) => (gate', None, Err error)
    end.
Proof.
  intros Hg (s & [= <-] & Hp & Ht & Hr). cbn [handle_pending]. rewrite Hp, Z.eqb_refl.
  cbn [negb]. rewrite Ht, Hr. rewrite bool_decide_true by done. cbn [negb].
  destruct command; cbn -[set_enabled]; rewrite ?set_enabled_exact by done; cbn [command_spec].
  2,3: destruct (set_enabled_spec _ _) as [? [?|?]]; cbn.
  all: try done; by destruct (stream_write stream) as [[]|].
Qed.

Lemma handle_pending_other euid accept gate :
  accept_wf accept → (∀ command, ¬ requests euid accept command) →
  (handle_pending euid accept gate).1 = (gate, None).
Proof.
  intros Hwf Hno. destruct accept as [|error|stream]; cbn; [done..|].
  destruct (stream_peer stream) as [uid|] eqn:Hp; [|done].
  destruct (Z.eqb_spec uid euid) as [->|]; [|done]. cbn [negb].
  destruct (stream_timeouts stream) as [[]|] eqn:Ht; [|done].
  destruct (stream_request stream) as [request|] eqn:Hr; [|done].
  destruct (bool_decide _) eqn:Hm; [|done]. bool_props. cbn [negb].
  destruct (Hwf _ Hr) as [Hlen _]. destruct (decode_request _ Hlen Hm) as [code ->].
  change (nth _ _ _) with code.
  assert (∀ command, code ≠ ControlCommand_code command) as Hc.
  { intros command ->. apply (Hno command). by exists stream. }
  pose proof (Hc ControlCommand_Status). pose proof (Hc ControlCommand_Enable).
  pose proof (Hc ControlCommand_Disable). cbn in *.
  by rewrite !(proj2 (Z.eqb_neq _ _)) by done.
Qed.

(** C23: the private control plane.  Only a complete, well-formed request of a peer with the
    provider's own user id moves the gate or gets an answer; every other connection (a
    foreign user, a failed read or timeout setup, a wrong magic, an unknown command) leaves
    the word as it was and is not acknowledged.  An authenticated request performs exactly
    its transition; a transition that succeeds is acknowledged with a response from which
    the client decodes the gate's status after the transition, and one that fails is not
    acknowledged. *)
Theorem seat_control_exact euid accept gate :
  is_u64 gate → accept_wf accept →
  let '(gate', ack, res) := handle_pending euid accept gate in
  is_u64 gate' ∧
  ((∀ command, ¬ requests euid accept command) → gate' = gate ∧ ack = None) ∧
  (∀ command, requests euid accept command →
     gate' = (command_spec command gate).1 ∧
     match (command_spec command gate).2 with
     | Ok status => ∃ response, ack = Some response ∧ request_outcome (Ok response) = Ok status
                   ∧ status = SeatGate_status gate'
     | Err error => ack = None ∧ res = Err error
     end).
Proof.
  intros Hg Hwf. destruct (handle_pending euid accept gate) as [[gate' ack] res] eqn:Hrun.
  assert (∀ command, requests euid accept command →
     gate' = (command_spec command gate).1 ∧
     match (command_spec command gate).2 with
     | Ok status => ∃ response, ack = Some response ∧ request_outcome (Ok response) = Ok status
                   ∧ status = SeatGate_status gate'
     | Err error => ack = None ∧ res = Err error
     end) as Hcmd.
  { intros command Hreq. destruct accept as [| |stream]; try by destruct Hreq as (? & [=] & _).
    rewrite (handle_pending_command _ _ command) in Hrun by done.
    pose proof (command_spec_status command gate) as Hs.
    destruct (command_spec command gate) as [g [status|]]; simplify_eq; [|done].
    cbn [fst snd] in *.
    destruct (Hs _ Hg eq_refl) as [-> ?]. split; [done|]. eexists. split_and!; [done| |done].
    by apply decode_encode_status. }
  assert ((∀ command, ¬ requests euid accept command) → gate' = gate ∧ ack = None) as Hoth.
  { intros Hno. pose proof (handle_pending_other _ _ gate Hwf Hno) as H. rewrite Hrun in H.
    naive_solver. }
  split_and!; [|done..].
  destruct (decide (gate' = gate)) as [->|Hne]; [done|].
  destruct (decide (is_u64 gate')) as [|Hbad]; [done|].
  destruct Hne. apply Hoth. intros command Hreq. destruct Hbad.
  destruct (Hcmd _ Hreq) as [-> _].
  destruct command; [done|apply (set_enabled_spec_u64 true)|apply (set_enabled_spec_u64 false)]; done.
Qed.

(** ** Witnesses *)

Lemma revoked_permit_never_accepted_witness :
  let enabled := {| gate := 1; operators := [(true, SetEnabled_Done (Ok (SeatStatus_from_raw 1)))] |} in
  SeatGate_permit (gate enabled) = Some 1 ∧
  ∃ s1 s2, SeatGate_accepts (gate s1) 1 = false ∧ is_enabled (gate s2) = true ∧
    SeatGate_accepts (gate s2) 1 = false ∧ is_u64 (gate s2).
Proof.
  intros enabled. split; [reflexivity|].
  assert (rtc system_step system_init enabled) as H0.
  { eapply rtc_l; [apply (system_spawn _ true)|].
    eapply rtc_l; [eapply (system_operator _ 0); reflexivity|].
    eapply rtc_l; [eapply (system_operator _ 0); reflexivity|]. apply rtc_refl. }
  pose (s1 := {| gate := 2; operators := [(true, SetEnabled_Done (Ok (SeatStatus_from_raw 1)));
     (false, SetEnabled_Done (Ok (SeatStatus_from_raw 2)))] |}).
  assert (rtc system_step enabled s1) as H1.
  { eapply rtc_l; [apply (system_spawn _ false)|].
    eapply rtc_l; [eapply (system_operator _ 1); reflexivity|].
    eapply rtc_l; [eapply (system_operator _ 1); reflexivity|]. apply rtc_refl. }
  pose (s2 := {| gate := 3; operators := operators s1 ++
     [(true, SetEnabled_Done (Ok (SeatStatus_from_raw 3)))] |}).
  assert (rtc system_step s1 s2) as H2.
  { eapply rtc_l; [apply (system_spawn _ true)|].
    eapply rtc_l; [eapply (system_operator _ 2); reflexivity|].
    eapply rtc_l; [eapply (system_operator _ 2); reflexivity|]. apply rtc_refl. }
  exists s1, s2. split; [reflexivity|]. split; [reflexivity|].
  exact (revoked_permit_never_accepted enabled s1 s2 1 H0 eq_refl H1 eq_refl H2).
Defined.

Lemma set_enabled_functional_witness :
  is_u64 (U64_MAX - 1) ∧
  set_enabled true (U64_MAX - 1) = (DISABLED_TERMINAL, Some (Err exhausted)).
Proof.
  assert (is_u64 (U64_MAX - 1)) as H by (int_bounds; lia). split; [exact H|].
  exact (proj1 (set_enabled_functional true (U64_MAX - 1) H)).
Defined.

Lemma seat_control_exact_witness :
  let stream := {| stream_peer := Ok 1000; stream_timeouts := Ok tt;
                   stream_request := Some (encode_request ControlCommand_Enable);
                   stream_write := Ok tt |} in
  let '(gate', ack, res) := handle_pending 1000 (Accept_Stream stream) 0 in
  gate' = 1 ∧ ∃ response, ack = Some response
    ∧ request_outcome (Ok response) = Ok {| SeatStatus_enabled := true; SeatStatus_generation := 0 |}.
Proof.
  intros stream.
  assert (is_u64 0) as H by (int_bounds; lia).
  assert (accept_wf (Accept_Stream stream)) as Hwf by
    (intros request [= <-]; split; [reflexivity|]; by apply (bool_decide_unpack (Forall is_u8 _))).
  destruct (seat_control_exact 1000 (Accept_Stream stream) 0 H Hwf) as (_ & _ & Hcmd).
  destruct (Hcmd ControlCommand_Enable) as [_ (response & Hack & Hout & _)]; [by exists stream|].
  split; [reflexivity|]. exists response. split; [exact Hack | exact Hout].
Defined.
