(* ===== verification/BrokerProtocol.v ===== *)
(** * [agent-seat-activity-broker/src/lib.rs]: the activity broker's fixed-size frames

    The broker answers one eight-byte request with one 24-byte status; an inherited
    channel carries eight-byte eligibility assertions.  Every field is big-endian. *)

From S2P Require Import Prelude Codec.

Definition MAGIC : bytes := bstr "ASAB".
Definition REVISION : Z := 1.
Definition OP_STATUS : Z := 1.
Definition REQUEST_BYTES : nat := 8.
Definition RESPONSE_BYTES : nat := 24.
Definition ELIGIBILITY_MAGIC : bytes := bstr "ASEL".
Definition ELIGIBILITY_REVISION : Z := 1.
Definition ELIGIBILITY_FRAME_BYTES : nat := 8.
Definition MAX_EVENT_DESCRIPTORS : nat := 32.

Inductive ProtocolError :=
| ProtocolError_Unavailable
| ProtocolError_Incompatible
| ProtocolError_Malformed.

Inductive EligibilityState := EligibilityState_Eligible | EligibilityState_Ineligible.

Definition EligibilityState_encode (self : EligibilityState) : Z :=
  match self with
  | EligibilityState_Eligible => 1
  | EligibilityState_Ineligible => 2
  end.

Definition EligibilityState_decode (value : Z) : result EligibilityState ProtocolError :=
  if value =? 1 then Ok EligibilityState_Eligible
  else if value =? 2 then Ok EligibilityState_Ineligible
  else Err ProtocolError_Malformed.

Inductive BrokerState :=
| BrokerState_Arming
| BrokerState_Ready
| BrokerState_Stopped
| BrokerState_Unavailable.

#[export] Instance BrokerState_eq_dec : EqDecision BrokerState.
Proof. solve_decision. Defined.

Definition BrokerState_encode (self : BrokerState) : Z :=
  match self with
  | BrokerState_Arming => 4
  | BrokerState_Ready => 1
  | BrokerState_Stopped => 2
  | BrokerState_Unavailable => 3
  end.

Definition BrokerState_decode (value : Z) : result BrokerState ProtocolError :=
  if value =? 4 then Ok BrokerState_Arming
  else if value =? 1 then Ok BrokerState_Ready
  else if value =? 2 then Ok BrokerState_Stopped
  else if value =? 3 then Ok BrokerState_Unavailable
  else Err ProtocolError_Malformed.

Inductive StopReason :=
| StopReason_None
| StopReason_Activity
| StopReason_EventLoss
| StopReason_EvidenceLost
| StopReason_Internal
| StopReason_EligibilityChanged.

#[export] Instance StopReason_eq_dec : EqDecision StopReason.
Proof. solve_decision. Defined.

Definition StopReason_encode (self : StopReason) : Z :=
  match self with
  | StopReason_None => 0
  | StopReason_Activity => 1
  | StopReason_EventLoss => 2
  | StopReason_EvidenceLost => 3
  | StopReason_Internal => 4
  | StopReason_EligibilityChanged => 5
  end.

Definition StopReason_decode (value : Z) : result StopReason ProtocolError :=
  if value =? 0 then Ok StopReason_None
  else if value =? 1 then Ok StopReason_Activity
  else if value =? 2 then Ok StopReason_EventLoss
  else if value =? 3 then Ok StopReason_EvidenceLost
  else if value =? 4 then Ok StopReason_Internal
  else if value =? 5 then Ok StopReason_EligibilityChanged
  else Err ProtocolError_Malformed.

Record BrokerStatus := {
  BrokerStatus_instance : Z;
  BrokerStatus_epoch : Z;
  BrokerStatus_state : BrokerState;
  BrokerStatus_reason : StopReason
}.

Definition is_same_ready (self later : BrokerStatus) : bool :=
  bool_decide (BrokerStatus_state self = BrokerState_Ready)
  && bool_decide (BrokerStatus_state later = BrokerState_Ready)
  && (BrokerStatus_instance self =? BrokerStatus_instance later)
  && (BrokerStatus_epoch self =? BrokerStatus_epoch later).

Definition BrokerStatus_encode (self : BrokerStatus) : bytes :=
  MAGIC ++ be_bytes 2 REVISION
    ++ [BrokerState_encode (BrokerStatus_state self);
        StopReason_encode (BrokerStatus_reason self)]
    ++ be_bytes 8 (BrokerStatus_instance self) ++ be_bytes 8 (BrokerStatus_epoch self).

(** [&bytes[from..to]]. *)
Definition slice (from to : nat) (l : bytes) : bytes := take (to - from) (drop from l).

Definition valid_state (state : BrokerState) (reason : StopReason) : bool :=
  match state, reason with
  | (BrokerState_Arming | BrokerState_Ready), StopReason_None
  | BrokerState_Stopped, (StopReason_Activity | StopReason_EligibilityChanged)
  | BrokerState_Unavailable, (StopReason_EventLoss | StopReason_EvidenceLost | StopReason_Internal)
      => true
  | _, _ => false
  end.

Definition BrokerStatus_decode (b : bytes) : result BrokerStatus ProtocolError :=
  if bool_decide (slice 0 4 b ≠ MAGIC) || negb (from_be (slice 4 6 b) =? REVISION)
  then Err ProtocolError_Incompatible
  else
    let? state := BrokerState_decode (nth 6 b 0) in
    let? reason := StopReason_decode (nth 7 b 0) in
    ensure (valid_state state reason) ProtocolError_Malformed ;?
    let instance := from_be (slice 8 16 b) in
    let epoch := from_be (slice 16 24 b) in
    if (instance =? 0) || (epoch =? 0) then Err ProtocolError_Malformed
    else Ok {| BrokerStatus_instance := instance; BrokerStatus_epoch := epoch;
               BrokerStatus_state := state; BrokerStatus_reason := reason |}.

(** ** Frames on a stream *)

Section frames.
Context {W : Type} (write_all : W → bytes → result unit ErrorKind * W).

Definition write_fixed (frame : bytes) (stream : W) : result unit ProtocolError * W :=
  let '(res, stream) := write_all stream frame in
  (map_err (λ _, ProtocolError_Unavailable) res, stream).

Definition status_request : bytes := MAGIC ++ be_bytes 2 REVISION ++ [OP_STATUS; 0].

Definition write_status_request : W → result unit ProtocolError * W :=
  write_fixed status_request.

Definition eligibility_frame (state : EligibilityState) : bytes :=
  ELIGIBILITY_MAGIC ++ be_bytes 2 ELIGIBILITY_REVISION ++ [EligibilityState_encode state; 0].

Definition write_eligibility (stream : W) (state : EligibilityState)
  : result unit ProtocolError * W :=
  write_fixed (eligibility_frame state) stream.
End frames.

Definition read_fixed (fuel n : nat) (stream : Reader)
  : option (result bytes ProtocolError * Reader) :=
  match read_exact fuel stream [] n with
  | None => None
  | Some (res, stream) => Some (map_err (λ _, ProtocolError_Unavailable) res, stream)
  end.

Definition check_status_request (b : bytes) : result unit ProtocolError :=
  if bool_decide (slice 0 4 b ≠ MAGIC) || negb (from_be (slice 4 6 b) =? REVISION)
  then Err ProtocolError_Incompatible
  else if negb (nth 6 b 0 =? OP_STATUS) || negb (nth 7 b 0 =? 0)
  then Err ProtocolError_Malformed
  else Ok tt.

Definition decode_eligibility (frame : bytes) : result EligibilityState ProtocolError :=
  if bool_decide (slice 0 4 frame ≠ ELIGIBILITY_MAGIC)
     || negb (from_be (slice 4 6 frame) =? ELIGIBILITY_REVISION)
     || negb (nth 7 frame 0 =? 0)
  then Err ProtocolError_Incompatible
  else EligibilityState_decode (nth 6 frame 0).

(** Reading one frame and interpreting it; [None] is running out of fuel. *)
Definition read_with {A} (decode : bytes → result A ProtocolError) (n fuel : nat)
    (stream : Reader) : option (result A ProtocolError * Reader) :=
  match read_fixed fuel n stream with
  | None => None
  | Some (res, stream) => Some (let? b := res in decode b, stream)
  end.

Definition read_status_request : nat → Reader → option (result unit ProtocolError * Reader) :=
  read_with check_status_request REQUEST_BYTES.

Definition read_status_response
  : nat → Reader → option (result BrokerStatus ProtocolError * Reader) :=
  read_with BrokerStatus_decode RESPONSE_BYTES.

Definition read_eligibility
  : nat → Reader → option (result EligibilityState ProtocolError * Reader) :=
  read_with decode_eligibility ELIGIBILITY_FRAME_BYTES.

(** ** The broker's own status values *)

Definition BrokerStatus_wf (s : BrokerStatus) : Prop :=
  valid_state (BrokerStatus_state s) (BrokerStatus_reason s) = true ∧
  1 ≤ BrokerStatus_instance s ≤ U64_MAX ∧ 1 ≤ BrokerStatus_epoch s ≤ U64_MAX.

(** ** Field codes *)

Lemma BrokerState_decode_iff value state :
  BrokerState_decode value = Ok state ↔ value = BrokerState_encode state.
Proof.
  unfold BrokerState_decode. split; [|by intros ->; destruct state].
  repeat (case_match; [bool_props; by intros [= <-]|]). done.
Qed.

Lemma StopReason_decode_iff value reason :
  StopReason_decode value = Ok reason ↔ value = StopReason_encode reason.
Proof.
  unfold StopReason_decode. split; [|by intros ->; destruct reason].
  repeat (case_match; [bool_props; by intros [= <-]|]). done.
Qed.

Lemma EligibilityState_decode_iff value state :
  EligibilityState_decode value = Ok state ↔ value = EligibilityState_encode state.
Proof.
  unfold EligibilityState_decode. split; [|by intros ->; destruct state].
  repeat (case_match; [bool_props; by intros [= <-]|]). done.
Qed.

(** ** Slices of a fixed buffer *)

Lemma slice_u8 from to b : Forall is_u8 b → Forall is_u8 (slice from to b).
Proof. intros. by apply Forall_take, Forall_drop. Qed.

Lemma slice_length from to (b : bytes) :
  (from ≤ to ≤ length b)%nat → length (slice from to b) = (to - from)%nat.
Proof. intros. unfold slice. rewrite length_take, length_drop. lia. Qed.

Lemma slice_be from to b x n :
  Forall is_u8 b → (from ≤ to ≤ length b)%nat → n = (to - from)%nat →
  from_be (slice from to b) = x → slice from to b = be_bytes n x.
Proof.
  intros Hb Hle -> <-. rewrite <- (slice_length from to b) by done.
  by rewrite be_bytes_from_be by (by apply slice_u8).
Qed.

Lemma slice_app (from mid to : nat) (b : bytes) :
  (from ≤ mid ≤ to)%nat → slice from to b = slice from mid b ++ slice mid to b.
Proof.
  intros. unfold slice. replace (to - from)%nat with ((mid - from) + (to - mid))%nat by lia.
  rewrite <- (take_take_drop _ (mid - from)), drop_drop. repeat f_equal; lia.
Qed.

Lemma slice_one i (b : bytes) : (i < length b)%nat → slice i (S i) b = [nth i b 0].
Proof.
  intros Hi. unfold slice. replace (S i - i)%nat with 1%nat by lia.
  destruct (lookup_lt_is_Some_2 b i Hi) as [x Hx].
  rewrite (drop_S _ _ _ Hx). cbn. by rewrite (nth_lookup_Some _ _ _ _ Hx).
Qed.

Lemma slice_all (b : bytes) : b = slice 0 (length b) b.
Proof. unfold slice. by rewrite Nat.sub_0_r, drop_0, firstn_all. Qed.

Lemma nth_u8 i b : Forall is_u8 b → is_u8 (nth i b 0).
Proof.
  intros Hb. destruct (nth_in_or_default i b 0) as [H| ->]; [|int_bounds; lia].
  rewrite Forall_forall in Hb. apply Hb. by apply list_elem_of_In.
Qed.

(** ** Exactness of the three codecs *)

Lemma status_buffer (b : bytes) :
  length b = RESPONSE_BYTES →
  b = slice 0 4 b ++ slice 4 6 b ++ [nth 6 b 0; nth 7 b 0] ++ slice 8 16 b ++ slice 16 24 b.
Proof.
  unfold RESPONSE_BYTES. intros Hlen. rewrite (slice_all b) at 1. rewrite Hlen.
  rewrite (slice_app 0 4 24), (slice_app 4 6 24), (slice_app 6 7 24), (slice_app 7 8 24),
    (slice_app 8 16 24), !slice_one by lia. done.
Qed.

Lemma BrokerStatus_encode_length s : length (BrokerStatus_encode s) = RESPONSE_BYTES.
Proof. unfold BrokerStatus_encode. rewrite !length_app, !be_bytes_length. done. Qed.

Lemma BrokerStatus_encode_u8 s : Forall is_u8 (BrokerStatus_encode s).
Proof.
  unfold BrokerStatus_encode. rewrite !Forall_app.
  split_and!; try apply be_bytes_u8; [by apply (bool_decide_unpack (Forall is_u8 _))|].
  destruct s as [i e [] []]; by apply (bool_decide_unpack (Forall is_u8 _)).
Qed.

Lemma BrokerStatus_decode_encode s : BrokerStatus_wf s → BrokerStatus_decode (BrokerStatus_encode s) = Ok s.
Proof.
  intros (Hstate & Hi & He). destruct s as [i e state reason]; cbn in *.
  unfold BrokerStatus_decode, BrokerStatus_encode. cbn [BrokerStatus_instance BrokerStatus_epoch
    BrokerStatus_state BrokerStatus_reason].
  replace (slice 8 16 _) with (be_bytes 8 i); [replace (slice 16 24 _) with (be_bytes 8 e)|].
  - rewrite !from_be_be_bytes by (int_bounds; lia).
    rewrite (proj2 (Z.eqb_neq i 0)), (proj2 (Z.eqb_neq e 0)) by lia.
    change (nth 6 _ _) with (BrokerState_encode state).
    change (nth 7 _ _) with (StopReason_encode reason).
    rewrite (proj2 (BrokerState_decode_iff _ state) eq_refl),
      (proj2 (StopReason_decode_iff _ reason) eq_refl).
    cbn -[slice]. rewrite Hstate. done.
  - reflexivity.
  - reflexivity.
Qed.

Lemma BrokerStatus_decode_inv b s :
  length b = RESPONSE_BYTES → Forall is_u8 b → BrokerStatus_decode b = Ok s →
  BrokerStatus_wf s ∧ b = BrokerStatus_encode s.
Proof.
  unfold BrokerStatus_decode. intros Hlen Hb Hdec.
  split_result Hdec. apply dec_stable in H.
  match goal with Hs : BrokerState_decode _ = _, Hr : StopReason_decode _ = _ |- _ =>
    apply BrokerState_decode_iff in Hs; apply StopReason_decode_iff in Hr end.
  pose proof (from_be_bound _ (slice_u8 8 16 b Hb)) as Hi.
  pose proof (from_be_bound _ (slice_u8 16 24 b Hb)) as He.
  rewrite slice_length in Hi, He by (rewrite Hlen; unfold RESPONSE_BYTES; lia).
  change (256 ^ Z.of_nat (16 - 8)) with (U64_MAX + 1) in Hi.
  change (256 ^ Z.of_nat (24 - 16)) with (U64_MAX + 1) in He.
  split; [split_and!; cbn [BrokerStatus_instance BrokerStatus_epoch]; [done|lia..]|].
  etrans; [exact (status_buffer b Hlen)|]. unfold BrokerStatus_encode.
  cbn [BrokerStatus_instance BrokerStatus_epoch BrokerStatus_state BrokerStatus_reason].
  assert (∀ from to x, (from ≤ to ≤ 24)%nat → from_be (slice from to b) = x →
            slice from to b = be_bytes (to - from) x) as Hbe.
  { intros. apply slice_be; [done|rewrite Hlen; unfold RESPONSE_BYTES; lia|done..]. }
  apply (f_equal2 app); [done|]. apply (f_equal2 app); [by apply (Hbe 4 6)%nat; [lia|]|].
  apply (f_equal2 app); [congruence|].
  apply (f_equal2 app); [apply (Hbe 8 16)%nat|apply (Hbe 16 24)%nat]; (lia || done).
Qed.

(** A 24-byte response decodes to a status exactly when it is the encoding of that
    status and the status is possible: its reason fits its state (no reason while arming or
    ready, activity or eligibility when stopped, lost evidence when unavailable) and its
    instance and epoch are nonzero 64-bit integers. *)
Theorem broker_status_codec_exact b s :
  length b = RESPONSE_BYTES → Forall is_u8 b →
  BrokerStatus_decode b = Ok s ↔ BrokerStatus_wf s ∧ b = BrokerStatus_encode s.
Proof.
  intros Hlen Hb. split; [by apply BrokerStatus_decode_inv|].
  intros [Hs ->]. by apply BrokerStatus_decode_encode.
Qed.

Lemma small_buffer (b : bytes) :
  length b = 8%nat → b = slice 0 4 b ++ slice 4 6 b ++ [nth 6 b 0; nth 7 b 0].
Proof.
  intros Hlen. rewrite (slice_all b) at 1. rewrite Hlen.
  rewrite (slice_app 0 4 8), (slice_app 4 6 8), (slice_app 6 7 8), !slice_one by lia. done.
Qed.

Lemma check_status_request_iff b :
  length b = REQUEST_BYTES → Forall is_u8 b →
  check_status_request b = Ok tt ↔ b = status_request.
Proof.
  intros Hlen Hb. split; [|by intros ->]. unfold check_status_request. intros Hc.
  split_result Hc. apply dec_stable in H.
  rewrite (small_buffer b Hlen), (slice_be 4 6 b REVISION 2)
    by (done || (rewrite Hlen; unfold REQUEST_BYTES; lia)).
  unfold status_request. congruence.
Qed.

Lemma decode_eligibility_iff b state :
  length b = ELIGIBILITY_FRAME_BYTES → Forall is_u8 b →
  decode_eligibility b = Ok state ↔ b = eligibility_frame state.
Proof.
  intros Hlen Hb. split; [|by intros ->; destruct state]. unfold decode_eligibility. intros Hc.
  split_result Hc. apply dec_stable in H.
  match goal with Hs : EligibilityState_decode _ = _ |- _ =>
    apply EligibilityState_decode_iff in Hs end.
  rewrite (small_buffer b Hlen), (slice_be 4 6 b ELIGIBILITY_REVISION 2)
    by (done || (rewrite Hlen; unfold ELIGIBILITY_FRAME_BYTES; lia)).
  unfold eligibility_frame. congruence.
Qed.

(** Reading a fixed frame from a stream that delivers its content. *)
Lemma read_with_content {A} (decode : bytes → result A ProtocolError) n r :
  delivers r →
  ∃ r', delivers r' ∧
    read_with decode n (fuel_for r) r =
      Some (if bool_decide (n ≤ length (content r))%nat then decode (take n (content r))
            else Err ProtocolError_Unavailable, r') ∧
    content r' = drop n (content r).
Proof.
  intros Hr. destruct (read_exact_content (fuel_for r) r [] n Hr) as (r' & Hr' & _ & Hres).
  { cbn. lia. }
  { unfold full, fuel_for. case_bool_decide; lia. }
  cbn [length] in Hres. rewrite Nat.sub_0_r in Hres.
  exists r'. split; [done|]. unfold read_with, read_fixed. case_bool_decide.
  - destruct Hres as [-> ->]. done.
  - destruct Hres as [-> ->]. split; [done|]. by rewrite drop_ge by lia.
Qed.

(** The three frames a peer can be sent, with the reader of each. *)
Inductive frame_of : ∀ A : Type, bytes → A → (nat → Reader → option (result A ProtocolError * Reader)) → Prop :=
| frame_of_request : frame_of unit status_request tt read_status_request
| frame_of_status s :
    BrokerStatus_wf s → frame_of BrokerStatus (BrokerStatus_encode s) s read_status_response
| frame_of_eligibility state :
    frame_of EligibilityState (eligibility_frame state) state read_eligibility.

(** Every frame the broker protocol sends (the status request, a possible status, an
    eligibility assertion) is read back by its reader from any stream that delivers it,
    however the bytes are fragmented and the reads interrupted, and the reader consumes
    exactly the frame; a proper prefix of the frame yields [Unavailable], never a value. *)
Theorem broker_frames_round_trip A frame (value : A) reader r :
  frame_of A frame value reader → delivers r →
  (∀ rest, content r = frame ++ rest →
     ∃ r', reader (fuel_for r) r = Some (Ok value, r') ∧ delivers r' ∧ content r' = rest) ∧
  (∀ missing, missing ≠ [] → content r ++ missing = frame →
     ∃ r', reader (fuel_for r) r = Some (Err ProtocolError_Unavailable, r')).
Proof.
  intros Hframe Hr.
  assert (∃ decode n, reader = read_with decode n ∧ length frame = n ∧ decode frame = Ok value)
    as (decode & n & -> & Hn & Hdec).
  { destruct Hframe as [|s Hs|state].
    - by exists check_status_request, REQUEST_BYTES.
    - exists BrokerStatus_decode, RESPONSE_BYTES. split_and!; [done|apply BrokerStatus_encode_length|].
      by apply BrokerStatus_decode_encode.
    - exists decode_eligibility, ELIGIBILITY_FRAME_BYTES. by destruct state. }
  destruct (read_with_content decode n r Hr) as (r' & Hr' & Hread & Hrest). split.
  - intros rest Hc. exists r'. rewrite Hread, Hrest, Hc.
    rewrite bool_decide_true by (rewrite length_app; lia).
    rewrite <- Hn, take_app_length, drop_app_length, Hdec. done.
  - intros missing Hm Hc. exists r'. rewrite Hread. rewrite bool_decide_false; [done|].
    apply (f_equal length) in Hc. rewrite length_app in Hc. destruct missing; [done|].
    cbn in Hc. lia.
Qed.

Lemma is_same_ready_iff s t :
  is_same_ready s t = true ↔
  BrokerStatus_state s = BrokerState_Ready ∧ BrokerStatus_state t = BrokerState_Ready ∧
  BrokerStatus_instance s = BrokerStatus_instance t ∧ BrokerStatus_epoch s = BrokerStatus_epoch t.
Proof.
  unfold is_same_ready. rewrite !andb_true_iff, !bool_decide_eq_true, !Z.eqb_eq. naive_solver.
Qed.

(** ** Witnesses *)

Definition ready_status : BrokerStatus :=
  {| BrokerStatus_instance := 7; BrokerStatus_epoch := 1;
     BrokerStatus_state := BrokerState_Ready; BrokerStatus_reason := StopReason_None |}.

Lemma ready_status_wf : BrokerStatus_wf ready_status.
Proof. split; [done|]. cbn. int_bounds. lia. Qed.

Lemma broker_status_codec_exact_witness :
  BrokerStatus_decode (BrokerStatus_encode ready_status) = Ok ready_status.
Proof.
  apply (broker_status_codec_exact (BrokerStatus_encode ready_status) ready_status
           (BrokerStatus_encode_length _) (BrokerStatus_encode_u8 _)).
  exact (conj ready_status_wf eq_refl).
Defined.

Lemma broker_frames_round_trip_witness :
  let r := [Data (take 5 (BrokerStatus_encode ready_status)); Interrupted;
            Data (drop 5 (BrokerStatus_encode ready_status))] in
  ∃ r', read_status_response (fuel_for r) r = Some (Ok ready_status, r') ∧
        delivers r' ∧ content r' = [].
Proof.
  intros r. assert (delivers r) as Hr by (repeat constructor; done).
  refine (proj1 (broker_frames_round_trip _ (BrokerStatus_encode ready_status) _ _ r
                   (frame_of_status _ ready_status_wf) Hr) [] _).
  reflexivity.
Defined.
