(* ===== verification/InputSet.v ===== *)
(** * [agent-seat-activity-broker/src/initial_input_set.rs]: the input-class manifest

    A manifest lists every [/sys/class/input/event*] entry of the machine as one line
    [eventN TAB path], in increasing order of [N], below a revision line. *)

From Stdlib Require Import Sorted.
From S2P Require Import Prelude Text.

Definition HEADER : bytes := bstr "ASIS" ++ [9] ++ bstr "1" ++ [10].
Definition MAX_INPUT_CLASS_MAPPINGS : Z := 256.
Definition MAX_INPUT_SET_BYTES : Z := 64 * 1024.

(** A path is its bytes; [to_str] succeeds when they are UTF-8. *)
Record InputClassMapping := { event_number : Z; sysfs_path : bytes }.

#[export] Instance InputClassMapping_eq_dec : EqDecision InputClassMapping.
Proof. solve_decision. Defined.

(** Entries by their numbers. *)
Definition number_le (a b : Z * str) : Prop := fst a ≤ fst b.
#[export] Instance number_le_dec : RelDecision number_le := λ a b, decide (fst a ≤ fst b).

Inductive InputSetError := InputSetError_Malformed | InputSetError_BoundExceeded.

Definition InputSetError_to_string (self : InputSetError) : string :=
  match self with
  | InputSetError_Malformed => "initial input set is malformed"
  | InputSetError_BoundExceeded => "initial input set exceeds its bound"
  end.

(** [PartialEq], of the mappings and of lists of them: paths are compared by their
    components. *)
Definition InputClassMapping_eq (a b : InputClassMapping) : bool :=
  (event_number a =? event_number b) && bool_decide (components (sysfs_path a) = components (sysfs_path b)).
Fixpoint mappings_eq (l r : list InputClassMapping) : bool :=
  match l, r with
  | [], [] => true
  | a :: l, b :: r => InputClassMapping_eq a b && mappings_eq l r
  | _, _ => false
  end.

(** [format!("event{n}")]: shared with the device set. *)
Definition event_name (n : Z) : str := bstr "event" ++ to_dec n.

Definition valid_sysfs_path (n : Z) (path : bytes) : bool :=
  if negb (utf8_valid path) then false
  else if contains 0 path || (contains 10 path || contains 13 path || contains 9 path)
          || negb (path_starts_with path (bstr "/sys/devices"))
          || bool_decide (file_name path ≠ Some (event_name n))
  then false
  else forallb is_root_or_normal (components path).

Definition InputClassMapping_new (n : Z) (path : bytes) : result InputClassMapping InputSetError :=
  if negb (valid_sysfs_path n path) then Err InputSetError_Malformed
  else Ok {| event_number := n; sysfs_path := path |}.

(** The loop of [validate_order], after the event number [previous]. *)
Fixpoint validate_order_from (previous : option Z) (mappings : list InputClassMapping)
  : result unit InputSetError :=
  match mappings with
  | [] => Ok tt
  | mapping :: mappings =>
      if negb (valid_sysfs_path (event_number mapping) (sysfs_path mapping))
         || match previous with Some n => event_number mapping <=? n | None => false end
      then Err InputSetError_Malformed
      else validate_order_from (Some (event_number mapping)) mappings
  end.

Definition validate_order (mappings : list InputClassMapping) : result unit InputSetError :=
  if is_empty mappings || (MAX_INPUT_CLASS_MAPPINGS <? len mappings)
  then Err (if MAX_INPUT_CLASS_MAPPINGS <? len mappings then InputSetError_BoundExceeded
            else InputSetError_Malformed)
  else validate_order_from None mappings.

(** One line of the manifest, without its terminator. *)
Definition mapping_line (mapping : InputClassMapping) : str :=
  event_name (event_number mapping) ++ [9] ++ sysfs_path mapping.

Fixpoint encode_mappings (output : bytes) (mappings : list InputClassMapping)
  : result bytes InputSetError :=
  match mappings with
  | [] => Ok output
  | mapping :: mappings =>
      ensure (utf8_valid (sysfs_path mapping)) InputSetError_Malformed ;?
      let output := output ++ mapping_line mapping ++ [10] in
      if MAX_INPUT_SET_BYTES <? len output then Err InputSetError_BoundExceeded
      else encode_mappings output mappings
  end.

Definition encode_input_set (mappings : list InputClassMapping) : result bytes InputSetError :=
  validate_order mappings ;?
  encode_mappings HEADER mappings.

Definition parse_event_name (value : str) : option Z :=
  match strip_prefix (bstr "event") value with
  | None => None
  | Some number =>
      if is_empty number || negb (forallb is_ascii_digit number) then None
      else
        match parse_u32 number with
        | None => None
        | Some number => if bool_decide (value = event_name number) then Some number else None
        end
  end.

(** The loop over the lines, after [mappings]. *)
Fixpoint decode_lines (mappings : list InputClassMapping) (ls : list str)
  : result (list InputClassMapping) InputSetError :=
  match ls with
  | [] => Ok mappings
  | line :: ls =>
      if MAX_INPUT_CLASS_MAPPINGS <=? len mappings then Err InputSetError_BoundExceeded
      else
        let? '(event, path) := ok_or (split_once 9 line) InputSetError_Malformed in
        if contains 9 path then Err InputSetError_Malformed
        else
          let? number := ok_or (parse_event_name event) InputSetError_Malformed in
          let? mapping := InputClassMapping_new number path in
          decode_lines (mappings ++ [mapping]) ls
  end.

Definition decode_input_set (source : bytes) : result (list InputClassMapping) InputSetError :=
  if MAX_INPUT_SET_BYTES <? len source then Err InputSetError_BoundExceeded
  else if negb (ends_with [10] source) then Err InputSetError_Malformed
  else if negb (utf8_valid source) then Err InputSetError_Malformed
  else
    let ls := split_terminator 10 source in
    if negb (bool_decide (head ls = Some (bstr "ASIS" ++ [9] ++ bstr "1")))
    then Err InputSetError_Malformed
    else
      let? mappings := decode_lines [] (tail ls) in
      validate_order mappings ;?
      Ok mappings.

Definition mapping (n : Z) : InputClassMapping :=
  {| event_number := n;
     sysfs_path := bstr "/sys/devices/platform/example/input/input" ++ to_dec n
                     ++ bstr "/event" ++ to_dec n |}.

Example input_sets_run :
  match encode_input_set [mapping 2; mapping 10] with
  | Ok b => decode_input_set b = Ok [mapping 2; mapping 10]
  | Err _ => False
  end.
Proof. vm_compute. reflexivity. Qed.

(** ** One line *)

Definition first_line : str := bstr "ASIS" ++ [9] ++ bstr "1".

Lemma event_name_no_byte n c :
  is_u32 n → c ∉ bstr "event" → is_ascii_digit c = false → c ∉ event_name n.
Proof.
  intros Hn He Hc. unfold event_name. rewrite elem_of_app. intros [?|H]; [done|].
  by apply (to_dec_no_byte n c Hn Hc) in H.
Qed.

Lemma event_name_utf8 n : is_u32 n → utf8_valid (event_name n) = true.
Proof.
  intros Hn. apply utf8_valid_ascii. apply Forall_app. split.
  - by apply (bool_decide_unpack (Forall _ _)).
  - destruct (to_dec_spec n Hn) as (_ & Hd & _). apply Forall_forall. intros c Hc.
    apply within_iff. rewrite forallb_forall in Hd. apply list_elem_of_In in Hc.
    specialize (Hd c Hc). unfold is_ascii_digit in Hd. bool_props. lia.
Qed.

Lemma parse_event_name_iff value n : parse_event_name value = Some n ↔ value = event_name n ∧ is_u32 n.
Proof.
  unfold parse_event_name. split.
  - case_match; [|done]. case_match; [done|]. case_match eqn:Hp; [|done].
    case_bool_decide; [|done]. intros [= ->]. split; [done|]. by eapply parse_u32_range.
  - intros [-> Hn]. unfold event_name. rewrite (proj2 (strip_prefix_Some _ _ _) eq_refl).
    destruct (to_dec_spec n Hn) as (_ & -> & Hne). apply is_empty_false in Hne as ->.
    cbn [orb negb]. rewrite (parse_u32_to_dec n Hn). by rewrite bool_decide_true.
Qed.

Lemma valid_path_text n path :
  valid_sysfs_path n path = true → utf8_valid path = true ∧ 9 ∉ path ∧ 10 ∉ path.
Proof.
  unfold valid_sysfs_path. case_match eqn:Hu; [done|]. case_match eqn:Hc; [done|].
  intros _. bool_props. rewrite <- !contains_false. done.
Qed.

Definition mapping_ok (m : InputClassMapping) : Prop :=
  valid_sysfs_path (event_number m) (sysfs_path m) = true ∧ is_u32 (event_number m).

Lemma mapping_line_no_newline m : mapping_ok m → 10 ∉ mapping_line m.
Proof.
  intros [(_ & _ & ?)%valid_path_text Hn]. unfold mapping_line. rewrite !not_elem_of_app.
  split_and!; [|by apply (bool_decide_unpack (10 ∉ [9]))|done].
  by apply event_name_no_byte; [|apply (bool_decide_unpack (10 ∉ _))|].
Qed.

Lemma mapping_line_utf8 m : mapping_ok m → utf8_valid (mapping_line m) = true.
Proof.
  intros [(? & _)%valid_path_text Hn]. unfold mapping_line.
  apply utf8_valid_app; [by apply event_name_utf8|]. by apply utf8_valid_app.
Qed.

(** ** The encoder *)

Lemma terminated_cons l ls : terminated 10 (l :: ls) = l ++ [10] ++ terminated 10 ls.
Proof. done. Qed.

Lemma encode_mappings_Ok output ms b :
  encode_mappings output ms = Ok b ↔
  Forall (λ m, utf8_valid (sysfs_path m) = true) ms ∧
  b = output ++ terminated 10 (mapping_line <$> ms) ∧
  (ms = [] ∨ len b ≤ MAX_INPUT_SET_BYTES).
Proof.
  revert output. induction ms as [|m ms IH]; intros output.
  { cbn. rewrite app_nil_r. naive_solver. }
  cbn [encode_mappings fmap list_fmap]. rewrite terminated_cons, Forall_cons.
  destruct (utf8_valid (sysfs_path m)); cbn [ensure and_then]; [|naive_solver].
  set (output' := output ++ mapping_line m ++ [10]).
  replace (output ++ mapping_line m ++ [10] ++ _)
    with (output' ++ terminated 10 (mapping_line <$> ms))
    by (unfold output'; by rewrite <- !(assoc_L (++))).
  destruct (Z.ltb_spec MAX_INPUT_SET_BYTES (len output')) as [Hlt|Hle].
  - split; [done|]. intros (_ & -> & [?|Hlen]); [done|]. rewrite len_app in Hlen.
    unfold len in *. lia.
  - rewrite IH. split; [|naive_solver]. intros (? & -> & [->|?]); [|naive_solver].
    split_and!; [done..|]. right. cbn. by rewrite app_nil_r.
Qed.

(** ** The decoder's loop *)

Lemma InputClassMapping_new_Ok n path m :
  InputClassMapping_new n path = Ok m ↔
  m = {| event_number := n; sysfs_path := path |} ∧ valid_sysfs_path n path = true.
Proof. unfold InputClassMapping_new. destruct (valid_sysfs_path n path); naive_solver. Qed.

Lemma decode_line_split m :
  mapping_ok m → split_once 9 (mapping_line m) = Some (event_name (event_number m), sysfs_path m).
Proof.
  intros [_ Hn]. apply split_once_Some. split; [done|].
  by apply event_name_no_byte; [|apply (bool_decide_unpack (9 ∉ _))|].
Qed.

Lemma decode_lines_encoded acc ms :
  Forall mapping_ok ms → len acc + len ms ≤ MAX_INPUT_CLASS_MAPPINGS →
  decode_lines acc (mapping_line <$> ms) = Ok (acc ++ ms).
Proof.
  revert acc. induction ms as [|m ms IH]; intros acc Hms Hlen; [by rewrite app_nil_r|].
  apply Forall_cons in Hms as [Hm Hms]. rewrite len_cons in Hlen.
  cbn [fmap list_fmap decode_lines].
  rewrite (proj2 (Z.leb_gt _ _)) by (unfold len in *; lia).
  rewrite decode_line_split by done. cbn [ok_or and_then].
  destruct Hm as [Hv Hn]. pose proof (valid_path_text _ _ Hv) as (_ & H9 & _).
  rewrite (proj2 (contains_false _ _) H9).
  rewrite (proj2 (parse_event_name_iff _ (event_number m))) by done. cbn [ok_or and_then].
  rewrite (proj2 (InputClassMapping_new_Ok _ _ m)) by (by destruct m). cbn [and_then].
  rewrite IH; [by rewrite <- (assoc_L (++))|done|].
  rewrite len_app, len_cons. change (len (A:=InputClassMapping) []) with 0. lia.
Qed.

Lemma decode_lines_inv acc ls ms :
  decode_lines acc ls = Ok ms →
  ∃ ms', ms = acc ++ ms' ∧ ls = mapping_line <$> ms' ∧ Forall mapping_ok ms'.
Proof.
  revert acc. induction ls as [|line ls IH]; intros acc; cbn [decode_lines].
  { intros [= ->]. exists []. by rewrite app_nil_r. }
  case_match; [done|]. destruct (split_once 9 line) as [[event path]|] eqn:Hs; [|done].
  cbn [ok_or and_then]. case_match; [done|].
  destruct (parse_event_name event) as [n|] eqn:Hp; [|done]. cbn [ok_or and_then].
  destruct (InputClassMapping_new n path) as [m|] eqn:Hm; [|done]. cbn [and_then].
  intros (ms' & -> & -> & Hok)%IH.
  apply split_once_Some in Hs as [-> _]. apply parse_event_name_iff in Hp as [-> Hn].
  apply InputClassMapping_new_Ok in Hm as [-> Hv].
  eexists (_ :: ms'). split; [by rewrite <- (assoc_L (++))|]. split; [done|].
  by constructor.
Qed.

(** ** The order check *)

Lemma validate_order_from_iff previous ms :
  validate_order_from previous ms = Ok tt ↔
  Forall (λ m, valid_sysfs_path (event_number m) (sysfs_path m) = true) ms ∧
  Sorted Z.lt (option_list previous ++ (event_number <$> ms)).
Proof.
  revert previous. induction ms as [|m ms IH]; intros previous.
  { cbn. rewrite app_nil_r. split; [intros _|done]. split; [done|].
    destruct previous; cbn; repeat constructor. }
  cbn [validate_order_from fmap list_fmap]. rewrite Forall_cons.
  destruct (valid_sysfs_path _ _); cbn [negb orb]; [|naive_solver].
  destruct previous as [n|]; cbn [option_list app].
  - destruct (Z.leb_spec (event_number m) n) as [Hle|Hlt].
    + split; [done|]. intros [_ Hs]. apply Sorted_inv in Hs as [_ Hh].
      apply HdRel_inv in Hh. lia.
    + rewrite IH. cbn [option_list app]. split.
      * intros [? ?]. split; [done|]. by constructor; [|constructor].
      * intros [[_ ?] Hs]. split; [done|]. by apply Sorted_inv in Hs as [? _].
  - rewrite IH. naive_solver.
Qed.

(** The manifests the component promises to write and to accept. *)
Definition input_set_wf (ms : list InputClassMapping) : Prop :=
  1 ≤ len ms ≤ MAX_INPUT_CLASS_MAPPINGS ∧
  Forall (λ m, valid_sysfs_path (event_number m) (sysfs_path m) = true) ms ∧
  Sorted Z.lt (event_number <$> ms).

Lemma validate_order_iff ms : validate_order ms = Ok tt ↔ input_set_wf ms.
Proof.
  unfold validate_order, input_set_wf.
  destruct (is_empty ms) eqn:Hemp; cbn [orb].
  { apply is_empty_true in Hemp as ->. split; [by case_match|]. intros [H _]. by destruct H as [[] _]. }
  apply is_empty_false in Hemp. assert (1 ≤ len ms) by (destruct ms; [done|]; rewrite len_cons; unfold len; lia).
  destruct (Z.ltb_spec MAX_INPUT_CLASS_MAPPINGS (len ms)).
  { split; [done|]. lia. }
  rewrite validate_order_from_iff. cbn [option_list app]. naive_solver.
Qed.

Definition manifest (ms : list InputClassMapping) : bytes :=
  terminated 10 (first_line :: (mapping_line <$> ms)).

Lemma encode_input_set_Ok ms b :
  encode_input_set ms = Ok b ↔
  input_set_wf ms ∧ b = manifest ms ∧ len b ≤ MAX_INPUT_SET_BYTES.
Proof.
  unfold encode_input_set. rewrite <- validate_order_iff.
  destruct (validate_order ms) as [[]|e] eqn:Hv; cbn [and_then]; [|naive_solver].
  apply validate_order_iff in Hv as (Hlen & Hms & _).
  rewrite encode_mappings_Ok.
  assert (Forall (λ m, utf8_valid (sysfs_path m) = true) ms).
  { eapply Forall_impl; [exact Hms|]. by intros m [? _]%valid_path_text. }
  split.
  - intros (_ & -> & [->|?]); [by destruct Hlen as [[] _]|done].
  - intros (_ & -> & ?). split_and!; [done..|]. by right.
Qed.

Lemma manifest_utf8 ms : Forall mapping_ok ms → utf8_valid (manifest ms) = true.
Proof.
  intros Hms. unfold manifest. rewrite terminated_cons.
  apply utf8_valid_app; [done|]. apply utf8_valid_app; [done|].
  induction Hms as [|m ms Hm _ IH]; [done|]. cbn [fmap list_fmap]. rewrite terminated_cons.
  apply utf8_valid_app; [by apply mapping_line_utf8|]. by apply utf8_valid_app.
Qed.

Lemma manifest_lines ms :
  Forall mapping_ok ms →
  split_terminator 10 (manifest ms) = first_line :: (mapping_line <$> ms).
Proof.
  intros Hms. apply split_terminator_terminated. apply Forall_cons. split.
  - by apply (bool_decide_unpack (10 ∉ first_line)).
  - apply Forall_fmap. eapply Forall_impl; [exact Hms|]. apply mapping_line_no_newline.
Qed.

Lemma decode_input_set_Ok source ms :
  decode_input_set source = Ok ms ↔
  input_set_wf ms ∧ Forall mapping_ok ms ∧ source = manifest ms ∧ len source ≤ MAX_INPUT_SET_BYTES.
Proof.
  unfold decode_input_set. split.
  - case_match; [done|]. case_match eqn:He; [done|]. case_match eqn:Hu; [done|]. bool_props.
    apply split_terminator_inv in He as [Hsource _].
    case_match eqn:Hh; [done|]. bool_props.
    destruct (decode_lines _ _) as [ms'|] eqn:Hd; [|done]. cbn [and_then].
    destruct (validate_order ms') as [[]|] eqn:Hv; [|done]. cbn. intros [= ->].
    apply validate_order_iff in Hv. apply decode_lines_inv in Hd as (ms' & -> & Htl & Hok).
    split; [done|]. split; [done|]. split; [|lia].
    rewrite Hsource. destruct (split_terminator 10 source); [done|]. cbn in *. simplify_eq.
    done.
  - intros (Hwf & Hok & -> & Hlen).
    rewrite (proj2 (Z.ltb_ge _ _)) by done.
    assert (ends_with [10] (manifest ms) = true) as ->.
    { apply ends_with_true. exists (join [10] (first_line :: (mapping_line <$> ms))).
      by apply terminated_join. }
    rewrite manifest_utf8, manifest_lines by done. cbn [negb head tail].
    rewrite bool_decide_true by done. cbn [negb].
    rewrite decode_lines_encoded; [|done|unfold len; cbn; destruct Hwf; unfold len in *; lia].
    cbn [and_then app]. by rewrite (proj2 (validate_order_iff ms) Hwf).
Qed.

(** The input-class manifest is canonical and complete.  A byte string decodes to a list
    of mappings exactly when it is what the encoder writes for that list (with event
    numbers in the range of their type), so decoding inverts encoding and no manifest has
    two spellings; and the encoder succeeds exactly on the nonempty lists of at most 256
    mappings with valid paths and strictly increasing event numbers whose manifest fits
    in 64 KiB. *)
Theorem input_set_canonical source ms :
  (decode_input_set source = Ok ms ↔
   encode_input_set ms = Ok source ∧ Forall (λ m, is_u32 (event_number m)) ms) ∧
  (encode_input_set ms = Ok source ↔
   input_set_wf ms ∧ source = manifest ms ∧ len source ≤ MAX_INPUT_SET_BYTES).
Proof.
  split; [|apply encode_input_set_Ok].
  rewrite decode_input_set_Ok, encode_input_set_Ok. split.
  - intros (? & Hok & ? & ?). split; [done|]. eapply Forall_impl; [exact Hok|]. by intros m [_ ?].
  - intros ((Hwf & -> & ?) & Hu). split; [done|]. split; [|done].
    destruct Hwf as (_ & Hv & _). rewrite Forall_forall in *. split; eauto.
Qed.

(** A path [Path::components] normalizes is accepted although its text is not normal. *)
Example unnormalized_path_accepted :
  InputClassMapping_new 2 (bstr "/sys/devices//example/./event2/")
  = Ok {| event_number := 2; sysfs_path := bstr "/sys/devices//example/./event2/" |}.
Proof. reflexivity. Qed.
