(* ===== verification/Effects.v ===== *)
(** * Stateful, fallible code

    A computation over the state [S] returns a [result] and the state it leaves, also when
    it fails: Rust's [&mut self] methods keep what they changed before an early return.
    [let! x := m in k] is [let x = m?; k]. *)

From S2P Require Import Prelude.

Definition M (S E A : Type) : Type := S → result A E * S.

Section operations.
Context {S E : Type}.

Definition ret {A} (a : A) : M S E A := λ s, (Ok a, s).
Definition fail {A} (e : E) : M S E A := λ s, (Err e, s).
Definition lift {A} (r : result A E) : M S E A := λ s, (r, s).
Definition gets {A} (f : S → A) : M S E A := λ s, (Ok (f s), s).
Definition modify (f : S → S) : M S E unit := λ s, (Ok tt, f s).

Definition bind {A B} (m : M S E A) (k : A → M S E B) : M S E B :=
  λ s, match m s with
       | (Ok a, s) => k a s
       | (Err e, s) => (Err e, s)
       end.

(** [m.map_err(f)] *)
Definition map_error {F A} (f : E → F) (m : M S E A) : M S F A :=
  λ s, let '(r, s) := m s in (map_err f r, s).

(** The [result] itself, for the code that looks at it. *)
Definition attempt {F A} (m : M S E A) : M S F (result A E) :=
  λ s, let '(r, s) := m s in (Ok r, s).
End operations.

Notation "'let!' x ':=' e 'in' k" := (bind e (λ x, k))
  (at level 10, x binder, e at level 200, k at level 200, only parsing) : rust_scope.
Notation "e1 ';!' e2" := (bind e1 (λ _ : unit, e2))
  (at level 95, right associativity) : rust_scope.

(** A computation on a component of the state. *)
Definition zoom {S T E A} (get : T → S) (put : S → T → T) (m : M S E A) : M T E A :=
  λ t, let '(r, s) := m (get t) in (r, put s t).

Section loops.
Context {S E : Type}.

(** [for x in l { ... }] collecting what each round yields. *)
Fixpoint traverse {A B} (f : A → M S E B) (l : list A) : M S E (list B) :=
  match l with
  | [] => ret []
  | a :: l => let! b := f a in let! bs := traverse f l in ret (b :: bs)
  end.

(** [for x in l { ... }] *)
Fixpoint for_each {A} (f : A → M S E unit) (l : list A) : M S E unit :=
  match l with
  | [] => ret tt
  | a :: l => f a ;! for_each f l
  end.
End loops.

(** ** Postconditions

    [wp m Q R s]: run from [s], [m] either returns [a] in a state satisfying [Q a] or fails
    with [e] in a state satisfying [R e]. *)
Section wp.
Context {S E : Type}.

Definition wp {A} (m : M S E A) (Q : A → S → Prop) (R : E → S → Prop) (s : S) : Prop :=
  match m s with
  | (Ok a, s) => Q a s
  | (Err e, s) => R e s
  end.

Lemma wp_run {A} (m : M S E A) Q R s r s' :
  wp m Q R s → m s = (r, s') → match r with Ok a => Q a s' | Err e => R e s' end.
Proof. unfold wp. intros H Hrun. rewrite Hrun in H. by destruct r. Qed.

(** What holds either way. *)
Lemma wp_either {A} (m : M S E A) (P : S → Prop) s : wp m (λ _, P) (λ _, P) s → P (snd (m s)).
Proof. unfold wp. by destruct (m s) as [[] ?]. Qed.

Lemma wp_true {A} (m : M S E A) s : wp m (λ _ _, True) (λ _ _, True) s.
Proof. unfold wp. by destruct (m s) as [[] ?]. Qed.

Lemma wp_mono {A} (m : M S E A) Q Q' (R R' : E → S → Prop) s :
  wp m Q R s → (∀ a s, Q a s → Q' a s) → (∀ e s, R e s → R' e s) → wp m Q' R' s.
Proof. unfold wp. destruct (m s) as [[] ?]; eauto. Qed.

Lemma wp_both {A} (m : M S E A) (Q Q' : A → S → Prop) (R R' : E → S → Prop) s :
  wp m Q R s → wp m Q' R' s → wp m (λ a s, Q a s ∧ Q' a s) (λ e s, R e s ∧ R' e s) s.
Proof. unfold wp. by destruct (m s) as [[] ?]. Qed.

Lemma wp_ret {A} (a : A) Q R s : Q a s → wp (ret a) Q R s.
Proof. done. Qed.

Lemma wp_fail {A} (e : E) (Q : A → S → Prop) (R : E → S → Prop) s : R e s → wp (fail e) Q R s.
Proof. done. Qed.

Lemma wp_lift {A} (r : result A E) Q R s :
  (∀ a, r = Ok a → Q a s) → (∀ e, r = Err e → R e s) → wp (lift r) Q R s.
Proof. unfold wp, lift. destruct r; eauto. Qed.

Lemma wp_gets {A} (f : S → A) Q (R : E → S → Prop) s : Q (f s) s → wp (gets f) Q R s.
Proof. done. Qed.

Lemma wp_modify (f : S → S) Q (R : E → S → Prop) s : Q tt (f s) → wp (modify f) Q R s.
Proof. done. Qed.

Lemma wp_bind {A B} (m : M S E A) (k : A → M S E B) Q R s :
  wp m (λ a, wp (k a) Q R) R s → wp (bind m k) Q R s.
Proof. unfold wp, bind. by destruct (m s) as [[] ?]. Qed.

Lemma wp_traverse {A B} (f : A → M S E B) l (I : S → Prop) (P : A → B → Prop) R s :
  I s → (∀ a s, a ∈ l → I s → wp (f a) (λ b s, P a b ∧ I s) R s) →
  wp (traverse f l) (λ bs s, Forall2 P l bs ∧ I s) R s.
Proof.
  revert s. induction l as [|a l IH]; intros s Hs Hf.
  { by apply wp_ret. }
  cbn [traverse]. apply wp_bind. eapply wp_mono; [apply Hf; [by left|done]| |done].
  intros b s1 [Hb Hs1]. apply wp_bind. eapply wp_mono; [apply IH; [done|]| |done].
  - intros a' s' Ha'. apply Hf. by right.
  - intros bs s2 [? ?]. apply wp_ret. by split; [constructor|].
Qed.
End wp.

Lemma wp_attempt {S E F A} (m : M S E A) Q (R : F → S → Prop) s :
    wp m (λ a, Q (Ok a)) (λ e, Q (Err e)) s → wp (attempt m) Q R s.
Proof. unfold wp, attempt. by destruct (m s) as [[] ?]. Qed.

Lemma wp_map_error {S E F A} (f : E → F) (m : M S E A) Q (R : F → S → Prop) s :
    wp m Q (λ e, R (f e)) s → wp (map_error f m) Q R s.
Proof. unfold wp, map_error. by destruct (m s) as [[] ?]. Qed.

Lemma wp_zoom {S T E A} (get : T → S) (put : S → T → T) (m : M S E A) Q R t :
  wp m (λ a s, Q a (put s t)) (λ e s, R e (put s t)) (get t) → wp (zoom get put m) Q R t.
Proof. unfold wp, zoom. by destruct (m (get t)) as [[] ?]. Qed.

(** One step of symbolic execution. *)
Ltac wp_step :=
  cbv beta;
  lazymatch goal with
  | |- wp (bind _ _) _ _ _ => apply wp_bind
  | |- wp (ret _) _ _ _ => apply wp_ret
  | |- wp (fail _) _ _ _ => apply wp_fail
  | |- wp (gets _) _ _ _ => apply wp_gets
  | |- wp (modify _) _ _ _ => apply wp_modify
  | |- wp (attempt _) _ _ _ => apply wp_attempt
  | |- wp (map_error _ _) _ _ _ => apply wp_map_error
  | |- wp (zoom _ _ _) _ _ _ => apply wp_zoom
  | |- wp (match ?x with _ => _ end) _ _ _ => destruct x eqn:?
  | |- wp (let _ := _ in _) _ _ _ => cbv zeta
  end.

(** Call a lemma about [m] and go on with what it gives. *)
Tactic Notation "wp_call" uconstr(H) := eapply wp_mono; [eapply H| |].

(** ** Computations that only move a measure of the state forward *)

Class Advances {S E A} (measure : S → Z) (m : M S E A) : Prop :=
  advances : ∀ s, measure s ≤ measure (m s).2.

Section advances.
Context {S E : Type} (measure : S → Z).

#[export] Instance ret_advances {A} (a : A) : Advances (E:=E) measure (ret a).
Proof. intros s. cbn. lia. Qed.
#[export] Instance fail_advances {A} (e : E) : Advances (A:=A) measure (fail e).
Proof. intros s. cbn. lia. Qed.
#[export] Instance lift_advances {A} (r : result A E) : Advances measure (lift r).
Proof. intros s. cbn. lia. Qed.
#[export] Instance gets_advances {A} (f : S → A) : Advances (E:=E) measure (gets f).
Proof. intros s. cbn. lia. Qed.
#[export] Instance bind_advances {A B} (m : M S E A) (k : A → M S E B) :
  Advances measure m → (∀ a, Advances measure (k a)) → Advances measure (bind m k).
Proof.
  intros Hm Hk s. unfold bind. pose proof (Hm s) as H1.
  destruct (m s) as [[a|e] s1]; cbn in *; [|done]. specialize (Hk a s1). lia.
Qed.
#[export] Instance attempt_advances {F A} (m : M S E A) :
  Advances measure m → Advances (E:=F) measure (attempt m).
Proof. intros Hm s. unfold attempt. pose proof (Hm s). by destruct (m s). Qed.
#[export] Instance map_error_advances {F A} (f : E → F) (m : M S E A) :
  Advances measure m → Advances measure (map_error f m).
Proof. intros Hm s. unfold map_error. pose proof (Hm s). by destruct (m s). Qed.
#[export] Instance traverse_advances {A B} (f : A → M S E B) l :
  (∀ a, Advances measure (f a)) → Advances measure (traverse f l).
Proof. intros Hf. induction l as [|a l IH]; cbn [traverse]; apply _. Qed.
#[export] Instance for_each_advances {A} (f : A → M S E unit) l :
  (∀ a, Advances measure (f a)) → Advances measure (for_each f l).
Proof. intros Hf. induction l as [|a l IH]; cbn [for_each]; apply _. Qed.
End advances.

(** Under the branches of the code. *)
Ltac solve_advances :=
  repeat first
    [ progress intros
    | match goal with |- Advances _ (match ?x with _ => _ end) => destruct x end
    | solve [apply _]
    | apply bind_advances | apply traverse_advances | apply for_each_advances ].

Lemma zoom_advances {S T E A} (get : T → S) (put : S → T → T) (f : S → Z) (g : T → Z)
    (m : M S E A) :
  (∀ s t, g (put s t) = f s) → (∀ t, g t = f (get t)) → Advances f m →
  Advances g (zoom get put m).
Proof.
  intros Hput Hget Hm t. unfold zoom. rewrite Hget. pose proof (Hm (get t)) as H.
  destruct (m (get t)) as [r s]. cbn in *. by rewrite Hput.
Qed.

(** ** What a call does to a view of the state

    An interface may say, in its laws, what a call does to the part of the state one looks
    at. *)

Definition Effect (C E A : Type) : Type := C → result A E → C → Prop.

(** It only looks. *)
Definition looks {C E A} (sees : C → A → Prop) : Effect C E A := λ c r c',
  c' = c ∧ match r with Ok a => sees c a | Err _ => True end.
(** It changes what is seen, or fails and does not. *)
Definition changes {C E A} (does : C → A → C → Prop) : Effect C E A := λ c r c',
  match r with Ok a => does c a c' | Err _ => c' = c end.

Definition performs {S C E A} (view : S → C) (m : M S E A) (effect : Effect C E A) : Prop :=
  ∀ s, effect (view s) (fst (m s)) (view (snd (m s))).

Lemma wp_looks {S C E A} (view : S → C) (m : M S E A) sees (Q : A → S → Prop) (R : E → S → Prop) s :
  performs view m (looks sees) →
  (∀ a s', view s' = view s → sees (view s) a → Q a s') → (∀ e s', view s' = view s → R e s') → wp m Q R s.
Proof.
  intros Hm HQ HR. specialize (Hm s). unfold wp. destruct (m s) as [[a|e] s'], Hm as [Hv Hs]; eauto.
Qed.
Lemma wp_changes {S C E A} (view : S → C) (m : M S E A) does (Q : A → S → Prop) (R : E → S → Prop) s :
  performs view m (changes does) →
  (∀ a s', does (view s) a (view s') → Q a s') → (∀ e s', view s' = view s → R e s') → wp m Q R s.
Proof. intros Hm HQ HR. specialize (Hm s). unfold wp. destruct (m s) as [[a|e] s']; eauto. Qed.

(** ** Computations that leave a part of the state as it is *)

Class Preserves {S E A T} (part : S → T) (m : M S E A) : Prop :=
  preserves : ∀ s, part (m s).2 = part s.

Section preserves.
Context {S E T : Type} (part : S → T).

#[export] Instance ret_preserves {A} (a : A) : Preserves (E:=E) part (ret a).
Proof. done. Qed.
#[export] Instance fail_preserves {A} (e : E) : Preserves (A:=A) part (fail e).
Proof. done. Qed.
#[export] Instance lift_preserves {A} (r : result A E) : Preserves part (lift r).
Proof. done. Qed.
#[export] Instance gets_preserves {A} (f : S → A) : Preserves (E:=E) part (gets f).
Proof. done. Qed.
#[export] Instance bind_preserves {A B} (m : M S E A) (k : A → M S E B) :
  Preserves part m → (∀ a, Preserves part (k a)) → Preserves part (bind m k).
Proof.
  intros Hm Hk s. unfold bind. pose proof (Hm s) as H1.
  destruct (m s) as [[a|e] s1]; cbn in *; [|done]. specialize (Hk a s1). congruence.
Qed.
#[export] Instance attempt_preserves {F A} (m : M S E A) :
  Preserves part m → Preserves (E:=F) part (attempt m).
Proof. intros Hm s. unfold attempt. pose proof (Hm s). by destruct (m s). Qed.
#[export] Instance map_error_preserves {F A} (f : E → F) (m : M S E A) :
  Preserves part m → Preserves part (map_error f m).
Proof. intros Hm s. unfold map_error. pose proof (Hm s). by destruct (m s). Qed.
#[export] Instance traverse_preserves {A B} (f : A → M S E B) l :
  (∀ a, Preserves part (f a)) → Preserves part (traverse f l).
Proof. intros Hf. induction l as [|a l IH]; cbn [traverse]; apply _. Qed.
#[export] Instance for_each_preserves {A} (f : A → M S E unit) l :
  (∀ a, Preserves part (f a)) → Preserves part (for_each f l).
Proof. intros Hf. induction l as [|a l IH]; cbn [for_each]; apply _. Qed.

Lemma preserves_wp {A} (m : M S E A) s :
  Preserves part m → wp m (λ _ s', part s' = part s) (λ _ s', part s' = part s) s.
Proof. intros Hm. unfold wp. pose proof (Hm s). by destruct (m s) as [[] ?]. Qed.

Lemma wp_preserves {A} (m : M S E A) Q R s :
  Preserves part m → wp m Q R s →
  wp m (λ a s', Q a s' ∧ part s' = part s) (λ e s', R e s' ∧ part s' = part s) s.
Proof. intros Hm. unfold wp. pose proof (Hm s). by destruct (m s) as [[] ?]. Qed.
End preserves.

Ltac solve_preserves :=
  repeat first
    [ progress intros
    | match goal with |- Preserves _ (match ?x with _ => _ end) => destruct x end
    | solve [apply _]
    | apply bind_preserves | apply traverse_preserves | apply for_each_preserves ].

(** ** Programs and what they note

    A state that keeps a journal of what a program did.  [logs m Q R]: run from any state,
    [m] adds notes to the journal, [Q] of its value and the notes when it returns and [R] of
    the notes when it fails. *)

(** The notes of a state, of which [N] is the type. *)
Class Journaled (S N : Type) := journal : S → list N.
#[export] Hint Mode Journaled ! - : typeclass_instances.

Section logs.
Context {S N : Type} `{Journaled S N}.

Definition logs {E A} (m : M S E A) (Q : A → list N → Prop) (R : list N → Prop) : Prop :=
  ∀ w, wp m (λ a w', ∃ notes, journal w' = journal w ++ notes ∧ Q a notes)
            (λ _ w', ∃ notes, journal w' = journal w ++ notes ∧ R notes) w.

Lemma logs_mono {E A} (m : M S E A) Q (Q' : A → list N → Prop) (R R' : list N → Prop) :
  logs m Q R → (∀ a n, Q a n → Q' a n) → (∀ n, R n → R' n) → logs m Q' R'.
Proof. intros Hm HQ HR w. eapply wp_mono; [apply Hm|naive_solver..]. Qed.
Lemma logs_ret {E A} (a : A) (Q : A → list N → Prop) R : Q a [] → logs (E:=E) (ret a) Q R.
Proof. intros HQ w. apply wp_ret. exists []. by rewrite app_nil_r. Qed.
Lemma logs_fail {E A} (e : E) (Q : A → list N → Prop) (R : list N → Prop) : R [] → logs (fail e) Q R.
Proof. intros HR w. apply wp_fail. exists []. by rewrite app_nil_r. Qed.
Lemma logs_bind {E A B} (m : M S E A) (k : A → M S E B) Q1 R1 Q R :
  logs m Q1 R1 → (∀ n, R1 n → R n) →
  (∀ a n1, Q1 a n1 → logs (k a) (λ b n2, Q b (n1 ++ n2)) (λ n2, R (n1 ++ n2))) →
  logs (bind m k) Q R.
Proof.
  intros Hm HR Hk w. apply wp_bind. eapply wp_mono; [apply Hm| |naive_solver].
  intros a w1 (n1 & Hw1 & Ha). eapply wp_mono; [by eapply Hk|..]; intros x w2 (n2 & Hw2 & Hx);
    (exists (n1 ++ n2); rewrite Hw2, Hw1; by rewrite (assoc_L (++))).
Qed.
Lemma logs_assoc {E A B C} (m : M S E A) (k : A → M S E B) (h : B → M S E C) Q R :
  logs (let! b := (let! a := m in k a) in h b) Q R → logs (let! a := m in let! b := k a in h b) Q R.
Proof.
  intros Hm w. specialize (Hm w). unfold wp, bind in *. by destruct (m w) as [[] ?].
Qed.
Lemma logs_map_error {E F A} (f : E → F) (m : M S E A) Q R : logs m Q R → logs (map_error f m) Q R.
Proof. intros Hm w. apply wp_map_error, Hm. Qed.
Lemma logs_attempt {E F A} (m : M S E A) (Q : A → list N → Prop) (R : list N → Prop) T :
  logs m Q R → logs (E:=F) (attempt m) (λ r, match r with Ok a => Q a | Err _ => R end) T.
Proof. intros Hm w. apply wp_attempt, Hm. Qed.
Lemma logs_preserves {E A} (m : M S E A) (Q : A → list N → Prop) (R : list N → Prop) :
  Preserves journal m → (∀ a, Q a []) → R [] → logs m Q R.
Proof.
  intros Hm HQ HR w. eapply wp_mono; [exact (preserves_wp journal m w Hm)|..]; intros x w' Hw';
    (exists []; rewrite app_nil_r; auto).
Qed.

(** A call that notes nothing. *)
Lemma logs_silent {E A} (m : M S E A) : Preserves journal m → logs m (λ _ n, n = []) (λ n, n = []).
Proof. intros Hm. by apply logs_preserves. Qed.
End logs.

(** ** The errors of a computation

    [Errs P m] says that every error of [m] satisfies [P]. *)

Class ErrsR {E A} (P : E → Prop) (r : result A E) : Prop := errs_r : ∀ e, r = Err e → P e.
Class Errs {S E A} (P : E → Prop) (m : M S E A) : Prop :=
  errs : ∀ s e s', m s = (Err e, s') → P e.

Section results.
Context {E : Type} (P : E → Prop).

#[export] Instance Ok_errs {A} (a : A) : ErrsR P (Ok a).
Proof. done. Qed.
Lemma Err_errs {A} e : P e → ErrsR P (Err e : result A E).
Proof. by intros He e' [= <-]. Qed.
Lemma ok_or_errs {A} (o : option A) e : P e → ErrsR P (ok_or o e).
Proof. intros He. destruct o; [apply _|by apply Err_errs]. Qed.
Lemma ensure_errs b e : P e → ErrsR P (ensure b e).
Proof. intros He. destruct b; [apply _|by apply Err_errs]. Qed.
Lemma map_err_errs {F A} (f : F → E) (r : result A F) :
  (∀ e, P (f e)) → ErrsR P (map_err f r).
Proof. intros Hf e. destruct r as [|e']; [done|]. intros [= <-]. apply Hf. Qed.
Lemma and_then_errs {A B} (r : result A E) (k : A → result B E) :
  ErrsR P r → (∀ a, ErrsR P (k a)) → ErrsR P (and_then r k).
Proof. intros Hr Hk e. destruct r as [a|e']; [apply Hk|]. intros [= <-]. by apply Hr. Qed.
End results.

Section computations.
Context {S E : Type} (P : E → Prop).

#[export] Instance ret_errs {A} (a : A) : Errs (S:=S) P (ret a).
Proof. by intros s e s' [=]. Qed.
#[export] Instance gets_errs {A} (f : S → A) : Errs P (gets f).
Proof. by intros s e s' [=]. Qed.
#[export] Instance modify_errs (f : S → S) : Errs P (modify f).
Proof. by intros s e s' [=]. Qed.
#[export] Instance attempt_errs {F A} (m : M S F A) : Errs P (attempt m).
Proof. intros s e s'. unfold attempt. by destruct (m s). Qed.
Lemma fail_errs {A} e : P e → Errs (A:=A) P (fail (S:=S) e).
Proof. by intros He s e' s' [= <- <-]. Qed.
Lemma lift_errs {A} (r : result A E) : ErrsR P r → Errs P (lift (S:=S) r).
Proof. intros Hr s e s' [= -> ->]. by apply Hr. Qed.
Lemma map_error_errs {F A} (f : F → E) (m : M S F A) :
  (∀ e, P (f e)) → Errs P (map_error f m).
Proof.
  intros Hf s e s'. unfold map_error. destruct (m s) as [[a|e'] s1]; [done|].
  intros [= <- <-]. apply Hf.
Qed.
Lemma bind_errs {A B} (m : M S E A) (k : A → M S E B) :
  Errs P m → (∀ a, Errs P (k a)) → Errs P (bind m k).
Proof.
  intros Hm Hk s e s'. unfold bind. destruct (m s) as [[a|e'] s1] eqn:Hs; [apply Hk|].
  intros [= <- <-]. by eapply Hm.
Qed.
(** For the code that looks at an error and may return it. *)
Lemma bind_attempt_errs {A B} (m : M S E A) (k : result A E → M S E B) :
  Errs P m → (∀ a, Errs P (k (Ok a))) → (∀ e, P e → Errs P (k (Err e))) →
  Errs P (bind (attempt m) k).
Proof.
  intros Hm Hok Herr s e s'. unfold bind, attempt. destruct (m s) as [[a|e'] s1] eqn:Hs.
  - apply Hok.
  - eapply Herr, Hm, Hs.
Qed.
Lemma bind_result_errs {A B} (m : M S E (result A E)) (k : result A E → M S E B) :
  Errs P m → (∀ s e s', m s = (Ok (Err e), s') → P e) →
  (∀ a, Errs P (k (Ok a))) → (∀ e, P e → Errs P (k (Err e))) → Errs P (bind m k).
Proof.
  intros Hm Hyields Hok Herr s e s'. unfold bind. destruct (m s) as [[[a|e']|e'] s1] eqn:Hs.
  - apply Hok.
  - by eapply Herr, Hyields.
  - intros [= <- <-]. by eapply Hm.
Qed.
Lemma attempt_yields {F A} (m : M S E A) s e s' :
  Errs P m → attempt (F:=F) m s = (Ok (Err e), s') → P e.
Proof.
  intros Hm. unfold attempt. destruct (m s) as [[a|e'] s1] eqn:Hs; [done|].
  intros [= <- <-]. by eapply Hm.
Qed.
Lemma traverse_errs {A B} (f : A → M S E B) l :
  (∀ a, Errs P (f a)) → Errs P (traverse f l).
Proof.
  intros Hf. induction l as [|a l IH]; cbn [traverse]; [apply _|].
  apply bind_errs; [done|]. intros. apply bind_errs; [done|]. apply _.
Qed.
Lemma for_each_errs {A} (f : A → M S E unit) l :
  (∀ a, Errs P (f a)) → Errs P (for_each f l).
Proof.
  intros Hf. induction l as [|a l IH]; cbn [for_each]; [apply _|].
  by apply bind_errs.
Qed.
End computations.

Lemma zoom_errs {S T E A} (P : E → Prop) (get : T → S) (put : S → T → T) (m : M S E A) :
  Errs P m → Errs P (zoom get put m).
Proof.
  intros Hm t e t'. unfold zoom. destruct (m (get t)) as [r s] eqn:Hs. intros [= -> <-].
  by eapply Hm.
Qed.

Lemma errs_wp {S E A} (P : E → Prop) (m : M S E A) Q R s :
  Errs P m → wp m Q R s → wp m Q (λ e s, P e ∧ R e s) s.
Proof. intros Hm. unfold wp. destruct (m s) as [[a|e] s'] eqn:Hrun; [done|]. split; [by eapply Hm|done]. Qed.

(** The lemmas with premises, added below. *)
Ltac errs_lemma := fail.

Ltac errs_step :=
  first
    [ progress intros
    | progress cbv beta iota zeta
    | assumption
    | reflexivity
    | match goal with
      | |- Errs _ (match ?x with _ => _ end) => destruct x
      | |- ErrsR _ (match ?x with _ => _ end) => destruct x
      end
    | solve [apply _]
    | errs_lemma
    | lazymatch goal with
      | |- Errs _ (bind (attempt _) _) => first [apply bind_attempt_errs | apply bind_errs]
      | |- Errs _ (bind _ _) => apply bind_errs
      | |- Errs _ (fail _) => apply fail_errs
      | |- Errs _ (lift _) => apply lift_errs
      | |- Errs _ (map_error _ _) => apply map_error_errs
      | |- Errs _ (zoom _ _ _) => apply zoom_errs
      | |- Errs _ (traverse _ _) => apply traverse_errs
      | |- Errs _ (for_each _ _) => apply for_each_errs
      | |- ErrsR _ (Err _) => apply Err_errs
      | |- ErrsR _ (ok_or _ _) => apply ok_or_errs
      | |- ErrsR _ (ensure _ _) => apply ensure_errs
      | |- ErrsR _ (map_err _ _) => apply map_err_errs
      | |- ErrsR _ (and_then _ _) => apply and_then_errs
      end ].
Ltac solve_errs := repeat errs_step.
