(* ===== verification/Discovery.v ===== *)
(** * [agent-seat-mcp/src/discovery.rs]: which socket the companion connects to

    Exactly one source is looked at: the command line, then the environment, then the
    advertisement of the X11 selection owner, which must agree with the root window's. *)

From S2P Require Import Prelude Text Effects Protocol Advertisement.

Definition MAX_SOCKET_PATH_BYTES : Z := 107.
Definition MAX_PROPERTY_LONGS : Z := (MAX_ADVERTISEMENT_BYTES + 3) `div` 4 + 1.

Inductive DiscoveryError :=
| DiscoveryError_InvalidPath (source : string)
| DiscoveryError_X11 (error : string)
| DiscoveryError_Advertisement (error : AdvertisementError)
| DiscoveryError_AdvertisementShape (error : string)
| DiscoveryError_AdvertisementUtf8.

Definition DiscoveryError_code (self : DiscoveryError) : string :=
  match self with
  | DiscoveryError_InvalidPath _ => "invalid_argument"
  | DiscoveryError_Advertisement AdvertisementError_Revision => "incompatible_revision"
  | DiscoveryError_X11 _ => "unavailable"
  | DiscoveryError_Advertisement _ | DiscoveryError_AdvertisementShape _ | DiscoveryError_AdvertisementUtf8 =>
      "malformed"
  end.

Definition DiscoveryError_retry (self : DiscoveryError) : string :=
  match self with
  | DiscoveryError_InvalidPath _ | DiscoveryError_Advertisement AdvertisementError_Revision => "never"
  | _ => "reconnect"
  end.

(** [{error}] of an advertisement error *)
Definition AdvertisementError_to_string (self : AdvertisementError) : string :=
  match self with
  | AdvertisementError_TooLarge => "advertisement exceeds 256 bytes"
  | AdvertisementError_Fields => "advertisement must contain exactly three fields"
  | AdvertisementError_Protocol => "advertisement names another protocol"
  | AdvertisementError_Revision => "advertisement names an unsupported revision"
  | AdvertisementError_Socket => "advertisement socket is not a bounded absolute path"
  end.

Definition DiscoveryError_to_string (self : DiscoveryError) : string :=
  match self with
  | DiscoveryError_InvalidPath source => source +:+ " is not a bounded absolute socket path"
  | DiscoveryError_X11 error => "cannot inspect X11 Agent Seat discovery: " +:+ error
  | DiscoveryError_Advertisement error =>
      "invalid Agent Seat advertisement: " +:+ AdvertisementError_to_string error
  | DiscoveryError_AdvertisementShape error => "invalid Agent Seat advertisement: " +:+ error
  | DiscoveryError_AdvertisementUtf8 => "invalid Agent Seat advertisement: property is not UTF-8"
  end.

(** The reply of [GetProperty]; [type_] is 0 when there is no such property. *)
Record PropertyReply := {
  PropertyReply_type : Z;
  PropertyReply_format : Z;
  PropertyReply_bytes_after : Z;
  PropertyReply_value : bytes
}.

(** A connection of its own to the X server. *)
Class DiscoveryServer (W : Type) := {
  (** [std::env::var_os] *)
  environment : string → W → option str;
  (** [x11rb::connect(None)]: the index of the selected screen, and the root windows *)
  connect_x11 : M W string (Z * list Z);
  (** [intern_atom(true, name)] *)
  existing_atom : bytes → M W string Z;
  selection_owner : Z → M W string Z;
  (** [get_property(false, window, property, ANY, 0, longs)] *)
  window_property : Z → Z → Z → M W string PropertyReply
}.

Definition X_NONE : Z := 0.

Definition validate_path (path : str) (source : string) : result str DiscoveryError :=
  if is_empty path || negb (is_absolute path) || contains 0 path || (MAX_SOCKET_PATH_BYTES <? len path)
  then Err (DiscoveryError_InvalidPath source)
  else Ok path.

Section discovery.
Context {W : Type} `{DiscoveryServer W}.

Definition x11 {A} (m : M W string A) : M W DiscoveryError A := map_error DiscoveryError_X11 m.

Definition read_property (window property utf8 : Z) : M W DiscoveryError (option bytes) :=
  let! reply := x11 (window_property window property MAX_PROPERTY_LONGS) in
  if PropertyReply_type reply =? X_NONE then ret None
  else if negb (PropertyReply_type reply =? utf8) || negb (PropertyReply_format reply =? 8)
          || negb (PropertyReply_bytes_after reply =? 0)
          || (MAX_ADVERTISEMENT_BYTES <? len (PropertyReply_value reply))
  then fail (DiscoveryError_AdvertisementShape "property type, format, or size is invalid")
  else ret (Some (PropertyReply_value reply)).

(** The end of [discover_x11], for the value both windows hold. *)
Definition advertised_path (value : bytes) : result str DiscoveryError :=
  if negb (utf8_valid value) then Err DiscoveryError_AdvertisementUtf8
  else
    let? advertisement := map_err DiscoveryError_Advertisement (Advertisement_parse value) in
    validate_path (Advertisement_socket advertisement) "_AGENT_SEAT".

Definition discover_x11 : M W DiscoveryError (option str) :=
  let! display := gets (environment "DISPLAY") in
  if match display with Some display => is_empty display | None => true end then ret None
  else
    let! '(screen_index, roots) := x11 connect_x11 in
    let! root := lift (ok_or (nth_error roots (Z.to_nat screen_index))
                         (DiscoveryError_X11 "selected screen is absent")) in
    let! selection := x11 (existing_atom (bstr "_AGENT_SEAT_S" ++ to_dec screen_index)) in
    if selection =? X_NONE then ret None
    else
      let! owner := x11 (selection_owner selection) in
      if owner =? X_NONE then ret None
      else
        let! property := x11 (existing_atom (bstr "_AGENT_SEAT")) in
        let! utf8 := x11 (existing_atom (bstr "UTF8_STRING")) in
        if (property =? X_NONE) || (utf8 =? X_NONE) then ret None
        else
          let! owner_value := read_property owner property utf8 in
          match owner_value with
          | None => ret None
          | Some owner_value =>
              let! root_value := read_property root property utf8 in
              match root_value with
              | None => ret None
              | Some root_value =>
                  if bool_decide (owner_value ≠ root_value) then ret None
                  else
                    let! current_owner := x11 (selection_owner selection) in
                    if negb (current_owner =? owner) then ret None
                    else let! path := lift (advertised_path root_value) in ret (Some path)
              end
          end.

(** The first source that is given decides. *)
Definition resolve (explicit : option str) : M W DiscoveryError (option str) :=
  match explicit with
  | Some path => let! path := lift (validate_path path "--socket") in ret (Some path)
  | None =>
      let! socket := gets (environment "AGENT_SEAT_SOCKET") in
      match socket with
      | Some path => let! path := lift (validate_path path "AGENT_SEAT_SOCKET") in ret (Some path)
      | None => discover_x11
      end
  end.
End discovery.
