(* ===== verification/Ownership.v ===== *)
(** * [agent-seat-x11/src/ownership.rs]: the selection and the advertisement

    One provider owns the selection of a screen; the owner's window and the root window
    carry the same advertisement.  Claiming and withdrawing happen under a server grab. *)

From S2P Require Import Prelude Text Effects Protocol Advertisement Discovery.

Definition ADVERTISEMENT_PROPERTY : str := bstr "_AGENT_SEAT".

(** What [poll_for_event] returns, as far as it is looked at. *)
Inductive OwnershipEvent :=
| OwnershipEvent_SelectionClear (selection owner : Z)
| OwnershipEvent_Other.

(** The further requests of the provider's connection; those the code checks fail when the
    server answers with an error. *)
Class OwnershipServer (W : Type) `{DiscoveryServer W} := {
  (** [intern_atom(false, name)] *)
  intern_atom : bytes → M W string Z;
  generate_id : M W string Z;
  (** an input-only window below the root *)
  create_window : Z → Z → M W string unit;
  destroy_window : Z → M W string unit;
  grab_server : M W string unit;
  ungrab_server : M W string unit;
  flush : M W string unit;
  (** [set_selection_owner(owner, selection, CURRENT_TIME)] *)
  set_selection_owner : Z → Z → M W string unit;
  (** [change_property8(REPLACE, window, property, type, data)] *)
  change_property8 : Z → Z → Z → bytes → M W string unit;
  delete_property : Z → Z → M W string unit;
  poll_for_event : M W string (option OwnershipEvent)
}.

Record Ownership := {
  Ownership_screen : Z;
  Ownership_root : Z;
  Ownership_owner : Z;
  Ownership_selection : Z;
  Ownership_property : Z;
  Ownership_active : bool
}.

Section ownership.
Context {W : Type} `{OwnershipServer W}.

(** [map_err(x11_error)] *)
Definition x11_error {A} (m : M W string A) : M W string A :=
  map_error (λ error, "X11 provider ownership failed: " +:+ error) m.
Definition prefixed {A} (prefix : string) (m : M W string A) : M W string A :=
  map_error (λ error, prefix +:+ ": " +:+ error) m.
(** [let _ = ..] *)
Definition unchecked {A} (m : M W string A) : M W string unit := let! _ := attempt m in ret tt.

Definition selection_name (screen : Z) : bytes := bstr "_AGENT_SEAT_S" ++ to_dec screen.

Definition intern (name : bytes) : M W string Z := x11_error (intern_atom name).
Definition lookup (name : bytes) : M W string Z := x11_error (existing_atom name).

(** The request, its outcome after the requests that end a grab: [a.and(b)]. *)
Definition claim_selection (selection owner : Z) : M W string unit :=
  x11_error grab_server ;!
  let! claim := attempt (
    let! current := x11_error (selection_owner selection) in
    if negb (current =? X_NONE)
    then fail "another Agent Seat provider already owns this X11 screen"%string
    else
      x11_error (set_selection_owner owner selection) ;!
      let! current := x11_error (selection_owner selection) in
      if negb (current =? owner)
      then fail "Agent Seat selection ownership could not be established"%string
      else ret tt) in
  let! ungrab := attempt (x11_error ungrab_server) in
  let! flushed := attempt (x11_error flush) in
  lift (claim ;? ungrab ;? flushed).

Definition release (root owner selection property : Z) : M W string unit :=
  x11_error grab_server ;!
  let! withdrawal := attempt (
    let! current := x11_error (selection_owner selection) in
    if negb (current =? owner)
    then fail "Agent Seat selection was lost before withdrawal"%string
    else
      x11_error (delete_property root property) ;!
      x11_error (delete_property owner property) ;!
      x11_error (set_selection_owner X_NONE selection)) in
  let! destroy := attempt (x11_error (destroy_window owner)) in
  let! ungrab := attempt (x11_error ungrab_server) in
  let! flushed := attempt (x11_error flush) in
  lift (withdrawal ;? destroy ;? ungrab ;? flushed).

(** The loop over the two windows. *)
Fixpoint advertise (windows : list Z) (root owner selection property utf8 : Z) (advertisement : bytes)
  : M W string unit :=
  match windows with
  | [] => ret tt
  | window :: windows =>
      let! changed := attempt (x11_error (change_property8 window property utf8 advertisement)) in
      match changed with
      | Err error => unchecked (release root owner selection property) ;! fail error
      | Ok _ => advertise windows root owner selection property utf8 advertisement
      end
  end.

Definition Ownership_claim (socket : str) : M W string Ownership :=
  if negb (utf8_valid socket) then fail "socket path must be UTF-8"%string
  else
    let! advertisement := lift (map_err (λ error, "cannot advertise provider: "
                                                  +:+ AdvertisementError_to_string error)
                                  (Advertisement_new socket)) in
    let advertisement := Advertisement_encode advertisement in
    let! '(screen, roots) := prefixed "cannot connect to selected X11 display" connect_x11 in
    let! root := lift (ok_or (nth_error roots (Z.to_nat screen)) "selected X11 screen is absent"%string) in
    let! selection := intern (selection_name screen) in
    let! property := intern ADVERTISEMENT_PROPERTY in
    let! utf8 := intern (bstr "UTF8_STRING") in
    let! owner := prefixed "cannot allocate X11 owner window" generate_id in
    x11_error (create_window owner root) ;!
    let! claimed := attempt (claim_selection selection owner) in
    match claimed with
    | Err error => unchecked (destroy_window owner) ;! unchecked flush ;! fail error
    | Ok _ =>
        advertise [owner; root] root owner selection property utf8 advertisement ;!
        x11_error flush ;!
        ret {| Ownership_screen := screen; Ownership_root := root; Ownership_owner := owner;
               Ownership_selection := selection; Ownership_property := property;
               Ownership_active := true |}
    end.

(** The events that wait; their number is bounded by the fuel, of which [None] is the end. *)
Fixpoint lost (fuel : nat) (self : Ownership) : M W string (option bool) :=
  match fuel with
  | O => ret None
  | S fuel =>
      let! event := x11_error poll_for_event in
      match event with
      | None => ret (Some false)
      | Some (OwnershipEvent_SelectionClear selection owner) =>
          if (selection =? Ownership_selection self) && (owner =? Ownership_owner self)
          then ret (Some true) else lost fuel self
      | Some OwnershipEvent_Other => lost fuel self
      end
  end.

Definition release_of (self : Ownership) : M W string unit :=
  release (Ownership_root self) (Ownership_owner self) (Ownership_selection self) (Ownership_property self).

Definition inactive (self : Ownership) : Ownership :=
  {| Ownership_screen := Ownership_screen self; Ownership_root := Ownership_root self;
     Ownership_owner := Ownership_owner self; Ownership_selection := Ownership_selection self;
     Ownership_property := Ownership_property self; Ownership_active := false |}.

(** The result, with the owner that is left. *)
Definition withdraw (self : Ownership) : M W string (result unit string * Ownership) :=
  let! released := attempt (release_of self) in ret (released, inactive self).

(** [impl Drop for Ownership] *)
Definition drop_ownership (self : Ownership) : M W string unit :=
  if Ownership_active self then unchecked (release_of self) else ret tt.

Definition selected_screen : M W string Z :=
  let! '(screen, _) := prefixed "cannot connect to selected X11 display" connect_x11 in ret screen.

Definition read_advertisement (window property utf8 : Z) : M W string bytes :=
  let! reply := x11_error (window_property window property MAX_PROPERTY_LONGS) in
  if negb (PropertyReply_type reply =? utf8) || negb (PropertyReply_format reply =? 8)
     || negb (PropertyReply_bytes_after reply =? 0)
     || (MAX_ADVERTISEMENT_BYTES <? len (PropertyReply_value reply))
  then fail "the X11 Agent Seat advertisement has invalid type, format, or size"%string
  else ret (PropertyReply_value reply).

(** What the two windows hold, as a socket. *)
Definition advertised_path_of (root_value : bytes) : result str string :=
  if negb (utf8_valid root_value) then Err "the X11 Agent Seat advertisement is not UTF-8"%string
  else
    let? advertisement := map_err (λ error, "invalid X11 Agent Seat advertisement: "
                                            +:+ AdvertisementError_to_string error)
                            (Advertisement_parse root_value) in
    Ok (Advertisement_socket advertisement).

Definition advertised_socket : M W string str :=
  let! '(screen, roots) := prefixed "cannot inspect X11 Agent Seat discovery" connect_x11 in
  let! root := lift (ok_or (nth_error roots (Z.to_nat screen))
                       "cannot inspect X11 Agent Seat discovery: selected screen is absent"%string) in
  let! selection := lookup (selection_name screen) in
  if selection =? X_NONE
  then fail "no Agent Seat provider is advertised on the selected X11 screen"%string
  else
    let! owner := x11_error (selection_owner selection) in
    if owner =? X_NONE
    then fail "no Agent Seat provider is advertised on the selected X11 screen"%string
    else
      let! property := lookup ADVERTISEMENT_PROPERTY in
      let! utf8 := lookup (bstr "UTF8_STRING") in
      if (property =? X_NONE) || (utf8 =? X_NONE)
      then fail "the selected X11 screen has no Agent Seat advertisement atoms"%string
      else
        let! owner_value := read_advertisement owner property utf8 in
        let! root_value := read_advertisement root property utf8 in
        if bool_decide (owner_value ≠ root_value)
        then fail "the X11 Agent Seat advertisements do not match"%string
        else
          let! current_owner := x11_error (selection_owner selection) in
          if negb (current_owner =? owner)
          then fail "the X11 Agent Seat provider changed during discovery"%string
          else lift (advertised_path_of root_value).
End ownership.
