(* ===== verification/OwnershipTheorems.v ===== *)
(** * Properties of the provider's selection and advertisement

    The display as the X server sees it: the atoms, the owners of selections and the
    properties of windows.  [DisplayLaws] says what each request does to it; a request that
    fails does nothing, and nobody else changes the display meanwhile.  What a provider
    claims is what the companion and the control client discover, until it is withdrawn. *)

From stdpp Require Import gmap.
From S2P Require Import Prelude Text Effects Protocol Advertisement Discovery Ownership.

(** ** The display *)

Record Display := {
  screens : Z * list Z;
  atoms : gmap bytes Z;
  owners : gmap Z Z;
  properties : gmap (Z * Z) (Z * bytes)
}.

Definition with_atom (name : bytes) (atom : Z) (d : Display) : Display :=
  {| screens := screens d; atoms := <[name := atom]> (atoms d); owners := owners d; properties := properties d |}.
Definition with_owners (f : gmap Z Z → gmap Z Z) (d : Display) : Display :=
  {| screens := screens d; atoms := atoms d; owners := f (owners d); properties := properties d |}.
Definition with_properties (f : gmap (Z * Z) (Z * bytes) → gmap (Z * Z) (Z * bytes)) (d : Display) : Display :=
  {| screens := screens d; atoms := atoms d; owners := owners d; properties := f (properties d) |}.

Definition owner_of (selection : Z) (d : Display) : Z := default X_NONE (owners d !! selection).

(** A window that no client has used. *)
Definition unused_window (window : Z) (d : Display) : Prop :=
  window ≠ X_NONE ∧ window ∉ (screens d).2 ∧ map_Forall (λ _ owner, owner ≠ window) (owners d) ∧
  map_Forall (λ place _, place.1 ≠ window) (properties d).

(** Its properties go, and the selections it owns are free. *)
Definition without_window (window : Z) (d : Display) : Display :=
  with_owners (filter (λ p, p.2 ≠ window)) (with_properties (filter (λ p, p.1.1 ≠ window)) d).

(** At most [longs] times four bytes of it, from the start. *)
Definition property_reply (longs : Z) (value : option (Z * bytes)) : PropertyReply :=
  match value with
  | None => {| PropertyReply_type := X_NONE; PropertyReply_format := 0; PropertyReply_bytes_after := 0;
               PropertyReply_value := [] |}
  | Some (type, data) =>
      {| PropertyReply_type := type; PropertyReply_format := 8;
         PropertyReply_bytes_after := len data - len (take (Z.to_nat (4 * longs)) data);
         PropertyReply_value := take (Z.to_nat (4 * longs)) data |}
  end.

Class DisplayLaws (W : Type) `{OwnershipServer W} := {
  display : W → Display;
  connect_law : performs display connect_x11 (looks (λ d r, r = screens d));
  existing_atom_law name :
    performs display (existing_atom name) (looks (λ d a, a = default X_NONE (atoms d !! name)));
  intern_atom_law name : performs display (intern_atom name)
    (changes (λ d a d', a ≠ X_NONE ∧
       ((atoms d !! name = Some a ∧ d' = d) ∨ (atoms d !! name = None ∧ d' = with_atom name a d))));
  generate_id_law : performs display generate_id (looks (λ d window, unused_window window d));
  create_window_law window root : performs display (create_window window root) (looks (λ _ _, True));
  destroy_window_law window : performs display (destroy_window window)
    (changes (λ d _ d', d' = without_window window d));
  grab_server_law : performs display grab_server (looks (λ _ _, True));
  ungrab_server_law : performs display ungrab_server (looks (λ _ _, True));
  flush_law : performs display flush (looks (λ _ _, True));
  selection_owner_law selection : performs display (selection_owner selection)
    (looks (λ d owner, owner = owner_of selection d));
  set_selection_owner_law owner selection : performs display (set_selection_owner owner selection)
    (changes (λ d _ d', d' = with_owners (if owner =? X_NONE then delete selection else insert selection owner) d));
  change_property8_law window property type data : performs display (change_property8 window property type data)
    (changes (λ d _ d', d' = with_properties (insert (window, property) (type, data)) d));
  delete_property_law window property : performs display (delete_property window property)
    (changes (λ d _ d', d' = with_properties (delete (window, property)) d));
  window_property_law window property longs : performs display (window_property window property longs)
    (looks (λ d reply, reply = property_reply longs (properties d !! (window, property))))
}.

(** ** Requests on the display *)

Section display.
Context {W : Type} `{DisplayLaws W}.

(** From a display with [P]: when it returns, [Q]; when it fails, [R]. *)
Definition asks {E A} (m : M W E A) (P : Display → Prop) (Q : A → Display → Prop) (R : Display → Prop) : Prop :=
  ∀ w, P (display w) → wp m (λ a w', Q a (display w')) (λ _ w', R (display w')) w.

Lemma asks_mono {E A} (m : M W E A) (P P' : Display → Prop) (Q Q' : A → Display → Prop) (R R' : Display → Prop) :
  asks m P Q R → (∀ d, P' d → P d) → (∀ a d, Q a d → Q' a d) → (∀ d, R d → R' d) → asks m P' Q' R'.
Proof. intros Hm HP HQ HR w Hw. eapply wp_mono; [by apply Hm, HP|naive_solver..]. Qed.
Lemma asks_ret {E A} (a : A) (P : Display → Prop) (Q : A → Display → Prop) R :
  (∀ d, P d → Q a d) → asks (E:=E) (ret a) P Q R.
Proof. intros HQ w Hw. apply wp_ret. auto. Qed.
Lemma asks_fail {E A} (e : E) (P R : Display → Prop) (Q : A → Display → Prop) :
  (∀ d, P d → R d) → asks (fail e) P Q R.
Proof. intros HR w Hw. apply wp_fail. auto. Qed.
Lemma asks_bind {E A B} (m : M W E A) (k : A → M W E B) P (Q : A → Display → Prop) S (R : Display → Prop) :
  asks m P Q R → (∀ a, asks (k a) (Q a) S R) → asks (bind m k) P S R.
Proof. intros Hm Hk w Hw. apply wp_bind. eapply wp_mono; [by apply Hm|intros a w' Ha; by apply Hk|done]. Qed.
Lemma asks_lift {E A B} (r : result A E) (k : A → M W E B) P (Q : B → Display → Prop) (R : Display → Prop) :
  (∀ d, P d → R d) → (∀ a, r = Ok a → asks (k a) P Q R) → asks (bind (lift r) k) P Q R.
Proof. intros HR Hk w Hw. destruct r as [a|e]; [by apply Hk|by apply HR]. Qed.
Lemma asks_given {E A} (X : Prop) (m : M W E A) (P R : Display → Prop) (Q : A → Display → Prop) :
  (∀ d, P d → X) → (X → asks m P Q R) → asks m P Q R.
Proof. intros HX Hm w Hw. apply Hm; [by eapply HX|done]. Qed.
Lemma asks_attempt {E F A} (m : M W E A) P (Q : A → Display → Prop) R T :
  asks m P Q R → asks (E:=F) (attempt m) P (λ r, match r with Ok a => Q a | Err _ => R end) T.
Proof. intros Hm w Hw. apply wp_attempt. by apply Hm. Qed.
Lemma asks_map_error {E F A} (f : E → F) (m : M W E A) P (Q : A → Display → Prop) R :
  asks m P Q R → asks (map_error f m) P Q R.
Proof. intros Hm w Hw. apply wp_map_error. by apply Hm. Qed.
Lemma asks_unchecked {A} (m : M W string A) P (Q R : Display → Prop) :
  asks m P (λ _, Q) (λ d, Q d) → asks (unchecked m) P (λ _, Q) R.
Proof.
  intros Hm. eapply asks_bind; [apply (asks_attempt _ _ _ _ R Hm)|]. intros [a|e]; by apply asks_ret.
Qed.

Lemma asks_looks {E A} (m : M W E A) sees (P : Display → Prop) :
  performs display m (looks sees) → asks m P (λ a d, P d ∧ sees d a) P.
Proof. intros Hm w Hw. eapply wp_looks; [exact Hm|..]; cbn; intros ? w' ->; [done|done]. Qed.
Lemma asks_changes {E A} (m : M W E A) does (P : Display → Prop) (Q : A → Display → Prop) :
  performs display m (changes does) → (∀ d a d', P d → does d a d' → Q a d') → asks m P Q P.
Proof. intros Hm HQ w Hw. eapply wp_changes; [exact Hm|by eauto|intros e w' Hv; by rewrite Hv]. Qed.

(** A checked request of which the display is not changed, and the rest. *)
Lemma asks_look {E F A B} (f : E → F) (m : M W E A) (k : A → M W F B) sees P (Q : B → Display → Prop)
    (R : Display → Prop) :
  performs display m (looks sees) → (∀ d, P d → R d) →
  (∀ a, asks (k a) (λ d, P d ∧ sees d a) Q R) → asks (bind (map_error f m) k) P Q R.
Proof.
  intros Hm HR Hk. eapply asks_bind; [|exact Hk]. apply asks_map_error.
  eapply asks_mono; [exact (asks_looks m sees P Hm)|auto..].
Qed.
Lemma asks_quiet {E F A} (f : E → F) (m : M W E A) sees P :
  performs display m (looks sees) → asks (map_error f m) P (λ _, P) P.
Proof. intros Hm. apply asks_map_error. eapply asks_mono; [exact (asks_looks m sees P Hm)|naive_solver..]. Qed.

Lemma asks_ended (combine : result unit string → result unit string → result unit string) P :
  asks (let! ungrab := attempt (x11_error ungrab_server) in
        let! flushed := attempt (x11_error flush) in
        lift (combine ungrab flushed)) P (λ _ d, P d ∧ ∃ ungrab flushed, combine ungrab flushed = Ok tt) P.
Proof.
  apply (asks_bind _ _ _ (λ _, P)).
  { eapply asks_mono; [eapply (asks_attempt _ P (λ _, P) P), asks_quiet, ungrab_server_law|done|by intros []|done]. }
  intros ungrab. apply (asks_bind _ _ _ (λ _, P)).
  { eapply asks_mono; [eapply (asks_attempt _ P (λ _, P) P), asks_quiet, flush_law|done|by intros []|done]. }
  intros flushed w Hw. apply wp_lift; [|done]. intros [] Hr. eauto.
Qed.

(** ** Claiming *)

(** The selection of the screen has an owner. *)
Definition taken (d : Display) : Prop :=
  ∃ selection, atoms d !! selection_name (screens d).1 = Some selection ∧ owner_of selection d ≠ X_NONE.

(** What a claim that fails leaves of [d0]. *)
Definition spared (d0 d : Display) : Prop :=
  (∀ selection, owner_of selection d0 ≠ X_NONE → owner_of selection d = owner_of selection d0) ∧
  (taken d0 → properties d = properties d0).

Lemma owner_of_without selection window d :
  owner_of selection (without_window window d) =
  if decide (owner_of selection d = window) then X_NONE else owner_of selection d.
Proof.
  unfold owner_of. cbn. destruct (owners d !! selection) as [o|] eqn:Ho; cbn.
  - case_decide as Hne.
    + rewrite (proj2 (map_lookup_filter_None _ _ _)); [done|]. right. intros x Hx []. cbn. congruence.
    + by rewrite (proj2 (map_lookup_filter_Some _ _ _ o)).
  - rewrite (proj2 (map_lookup_filter_None _ _ _)); [|by left]. by case_decide.
Qed.

Lemma without_unused window d : unused_window window d → without_window window d = d.
Proof.
  intros (_ & _ & Howners & Hproperties). destruct d as [s a o p]. unfold without_window, with_owners, with_properties.
  cbn in *. f_equal; apply map_filter_id; intros i x Hx; [by apply (Howners i)|by apply (Hproperties i x)].
Qed.

Section claim.
Context (d0 : Display).

(** Only atoms were added, and these names have them. *)
Definition grown (known : list (bytes * Z)) (d : Display) : Prop :=
  screens d = screens d0 ∧ owners d = owners d0 ∧ properties d = properties d0 ∧
  atoms d0 ⊆ atoms d ∧ Forall (λ p, atoms d !! p.1 = Some p.2 ∧ p.2 ≠ X_NONE) known.

Lemma grown_spared known d : grown known d → spared d0 d.
Proof. intros (_ & Ho & Hp & _). unfold spared, owner_of. by rewrite Ho, Hp. Qed.

Lemma intern_asks name known :
  asks (intern name) (grown known) (λ atom, grown ((name, atom) :: known)) (grown known).
Proof.
  apply asks_map_error. eapply asks_changes; [apply intern_atom_law|].
  intros d a d' (Hs & Ho & Hp & Ha & Hknown) [Hnone [[Hname ->]|[Hname ->]]].
  - split_and!; [done..|]. by constructor.
  - split_and!; [done..| |].
    + cbn. etrans; [exact Ha|]. by apply insert_subseteq.
    + constructor; cbn; [by rewrite lookup_insert_eq|]. eapply Forall_impl; [exact Hknown|].
      intros [n b] [Hb Hb']. cbn in *. split; [|done]. rewrite lookup_insert_ne; [done|]. by intros ->; congruence.
Qed.

Context (known : list (bytes * Z)) (selection owner : Z).
Hypothesis selection_known : (selection_name (screens d0).1, selection) ∈ known.

Definition before_claim (d : Display) : Prop := grown known d ∧ unused_window owner d.
(** The selection was free and is the provider's. *)
Definition after_claim (d : Display) : Prop :=
  ∃ d', before_claim d' ∧ owner_of selection d' = X_NONE ∧ d = with_owners (insert selection owner) d'.

Lemma claim_selection_asks :
  asks (claim_selection selection owner) before_claim (λ _, after_claim) (λ d, before_claim d ∨ after_claim d).
Proof.
  unfold claim_selection.
  eapply asks_look; [apply grab_server_law|by left|]. intros [].
  apply (asks_bind _ _ _ (λ r, match r with Ok _ => after_claim | Err _ => λ d, before_claim d ∨ after_claim d end)).
  - apply (asks_attempt _ _ (λ _, after_claim)).
    eapply asks_look; [apply selection_owner_law|intros d [Hd _]; by left|]. intros current.
    destruct (Z.eqb_spec current X_NONE) as [->|]; cbn [negb]; [|apply asks_fail; intros d [[Hd _] _]; by left].
    apply (asks_bind _ _ _ (λ _, after_claim)).
    { apply asks_map_error. eapply asks_mono;
        [apply (asks_changes _ _ (λ d, before_claim d ∧ owner_of selection d = X_NONE) (λ _, after_claim)
                  (set_selection_owner_law _ _))|..].
      - intros d [] d' [Hd Hfree] ->. exists d. split; [done|]. split; [done|]. pose proof Hd as [_ [Hne _]].
        by rewrite (proj2 (Z.eqb_neq _ _)).
      - intros d [[Hd _] ->]. done.
      - by intros [] d Hd.
      - intros d []. by left. }
    intros [].
    eapply asks_look; [apply selection_owner_law|by right|]. intros current.
    destruct (negb (current =? owner)); [apply asks_fail; intros d []; by right|apply asks_ret; by intros d []].
  - intros claim. eapply asks_mono; [apply (asks_ended (λ ungrab flushed, claim ;? ungrab ;? flushed))|intros d Hd; exact Hd|..]; cbn beta.
    + by destruct claim as [[]|]; intros [] d [Hd (u & f & Hr)].
    + intros d. destruct claim; [by right|done].
Qed.

(** Whatever the provider does afterwards concerns only its selection, which was free. *)
Definition own (d : Display) : Prop :=
  owner_of selection d0 = X_NONE ∧ ¬ taken d0 ∧ (∀ s, owner_of s d0 ≠ owner) ∧
  ∀ s, s ≠ selection → owner_of s d = owner_of s d0.

Lemma own_spared d : own d → spared d0 d.
Proof. intros (Hfree & Htaken & _ & Hother). split; [|done]. intros s Hs. apply Hother. by intros ->. Qed.

Lemma before_owners d : before_claim d → ∀ s, owner_of s d = owner_of s d0.
Proof. intros [(_ & Ho & _) _] s. unfold owner_of. by rewrite Ho. Qed.
Lemma before_unused d : before_claim d → ∀ s, owner_of s d0 ≠ owner.
Proof.
  intros Hd s. rewrite <- (before_owners d Hd). destruct Hd as [_ (Hne & _ & Howners & _)]. unfold owner_of.
  destruct (owners d !! s) as [o|] eqn:Hs; cbn; [by apply (Howners s)|by apply not_eq_sym].
Qed.

Lemma after_own d : after_claim d → own d.
Proof.
  intros (d' & Hd & Hfree & ->). rewrite (before_owners d' Hd) in Hfree. split_and!; [done| |by eapply before_unused|].
  - intros (s & Hs & Hne). destruct Hd as [(_ & _ & _ & Hatoms & Hknown) _].
    rewrite Forall_forall in Hknown. destruct (Hknown _ selection_known) as [Hsel _]. cbn [fst snd] in Hsel.
    apply (lookup_weaken _ _ _ _ Hs) in Hatoms. rewrite Hsel in Hatoms. injection Hatoms as ->. by apply Hne.
  - intros s Hne. rewrite <- (before_owners d' Hd). unfold owner_of. cbn. by rewrite lookup_insert_ne.
Qed.

Lemma own_step d d' : own d → (∀ s, s ≠ selection → owner_of s d' = owner_of s d) → own d'.
Proof. intros (? & ? & ? & Hother) Hd. split_and!; [done..|]. intros s Hs. by rewrite Hd, Hother. Qed.
Lemma own_without d : own d → own (without_window owner d).
Proof.
  intros Hd. pose proof Hd as (_ & _ & Hne & Hother). eapply own_step; [done|]. intros s Hs.
  rewrite owner_of_without. case_decide as Heq; [|done]. rewrite Hother in Heq by done. by destruct (Hne s).
Qed.
Lemma own_properties f d : own d → own (with_properties f d).
Proof. intros Hd. by eapply own_step. Qed.

Lemma own_asks {A} (m : M W string A) does :
  performs display m (changes does) → (∀ d a d', own d → does d a d' → own d') →
  asks (x11_error m) own (λ _, own) own.
Proof. intros Hm Hdoes. apply asks_map_error. eapply asks_changes; [exact Hm|exact Hdoes]. Qed.

Lemma release_own root property : asks (release root owner selection property) own (λ _, own) own.
Proof.
  unfold release. eapply asks_look; [apply grab_server_law|done|]. intros [].
  apply (asks_bind _ _ _ (λ _, own)).
  { eapply asks_mono; [apply (asks_attempt _ own (λ _, own) own own)|by intros d []|by intros []|done].
    eapply asks_look; [apply selection_owner_law|done|]. intros current.
    eapply asks_mono with (P := own) (Q := λ _, own) (R := own); [|by intros d []|done..].
    destruct (negb (current =? owner)); [by apply asks_fail|].
    do 2 (apply (asks_bind _ _ _ (λ _, own));
      [eapply own_asks; [apply delete_property_law|intros d [] d' Hd ->; by apply own_properties]|intros []]).
    eapply own_asks; [apply set_selection_owner_law|]. intros d [] d' Hd ->. eapply own_step; [done|].
    intros s Hs. unfold owner_of. cbn. by rewrite lookup_delete_ne. }
  intros withdrawal. apply (asks_bind _ _ _ (λ _, own)).
  { eapply asks_mono; [apply (asks_attempt _ own (λ _, own) own own)|done|by intros []|done].
    eapply own_asks; [apply destroy_window_law|]. intros d [] d' Hd ->. by apply own_without. }
  intros destroy. eapply asks_mono;
    [apply (asks_ended (λ ungrab flushed, withdrawal ;? destroy ;? ungrab ;? flushed) own)|done|by intros ? d []|done].
Qed.

Lemma advertise_asks root property utf8 value :
  asks (advertise [owner; root] root owner selection property utf8 value) after_claim
    (λ _ d, ∃ d', after_claim d' ∧
       d = with_properties (insert (root, property) (utf8, value) ∘ insert (owner, property) (utf8, value)) d') own.
Proof.
  assert (∀ error (Q : unit → Display → Prop),
    asks (unchecked (release root owner selection property) ;! fail error : M W string unit) own Q own) as Hrelease.
  { intros error Q. apply (asks_bind _ _ _ (λ _, own)); [apply asks_unchecked, release_own|].
    intros []. by apply asks_fail. }
  set (step window d := with_properties (insert (window, property) (utf8, value)) d).
  assert (∀ window (P : Display → Prop), (∀ d, P d → own d) →
    asks (attempt (x11_error (change_property8 window property utf8 value)) : M W string _) P
      (λ r d, match r with Ok _ => ∃ d', P d' ∧ d = step window d' | Err _ => own d end) own) as Hchange.
  { intros window P HP. eapply asks_mono; [eapply (asks_attempt _ P (λ _ d, ∃ d', P d' ∧ d = step window d') P own)|done| |done].
    - apply asks_map_error. eapply asks_changes; [apply change_property8_law|]. intros d [] d' Hd ->. eauto.
    - intros [[]|e] d Hd; [done|by apply HP]. }
  cbn [advertise]. eapply asks_bind; [apply Hchange; intros d; apply after_own|]. intros [[]|e]; [|apply Hrelease].
  eapply asks_bind; [apply Hchange|].
  - intros d (d' & Hd' & ->). by apply own_properties, after_own.
  - intros [[]|e]; [|apply Hrelease]. apply asks_ret. intros d (? & (d' & Hd' & ->) & ->). by exists d'.
Qed.
End claim.

(** The provider [self] owns the selection, and both windows carry its socket. *)
Record advertised (self : Ownership) (socket : str) (d : Display) : Prop := {
  advertised_ok : socket_ok socket ∧ utf8_valid socket = true;
  advertised_screen : (screens d).1 = Ownership_screen self;
  advertised_root : nth_error (screens d).2 (Z.to_nat (Ownership_screen self)) = Some (Ownership_root self);
  advertised_selection : atoms d !! selection_name (Ownership_screen self) = Some (Ownership_selection self);
  advertised_property : atoms d !! ADVERTISEMENT_PROPERTY = Some (Ownership_property self);
  advertised_nonzero :
    Ownership_selection self ≠ X_NONE ∧ Ownership_property self ≠ X_NONE ∧ Ownership_owner self ≠ X_NONE;
  advertised_owner : owner_of (Ownership_selection self) d = Ownership_owner self;
  advertised_values : ∃ utf8, utf8 ≠ X_NONE ∧ atoms d !! bstr "UTF8_STRING" = Some utf8 ∧
    ∀ window, window ∈ [Ownership_owner self; Ownership_root self] →
      properties d !! (window, Ownership_property self)
      = Some (utf8, Advertisement_encode {| Advertisement_socket := socket |})
}.

Definition claimed (d0 : Display) (socket : str) (self : Ownership) (d : Display) : Prop :=
  advertised self socket d ∧ Ownership_active self = true ∧
  owner_of (Ownership_selection self) d0 = X_NONE ∧
  ∀ selection, selection ≠ Ownership_selection self → owner_of selection d = owner_of selection d0.

Lemma claimed_advertised d0 known socket selection property utf8 owner root d :
  socket_ok socket → utf8_valid socket = true → nth_error (screens d0).2 (Z.to_nat (screens d0).1) = Some root →
  known = [(bstr "UTF8_STRING", utf8); (ADVERTISEMENT_PROPERTY, property); (selection_name (screens d0).1, selection)] →
  after_claim d0 known selection owner d →
  claimed d0 socket
    {| Ownership_screen := (screens d0).1; Ownership_root := root; Ownership_owner := owner;
       Ownership_selection := selection; Ownership_property := property; Ownership_active := true |}
    (with_properties (insert (root, property) (utf8, Advertisement_encode {| Advertisement_socket := socket |})
                      ∘ insert (owner, property) (utf8, Advertisement_encode {| Advertisement_socket := socket |})) d).
Proof.
  intros Hsocket Hutf8 Hroot -> Hd.
  assert (own d0 selection owner d) as (Hfree & _ & _ & Hother).
  { eapply after_own; [|exact Hd]. set_solver. }
  destruct Hd as (d' & ((Hs & _ & _ & _ & Hknown) & Hne & _) & _ & ->).
  apply Forall_cons in Hknown as [[Hu Hu0] [[Hp Hp0] [[Hsel Hsel0] _]%Forall_cons]%Forall_cons].
  split; [|done]. split; try done; cbn [Ownership_screen Ownership_root Ownership_owner Ownership_selection Ownership_property].
  - by cbn; rewrite Hs.
  - by cbn; rewrite Hs.
  - unfold owner_of. cbn. by rewrite lookup_insert_eq.
  - exists utf8. split; [done|]. split; [done|]. intros window Hw. cbn.
    apply elem_of_cons in Hw as [->|Hw%list_elem_of_singleton]; [|subst; by rewrite lookup_insert_eq].
    destruct (decide (root = owner)) as [->|]; [by rewrite lookup_insert_eq|].
    rewrite lookup_insert_ne, lookup_insert_eq by congruence. done.
Qed.

Lemma Ownership_claim_asks d0 socket :
  asks (Ownership_claim socket) (λ d, d = d0) (claimed d0 socket) (spared d0).
Proof.
  assert (spared d0 d0) as Hsame by (by split).
  unfold Ownership_claim. destruct (utf8_valid socket) eqn:Hutf8; [|by apply asks_fail; intros d ->]. cbn [negb].
  apply asks_lift; [by intros d ->|]. intros advertisement Had.
  destruct (Advertisement_new socket) as [a|] eqn:Hnew; [|done]. injection Had as <-.
  apply Advertisement_new_Ok in Hnew as [-> Hok].
  eapply asks_look; [apply connect_law|by intros d ->|]. intros [screen roots].
  apply (asks_given (screens d0 = (screen, roots))); [by intros d [-> Hs]|]. intros Hscreens.
  apply asks_lift; [by intros d [-> _]|]. intros root Hroot.
  destruct (nth_error roots (Z.to_nat screen)) as [r|] eqn:Hnth; [|done]. injection Hroot as ->.
  assert (∀ known d, grown d0 known d → spared d0 d) as Hgrown by (intros; by eapply grown_spared).
  eapply asks_mono with (P := grown d0 []) (R := spared d0);
    [|by intros d [-> _]; repeat split|intros a d Hd; exact Hd|done].
  eapply asks_bind; [eapply asks_mono; [apply intern_asks|done|intros a d Hd; exact Hd|apply Hgrown]|]. intros selection.
  eapply asks_bind; [eapply asks_mono; [apply intern_asks|done|intros a d Hd; exact Hd|apply Hgrown]|]. intros property.
  eapply asks_bind; [eapply asks_mono; [apply intern_asks|done|intros a d Hd; exact Hd|apply Hgrown]|]. intros utf8.
  set (known := [(bstr "UTF8_STRING", utf8); (ADVERTISEMENT_PROPERTY, property); (selection_name screen, selection)]).
  assert ((selection_name (screens d0).1, selection) ∈ known) as Hknown.
  { rewrite Hscreens. unfold known. do 2 apply list_elem_of_further. by apply list_elem_of_here. }
  eapply asks_look; [apply generate_id_law|apply Hgrown|]. intros owner.
  change (λ d, grown d0 known d ∧ unused_window owner d) with (before_claim d0 known owner).
  assert (∀ d, before_claim d0 known owner d → spared d0 d) as Hbefore by (intros d [Hd _]; by eapply Hgrown).
  eapply asks_look; [apply create_window_law|done|]. intros [].
  eapply asks_bind.
  { eapply asks_mono; [eapply (asks_attempt _ (before_claim d0 known owner)), (claim_selection_asks d0 known selection owner)|..].
    - by intros d [].
    - intros r d Hd. exact Hd.
    - intros d Hd. exact Hd. }
  intros [[]|error].
  - eapply asks_bind.
    { eapply asks_mono; [by eapply (advertise_asks d0 known selection owner)|done|intros a d Hd; exact Hd|].
      intros d. apply own_spared. }
    intros []. eapply asks_look; [apply flush_law| |].
    + intros d (d' & Hd & ->). by eapply own_spared, own_properties, after_own.
    + intros []. apply asks_ret. intros d [(d' & Hd & ->) _].
      pose proof (claimed_advertised d0 known socket selection property utf8 owner root d') as Hclaimed.
      rewrite Hscreens in Hclaimed. by apply Hclaimed.
  - apply (asks_bind _ _ _ (λ _, spared d0)).
    { assert (∀ d, after_claim d0 known selection owner d → own d0 selection owner d) as Hafter.
      { intros d. apply after_own. done. }
      apply asks_unchecked. eapply asks_mono;
        [apply (asks_changes _ _ (λ d, before_claim d0 known owner d ∨ after_claim d0 known selection owner d)
                  (λ _, spared d0) (destroy_window_law owner))|done|done|].
      - intros d [] d' [Hd|Hd] ->; [rewrite without_unused by apply Hd; by apply Hbefore|].
        by eapply own_spared, own_without, Hafter.
      - intros d [Hd|Hd]; [by apply Hbefore|by eapply own_spared, Hafter]. }
    intros []. apply (asks_bind _ _ _ (λ _, spared d0)); [|intros []; by apply asks_fail].
    apply asks_unchecked. eapply asks_mono; [apply asks_looks, flush_law|done|by intros ? d []|done].
Qed.

(** ** Discovery *)

Lemma short_reply type data :
  len data ≤ MAX_ADVERTISEMENT_BYTES →
  property_reply MAX_PROPERTY_LONGS (Some (type, data)) =
  {| PropertyReply_type := type; PropertyReply_format := 8; PropertyReply_bytes_after := 0;
     PropertyReply_value := data |}.
Proof.
  intros Hlen. unfold property_reply.
  assert (take (Z.to_nat (4 * MAX_PROPERTY_LONGS)) data = data) as ->.
  { apply take_ge. unfold len in Hlen. change (Z.to_nat (4 * MAX_PROPERTY_LONGS)) with 260%nat.
    change MAX_ADVERTISEMENT_BYTES with 256 in Hlen. lia. }
  by rewrite Z.sub_diag.
Qed.

Lemma advertisement_short socket :
  socket_ok socket → len (Advertisement_encode {| Advertisement_socket := socket |}) ≤ MAX_ADVERTISEMENT_BYTES.
Proof.
  intros (_ & _ & Hlen). rewrite encode_len. cbn [Advertisement_socket]. change MAX_ADVERTISEMENT_BYTES with 256. lia.
Qed.

Lemma advertisement_utf8 socket :
  utf8_valid socket = true → utf8_valid (Advertisement_encode {| Advertisement_socket := socket |}) = true.
Proof.
  intros Hs. unfold Advertisement_encode. rewrite !(assoc_L (++)). by apply utf8_valid_app.
Qed.

(** A look at the display [d], of which only one answer is possible. *)
Lemma asks_sees {E F A B} (f : E → F) (m : M W E A) (k : A → M W F B) sees d v (Q : B → Display → Prop)
    (R : Display → Prop) :
  performs display m (looks sees) → (∀ a, sees d a → a = v) → R d →
  asks (k v) (λ d', d' = d) Q R → asks (bind (map_error f m) k) (λ d', d' = d) Q R.
Proof.
  intros Hm Hv HR Hk. eapply asks_look; [exact Hm|by intros d' ->|]. intros a.
  apply (asks_given (a = v)); [intros d' [-> Ha]; by apply Hv|]. intros ->.
  eapply asks_mono; [exact Hk|by intros d' []|done..].
Qed.

Lemma validate_path_socket socket source : socket_ok socket → validate_path socket source = Ok socket.
Proof.
  intros ([rest Hrest] & Hzero & Hlen). unfold validate_path.
  rewrite (proj2 (contains_false 0 socket)) by exact Hzero. rewrite (proj2 (Z.ltb_ge _ _)) by exact Hlen.
  by subst.
Qed.

Section discovered.
Context (self : Ownership) (socket : str) (d : Display) (Had : advertised self socket d).

Notation there := (λ d', d' = d).

Lemma window_property_there {E B} (f : string → E) window utf8 (k : PropertyReply → M W E B)
    (Q : B → Display → Prop) (R : Display → Prop) :
  window ∈ [Ownership_owner self; Ownership_root self] → atoms d !! bstr "UTF8_STRING" = Some utf8 → R d →
  asks (k {| PropertyReply_type := utf8; PropertyReply_format := 8; PropertyReply_bytes_after := 0;
             PropertyReply_value := Advertisement_encode {| Advertisement_socket := socket |} |}) there Q R →
  asks (bind (map_error f (window_property window (Ownership_property self) MAX_PROPERTY_LONGS)) k) there Q R.
Proof.
  intros Hw Hutf8 HR Hk. eapply asks_sees; [apply window_property_law| |done|exact Hk].
  destruct (advertised_values _ _ _ Had) as (utf8' & _ & Hutf8' & Hvalues). simplify_eq.
  intros reply ->. rewrite (Hvalues window Hw). apply short_reply, advertisement_short, (advertised_ok _ _ _ Had).
Qed.

Lemma read_advertisement_there window utf8 {B} (k : bytes → M W string B) (Q : B → Display → Prop) (R : Display → Prop) :
  window ∈ [Ownership_owner self; Ownership_root self] → atoms d !! bstr "UTF8_STRING" = Some utf8 → R d →
  asks (k (Advertisement_encode {| Advertisement_socket := socket |})) there Q R →
  asks (bind (read_advertisement window (Ownership_property self) utf8) k) there Q R.
Proof.
  intros Hw Hutf8 HR Hk. apply (asks_bind _ _ _ (λ value d', d' = d ∧ value = Advertisement_encode {| Advertisement_socket := socket |})).
  - eapply window_property_there; [done..|].
    cbn [PropertyReply_type PropertyReply_format PropertyReply_bytes_after PropertyReply_value].
    rewrite Z.eqb_refl, (proj2 (Z.ltb_ge _ _)) by apply advertisement_short, (advertised_ok _ _ _ Had).
    by apply asks_ret.
  - intros value. apply (asks_given (value = Advertisement_encode {| Advertisement_socket := socket |})); [by intros d' []|].
    intros ->. eapply asks_mono; [exact Hk|by intros d' []|done..].
Qed.

Lemma advertised_socket_there : asks advertised_socket there (λ path d', d' = d ∧ path = socket) there.
Proof.
  pose proof Had as [[Hok Hutf8ok] Hscreen Hroot Hsel Hprop (Hsel0 & Hprop0 & Howner0) Howner (utf8 & Hutf80 & Hutf8 & _)].
  eapply asks_sees; [apply connect_law|intros r ->; exact (surjective_pairing (screens d))|done|]. rewrite Hscreen, Hroot.
  apply asks_lift; [done|]. intros ? [= <-].
  eapply asks_sees; [apply existing_atom_law|by intros a ->; rewrite Hsel|done|]. cbn [default from_option id].
  rewrite (proj2 (Z.eqb_neq _ _)) by done.
  eapply asks_sees; [apply selection_owner_law|intros a ->; exact Howner|done|].
  rewrite (proj2 (Z.eqb_neq _ _)) by done.
  eapply asks_sees; [apply existing_atom_law|by intros a ->; rewrite Hprop|done|]. cbn [default from_option id].
  eapply asks_sees; [apply existing_atom_law|by intros a ->; rewrite Hutf8|done|]. cbn [default from_option id].
  rewrite !(proj2 (Z.eqb_neq _ _)) by done. cbn [orb].
  apply read_advertisement_there; [set_solver|done..|]. apply read_advertisement_there; [set_solver|done..|].
  rewrite bool_decide_eq_false_2 by tauto.
  eapply asks_sees; [apply selection_owner_law|intros a ->; exact Howner|done|]. rewrite Z.eqb_refl. cbn [negb].
  unfold advertised_path_of. rewrite advertisement_utf8 by done. cbn [negb].
  rewrite Advertisement_parse_encode by done. intros w Hw. by apply wp_ret.
Qed.

Lemma read_property_there window utf8 {B} (k : option bytes → M W DiscoveryError B) (Q : B → Display → Prop)
    (R : Display → Prop) :
  window ∈ [Ownership_owner self; Ownership_root self] → atoms d !! bstr "UTF8_STRING" = Some utf8 → utf8 ≠ X_NONE →
  R d → asks (k (Some (Advertisement_encode {| Advertisement_socket := socket |}))) there Q R →
  asks (bind (read_property window (Ownership_property self) utf8) k) there Q R.
Proof.
  intros Hw Hutf8 Hne HR Hk.
  apply (asks_bind _ _ _ (λ value d', d' = d ∧ value = Some (Advertisement_encode {| Advertisement_socket := socket |}))).
  - eapply window_property_there; [done..|].
    cbn [PropertyReply_type PropertyReply_format PropertyReply_bytes_after PropertyReply_value].
    rewrite (proj2 (Z.eqb_neq _ _)), Z.eqb_refl, (proj2 (Z.ltb_ge _ _)) by
      (done || apply advertisement_short, (advertised_ok _ _ _ Had)).
    by apply asks_ret.
  - intros value. apply (asks_given (value = Some (Advertisement_encode {| Advertisement_socket := socket |}))); [by intros d' []|].
    intros ->. eapply asks_mono; [exact Hk|by intros d' []|done..].
Qed.

(** A companion on this display. *)
Definition on_display (w : W) : Prop := ∃ name, environment "DISPLAY" w = Some name ∧ name ≠ [].

Lemma discover_x11_there w :
  on_display w → display w = d →
  wp discover_x11 (λ path _, path = Some socket) (λ _ _, True) w.
Proof.
  intros (name & Hname & Hne) Hd. apply wp_bind, wp_gets. rewrite Hname. destruct name as [|c name]; [done|].
  cbn [is_empty]. revert w Hname Hd. intros w _.
  match goal with |- _ → wp ?m _ _ _ => enough (asks m there (λ path _, path = Some socket) (λ _, True)) as Hm; [exact (Hm w)|] end.
  clear w. pose proof Had as [[Hok Hutf8ok] Hscreen Hroot Hsel Hprop (Hsel0 & Hprop0 & Howner0) Howner (utf8 & Hutf80 & Hutf8 & _)].
  eapply asks_sees; [apply connect_law|intros r ->; exact (surjective_pairing (screens d))|done|]. rewrite Hscreen, Hroot.
  apply asks_lift; [done|]. intros ? [= <-].
  eapply asks_sees; [apply existing_atom_law|intros a ->; unfold selection_name in Hsel; by rewrite Hsel|done|].
  cbn [default from_option id]. rewrite (proj2 (Z.eqb_neq _ _)) by done.
  eapply asks_sees; [apply selection_owner_law|intros a ->; exact Howner|done|].
  rewrite (proj2 (Z.eqb_neq _ _)) by done.
  eapply asks_sees; [apply existing_atom_law|intros a ->; unfold ADVERTISEMENT_PROPERTY in Hprop; by rewrite Hprop|done|].
  cbn [default from_option id].
  eapply asks_sees; [apply existing_atom_law|by intros a ->; rewrite Hutf8|done|]. cbn [default from_option id].
  rewrite !(proj2 (Z.eqb_neq _ _)) by done. cbn [orb].
  do 2 (apply read_property_there; [set_solver|done..|]).
  rewrite bool_decide_eq_false_2 by tauto.
  eapply asks_sees; [apply selection_owner_law|intros a ->; exact Howner|done|]. rewrite Z.eqb_refl. cbn [negb].
  unfold advertised_path. rewrite advertisement_utf8 by done. cbn [negb].
  rewrite Advertisement_parse_encode by done. cbn [map_err and_then Advertisement_socket].
  rewrite validate_path_socket by done. intros w Hw. by apply wp_ret.
Qed.

(** A request of [release] keeps the names and the screens. *)
Definition alike (d' : Display) : Prop := screens d' = screens d ∧ atoms d' = atoms d.

Lemma release_asks :
  asks (release_of self) there
    (λ _ d', alike d' ∧ owner_of (Ownership_selection self) d' = X_NONE ∧
             properties d' !! (Ownership_root self, Ownership_property self) = None) (λ _, True).
Proof.
  pose proof (advertised_nonzero _ _ _ Had) as (_ & _ & Hne).
  unfold release_of, release. eapply asks_sees; [apply grab_server_law|by intros []|done|].
  set (gone d' := properties d' !! (Ownership_root self, Ownership_property self) = None).
  set (done_ d' := alike d' ∧ owner_of (Ownership_selection self) d' = X_NONE ∧ gone d').
  apply (asks_bind _ _ _ (λ r, match r with Ok _ => done_ | Err _ => λ _, True end)).
  { apply (asks_attempt _ _ (λ _, done_)).
    eapply asks_sees; [apply selection_owner_law|intros a ->; exact (advertised_owner _ _ _ Had)|done|].
    rewrite Z.eqb_refl. cbn [negb].
    apply (asks_bind _ _ _ (λ _ d', alike d' ∧ gone d')).
    { apply asks_map_error. eapply asks_mono; [eapply (asks_changes _ _ there); [apply delete_property_law|]|done|intros ? d' Hd'; exact Hd'|done].
      intros d' [] d'' -> ->. split; [done|]. apply lookup_delete_eq. }
    intros []. apply (asks_bind _ _ _ (λ _ d', alike d' ∧ gone d')).
    { apply asks_map_error. eapply asks_mono; [eapply (asks_changes _ _ (λ d', alike d' ∧ gone d')); [apply delete_property_law|]|done|intros ? d' Hd'; exact Hd'|done].
      intros d' [] d'' [Halike Hgone] ->. split; [done|]. unfold gone. cbn. apply lookup_delete_None. by right. }
    intros []. apply asks_map_error. eapply asks_mono;
      [eapply (asks_changes _ _ (λ d', alike d' ∧ gone d')); [apply set_selection_owner_law|]|done|intros ? d' Hd'; exact Hd'|done].
    intros d' [] d'' [Halike Hgone] ->. split; [exact Halike|]. split; [|exact Hgone].
    unfold owner_of. cbn. by rewrite lookup_delete_eq. }
  intros withdrawal. apply (asks_bind _ _ _ (λ _, match withdrawal with Ok _ => done_ | Err _ => λ _, True end)).
  { eapply asks_mono; [eapply (asks_attempt _ _ _ _ (λ _, True)), asks_map_error,
      (asks_changes _ _ (match withdrawal with Ok _ => done_ | Err _ => λ _, True end)
         (λ _, match withdrawal with Ok _ => done_ | Err _ => λ _, True end) (destroy_window_law _))|done|by intros []|done].
    destruct withdrawal; [|done]. intros d' [] d'' ([Hs Ha] & Ho & Hgone) ->. split; [by split|]. split.
    - rewrite owner_of_without. by case_decide.
    - cbn. apply map_lookup_filter_None. by left. }
  intros destroy. eapply asks_mono; [apply (asks_ended (λ ungrab flushed, withdrawal ;? destroy ;? ungrab ;? flushed))|
    intros d' Hd'; exact Hd'| |done].
  intros [] d' [Hd' (u & f & Hr)]. by destruct withdrawal.
Qed.
End discovered.

(** Nothing is found where no provider owns the selection. *)
Lemma nothing_advertised d screen root selection :
  (screens d).1 = screen → nth_error (screens d).2 (Z.to_nat screen) = Some root →
  atoms d !! selection_name screen = Some selection → owner_of selection d = X_NONE →
  asks advertised_socket (λ d', d' = d) (λ _ _, False) (λ _, True) ∧
  ∀ w, on_display w → display w = d → wp discover_x11 (λ path _, path = None) (λ _ _, True) w.
Proof.
  intros Hscreen Hroot Hsel Howner. split.
  - eapply asks_sees; [apply connect_law|intros r ->; exact (surjective_pairing (screens d))|done|]. rewrite Hscreen, Hroot.
    apply asks_lift; [done|]. intros ? [= <-].
    eapply asks_sees; [apply existing_atom_law|by intros a ->; rewrite Hsel|done|]. cbn [default from_option id].
    destruct (_ =? _); [by apply asks_fail|].
    eapply asks_sees; [apply selection_owner_law|intros a ->; exact Howner|done|]. by apply asks_fail.
  - intros w (name & Hname & Hne) Hd. apply wp_bind, wp_gets. rewrite Hname. destruct name as [|c name]; [done|].
    cbn [is_empty]. revert Hd.
    match goal with |- _ → wp ?m _ _ _ => enough (asks m (λ d', d' = d) (λ path _, path = None) (λ _, True)) as Hm; [exact (Hm w)|] end.
    eapply asks_sees; [apply connect_law|intros r ->; exact (surjective_pairing (screens d))|done|]. rewrite Hscreen, Hroot.
    apply asks_lift; [done|]. intros ? [= <-].
    eapply asks_sees; [apply existing_atom_law|intros a ->; unfold selection_name in Hsel; by rewrite Hsel|done|].
    cbn [default from_option id]. destruct (_ =? _); [by apply asks_ret|].
    eapply asks_sees; [apply selection_owner_law|intros a ->; exact Howner|done|]. by apply asks_ret.
Qed.

End display.

(** ** A display *)

Module OwnershipToy.
Record World := { World_display : Display; World_environment : list (string * str) }.

Definition set (d : Display) (w : World) : World :=
  {| World_display := d; World_environment := World_environment w |}.
Definition look {A} (f : Display → A) : M World string A := λ w, (Ok (f (World_display w)), w).
Definition act (f : Display → Display) : M World string unit := λ w, (Ok tt, set (f (World_display w)) w).

#[export] Instance discovery : DiscoveryServer World := {
  environment name w := snd <$> find (λ p, String.eqb (fst p) name) (World_environment w);
  connect_x11 := look screens;
  existing_atom name := look (λ d, default X_NONE (atoms d !! name));
  selection_owner selection := look (owner_of selection);
  window_property window property longs := look (λ d, property_reply longs (properties d !! (window, property)))
}.

#[export] Instance unused_window_dec window d : Decision (unused_window window d).
Proof. unfold unused_window. apply _. Defined.

#[export] Instance server : OwnershipServer World := {
  intern_atom name w :=
    match atoms (World_display w) !! name with
    | Some a => (if a =? X_NONE then Err "bad atom"%string else Ok a, w)
    | None => let a := 1 + Z.of_nat (size (atoms (World_display w))) in
              (Ok a, set (with_atom name a (World_display w)) w)
    end;
  generate_id w := (if decide (unused_window 77 (World_display w)) then Ok 77 else Err "no window"%string, w);
  create_window _ _ := ret tt;
  destroy_window window := act (without_window window);
  grab_server := ret tt;
  ungrab_server := ret tt;
  flush := ret tt;
  set_selection_owner owner selection :=
    act (with_owners (if owner =? X_NONE then delete selection else insert selection owner));
  change_property8 window property type data := act (with_properties (insert (window, property) (type, data)));
  delete_property window property := act (with_properties (delete (window, property)));
  poll_for_event := ret None
}.

#[export] Instance laws : DisplayLaws World.
Proof.
  refine {| display := World_display |}; try (intros; intros w; by split).
  - intros name w. cbn -[Z.add]. destruct (atoms _ !! name) as [a|] eqn:Ha; [destruct (Z.eqb_spec a X_NONE)|]; cbn -[Z.add].
    + done.
    + split; [done|]. left. done.
    + split; [unfold X_NONE; lia|]. right. done.
  - intros w. cbn. destruct (decide _); by split.
Defined.

Definition start : World := {|
  World_display := {| screens := (0, [30]); atoms := {[ bstr "UTF8_STRING" := 5 ]}; owners := ∅; properties := ∅ |};
  World_environment := [("DISPLAY"%string, bstr ":0")] |}.
Definition socket : str := bstr "/run/user/1000/agent-seat/seat.sock".

Definition session : M World string (str * option str * str + string) :=
  let! self := Ownership_claim socket in
  let! found := advertised_socket in
  let! companion := map_error (λ _, ""%string) discover_x11 in
  let! '(released, _) := withdraw self in
  let! after := attempt advertised_socket in
  ret (match released, after with
       | Ok _, Err error => inr error
       | _, _ => inl (found, companion, socket)
       end).

Example withdrawn_provider_is_gone :
  (session start).1 = Ok (inr "no Agent Seat provider is advertised on the selected X11 screen"%string).
Proof. vm_compute. done. Qed.

End OwnershipToy.
