(* ===== verification/Config.v ===== *)
(** * [agent-seat-x11/src/config.rs]: provider policy *)

From S2P Require Import Prelude.

Inductive ClientScope :=
| ClientScope_None
| ClientScope_CurrentWorkspace
| ClientScope_AllWorkspaces.

#[export] Instance ClientScope_eq_dec : EqDecision ClientScope.
Proof. solve_decision. Defined.
