(* ===== verification/Policy.v ===== *)
(** * [agent-seat-x11/src/config.rs]: the policy, its validation and its editor's draft

    The TOML parser is a parameter; [decode] is what the [serde] attributes of [RawConfig]
    say of a document's entries.  [PolicyStore] reads and replaces the file. *)

From stdpp Require Import pretty.
From S2P Require Import Prelude Text Bounded Protocol Message Effects Config.

Definition MAX_CONFIG_BYTES : Z := 64 * 1024.
Definition MAX_POLICY_CAPABILITIES : N := 14.
Definition DEFAULT_MAX_SESSIONS : Z := 4.
Definition MAX_SESSIONS : Z := 32.
Definition DEFAULT_MAX_REQUESTS : Z := 1024.
Definition MAX_REQUESTS : Z := 4096.
Definition DEFAULT_IO_TIMEOUT_MS : Z := 2000.
Definition MIN_IO_TIMEOUT_MS : Z := 50.
Definition MAX_IO_TIMEOUT_MS : Z := 10000.
Definition NANOS_PER_MILLI : Z := 1000000.

(** ** Types *)

Inductive LaunchMode :=
| LaunchMode_Deny
| LaunchMode_AllowListed
| LaunchMode_AllowInstalled.

#[export] Instance LaunchMode_eq_dec : EqDecision LaunchMode.
Proof. solve_decision. Defined.

Abbreviation Capabilities := (BoundedList Capability MAX_POLICY_CAPABILITIES).
Abbreviation Applications := (BoundedList ApplicationId MAX_APPLICATIONS).

Record Grant := { Grant_uid : Z; Grant_capabilities : Capabilities }.
Record Observation := { Observation_clients : ClientScope; Observation_titles : bool }.
Record InputPolicy := { InputPolicy_provider_private_devices : bool }.

Record LaunchPolicy := {
  LaunchPolicy_mode : LaunchMode;
  LaunchPolicy_allow : Applications;
  LaunchPolicy_deny : Applications;
  LaunchPolicy_allow_user_entries : bool
}.

Record Config := {
  Config_max_sessions : Z;
  Config_max_requests : Z;
  Config_io_timeout : Z;
  Config_grant : option Grant;
  Config_observation : Observation;
  Config_launch : LaunchPolicy;
  Config_input : InputPolicy
}.

Record RawGrant := { RawGrant_uid : Z; RawGrant_capabilities : Capabilities }.
Record RawObservation := { RawObservation_clients : ClientScope; RawObservation_titles : bool }.
Record RawInput := { RawInput_provider_private_devices : bool }.

Record RawLaunch := {
  RawLaunch_mode : LaunchMode;
  RawLaunch_allow : Applications;
  RawLaunch_deny : Applications;
  RawLaunch_allow_user_entries : bool
}.

Record RawConfig := {
  RawConfig_enabled : bool;
  RawConfig_max_sessions : Z;
  RawConfig_max_requests_per_session : Z;
  RawConfig_io_timeout_ms : Z;
  RawConfig_grant : option RawGrant;
  RawConfig_observation : RawObservation;
  RawConfig_launch : RawLaunch;
  RawConfig_input : RawInput
}.

#[export] Instance RawGrant_eq_dec : EqDecision RawGrant.
Proof. solve_decision. Defined.
#[export] Instance RawObservation_eq_dec : EqDecision RawObservation.
Proof. solve_decision. Defined.
#[export] Instance RawInput_eq_dec : EqDecision RawInput.
Proof. solve_decision. Defined.
#[export] Instance RawLaunch_eq_dec : EqDecision RawLaunch.
Proof. solve_decision. Defined.
#[export] Instance RawConfig_eq_dec : EqDecision RawConfig.
Proof. solve_decision. Defined.

(** ** Validation *)

(** [.iter().enumerate().any(|(index, x)| list[..index].contains(x))] *)
Fixpoint repeats {A} `{EqDecision A} (before l : list A) : bool :=
  match l with
  | [] => false
  | x :: l => bool_decide (x ∈ before) || repeats (before ++ [x]) l
  end.

Definition is_management (capability : Capability) : bool :=
  match capability with
  | Capability_ManageActivate | Capability_ManageClose | Capability_ManageWorkspace
  | Capability_ManageState | Capability_ManageGeometry => true
  | _ => false
  end.

Definition is_input_or_transfer (capability : Capability) : bool :=
  match capability with
  | Capability_InputPointer | Capability_InputKeyboard | Capability_TextTransfer => true
  | _ => false
  end.

Definition RawGrant_validate (self : RawGrant) (provider_uid : Z) : result Grant string :=
  let capabilities := as_slice (RawGrant_capabilities self) in
  let has capability := bool_decide (capability ∈ capabilities) in
  if negb (RawGrant_uid self =? provider_uid)
  then Err ("grant.uid must equal the provider's effective UID " ++ decimal provider_uid)%string
  else if repeats [] capabilities
  then Err "grant capabilities must not contain duplicates"%string
  else if has Capability_ObserveTitles && negb (has Capability_ObserveStructure)
  then Err "observe_titles requires observe_structure"%string
  else if has Capability_ObserveEvents && negb (has Capability_ObserveStructure)
  then Err "observe_events requires observe_structure"%string
  else if existsb is_management capabilities && negb (has Capability_ObserveStructure)
  then Err "management capabilities require observe_structure"%string
  else if has Capability_LaunchExecute && negb (has Capability_LaunchList)
  then Err "launch_execute requires launch_list"%string
  else if existsb is_input_or_transfer capabilities && negb (has Capability_ObserveStructure)
  then Err "input and text-transfer capabilities require observe_structure"%string
  else if has Capability_CaptureObscured && negb (has Capability_ObserveStructure)
  then Err "capture_obscured requires observe_structure"%string
  else Ok {| Grant_uid := RawGrant_uid self; Grant_capabilities := RawGrant_capabilities self |}.

Definition RawInput_validate (self : RawInput) : result InputPolicy string :=
  Ok {| InputPolicy_provider_private_devices := RawInput_provider_private_devices self |}.

Fixpoint check_application_ids (field : string) (before applications : list ApplicationId)
  : result unit string :=
  match applications with
  | [] => Ok tt
  | application :: applications =>
      let id := as_str application in
      if is_empty id || negb (ends_with (bstr ".desktop") id)
         || bool_decide (47 ∈ id) || bool_decide (0 ∈ id)
      then Err (field ++ " contains a non-canonical desktop ID")%string
      else if bool_decide (application ∈ before)
      then Err (field ++ " must not contain duplicates")%string
      else check_application_ids field (before ++ [application]) applications
  end.

Definition validate_application_ids (field : string) (applications : list ApplicationId)
  : result unit string := check_application_ids field [] applications.

Definition RawLaunch_validate (self : RawLaunch) : result LaunchPolicy string :=
  validate_application_ids "launch.allow" (as_slice (RawLaunch_allow self)) ;?
  validate_application_ids "launch.deny" (as_slice (RawLaunch_deny self)) ;?
  if existsb (λ application, bool_decide (application ∈ as_slice (RawLaunch_deny self)))
       (as_slice (RawLaunch_allow self))
  then Err "launch.allow and launch.deny must not overlap"%string
  else Ok {| LaunchPolicy_mode := RawLaunch_mode self;
             LaunchPolicy_allow := RawLaunch_allow self;
             LaunchPolicy_deny := RawLaunch_deny self;
             LaunchPolicy_allow_user_entries := RawLaunch_allow_user_entries self |}.

Definition RawConfig_validate (self : RawConfig) (provider_uid : Z) : result Config string :=
  if (RawConfig_max_sessions self =? 0) || (MAX_SESSIONS <? RawConfig_max_sessions self)
  then Err "max_sessions must be in 1..=32"%string
  else if (RawConfig_max_requests_per_session self =? 0)
          || (MAX_REQUESTS <? RawConfig_max_requests_per_session self)
  then Err "max_requests_per_session must be in 1..=4096"%string
  else if negb ((MIN_IO_TIMEOUT_MS <=? RawConfig_io_timeout_ms self)
                && (RawConfig_io_timeout_ms self <=? MAX_IO_TIMEOUT_MS))
  then Err "io_timeout_ms must be in 50..=10000"%string
  else
    let? grant := match RawConfig_grant self with
                  | None => Ok None
                  | Some grant => result_map Some (RawGrant_validate grant provider_uid)
                  end in
    let? input := RawInput_validate (RawConfig_input self) in
    let? launch := RawLaunch_validate (RawConfig_launch self) in
    Ok {| Config_max_sessions := RawConfig_max_sessions self;
          Config_max_requests := RawConfig_max_requests_per_session self;
          Config_io_timeout := RawConfig_io_timeout_ms self * NANOS_PER_MILLI;
          Config_grant := grant;
          Config_observation :=
            {| Observation_clients := RawObservation_clients (RawConfig_observation self);
               Observation_titles := RawObservation_titles (RawConfig_observation self) |};
          Config_launch := launch;
          Config_input := input |}.

Definition validate_source (from_toml : str → result RawConfig string) (source : str)
  (provider_uid : Z) : result (bool * Config * RawConfig) string :=
  if MAX_CONFIG_BYTES <? len source
  then Err "candidate exceeds the 65536-byte configuration bound"%string
  else
    let? raw := from_toml source in
    let? config := RawConfig_validate raw provider_uid in
    Ok (RawConfig_enabled raw, config, raw).

(** ** What the provider asks of the policy *)

Definition granted (self : Config) (uid : Z) (requested : list Capability)
  : option (list Capability) :=
  grant ← Config_grant self;
  if negb (Grant_uid grant =? uid) then None
  else Some (filter (λ capability, capability ∈ as_slice (Grant_capabilities grant)) requested).

Definition allows_any (self : LaunchPolicy) : bool :=
  match LaunchPolicy_mode self with
  | LaunchMode_Deny => false
  | LaunchMode_AllowListed => negb (is_empty (as_slice (LaunchPolicy_allow self)))
  | LaunchMode_AllowInstalled => true
  end.

Definition permits (self : LaunchPolicy) (application : ApplicationId) (user_entry : bool)
  : bool :=
  if (user_entry && negb (LaunchPolicy_allow_user_entries self))
     || bool_decide (application ∈ as_slice (LaunchPolicy_deny self))
  then false
  else match LaunchPolicy_mode self with
       | LaunchMode_Deny => false
       | LaunchMode_AllowListed => bool_decide (application ∈ as_slice (LaunchPolicy_allow self))
       | LaunchMode_AllowInstalled => true
       end.

(** ** Names *)

Definition client_scope_name (scope : ClientScope) : string :=
  match scope with
  | ClientScope_None => "none"
  | ClientScope_CurrentWorkspace => "current_workspace"
  | ClientScope_AllWorkspaces => "all_workspaces"
  end.

Definition launch_mode_name (mode : LaunchMode) : string :=
  match mode with
  | LaunchMode_Deny => "deny"
  | LaunchMode_AllowListed => "allow_listed"
  | LaunchMode_AllowInstalled => "allow_installed"
  end.

Definition capability_name (capability : Capability) : string :=
  match capability with
  | Capability_ObserveStructure => "observe_structure"
  | Capability_ObserveTitles => "observe_titles"
  | Capability_ObserveEvents => "observe_events"
  | Capability_ManageActivate => "manage_activate"
  | Capability_ManageClose => "manage_close"
  | Capability_ManageWorkspace => "manage_workspace"
  | Capability_ManageState => "manage_state"
  | Capability_ManageGeometry => "manage_geometry"
  | Capability_LaunchList => "launch_list"
  | Capability_LaunchExecute => "launch_execute"
  | Capability_InputPointer => "input_pointer"
  | Capability_InputKeyboard => "input_keyboard"
  | Capability_TextTransfer => "text_transfer"
  | Capability_CaptureObscured => "capture_obscured"
  end.

(** ** The TOML document

    What [serde] reads of a document: the entries [name] and [table.name], and which
    tables there are.  [toml_edit]'s document is a parameter with the operations the
    draft uses. *)

Inductive TomlValue :=
| Toml_Boolean (value : bool)
| Toml_Integer (value : Z)
| Toml_String (value : str)
| Toml_Array (values : list str)
| Toml_Other. (* a float, a date, an array of something else *)

(** [table] is empty for the top level. *)
Class TomlDocument (D : Type) := {
  entries : D → list (string * string);
  tables : D → list string;
  lookup_entry : D → string → string → option TomlValue;
  put : string → string → TomlValue → D → D;
  ensure_table : string → D → D;
  remove_table : string → D → D
}.

Definition has_table `{TomlDocument D} (d : D) (table : string) : bool :=
  bool_decide (table ∈ tables d).

(** [#[serde(deny_unknown_fields)]] *)
Definition known_entries : list (string * string) :=
  [("", "enabled"); ("", "max_sessions"); ("", "max_requests_per_session"); ("", "io_timeout_ms");
   ("grant", "uid"); ("grant", "capabilities");
   ("observation", "clients"); ("observation", "titles");
   ("launch", "mode"); ("launch", "allow"); ("launch", "deny"); ("launch", "allow_user_entries");
   ("input", "provider_private_devices")]%string.
Definition known_tables : list string := ["grant"; "observation"; "launch"; "input"]%string.
Definition only_known `{TomlDocument D} (d : D) : bool :=
  forallb (λ entry, bool_decide (entry ∈ known_entries)) (entries d)
  && forallb (λ table, bool_decide (table ∈ known_tables)) (tables d).

(** The operations, on documents that hold nothing but what [RawConfig] knows: entries
    are put at the top level or into a table that is there. *)
Class TomlDocumentLaws (D : Type) `{TomlDocument D} : Prop := {
  elem_entries d table name :
    (table, name) ∈ entries d ↔ lookup_entry d table name ≠ None;
  lookup_put d table name v table' name' :
    only_known d = true → (table, name) ∈ known_entries → table = "" ∨ has_table d table = true →
    lookup_entry (put table name v d) table' name'
    = if (table =? table')%string && (name =? name')%string then Some v
      else lookup_entry d table' name';
  table_put d table name v table' :
    only_known d = true → (table, name) ∈ known_entries → table = "" ∨ has_table d table = true →
    has_table (put table name v d) table' = has_table d table';
  lookup_ensure d table table' name :
    only_known d = true → table ∈ known_tables →
    lookup_entry (ensure_table table d) table' name = lookup_entry d table' name;
  table_ensure d table table' :
    only_known d = true → table ∈ known_tables →
    has_table (ensure_table table d) table' = (table =? table')%string || has_table d table';
  lookup_remove d table table' name :
    only_known d = true → table ∈ known_tables →
    lookup_entry (remove_table table d) table' name
    = if (table =? table')%string then None else lookup_entry d table' name;
  table_remove d table table' :
    only_known d = true → table ∈ known_tables →
    has_table (remove_table table d) table' = negb (table =? table')%string && has_table d table'
}.

(** *** [Deserialize] of [RawConfig]: the derived implementations *)

(** [#[serde(rename_all = "snake_case")]] of a variant's name. *)
Fixpoint lower_words (first : bool) (s : list Z) : str :=
  match s with
  | [] => []
  | c :: s =>
      if within 65 90 c then (if first then [] else [95]) ++ (c + 32) :: lower_words false s
      else c :: lower_words false s
  end.
Definition snake_case (name : string) : str := lower_words true (bstr name).

Definition all_capabilities : list (string * Capability) :=
  [("ObserveStructure", Capability_ObserveStructure); ("ObserveTitles", Capability_ObserveTitles);
   ("ObserveEvents", Capability_ObserveEvents); ("ManageActivate", Capability_ManageActivate);
   ("ManageClose", Capability_ManageClose); ("ManageWorkspace", Capability_ManageWorkspace);
   ("ManageState", Capability_ManageState); ("ManageGeometry", Capability_ManageGeometry);
   ("LaunchList", Capability_LaunchList); ("LaunchExecute", Capability_LaunchExecute);
   ("InputPointer", Capability_InputPointer); ("InputKeyboard", Capability_InputKeyboard);
   ("TextTransfer", Capability_TextTransfer); ("CaptureObscured", Capability_CaptureObscured)]%string.
Definition all_modes : list (string * LaunchMode) :=
  [("Deny", LaunchMode_Deny); ("AllowListed", LaunchMode_AllowListed);
   ("AllowInstalled", LaunchMode_AllowInstalled)]%string.
Definition all_scopes : list (string * ClientScope) :=
  [("None", ClientScope_None); ("CurrentWorkspace", ClientScope_CurrentWorkspace);
   ("AllWorkspaces", ClientScope_AllWorkspaces)]%string.

Definition variant {A} (all : list (string * A)) (name : str) : option A :=
  snd ∘ snd <$> list_find (λ v, snake_case (fst v) = name) all.

Section decoding.
Context {D : Type} `{TomlDocument D}.

(** A field of the given type: absent, or of that type, or an error. *)
Definition field {A} (decode : TomlValue → option A) (missing : option A)
  (table name : string) (d : D) : option A :=
  match lookup_entry d table name with
  | Some v => decode v
  | None => missing
  end.

Definition as_bool (v : TomlValue) : option bool :=
  match v with Toml_Boolean b => Some b | _ => None end.
Definition as_integer (maximum : Z) (v : TomlValue) : option Z :=
  match v with Toml_Integer i => checked_in 0 maximum i | _ => None end.
Definition as_variant {A} (all : list (string * A)) (v : TomlValue) : option A :=
  match v with Toml_String s => variant all s | _ => None end.
Definition as_list {A} {MAX : N} (decode : str → option A) (v : TomlValue)
  : option (BoundedList A MAX) :=
  match v with
  | Toml_Array l => values ← mapM decode l; result_ok (BoundedList_new values)
  | _ => None
  end.
Definition as_application (s : str) : option ApplicationId := result_ok (BoundedText_new s).

Definition decode_grant (d : D) : option (option RawGrant) :=
  if has_table d "grant" then
    uid ← field (as_integer U32_MAX) None "grant" "uid" d;
    capabilities ← field (as_list (variant all_capabilities)) (Some BoundedList_default)
                     "grant" "capabilities" d;
    Some (Some {| RawGrant_uid := uid; RawGrant_capabilities := capabilities |})
  else Some None.

Definition decode_observation (d : D) : option RawObservation :=
  if has_table d "observation" then
    clients ← field (as_variant all_scopes) (Some ClientScope_None) "observation" "clients" d;
    titles ← field as_bool (Some false) "observation" "titles" d;
    Some {| RawObservation_clients := clients; RawObservation_titles := titles |}
  else Some {| RawObservation_clients := ClientScope_None; RawObservation_titles := false |}.

Definition decode_launch (d : D) : option RawLaunch :=
  if has_table d "launch" then
    mode ← field (as_variant all_modes) (Some LaunchMode_Deny) "launch" "mode" d;
    allow ← field (as_list as_application) (Some BoundedList_default) "launch" "allow" d;
    deny ← field (as_list as_application) (Some BoundedList_default) "launch" "deny" d;
    user ← field as_bool (Some false) "launch" "allow_user_entries" d;
    Some {| RawLaunch_mode := mode; RawLaunch_allow := allow; RawLaunch_deny := deny;
            RawLaunch_allow_user_entries := user |}
  else Some {| RawLaunch_mode := LaunchMode_Deny; RawLaunch_allow := BoundedList_default;
               RawLaunch_deny := BoundedList_default; RawLaunch_allow_user_entries := false |}.

Definition decode_input (d : D) : option RawInput :=
  if has_table d "input" then
    devices ← field as_bool (Some false) "input" "provider_private_devices" d;
    Some {| RawInput_provider_private_devices := devices |}
  else Some {| RawInput_provider_private_devices := false |}.

Definition decode (d : D) : option RawConfig :=
  if negb (only_known d) then None else
  enabled ← field as_bool None "" "enabled" d;
  sessions ← field (as_integer 255) (Some DEFAULT_MAX_SESSIONS) "" "max_sessions" d;
  requests ← field (as_integer U16_MAX) (Some DEFAULT_MAX_REQUESTS) "" "max_requests_per_session" d;
  timeout ← field (as_integer U32_MAX) (Some DEFAULT_IO_TIMEOUT_MS) "" "io_timeout_ms" d;
  grant ← decode_grant d;
  observation ← decode_observation d;
  launch ← decode_launch d;
  input ← decode_input d;
  Some {| RawConfig_enabled := enabled; RawConfig_max_sessions := sessions;
          RawConfig_max_requests_per_session := requests; RawConfig_io_timeout_ms := timeout;
          RawConfig_grant := grant; RawConfig_observation := observation;
          RawConfig_launch := launch; RawConfig_input := input |}.
End decoding.

(** ** The draft *)

Record PolicyDraft (D : Type) := mkPolicyDraft {
  PolicyDraft_raw : RawConfig;
  PolicyDraft_document : D
}.
Arguments mkPolicyDraft {D} _ _.
Arguments PolicyDraft_raw {D} _.
Arguments PolicyDraft_document {D} _.

Section draft.
Context {D : Type} `{TomlDocument D}.
(** [geteuid()] *)
Context (euid : Z).

Notation Edit := (M (PolicyDraft D) string unit).

Definition set_raw (raw : RawConfig) : Edit :=
  modify (λ self, mkPolicyDraft raw (PolicyDraft_document self)).
Definition edit_document (f : D → D) : Edit :=
  modify (λ self, mkPolicyDraft (PolicyDraft_raw self) (f (PolicyDraft_document self))).

Definition with_limits (max_sessions max_requests io_timeout : Z) (raw : RawConfig) : RawConfig :=
  {| RawConfig_enabled := RawConfig_enabled raw; RawConfig_max_sessions := max_sessions;
     RawConfig_max_requests_per_session := max_requests; RawConfig_io_timeout_ms := io_timeout;
     RawConfig_grant := RawConfig_grant raw; RawConfig_observation := RawConfig_observation raw;
     RawConfig_launch := RawConfig_launch raw; RawConfig_input := RawConfig_input raw |}.
Definition with_enabled (enabled : bool) (raw : RawConfig) : RawConfig :=
  {| RawConfig_enabled := enabled; RawConfig_max_sessions := RawConfig_max_sessions raw;
     RawConfig_max_requests_per_session := RawConfig_max_requests_per_session raw;
     RawConfig_io_timeout_ms := RawConfig_io_timeout_ms raw;
     RawConfig_grant := RawConfig_grant raw; RawConfig_observation := RawConfig_observation raw;
     RawConfig_launch := RawConfig_launch raw; RawConfig_input := RawConfig_input raw |}.
Definition with_grant (grant : option RawGrant) (raw : RawConfig) : RawConfig :=
  {| RawConfig_enabled := RawConfig_enabled raw; RawConfig_max_sessions := RawConfig_max_sessions raw;
     RawConfig_max_requests_per_session := RawConfig_max_requests_per_session raw;
     RawConfig_io_timeout_ms := RawConfig_io_timeout_ms raw;
     RawConfig_grant := grant; RawConfig_observation := RawConfig_observation raw;
     RawConfig_launch := RawConfig_launch raw; RawConfig_input := RawConfig_input raw |}.
Definition with_observation (observation : RawObservation) (raw : RawConfig) : RawConfig :=
  {| RawConfig_enabled := RawConfig_enabled raw; RawConfig_max_sessions := RawConfig_max_sessions raw;
     RawConfig_max_requests_per_session := RawConfig_max_requests_per_session raw;
     RawConfig_io_timeout_ms := RawConfig_io_timeout_ms raw;
     RawConfig_grant := RawConfig_grant raw; RawConfig_observation := observation;
     RawConfig_launch := RawConfig_launch raw; RawConfig_input := RawConfig_input raw |}.
Definition with_launch (launch : RawLaunch) (raw : RawConfig) : RawConfig :=
  {| RawConfig_enabled := RawConfig_enabled raw; RawConfig_max_sessions := RawConfig_max_sessions raw;
     RawConfig_max_requests_per_session := RawConfig_max_requests_per_session raw;
     RawConfig_io_timeout_ms := RawConfig_io_timeout_ms raw;
     RawConfig_grant := RawConfig_grant raw; RawConfig_observation := RawConfig_observation raw;
     RawConfig_launch := launch; RawConfig_input := RawConfig_input raw |}.

Definition replace_if_valid (candidate : RawConfig) : Edit :=
  let! _ := lift (RawConfig_validate candidate euid) in
  set_raw candidate.

Definition set_enabled (enabled : bool) : Edit :=
  let! raw := gets PolicyDraft_raw in
  set_raw (with_enabled enabled raw) ;!
  edit_document (put "" "enabled" (Toml_Boolean enabled)).

Definition set_resource_limits (max_sessions max_requests io_timeout : Z) : Edit :=
  let! raw := gets PolicyDraft_raw in
  replace_if_valid (with_limits max_sessions max_requests io_timeout raw) ;!
  edit_document (put "" "max_sessions" (Toml_Integer max_sessions)) ;!
  edit_document (put "" "max_requests_per_session" (Toml_Integer max_requests)) ;!
  edit_document (put "" "io_timeout_ms" (Toml_Integer io_timeout)).

(** The getters [capabilities], [launch_allow], [launch_deny]. *)
Definition capabilities (self : PolicyDraft D) : list Capability :=
  match RawConfig_grant (PolicyDraft_raw self) with
  | None => []
  | Some grant => as_slice (RawGrant_capabilities grant)
  end.
Definition launch_allow (self : PolicyDraft D) : list ApplicationId :=
  as_slice (RawLaunch_allow (RawConfig_launch (PolicyDraft_raw self))).
Definition launch_deny (self : PolicyDraft D) : list ApplicationId :=
  as_slice (RawLaunch_deny (RawConfig_launch (PolicyDraft_raw self))).

Definition set_capabilities (values : list Capability) : Edit :=
  let! list := lift (map_err BoundError_to_string (BoundedList_new values)) in
  let! raw := gets PolicyDraft_raw in
  replace_if_valid (with_grant (Some {| RawGrant_uid := euid; RawGrant_capabilities := list |}) raw) ;!
  edit_document (ensure_table "grant") ;!
  edit_document (put "grant" "uid" (Toml_Integer euid)) ;!
  let! rendered := gets (λ self, bstr ∘ capability_name <$> capabilities self) in
  edit_document (put "grant" "capabilities" (Toml_Array rendered)).

Definition clear_grant : Edit :=
  let! raw := gets PolicyDraft_raw in
  set_raw (with_grant None raw) ;!
  edit_document (remove_table "grant").

Definition set_observation (clients : ClientScope) (titles : bool) : Edit :=
  let! raw := gets PolicyDraft_raw in
  replace_if_valid (with_observation {| RawObservation_clients := clients;
                                        RawObservation_titles := titles |} raw) ;!
  edit_document (ensure_table "observation") ;!
  edit_document (put "observation" "clients" (Toml_String (bstr (client_scope_name clients)))) ;!
  edit_document (put "observation" "titles" (Toml_Boolean titles)).

Definition string_array (values : list ApplicationId) : TomlValue := Toml_Array (as_str <$> values).

Definition set_launch (mode : LaunchMode) (allow deny : list ApplicationId)
  (allow_user_entries : bool) : Edit :=
  let! allow := lift (map_err BoundError_to_string (BoundedList_new allow)) in
  let! deny := lift (map_err BoundError_to_string (BoundedList_new deny)) in
  let! raw := gets PolicyDraft_raw in
  replace_if_valid (with_launch {| RawLaunch_mode := mode; RawLaunch_allow := allow;
                                   RawLaunch_deny := deny;
                                   RawLaunch_allow_user_entries := allow_user_entries |} raw) ;!
  edit_document (ensure_table "launch") ;!
  edit_document (put "launch" "mode" (Toml_String (bstr (launch_mode_name mode)))) ;!
  let! allow := gets launch_allow in
  edit_document (put "launch" "allow" (string_array allow)) ;!
  let! deny := gets launch_deny in
  edit_document (put "launch" "deny" (string_array deny)) ;!
  edit_document (put "launch" "allow_user_entries" (Toml_Boolean allow_user_entries)).

Definition set_launch_mode (mode : LaunchMode) : Edit :=
  let! allow := gets launch_allow in
  let! deny := gets launch_deny in
  let! user := gets (λ self, RawLaunch_allow_user_entries (RawConfig_launch (PolicyDraft_raw self))) in
  set_launch mode allow deny user.
End draft.

(** ** The default path *)

Definition default_path (XDG_CONFIG_HOME HOME : option str) : result str string :=
  match XDG_CONFIG_HOME with
  | Some base =>
      if negb (is_absolute base) then Err "XDG_CONFIG_HOME must be absolute"%string
      else Ok (path_join base (bstr "agent-seat/config.toml"))
  | None =>
      let? home := ok_or HOME
        "neither XDG_CONFIG_HOME nor HOME is available for configuration discovery"%string in
      if negb (is_absolute home) then Err "HOME must be absolute"%string
      else Ok (path_join home (bstr ".config/agent-seat/config.toml"))
  end.
