(* ===== verification/X11.v ===== *)
(** * The X server, and how [agent-seat-x11/src/observer.rs] reads properties from it

    [XServer W] is the provider's environment: the requests of the [x11rb] connection it
    makes and the monotonic clock, as operations on a state [W] that other clients of the
    server may change between any two of them.  [XServerLaws] is what the code relies on:
    replies carry values of their wire types, windows have nonzero extents (the core
    protocol rejects zero ones), and time does not run backwards. *)

From S2P Require Import Prelude Text Protocol Message Effects.

(** Why a request has no reply: it could not be sent, the server answered with an error
    (and whether that error was a bad window), or the connection broke. *)
Inductive XError :=
| XError_Request
| XError_Server (bad_window : bool)
| XError_Connection.

Record GetPropertyReply := {
  reply_type : Z;
  reply_format : Z;
  reply_bytes_after : Z;
  reply_value : bytes;
  reply_value32 : option (list Z)  (** [GetPropertyReply::value32] *)
}.

(** What the code uses of [GetWindowAttributesReply]. *)
Record WindowAttributes := { attributes_map_state : Z; attributes_visual : Z }.

(** [MapState::VIEWABLE] *)
Definition VIEWABLE : Z := 2.

Record Geometry := { geometry_width : Z; geometry_height : Z; geometry_depth : Z }.

(** [ClientMessageEvent] of format 32. *)
Record ClientMessageEvent := { message_window : Z; message_type : Z; message_data : list Z }.

Definition NANOS_PER_MS : Z := 1000000.

Class XServer (W : Type) := {
  intern_atom : bytes → M W XError Z;
  (** window, property, type, offset 0, length in 32-bit units *)
  get_property : Z → Z → Z → Z → M W XError GetPropertyReply;
  get_geometry : Z → M W XError Geometry;
  (** source window, destination window, and the point to translate *)
  translate_coordinates : Z → Z → Z → Z → M W XError (Z * Z);
  get_window_attributes : Z → M W XError WindowAttributes;
  composite_query_version : Z → Z → M W XError (Z * Z);
  composite_redirect_window : Z → M W XError unit;
  composite_unredirect_window : Z → M W XError unit;
  grab_server : M W XError unit;
  ungrab_server : M W XError unit;
  send_event : Z → ClientMessageEvent → M W XError unit;
  flush : M W XError unit;
  (** [Instant::now], in nanoseconds, and [thread::sleep] *)
  now : W → Z * W;
  sleep : Z → W → W;
  clock : W → Z;
  (** the iteration order of a [HashSet] *)
  hash_order : list Z → list Z
}.

Definition replies {W A} (m : M W XError A) (P : A → Prop) : Prop :=
  ∀ w a w', m w = (Ok a, w') → P a.

Class XServerLaws (W : Type) `{XServer W} : Prop := {
  get_property_typed window property type n :
    replies (get_property window property type n)
      (λ r, opt (Forall is_u32) (reply_value32 r));
  get_geometry_typed window :
    replies (get_geometry window) (λ g,
      0 < geometry_width g ≤ U16_MAX ∧ 0 < geometry_height g ≤ U16_MAX);
  hash_order_permutation l : hash_order l ≡ₚ l;

  intern_atom_clock name :: Advances clock (intern_atom name);
  get_property_clock window property type n :: Advances clock (get_property window property type n);
  get_geometry_clock window :: Advances clock (get_geometry window);
  translate_coordinates_clock source destination x y ::
    Advances clock (translate_coordinates source destination x y);
  get_window_attributes_clock window :: Advances clock (get_window_attributes window);
  composite_query_version_clock major minor :: Advances clock (composite_query_version major minor);
  composite_redirect_window_clock window :: Advances clock (composite_redirect_window window);
  composite_unredirect_window_clock window :: Advances clock (composite_unredirect_window window);
  grab_server_clock :: Advances clock grab_server;
  ungrab_server_clock :: Advances clock ungrab_server;
  send_event_clock window event :: Advances clock (send_event window event);
  flush_clock :: Advances clock flush;
  now_clock w : clock w ≤ (now w).1 ≤ clock (now w).2;
  sleep_clock d w : clock w + Z.max 0 d ≤ clock (sleep d w)
}.

(** ** Failures *)

Record Failure := {
  Failure_code : ErrorCode;
  Failure_retry : Retry;
  Failure_message : string;
  Failure_current_generation : option Generation;
  Failure_current_sequence : option Sequence
}.

Definition failure (code : ErrorCode) (retry : Retry) (message : string) : Failure :=
  {| Failure_code := code; Failure_retry := retry; Failure_message := message;
     Failure_current_generation := None; Failure_current_sequence := None |}.

Definition Failure_unavailable : string → Failure := failure ErrorCode_Unavailable Retry_Reconnect.
Definition Failure_unsupported : string → Failure := failure ErrorCode_Unsupported Retry_Never.
Definition Failure_invalid : string → Failure := failure ErrorCode_InvalidArgument Retry_Never.
Definition Failure_invalid_owned : string → Failure := failure ErrorCode_InvalidArgument Retry_Never.
Definition Failure_malformed : string → Failure := failure ErrorCode_Malformed Retry_Reobserve.
Definition Failure_too_large : string → Failure := failure ErrorCode_TooLarge Retry_Never.
Definition Failure_internal : string → Failure := failure ErrorCode_Internal Retry_Never.

Definition Failure_resync (sequence : Z) : Failure :=
  {| Failure_code := ErrorCode_ResyncRequired; Failure_retry := Retry_Reobserve;
     Failure_message := "event cursor is outside the retained observation history";
     Failure_current_generation := None; Failure_current_sequence := Some sequence |}.

(** ** Atoms *)

Definition NONE : Z := 0.
(** [AtomEnum] *)
Definition ATOM : Z := 4.
Definition CARDINAL : Z := 6.
Definition WINDOW : Z := 33.

Record Atoms := {
  supported : Z; client_list_atom : Z; client_list_stacking : Z; number_of_desktops : Z;
  current_desktop : Z; desktop_names : Z; active_window : Z; workarea : Z;
  supporting_wm_check : Z; wm_visible_name : Z; wm_name : Z; wm_desktop : Z; wm_state : Z;
  wm_allowed_actions : Z; frame_extents : Z; moveresize_window : Z; close_window : Z;
  wm_protocols : Z; wm_delete_window : Z; client_leader : Z; startup_id : Z; utf8_atom : Z;
  clipboard : Z; targets : Z; text_plain_utf8 : Z; text_plain : Z;
  state_above : Z; state_below : Z; state_fullscreen : Z; state_hidden : Z;
  state_maximized_horz : Z; state_maximized_vert : Z; state_demands_attention : Z;
  state_sticky : Z; state_shaded : Z;
  action_above : Z; action_below : Z; action_fullscreen : Z; action_maximize_horz : Z;
  action_maximize_vert : Z; action_shade : Z; action_stick : Z; action_close : Z;
  action_change_desktop : Z; action_move : Z; action_resize : Z
}.

Section x11.
Context {W : Type} `{XServer W}.

(** What a failed request and a failed reply are reported as. *)
Definition request_or_reply (request reply : string) (e : XError) : Failure :=
  match e with
  | XError_Request => Failure_unavailable request
  | _ => Failure_unavailable reply
  end.

Definition atom (name : string) : M W Failure Z :=
  map_error (request_or_reply "cannot request an X11 atom" "cannot intern an X11 atom")
    (intern_atom (bstr name)).

Definition Atoms_intern : M W Failure Atoms :=
  let! supported := atom "_NET_SUPPORTED" in
  let! client_list := atom "_NET_CLIENT_LIST" in
  let! client_list_stacking := atom "_NET_CLIENT_LIST_STACKING" in
  let! number_of_desktops := atom "_NET_NUMBER_OF_DESKTOPS" in
  let! current_desktop := atom "_NET_CURRENT_DESKTOP" in
  let! desktop_names := atom "_NET_DESKTOP_NAMES" in
  let! active_window := atom "_NET_ACTIVE_WINDOW" in
  let! workarea := atom "_NET_WORKAREA" in
  let! supporting_wm_check := atom "_NET_SUPPORTING_WM_CHECK" in
  let! wm_visible_name := atom "_NET_WM_VISIBLE_NAME" in
  let! wm_name := atom "_NET_WM_NAME" in
  let! wm_desktop := atom "_NET_WM_DESKTOP" in
  let! wm_state := atom "_NET_WM_STATE" in
  let! wm_allowed_actions := atom "_NET_WM_ALLOWED_ACTIONS" in
  let! frame_extents := atom "_NET_FRAME_EXTENTS" in
  let! moveresize_window := atom "_NET_MOVERESIZE_WINDOW" in
  let! close_window := atom "_NET_CLOSE_WINDOW" in
  let! wm_protocols := atom "WM_PROTOCOLS" in
  let! wm_delete_window := atom "WM_DELETE_WINDOW" in
  let! client_leader := atom "WM_CLIENT_LEADER" in
  let! startup_id := atom "_NET_STARTUP_ID" in
  let! utf8_string := atom "UTF8_STRING" in
  let! clipboard := atom "CLIPBOARD" in
  let! targets := atom "TARGETS" in
  let! text_plain_utf8 := atom "text/plain;charset=utf-8" in
  let! text_plain := atom "text/plain" in
  let! state_above := atom "_NET_WM_STATE_ABOVE" in
  let! state_below := atom "_NET_WM_STATE_BELOW" in
  let! state_fullscreen := atom "_NET_WM_STATE_FULLSCREEN" in
  let! state_hidden := atom "_NET_WM_STATE_HIDDEN" in
  let! state_maximized_horz := atom "_NET_WM_STATE_MAXIMIZED_HORZ" in
  let! state_maximized_vert := atom "_NET_WM_STATE_MAXIMIZED_VERT" in
  let! state_demands_attention := atom "_NET_WM_STATE_DEMANDS_ATTENTION" in
  let! state_sticky := atom "_NET_WM_STATE_STICKY" in
  let! state_shaded := atom "_NET_WM_STATE_SHADED" in
  let! action_above := atom "_NET_WM_ACTION_ABOVE" in
  let! action_below := atom "_NET_WM_ACTION_BELOW" in
  let! action_fullscreen := atom "_NET_WM_ACTION_FULLSCREEN" in
  let! action_maximize_horz := atom "_NET_WM_ACTION_MAXIMIZE_HORZ" in
  let! action_maximize_vert := atom "_NET_WM_ACTION_MAXIMIZE_VERT" in
  let! action_shade := atom "_NET_WM_ACTION_SHADE" in
  let! action_stick := atom "_NET_WM_ACTION_STICK" in
  let! action_close := atom "_NET_WM_ACTION_CLOSE" in
  let! action_change_desktop := atom "_NET_WM_ACTION_CHANGE_DESKTOP" in
  let! action_move := atom "_NET_WM_ACTION_MOVE" in
  let! action_resize := atom "_NET_WM_ACTION_RESIZE" in
  ret (Build_Atoms supported client_list client_list_stacking number_of_desktops
    current_desktop desktop_names active_window workarea supporting_wm_check
    wm_visible_name wm_name wm_desktop wm_state wm_allowed_actions frame_extents
    moveresize_window close_window wm_protocols wm_delete_window client_leader startup_id
    utf8_string clipboard targets text_plain_utf8 text_plain state_above state_below
    state_fullscreen state_hidden state_maximized_horz state_maximized_vert
    state_demands_attention state_sticky state_shaded action_above action_below
    action_fullscreen action_maximize_horz action_maximize_vert action_shade action_stick
    action_close action_change_desktop action_move action_resize).

(** ** Properties *)

Definition property32 (window property expected_type max_items : Z)
  : M W Failure (option (list Z)) :=
  let! long_length := lift (ok_or (checked_u32 max_items)
    (Failure_internal "property item bound cannot be represented")) in
  let! reply := map_error (request_or_reply "cannot request an X11 property"
                             "cannot read an X11 property")
                  (get_property window property expected_type long_length) in
  if reply_type reply =? NONE then ret None
  else if negb (reply_type reply =? expected_type) || negb (reply_format reply =? 32)
  then fail (Failure_malformed "an EWMH property has the wrong type or format")
  else if negb (reply_bytes_after reply =? 0)
  then fail (Failure_too_large "an EWMH property exceeds its public bound")
  else
    let! values := lift (ok_or (reply_value32 reply)
                           (Failure_malformed "an EWMH property is not 32-bit")) in
    if max_items <? len values
    then fail (Failure_too_large "an EWMH property exceeds its public bound")
    else ret (Some values).

Definition property_bytes (window property expected_type max_bytes : Z)
  : M W Failure (option bytes) :=
  let! longs := lift (ok_or (checked_u32 ((max_bytes + 3) / 4))
    (Failure_internal "property byte bound cannot be represented")) in
  let! reply := map_error (request_or_reply "cannot request an X11 text property"
                             "cannot read an X11 text property")
                  (get_property window property expected_type longs) in
  if reply_type reply =? NONE then ret None
  else if negb (reply_type reply =? expected_type) || negb (reply_format reply =? 8)
  then fail (Failure_malformed "an EWMH text property has the wrong type or format")
  else if negb (reply_bytes_after reply =? 0) || (max_bytes <? len (reply_value reply))
  then fail (Failure_too_large "an EWMH text property exceeds its public bound")
  else ret (Some (reply_value reply)).

(** [.ok().flatten()] *)
Definition ok_flatten {E F A} (m : M W E (option A)) : M W F (option A) :=
  let! r := attempt m in ret (match r with Ok (Some a) => Some a | _ => None end).

Definition optional_cardinal (window property : Z) : M W Failure (option Z) :=
  let! values := ok_flatten (property32 window property CARDINAL 1) in
  ret (match values with Some [v] => Some v | _ => None end).

Definition optional_window (window property : Z) : M W Failure (option Z) :=
  let! values := ok_flatten (property32 window property WINDOW 1) in
  ret (match values with Some [v] => if v =? NONE then None else Some v | _ => None end).

Definition required_cardinal (window property : Z) : M W Failure Z :=
  let! value := optional_cardinal window property in
  lift (ok_or value
    (Failure_unsupported "required EWMH workspace property is unavailable")).
End x11.

#[global] Typeclasses Opaque property32 property_bytes optional_cardinal optional_window
  required_cardinal.

(** ** What the readers return *)

Section x11_facts.
Context {W : Type} `{XServerLaws W}.

Lemma wp_replies {A} (m : M W XError A) (P : A → Prop) w :
  replies m P → wp m (λ a _, P a) (λ _ _, True) w.
Proof. unfold wp. intros Hm. destruct (m w) as [[a|e] w'] eqn:Hrun; [|done]. by eapply Hm. Qed.

Lemma property32_post window property type max w :
  wp (property32 window property type max)
    (λ v _, opt (λ l, Forall is_u32 l ∧ len l ≤ max) v) (λ _ _, True) w.
Proof.
  unfold property32. wp_step. apply wp_lift; [|done]. intros n _. do 2 wp_step.
  wp_call wp_replies; [apply get_property_typed| |done].
  intros r w1 Hr. wp_step; [by wp_step|]. wp_step; [done|]. wp_step; [done|]. wp_step.
  apply wp_lift; [|done]. intros l Hl. wp_step; [done|]. apply wp_ret. intros l' [= <-].
  bool_props. split; [|done]. apply Hr. by destruct (reply_value32 r); simplify_eq/=.
Qed.

Lemma property_bytes_post window property type max w :
  wp (property_bytes window property type max)
    (λ v _, opt (λ l, len l ≤ max) v) (λ _ _, True) w.
Proof.
  unfold property_bytes. wp_step. apply wp_lift; [|done]. intros n _. do 2 wp_step.
  wp_call wp_replies; [apply get_property_typed| |done].
  intros r w1 _. wp_step; [by wp_step|]. wp_step; [done|]. wp_step; [done|].
  apply wp_ret. intros l' [= <-]. by bool_props.
Qed.

Lemma ok_flatten_post {E F A} (m : M W E (option A)) (P : A → Prop) w :
  wp m (λ v _, opt P v) (λ _ _, True) w →
  wp (S:=W) (E:=F) (ok_flatten m) (λ v _, opt P v) (λ _ _, False) w.
Proof.
  intros Hm. unfold ok_flatten. do 2 wp_step. eapply wp_mono; [exact Hm|..].
  - intros v w1 Hv. apply wp_ret. destruct v; [|done]. intros ? [= <-]. by apply Hv.
  - intros e w1 _. by apply wp_ret.
Qed.

Lemma optional_cardinal_post window property w :
  wp (optional_cardinal window property) (λ v _, opt is_u32 v) (λ _ _, False) w.
Proof.
  unfold optional_cardinal. wp_step.
  eapply wp_mono; [apply ok_flatten_post, property32_post| |done].
  intros [[|v []]|] w1 Hv; apply wp_ret; try done. intros ? [= <-].
  destruct (Hv _ eq_refl) as [Hu _]. by rewrite Forall_singleton in Hu.
Qed.

Lemma optional_window_post window property w :
  wp (optional_window window property) (λ v _, opt (λ x, is_u32 x ∧ x ≠ NONE) v) (λ _ _, False) w.
Proof.
  unfold optional_window. wp_step.
  eapply wp_mono; [apply ok_flatten_post, property32_post| |done].
  intros [[|v []]|] w1 Hv; apply wp_ret; try done. case_match; [done|]. intros ? [= <-].
  bool_props. destruct (Hv _ eq_refl) as [Hu _]. by rewrite Forall_singleton in Hu.
Qed.

(** *** The clock *)

#[export] Instance property32_clock window property type max :
  Advances clock (property32 window property type max).
Proof. unfold property32. solve_advances. Qed.
#[export] Instance property_bytes_clock window property type max :
  Advances clock (property_bytes window property type max).
Proof. unfold property_bytes. solve_advances. Qed.
#[export] Instance ok_flatten_clock {E F A} (m : M W E (option A)) :
  Advances clock m → Advances (E:=F) clock (ok_flatten m).
Proof. intros. unfold ok_flatten. solve_advances. Qed.
#[export] Instance optional_cardinal_clock window property :
  Advances clock (optional_cardinal window property).
Proof. unfold optional_cardinal. solve_advances. Qed.
#[export] Instance optional_window_clock window property :
  Advances clock (optional_window window property).
Proof. unfold optional_window. solve_advances. Qed.
#[export] Instance required_cardinal_clock window property :
  Advances clock (required_cardinal window property).
Proof. unfold required_cardinal. solve_advances. Qed.
End x11_facts.
