(* ===== verification/Scan.v ===== *)
(** * [agent-seat-x11/src/observer.rs], [scan]: one reading of the desktop

    [scan] reads the window manager's advertised facts and the visible clients.  Every
    property is untrusted: what is missing, malformed or over its bound is an error or an
    absent fact. *)

From Stdlib Require Import Sorted.
From S2P Require Import Prelude Text Bounded Protocol Message MessageSpec Effects Config X11.

Definition MAX_ROOT_ATOMS : Z := 256.
Definition MAX_CLIENT_ATOMS : Z := 64.
Definition MAX_STARTUP_ID_BYTES : Z := 256.

Record RawClient := {
  RawClient_xid : Z;
  RawClient_title : option Title;
  RawClient_workspace : option WorkspaceId;
  RawClient_frame : option Rect;
  RawClient_states : list ClientState;
  RawClient_actions : list ClientAction
}.

Record RawDesktop := {
  RawDesktop_current_workspace : WorkspaceId;
  RawDesktop_workspaces : list WorkspaceDescriptor;
  RawDesktop_clients : list RawClient;
  RawDesktop_active : option Z
}.

Inductive Placement :=
| Placement_Workspace (workspace : WorkspaceId)
| Placement_Sticky
| Placement_Unknown.

(** [values.contains(&atom)] *)
Definition has_atom (atom : Z) (values : list Z) : bool := bool_decide (atom ∈ values).

(** [values.get(from..from + 4)] *)
Definition get_4 (from : Z) (values : list Z) : option (list Z) :=
  if from + 4 <=? len values then Some (take 4 (drop (Z.to_nat from) values)) else None.

Definition rect_from_cardinals (values : list Z) : option Rect :=
  match values !! 0%nat, values !! 1%nat, values !! 2%nat, values !! 3%nat with
  | Some x, Some y, Some width, Some height =>
      match checked_i32 x, checked_i32 y with
      | Some x, Some y =>
          if negb (width =? 0) && negb (height =? 0)
          then Some {| Rect_x := x; Rect_y := y; Rect_width := width; Rect_height := height |}
          else None
      | _, _ => None
      end
  | _, _, _, _ => None
  end.

Definition parse_workspace_name (name : bytes) : option WorkspaceName :=
  if utf8_valid name && negb (is_empty name) then result_ok (BoundedText_new name) else None.

(** [bytes.split(0).take(count)] with [names.resize(count, None)]. *)
Definition parse_workspace_names (b : bytes) (count : nat) : list (option WorkspaceName) :=
  let names := parse_workspace_name <$> take count (split 0 b) in
  take count names ++ replicate (count - length names) None.

(** The filter of [client_list]: no null window, and the first of equal ones. *)
Fixpoint distinct_windows (seen xids : list Z) : list Z :=
  match xids with
  | [] => []
  | xid :: xids =>
      if negb (xid =? NONE) && negb (bool_decide (xid ∈ seen))
      then xid :: distinct_windows (xid :: seen) xids
      else distinct_windows seen xids
  end.

(** [filter_map(|(atom, state)| values.contains(&atom).then_some(state))] *)
Definition select {A} (table : list (Z * A)) (values : list Z) : list A :=
  omap (λ '(atom, a), if has_atom atom values then Some a else None) table.

Definition state_table (atoms : Atoms) : list (Z * ClientState) :=
  [(state_above atoms, ClientState_Above); (state_below atoms, ClientState_Below);
   (state_fullscreen atoms, ClientState_Fullscreen); (state_hidden atoms, ClientState_Hidden);
   (state_maximized_horz atoms, ClientState_MaximizedHorizontal);
   (state_maximized_vert atoms, ClientState_MaximizedVertical);
   (state_demands_attention atoms, ClientState_DemandsAttention);
   (state_sticky atoms, ClientState_Sticky); (state_shaded atoms, ClientState_Shaded)].

(** What [client_actions] derives from the supported atoms of the window manager and the
    allowed actions and protocols of the client. *)
Definition actions_from (atoms : Atoms) (supp allowed protocols : list Z) : list ClientAction :=
  let supports atom := has_atom atom supp in
  let allows atom := has_atom atom allowed in
  (if supports (active_window atoms) then [ClientAction_Activate] else []) ++
  (if supports (close_window atoms) && allows (action_close atoms)
      && has_atom (wm_delete_window atoms) protocols
   then [ClientAction_Close] else []) ++
  (if supports (wm_desktop atoms) && allows (action_change_desktop atoms)
   then [ClientAction_ChangeWorkspace] else []) ++
  (if supports (wm_state atoms)
      && (supports (state_demands_attention atoms)
          || existsb (λ '(action, state), allows action && supports state)
               [(action_above atoms, state_above atoms); (action_below atoms, state_below atoms);
                (action_fullscreen atoms, state_fullscreen atoms);
                (action_maximize_horz atoms, state_maximized_horz atoms);
                (action_maximize_vert atoms, state_maximized_vert atoms);
                (action_shade atoms, state_shaded atoms); (action_stick atoms, state_sticky atoms)])
   then [ClientAction_ChangeState] else []) ++
  (if supports (moveresize_window atoms)
      && (allows (action_move atoms) || allows (action_resize atoms))
   then [ClientAction_ChangeGeometry] else []).

Section scan.
Context {W : Type} `{XServer W}.

Definition validate_wm (root : Z) (atoms : Atoms) : M W Failure unit :=
  let! check := optional_window root (supporting_wm_check atoms) in
  match check with
  | None => fail (Failure_unsupported "no conforming EWMH window manager is active")
  | Some check =>
      let! again := optional_window check (supporting_wm_check atoms) in
      if bool_decide (again ≠ Some check)
      then fail (Failure_unsupported "the EWMH window-manager check is stale")
      else ret tt
  end.

Definition read_workspaces (root : Z) (atoms : Atoms) (count : Z)
  : M W Failure (list WorkspaceDescriptor) :=
  let count := Z.to_nat count in
  let! b := ok_flatten (property_bytes root (desktop_names atoms) (utf8_atom atoms)
                          (MAX_WORKSPACES * (MAX_WORKSPACE_NAME_BYTES + 1))) in
  let names := match b with
               | Some b => parse_workspace_names b count
               | None => replicate count None
               end in
  let! work_areas := ok_flatten (property32 root (workarea atoms) CARDINAL
                                   (MAX_WORKSPACES * 4)) in
  let work_areas := default [] work_areas in
  traverse (λ index : nat,
    let work_area := get_4 (Z.of_nat index * 4) work_areas ≫= rect_from_cardinals in
    let! id := lift (ok_or (checked_u16 (Z.of_nat index))
                       (Failure_internal "workspace index exceeded its bound")) in
    ret {| WorkspaceDescriptor_id := id;
           WorkspaceDescriptor_name := mjoin (names !! index);
           WorkspaceDescriptor_work_area := work_area |}) (seq 0 count).

Definition client_list (root : Z) (atoms : Atoms) : M W Failure (list Z) :=
  let! stacking := property32 root (client_list_stacking atoms) WINDOW MAX_CLIENTS in
  let! clients :=
    match stacking with
    | Some clients => ret clients
    | None =>
        let! clients := property32 root (client_list_atom atoms) WINDOW MAX_CLIENTS in
        ret (default [] clients)
    end in
  ret (distinct_windows [] clients).

Definition atom_list (window property : Z) : M W Failure (list Z) :=
  let! values := ok_flatten (property32 window property ATOM MAX_CLIENT_ATOMS) in
  ret (default [] values).

Definition client_states (xid : Z) (atoms : Atoms) : M W Failure (list ClientState) :=
  let! values := atom_list xid (wm_state atoms) in
  ret (select (state_table atoms) values).

Definition client_actions (xid : Z) (atoms : Atoms) (supp : list Z)
  : M W Failure (list ClientAction) :=
  let! allowed := atom_list xid (wm_allowed_actions atoms) in
  let! protocols := atom_list xid (wm_protocols atoms) in
  ret (actions_from atoms supp allowed protocols).

Definition client_placement (xid : Z) (atoms : Atoms) (states : list ClientState)
  (workspace_count : Z) : M W Failure Placement :=
  if bool_decide (ClientState_Sticky ∈ states) then ret Placement_Sticky
  else
    let! desktop := optional_cardinal xid (wm_desktop atoms) in
    ret (match desktop with
         | Some workspace =>
             if workspace =? U32_MAX then Placement_Sticky
             else if (workspace <? workspace_count) && (workspace <=? U16_MAX)
             then Placement_Workspace (workspace mod 65536)
             else Placement_Unknown
         | None => Placement_Unknown
         end).

Definition title_from (b : bytes) : option Title :=
  if utf8_valid b && negb (is_empty b) then result_ok (BoundedText_new b) else None.

Fixpoint first_title (xid : Z) (atoms : Atoms) (properties : list Z)
  : M W Failure (option Title) :=
  match properties with
  | [] => ret None
  | property :: properties =>
      let! b := ok_flatten (property_bytes xid property (utf8_atom atoms) MAX_TITLE_BYTES) in
      match b ≫= title_from with
      | Some title => ret (Some title)
      | None => first_title xid atoms properties
      end
  end.

Definition client_title (xid : Z) (atoms : Atoms) : M W Failure (option Title) :=
  first_title xid atoms [wm_visible_name atoms; wm_name atoms].

(** The left, right, top and bottom border widths, all zero unless exactly four are advertised. *)
Definition client_frame_extents (xid : Z) (atoms : Atoms) : M W Failure (Z * Z * Z * Z) :=
  let! values := ok_flatten (property32 xid (frame_extents atoms) CARDINAL 4) in
  ret (match values with
       | Some [l; r; t; b] => (l, r, t, b)
       | _ => (0, 0, 0, 0)
       end).

(** The frame around a [width] by [height] window whose origin is at [x], [y]. *)
Definition frame_from (x y width height : Z) (extents : Z * Z * Z * Z) : option Rect :=
  let '(l, r, t, b) := extents in
  checked_i32 l ≫= λ left,
  checked_i32 t ≫= λ top,
  checked_i32 (x - left) ≫= λ x,
  checked_i32 (y - top) ≫= λ y,
  checked_u32 (width + l) ≫= λ width,
  checked_u32 (width + r) ≫= λ width,
  checked_u32 (height + t) ≫= λ height,
  checked_u32 (height + b) ≫= λ height,
  Some {| Rect_x := x; Rect_y := y; Rect_width := width; Rect_height := height |}.

Definition client_frame (root xid : Z) (atoms : Atoms) : M W Failure (option Rect) :=
  let! geometry := attempt (get_geometry xid) in
  match geometry with
  | Err _ => ret None
  | Ok geometry =>
      let! translated := attempt (translate_coordinates xid root 0 0) in
      match translated with
      | Err _ => ret None
      | Ok (x, y) =>
          let! extents := client_frame_extents xid atoms in
          ret (frame_from x y (geometry_width geometry) (geometry_height geometry) extents)
      end
  end.

Definition read_client (root : Z) (atoms : Atoms) (supp : list Z) (xid : Z)
  (current_workspace : WorkspaceId) (workspace_count : Z) (scope : ClientScope)
  (show_titles : bool) : M W Failure (option RawClient) :=
  let! states := client_states xid atoms in
  let! placement := client_placement xid atoms states workspace_count in
  let in_scope :=
    match scope with
    | ClientScope_None => false
    | ClientScope_AllWorkspaces => true
    | ClientScope_CurrentWorkspace =>
        match placement with
        | Placement_Sticky => true
        | Placement_Workspace workspace => workspace =? current_workspace
        | Placement_Unknown => false
        end
    end in
  if negb in_scope then ret None
  else
    let workspace := match placement with
                     | Placement_Workspace workspace => Some workspace
                     | Placement_Sticky | Placement_Unknown => None
                     end in
    let! title := if show_titles then client_title xid atoms else ret None in
    let! frame := client_frame root xid atoms in
    let! actions := client_actions xid atoms supp in
    ret (Some {| RawClient_xid := xid; RawClient_title := title;
                 RawClient_workspace := workspace; RawClient_frame := frame;
                 RawClient_states := states; RawClient_actions := actions |}).

Definition scan (root : Z) (atoms : Atoms) (scope : ClientScope) (show_titles : bool)
  : M W Failure RawDesktop :=
  validate_wm root atoms ;!
  let! workspace_count := required_cardinal root (number_of_desktops atoms) in
  if (workspace_count =? 0) || (MAX_WORKSPACES <? workspace_count)
  then fail (Failure_too_large "workspace count is outside the public bound")
  else
    let! current := required_cardinal root (current_desktop atoms) in
    if (workspace_count <=? current) || (U16_MAX <? current)
    then fail (Failure_malformed "current workspace is outside the advertised range")
    else
      let current_workspace := current mod 65536 in
      let! workspaces := read_workspaces root atoms workspace_count in
      let! supp := property32 root (supported atoms) ATOM MAX_ROOT_ATOMS in
      let supp := default [] supp in
      let! clients :=
        match scope with
        | ClientScope_None => ret []
        | ClientScope_CurrentWorkspace | ClientScope_AllWorkspaces =>
            let! xids := client_list root atoms in
            let! clients := traverse (λ xid, read_client root atoms supp xid current_workspace
                                        workspace_count scope show_titles) xids in
            ret (omap id clients)
        end in
      let! active := optional_window root (active_window atoms) in
      ret {| RawDesktop_current_workspace := current_workspace;
             RawDesktop_workspaces := workspaces;
             RawDesktop_clients := clients;
             RawDesktop_active :=
               active ≫= λ xid, if bool_decide (xid ∈ RawClient_xid <$> clients)
                                then Some xid else None |}.

Definition client_startup_id_matches (xid : Z) (atoms : Atoms) (expected : bytes)
  : M W Failure bool :=
  let! leader := optional_window xid (client_leader atoms) in
  let matches window :=
    let! value := ok_flatten (property_bytes window (startup_id atoms) (utf8_atom atoms)
                                MAX_STARTUP_ID_BYTES) in
    ret (bool_decide (value = Some expected)) in
  let! own := matches xid in
  if own then ret true
  else match leader with Some leader => matches leader | None => ret false end.
End scan.

(** ** What a scan returns *)

Definition RawClient_wf (c : RawClient) : Prop :=
  opt nonempty_text (RawClient_title c) ∧ opt Rect_wf (RawClient_frame c)
  ∧ canonical (RawClient_states c) ∧ canonical (RawClient_actions c)
  ∧ len (RawClient_states c) ≤ 16 ∧ len (RawClient_actions c) ≤ 8.

Definition RawDesktop_wf (raw : RawDesktop) : Prop :=
  let xids := RawClient_xid <$> RawDesktop_clients raw in
  let workspaces := WorkspaceDescriptor_id <$> RawDesktop_workspaces raw in
  Forall WorkspaceDescriptor_wf (RawDesktop_workspaces raw) ∧ NoDup workspaces
  ∧ RawDesktop_current_workspace raw ∈ workspaces
  ∧ len (RawDesktop_workspaces raw) ≤ MAX_WORKSPACES
  ∧ Forall RawClient_wf (RawDesktop_clients raw) ∧ NoDup xids
  ∧ len (RawDesktop_clients raw) ≤ MAX_CLIENTS
  ∧ opt (λ xid, xid ∈ xids) (RawDesktop_active raw).

Lemma select_elem_of {A} (table : list (Z * A)) values a :
  a ∈ select table values → a ∈ table.*2.
Proof.
  intros ([atom a'] & Hin & Ha)%list_elem_of_omap. case_match; [|done]. simplify_eq.
  apply list_elem_of_fmap. by exists (atom, a).
Qed.

Lemma select_canonical {A} `{Ord A} (table : list (Z * A)) values :
  canonical table.*2 → canonical (select table values).
Proof.
  unfold canonical. induction table as [|[atom a] table IH]; [by constructor|].
  intros [Hs Hall]%StronglySorted_inv. cbn. destruct (has_atom atom values); [|by apply IH].
  constructor; [by apply IH|]. rewrite Forall_forall in Hall |- *.
  intros b Hb. apply Hall. by eapply select_elem_of.
Qed.

Lemma select_length {A} (table : list (Z * A)) values : len (select table values) ≤ len table.
Proof.
  unfold len, select. induction table as [|[atom a] table IH]; cbn; [lia|].
  case_match; cbn [length]; lia.
Qed.

Lemma state_table_canonical atoms : canonical (state_table atoms).*2.
Proof. apply strictly_ordered_canonical. reflexivity. Qed.

Lemma actions_from_canonical atoms supp allowed protocols :
  canonical (actions_from atoms supp allowed protocols) ∧
  len (actions_from atoms supp allowed protocols) ≤ 8.
Proof.
  unfold actions_from. repeat case_match;
    (split; [by apply strictly_ordered_canonical | unfold len; cbn; lia]).
Qed.

Lemma distinct_windows_spec seen xids :
  NoDup (distinct_windows seen xids) ∧
  (∀ x, x ∈ distinct_windows seen xids → x ∉ seen ∧ x ≠ NONE) ∧
  len (distinct_windows seen xids) ≤ len xids.
Proof.
  revert seen. induction xids as [|xid xids IH]; intros seen; cbn [distinct_windows].
  { split_and!; [constructor|intros ? H%elem_of_nil; done|done]. }
  case_match eqn:Hc; bool_props.
  - destruct (IH (xid :: seen)) as (Hnd & Hin & Hlen). split_and!.
    + constructor; [|done]. intros [Hbad _]%Hin. apply Hbad. by left.
    + intros x [->|Hx]%elem_of_cons; [done|]. apply Hin in Hx as [Hx ?].
      split; [|done]. contradict Hx. by right.
    + rewrite !len_cons. lia.
  - destruct (IH seen) as (Hnd & Hin & Hlen). split_and!; [done..|]. rewrite len_cons. lia.
Qed.

Lemma frame_from_wf x y width height extents r :
  0 < width → 0 < height →
  (let '(l, r, t, b) := extents in is_u32 l ∧ is_u32 r ∧ is_u32 t ∧ is_u32 b) →
  frame_from x y width height extents = Some r → Rect_wf r.
Proof.
  destruct extents as [[[l r'] t] b]. intros Hw Hh Hx Hf. unfold frame_from in Hf.
  repeat match type of Hf with
  | _ ≫= _ = _ => apply bind_Some in Hf as (? & [-> ?]%checked_in_Some & Hf)
  end.
  simplify_eq. split; cbn; int_bounds; lia.
Qed.

Lemma rect_from_cardinals_wf values r : rect_from_cardinals values = Some r → Rect_wf r.
Proof.
  unfold rect_from_cardinals. repeat case_match; try done. bool_props. intros [= <-].
  by split.
Qed.

Lemma parse_workspace_name_wf b name : parse_workspace_name b = Some name → nonempty_text name.
Proof.
  unfold parse_workspace_name, nonempty_text. case_match; [|done]. bool_props.
  destruct (BoundedText_new b) as [t|] eqn:Ht; [|done]. cbn. intros [= <-].
  apply BoundedText_new_Ok in Ht. rewrite Ht. by apply is_empty_false.
Qed.

Lemma title_from_wf b title : title_from b = Some title → nonempty_text title.
Proof.
  unfold title_from, nonempty_text. case_match; [|done]. bool_props.
  destruct (BoundedText_new b) as [t|] eqn:Ht; [|done]. cbn. intros [= <-].
  apply BoundedText_new_Ok in Ht. rewrite Ht. by apply is_empty_false.
Qed.

Lemma parse_workspace_names_wf b count :
  Forall (opt nonempty_text) (parse_workspace_names b count).
Proof.
  unfold parse_workspace_names. apply Forall_app. split.
  - apply Forall_take, Forall_fmap, Forall_true. intros name n. apply parse_workspace_name_wf.
  - by apply Forall_replicate.
Qed.

Section scan_facts.
Context {W : Type} `{XServerLaws W}.

(** Close what a computation leaves when only its absence of a wrong answer matters. *)
Notation anything := (λ _ _, True).

Lemma atom_list_post window property w :
  wp (atom_list window property) anything (λ _ _, False) w.
Proof.
  unfold atom_list. wp_step. wp_call (ok_flatten_post (F:=Failure) _ (λ _, True)); [|done..].
  eapply wp_mono; [apply property32_post|done..].
Qed.

Lemma client_states_post xid atoms w :
  wp (client_states xid atoms) (λ states _, canonical states ∧ len states ≤ 16)
    (λ _ _, False) w.
Proof.
  unfold client_states. wp_step. wp_call atom_list_post; [|done]. intros values w1 _.
  apply wp_ret. split.
  - apply select_canonical, state_table_canonical.
  - etrans; [apply select_length|]. cbn. unfold len. cbn. lia.
Qed.

Lemma client_actions_post xid atoms supp w :
  wp (client_actions xid atoms supp) (λ actions _, canonical actions ∧ len actions ≤ 8)
    (λ _ _, False) w.
Proof.
  unfold client_actions. wp_step. wp_call atom_list_post; [|done]. intros allowed w1 _.
  wp_step. wp_call atom_list_post; [|done]. intros protocols w2 _.
  apply wp_ret, actions_from_canonical.
Qed.

Lemma first_title_post xid atoms properties w :
  wp (first_title xid atoms properties) (λ title _, opt nonempty_text title)
    (λ _ _, False) w.
Proof.
  revert w. induction properties as [|property properties IH]; intros w; cbn [first_title].
  { by apply wp_ret. }
  wp_step. wp_call (ok_flatten_post (F:=Failure) _ (λ _, True)); [| |done].
  { eapply wp_mono; [apply property_bytes_post|done..]. }
  intros b w1 _. destruct (b ≫= title_from) as [title|] eqn:Ht; [|apply IH].
  apply wp_ret. intros ? [= <-]. apply bind_Some in Ht as (? & _ & Ht).
  by eapply title_from_wf.
Qed.

Lemma client_frame_extents_post xid atoms w :
  wp (client_frame_extents xid atoms)
    (λ extents _, let '(l, r, t, b) := extents in is_u32 l ∧ is_u32 r ∧ is_u32 t ∧ is_u32 b)
    (λ _ _, False) w.
Proof.
  unfold client_frame_extents. wp_step.
  wp_call (ok_flatten_post (F:=Failure)); [apply property32_post| |done].
  intros values w1 Hv. apply wp_ret.
  assert (is_u32 0) by (int_bounds; lia).
  destruct values as [[|l [|r [|t [|b []]]]]|]; try done.
  destruct (Hv _ eq_refl) as [Hall _]. rewrite !Forall_cons in Hall. tauto.
Qed.

Lemma client_frame_post root xid atoms w :
  wp (client_frame root xid atoms) (λ frame _, opt Rect_wf frame) (λ _ _, False) w.
Proof.
  unfold client_frame. do 2 wp_step.
  wp_call wp_replies; [apply get_geometry_typed| |intros; by apply wp_ret].
  intros g w1 [Hw Hh]. do 2 wp_step.
  wp_call (wp_replies _ (λ _, True)); [done| |intros; by apply wp_ret].
  intros [x y] w2 _. wp_step. wp_call client_frame_extents_post; [|done].
  intros extents w3 Hx. apply wp_ret. intros r Hr.
  by eapply frame_from_wf in Hr; [|lia..|].
Qed.

Lemma client_placement_post xid atoms states count w :
  wp (client_placement xid atoms states count) anything (λ _ _, False) w.
Proof.
  unfold client_placement. case_match; [by apply wp_ret|]. wp_step.
  wp_call optional_cardinal_post; [|done]. intros. by apply wp_ret.
Qed.

Lemma read_client_post root atoms supp xid current count scope titles w :
  wp (read_client root atoms supp xid current count scope titles)
    (λ c _, opt (λ c, RawClient_wf c ∧ RawClient_xid c = xid) c) (λ _ _, False) w.
Proof.
  unfold read_client. wp_step. wp_call client_states_post; [|done].
  intros states w1 [? ?]. wp_step. wp_call client_placement_post; [|done].
  intros placement w2 _. wp_step; [by apply wp_ret|]. wp_step.
  apply wp_mono with (Q := λ title _, opt nonempty_text title) (R := λ _ _, False);
    [destruct titles; [apply first_title_post | by apply wp_ret] | | done].
  intros title w3 ?. wp_step. wp_call client_frame_post; [|done].
  intros frame w4 ?. wp_step. wp_call client_actions_post; [|done].
  intros actions w5 [? ?]. apply wp_ret. intros ? [= <-]. done.
Qed.

Lemma client_list_post root atoms w :
  wp (client_list root atoms) (λ xids _, NoDup xids ∧ len xids ≤ MAX_CLIENTS) anything w.
Proof.
  unfold client_list. wp_step. wp_call property32_post; [|done].
  intros stacking w1 Hs. wp_step.
  apply wp_mono with (Q := λ l _, len l ≤ MAX_CLIENTS) (R := anything).
  - destruct stacking as [clients|]; [apply wp_ret; by destruct (Hs _ eq_refl)|].
    wp_step. wp_call property32_post; [|done]. intros [clients|] w2 Hc; apply wp_ret; cbn.
    + by destruct (Hc _ eq_refl).
    + unfold len. cbn. lia.
  - intros l w2 Hl. apply wp_ret. destruct (distinct_windows_spec [] l) as (? & _ & ?).
    split; [done|lia].
  - done.
Qed.

Lemma read_workspaces_post root atoms count w :
  0 ≤ count →
  wp (read_workspaces root atoms count)
    (λ ws _, Forall WorkspaceDescriptor_wf ws ∧
             WorkspaceDescriptor_id <$> ws = Z.of_nat <$> seq 0 (Z.to_nat count))
    anything w.
Proof.
  intros Hcount. unfold read_workspaces. wp_step.
  wp_call (ok_flatten_post (F:=Failure) _ (λ _, True)); [| |done].
  { eapply wp_mono; [apply property_bytes_post|done..]. }
  intros b w1 _. wp_step. wp_call (ok_flatten_post (F:=Failure) _ (λ _, True)); [| |done].
  { eapply wp_mono; [apply property32_post|done..]. }
  intros areas w2 _. cbv zeta.
  set (names := match b with Some b => _ | None => _ end).
  assert (Forall (opt nonempty_text) names) as Hnames.
  { unfold names. destruct b; [apply parse_workspace_names_wf | by apply Forall_replicate]. }
  wp_call (wp_traverse _ _ (λ _, True)
    (λ (i : nat) d, WorkspaceDescriptor_wf d ∧ WorkspaceDescriptor_id d = Z.of_nat i) anything);
    [done| |intros ds w3 [Hds _]|done].
  - intros i s _ _. cbv beta zeta. wp_step. apply wp_lift; [|done].
    intros id Hid. apply wp_ret. split; [|done].
    destruct (checked_u16 _) as [u|] eqn:Hu; [|done]. cbn in Hid. simplify_eq.
    apply checked_in_Some in Hu as [-> _]. split; [|done]. split; cbn.
    + intros name Hname. destruct (names !! i) as [o|] eqn:Ho; [|done]. cbn in Hname.
      rewrite Forall_lookup in Hnames. by apply (Hnames _ _ Ho).
    + intros r Hr. apply bind_Some in Hr as (? & _ & Hr). by eapply rect_from_cardinals_wf.
  - split.
    + clear -Hds. induction Hds as [|i d ii ds [? _]]; by constructor.
    + clear -Hds. induction Hds as [|i d ii ds [_ Hd] _ IH]; [done|]. cbn. by rewrite Hd, IH.
Qed.

(** The clients that were read are a subsequence of the client list. *)
Lemma clients_read xids clients :
  Forall2 (λ xid c, opt (λ c, RawClient_wf c ∧ RawClient_xid c = xid) c) xids clients →
  Forall RawClient_wf (omap id clients) ∧
  sublist (RawClient_xid <$> omap id clients) xids.
Proof.
  induction 1 as [|xid c xids clients Hc _ [IH1 IH2]]; [done|].
  destruct c as [c|]; cbn.
  - destruct (Hc _ eq_refl) as [? <-]. by split; constructor.
  - split; [done|]. by constructor.
Qed.

Lemma validate_wm_post root atoms w : wp (validate_wm root atoms) anything anything w.
Proof. unfold wp. by destruct (validate_wm root atoms w) as [[]]. Qed.

Lemma required_cardinal_post window property w :
  wp (required_cardinal window property) (λ v _, is_u32 v) anything w.
Proof.
  unfold required_cardinal. wp_step. wp_call optional_cardinal_post; [|done].
  intros v w1 Hv. apply wp_lift; [|done]. intros a Ha. apply Hv.
  destruct v; cbn in Ha; by simplify_eq.
Qed.

Lemma scan_clients_post root atoms scope titles supp current count w :
  wp (match scope with
      | ClientScope_None => ret []
      | ClientScope_CurrentWorkspace | ClientScope_AllWorkspaces =>
          let! xids := client_list root atoms in
          let! clients := traverse (λ xid, read_client root atoms supp xid current count
                                      scope titles) xids in
          ret (omap id clients)
      end)
    (λ clients _, Forall RawClient_wf clients ∧ NoDup (RawClient_xid <$> clients)
                  ∧ len clients ≤ MAX_CLIENTS) anything w.
Proof.
  assert (wp (let! xids := client_list root atoms in
          let! clients := traverse (λ xid, read_client root atoms supp xid current count
                                      scope titles) xids in
          ret (omap id clients))
    (λ clients _, Forall RawClient_wf clients ∧ NoDup (RawClient_xid <$> clients)
                  ∧ len clients ≤ MAX_CLIENTS) anything w) as Hread.
  { wp_step. wp_call client_list_post; [|done]. intros xids w1 [Hnd Hlen]. wp_step.
    wp_call (wp_traverse _ _ (λ _, True)
      (λ xid c, opt (λ c, RawClient_wf c ∧ RawClient_xid c = xid) c) anything); [done| | |].
    - intros xid s _ _. eapply wp_mono; [apply read_client_post|done|].
      intros ? ? []. 
    - intros clients w2 [Hc _]. apply wp_ret. apply clients_read in Hc as [? Hsub].
      split_and!; [done| |].
      + by eapply sublist_NoDup.
      + apply sublist_length in Hsub. rewrite length_fmap in Hsub. unfold len in *. lia.
    - done. }
  destruct scope; [|exact Hread..]. apply wp_ret. cbn. split_and!; [constructor..|].
  unfold len. cbn. lia.
Qed.

Lemma scan_post root atoms scope titles w :
  wp (scan root atoms scope titles) (λ raw _, RawDesktop_wf raw) anything w.
Proof.
  unfold scan. wp_step. wp_call validate_wm_post; [|done]. intros _ w1 _.
  wp_step. wp_call required_cardinal_post; [|done]. intros count w2 Hcount.
  wp_step; [by apply wp_fail|]. bool_props.
  wp_step. wp_call required_cardinal_post; [|done]. intros current w3 Hcurrent.
  wp_step; [by apply wp_fail|]. bool_props. cbv zeta.
  assert (0 ≤ count ∧ 0 ≤ current) as [Hc0 Hc1] by (int_bounds; lia).
  rewrite Z.mod_small by (int_bounds; lia).
  wp_step. eapply wp_mono; [by apply read_workspaces_post| |done].
  intros ws w4 [Hws Hids]. wp_step. wp_call property32_post; [|done]. intros supp w5 _.
  wp_step. wp_call scan_clients_post; [|done]. intros clients w6 (? & ? & ?).
  wp_step. wp_call optional_window_post; [|done]. intros active w7 _. apply wp_ret.
  unfold RawDesktop_wf. cbn [RawDesktop_clients RawDesktop_workspaces RawDesktop_current_workspace
    RawDesktop_active]. rewrite Hids. split_and!; try done.
  - apply NoDup_fmap_2, NoDup_seq. intros ??. lia.
  - apply list_elem_of_fmap. exists (Z.to_nat current). split; [lia|].
    apply elem_of_seq. lia.
  - apply (f_equal length) in Hids. rewrite !length_fmap, length_seq in Hids. unfold len. lia.
  - intros xid Hxid. apply bind_Some in Hxid as (x & _ & Hx). case_bool_decide; by simplify_eq.
Qed.

(** *** The clock *)

#[export] Instance first_title_clock xid atoms properties :
  Advances clock (first_title xid atoms properties).
Proof. induction properties as [|p ps IH]; cbn [first_title]; solve_advances. Qed.
#[export] Instance atom_list_clock window property : Advances clock (atom_list window property).
Proof. unfold atom_list. solve_advances. Qed.
#[export] Instance client_frame_extents_clock xid atoms :
  Advances clock (client_frame_extents xid atoms).
Proof. unfold client_frame_extents. solve_advances. Qed.
#[export] Instance read_client_clock root atoms supp xid current count scope titles :
  Advances clock (read_client root atoms supp xid current count scope titles).
Proof.
  unfold read_client, client_states, client_placement, client_title, client_frame,
    client_actions. solve_advances.
Qed.
#[export] Instance client_list_clock root atoms : Advances clock (client_list root atoms).
Proof. unfold client_list. solve_advances. Qed.
#[export] Instance read_workspaces_clock root atoms count :
  Advances clock (read_workspaces root atoms count).
Proof. unfold read_workspaces. solve_advances; apply traverse_advances; solve_advances. Qed.
#[export] Instance scan_clock root atoms scope titles :
  Advances clock (scan root atoms scope titles).
Proof. unfold scan, validate_wm. solve_advances. Qed.
#[export] Instance client_startup_id_matches_clock xid atoms expected :
  Advances clock (client_startup_id_matches xid atoms expected).
Proof. unfold client_startup_id_matches. solve_advances. Qed.
End scan_facts.
