(* ===== verification/Observer.v ===== *)
(** * [agent-seat-x11/src/observer.rs]: per-session observation and its event log

    The observer keeps the last reading of the desktop as a model with session-private
    client identities, turns the difference to each new reading into numbered events, and
    retains them in a bounded buffer for polling.  [capture.rs]'s reconciliation of the
    redirected windows runs inside [refresh] and is here too. *)

From S2P Require Import Prelude Text Bounded Protocol Message MessageSpec Effects Config X11 Scan.

Record ClientRecord := { ClientRecord_xid : Z; ClientRecord_descriptor : ClientDescriptor }.

Record Model := {
  Model_current_workspace : WorkspaceId;
  Model_workspaces : list WorkspaceDescriptor;
  Model_clients : list ClientRecord;
  Model_active : option ClientId
}.

Record Observer := mkObserver {
  root : Z;
  atoms : Atoms;
  scope : ClientScope;
  show_titles : bool;
  model : option Model;
  next_client : Z;
  sequence : Z;
  subscribed : bool;
  subscribed_kinds : list EventKind;
  events : list EventEnvelope;
  retained_after : Z;
  resync_required : bool;
  capture_enabled : bool;
  capture_extension_checked : bool;
  redirected_clients : list Z
}.

(** Assignments to the fields of [self]. *)
Section setters.
Variable o : Observer.
Definition set_model x := mkObserver (root o) (atoms o) (scope o) (show_titles o) x
  (next_client o) (sequence o) (subscribed o) (subscribed_kinds o) (events o)
  (retained_after o) (resync_required o) (capture_enabled o) (capture_extension_checked o)
  (redirected_clients o).
Definition set_next_client x := mkObserver (root o) (atoms o) (scope o) (show_titles o)
  (model o) x (sequence o) (subscribed o) (subscribed_kinds o) (events o)
  (retained_after o) (resync_required o) (capture_enabled o) (capture_extension_checked o)
  (redirected_clients o).
Definition set_sequence x := mkObserver (root o) (atoms o) (scope o) (show_titles o)
  (model o) (next_client o) x (subscribed o) (subscribed_kinds o) (events o)
  (retained_after o) (resync_required o) (capture_enabled o) (capture_extension_checked o)
  (redirected_clients o).
(** The event log: [events], [retained_after], [resync_required]. *)
Definition set_log evs after resync := mkObserver (root o) (atoms o) (scope o)
  (show_titles o) (model o) (next_client o) (sequence o) (subscribed o)
  (subscribed_kinds o) evs after resync (capture_enabled o) (capture_extension_checked o)
  (redirected_clients o).
Definition set_subscription kinds := mkObserver (root o) (atoms o) (scope o)
  (show_titles o) (model o) (next_client o) (sequence o) true kinds (events o)
  (retained_after o) (resync_required o) (capture_enabled o) (capture_extension_checked o)
  (redirected_clients o).
Definition set_capture checked redirected := mkObserver (root o) (atoms o) (scope o)
  (show_titles o) (model o) (next_client o) (sequence o) (subscribed o)
  (subscribed_kinds o) (events o) (retained_after o) (resync_required o)
  (capture_enabled o) checked redirected.
End setters.

Definition event_kind (event : Event) : EventKind :=
  match event with
  | Event_ClientAdded _ => EventKind_ClientAdded
  | Event_ClientChanged _ => EventKind_ClientChanged
  | Event_ClientRemoved _ => EventKind_ClientRemoved
  | Event_ActiveChanged _ => EventKind_ActiveChanged
  | Event_WorkspaceChanged _ => EventKind_WorkspaceChanged
  | Event_ApplicationsChanged _ => EventKind_ApplicationsChanged
  end.

(** [RawClient::descriptor] *)
Definition RawClient_descriptor (self : RawClient) (id : ClientId) (generation : Generation)
  : result ClientDescriptor Failure :=
  let? states := map_err (λ _, Failure_internal "client state list exceeded its public bound")
                   (BoundedList_new (RawClient_states self)) in
  let? actions := map_err (λ _, Failure_internal "client action list exceeded its public bound")
                    (BoundedList_new (RawClient_actions self)) in
  Ok {| ClientDescriptor_id := id; ClientDescriptor_generation := generation;
        ClientDescriptor_title := RawClient_title self;
        ClientDescriptor_workspace := RawClient_workspace self;
        ClientDescriptor_frame := RawClient_frame self;
        ClientDescriptor_states := states; ClientDescriptor_actions := actions |}.

(** ** The pure part: identities, events and the model *)

Definition assign (f : Observer → Observer) : M Observer Failure unit := modify f.

Definition allocate_client : M Observer Failure ClientId :=
  let! next := gets next_client in
  let! id := lift (ok_or (NonZeroU64_new next)
               (Failure_internal "client identity space is exhausted")) in
  let! succ := lift (ok_or (checked_u64 (next + 1))
                 (Failure_internal "client identity space is exhausted")) in
  assign (λ o, set_next_client o succ) ;!
  ret id.

Definition push_event (event : Event) : M Observer Failure unit :=
  let! old := gets sequence in
  let! next := lift (ok_or (checked_u64 (old + 1))
                 (Failure_internal "observation sequence space is exhausted")) in
  assign (λ o, set_sequence o next) ;!
  let! o := gets id in
  if negb (subscribed o) || resync_required o
     || (negb (is_empty (subscribed_kinds o))
         && negb (bool_decide (event_kind event ∈ subscribed_kinds o)))
  then ret tt
  else if len (events o) =? MAX_EVENTS
  then assign (λ o, set_log o [] (retained_after o) true)
  else assign (λ o, set_log o (events o ++ [{| EventEnvelope_sequence := sequence o;
                                               EventEnvelope_event := event |}])
                      (retained_after o) (resync_required o)).

(** The identity of the client whose window is active. *)
Definition find_active (active : option Z) (clients : list ClientRecord) : option ClientId :=
  match active with
  | None => None
  | Some xid =>
      match list_find (λ c, ClientRecord_xid c = xid) clients with
      | Some (_, c) => Some (ClientDescriptor_id (ClientRecord_descriptor c))
      | None => None
      end
  end.

Definition initial_model (raw : RawDesktop) : M Observer Failure Model :=
  let! clients := traverse (λ client,
    let! id := allocate_client in
    let! descriptor := lift (RawClient_descriptor client id 0) in
    ret {| ClientRecord_xid := RawClient_xid client; ClientRecord_descriptor := descriptor |})
    (RawDesktop_clients raw) in
  ret {| Model_current_workspace := RawDesktop_current_workspace raw;
         Model_workspaces := RawDesktop_workspaces raw; Model_clients := clients;
         Model_active := find_active (RawDesktop_active raw) clients |}.

(** [previous_by_xid.get(&xid)]: the map keeps the last of several records of a window. *)
Definition previous_by_xid (previous : Model) (xid : Z) : option ClientRecord :=
  last (filter (λ c, ClientRecord_xid c = xid) (Model_clients previous)).

(** One round of the loop over [raw.clients]. *)
Definition diff_client (previous : Model) (client : RawClient) : M Observer Failure ClientRecord :=
  let xid := RawClient_xid client in
  match previous_by_xid previous xid with
  | Some prior =>
      let prior := ClientRecord_descriptor prior in
      let id := ClientDescriptor_id prior in
      let! unchanged := lift (RawClient_descriptor client id (ClientDescriptor_generation prior)) in
      if bool_decide (unchanged = prior)
      then ret {| ClientRecord_xid := xid; ClientRecord_descriptor := unchanged |}
      else
        let! generation := lift (ok_or (checked_u64 (ClientDescriptor_generation prior + 1))
                             (Failure_internal "client generation space is exhausted")) in
        let! descriptor := lift (RawClient_descriptor client id generation) in
        push_event (Event_ClientChanged descriptor) ;!
        ret {| ClientRecord_xid := xid; ClientRecord_descriptor := descriptor |}
  | None =>
      let! id := allocate_client in
      let! descriptor := lift (RawClient_descriptor client id 0) in
      push_event (Event_ClientAdded descriptor) ;!
      ret {| ClientRecord_xid := xid; ClientRecord_descriptor := descriptor |}
  end.

Definition diff_removed (raw : RawDesktop) (client : ClientRecord) : M Observer Failure unit :=
  if bool_decide (ClientRecord_xid client ∈ RawClient_xid <$> RawDesktop_clients raw) then ret tt
  else push_event (Event_ClientRemoved (ClientDescriptor_id (ClientRecord_descriptor client))).

Definition diff_model (previous : Model) (raw : RawDesktop) : M Observer Failure Model :=
  for_each (diff_removed raw) (Model_clients previous) ;!
  let! clients := traverse (diff_client previous) (RawDesktop_clients raw) in
  (if bool_decide (Model_current_workspace previous ≠ RawDesktop_current_workspace raw)
      || bool_decide (Model_workspaces previous ≠ RawDesktop_workspaces raw)
   then push_event (Event_WorkspaceChanged (RawDesktop_current_workspace raw)) else ret tt) ;!
  let active := find_active (RawDesktop_active raw) clients in
  (if bool_decide (Model_active previous ≠ active)
   then push_event (Event_ActiveChanged active) else ret tt) ;!
  ret {| Model_current_workspace := RawDesktop_current_workspace raw;
         Model_workspaces := RawDesktop_workspaces raw; Model_clients := clients;
         Model_active := active |}.

Definition current_snapshot (self : Observer) : result DesktopSnapshot Failure :=
  let? model := ok_or (model self) (Failure_internal "observer has no current model") in
  let? workspaces := map_err (λ _, Failure_internal "workspace model exceeded its public bound")
                       (BoundedList_new (Model_workspaces model)) in
  let? clients := map_err (λ _, Failure_internal "client model exceeded its public bound")
                    (BoundedList_new (ClientRecord_descriptor <$> Model_clients model)) in
  Ok {| DesktopSnapshot_sequence := sequence self;
        DesktopSnapshot_current_workspace := Model_current_workspace model;
        DesktopSnapshot_workspaces := workspaces; DesktopSnapshot_clients := clients;
        DesktopSnapshot_active := Model_active model |}.

(** [while front.sequence <= after { pop; retained_after = popped.sequence }] *)
Fixpoint discard (after : Z) (evs : list EventEnvelope) (retained : Z)
  : list EventEnvelope * Z :=
  match evs with
  | event :: evs' =>
      if EventEnvelope_sequence event <=? after
      then discard after evs' (EventEnvelope_sequence event)
      else (evs, retained)
  | [] => ([], retained)
  end.

Definition ready (self : Observer) (after : Z) : bool :=
  match head (events self) with
  | Some event => after <? EventEnvelope_sequence event
  | None => false
  end.

(** The page of [poll]. *)
Definition event_page (self : Observer) (after limit : Z) : result EventBatch Failure :=
  let page := take (Z.to_nat limit)
                (filter (λ e, after < EventEnvelope_sequence e) (events self)) in
  let cursor := match last page with
                | Some event => EventEnvelope_sequence event
                | None => sequence self
                end in
  let? page := map_err (λ _, Failure_internal "event page exceeded its public bound")
                 (BoundedList_new page) in
  Ok {| EventBatch_events := page; EventBatch_cursor := cursor |}.

(** ** The observer on its X11 connection *)

Definition SAMPLE_INTERVAL : Z := 25 * NANOS_PER_MS.

Section observer.
Context {W : Type} `{XServer W}.

Definition St : Type := Observer * W.

Definition self {A} (m : M Observer Failure A) : M St Failure A :=
  zoom fst (λ o s, (o, snd s)) m.
Definition x11 {E A} (m : M W E A) : M St E A := zoom snd (λ w s, (fst s, w)) m.
Definition get {E A} (f : Observer → A) : M St E A := gets (λ s, f (fst s)).
Definition instant_now : M W Failure Z := λ w, let '(t, w) := now w in (Ok t, w).
Definition thread_sleep (d : Z) : M W Failure unit := modify (sleep d).
(** [map_err(|_| Failure::unavailable(message))] on the request and on the reply. *)
Definition or_unavailable {A} (request reply : string) (m : M W XError A) : M St Failure A :=
  x11 (map_error (request_or_reply request reply) m).

(** *** Redirection of the visible windows ([observer/capture.rs]) *)

Definition COMPOSITE_MAJOR : Z := 0.
Definition COMPOSITE_MINOR : Z := 4.
Definition REQUIRED_COMPOSITE_MINOR : Z := 2.

Definition require_composite_capture : M St Failure unit :=
  let! checked := get capture_extension_checked in
  if checked then ret tt
  else
    let! '(major, minor) :=
      x11 (map_error (λ e, match e with
                           | XError_Request => Failure_unsupported "X Composite cannot be queried"
                           | _ => Failure_unsupported "X Composite is unavailable"
                           end) (composite_query_version COMPOSITE_MAJOR COMPOSITE_MINOR)) in
    if negb (major =? COMPOSITE_MAJOR) || (minor <? REQUIRED_COMPOSITE_MINOR)
    then fail (Failure_unsupported "X Composite 0.2 or newer is required for obscured capture")
    else self (assign (λ o, set_capture o true (redirected_clients o))).

Definition unredirect_departed (window : Z) : M St Failure unit :=
  let! attributes := attempt (x11 (get_window_attributes window)) in
  match attributes with
  | Err XError_Request =>
      fail (Failure_unavailable "cannot inspect a departing capture target")
  | Ok _ =>
      or_unavailable "cannot request target unredirection"
        "cannot unredirect a departing target" (composite_unredirect_window window)
  | Err (XError_Server true) => ret tt
  | Err _ => fail (Failure_unavailable "cannot classify a departing capture target")
  end ;!
  self (assign (λ o, set_capture o (capture_extension_checked o)
                       (filter (λ x, x ≠ window) (redirected_clients o)))).

Definition redirect_added (window : Z) : M St Failure unit :=
  or_unavailable "cannot request target redirection"
    "cannot redirect a scoped capture target" (composite_redirect_window window) ;!
  self (assign (λ o, set_capture o (capture_extension_checked o)
                       (redirected_clients o ++ [window]))).

Definition reconcile_capture_targets (clients : list Z) : M St Failure unit :=
  require_composite_capture ;!
  let! redirected := get redirected_clients in
  for_each unredirect_departed
    (hash_order (filter (λ x, x ∉ clients) redirected)) ;!
  let! redirected := get redirected_clients in
  for_each redirect_added
    (hash_order (filter (λ x, x ∉ redirected) (remove_dups clients))).

(** *** [refresh] and the operations built on it *)

Definition refresh : M St Failure unit :=
  let! o := get id in
  let! raw := x11 (scan (root o) (atoms o) (scope o) (show_titles o)) in
  (if capture_enabled o then reconcile_capture_targets (RawClient_xid <$> RawDesktop_clients raw)
   else ret tt) ;!
  let! previous := get model in
  self (assign (λ o, set_model o None)) ;!
  let! next := self (match previous with
                     | None => initial_model raw
                     | Some previous => diff_model previous raw
                     end) in
  self (assign (λ o, set_model o (Some next))).

Definition snapshot : M St Failure DesktopSnapshot :=
  refresh ;!
  self (assign (λ o, if resync_required o then set_log o [] (sequence o) false else o)) ;!
  let! o := get id in
  lift (current_snapshot o).

Definition subscribe (kinds : list EventKind) : M St Failure Subscription :=
  refresh ;!
  self (assign (λ o, set_log (set_subscription o kinds) [] (sequence o) false)) ;!
  let! o := get id in
  ret {| Subscription_cursor := sequence o |}.

(** [thread::sleep(SAMPLE_INTERVAL.min(deadline.saturating_duration_since(now)))] *)
Definition sleep_towards (deadline : Z) : M W Failure unit :=
  let! t := instant_now in
  thread_sleep (Z.min SAMPLE_INTERVAL (Z.max 0 (deadline - t))).

(** [None] is running out of fuel. *)
Fixpoint poll_loop (fuel : nat) (after deadline : Z) : M St Failure (option unit) :=
  match fuel with
  | O => ret None
  | S fuel =>
      refresh ;!
      let! o := get id in
      if resync_required o then fail (Failure_resync (sequence o))
      else if ready o after then ret (Some tt)
      else
        let! t := x11 instant_now in
        if deadline <=? t then ret (Some tt)
        else x11 (sleep_towards deadline) ;! poll_loop fuel after deadline
  end.

Definition poll (fuel : nat) (after limit wait_ms : Z) : M St Failure (option EventBatch) :=
  let! o := get id in
  if negb (subscribed o)
  then fail (Failure_invalid "events.subscribe is required before polling")
  else if (after <? retained_after o) || (sequence o <? after)
  then fail (Failure_resync (sequence o))
  else
    self (assign (λ o, let '(evs, retained) := discard after (events o) (retained_after o) in
                       set_log o evs retained (resync_required o))) ;!
    let! t := x11 instant_now in
    let deadline := t + wait_ms * NANOS_PER_MS in
    let! done := poll_loop fuel after deadline in
    match done with
    | None => ret None
    | Some _ =>
        let! o := get id in
        let! batch := lift (event_page o after limit) in
        ret (Some batch)
    end.

Definition launch_baseline : M St Failure (list Z) :=
  refresh ;!
  let! m := get model in
  ret (match m with Some m => ClientRecord_xid <$> Model_clients m | None => [] end).

(** The first client outside [baseline] that carries the startup id. *)
Fixpoint find_launched (baseline : list Z) (startup_id : bytes) (clients : list ClientRecord)
  : M St Failure (option ClientId) :=
  match clients with
  | [] => ret None
  | client :: clients =>
      if bool_decide (ClientRecord_xid client ∈ baseline)
      then find_launched baseline startup_id clients
      else
        let! o := get id in
        let! found := x11 (client_startup_id_matches (ClientRecord_xid client) (atoms o)
                             startup_id) in
        if found then ret (Some (ClientDescriptor_id (ClientRecord_descriptor client)))
        else find_launched baseline startup_id clients
  end.

Fixpoint correlate_loop (fuel : nat) (baseline : list Z) (startup_id : bytes) (deadline : Z)
  : M St Failure (option (option ClientId)) :=
  match fuel with
  | O => ret None
  | S fuel =>
      refresh ;!
      let! m := get model in
      let! found := match m with
                    | Some m => find_launched baseline startup_id (Model_clients m)
                    | None => ret None
                    end in
      match found with
      | Some client => ret (Some (Some client))
      | None =>
          let! t := x11 instant_now in
          if deadline <=? t then ret (Some None)
          else x11 (sleep_towards deadline) ;! correlate_loop fuel baseline startup_id deadline
      end
  end.

Definition correlate_launch (fuel : nat) (baseline : list Z) (startup_id : bytes) (wait : Z)
  : M St Failure (option (option ClientId)) :=
  let! t := x11 instant_now in
  correlate_loop fuel baseline startup_id (t + wait).
End observer.

(** A fresh observer, as [connect] builds it once the connection is up. *)
Definition Observer_new (root : Z) (atoms : Atoms) (scope : ClientScope)
  (show_titles capture_enabled : bool) : Observer :=
  {| root := root; atoms := atoms; scope := scope; show_titles := show_titles; model := None;
     next_client := 1; sequence := 0; subscribed := false; subscribed_kinds := [];
     events := []; retained_after := 0; resync_required := false;
     capture_enabled := capture_enabled; capture_extension_checked := false;
     redirected_clients := [] |}.
