(* ===== verification/Manager.v ===== *)
(** * [agent-seat-x11/src/observer/manager.rs]: freshness-checked window management

    A management operation re-reads the desktop under a server grab, checks the request
    against what it read, sends one EWMH client message, releases the grab and then watches
    for the requested state. *)

From S2P Require Import Prelude Text Bounded Protocol Message Effects Config X11 Scan Observer.

Definition MANAGEMENT_TIMEOUT : Z := 1000 * NANOS_PER_MS.
Definition PAGER_SOURCE : Z := 2.
Definition STATIC_GRAVITY : Z := 10.

Inductive Operation :=
| Operation_Activate (request : TargetRequest)
| Operation_Close (request : TargetRequest)
| Operation_WorkspaceSwitch (request : WorkspaceRequest)
| Operation_ClientWorkspace (request : ClientWorkspaceRequest)
| Operation_State (request : ClientStateRequest)
| Operation_Geometry (request : ClientGeometryRequest).

Record Target := {
  Target_id : ClientId;
  Target_xid : Z;
  Target_frame : option Rect;
  Target_states : list ClientState;
  Target_actions : list ClientAction
}.

Inductive Desired :=
| Desired_Active (id : ClientId)
| Desired_Closed (id : ClientId)
| Desired_Workspace (workspace : WorkspaceId)
| Desired_ClientWorkspace (id : ClientId) (workspace : WorkspaceId)
| Desired_State (id : ClientId) (state : ClientState) (present : bool)
| Desired_Geometry (id : ClientId) (frame : Rect).

Record Prepared := { Prepared_event : ClientMessageEvent; Prepared_desired : Desired }.

(** ** Looking clients up *)

Definition record (o : Observer) (id : ClientId) : option ClientRecord :=
  match model o with
  | None => None
  | Some m =>
      snd <$> list_find (λ c, ClientDescriptor_id (ClientRecord_descriptor c) = id)
                (Model_clients m)
  end.

Definition target (o : Observer) (request : TargetRequest) : result Target Failure :=
  match record o (TargetRequest_client request) with
  | None =>
      Err {| Failure_code := ErrorCode_NoSuchClient; Failure_retry := Retry_Reobserve;
             Failure_message := "the target is missing or outside the configured scope";
             Failure_current_generation := None;
             Failure_current_sequence := Some (sequence o) |}
  | Some record =>
      let d := ClientRecord_descriptor record in
      if negb (ClientDescriptor_generation d =? TargetRequest_generation request)
      then Err {| Failure_code := ErrorCode_Stale; Failure_retry := Retry_Reobserve;
                  Failure_message := "the target generation changed before send";
                  Failure_current_generation := Some (ClientDescriptor_generation d);
                  Failure_current_sequence := Some (sequence o) |}
      else Ok {| Target_id := ClientDescriptor_id d; Target_xid := ClientRecord_xid record;
                 Target_frame := ClientDescriptor_frame d;
                 Target_states := as_slice (ClientDescriptor_states d);
                 Target_actions := as_slice (ClientDescriptor_actions d) |}
  end.

Definition current_model (o : Observer) : result Model Failure :=
  ok_or (model o) (Failure_internal "observer has no current model").

Definition require_workspace (o : Observer) (workspace : WorkspaceId) : result unit Failure :=
  let? model := current_model o in
  if bool_decide (workspace ∈ WorkspaceDescriptor_id <$> Model_workspaces model) then Ok tt
  else Err {| Failure_code := ErrorCode_InvalidArgument; Failure_retry := Retry_Never;
              Failure_message := "the workspace is outside the advertised range";
              Failure_current_generation := None;
              Failure_current_sequence := Some (sequence o) |}.

Definition require_action (target : Target) (action : ClientAction) : result unit Failure :=
  ensure (bool_decide (action ∈ Target_actions target))
    (Failure_unsupported "the target does not advertise the requested operation").

Definition require_supported (supp : list Z) (atom : Z) : result unit Failure :=
  ensure (has_atom atom supp)
    (Failure_unsupported "the window manager does not advertise the requested operation").

Definition stale_sequence (sequence : Sequence) : Failure :=
  {| Failure_code := ErrorCode_Stale; Failure_retry := Retry_Reobserve;
     Failure_message := "the desktop sequence changed before send";
     Failure_current_generation := None; Failure_current_sequence := Some sequence |}.

Definition invalid_geometry : Failure :=
  failure ErrorCode_InvalidArgument Retry_Never
    "frame geometry cannot contain the target's decoration extents".

(** ** What is sent and what is hoped for *)

Definition Desired_target (self : Desired) : option ClientId :=
  match self with
  | Desired_Active id | Desired_Closed id | Desired_ClientWorkspace id _
  | Desired_State id _ _ | Desired_Geometry id _ => Some id
  | Desired_Workspace _ => None
  end.

Definition Desired_observed (self : Desired) (o : Observer) : bool :=
  match self with
  | Desired_Active id =>
      is_some_and (λ m, bool_decide (Model_active m = Some id)) (model o)
  | Desired_Closed id => negb (bool_decide (is_Some (record o id)))
  | Desired_Workspace workspace =>
      is_some_and (λ m, Model_current_workspace m =? workspace) (model o)
  | Desired_ClientWorkspace id workspace =>
      is_some_and (λ c, bool_decide (ClientDescriptor_workspace (ClientRecord_descriptor c)
                                     = Some workspace)) (record o id)
  | Desired_State id state present =>
      is_some_and (λ c, Bool.eqb (bool_decide (state ∈ as_slice (ClientDescriptor_states
                                    (ClientRecord_descriptor c)))) present) (record o id)
  | Desired_Geometry id frame =>
      is_some_and (λ c, bool_decide (ClientDescriptor_frame (ClientRecord_descriptor c)
                                     = Some frame)) (record o id)
  end.

(** The state's atom and the atom of the action a client must allow to change it. *)
Definition state_atoms (atoms : Atoms) (state : ClientState) : result (Z * option Z) Failure :=
  match state with
  | ClientState_Above => Ok (state_above atoms, Some (action_above atoms))
  | ClientState_Below => Ok (state_below atoms, Some (action_below atoms))
  | ClientState_Fullscreen => Ok (state_fullscreen atoms, Some (action_fullscreen atoms))
  | ClientState_Hidden =>
      Err (Failure_unsupported
             "EWMH defines hidden as window-manager state, not a client request")
  | ClientState_MaximizedHorizontal =>
      Ok (state_maximized_horz atoms, Some (action_maximize_horz atoms))
  | ClientState_MaximizedVertical =>
      Ok (state_maximized_vert atoms, Some (action_maximize_vert atoms))
  | ClientState_DemandsAttention => Ok (state_demands_attention atoms, None)
  | ClientState_Sticky => Ok (state_sticky atoms, Some (action_stick atoms))
  | ClientState_Shaded => Ok (state_shaded atoms, Some (action_shade atoms))
  end.

(** [u32::from_ne_bytes(x.to_ne_bytes())] of an [i32]. *)
Definition i32_as_u32 (x : Z) : Z := x mod 4294967296.

(** The client rectangle inside a frame with the given border widths. *)
Definition client_rect (frame : Rect) (extents : Z * Z * Z * Z)
  : result (Z * Z * Z * Z) Failure :=
  let '(l, r, t, b) := extents in
  let? l_i32 := ok_or (checked_i32 l) invalid_geometry in
  let? client_x := ok_or (checked_i32 (Rect_x frame + l_i32)) invalid_geometry in
  let? t_i32 := ok_or (checked_i32 t) invalid_geometry in
  let? client_y := ok_or (checked_i32 (Rect_y frame + t_i32)) invalid_geometry in
  let? horizontal := ok_or (checked_u32 (l + r)) invalid_geometry in
  let? vertical := ok_or (checked_u32 (t + b)) invalid_geometry in
  let? client_width := ok_or (checked_u32 (Rect_width frame - horizontal)) invalid_geometry in
  ensure (negb (client_width =? 0)) invalid_geometry ;?
  let? client_height := ok_or (checked_u32 (Rect_height frame - vertical)) invalid_geometry in
  ensure (negb (client_height =? 0)) invalid_geometry ;?
  Ok (client_x, client_y, client_width, client_height).

Definition moveresize_flags (move_x move_y resize_width resize_height : bool) : Z :=
  let flags := Z.lor STATIC_GRAVITY (Z.shiftl PAGER_SOURCE 12) in
  let flags := Z.lor flags (Z.shiftl (Z.b2z move_x) 8) in
  let flags := Z.lor flags (Z.shiftl (Z.b2z move_y) 9) in
  let flags := Z.lor flags (Z.shiftl (Z.b2z resize_width) 10) in
  Z.lor flags (Z.shiftl (Z.b2z resize_height) 11).

Definition client_message (window type : Z) (data : list Z) : ClientMessageEvent :=
  {| message_window := window; message_type := type; message_data := data |}.

Section manager.
Context {W : Type} `{XServer W}.

Notation St := (Observer * W)%type.

Definition allowed_actions (o : Observer) (xid : Z) : M W Failure (list Z) :=
  let! values := property32 xid (wm_allowed_actions (atoms o)) ATOM MAX_CLIENT_ATOMS in
  ret (default [] values).

Definition prepare_state (o : Observer) (request : ClientStateRequest) (supp : list Z)
  : M W Failure Prepared :=
  let! target := lift (target o (ClientStateRequest_target request)) in
  let! '(state_atom, action_atom) := lift (state_atoms (atoms o) (ClientStateRequest_state request)) in
  lift (require_supported supp (wm_state (atoms o))) ;!
  lift (require_supported supp state_atom) ;!
  (match action_atom with
   | Some action_atom =>
       let! allowed := allowed_actions o (Target_xid target) in
       lift (ensure (has_atom action_atom allowed)
         (Failure_unsupported "the target does not advertise the requested state action"))
   | None => ret tt
   end) ;!
  let present := bool_decide (ClientStateRequest_state request ∈ Target_states target) in
  let desired_present := match ClientStateRequest_action request with
                         | StateAction_Add => true
                         | StateAction_Remove => false
                         | StateAction_Toggle => negb present
                         end in
  let action := match ClientStateRequest_action request with
                | StateAction_Remove => 0
                | StateAction_Add => 1
                | StateAction_Toggle => 2
                end in
  ret {| Prepared_event := client_message (Target_xid target) (wm_state (atoms o))
                             [action; state_atom; 0; PAGER_SOURCE; 0];
         Prepared_desired := Desired_State (Target_id target)
                               (ClientStateRequest_state request) desired_present |}.

Definition prepare_geometry (o : Observer) (request : ClientGeometryRequest) (supp : list Z)
  : M W Failure Prepared :=
  let! target := lift (target o (ClientGeometryRequest_target request)) in
  lift (require_supported supp (moveresize_window (atoms o))) ;!
  let! current := lift (ok_or (Target_frame target)
    (Failure_unsupported "the target has no observable frame geometry")) in
  let frame := ClientGeometryRequest_frame request in
  let move_x := negb (Rect_x frame =? Rect_x current) in
  let move_y := negb (Rect_y frame =? Rect_y current) in
  let resize_width := negb (Rect_width frame =? Rect_width current) in
  let resize_height := negb (Rect_height frame =? Rect_height current) in
  let! allowed := allowed_actions o (Target_xid target) in
  if (move_x || move_y) && negb (has_atom (action_move (atoms o)) allowed)
  then fail (Failure_unsupported "the target does not advertise movement")
  else if (resize_width || resize_height) && negb (has_atom (action_resize (atoms o)) allowed)
  then fail (Failure_unsupported "the target does not advertise resizing")
  else if negb (move_x || move_y || resize_width || resize_height
                || bool_decide (ClientAction_ChangeGeometry ∈ Target_actions target))
  then fail (Failure_unsupported "the target does not advertise geometry changes")
  else
    let! extents := client_frame_extents (Target_xid target) (atoms o) in
    let! '(x, y, width, height) := lift (client_rect frame extents) in
    ret {| Prepared_event :=
             client_message (Target_xid target) (moveresize_window (atoms o))
               [moveresize_flags move_x move_y resize_width resize_height;
                i32_as_u32 x; i32_as_u32 y; width; height];
           Prepared_desired := Desired_Geometry (Target_id target) frame |}.

Definition prepare (o : Observer) (operation : Operation) : M W Failure Prepared :=
  let! supp := property32 (root o) (supported (atoms o)) ATOM MAX_ROOT_ATOMS in
  let supp := default [] supp in
  match operation with
  | Operation_Activate request =>
      let! target := lift (target o request) in
      lift (require_action target ClientAction_Activate) ;!
      lift (require_supported supp (active_window (atoms o))) ;!
      let! model := lift (current_model o) in
      let active := match Model_active model ≫= record o with
                    | Some record => ClientRecord_xid record
                    | None => 0
                    end in
      ret {| Prepared_event := client_message (Target_xid target) (active_window (atoms o))
                                 [PAGER_SOURCE; 0; active; 0; 0];
             Prepared_desired := Desired_Active (Target_id target) |}
  | Operation_Close request =>
      let! target := lift (target o request) in
      lift (require_action target ClientAction_Close) ;!
      lift (require_supported supp (close_window (atoms o))) ;!
      ret {| Prepared_event := client_message (Target_xid target) (close_window (atoms o))
                                 [0; PAGER_SOURCE; 0; 0; 0];
             Prepared_desired := Desired_Closed (Target_id target) |}
  | Operation_WorkspaceSwitch request =>
      if negb (WorkspaceRequest_sequence request =? sequence o)
      then fail (stale_sequence (sequence o))
      else
        lift (require_workspace o (WorkspaceRequest_workspace request)) ;!
        lift (require_supported supp (current_desktop (atoms o))) ;!
        ret {| Prepared_event := client_message (root o) (current_desktop (atoms o))
                                   [WorkspaceRequest_workspace request; 0; 0; 0; 0];
               Prepared_desired := Desired_Workspace (WorkspaceRequest_workspace request) |}
  | Operation_ClientWorkspace request =>
      let! target := lift (target o (ClientWorkspaceRequest_target request)) in
      lift (require_workspace o (ClientWorkspaceRequest_workspace request)) ;!
      lift (require_action target ClientAction_ChangeWorkspace) ;!
      lift (require_supported supp (wm_desktop (atoms o))) ;!
      ret {| Prepared_event := client_message (Target_xid target) (wm_desktop (atoms o))
                                 [ClientWorkspaceRequest_workspace request; PAGER_SOURCE; 0; 0; 0];
             Prepared_desired := Desired_ClientWorkspace (Target_id target)
                                   (ClientWorkspaceRequest_workspace request) |}
  | Operation_State request => prepare_state o request supp
  | Operation_Geometry request => prepare_geometry o request supp
  end.

(** What one successful reading lets [observe_terminal] report, if anything. *)
Definition terminal (o : Observer) (desired : Desired) : option ManagementReply :=
  let reply observation := {| ManagementReply_observation := observation;
                              ManagementReply_sequence := sequence o |} in
  if Desired_observed desired o then Some (reply Observation_Observed)
  else if is_some_and (λ id, negb (bool_decide (is_Some (record o id)))) (Desired_target desired)
  then Some (reply (match desired with
                    | Desired_Closed _ => Observation_Observed
                    | _ => Observation_TargetGone
                    end))
  else None.

(** [None] is running out of fuel. *)
Fixpoint observe_loop (fuel : nat) (desired : Desired) (deadline : Z)
  : M St Failure (option ManagementReply) :=
  match fuel with
  | O => ret None
  | S fuel =>
      let! refreshed := attempt refresh in
      let! o := get (W:=W) id in
      match (match refreshed with Ok _ => terminal o desired | Err _ => None end) with
      | Some reply => ret (Some reply)
      | None =>
          let! t := x11 instant_now in
          if deadline <=? t
          then ret (Some {| ManagementReply_observation := Observation_TimedOut;
                            ManagementReply_sequence := sequence o |})
          else x11 (thread_sleep SAMPLE_INTERVAL) ;! observe_loop fuel desired deadline
      end
  end.

Definition observe_terminal (fuel : nat) (desired : Desired)
  : M St Failure (option ManagementReply) :=
  let! t := x11 instant_now in
  observe_loop fuel desired (t + MANAGEMENT_TIMEOUT).

Definition send_prepared (o : Observer) (prepared : Prepared) : M St Failure Desired :=
  or_unavailable "cannot send an EWMH request" "the X server refused an EWMH request"
    (send_event (root o) (Prepared_event prepared)) ;!
  ret (Prepared_desired prepared).

Definition manage (fuel : nat) (operation : Operation)
  : M St Failure (option ManagementReply) :=
  or_unavailable "cannot request an X11 server grab" "cannot acquire an X11 server grab"
    grab_server ;!
  let! sent := attempt (
    refresh ;!
    let! o := get (W:=W) id in
    let! prepared := x11 (prepare o operation) in
    send_prepared o prepared) in
  let! ungrab := attempt (or_unavailable "cannot request an X11 server ungrab"
                            "cannot release the X11 server grab" ungrab_server) in
  let! flushed := attempt (or_unavailable "cannot flush an EWMH request"
                             "cannot flush an EWMH request" flush) in
  let! desired := lift sent in
  lift ungrab ;!
  lift flushed ;!
  observe_terminal fuel desired.
End manager.
