(* ===== verification/ObserverSpec.v ===== *)
(** * What the observer promises

    The event log against the full history of events, the model against the view a client
    builds by replaying events, and the validity of every reply for the wire protocol. *)

From Stdlib Require Import Sorted.
From stdpp Require Import gmap.
From S2P Require Import Prelude Text Bounded Protocol Message MessageSpec Effects Config X11 Scan Observer.

(** ** The event log *)

Record Log := {
  log_sequence : Z;
  log_subscribed : bool;
  log_kinds : list EventKind;
  log_events : list EventEnvelope;
  log_retained : Z;
  log_resync : bool
}.

Definition log_of (o : Observer) : Log :=
  {| log_sequence := sequence o; log_subscribed := subscribed o;
     log_kinds := subscribed_kinds o; log_events := events o;
     log_retained := retained_after o; log_resync := resync_required o |}.

Definition wanted (kinds : list EventKind) (event : Event) : bool :=
  is_empty kinds || bool_decide (event_kind event ∈ kinds).

Definition envelope (n : Z) (event : Event) : EventEnvelope :=
  {| EventEnvelope_sequence := n; EventEnvelope_event := event |}.

(** The effect of one event on the log. *)
Definition log_push (l : Log) (event : Event) : Log :=
  let n := log_sequence l + 1 in
  let keep evs resync :=
    {| log_sequence := n; log_subscribed := log_subscribed l; log_kinds := log_kinds l;
       log_events := evs; log_retained := log_retained l; log_resync := resync |} in
  if negb (log_subscribed l) || log_resync l || negb (wanted (log_kinds l) event)
  then keep (log_events l) (log_resync l)
  else if len (log_events l) =? MAX_EVENTS then keep [] true
  else keep (log_events l ++ [envelope n event]) (log_resync l).

Definition log_push_all : Log → list Event → Log := foldl log_push.

Definition log_inv (l : Log) : Prop :=
  0 ≤ log_retained l ≤ log_sequence l ∧ log_sequence l ≤ U64_MAX ∧
  StronglySorted Z.lt (EventEnvelope_sequence <$> log_events l) ∧
  Forall (λ e, log_retained l < EventEnvelope_sequence e ≤ log_sequence l
               ∧ Event_wf (EventEnvelope_event e)) (log_events l) ∧
  len (log_events l) ≤ MAX_EVENTS ∧
  (log_resync l = true → log_events l = []).

(** The events numbered from [n + 1]. *)
Fixpoint number (n : Z) (evs : list Event) : list EventEnvelope :=
  match evs with
  | [] => []
  | event :: evs => envelope (n + 1) event :: number (n + 1) evs
  end.

(** [history] is everything that happened since the subscription; the buffer holds exactly
    the wanted part of it that was not yet acknowledged, unless a resynchronization is
    due. *)
Definition retains (l : Log) (history : list EventEnvelope) : Prop :=
  Forall (λ e, EventEnvelope_sequence e ≤ log_sequence l) history ∧
  (log_subscribed l = true → log_resync l = false →
   log_events l = filter (λ e, wanted (log_kinds l) (EventEnvelope_event e) = true
                               ∧ log_retained l < EventEnvelope_sequence e) history).

Lemma push_event_post event o :
  is_u64 (sequence o) →
  wp (push_event event)
    (λ _ o', log_of o' = log_push (log_of o) event ∧ log_sequence (log_of o) + 1 ≤ U64_MAX ∧
             next_client o' = next_client o)
    (λ _ o', o' = o) o.
Proof.
  intros Hs. destruct o as [r a sc st m nc seq sub kinds evs ret_ res ce cc rc].
  unfold wp, push_event, bind, gets, lift, assign, modify, ret, log_push, wanted. cbn in *.
  destruct (checked_u64 (seq + 1)) as [n|] eqn:Hn; cbn; [|done].
  apply checked_in_Some in Hn as [-> [_ Hn]].
  destruct sub, res, (is_empty kinds), (bool_decide (event_kind event ∈ kinds)); cbn;
    try done; destruct (len evs =? 1024); by cbn.
Qed.

Lemma StronglySorted_snoc {A} (R : A → A → Prop) l x :
  StronglySorted R l → Forall (λ y, R y x) l → StronglySorted R (l ++ [x]).
Proof.
  induction 1 as [|y l Hl IH Hy]; intros Hall; [by repeat constructor|].
  apply Forall_cons in Hall as [? ?]. cbn. constructor; [by apply IH|].
  apply Forall_app. by split; [|constructor].
Qed.

Lemma log_push_inv l event :
  log_inv l → Event_wf event → log_sequence l + 1 ≤ U64_MAX → log_inv (log_push l event).
Proof.
  intros (Hr & Hs & Hsort & Hall & Hlen & Hres) Hwf Hn. unfold log_push.
  assert (Forall (λ e, log_retained l < EventEnvelope_sequence e ≤ log_sequence l + 1
               ∧ Event_wf (EventEnvelope_event e)) (log_events l)) as Hall'.
  { eapply Forall_impl; [exact Hall|]. cbn. intros e [? ?]. split; [lia|done]. }
  case_match; [|case_match]; unfold log_inv; cbn -[Z.of_N]; bool_props.
  - split_and!; try done; lia.
  - split_and!; try done; try lia; constructor.
  - split_and!; try done; try lia.
    + rewrite fmap_app. apply StronglySorted_snoc; [done|]. apply Forall_fmap.
      eapply Forall_impl; [exact Hall|]. cbn. intros e [? _]. lia.
    + apply Forall_app. split; [done|]. constructor; [cbn|constructor]. split; [lia|done].
    + rewrite len_app. unfold len in *. cbn in *. lia.
    + intros Hbad. congruence.
Qed.

Lemma log_push_retains l event history :
  log_inv l → retains l history →
  retains (log_push l event) (history ++ [envelope (log_sequence l + 1) event]).
Proof.
  intros (Hr & _) [Hle Hbuf]. unfold log_push.
  assert (Forall (λ e, EventEnvelope_sequence e ≤ log_sequence l + 1)
            (history ++ [envelope (log_sequence l + 1) event])) as Hle'.
  { apply Forall_app. split; [|repeat constructor; cbn; lia].
    eapply Forall_impl; [exact Hle|]. cbn. lia. }
  repeat case_match; bool_props; (split; [done|]); cbn; intros Hsub Hno; try done.
  - rewrite filter_app, <- Hbuf by congruence. rewrite filter_cons_False; [by rewrite app_nil_r|].
    cbn. intros [Hw _]. rewrite Hsub, Hno, Hw in *. done.
  - rewrite filter_app, <- Hbuf by congruence. f_equal. rewrite filter_cons_True; [done|].
    cbn. split; [done|lia].
Qed.

(** [o'] is [o] after the events [evs] and perhaps some new identities. *)
Definition emits (evs : list Event) (o o' : Observer) : Prop :=
  log_of o' = log_push_all (log_of o) evs ∧
  log_sequence (log_of o) + len evs ≤ U64_MAX ∧ Forall Event_wf evs ∧
  next_client o ≤ next_client o' ≤ U64_MAX.

Lemma log_push_sequence l event : log_sequence (log_push l event) = log_sequence l + 1.
Proof. unfold log_push. by repeat case_match. Qed.

Lemma log_push_all_sequence l evs : log_sequence (log_push_all l evs) = log_sequence l + len evs.
Proof.
  revert l. induction evs as [|event evs IH]; intros l; cbn; [unfold len; cbn; lia|].
  fold (log_push_all (log_push l event) evs). rewrite IH, log_push_sequence, len_cons. lia.
Qed.

Lemma log_push_all_inv l evs :
  log_inv l → Forall Event_wf evs → log_sequence l + len evs ≤ U64_MAX →
  log_inv (log_push_all l evs).
Proof.
  intros Hl Hevs. revert l Hl. induction Hevs as [|event evs Hev _ IH]; intros l Hl Hn; [done|].
  rewrite len_cons in Hn. pose proof (len_nonneg evs).
  apply IH; [apply log_push_inv; [done..|lia]|]. rewrite log_push_sequence. lia.
Qed.

Lemma log_push_all_retains l evs history :
  log_inv l → Forall Event_wf evs → log_sequence l + len evs ≤ U64_MAX → retains l history →
  retains (log_push_all l evs) (history ++ number (log_sequence l) evs).
Proof.
  intros Hl Hevs. revert l history Hl.
  induction Hevs as [|event evs Hev _ IH]; intros l history Hl Hn Hr.
  { cbn. by rewrite app_nil_r. }
  rewrite len_cons in Hn. pose proof (len_nonneg evs). cbn [number].
  replace (history ++ _ :: _) with
    ((history ++ [envelope (log_sequence l + 1) event])
       ++ number (log_sequence (log_push l event)) evs)
    by (rewrite log_push_sequence, <- (assoc_L (++)); done).
  apply (IH (log_push l event)).
  - apply log_push_inv; [done..|lia].
  - rewrite log_push_sequence. lia.
  - by apply log_push_retains.
Qed.

(** A resynchronization falls due only when more wanted events wait than the buffer holds. *)
Lemma log_push_all_overrun l evs history :
  log_inv l → Forall Event_wf evs → log_sequence l + len evs ≤ U64_MAX → retains l history →
  log_resync l = false → log_resync (log_push_all l evs) = true →
  MAX_EVENTS < len (filter (λ e, wanted (log_kinds l) (EventEnvelope_event e) = true
                                 ∧ log_retained l < EventEnvelope_sequence e)
                      (history ++ number (log_sequence l) evs)).
Proof.
  intros Hl Hevs. revert l history Hl.
  induction Hevs as [|event evs Hev _ IH]; intros l history Hl Hn Hr Hno Hyes; [cbn in Hyes; congruence|].
  rewrite len_cons in Hn. pose proof (len_nonneg evs). cbn [number].
  set (first := envelope (log_sequence l + 1) event). rewrite (cons_middle first), (assoc_L (++)).
  assert (log_kinds (log_push l event) = log_kinds l ∧ log_retained (log_push l event) = log_retained l) as [Hk Ha]
    by (unfold log_push; by repeat case_match).
  destruct (log_resync (log_push l event)) eqn:Hdue.
  - rewrite filter_app, len_app. destruct Hr as [_ Hbuf]. destruct Hl as ([_ Hle] & _).
    unfold log_push in Hdue. destruct (negb _ || _ || negb _) eqn:Hskip; [cbn in Hdue; congruence|].
    apply orb_false_iff in Hskip as [[Hsub%negb_false_iff _]%orb_false_iff Hw%negb_false_iff].
    destruct (Z.eqb_spec (len (log_events l)) MAX_EVENTS) as [Hfull|]; [|cbn in Hdue; congruence].
    rewrite filter_app, <- Hbuf by done. rewrite (filter_cons_True _ first []), filter_nil by (split; [done|cbn; lia]).
    rewrite len_app, Hfull. change (len [first]) with 1.
    match goal with |- _ < _ + len ?x => pose proof (len_nonneg x) end. lia.
  - rewrite <- Hk, <- Ha, <- (log_push_sequence l event). apply IH; [|rewrite log_push_sequence; lia| |done|done].
    + apply log_push_inv; [done..|lia].
    + by apply log_push_retains.
Qed.

Lemma log_push_all_settings l evs :
  log_subscribed (log_push_all l evs) = log_subscribed l ∧
  log_kinds (log_push_all l evs) = log_kinds l ∧
  log_retained (log_push_all l evs) = log_retained l.
Proof.
  revert l. induction evs as [|event evs IH]; intros l; [done|].
  cbn. fold (log_push_all (log_push l event) evs). destruct (IH (log_push l event)) as (-> & -> & ->).
  unfold log_push. by repeat case_match.
Qed.

Lemma emits_nil o : log_inv (log_of o) → next_client o ≤ U64_MAX → emits [] o o.
Proof.
  intros (? & ? & _) ?. split_and!; [done|unfold len; cbn in *; lia|done|lia|done].
Qed.

Lemma emits_app evs1 evs2 o o1 o2 :
  emits evs1 o o1 → emits evs2 o1 o2 → emits (evs1 ++ evs2) o o2.
Proof.
  intros (Hl1 & Hn1 & Hw1 & Hc1) (Hl2 & Hn2 & Hw2 & Hc2). split_and!.
  - rewrite Hl2, Hl1. unfold log_push_all. by rewrite foldl_app.
  - rewrite Hl1, log_push_all_sequence in Hn2. rewrite len_app. lia.
  - by apply Forall_app.
  - lia.
  - lia.
Qed.

Lemma emits_inv evs o o' : emits evs o o' → log_inv (log_of o) → log_inv (log_of o').
Proof. intros (-> & ? & ? & _) ?. by apply log_push_all_inv. Qed.

(** ** The client's view *)

Record View := {
  view_clients : gmap Z ClientDescriptor;
  view_active : option ClientId;
  view_workspace : WorkspaceId
}.

(** What a client that follows the events does with one. *)
Definition apply_event (v : View) (event : Event) : View :=
  let clients m := {| view_clients := m; view_active := view_active v;
                      view_workspace := view_workspace v |} in
  match event with
  | Event_ClientAdded d | Event_ClientChanged d =>
      clients (<[ClientDescriptor_id d := d]> (view_clients v))
  | Event_ClientRemoved id => clients (delete id (view_clients v))
  | Event_ActiveChanged active =>
      {| view_clients := view_clients v; view_active := active;
         view_workspace := view_workspace v |}
  | Event_WorkspaceChanged workspace =>
      {| view_clients := view_clients v; view_active := view_active v;
         view_workspace := workspace |}
  | Event_ApplicationsChanged _ => v
  end.

Definition apply_events : View → list Event → View := foldl apply_event.

Definition record_id (c : ClientRecord) : ClientId :=
  ClientDescriptor_id (ClientRecord_descriptor c).

Definition records_view (records : list ClientRecord) : gmap Z ClientDescriptor :=
  list_to_map ((λ c, (record_id c, ClientRecord_descriptor c)) <$> records).

Definition view_of (m : Model) : View :=
  {| view_clients := records_view (Model_clients m); view_active := Model_active m;
     view_workspace := Model_current_workspace m |}.

Lemma records_view_keys records :
  ((λ c, (record_id c, ClientRecord_descriptor c)) <$> records).*1 = record_id <$> records.
Proof. rewrite <- list_fmap_compose. done. Qed.

Lemma records_view_cons c records :
  records_view (c :: records) = <[record_id c := ClientRecord_descriptor c]> (records_view records).
Proof. done. Qed.

Lemma records_view_permutation l k :
  NoDup (record_id <$> l) → l ≡ₚ k → records_view l = records_view k.
Proof.
  intros Hnd Hp. apply list_to_map_proper; [by rewrite records_view_keys|].
  by apply fmap_Permutation.
Qed.

Lemma records_view_fresh id records :
  id ∉ record_id <$> records → records_view records !! id = None.
Proof. intros Hid. apply not_elem_of_list_to_map_1. by rewrite records_view_keys. Qed.

(** ** The model *)

Definition model_inv (next : Z) (m : Model) : Prop :=
  let ids := record_id <$> Model_clients m in
  NoDup ids ∧ Forall (λ id, 0 < id < next) ids ∧
  NoDup (ClientRecord_xid <$> Model_clients m) ∧
  Forall (λ c, ClientDescriptor_wf (ClientRecord_descriptor c)
               ∧ is_u64 (ClientDescriptor_generation (ClientRecord_descriptor c))) (Model_clients m) ∧
  len (Model_clients m) ≤ MAX_CLIENTS ∧
  opt (λ id, id ∈ ids) (Model_active m) ∧
  Forall WorkspaceDescriptor_wf (Model_workspaces m) ∧
  NoDup (WorkspaceDescriptor_id <$> Model_workspaces m) ∧
  Model_current_workspace m ∈ WorkspaceDescriptor_id <$> Model_workspaces m ∧
  len (Model_workspaces m) ≤ MAX_WORKSPACES.

Lemma RawClient_descriptor_post c id generation d :
  RawClient_wf c → RawClient_descriptor c id generation = Ok d →
  ClientDescriptor_id d = id ∧ ClientDescriptor_generation d = generation ∧ ClientDescriptor_wf d.
Proof.
  intros (? & ? & ? & ? & _) Hd. unfold RawClient_descriptor in Hd.
  destruct (BoundedList_new (RawClient_states c)) as [states|] eqn:Hs; [|done].
  destruct (BoundedList_new (RawClient_actions c)) as [actions|] eqn:Ha; [|done].
  cbn in Hd. simplify_eq. apply BoundedList_new_Ok in Hs, Ha.
  split_and!; [done..|]. split_and!; cbn; [done..| |]; by rewrite ?Hs, ?Ha.
Qed.

Lemma allocate_client_post o :
  0 < next_client o ≤ U64_MAX →
  wp allocate_client
    (λ id o', id = next_client o ∧ log_of o' = log_of o ∧ next_client o' = next_client o + 1
              ∧ next_client o' ≤ U64_MAX)
    (λ _ o', o' = o) o.
Proof.
  intros Hn. unfold allocate_client. do 2 wp_step. wp_step. apply wp_lift; [|done].
  intros id Hid. wp_step. apply wp_lift; [|done]. intros succ Hsucc. wp_step.
  unfold assign. wp_step. apply wp_ret.
  unfold NonZeroU64_new in Hid. case_match; [done|]. cbn in Hid. simplify_eq.
  destruct (checked_u64 _) as [s|] eqn:Hs; [|done]. cbn in Hsucc. simplify_eq.
  apply checked_in_Some in Hs as [-> Hs]. split_and!; [done..|cbn; lia].
Qed.

Lemma push_event_emits event o :
  log_inv (log_of o) → next_client o ≤ U64_MAX → Event_wf event →
  wp (push_event event) (λ _ o', emits [event] o o' ∧ next_client o' = next_client o)
    (λ _ o', o' = o) o.
Proof.
  intros (Hr & Hs & _) Hn Hwf.
  eapply wp_mono; [apply push_event_post; cbn in *; int_bounds; lia| |done].
  intros _ o' (Hl & Hb & Hc). split; [|done].
  split_and!; [done|unfold len; cbn in *; lia|by constructor|lia|lia].
Qed.

(** ** The difference of two readings *)

Definition with_clients (v : View) (m : gmap Z ClientDescriptor) : View :=
  {| view_clients := m; view_active := view_active v; view_workspace := view_workspace v |}.

(** The events so far, for a computation that may fail on the way. *)
Definition emitted (o o' : Observer) : Prop := ∃ evs, emits evs o o'.

Definition can_emit (o : Observer) : Prop :=
  log_inv (log_of o) ∧ 0 < next_client o ≤ U64_MAX.

Lemma emits_can evs o o' : emits evs o o' → can_emit o → can_emit o'.
Proof. intros He [Hl Hn]. split; [by eapply emits_inv|]. destruct He as (_ & _ & _ & ?). lia. Qed.

Lemma can_emit_nil o : can_emit o → emits [] o o.
Proof. intros [? ?]. apply emits_nil; [done|lia]. Qed.

Lemma emitted_app evs o o1 o2 : emits evs o o1 → emitted o1 o2 → emitted o o2.
Proof. intros ? [evs' ?]. exists (evs ++ evs'). by eapply emits_app. Qed.

Section removed.
Context (raw : RawDesktop).

Definition kept (c : ClientRecord) : Prop :=
  ClientRecord_xid c ∈ RawClient_xid <$> RawDesktop_clients raw.

Lemma removed_loop done rest v o :
  can_emit o → NoDup (record_id <$> done ++ rest) →
  view_clients v = records_view (filter kept done ++ rest) →
  wp (for_each (diff_removed raw) rest)
    (λ _ o', ∃ evs, emits evs o o' ∧
       apply_events v evs = with_clients v (records_view (filter kept (done ++ rest))))
    (λ _ o', emitted o o') o.
Proof.
  revert done v o. induction rest as [|c rest IH]; intros done v o Ho Hnd Hv; cbn [for_each].
  { wp_step. exists []. split; [by apply can_emit_nil|]. cbn. rewrite app_nil_r in *.
    rewrite <- Hv. by destruct v. }
  assert (NoDup (record_id <$> (done ++ [c]) ++ rest)) as Hnd'
    by (by rewrite <- (assoc_L (++))).
  wp_step. unfold diff_removed at 1. case_bool_decide as Hk.
  - wp_step. replace (done ++ c :: rest) with ((done ++ [c]) ++ rest)
      by (by rewrite <- (assoc_L (++))).
    apply IH; [done..|]. rewrite Hv, filter_app, filter_cons_True by done. cbn.
    by rewrite <- (assoc_L (++)).
  - eapply wp_mono; [apply push_event_emits; [apply Ho|destruct Ho; lia|done]| |].
    2: { intros _ ? ->. exists []. by apply can_emit_nil. }
    set (event := Event_ClientRemoved (record_id c)).
    change (Event_ClientRemoved _) with event.
    intros _ o1 [He _].
    eapply wp_mono; [eapply (IH (done ++ [c]) (apply_event v event) o1); [by eapply emits_can|done|]| |].
    + cbn. rewrite Hv, filter_app, filter_cons_False, filter_nil, app_nil_r by done.
      assert (NoDup (record_id <$> c :: filter kept done ++ rest)) as Hnd2.
      { rewrite Permutation_middle. eapply NoDup_fmap_sublist; [|exact Hnd].
        apply sublist_app; [apply sublist_filter|done]. }
      rewrite (records_view_permutation (filter kept done ++ c :: rest)
                 (c :: filter kept done ++ rest)).
      * rewrite records_view_cons. apply delete_insert_id, records_view_fresh.
        by apply NoDup_cons in Hnd2 as [? _].
      * by rewrite <- Permutation_middle.
      * by rewrite <- Permutation_middle.
    + intros _ o2 (evs & He2 & Hview). exists (event :: evs).
      split; [by eapply (emits_app [_])|]. cbn.
      fold (apply_events (apply_event v event) evs).
      etrans; [exact Hview|]. by rewrite <- (assoc_L (++)).
    + intros e o2 ?. by eapply emitted_app.
Qed.
End removed.

(** The descriptor says of the window what was read. *)
Record describes (r : RawClient) (d : ClientDescriptor) : Prop := {
  describes_title : ClientDescriptor_title d = RawClient_title r;
  describes_workspace : ClientDescriptor_workspace d = RawClient_workspace r;
  describes_frame : ClientDescriptor_frame d = RawClient_frame r;
  describes_states : as_slice (ClientDescriptor_states d) = RawClient_states r;
  describes_actions : as_slice (ClientDescriptor_actions d) = RawClient_actions r
}.

(** How a record of the new model comes from the reading [r]: it describes what was read.  A
    window that was in the model keeps its identity, and its whole descriptor if that still
    describes it; otherwise the generation is the next.  A window that was not gets an
    identity that was never used. *)
Record follows (next : Z) (previous : Model) (r : RawClient) (c : ClientRecord) : Prop := {
  follows_window : ClientRecord_xid c = RawClient_xid r;
  follows_read : describes r (ClientRecord_descriptor c);
  follows_known p :
    p ∈ Model_clients previous → ClientRecord_xid p = RawClient_xid r →
    record_id c = record_id p ∧
    (describes r (ClientRecord_descriptor p) → ClientRecord_descriptor c = ClientRecord_descriptor p) ∧
    (¬ describes r (ClientRecord_descriptor p) →
     ClientDescriptor_generation (ClientRecord_descriptor c)
     = ClientDescriptor_generation (ClientRecord_descriptor p) + 1);
  follows_new :
    (∀ p, p ∈ Model_clients previous → ClientRecord_xid p ≠ RawClient_xid r) →
    next ≤ record_id c ∧ ClientDescriptor_generation (ClientRecord_descriptor c) = 0
}.

Lemma RawClient_descriptor_describes r id generation d :
  RawClient_descriptor r id generation = Ok d → describes r d.
Proof.
  unfold RawClient_descriptor.
  destruct (BoundedList_new (RawClient_states r)) as [states|] eqn:Hs; [|done].
  destruct (BoundedList_new (RawClient_actions r)) as [actions|] eqn:Ha; [|done].
  intros [= <-]. apply BoundedList_new_Ok in Hs, Ha. done.
Qed.

Lemma describes_unique r d d' :
  describes r d → describes r d' → ClientDescriptor_id d = ClientDescriptor_id d' →
  ClientDescriptor_generation d = ClientDescriptor_generation d' → d = d'.
Proof.
  intros [? ? ? Hs Ha] [? ? ? Hs' Ha'] ? ?. destruct d, d'; cbn in *; subst.
  rewrite <- Hs in Hs'. rewrite <- Ha in Ha'. apply as_slice_inj in Hs', Ha'. by subst.
Qed.

Definition record_ok (next : Z) (c : ClientRecord) : Prop :=
  0 < record_id c < next ∧ ClientDescriptor_wf (ClientRecord_descriptor c)
  ∧ is_u64 (ClientDescriptor_generation (ClientRecord_descriptor c)).

Lemma record_ok_mono n n' c : n ≤ n' → record_ok n c → record_ok n' c.
Proof. intros ? (? & ? & ?). split_and!; [lia..|done|done]. Qed.

Section clients.
Context (previous : Model).
Context (Hxids : NoDup (ClientRecord_xid <$> Model_clients previous)).

Lemma previous_by_xid_Some xid p :
  previous_by_xid previous xid = Some p → p ∈ Model_clients previous ∧ ClientRecord_xid p = xid.
Proof.
  intros Hp%last_Some_elem_of. by apply list_elem_of_filter in Hp as [? ?].
Qed.

Lemma previous_by_xid_None xid p :
  previous_by_xid previous xid = None → p ∈ Model_clients previous → ClientRecord_xid p ≠ xid.
Proof.
  intros Hn%last_None Hp Hx. assert (p ∈ @nil ClientRecord) as Hbad%elem_of_nil; [|done].
  rewrite <- Hn. by apply list_elem_of_filter.
Qed.

Lemma previous_by_xid_only xid p p' :
  previous_by_xid previous xid = Some p → p' ∈ Model_clients previous → ClientRecord_xid p' = xid → p' = p.
Proof.
  intros [Hp Hx]%previous_by_xid_Some Hp' Hx'.
  apply list_elem_of_lookup in Hp as (i & Hi), Hp' as (j & Hj).
  assert (j = i) as ->; [|congruence].
  eapply NoDup_lookup; [exact Hxids|..]; rewrite list_lookup_fmap; [by rewrite Hj|rewrite Hi; cbn; congruence].
Qed.

Lemma follows_prior next r c p :
  previous_by_xid previous (RawClient_xid r) = Some p →
  ClientRecord_xid c = RawClient_xid r → describes r (ClientRecord_descriptor c) → record_id c = record_id p →
  (describes r (ClientRecord_descriptor p) → ClientRecord_descriptor c = ClientRecord_descriptor p) →
  (¬ describes r (ClientRecord_descriptor p) → ClientDescriptor_generation (ClientRecord_descriptor c)
     = ClientDescriptor_generation (ClientRecord_descriptor p) + 1) →
  follows next previous r c.
Proof.
  intros Hp Hx Hd Hid Hsame Hnext. split; [done|done| |].
  - intros p' Hp' Hx'. by rewrite (previous_by_xid_only _ _ _ Hp Hp' Hx').
  - intros Hno. apply previous_by_xid_Some in Hp as [Hp Hpx]. by apply Hno in Hp.
Qed.

Lemma follows_fresh next r c :
  previous_by_xid previous (RawClient_xid r) = None →
  ClientRecord_xid c = RawClient_xid r → describes r (ClientRecord_descriptor c) → next ≤ record_id c →
  ClientDescriptor_generation (ClientRecord_descriptor c) = 0 → follows next previous r c.
Proof.
  intros Hn Hx Hd Hid Hg. split; [done|done| |done].
  intros p Hp Hpx. by destruct (previous_by_xid_None _ _ Hn Hp).
Qed.

(** The previous records whose windows are still to be read. *)
Definition pending (rest : list RawClient) : list ClientRecord :=
  filter (λ c, ClientRecord_xid c ∈ RawClient_xid <$> rest) (Model_clients previous).

Lemma pending_nil : pending [] = [].
Proof.
  unfold pending. clear Hxids. induction (Model_clients previous) as [|c cs IH]; [done|].
  rewrite filter_cons_False; [done|]. cbn. apply not_elem_of_nil.
Qed.

Lemma pending_fresh r rest :
  previous_by_xid previous (RawClient_xid r) = None → pending (r :: rest) = pending rest.
Proof.
  intros Hn. unfold pending. apply filter_ext_elem. intros p Hp.
  rewrite fmap_cons, elem_of_cons. pose proof (previous_by_xid_None _ _ Hn Hp). naive_solver.
Qed.

Lemma pending_known r rest p :
  NoDup (RawClient_xid <$> r :: rest) →
  previous_by_xid previous (RawClient_xid r) = Some p →
  pending (r :: rest) ≡ₚ p :: pending rest.
Proof.
  intros Hnd [Hp Hx]%previous_by_xid_Some.
  rewrite fmap_cons in Hnd. apply NoDup_cons in Hnd as [Hr _].
  unfold pending. revert Hp Hxids.
  induction (Model_clients previous) as [|c cs IH]; intros Hp Hnd; [by apply elem_of_nil in Hp|].
  rewrite fmap_cons in Hnd. apply NoDup_cons in Hnd as [Hc Hnd].
  apply elem_of_cons in Hp as [->|Hp].
  - rewrite filter_cons_True by (rewrite Hx; by left).
    rewrite filter_cons_False by (by rewrite Hx).
    apply reflexive_eq. f_equal. apply filter_ext_elem. intros p' Hp'.
    rewrite fmap_cons, elem_of_cons. split; [|by right].
    intros [Heq|?]; [|done]. destruct Hc. rewrite Hx, <- Heq. by apply list_elem_of_fmap_2.
  - rewrite !filter_cons. specialize (IH Hp Hnd).
    assert (ClientRecord_xid c ≠ RawClient_xid r) as Hne.
    { intros Heq. apply Hc. rewrite Heq, <- Hx. by apply list_elem_of_fmap_2. }
    destruct (decide (ClientRecord_xid c ∈ RawClient_xid <$> rest)) as [Hin|Hin].
    + rewrite decide_True by (by right). rewrite IH. apply Permutation_swap.
    + rewrite decide_False; [done|]. rewrite fmap_cons, elem_of_cons. naive_solver.
Qed.

Lemma snoc_record (C : list ClientRecord) c K : (C ++ [c]) ++ K ≡ₚ c :: C ++ K.
Proof. rewrite <- (assoc_L (++)). cbn. by rewrite <- Permutation_middle. Qed.

Lemma records_view_snoc C c K :
  NoDup (record_id <$> c :: C ++ K) →
  records_view ((C ++ [c]) ++ K)
  = <[record_id c := ClientRecord_descriptor c]> (records_view (C ++ K)).
Proof.
  intros Hnd. rewrite <- records_view_cons.
  apply records_view_permutation; [by rewrite snoc_record | apply snoc_record].
Qed.

(** What holds before the rounds for [rest], after the records [C]. *)
Definition rounds (next : Z) (C : list ClientRecord) (rest : list RawClient) : Prop :=
  NoDup (record_id <$> C ++ pending rest) ∧ Forall (record_ok next) (C ++ pending rest).

Lemma rounds_snoc next C c rest :
  NoDup (record_id <$> c :: C ++ pending rest) → record_ok next c →
  Forall (record_ok next) (C ++ pending rest) → rounds next (C ++ [c]) rest.
Proof. intros. split; rewrite snoc_record; [done|by constructor]. Qed.

Lemma round_known next0 r rest C v p o :
  can_emit o → rounds (next_client o) C (r :: rest) →
  view_clients v = records_view (C ++ pending (r :: rest)) →
  RawClient_wf r → NoDup (RawClient_xid <$> r :: rest) →
  previous_by_xid previous (RawClient_xid r) = Some p →
  wp (diff_client previous r)
    (λ c o', ∃ evs, emits evs o o' ∧ follows next0 previous r c ∧
       rounds (next_client o') (C ++ [c]) rest ∧
       apply_events v evs = with_clients v (records_view ((C ++ [c]) ++ pending rest)))
    (λ _ o', emitted o o') o.
Proof.
  intros Ho [Hnd Hall] Hv Hr Hrest Hp. unfold diff_client. rewrite Hp.
  pose proof (pending_known r rest p Hrest Hp) as Hperm.
  rewrite (records_view_permutation _ (p :: C ++ pending rest)) in Hv
    by (done || by rewrite Hperm, <- Permutation_middle).
  rewrite Hperm, <- Permutation_middle in Hnd, Hall.
  apply Forall_cons in Hall as [(Hid & Hwf & Hgen) Hall].
  rewrite records_view_cons in Hv.
  wp_step. apply wp_lift; [|by exists []; apply can_emit_nil]. intros d Hd.
  pose proof (RawClient_descriptor_post _ _ _ _ Hr Hd) as (Hdi & Hdg & Hdw).
  case_bool_decide as Heq.
  - subst d. wp_step. exists []. split; [by apply can_emit_nil|].
    apply previous_by_xid_Some in Hp as Hpx.
    assert ({| ClientRecord_xid := RawClient_xid r;
               ClientRecord_descriptor := ClientRecord_descriptor p |} = p) as ->
      by (destruct Hpx as [_ <-]; by destruct p).
    apply RawClient_descriptor_describes in Hd as Hdescribes.
    split_and!; [by eapply follows_prior; [done|destruct Hpx|..]|by apply rounds_snoc|].
    rewrite records_view_snoc by done. cbn. rewrite <- Hv. by destruct v.
  - wp_step. apply wp_lift; [|by exists []; apply can_emit_nil]. intros g Hg.
    destruct (checked_u64 _) as [g'|] eqn:Hg'; [|done]. cbn in Hg. simplify_eq.
    apply checked_in_Some in Hg' as [-> Hg'].
    wp_step. apply wp_lift; [|by exists []; apply can_emit_nil]. intros d' Hd'.
    pose proof (RawClient_descriptor_post _ _ _ _ Hr Hd') as (Hdi' & Hdg' & Hdw').
    set (c := {| ClientRecord_xid := RawClient_xid r; ClientRecord_descriptor := d' |}).
    assert (record_id c = record_id p) as Hc by exact Hdi'.
    wp_step. eapply wp_mono;
      [apply push_event_emits; [apply Ho|destruct Ho; lia|done]| |].
    2: { intros _ ? ->. exists []. by apply can_emit_nil. }
    intros _ o1 [He Hn]. wp_step. exists [Event_ClientChanged d']. split; [done|].
    rewrite <- Hn in Hid, Hall.
    assert (NoDup (record_id <$> c :: C ++ pending rest)) as Hnd'
      by (rewrite fmap_cons, Hc; done).
    apply RawClient_descriptor_describes in Hd as Hdescribes, Hd' as Hdescribes'.
    split_and!; [apply (follows_prior next0 r c p); [done..| |by rewrite <- Hdg']
      |apply rounds_snoc; [done| |done]|].
    + intros Hsame. destruct Heq. by eapply describes_unique.
    + split_and!; cbn; [rewrite Hc; lia|rewrite Hc; lia|done|rewrite Hdg'; int_bounds; lia].
    + rewrite records_view_snoc by done. cbn. rewrite Hv, Hc, Hdi'. unfold with_clients.
      f_equal. unfold record_id. by rewrite insert_insert_eq.
Qed.

Lemma round_fresh next0 r rest C v o :
  can_emit o → next0 ≤ next_client o → rounds (next_client o) C (r :: rest) →
  view_clients v = records_view (C ++ pending (r :: rest)) → RawClient_wf r →
  previous_by_xid previous (RawClient_xid r) = None →
  wp (diff_client previous r)
    (λ c o', ∃ evs, emits evs o o' ∧ follows next0 previous r c ∧
       rounds (next_client o') (C ++ [c]) rest ∧
       apply_events v evs = with_clients v (records_view ((C ++ [c]) ++ pending rest)))
    (λ _ o', emitted o o') o.
Proof.
  intros Ho Hnext [Hnd Hall] Hv Hr Hp. unfold diff_client. rewrite Hp.
  rewrite (pending_fresh r rest Hp) in *.
  wp_step. eapply wp_mono; [apply allocate_client_post; apply Ho| |].
  2: { intros _ ? ->. exists []. by apply can_emit_nil. }
  intros id o1 (-> & Hl1 & Hn1 & Hb1).
  assert (emits [] o o1) as He1.
  { destruct (can_emit_nil o Ho) as (? & ? & ? & ?). split_and!; [done..|lia|lia]. }
  wp_step. apply wp_lift; [|by intros; exists []]. intros d Hd.
  pose proof (RawClient_descriptor_post _ _ _ _ Hr Hd) as (Hdi & Hdg & Hdw).
  set (c := {| ClientRecord_xid := RawClient_xid r; ClientRecord_descriptor := d |}).
  assert (record_id c = next_client o) as Hc by exact Hdi.
  assert (can_emit o1) as Ho1 by (by eapply emits_can).
  wp_step. eapply wp_mono;
    [apply push_event_emits; [apply Ho1|lia|done]| |].
  2: { intros _ ? ->. by exists []. }
  intros _ o2 [He2 Hn2]. wp_step. exists [Event_ClientAdded d].
  split; [by eapply (emits_app [])|].
  assert (record_id c ∉ record_id <$> C ++ pending rest) as Hfresh.
  { rewrite Hc. intros (p & Hpid & Hpin)%list_elem_of_fmap.
    rewrite Forall_forall in Hall. destruct (Hall p Hpin) as [? _]. lia. }
  assert (NoDup (record_id <$> c :: C ++ pending rest)) as Hnd' by (by constructor).
  apply RawClient_descriptor_describes in Hd as Hdescribes.
  split_and!; [apply follows_fresh; [done..|lia|done]|apply rounds_snoc; [done| |]|].
  - destruct Ho. split_and!; cbn; [lia|lia|done|rewrite Hdg; int_bounds; lia].
  - eapply Forall_impl; [exact Hall|]. intros p. apply record_ok_mono. lia.
  - rewrite records_view_snoc by done. cbn. by rewrite Hv, Hc, Hdi.
Qed.

Lemma clients_loop next0 rest C v o :
  can_emit o → next0 ≤ next_client o → rounds (next_client o) C rest →
  view_clients v = records_view (C ++ pending rest) →
  Forall RawClient_wf rest → NoDup (RawClient_xid <$> rest) →
  wp (traverse (diff_client previous) rest)
    (λ cs o', ∃ evs, emits evs o o' ∧ Forall2 (follows next0 previous) rest cs ∧
       rounds (next_client o') (C ++ cs) [] ∧
       apply_events v evs = with_clients v (records_view (C ++ cs)))
    (λ _ o', emitted o o') o.
Proof.
  revert C v o. induction rest as [|r rest IH]; intros C v o Ho Hn Hrounds Hv Hwf Hnd;
    cbn [traverse].
  { wp_step. exists []. rewrite app_nil_r. rewrite pending_nil, app_nil_r in Hv.
    split_and!; [by apply can_emit_nil|done|done|]. rewrite <- Hv. by destruct v. }
  apply Forall_cons in Hwf as [Hr Hwf]. wp_step.
  eapply wp_mono with (Q := λ c o', ∃ evs, emits evs o o' ∧ follows next0 previous r c ∧
       rounds (next_client o') (C ++ [c]) rest ∧
       apply_events v evs = with_clients v (records_view ((C ++ [c]) ++ pending rest)))
    (R := λ _ o', emitted o o').
  { destruct (previous_by_xid previous (RawClient_xid r)) as [p|] eqn:Hp;
      [by eapply round_known | by eapply round_fresh]. }
  2: done.
  intros c o1 (evs1 & He1 & Hf1 & Hr1 & Hv1). wp_step.
  rewrite fmap_cons in Hnd. apply NoDup_cons in Hnd as [_ Hnd].
  eapply wp_mono; [eapply (IH (C ++ [c]) (apply_events v evs1) o1)| |].
  - by eapply emits_can.
  - destruct He1 as (_ & _ & _ & ?). lia.
  - done.
  - by rewrite Hv1.
  - done.
  - done.
  - intros cs o2 (evs2 & He2 & Hf2 & Hr2 & Hv2). wp_step. exists (evs1 ++ evs2).
    rewrite <- (assoc_L (++)) in Hr2, Hv2.
    split_and!; [by eapply emits_app|by constructor|done|].
    unfold apply_events. rewrite foldl_app. fold (apply_events v evs1).
    fold (apply_events (apply_events v evs1) evs2). by rewrite Hv2, Hv1.
  - intros e o2 ?. by eapply emitted_app.
Qed.
End clients.

Lemma find_active_elem active cs id : find_active active cs = Some id → id ∈ record_id <$> cs.
Proof.
  unfold find_active. destruct active as [xid|]; [|done].
  destruct (list_find _ cs) as [[i c]|] eqn:Hf; [|done]. intros [= <-].
  apply list_find_Some in Hf as (Hc & _ & _). apply (list_elem_of_fmap_2 record_id).
  by eapply list_elem_of_lookup_2.
Qed.

Lemma follows_xids next previous rs cs :
  Forall2 (follows next previous) rs cs → ClientRecord_xid <$> cs = RawClient_xid <$> rs.
Proof. induction 1 as [|r c rs cs [Hx] _ IH]; [done|]. by rewrite !fmap_cons, Hx, IH. Qed.

(** The active client is the one whose window is active. *)
Definition activates (active : option Z) (clients : list ClientRecord) (id : option ClientId) : Prop :=
  match id with
  | Some id => ∃ c, c ∈ clients ∧ record_id c = id ∧ active = Some (ClientRecord_xid c)
  | None => ∀ c, c ∈ clients → active ≠ Some (ClientRecord_xid c)
  end.

Lemma find_active_activates active cs : activates active cs (find_active active cs).
Proof.
  unfold find_active, activates. destruct active as [xid|]; [|done].
  destruct (list_find _ cs) as [[i c]|] eqn:Hf.
  - apply list_find_Some in Hf as (Hc & Hx & _). exists c. split_and!; [by eapply list_elem_of_lookup_2|done|by rewrite Hx].
  - apply list_find_None in Hf. rewrite Forall_forall in Hf. intros c Hc [= ->]. by apply (Hf c).
Qed.

(** The model [m] is that of the reading [raw], after [previous]. *)
Record reads_as (next : Z) (previous : Model) (raw : RawDesktop) (m : Model) : Prop := {
  reads_clients : Forall2 (follows next previous) (RawDesktop_clients raw) (Model_clients m);
  reads_workspace : Model_current_workspace m = RawDesktop_current_workspace raw;
  reads_workspaces : Model_workspaces m = RawDesktop_workspaces raw;
  reads_active : activates (RawDesktop_active raw) (Model_clients m) (Model_active m)
}.

Lemma model_inv_intro next raw cs active :
  RawDesktop_wf raw → NoDup (record_id <$> cs) → Forall (record_ok next) cs →
  ClientRecord_xid <$> cs = RawClient_xid <$> RawDesktop_clients raw →
  model_inv next
    {| Model_current_workspace := RawDesktop_current_workspace raw;
       Model_workspaces := RawDesktop_workspaces raw; Model_clients := cs;
       Model_active := find_active active cs |}.
Proof.
  intros (? & ? & ? & ? & ? & Hxids & Hlen & ?) Hnd Hok Hx.
  assert (length cs = length (RawDesktop_clients raw)) as Hl
    by (apply (f_equal length) in Hx; by rewrite !length_fmap in Hx).
  unfold model_inv. cbn [Model_clients Model_active Model_workspaces Model_current_workspace].
  split_and!; try done.
  - apply Forall_fmap. eapply Forall_impl; [exact Hok|]. by intros c [? _].
  - by rewrite Hx.
  - eapply Forall_impl; [exact Hok|]. by intros c [_ ?].
  - unfold len in *. by rewrite Hl.
  - intros id Hid. by eapply find_active_elem.
Qed.

Lemma model_inv_records next m :
  model_inv next m →
  NoDup (record_id <$> Model_clients m) ∧ NoDup (ClientRecord_xid <$> Model_clients m) ∧
  Forall (record_ok next) (Model_clients m).
Proof.
  intros (? & Hids & ? & Hwf & _). split_and!; [done..|]. rewrite Forall_fmap in Hids.
  rewrite Forall_forall in *. intros c Hc. split; [by apply Hids|by apply Hwf].
Qed.

(** An event that is emitted only when something changed. *)
Lemma emit_if (b : bool) event v v' o :
  can_emit o → Event_wf event →
  (b = true → apply_event v event = v') → (b = false → v = v') →
  wp (if b then push_event event else ret tt)
    (λ _ o', ∃ evs, emits evs o o' ∧ next_client o' = next_client o ∧ apply_events v evs = v')
    (λ _ o', emitted o o') o.
Proof.
  intros Ho Hwf Ht Hf. destruct b.
  - eapply wp_mono; [apply push_event_emits; [apply Ho|destruct Ho; lia|done]| |].
    + intros _ o1 [He Hn]. exists [event]. split_and!; [done..|]. by apply Ht.
    + intros _ ? ->. exists []. by apply can_emit_nil.
  - wp_step. exists []. split_and!; [by apply can_emit_nil|done|by apply Hf].
Qed.

Lemma diff_model_post previous raw o :
  can_emit o → model_inv (next_client o) previous → RawDesktop_wf raw →
  wp (diff_model previous raw)
    (λ m o', ∃ evs, emits evs o o' ∧ model_inv (next_client o') m ∧
       reads_as (next_client o) previous raw m ∧
       apply_events (view_of previous) evs = view_of m)
    (λ _ o', emitted o o') o.
Proof.
  intros Ho Hprev Hraw. destruct (model_inv_records _ _ Hprev) as (Hids & Hxids & Hok).
  pose proof Hraw as (_ & _ & _ & _ & Hwf & Hnd & _).
  unfold diff_model. wp_step.
  eapply wp_mono; [by apply (removed_loop raw [] _ (view_of previous))| |done].
  intros _ o1 (evs1 & He1 & Hv1). rewrite app_nil_l in Hv1. wp_step.
  assert (can_emit o1) as Ho1 by by eapply emits_can.
  pose proof He1 as (_ & _ & _ & Hn1).
  eapply wp_mono; [apply (clients_loop previous Hxids (next_client o) _ []
                            (apply_events (view_of previous) evs1))| |].
  { done. }
  { lia. }
  { split.
    - eapply NoDup_fmap_sublist; [apply sublist_filter|done].
    - rewrite Forall_forall in Hok |- *. intros c [_ Hc]%list_elem_of_filter.
      eapply record_ok_mono; [|by apply Hok]. lia. }
  { by rewrite Hv1. }
  { done. }
  { done. }
  2: { intros e o2 ?. by eapply emitted_app. }
  intros cs o2 (evs2 & He2 & Hf & [Hcs Hcok] & Hv2). cbn [app] in *.
  rewrite pending_nil, app_nil_r in Hcs, Hcok.
  assert (emits (evs1 ++ evs2) o o2) as He12 by by eapply emits_app.
  assert (can_emit o2) as Ho2 by by eapply emits_can.
  wp_step. set (v2 := apply_events (apply_events (view_of previous) evs1) evs2) in *.
  eapply wp_mono; [apply (emit_if _ _ v2
    {| view_clients := records_view cs; view_active := Model_active previous;
       view_workspace := RawDesktop_current_workspace raw |}); [done|done| |]| |].
  { intros _. by rewrite Hv2, Hv1. }
  { intros Hsame. apply orb_false_iff in Hsame as [Hsame _]. bool_props.
    apply dec_stable in Hsame. rewrite Hv2, Hv1, <- Hsame. done. }
  2: { intros e o3 ?. by eapply emitted_app. }
  intros _ o3 (evs3 & He3 & Hn3 & Hv3).
  assert (emits ((evs1 ++ evs2) ++ evs3) o o3) as He123 by by eapply emits_app.
  assert (can_emit o3) as Ho3 by by eapply emits_can.
  cbv zeta. wp_step. set (active := find_active _ cs).
  eapply wp_mono; [apply (emit_if _ _ (apply_events v2 evs3)
    {| view_clients := records_view cs; view_active := active;
       view_workspace := RawDesktop_current_workspace raw |}); [done|done| |]| |].
  { intros _. by rewrite Hv3. }
  { intros Hsame. bool_props. apply dec_stable in Hsame. by rewrite Hv3, Hsame. }
  2: { intros e o4 ?. by eapply emitted_app. }
  intros _ o4 (evs4 & He4 & Hn4 & Hv4). wp_step.
  exists (((evs1 ++ evs2) ++ evs3) ++ evs4). split; [by eapply emits_app|].
  split_and!; [|by split; [..|apply find_active_activates]|].
  - apply model_inv_intro; [done..| |by eapply follows_xids].
    by rewrite Hn4, Hn3.
  - unfold apply_events. rewrite !foldl_app. exact Hv4.
Qed.

Lemma initial_clients raw_clients C o :
  can_emit o → NoDup (record_id <$> C) → Forall (record_ok (next_client o)) C →
  Forall RawClient_wf raw_clients →
  wp (traverse (λ client,
       let! id := allocate_client in
       let! descriptor := lift (RawClient_descriptor client id 0) in
       ret {| ClientRecord_xid := RawClient_xid client;
              ClientRecord_descriptor := descriptor |}) raw_clients)
    (λ cs o', emits [] o o' ∧ NoDup (record_id <$> C ++ cs) ∧
       Forall (record_ok (next_client o')) (C ++ cs) ∧
       ClientRecord_xid <$> cs = RawClient_xid <$> raw_clients)
    (λ _ o', emitted o o') o.
Proof.
  revert C o. induction raw_clients as [|r rest IH]; intros C o Ho Hnd Hok Hwf; cbn [traverse].
  { wp_step. rewrite app_nil_r. split_and!; [by apply can_emit_nil|done..]. }
  apply Forall_cons in Hwf as [Hr Hwf]. do 2 wp_step.
  eapply wp_mono; [apply allocate_client_post; apply Ho| |].
  2: { intros _ ? ->. exists []. by apply can_emit_nil. }
  intros id o1 (-> & Hl & Hn & Hb).
  assert (emits [] o o1) as He1.
  { destruct (can_emit_nil o Ho) as (? & ? & ? & ?). split_and!; [done..|lia|lia]. }
  wp_step. apply wp_lift; [|by intros; exists []]. intros d Hd.
  apply RawClient_descriptor_post in Hd as (Hdi & Hdg & Hdw); [|done].
  wp_step. wp_step.
  set (c := {| ClientRecord_xid := RawClient_xid r; ClientRecord_descriptor := d |}).
  assert (record_id c = next_client o) as Hc by exact Hdi.
  eapply wp_mono; [apply (IH (C ++ [c]) o1); [by eapply emits_can|..]| |].
  - rewrite fmap_app. apply NoDup_app. split_and!; [done| |apply NoDup_singleton].
    intros id Hid Hbad. apply list_elem_of_singleton in Hbad as ->.
    apply list_elem_of_fmap in Hid as (p & Hp & Hin). rewrite Forall_forall in Hok.
    destruct (Hok p Hin) as [? _]. change (ClientRecord_descriptor c) with d in *. 
    rewrite Hc in Hp. lia.
  - apply Forall_app. split.
    + eapply Forall_impl; [exact Hok|]. intros p. apply record_ok_mono. lia.
    + constructor; [|done]. destruct Ho.
      split_and!; [rewrite Hc; lia|rewrite Hc; lia|done|cbn; rewrite Hdg; int_bounds; lia].
  - done.
  - intros cs o2 (He2 & Hnd2 & Hok2 & Hx2). wp_step. rewrite <- (assoc_L (++)) in Hnd2, Hok2.
    split_and!; [by eapply (emits_app [])|done|done|]. by rewrite !fmap_cons, Hx2.
  - intros e o2 ?. by eapply emitted_app.
Qed.

Lemma initial_model_post raw o :
  can_emit o → RawDesktop_wf raw →
  wp (initial_model raw)
    (λ m o', emits [] o o' ∧ model_inv (next_client o') m) (λ _ o', emitted o o') o.
Proof.
  intros Ho Hraw. pose proof Hraw as (_ & _ & _ & _ & Hwf & _).
  unfold initial_model. wp_step.
  eapply wp_mono; [apply (initial_clients _ []); [done|constructor|constructor|done]| |done].
  intros cs o1 (He & Hnd & Hok & Hx). wp_step. split; [done|]. by apply model_inv_intro.
Qed.

Instance set_sequence_model x : Preserves model (assign (λ o, set_sequence o x)).
Proof. done. Qed.
Instance set_next_client_model x : Preserves model (assign (λ o, set_next_client o x)).
Proof. done. Qed.
Instance set_log_model f g h : Preserves model (assign (λ o, set_log o (f o) (g o) (h o))).
Proof. done. Qed.

Instance push_event_model event : Preserves model (push_event event).
Proof. unfold push_event. solve_preserves. Qed.

Instance allocate_client_model : Preserves model allocate_client.
Proof. unfold allocate_client. solve_preserves. Qed.

Instance initial_model_model raw : Preserves model (initial_model raw).
Proof. unfold initial_model. solve_preserves. Qed.

Instance diff_model_model previous raw : Preserves model (diff_model previous raw).
Proof. unfold diff_model, diff_removed, diff_client. solve_preserves. Qed.

(** ** Polling *)

Notation seqs evs := (EventEnvelope_sequence <$> evs).

Lemma discard_spec after evs retained :
  StronglySorted Z.lt (seqs evs) → Forall (λ e, retained < EventEnvelope_sequence e) evs →
  retained ≤ after →
  (discard after evs retained).1 = filter (λ e, after < EventEnvelope_sequence e) evs ∧
  retained ≤ (discard after evs retained).2 ≤ after ∧
  Forall (λ e, EventEnvelope_sequence e ≤ (discard after evs retained).2 ↔
               EventEnvelope_sequence e ≤ after) evs.
Proof.
  revert retained. induction evs as [|e evs IH]; intros retained Hs Hr Ha; cbn [discard].
  { split; [done|]. split; [cbn; lia|constructor]. }
  rewrite fmap_cons in Hs. apply StronglySorted_inv in Hs as [Hs He].
  rewrite Forall_fmap in He. apply Forall_cons in Hr as [Hr0 Hr].
  destruct (Z.leb_spec (EventEnvelope_sequence e) after) as [Hle|Hgt].
  - rewrite filter_cons_False by lia.
    destruct (IH (EventEnvelope_sequence e)) as (Hf & Hb & Hall); [done|exact He|done|].
    split; [done|]. split; [lia|]. constructor; [lia|done].
  - assert (Forall (λ e, after < EventEnvelope_sequence e) (e :: evs)) as Hall.
    { constructor; [lia|]. eapply Forall_impl; [exact He|]. cbn. intros e'. lia. }
    split; [|split; [cbn; lia|]].
    + symmetry. clear -Hall. induction Hall as [|e' l ? _ IH']; [done|].
      by rewrite filter_cons_True, IH'.
    + eapply Forall_impl; [exact Hall|]. cbn. intros e'. lia.
Qed.

(** Acknowledging events up to [after]. *)
Definition log_discard (after : Z) (l : Log) : Log :=
  {| log_sequence := log_sequence l; log_subscribed := log_subscribed l;
     log_kinds := log_kinds l; log_events := (discard after (log_events l) (log_retained l)).1;
     log_retained := (discard after (log_events l) (log_retained l)).2;
     log_resync := log_resync l |}.

Lemma StronglySorted_filter {A} (R : A → A → Prop) (P : A → Prop) `{∀ x, Decision (P x)} (l : list A) :
  StronglySorted R l → StronglySorted R (filter P l).
Proof.
  induction 1 as [|x l _ IH Hx]; [constructor|]. rewrite filter_cons. case_decide; [|done].
  constructor; [done|]. rewrite Forall_forall in *. intros y [_ ?]%list_elem_of_filter. auto.
Qed.

Lemma StronglySorted_fmap {A B} (R : B → B → Prop) (f : A → B) (l : list A) :
  StronglySorted R (f <$> l) ↔ StronglySorted (λ x y, R (f x) (f y)) l.
Proof.
  induction l as [|x l IH]; [by split; constructor|]. rewrite fmap_cons. split.
  - intros [? Hx]%StronglySorted_inv. constructor; [by apply IH|]. by rewrite Forall_fmap in Hx.
  - intros [? Hx]%StronglySorted_inv. constructor; [by apply IH|]. by apply Forall_fmap.
Qed.

Lemma log_discard_inv after l :
  log_inv l → log_retained l ≤ after ≤ log_sequence l → log_inv (log_discard after l).
Proof.
  intros (Hr & Hs & Hsort & Hall & Hlen & Hres) Ha.
  destruct (discard_spec after (log_events l) (log_retained l)) as (Hf & Hb & Hiff); [done| |lia|].
  { eapply Forall_impl; [exact Hall|]. cbn. intros e [? _]. lia. }
  unfold log_inv, log_discard. cbn -[Z.of_N discard]. split_and!; try lia.
  - rewrite Hf. apply StronglySorted_fmap, StronglySorted_filter. by apply StronglySorted_fmap.
  - rewrite Hf. apply Forall_forall. intros e [Hgt He]%list_elem_of_filter.
    rewrite Forall_forall in Hall. destruct (Hall e He). split; [lia|done].
  - rewrite Hf. etrans; [|exact Hlen]. unfold len. apply inj_le, length_filter.
  - intros Hrs. by rewrite (Hres Hrs).
Qed.

Lemma log_discard_retains after l history :
  log_inv l → log_retained l ≤ after → retains l history →
  retains (log_discard after l) history.
Proof.
  intros (_ & _ & Hsort & Hall & _) Ha [Hle Hbuf]. split; [done|].
  cbn -[discard]. intros Hsub Hres. specialize (Hbuf Hsub Hres).
  destruct (discard_spec after (log_events l) (log_retained l)) as (Hf & Hb & Hiff); [done| |done|].
  { eapply Forall_impl; [exact Hall|]. cbn. intros e [? _]. lia. }
  rewrite Hf. set (retained' := (discard _ _ _).2) in *. rewrite Hbuf, list_filter_filter.
  apply filter_ext_elem. intros e He. split.
  - intros (? & ? & ?). split; [done|lia].
  - intros [Hw Hgt]. split; [|split; [done|lia]].
    assert (e ∈ log_events l) as Hin
      by (rewrite Hbuf; apply list_elem_of_filter; split; [split; [done|lia]|done]).
    rewrite Forall_forall in Hiff. specialize (Hiff e Hin). lia.
Qed.

Lemma StronglySorted_take {A} (R : A → A → Prop) n (l : list A) :
  StronglySorted R l → StronglySorted R (take n l).
Proof.
  intros Hl. revert n. induction Hl as [|x l _ IH Hx]; intros [|n]; try constructor; [done|].
  by apply Forall_take.
Qed.

(** Taking the first events of a sorted list is taking those up to the last one taken. *)
Lemma take_sorted (n : nat) (l : list EventEnvelope) e :
  StronglySorted Z.lt (seqs l) → last (take n l) = Some e →
  take n l = filter (λ x, EventEnvelope_sequence x ≤ EventEnvelope_sequence e) l.
Proof.
  revert n. induction l as [|x l IH]; intros [|n] Hs Hlast; try done.
  rewrite fmap_cons in Hs. apply StronglySorted_inv in Hs as [Hs Hx]. rewrite Forall_fmap in Hx.
  cbn [take] in *. destruct (take n l) as [|y k] eqn:Ht.
  - cbn in Hlast. simplify_eq. rewrite filter_cons_True by done. f_equal.
    rewrite Forall_forall in Hx. clear -Hx. induction l as [|z l IH]; [done|].
    rewrite filter_cons_False; [apply IH; intros w Hw; apply Hx; by right|].
    specialize (Hx z ltac:(by left)). cbn in Hx. lia.
  - rewrite last_cons_cons in Hlast. rewrite <- Ht in *.
    assert (e ∈ l) as He.
    { apply last_Some_elem_of in Hlast. by apply elem_of_take in Hlast as (i & ? & _);
        eapply list_elem_of_lookup_2. }
    rewrite Forall_forall in Hx. specialize (Hx e He). cbn in Hx.
    rewrite filter_cons_True by lia. f_equal. by apply IH.
Qed.

Lemma take_last_None {A} (n : nat) (l : list A) : last (take n l) = None → (0 < n)%nat → l = [].
Proof. rewrite last_None. destruct n, l; naive_solver lia. Qed.

(** The wanted part of the history after [after], up to [upto]. *)
Definition delivered (kinds : list EventKind) (after upto : Z) (history : list EventEnvelope)
  : list EventEnvelope :=
  filter (λ e, wanted kinds (EventEnvelope_event e) = true ∧
               after < EventEnvelope_sequence e ≤ upto) history.

Lemma sorted_last l e :
  StronglySorted Z.lt (seqs l) → last l = Some e →
  Forall (λ x, EventEnvelope_sequence x ≤ EventEnvelope_sequence e) l.
Proof.
  induction l as [|x l IH]; intros Hs Hlast; [done|].
  rewrite fmap_cons in Hs. apply StronglySorted_inv in Hs as [Hs Hx]. rewrite Forall_fmap in Hx.
  destruct l as [|y l]; [cbn in Hlast; simplify_eq; by constructor|].
  rewrite last_cons_cons in Hlast. constructor; [|by apply IH].
  apply last_Some_elem_of in Hlast. rewrite Forall_forall in Hx. specialize (Hx e Hlast).
  cbn in Hx. lia.
Qed.

Lemma event_page_wf o after limit batch :
  log_inv (log_of o) → event_page o after limit = Ok batch → EventBatch_wf batch.
Proof.
  intros (_ & _ & Hsort & Hall & _) Hp. unfold event_page in Hp. cbn in Hsort, Hall.
  set (page := take _ _) in *.
  destruct (BoundedList_new page) as [b|] eqn:Hb; [|done]. cbn in Hp. simplify_eq.
  apply BoundedList_new_Ok in Hb.
  assert (StronglySorted Z.lt (seqs page)) as Hs.
  { unfold page. rewrite fmap_take. apply StronglySorted_take.
    by apply StronglySorted_fmap, StronglySorted_filter, StronglySorted_fmap. }
  assert (∀ e, e ∈ page → EventEnvelope_sequence e ≤ sequence o ∧ Event_wf (EventEnvelope_event e))
    as Hin.
  { intros e (i & Hi & _)%elem_of_take. apply list_elem_of_lookup_2 in Hi.
    apply list_elem_of_filter in Hi as [_ Hi]. rewrite Forall_forall in Hall.
    destruct (Hall e Hi). by split; [lia|]. }
  split; cbn; rewrite Hb.
  - apply Forall_forall. intros e He. by apply Hin.
  - split; [done|]. rewrite Forall_fmap. apply Forall_forall. intros e He. cbn. split; [|done].
    destruct (last page) as [e'|] eqn:Hl; [|by apply Hin].
    pose proof (sorted_last _ _ Hs Hl) as Hle. rewrite Forall_forall in Hle. by apply Hle.
Qed.

Lemma event_page_exact o after limit history batch :
  log_inv (log_of o) → retains (log_of o) history → subscribed o = true →
  resync_required o = false → retained_after o ≤ after ≤ sequence o → 0 < limit →
  event_page o after limit = Ok batch →
  as_slice (EventBatch_events batch)
  = delivered (subscribed_kinds o) after (EventBatch_cursor batch) history ∧
  after ≤ EventBatch_cursor batch ≤ sequence o.
Proof.
  intros (Hr & Hs & Hsort & Hall & _) [Hle Hbuf] Hsub Hres Ha Hlimit Hp.
  specialize (Hbuf Hsub Hres). cbn in *. unfold event_page in Hp.
  set (rest := filter (λ e, after < EventEnvelope_sequence e) (events o)) in *.
  destruct (BoundedList_new (take (Z.to_nat limit) rest)) as [page|] eqn:Hpage; [|done].
  cbn in Hp. simplify_eq. cbn [EventBatch_events EventBatch_cursor].
  apply BoundedList_new_Ok in Hpage. rewrite Hpage.
  assert (StronglySorted Z.lt (seqs rest)) as Hrs
    by (apply StronglySorted_fmap, StronglySorted_filter; by apply StronglySorted_fmap).
  assert (rest = filter (λ e, wanted (subscribed_kinds o) (EventEnvelope_event e) = true ∧
                              after < EventEnvelope_sequence e) history) as Hrest.
  { unfold rest. rewrite Hbuf, list_filter_filter. apply filter_ext_elem. intros e _.
    split; [naive_solver|]. intros [? ?]. split_and!; [done..|]. lia. }
  assert (∀ e, e ∈ rest → after < EventEnvelope_sequence e ≤ sequence o ∧
                          Event_wf (EventEnvelope_event e)) as Hin.
  { intros e [? He]%list_elem_of_filter. rewrite Forall_forall in Hall.
    destruct (Hall e He). split; [lia|done]. }
  set (cursor := match last _ with Some _ => _ | None => _ end).
  assert (take (Z.to_nat limit) rest = filter (λ e, EventEnvelope_sequence e ≤ cursor) rest ∧
          after ≤ cursor ≤ sequence o) as [Htake Hcur].
  { unfold cursor. destruct (last (take (Z.to_nat limit) rest)) as [e|] eqn:Hl.
    - split; [by apply take_sorted|].
      apply last_Some_elem_of, elem_of_take in Hl as (i & Hi & _).
      apply list_elem_of_lookup_2, Hin in Hi. lia.
    - assert (rest = []) as Hnil by (eapply take_last_None; [done|lia]).
      rewrite Hnil, take_nil. split; [done|lia]. }
  split; [|lia]. rewrite Htake, Hrest, list_filter_filter. apply filter_ext_elem. intros e _.
  naive_solver lia.
Qed.

(** ** Every operation, on a server that other programs change at any moment *)

Definition observer_inv (o : Observer) : Prop :=
  can_emit o ∧ opt (model_inv (next_client o)) (model o).

Lemma observer_new_inv root atoms scope titles capture :
  observer_inv (Observer_new root atoms scope titles capture).
Proof.
  split; [|done]. split; [|cbn; int_bounds; lia].
  split_and!; cbn; try done; try (int_bounds; lia); try constructor.
Qed.

Section operations.
Context {W : Type} `{XServerLaws W}.

Notation St := (Observer * W)%type.

(** What the redirection of windows leaves alone. *)
Definition core (s : St) : Log * Z * option Model :=
  (log_of (fst s), next_client (fst s), model (fst s)).

Instance x11_preserves {E A} (m : M W E A) : Preserves core (x11 m).
Proof. intros s. unfold x11, zoom, core. by destruct (m (snd s)). Qed.
Instance or_unavailable_preserves {A} request reply (m : M W XError A) :
  Preserves core (or_unavailable request reply m).
Proof. unfold or_unavailable. apply _. Qed.
Instance get_preserves {E A} (f : Observer → A) : Preserves core (get (W:=W) (E:=E) f).
Proof. done. Qed.
Instance set_capture_preserves (f : Observer → bool) (g : Observer → list Z) :
  Preserves core (self (W:=W) (assign (λ o, set_capture o (f o) (g o)))).
Proof. intros [o w]. done. Qed.

Instance reconcile_preserves clients : Preserves core (reconcile_capture_targets clients).
Proof.
  unfold reconcile_capture_targets, require_composite_capture, unredirect_departed,
    redirect_added. solve_preserves.
Qed.

Lemma core_eq s s' :
  core s' = core s → log_of (fst s') = log_of (fst s) ∧ next_client (fst s') = next_client (fst s)
                     ∧ model (fst s') = model (fst s).
Proof.
  intros Hc. split_and!; [exact (f_equal (fst ∘ fst) Hc)|exact (f_equal (snd ∘ fst) Hc)
                         |exact (f_equal snd Hc)].
Qed.

Lemma core_emits s s' : core s' = core s → can_emit (fst s) → emits [] (fst s) (fst s').
Proof.
  intros (Hl & Hn & _)%core_eq Ho. destruct (can_emit_nil _ Ho) as (? & ? & ? & ?).
  split_and!; [done..|lia|lia].
Qed.

Definition refreshed (s s' : St) : Prop :=
  ∃ evs m, emits evs (fst s) (fst s') ∧ model (fst s') = Some m ∧
    model_inv (next_client (fst s')) m ∧
    ∀ p, model (fst s) = Some p →
      apply_events (view_of p) evs = view_of m ∧
      ∃ raw w, scan (root (fst s)) (atoms (fst s)) (scope (fst s)) (show_titles (fst s)) (snd s) = (Ok raw, w) ∧
        RawDesktop_wf raw ∧ reads_as (next_client (fst s)) p raw m.

Definition interrupted (s s' : St) : Prop :=
  emitted (fst s) (fst s') ∧ observer_inv (fst s').

Lemma refresh_post s :
  observer_inv (fst s) → wp refresh (λ _, refreshed s) (λ _, interrupted s) s.
Proof.
  intros [Ho Hm]. unfold refresh. wp_step. unfold get. wp_step. wp_step. unfold x11 at 1. wp_step.
  pose proof (scan_post (root (fst s)) (atoms (fst s)) (scope (fst s)) (show_titles (fst s)) (snd s)) as Hscan.
  unfold wp in Hscan |- * at 1. destruct (scan _ _ _ _ _) as [[raw|e] w] eqn:Hread.
  2: { split; [exists []; by apply can_emit_nil|]. split; [done|exact Hm]. }
  rename Hscan into Hraw. wp_step.
  eapply wp_mono with (Q := λ _ s', core s' = core s) (R := λ _ s', core s' = core s).
  { destruct (capture_enabled _); [|by apply wp_ret].
    apply (preserves_wp core _ (fst s, w)). apply _. }
  2: { intros _ s1 Hs1. pose proof (core_eq _ _ Hs1) as (Hl & Hn & Hmo). split.
       - exists []. by apply core_emits.
       - split; [by eapply emits_can, Ho; apply core_emits|]. by rewrite Hmo, Hn. }
  intros _ s1 Hs1. pose proof (core_eq _ _ Hs1) as (Hl & Hn & Hmo).
  assert (emits [] (fst s) (fst s1)) as He1 by by apply core_emits.
  assert (can_emit (fst s1)) as Ho1 by by eapply emits_can.
  wp_step. wp_step. wp_step. unfold self at 1. wp_step. unfold assign. wp_step.
  wp_step. unfold self at 1. wp_step. rewrite Hmo. cbn [fst snd].
  set (o1 := set_model (fst s1) None).
  assert (emits [] (fst s) o1) as He1' by exact He1.
  assert (can_emit o1) as Ho1' by exact Ho1.
  assert (next_client o1 = next_client (fst s)) as Hno1 by exact Hn.
  assert (∀ (o2 : Observer) m, (∃ evs, emits evs o1 o2 ∧ model_inv (next_client o2) m ∧
            ∀ p, model (fst s) = Some p → apply_events (view_of p) evs = view_of m ∧
              reads_as (next_client (fst s)) p raw m) →
          wp (self (W:=W) (modify (λ o, set_model o (Some m)))) (λ _, refreshed s)
            (λ _, interrupted s) (o2, snd s1)) as Hdone.
  { intros o2 m (evs & He2 & Hinv & Hp). unfold self. wp_step. wp_step.
    exists evs, m. split_and!; [by eapply (emits_app [])|done|done|].
    intros p Hsp. destruct (Hp p Hsp). split; [done|]. by exists raw, w. }
  assert (∀ o2 : Observer, emitted o1 o2 ∧ model o2 = model o1 → interrupted s (o2, snd s1))
    as Hfail.
  { intros o2 [[evs He2] Hm2]. split; [exists evs; by eapply (emits_app [])|].
    split; [by eapply emits_can|]. cbn. by rewrite Hm2. }
  destruct (model (fst s)) as [p|] eqn:Hp.
  - eapply wp_mono; [eapply (wp_preserves model); [apply _|apply diff_model_post; [done| |done]]| |].
    + rewrite Hno1. by apply Hm.
    + intros m o2 ((evs & He2 & Hinv & Hf & Hv) & _). apply Hdone.
      exists evs. split_and!; [done..|]. intros ? [= <-]. rewrite <- Hno1. done.
    + intros e o2 He2. by apply Hfail.
  - eapply wp_mono; [eapply (wp_preserves model); [apply _|by apply initial_model_post]| |].
    + intros m o2 ((He2 & Hinv) & _). apply Hdone. by exists [].
    + intros e o2 He2. by apply Hfail.
Qed.

Lemma refreshed_inv s s' : observer_inv (fst s) → refreshed s s' → observer_inv (fst s').
Proof.
  intros [Ho _] (evs & m & He & Hm & Hinv & _). split; [by eapply emits_can|].
  rewrite Hm. by intros ? [= <-].
Qed.

(** Emptying the buffer, as [subscribe] and a resynchronizing [snapshot] do. *)
Lemma clear_log_inv o kinds b :
  observer_inv o → observer_inv (set_log (set_subscription o kinds) [] (sequence o) b) ∧
                   observer_inv (set_log o [] (sequence o) b).
Proof.
  intros [[(Hr & Hs & _) ?] ?]. split; (split; [|done]); (split; [|done]);
    split_and!; cbn in *; try done; try lia; constructor.
Qed.

Lemma current_snapshot_wf o m d :
  model o = Some m → model_inv (next_client o) m → current_snapshot o = Ok d →
  DesktopSnapshot_wf d ∧
  as_slice (DesktopSnapshot_clients d) = ClientRecord_descriptor <$> Model_clients m ∧
  DesktopSnapshot_sequence d = sequence o ∧ DesktopSnapshot_active d = Model_active m ∧
  DesktopSnapshot_current_workspace d = Model_current_workspace m.
Proof.
  intros Hm (Hids & _ & _ & Hwf & Hlen & Hact & Hws & Hwids & Hcur & Hwlen) Hd.
  unfold current_snapshot in Hd. rewrite Hm in Hd. cbn in Hd.
  destruct (BoundedList_new (Model_workspaces m)) as [ws|] eqn:Hw; [|done]. cbn in Hd.
  destruct (BoundedList_new (ClientRecord_descriptor <$> Model_clients m)) as [cs|] eqn:Hc;
    [|done]. cbn in Hd. simplify_eq. apply BoundedList_new_Ok in Hw, Hc.
  assert (ClientDescriptor_id <$> (ClientRecord_descriptor <$> Model_clients m)
          = record_id <$> Model_clients m) as Hid by (by rewrite <- list_fmap_compose).
  split; [|done]. unfold DesktopSnapshot_wf. cbn. rewrite Hw, Hc, Hid. split_and!; try done.
  apply Forall_fmap. eapply Forall_impl; [exact Hwf|]. by intros c [? _].
Qed.

(** The bound of the public lists is never what makes a snapshot fail. *)
Lemma current_snapshot_Ok o m :
  model o = Some m → model_inv (next_client o) m → ∃ d, current_snapshot o = Ok d.
Proof.
  intros Hm (_ & _ & _ & _ & Hlen & _ & _ & _ & _ & Hwlen).
  unfold current_snapshot. rewrite Hm. cbn.
  destruct (BoundedList_new_fits MAX_WORKSPACES (Model_workspaces m) Hwlen) as [ws ->]. cbn.
  destruct (BoundedList_new_fits MAX_CLIENTS (ClientRecord_descriptor <$> Model_clients m))
    as [cs ->]; [unfold len in *; by rewrite length_fmap|]. cbn. eauto.
Qed.

Definition inv_after : St → Prop := λ s, observer_inv (fst s).

Lemma snapshot_post s :
  observer_inv (fst s) →
  wp snapshot
    (λ d s', DesktopSnapshot_wf d ∧ inv_after s' ∧
       ∃ m, model (fst s') = Some m ∧
         as_slice (DesktopSnapshot_clients d) = ClientRecord_descriptor <$> Model_clients m ∧
         DesktopSnapshot_sequence d = sequence (fst s') ∧
         DesktopSnapshot_active d = Model_active m ∧
         DesktopSnapshot_current_workspace d = Model_current_workspace m)
    (λ _ s', inv_after s') s.
Proof.
  intros Hs. unfold snapshot. wp_step.
  eapply wp_mono; [by apply refresh_post| |by intros ? ? [_ ?]].
  intros [] s1 Hr. pose proof (refreshed_inv _ _ Hs Hr) as Hinv.
  destruct Hr as (evs & m & _ & Hm & Hmi & _).
  wp_step. unfold self, assign. do 2 wp_step. wp_step. unfold get. wp_step. cbn [fst snd].
  set (o2 := if resync_required _ then _ else _).
  assert (observer_inv o2) as Ho2.
  { unfold o2. case_match; [|done]. by apply (clear_log_inv _ []). }
  assert (model o2 = Some m) as Hm2 by (unfold o2; by case_match).
  assert (next_client o2 = next_client (fst s1)) as Hn2 by (unfold o2; by case_match).
  apply wp_lift; [|done]. intros d Hd.
  rewrite <- Hn2 in Hmi. destruct (current_snapshot_wf _ _ _ Hm2 Hmi Hd) as (? & ? & ? & ? & ?).
  split_and!; [done..|]. by exists m.
Qed.

Lemma subscribe_post kinds s :
  observer_inv (fst s) →
  wp (subscribe kinds)
    (λ r s', inv_after s' ∧ retains (log_of (fst s')) [] ∧ subscribed (fst s') = true ∧
             subscribed_kinds (fst s') = kinds ∧ resync_required (fst s') = false ∧
             Subscription_cursor r = sequence (fst s') ∧
             retained_after (fst s') = sequence (fst s'))
    (λ _ s', inv_after s') s.
Proof.
  intros Hs. unfold subscribe. wp_step.
  eapply wp_mono; [by apply refresh_post| |by intros ? ? [_ ?]].
  intros [] s1 Hr. pose proof (refreshed_inv _ _ Hs Hr) as Hinv.
  wp_step. unfold self, assign. do 2 wp_step. wp_step. unfold get. wp_step. wp_step.
  split_and!; try done. by apply clear_log_inv.
Qed.

Lemma x11_post {E A} (m : M W E A) s :
  wp (x11 m) (λ _ s', fst s' = fst s) (λ _ s', fst s' = fst s) s.
Proof. unfold wp, x11, zoom. by destruct (m (snd s)) as [[] ?]. Qed.

Lemma instant_now_post s : wp (x11 instant_now) (λ _ s', fst s' = fst s) (λ _ _, False) s.
Proof. unfold wp, x11, zoom, instant_now. by destruct (now (snd s)). Qed.
Lemma sleep_towards_post deadline s :
  wp (x11 (sleep_towards deadline)) (λ _ s', fst s' = fst s) (λ _ _, False) s.
Proof.
  unfold wp, x11, zoom, sleep_towards, bind, instant_now, thread_sleep, modify. by destruct (now (snd s)).
Qed.

(** Why a poll in progress fails: a resynchronization is due, or a reading failed. *)
Definition poll_failed (e : Failure) (s' : St) : Prop :=
  (e = Failure_resync (sequence (fst s')) ∧ resync_required (fst s') = true) ∨
  ∃ s1 s2 : St, refresh s1 = (Err e, s2).

Lemma poll_loop_post fuel after deadline s :
  observer_inv (fst s) →
  wp (poll_loop fuel after deadline)
    (λ r s', (∃ evs, emits evs (fst s) (fst s')) ∧ inv_after s' ∧
             (r = Some tt → resync_required (fst s') = false))
    (λ e s', (∃ evs, emits evs (fst s) (fst s')) ∧ inv_after s' ∧ poll_failed e s') s.
Proof.
  revert s. induction fuel as [|fuel IH]; intros s Hs; cbn [poll_loop].
  { wp_step. split_and!; [exists []; by apply can_emit_nil, Hs|done|done]. }
  wp_step. pose proof (refresh_post s Hs) as Hread. unfold wp in Hread |- * at 1.
  destruct (refresh s) as [[[]|e] s1] eqn:Hrun.
  2: { destruct Hread as [? ?]. split_and!; [done..|]. right. by exists s, s1. }
  rename Hread into Hr. pose proof (refreshed_inv _ _ Hs Hr) as Hinv.
  destruct Hr as (evs & m & He & _).
  wp_step. unfold get. wp_step. wp_step; [wp_step; split_and!; [by eauto|done|by left]|].
  wp_step; [wp_step; by eauto|].
  wp_step. eapply wp_mono; [apply instant_now_post| |done].
  intros t s2 Heq2. wp_step; [wp_step; unfold inv_after; rewrite Heq2; by eauto|].
  wp_step. eapply wp_mono; [apply sleep_towards_post| |done].
  intros [] s3 Heq3.
  assert (∀ s4 : St, (∃ evs, emits evs (fst s3) (fst s4)) → ∃ evs, emits evs (fst s) (fst s4)) as Hemits.
  { intros s4 [evs' He']. exists (evs ++ evs'). eapply emits_app; [exact He|]. by rewrite <- Heq2, <- Heq3. }
  eapply wp_mono; [apply IH; by rewrite Heq3, Heq2| |]; intros ? s4 (? & ? & ?); split_and!; auto.
Qed.

(** A poll extends every history of the session by the same new events.  Its batch is the
    wanted part of it after the client's cursor, of which the buffer holds everything.  It
    fails when there is no subscription, when the cursor is not within the history that is
    kept, when a resynchronization is due, or falls due because more wanted events came than
    are kept, and when a reading fails. *)
Definition poll_spec (after limit : Z) (s : St) (r : result (option EventBatch) Failure) (s' : St) : Prop :=
  ∃ new, sequence (fst s') = sequence (fst s) + len new ∧ ∀ history, retains (log_of (fst s)) history →
    let history' := history ++ number (sequence (fst s)) new in
    let waiting := delivered (subscribed_kinds (fst s)) after (sequence (fst s')) history' in
    retains (log_of (fst s')) history' ∧
    match r with
    | Ok (Some batch) =>
        subscribed (fst s) = true ∧ resync_required (fst s) = false ∧
        retained_after (fst s) ≤ after ≤ sequence (fst s) ∧ len waiting ≤ MAX_EVENTS ∧
        (0 < limit →
         as_slice (EventBatch_events batch)
         = delivered (subscribed_kinds (fst s)) after (EventBatch_cursor batch) history' ∧
         after ≤ EventBatch_cursor batch ≤ sequence (fst s'))
    | Ok None => True
    | Err e =>
        (subscribed (fst s) = false ∧ Failure_code e = ErrorCode_InvalidArgument ∧ s' = s) ∨
        (subscribed (fst s) = true ∧ (after < retained_after (fst s) ∨ sequence (fst s) < after) ∧
         e = Failure_resync (sequence (fst s)) ∧ s' = s) ∨
        (subscribed (fst s) = true ∧ (resync_required (fst s) = true ∨ MAX_EVENTS < len waiting) ∧
         e = Failure_resync (sequence (fst s'))) ∨
        ∃ s1 s2 : St, refresh s1 = (Err e, s2)
    end.

Lemma filter_fewer {A} (P Q : A → Prop) `{∀ x, Decision (P x), ∀ x, Decision (Q x)} l :
  (∀ x, P x → Q x) → len (filter P l) ≤ len (filter Q l).
Proof.
  intros HPQ. induction l as [|x l IH]; [done|]. rewrite !filter_cons.
  destruct (decide (P x)), (decide (Q x)); rewrite ?len_cons; [lia|by specialize (HPQ x ltac:(done))|lia|done].
Qed.

Lemma number_above n evs e : e ∈ number n evs → n < EventEnvelope_sequence e.
Proof.
  revert n. induction evs as [|event evs IH]; intros n; cbn [number]; [by intros ?%not_elem_of_nil|].
  intros [->|He%IH]%elem_of_cons; cbn; lia.
Qed.

Lemma log_push_all_due l evs : log_resync l = true → log_resync (log_push_all l evs) = true.
Proof.
  revert l. induction evs as [|event evs IH]; intros l Hl; [done|]. cbn. apply IH. unfold log_push.
  by rewrite Hl, orb_true_r.
Qed.

(** What waits for the client after it acknowledged the events up to [after]. *)
Lemma waiting_exact l after history n :
  Forall (λ e, EventEnvelope_sequence e ≤ n) history → 
  delivered (log_kinds l) after n history
  = filter (λ e, wanted (log_kinds l) (EventEnvelope_event e) = true ∧ after < EventEnvelope_sequence e) history.
Proof.
  intros Hall. apply filter_ext_elem. intros e He. rewrite Forall_forall in Hall. specialize (Hall e He). naive_solver lia.
Qed.

(** Nothing happened. *)
Lemma poll_spec_same after limit e s :
  (subscribed (fst s) = false ∧ Failure_code e = ErrorCode_InvalidArgument) ∨
  (subscribed (fst s) = true ∧ (after < retained_after (fst s) ∨ sequence (fst s) < after) ∧
   e = Failure_resync (sequence (fst s))) →
  poll_spec after limit s (Err e) s.
Proof.
  intros Hwhy. exists []. change (len []) with 0. split; [lia|]. intros history Hret. cbv zeta. cbn [number].
  rewrite app_nil_r. split; [done|]. destruct Hwhy as [[? ?]|(? & ? & ?)]; [by left|right; by left].
Qed.

Lemma event_page_fits o after limit : log_inv (log_of o) → ∃ batch, event_page o after limit = Ok batch.
Proof.
  intros (_ & _ & _ & _ & Hlen & _). unfold event_page. set (page := take _ _).
  assert (len page ≤ MAX_EVENTS) as Hpage.
  { etrans; [|exact Hlen]. unfold len, page. rewrite length_take.
    pose proof (length_filter (λ e, after < EventEnvelope_sequence e) (events o)). cbn. lia. }
  destruct (BoundedList_new_fits MAX_EVENTS page Hpage) as [b Hb]. rewrite Hb. cbn. by eexists.
Qed.

(** What is known when the loop of a poll has ended, in [s1] the log with the events up to
    [after] discarded. *)
Lemma poll_waiting after (s : St) (o1 : Observer) new history (s' : St) :
  log_inv (log_of (fst s)) → log_of o1 = log_discard after (log_of (fst s)) →
  subscribed (fst s) = true → retained_after (fst s) ≤ after ≤ sequence (fst s) →
  log_inv (log_of o1) → emits new o1 (fst s') → retains (log_of (fst s)) history →
  let history' := history ++ number (sequence (fst s)) new in
  let waiting := delivered (subscribed_kinds (fst s)) after (sequence (fst s')) history' in
  retains (log_of (fst s')) history' ∧
  (resync_required (fst s) = true → resync_required (fst s') = true) ∧
  (resync_required (fst s') = true → resync_required (fst s) = true ∨ MAX_EVENTS < len waiting) ∧
  (resync_required (fst s') = false → len waiting ≤ MAX_EVENTS).
Proof.
  intros Hlog Hl1 Hsub Hafter Hlog1 He Hret. cbv zeta. pose proof He as (Hl3 & Hn3 & Hw3 & _).
  assert (retains (log_of o1) history) as Hret1 by (rewrite Hl1; apply log_discard_retains; [done|cbn; lia|done]).
  pose proof (log_push_all_retains (log_of o1) new history Hlog1 Hw3 Hn3 Hret1) as Hret3. rewrite <- Hl3 in Hret3.
  assert (log_sequence (log_of o1) = sequence (fst s)) as Hseq1 by by rewrite Hl1. rewrite Hseq1 in Hret3.
  set (history' := history ++ number (sequence (fst s)) new) in *.
  destruct (log_push_all_settings (log_of o1) new) as (Hs3 & Hk3 & Hr3). rewrite <- Hl3 in Hs3, Hk3, Hr3.
  assert (log_kinds (log_of o1) = subscribed_kinds (fst s)) as Hk1 by by rewrite Hl1.
  destruct Hlog as (Hrange & Hu & Hsort & Hall & Hlen & Hres). cbn in Hrange.
  destruct (discard_spec after (log_events (log_of (fst s))) (log_retained (log_of (fst s)))) as (Hf & Hb & _); [done| |cbn; lia|].
  { eapply Forall_impl; [exact Hall|]. cbn. intros e [? _]. lia. }
  assert (log_retained (log_of o1) ≤ after) as Hr1 by (rewrite Hl1; cbn -[discard] in *; lia).
  assert (log_events (log_of o1) = filter (λ e, after < EventEnvelope_sequence e) (log_events (log_of (fst s)))) as Hev1
    by (rewrite Hl1; exact Hf).
  assert (log_subscribed (log_of o1) = true) as Hs1 by by rewrite Hl1.
  assert (log_resync (log_of o1) = resync_required (fst s)) as Hres1 by by rewrite Hl1.
  pose proof (waiting_exact (log_of o1) after history' (sequence (fst s')) (proj1 Hret3)) as Hw. rewrite Hk1 in Hw. rewrite Hw.
  split; [done|]. split; [|split].
  - intros Hdue. change (log_resync (log_of (fst s')) = true). rewrite Hl3. apply log_push_all_due. by rewrite Hres1.
  - intros Hdue. destruct (resync_required (fst s)) eqn:Hno; [by left|]. right.
    change (log_resync (log_of (fst s')) = true) in Hdue. rewrite Hl3 in Hdue.
    pose proof (log_push_all_overrun (log_of o1) new history Hlog1 Hw3 Hn3 Hret1 ltac:(congruence) Hdue) as Hover.
    rewrite Hseq1, Hk1 in Hover. fold history' in Hover. rewrite (filter_ext_elem _ (λ e, wanted (subscribed_kinds (fst s))
      (EventEnvelope_event e) = true ∧ after < EventEnvelope_sequence e)) in Hover; [done|].
    intros e He'. split; [|intros [? ?]; split; [done|lia]]. intros [Hwanted Habove]. split; [done|].
    apply elem_of_app in He' as [He'|He'%number_above]; [|lia]. destruct Hret1 as [_ Hbuf].
    specialize (Hbuf Hs1 ltac:(congruence)). rewrite Hev1 in Hbuf.
    assert (e ∈ filter (λ e, after < EventEnvelope_sequence e) (log_events (log_of (fst s)))) as Hin
      by (rewrite Hbuf; apply list_elem_of_filter; rewrite Hk1; done).
    by apply list_elem_of_filter in Hin as [? _].
  - intros Hdue. destruct Hret3 as [_ Hbuf]. specialize (Hbuf ltac:(by rewrite Hs3) Hdue).
    pose proof (emits_inv _ _ _ He Hlog1) as (_ & _ & _ & _ & Hlen3 & _).
    transitivity (len (log_events (log_of (fst s')))); [|done]. rewrite Hbuf, Hk3, Hk1, Hr3.
    apply filter_fewer. intros e [? ?]. split; [done|lia].
Qed.

Lemma poll_post fuel after limit wait_ms s :
  observer_inv (fst s) →
  wp (poll fuel after limit wait_ms)
    (λ r s', inv_after s' ∧ poll_spec after limit s (Ok r) s' ∧ opt EventBatch_wf r)
    (λ e s', inv_after s' ∧ poll_spec after limit s (Err e) s') s.
Proof.
  intros Hs. unfold poll. wp_step. unfold get at 1. wp_step. cbv [id].
  wp_step; [wp_step; split; [done|]; apply poll_spec_same; left; bool_props; by split|].
  wp_step; [wp_step; split; [done|]; apply poll_spec_same; right; bool_props; split_and!; [done| |done]|].
  { destruct (Z.ltb_spec after (retained_after (fst s))); [by left|]. right. bool_props. lia. }
  bool_props. wp_step.
  unfold self, assign. wp_step. wp_step.
  destruct (discard after (events (fst s)) (retained_after (fst s))) as [evs0 ret0] eqn:Hd.
  set (o1 := set_log (fst s) evs0 ret0 (resync_required (fst s))).
  assert (log_of o1 = log_discard after (log_of (fst s))) as Hl1
    by (unfold log_discard; cbn -[discard]; by rewrite Hd).
  destruct Hs as [[Hlog Hnext] Hmodel].
  assert (observer_inv o1) as Ho1.
  { split; [|done]. split; [|done]. rewrite Hl1. apply log_discard_inv; [done|cbn; lia]. }
  wp_step. eapply wp_mono; [apply instant_now_post| |done].
  intros t s2 Heq2. cbn [fst] in Heq2. wp_step.
  assert (∀ new (s3 : St), emits new o1 (fst s3) → sequence (fst s3) = sequence (fst s) + len new) as Hseq.
  { intros new s3 (Hl3 & _). change (sequence (fst s3)) with (log_sequence (log_of (fst s3))).
    by rewrite Hl3, log_push_all_sequence, Hl1. }
  assert (retained_after (fst s) ≤ after ≤ sequence (fst s)) as Hafter by lia.
  assert (subscribed (fst s) = true) as Hsub by done.
  pose proof (λ new history s3, poll_waiting after s o1 new history s3 Hlog Hl1 Hsub Hafter (proj1 (proj1 Ho1))) as Hwaiting.
  cbv zeta in Hwaiting.
  eapply wp_mono; [apply poll_loop_post; by rewrite Heq2| |].
  2: { intros e s3 ([new He] & Hinv3 & Hwhy). rewrite Heq2 in He. split; [done|]. exists new. split; [by apply Hseq|].
       intros history Hret. destruct (Hwaiting new history s3 He Hret) as (Hret3 & _ & Hover & _). split; [done|].
       do 2 right. destruct Hwhy as [[-> Hdue]|?]; [|by right]. left. split_and!; [done|by apply Hover|done]. }
  intros r s3 ([new He] & Hinv3 & Hres). rewrite Heq2 in He.
  destruct r as [[]|].
  2: { wp_step. split_and!; [done| |done]. exists new. split; [by apply Hseq|]. intros history Hret.
       by destruct (Hwaiting new history s3 He Hret) as (? & _). }
  specialize (Hres eq_refl). wp_step. unfold get. wp_step. wp_step.
  destruct (event_page_fits (fst s3) after limit) as [batch Hb]; [apply Hinv3|]. rewrite Hb. apply wp_lift; [intros ? [= <-]|done].
  wp_step. split_and!; [done| |].
  2: { intros ? [= <-]. eapply event_page_wf; [apply Hinv3|exact Hb]. }
  exists new. split; [by apply Hseq|]. intros history Hret.
  destruct (Hwaiting new history s3 He Hret) as (Hret3 & Hkept & _ & Hfits). split; [done|].
  assert (resync_required (fst s) = false) as Hno.
  { destruct (resync_required (fst s)); [|done]. by rewrite Hkept in Hres. }
  split_and!; [done|done|lia|lia|by apply Hfits|]. intros Hlimit.
  pose proof He as (Hl3 & Hn3 & Hw3 & _).
  destruct (log_push_all_settings (log_of o1) new) as (Hsub3 & Hk3 & Hr3). rewrite <- Hl3 in Hsub3, Hk3, Hr3.
  assert (retained_after (fst s3) ≤ after) as Hra.
  { change (log_retained (log_of (fst s3)) ≤ after). rewrite Hr3, Hl1. cbn -[discard].
    destruct Hlog as (? & ? & Hsort & Hall & _).
    eapply discard_spec; [done| |cbn; lia]. eapply Forall_impl; [exact Hall|]. cbn.
    intros e [? _]. lia. }
  change (subscribed_kinds (fst s)) with (log_kinds (log_of o1)). rewrite <- Hk3.
  pose proof (len_nonneg new). pose proof (Hseq new s3 He).
  eapply event_page_exact; [apply Hinv3|done| |done| |done|exact Hb].
  - change (log_subscribed (log_of (fst s3)) = true). by rewrite Hsub3.
  - lia.
Qed.

Lemma launch_baseline_post s :
  observer_inv (fst s) → wp launch_baseline (λ _ s', inv_after s') (λ _ s', inv_after s') s.
Proof.
  intros Hs. unfold launch_baseline. wp_step.
  eapply wp_mono; [by apply refresh_post| |by intros ? ? [_ ?]].
  intros [] s1 Hr. wp_step. unfold get. wp_step. wp_step. by eapply refreshed_inv.
Qed.

Instance find_launched_fst baseline startup_id clients :
  Preserves fst (find_launched (W:=W) baseline startup_id clients).
Proof.
  induction clients as [|c cs IH]; cbn [find_launched]; [done|]. case_match; [done|].
  apply bind_preserves; [done|]. intros o. apply bind_preserves.
  - intros s. unfold x11, zoom. by destruct (client_startup_id_matches _ _ _ _).
  - intros []; done.
Qed.

Lemma correlate_loop_post fuel baseline startup_id deadline s :
  observer_inv (fst s) →
  wp (correlate_loop fuel baseline startup_id deadline)
    (λ _ s', inv_after s') (λ _ s', inv_after s') s.
Proof.
  revert s. induction fuel as [|fuel IH]; intros s Hs; cbn [correlate_loop]; [by wp_step|].
  wp_step. eapply wp_mono; [by apply refresh_post| |by intros ? ? [_ ?]].
  intros [] s1 Hr. assert (observer_inv (fst s1)) as Hs1 by by eapply refreshed_inv.
  wp_step. unfold get. wp_step. wp_step.
  eapply wp_mono with (Q := λ _ s', fst s' = fst s1) (R := λ _ s', fst s' = fst s1).
  { destruct (model (fst s1)); [|done]. apply (preserves_wp fst _ s1). apply _. }
  2: { intros e s2 Heq. unfold inv_after. by rewrite Heq. }
  intros found s2 Heq2. wp_step; [wp_step; unfold inv_after; by rewrite Heq2|].
  wp_step. eapply wp_mono; [apply x11_post| |intros ? ? Heq; unfold inv_after; by rewrite Heq, Heq2].
  intros t s3 Heq3. wp_step; [wp_step; unfold inv_after; by rewrite Heq3, Heq2|].
  wp_step. eapply wp_mono; [apply x11_post| |intros ? ? Heq; unfold inv_after; by rewrite Heq, Heq3, Heq2].
  intros [] s4 Heq4. apply IH. by rewrite Heq4, Heq3, Heq2.
Qed.

Lemma correlate_launch_post fuel baseline startup_id wait s :
  observer_inv (fst s) →
  wp (correlate_launch fuel baseline startup_id wait)
    (λ _ s', inv_after s') (λ _ s', inv_after s') s.
Proof.
  intros Hs. unfold correlate_launch. wp_step.
  eapply wp_mono; [apply x11_post| |intros ? ? Heq; unfold inv_after; by rewrite Heq].
  intros t s1 Heq. apply correlate_loop_post. by rewrite Heq.
Qed.
End operations.
