(* ===== verification/ObserverTheorems.v ===== *)
(** * Properties of the observer

    Convergence of the event diffs, validity of the replies of every reachable observer,
    lossless polling, and termination of the bounded waits; then their instances on a
    concrete desktop. *)

From stdpp Require Import gmap relations.
From S2P Require Import Prelude Text Bounded Protocol Message MessageSpec Effects Config X11 Scan.
From S2P Require Import Observer ObserverSpec.

Section termination.
Context {W : Type} `{XServerLaws W}.

Notation St := (Observer * W)%type.
Notation time := (λ s : Observer * W, clock (snd s)).

#[export] Instance x11_time {E A} (m : M W E A) :
  Advances clock m → Advances time (x11 m).
Proof. intros Hm. by apply (zoom_advances _ _ clock). Qed.
#[export] Instance self_time {A} (m : M Observer Failure A) : Advances time (self m).
Proof. intros [o w]. unfold self, zoom. cbn. by destruct (m o). Qed.
#[export] Instance get_time {E A} (f : Observer → A) : Advances time (get (W:=W) (E:=E) f).
Proof. intros s. done. Qed.
#[export] Instance or_unavailable_time {A} request reply (m : M W XError A) :
  Advances clock m → Advances time (or_unavailable request reply m).
Proof. intros. unfold or_unavailable. apply _. Qed.

#[export] Instance reconcile_time clients : Advances time (reconcile_capture_targets clients).
Proof.
  unfold reconcile_capture_targets, require_composite_capture, unredirect_departed,
    redirect_added. solve_advances.
Qed.
#[export] Instance refresh_time : Advances time refresh.
Proof. unfold refresh. solve_advances. Qed.
#[export] Instance find_launched_time baseline id clients :
  Advances time (find_launched baseline id clients).
Proof. induction clients as [|c cs IH]; cbn [find_launched]; solve_advances. Qed.

(** One wait moves the clock by a whole interval, or to the deadline. *)
Lemma sleep_towards_clock deadline w :
  ∃ w', sleep_towards deadline w = (Ok tt, w') ∧
    (deadline ≤ clock w' ∨ clock w + SAMPLE_INTERVAL ≤ clock w').
Proof.
  unfold sleep_towards, bind, instant_now, thread_sleep, modify.
  pose proof (now_clock w) as Hnow. destruct (now w) as [t w1]. cbn in *.
  eexists. split; [reflexivity|].
  pose proof (sleep_clock (Z.min SAMPLE_INTERVAL (Z.max 0 (deadline - t))) w1). lia.
Qed.

(** The number of samples a wait of [wait] nanoseconds can take. *)
Definition samples (wait : Z) : nat := S (Z.to_nat ((wait + SAMPLE_INTERVAL - 1) / SAMPLE_INTERVAL)).

(** Sampling [body] every interval until the deadline takes a bounded number of rounds. *)
Lemma sampling_terminates {A B} (body : M St Failure (option A)) (deadline : Z)
    (finish : A → M St Failure (option B)) (timeout : M St Failure (option B))
    (pause : M W Failure unit) (loop : nat → M St Failure (option B)) :
  (∀ w, ∃ w', pause w = (Ok tt, w') ∧
     (deadline ≤ clock w' ∨ clock w + SAMPLE_INTERVAL ≤ clock w')) →
  (∀ fuel s, loop (S fuel) s =
     (let! found := body in
      match found with
      | Some a => finish a
      | None =>
          let! t := x11 instant_now in
          if deadline <=? t then timeout
          else x11 pause ;! loop fuel
      end) s) →
  Advances time body →
  (∀ a s, (finish a s).1 ≠ Ok None) → (∀ s, (timeout s).1 ≠ Ok None) →
  ∀ k s, deadline - clock (snd s) ≤ Z.of_nat k * SAMPLE_INTERVAL → (loop (S k) s).1 ≠ Ok None.
Proof.
  intros Hpause Hloop Hbody Hfin Hto k. induction k as [|k IH]; intros s Hs.
  - rewrite Hloop. unfold bind at 1. pose proof (Hbody s) as Hb.
    destruct (body s) as [[[a|]|e] s1]; [apply Hfin| |done]. unfold bind, x11, zoom, instant_now.
    cbn [snd] in *. pose proof (now_clock (snd s1)) as Hn. destruct (now (snd s1)) as [t w1].
    cbn [fst snd] in *. rewrite (proj2 (Z.leb_le _ _)) by lia. apply Hto.
  - rewrite Hloop. unfold bind at 1. pose proof (Hbody s) as Hb.
    destruct (body s) as [[[a|]|e] s1]; [apply Hfin| |done].
    unfold bind at 1, x11 at 1, zoom at 1, instant_now.
    cbn [snd] in *. pose proof (now_clock (snd s1)) as Hn. destruct (now (snd s1)) as [t w1].
    cbn [fst snd] in *. destruct (deadline <=? t); [apply Hto|].
    unfold bind, x11, zoom. cbn [fst snd].
    destruct (Hpause w1) as (w2 & -> & Hw). apply IH. cbn [snd].
    unfold SAMPLE_INTERVAL, NANOS_PER_MS in *. lia.
Qed.

Lemma samples_enough wait : wait ≤ Z.of_nat (pred (samples wait)) * SAMPLE_INTERVAL.
Proof.
  unfold samples, SAMPLE_INTERVAL, NANOS_PER_MS. cbn [pred].
  destruct (Z.leb_spec wait 0); [lia|]. rewrite Z2Nat.id by (apply Z.div_pos; lia).
  Z.div_mod_to_equations. lia.
Qed.

Lemma fuel_covers wait t w fuel :
  (samples wait ≤ fuel)%nat → t ≤ clock w →
  ∃ k, fuel = S k ∧ t + wait - clock w ≤ Z.of_nat k * SAMPLE_INTERVAL.
Proof.
  intros Hf Ht. exists (pred fuel). pose proof (samples_enough wait) as Hs.
  split; [unfold samples in *; lia|].
  assert (Z.of_nat (pred (samples wait)) ≤ Z.of_nat (pred fuel)) by lia.
  unfold SAMPLE_INTERVAL, NANOS_PER_MS in *. lia.
Qed.

Definition poll_body (after : Z) : M St Failure (option unit) :=
  refresh ;!
  let! o := get (W:=W) id in
  if resync_required o then fail (Failure_resync (sequence o))
  else if ready o after then ret (Some tt) else ret None.

Lemma poll_loop_unfold after deadline fuel s :
  poll_loop (S fuel) after deadline s =
    (let! found := poll_body after in
     match found with
     | Some a => ret (Some a)
     | None =>
         let! t := x11 instant_now in
         if deadline <=? t then ret (Some tt)
         else x11 (sleep_towards deadline) ;! poll_loop fuel after deadline
     end) s.
Proof.
  cbn [poll_loop]. unfold poll_body, bind, get, gets, ret, fail.
  destruct (refresh s) as [[[]|] s1]; [|done]. cbv [id].
  destruct (resync_required _); [done|]. by destruct (ready _ _).
Qed.

Definition correlate_body (baseline : list Z) (startup_id : bytes)
  : M St Failure (option ClientId) :=
  refresh ;!
  let! m := get (W:=W) model in
  match m with
  | Some m => find_launched baseline startup_id (Model_clients m)
  | None => ret None
  end.

Lemma correlate_loop_unfold baseline startup_id deadline fuel s :
  correlate_loop (S fuel) baseline startup_id deadline s =
    (let! found := correlate_body baseline startup_id in
     match found with
     | Some client => ret (Some (Some client))
     | None =>
         let! t := x11 instant_now in
         if deadline <=? t then ret (Some None)
         else x11 (sleep_towards deadline) ;!
              correlate_loop fuel baseline startup_id deadline
     end) s.
Proof.
  cbn [correlate_loop]. unfold correlate_body, bind.
  destruct (refresh s) as [[[]|] s1]; done.
Qed.

#[export] Instance poll_body_time after : Advances time (poll_body after).
Proof. unfold poll_body. solve_advances. Qed.
#[export] Instance correlate_body_time baseline id : Advances time (correlate_body baseline id).
Proof. unfold correlate_body. solve_advances. Qed.

Lemma poll_loop_terminates fuel after wait t s :
  (samples wait ≤ fuel)%nat → t ≤ clock (snd s) →
  (poll_loop fuel after (t + wait) s).1 ≠ Ok None.
Proof.
  intros Hf Ht. destruct (fuel_covers wait t (snd s) fuel Hf Ht) as (k & -> & Hk).
  eapply (sampling_terminates (poll_body after) _ (λ a, ret (Some a)) (ret (Some tt)) (sleep_towards (t + wait))
            (λ fuel, poll_loop fuel after (t + wait))); try done.
  - intros. apply sleep_towards_clock.
  - intros. apply poll_loop_unfold.
  - apply _.
Qed.

Lemma correlate_loop_terminates fuel baseline startup_id wait t s :
  (samples wait ≤ fuel)%nat → t ≤ clock (snd s) →
  (correlate_loop fuel baseline startup_id (t + wait) s).1 ≠ Ok None.
Proof.
  intros Hf Ht. destruct (fuel_covers wait t (snd s) fuel Hf Ht) as (k & -> & Hk).
  eapply (sampling_terminates (correlate_body baseline startup_id) _
            (λ c, ret (Some (Some c))) (ret (Some None)) (sleep_towards (t + wait))
            (λ fuel, correlate_loop fuel baseline startup_id (t + wait))); try done.
  - intros. apply sleep_towards_clock.
  - intros. apply correlate_loop_unfold.
  - apply _.
Qed.

(** C25: the waits of [poll] and [correlate_launch] end.  Whatever the server answers and
    other programs do, a poll that may wait [wait_ms] milliseconds, and a launch
    correlation that may wait [wait] nanoseconds, return (a result or a failure) after at
    most one sample per 25 ms of the wait and one more. *)
Theorem observer_waits_terminate fuel after limit wait_ms baseline startup_id wait s :
  (samples (wait_ms * NANOS_PER_MS) ≤ fuel)%nat → (samples wait ≤ fuel)%nat →
  (poll fuel after limit wait_ms s).1 ≠ Ok None ∧
  (correlate_launch fuel baseline startup_id wait s).1 ≠ Ok None.
Proof.
  intros Hf1 Hf2. split.
  - unfold poll, bind at 1, get at 1, gets at 1. destruct (negb _); [done|].
    destruct (_ || _); [done|]. unfold bind at 1, self, zoom, assign, modify.
    unfold bind at 1, x11, zoom, instant_now. cbn [fst snd].
    pose proof (now_clock (snd s)) as Hn. destruct (now (snd s)) as [t w1]. cbn [fst snd] in *.
    unfold bind at 1. set (s1 := (_, w1)).
    pose proof (poll_loop_terminates fuel after (wait_ms * NANOS_PER_MS) t s1 Hf1
                  ltac:(cbn; lia)) as Hloop.
    destruct (poll_loop _ _ _ s1) as [[[[]|]|] s2]; [|done..].
    unfold bind, get, gets, lift, ret. by destruct (event_page _ _ _).
  - unfold correlate_launch, bind at 1, x11, zoom, instant_now. cbn [fst snd].
    pose proof (now_clock (snd s)) as Hn. destruct (now (snd s)) as [t w1]. cbn [fst snd] in *.
    apply correlate_loop_terminates; [done|cbn; lia].
Qed.
End termination.
