(* ===== verification/InputServer.v ===== *)
(** * The X server's input, image and selection requests, and the shared seat word

    What [observer/input.rs], [observer/keyboard.rs], [observer/capture.rs] and
    [observer/text_transfer.rs] use of the [x11rb] connection beyond [XServer]: the focus
    and window tree, input shapes, XTEST, the XKB map and state; pixmaps and images; and
    selections, properties of other windows, and client identities.  [SharedSeat] is the atomic word of the seat gate, which operators move while a
    session runs: every load may see another value. *)

From S2P Require Import Prelude Effects X11 SeatGate.

(** ** Replies *)

Record Rectangle := {
  rectangle_x : Z; rectangle_y : Z; rectangle_width : Z; rectangle_height : Z
}.

(** [KTMapEntry], [KeyType], [KeySymMap], [KeyModMap]: what the code uses of them. *)
Record KTMapEntry := { entry_active : bool; entry_mods_mask : Z; entry_level : Z }.

Record KeyType := {
  type_mods_mask : Z;
  type_num_levels : Z;
  type_map : list KTMapEntry
}.

Record KeySymMap := {
  sym_kt_index : list Z;
  sym_group_info : Z;
  sym_width : Z;
  sym_syms : list Z
}.

Record KeyModMap := { modmap_keycode : Z; modmap_mods : Z }.

Record GetStateReply := {
  state_mods : Z;
  state_base_mods : Z;
  state_latched_mods : Z;
  state_locked_mods : Z;
  state_group : Z;
  state_base_group : Z;
  state_latched_group : Z
}.

Record GetMapReply := {
  map_min_key_code : Z;
  map_max_key_code : Z;
  map_first_type : Z;
  map_n_types : Z;
  map_total_types : Z;
  map_first_key_sym : Z;
  map_n_key_syms : Z;
  map_types_rtrn : option (list KeyType);
  map_syms_rtrn : option (list KeySymMap);
  map_modmap_rtrn : option (list KeyModMap)
}.

(** [Visualtype], [Format]: what the code uses of them; [Setup] is the connection's. *)
Record Visualtype := {
  visual_id : Z;
  visual_class : Z;
  red_mask : Z;
  green_mask : Z;
  blue_mask : Z
}.

Record Format := { format_depth : Z; format_bits_per_pixel : Z; format_scanline_pad : Z }.

Record Setup := {
  (** the visuals of each allowed depth of each screen *)
  setup_roots : list (list (list Visualtype));
  setup_pixmap_formats : list Format;
  setup_image_byte_order : Z
}.

Record SelectionRequestEvent := {
  selection_time : Z;
  selection_owner : Z;
  selection_requestor : Z;
  selection_selection : Z;
  selection_target : Z;
  selection_property : Z
}.

Record SelectionNotifyEvent := {
  notify_time : Z;
  notify_requestor : Z;
  notify_selection : Z;
  notify_target : Z;
  notify_property : Z
}.

Inductive XEvent :=
| XEvent_SelectionClear (owner selection : Z)
| XEvent_SelectionRequest (event : SelectionRequestEvent)
| XEvent_Other.

(** [ClientIdValue]: the spec's client and mask, and the value. *)
Record ClientIdValue := {
  client_spec_client : Z;
  client_spec_mask : Z;
  client_value : list Z
}.

(** ** Requests *)

Class XInput (W : Type) := {
  get_input_focus : M W XError Z;
  (** the parent and the children, bottom to top *)
  query_tree : Z → M W XError (Z * list Z);
  (** the input shape of a window *)
  shape_get_rectangles : Z → M W XError (list Rectangle);
  (** event type, detail, and root coordinates; checked *)
  xtest_fake_input : Z → Z → Z → Z → M W XError unit;
  (** the same with the server's error ignored *)
  xtest_fake_input_ignored : Z → Z → M W XError unit;
  sync : M W XError unit;
  xkb_use_extension : Z → Z → M W XError bool;
  xkb_get_state : Z → M W XError GetStateReply;
  xkb_get_map : Z → M W XError GetMapReply
}.

(** Resource identities, allocated by the client library. *)
Class XIdentities (W : Type) := { generate_id : M W XError Z }.

Class XImages (W : Type) := {
  setup : Setup;
  composite_name_window_pixmap : Z → Z → M W XError unit;
  free_pixmap : Z → M W XError unit;
  (** pixmap, x, y, width, height; the depth and the data of the image *)
  get_image : Z → Z → Z → Z → Z → M W XError (Z * bytes)
}.

Class XSelections (W : Type) := {
  (** window and parent; one pixel, outside the screen, for input only *)
  create_window : Z → Z → M W XError unit;
  destroy_window : Z → M W XError unit;
  set_selection_owner : Z → Z → M W XError unit;
  get_selection_owner : Z → M W XError Z;
  poll_for_event : M W XError (option XEvent);
  (** window, property, type, data *)
  change_property32 : Z → Z → Z → list Z → M W XError unit;
  change_property8 : Z → Z → Z → bytes → M W XError unit;
  send_selection_notify : Z → SelectionNotifyEvent → M W XError unit;
  res_query_version : Z → Z → M W XError (Z * Z);
  (** of the windows with the identities asked for *)
  res_query_client_ids : Z → Z → M W XError (list ClientIdValue);
  (** [poll(2)] on the connection, with a timeout in nanoseconds *)
  wait_readable : Z → M W XError unit
}.

Class SharedSeat (W : Type) := {
  load_gate : W → Z * W
}.

(** [seat.accepts(seat_permit)] *)
Definition seat_accepts {W E} `{SharedSeat W} (permit : SeatPermit) : M W E bool :=
  λ w, let '(word, w) := load_gate w in (Ok (SeatGate_accepts word permit), w).

(** What the code relies on: the replies carry values of their wire types, and nothing
    here runs the clock backwards. *)
Class XInputLaws (W : Type) `{XServer W, XInput W, SharedSeat W} : Prop := {
  get_input_focus_clock :: Advances clock get_input_focus;
  query_tree_clock window :: Advances clock (query_tree window);
  shape_get_rectangles_clock window :: Advances clock (shape_get_rectangles window);
  xtest_fake_input_clock type detail x y :: Advances clock (xtest_fake_input type detail x y);
  xtest_ignored_clock type detail :: Advances clock (xtest_fake_input_ignored type detail);
  sync_clock :: Advances clock sync;
  xkb_use_extension_clock major minor :: Advances clock (xkb_use_extension major minor);
  xkb_get_state_clock device :: Advances clock (xkb_get_state device);
  xkb_get_map_clock device :: Advances clock (xkb_get_map device);
  load_gate_clock w : clock w ≤ clock (load_gate w).2
}.

(** The same for selections; and [poll(2)] returns when there is something to read or the
    time has passed. *)
Class XSelectionLaws (W : Type)
    `{XServer W, XInput W, SharedSeat W, XIdentities W, XSelections W} : Prop := {
  generate_id_clock :: Advances clock generate_id;
  create_window_clock window parent :: Advances clock (create_window window parent);
  destroy_window_clock window :: Advances clock (destroy_window window);
  set_selection_owner_clock owner selection ::
    Advances clock (set_selection_owner owner selection);
  get_selection_owner_clock selection :: Advances clock (get_selection_owner selection);
  poll_for_event_clock :: Advances clock poll_for_event;
  change_property32_clock window property type data ::
    Advances clock (change_property32 window property type data);
  change_property8_clock window property type data ::
    Advances clock (change_property8 window property type data);
  send_selection_notify_clock destination event ::
    Advances clock (send_selection_notify destination event);
  res_query_version_clock major minor :: Advances clock (res_query_version major minor);
  res_query_client_ids_clock window mask :: Advances clock (res_query_client_ids window mask);
  wait_readable_clock timeout w :
    let w' := (wait_readable timeout w).2 in
    clock w ≤ clock w' ∧
    (clock w + timeout ≤ clock w' ∨
     ∃ event w1, poll_for_event w' = (Ok (Some event), w1))
}.
