(* ===== verification/Keyboard.v ===== *)
(** * [agent-seat-x11/src/observer/keyboard.rs]: from characters to key strokes

    A [KeyboardMap] is one reading of the XKB map and state.  [resolve_with_modifiers]
    looks for the key that yields a keysym with the fewest extra modifier keys held. *)

From Stdlib Require Import Ascii.
From S2P Require Import Prelude Text Bounded Message Effects X11 InputServer.

Definition XK_TAB : Z := 0xff09.
Definition XK_RETURN : Z := 0xff0d.
Definition XK_BACKSPACE : Z := 0xff08.
Definition XK_ESCAPE : Z := 0xff1b.
Definition XK_DELETE : Z := 0xffff.
Definition XK_HOME : Z := 0xff50.
Definition XK_LEFT : Z := 0xff51.
Definition XK_UP : Z := 0xff52.
Definition XK_RIGHT : Z := 0xff53.
Definition XK_DOWN : Z := 0xff54.
Definition XK_PRIOR : Z := 0xff55.
Definition XK_NEXT : Z := 0xff56.
Definition XK_END : Z := 0xff57.
Definition XK_INSERT : Z := 0xff63.
Definition XK_F1 : Z := 0xffbe.
Definition XK_SHIFT_L : Z := 0xffe1.
Definition XK_SHIFT_R : Z := 0xffe2.
Definition XK_CONTROL_L : Z := 0xffe3.
Definition XK_CONTROL_R : Z := 0xffe4.
Definition XK_CAPS_LOCK : Z := 0xffe5.
Definition XK_SHIFT_LOCK : Z := 0xffe6.
Definition XK_NUM_LOCK : Z := 0xff7f.
Definition XK_ALT_L : Z := 0xffe9.
Definition XK_ALT_R : Z := 0xffea.
Definition XK_SUPER_L : Z := 0xffeb.
Definition XK_SUPER_R : Z := 0xffec.
Definition XK_ISO_LEVEL3_SHIFT : Z := 0xfe03.
Definition XK_ISO_LEVEL5_SHIFT : Z := 0xfe11.
Definition MAX_MOMENTARY_MODIFIERS : Z := 8.
Definition SYMBOL_UNAVAILABLE : string :=
  "keyboard symbol is unavailable in the current XKB layout and group".

(** [ID::USE_CORE_KBD] *)
Definition USE_CORE_KBD : Z := 0x100.

Record KeyStroke := { stroke_keycode : Z; stroke_modifiers : list Z }.

Record KeyboardMap := {
  map_minimum : Z;
  map_types : list KeyType;
  map_symbols : list KeySymMap;
  map_modifier_map : list KeyModMap;
  map_state : GetStateReply
}.

Record ModifierKey := { modifier_keycode : Z; modifier_modifiers : Z }.

(** ** Small pieces *)

(** [Iterator::min_by_key]: the first of the least elements. *)
Fixpoint min_from {A} (lt : A → A → bool) (best : A) (l : list A) : A :=
  match l with
  | [] => best
  | a :: l => min_from lt (if lt a best then a else best) l
  end.

Definition min_by {A} (lt : A → A → bool) (l : list A) : option A :=
  match l with [] => None | a :: l => Some (min_from lt a l) end.

(** [count_ones] of an integer below 2^16. *)
Definition count_ones (x : Z) : nat := length (filter (λ i, Z.testbit x i = true) (seqZ 0 16)).

Definition modifier_bits (mask : Z) : result Z Failure :=
  ok_or (checked_in 0 255 mask) (Failure_unavailable "XKB returned an invalid modifier mask").

Definition normalized_group (group_info effective : Z) : option Z :=
  let count := Z.land group_info 0x0f in
  if count =? 0 then None
  else if effective <? count then Some effective
  else
    let action := Z.land group_info 0xc0 in
    if action =? 0x00 then Some (effective mod count)
    else if action =? 0x40 then Some (count - 1)
    else if action =? 0x80 then
      let redirected := Z.shiftr (Z.land group_info 0x30) 4 in
      if redirected <? count then Some redirected else None
    else None.

Definition level_for_modifiers (key_type : KeyType) (modifiers : Z) : Z :=
  let relevant := Z.land modifiers (default 255 (checked_in 0 255 (type_mods_mask key_type))) in
  match list_find (λ entry, (entry_active entry
                   && match checked_in 0 255 (entry_mods_mask entry) with
                      | Some mask => relevant =? mask
                      | None => false
                      end) = true) (type_map key_type) with
  | Some (_, entry) => entry_level entry
  | None => 0
  end.

Definition keysym_for_character (character : Z) : Z :=
  if character =? 9 then XK_TAB
  else if character =? 10 then XK_RETURN
  else if character <=? 0xff then character
  else Z.lor 0x01000000 character.

(** The byte of an ASCII character. *)
Definition ascii (c : Ascii.ascii) : Z := Z.of_N (Ascii.N_of_ascii c).
Arguments ascii c%_char.

Definition keysym_for_key (key : KeyboardKey) : Z :=
  match key with
  | KeyboardKey_Backspace => XK_BACKSPACE | KeyboardKey_Delete => XK_DELETE
  | KeyboardKey_Enter => XK_RETURN | KeyboardKey_Escape => XK_ESCAPE
  | KeyboardKey_Tab => XK_TAB | KeyboardKey_Space => ascii " "
  | KeyboardKey_Insert => XK_INSERT | KeyboardKey_Home => XK_HOME
  | KeyboardKey_End => XK_END | KeyboardKey_PageUp => XK_PRIOR
  | KeyboardKey_PageDown => XK_NEXT | KeyboardKey_ArrowLeft => XK_LEFT
  | KeyboardKey_ArrowRight => XK_RIGHT | KeyboardKey_ArrowUp => XK_UP
  | KeyboardKey_ArrowDown => XK_DOWN
  | KeyboardKey_A => ascii "a" | KeyboardKey_B => ascii "b" | KeyboardKey_C => ascii "c"
  | KeyboardKey_D => ascii "d" | KeyboardKey_E => ascii "e" | KeyboardKey_F => ascii "f"
  | KeyboardKey_G => ascii "g" | KeyboardKey_H => ascii "h" | KeyboardKey_I => ascii "i"
  | KeyboardKey_J => ascii "j" | KeyboardKey_K => ascii "k" | KeyboardKey_L => ascii "l"
  | KeyboardKey_M => ascii "m" | KeyboardKey_N => ascii "n" | KeyboardKey_O => ascii "o"
  | KeyboardKey_P => ascii "p" | KeyboardKey_Q => ascii "q" | KeyboardKey_R => ascii "r"
  | KeyboardKey_S => ascii "s" | KeyboardKey_T => ascii "t" | KeyboardKey_U => ascii "u"
  | KeyboardKey_V => ascii "v" | KeyboardKey_W => ascii "w" | KeyboardKey_X => ascii "x"
  | KeyboardKey_Y => ascii "y" | KeyboardKey_Z => ascii "z"
  | KeyboardKey_Digit0 => ascii "0" | KeyboardKey_Digit1 => ascii "1"
  | KeyboardKey_Digit2 => ascii "2" | KeyboardKey_Digit3 => ascii "3"
  | KeyboardKey_Digit4 => ascii "4" | KeyboardKey_Digit5 => ascii "5"
  | KeyboardKey_Digit6 => ascii "6" | KeyboardKey_Digit7 => ascii "7"
  | KeyboardKey_Digit8 => ascii "8" | KeyboardKey_Digit9 => ascii "9"
  | KeyboardKey_F1 => XK_F1 | KeyboardKey_F2 => XK_F1 + 1 | KeyboardKey_F3 => XK_F1 + 2
  | KeyboardKey_F4 => XK_F1 + 3 | KeyboardKey_F5 => XK_F1 + 4 | KeyboardKey_F6 => XK_F1 + 5
  | KeyboardKey_F7 => XK_F1 + 6 | KeyboardKey_F8 => XK_F1 + 7 | KeyboardKey_F9 => XK_F1 + 8
  | KeyboardKey_F10 => XK_F1 + 9 | KeyboardKey_F11 => XK_F1 + 10 | KeyboardKey_F12 => XK_F1 + 11
  end.

(** ** [KeyboardMap] *)

(** [reply.max_key_code.checked_sub(min).and_then(|d| d.checked_add(1))], on [u8]. *)
Definition expected_symbols (reply : GetMapReply) : option Z :=
  checked_in 0 255 (map_max_key_code reply - map_min_key_code reply)
    ≫= λ difference, checked_in 0 255 (difference + 1).

Definition KeyboardMap_from_reply (reply : GetMapReply) (state : GetStateReply)
  : result KeyboardMap Failure :=
  let? types := ok_or (map_types_rtrn reply) (Failure_unavailable "XKB returned no key types") in
  let? symbols := ok_or (map_syms_rtrn reply)
                    (Failure_unavailable "XKB returned no key symbols") in
  let? modifier_map := ok_or (map_modmap_rtrn reply)
                         (Failure_unavailable "XKB returned no modifier map") in
  if negb (map_first_type reply =? 0)
     || negb (map_n_types reply =? map_total_types reply)
     || negb (len types =? map_n_types reply)
     || negb (map_first_key_sym reply =? map_min_key_code reply)
     || negb (bool_decide (expected_symbols reply = Some (len symbols)))
     || negb (len symbols =? map_n_key_syms reply)
  then Err (Failure_unavailable "XKB keyboard map is incomplete")
  else Ok {| map_minimum := map_first_key_sym reply; map_types := types;
             map_symbols := symbols; map_modifier_map := modifier_map; map_state := state |}.

(** [self.symbols.get(keycode - self.minimum)] *)
Definition symbols_of (map : KeyboardMap) (keycode : Z) : option KeySymMap :=
  row ← checked_in 0 255 (keycode - map_minimum map);
  map_symbols map !! Z.to_nat row.

Definition key_has_any_symbol (map : KeyboardMap) (keycode : Z) (wanted : list Z) : bool :=
  match symbols_of map keycode with
  | Some key => existsb (λ symbol, bool_decide (symbol ∈ wanted)) (sym_syms key)
  | None => false
  end.

Definition key_has_momentary_modifier_symbol (map : KeyboardMap) (keycode : Z) : bool :=
  key_has_any_symbol map keycode
    [XK_SHIFT_L; XK_SHIFT_R; XK_ISO_LEVEL3_SHIFT; XK_ISO_LEVEL5_SHIFT].

Definition modifier_symbols (modifier : KeyboardModifier) : list Z :=
  match modifier with
  | KeyboardModifier_Control => [XK_CONTROL_L; XK_CONTROL_R]
  | KeyboardModifier_Alt => [XK_ALT_L; XK_ALT_R]
  | KeyboardModifier_Shift => [XK_SHIFT_L; XK_SHIFT_R]
  | KeyboardModifier_Super => [XK_SUPER_L; XK_SUPER_R]
  end.

(** The closure of [find_map] in [modifier_key]. *)
Definition modifier_entry (map : KeyboardMap) (symbols : list Z) (entry : KeyModMap)
  : option ModifierKey :=
  bits ← result_ok (modifier_bits (modmap_mods entry));
  if bool_decide (count_ones bits = 1%nat) && key_has_any_symbol map (modmap_keycode entry) symbols
  then Some {| modifier_keycode := modmap_keycode entry; modifier_modifiers := bits |}
  else None.

Definition modifier_key (map : KeyboardMap) (modifier : KeyboardModifier)
  : result ModifierKey Failure :=
  ok_or (head (omap (modifier_entry map (modifier_symbols modifier)) (map_modifier_map map)))
    (Failure_invalid "keyboard modifier is unavailable in the current XKB layout and group").

(** The loop of [momentary_modifier_keys]; [keys] in the order they were pushed. *)
Fixpoint momentary_loop (map : KeyboardMap) (keys : list ModifierKey) (entries : list KeyModMap)
  : list ModifierKey :=
  match entries with
  | [] => keys
  | entry :: entries =>
      match modifier_bits (modmap_mods entry) with
      | Err _ => momentary_loop map keys entries
      | Ok modifiers =>
          if negb (bool_decide (count_ones modifiers = 1%nat))
             || negb (key_has_momentary_modifier_symbol map (modmap_keycode entry))
          then momentary_loop map keys entries
          else if existsb (λ candidate, modifier_modifiers candidate =? modifiers) keys
          then momentary_loop map keys entries
          else if len keys =? MAX_MOMENTARY_MODIFIERS then keys
          else momentary_loop map
                 (keys ++ [{| modifier_keycode := modmap_keycode entry;
                              modifier_modifiers := modifiers |}]) entries
      end
  end.

Definition momentary_modifier_keys (map : KeyboardMap) : list ModifierKey :=
  momentary_loop map [] (map_modifier_map map).

Fixpoint safe_loop (map : KeyboardMap) (safe : Z) (entries : list KeyModMap) : result Z Failure :=
  match entries with
  | [] => Ok safe
  | entry :: entries =>
      let? modifiers := modifier_bits (modmap_mods entry) in
      safe_loop map
        (if key_has_any_symbol map (modmap_keycode entry)
              [XK_CAPS_LOCK; XK_SHIFT_LOCK; XK_NUM_LOCK]
         then Z.lor safe modifiers else safe) entries
  end.

Definition safe_locked_modifiers (map : KeyboardMap) : result Z Failure :=
  let? locked := modifier_bits (state_locked_mods (map_state map)) in
  let? safe := safe_loop map 0 (map_modifier_map map) in
  Ok (Z.land locked safe).

(** One combination of the momentary keys: the keycodes held and the modifiers in effect. *)
Fixpoint held (combination index effective : Z) (keycodes : list Z) (keys : list ModifierKey)
  : list Z * Z :=
  match keys with
  | [] => (keycodes, effective)
  | key :: keys =>
      if negb (Z.land combination (Z.shiftl 1 index) =? 0)
      then held combination (index + 1) (Z.lor effective (modifier_modifiers key))
             (keycodes ++ [modifier_keycode key]) keys
      else held combination (index + 1) effective keycodes keys
  end.

Definition fewer_held (a b : list Z * Z) : bool :=
  bool_decide (length a.1 < length b.1)%nat
  || (bool_decide (length a.1 = length b.1) && bool_decide (count_ones a.2 < count_ones b.2)%nat).

Definition modifiers_for_level (key_type : KeyType) (wanted_level current : Z)
  (keys : list ModifierKey) : option (list Z) :=
  combinations ← (if len keys <? 16 then Some (Z.shiftl 1 (len keys)) else None);
  fst <$> min_by fewer_held
    (filter (λ held, level_for_modifiers key_type held.2 = wanted_level)
       ((λ combination, held combination 0 current [] keys) <$> seqZ 0 combinations)).

(** [all_modifiers]: the requested keys, then the new ones. *)
Fixpoint push_new (all : list Z) (keycodes : list Z) : list Z :=
  match keycodes with
  | [] => all
  | keycode :: keycodes =>
      push_new (if bool_decide (keycode ∈ all) then all else all ++ [keycode]) keycodes
  end.

(** [symbols.get(start..end)] *)
Definition get_range {A} (from to : Z) (l : list A) : option (list A) :=
  if (from <=? to) && (to <=? len l)
  then Some (take (Z.to_nat (to - from)) (drop (Z.to_nat from) l)) else None.

Definition enumerate {A} (l : list A) : list (Z * A) := zip (seqZ 0 (len l)) l.

Definition fewer_modifiers (a b : KeyStroke) : bool :=
  bool_decide (length (stroke_modifiers a) < length (stroke_modifiers b))%nat.

(** What the levels of one key offer for [wanted]. *)
Definition key_strokes (keycode wanted current : Z) (key_type : KeyType)
  (momentary : list ModifierKey) (requested_keys : list Z) (symbols : list Z) : list KeyStroke :=
  omap (λ '(level, symbol),
          level ← checked_in 0 255 level;
          (λ keycodes, {| stroke_keycode := keycode;
                          stroke_modifiers := push_new requested_keys keycodes |})
            <$> modifiers_for_level key_type level current momentary)
    (filter (λ p, p.2 = wanted) (take (Z.to_nat (type_num_levels key_type)) (enumerate symbols))).

(** The closure of [filter_map] over the rows of the map. *)
Definition row_stroke (map : KeyboardMap) (wanted group current safe requested_bits : Z)
  (requested_keys : list Z) (momentary : list ModifierKey) (row : Z) (key : KeySymMap)
  : option KeyStroke :=
  row ← checked_in 0 255 row;
  keycode ← checked_in 0 255 (map_minimum map + row);
  group ← normalized_group (sym_group_info key) group;
  index ← sym_kt_index key !! Z.to_nat group;
  key_type ← map_types map !! Z.to_nat index;
  type_modifiers ← result_ok (modifier_bits (type_mods_mask key_type));
  if negb (Z.ldiff current (Z.lor (Z.lor type_modifiers safe) requested_bits) =? 0) then None
  else
    let width := sym_width key in
    start ← checked_u64 (group * width);
    until ← checked_u64 (start + width);
    symbols ← get_range start until (sym_syms key);
    min_by fewer_modifiers
      (key_strokes keycode wanted current key_type momentary requested_keys symbols).

(** The loop over the requested modifiers. *)
Fixpoint request_modifiers (map : KeyboardMap) (bits : Z) (keys : list Z)
  (requested : list KeyboardModifier) : result (Z * list Z) Failure :=
  match requested with
  | [] => Ok (bits, keys)
  | modifier :: requested =>
      let? key := modifier_key map modifier in
      if negb (Z.land bits (modifier_modifiers key) =? 0)
      then Err (Failure_invalid "requested keyboard modifiers share an XKB modifier bit")
      else request_modifiers map (Z.lor bits (modifier_modifiers key))
             (keys ++ [modifier_keycode key]) requested
  end.

Definition resolve_with_modifiers (map : KeyboardMap) (wanted : Z)
  (requested : list KeyboardModifier) : result KeyStroke Failure :=
  let state := map_state map in
  if negb (state_base_mods state =? 0) || negb (state_latched_mods state =? 0)
     || negb (state_base_group state =? 0) || negb (state_latched_group state =? 0)
  then Err (Failure_unavailable
    "keyboard input is unavailable while a depressed or latched modifier is active")
  else
    let group := state_group state in
    let? '(requested_bits, requested_keys) := request_modifiers map 0 [] requested in
    let? mods := modifier_bits (state_mods state) in
    let current := Z.lor mods requested_bits in
    let? safe := safe_locked_modifiers map in
    let momentary := momentary_modifier_keys map in
    ok_or (min_by fewer_modifiers
             (omap (λ '(row, key), row_stroke map wanted group current safe requested_bits
                                     requested_keys momentary row key)
                (enumerate (map_symbols map))))
      (Failure_invalid SYMBOL_UNAVAILABLE).

Definition resolve (map : KeyboardMap) (wanted : Z) : result KeyStroke Failure :=
  resolve_with_modifiers map wanted [].

(** ** Reading the map *)

(** At least four upper-case hexadecimal digits: [{:04X}]. *)
Fixpoint hex_digits (fuel : nat) (x : Z) : str :=
  match fuel with
  | O => []
  | S fuel =>
      let digit := x mod 16 in
      hex_digits fuel (x / 16) ++ [if digit <? 10 then 48 + digit else 55 + digit]
  end.

Definition hex_04 (x : Z) : str :=
  let digits := if x <? 0x10000 then 4%nat else if x <? 0x100000 then 5%nat else 6%nat in
  hex_digits digits x.

Definition character_failure (error : Failure) (character position : Z) : Failure :=
  if bool_decide (Failure_message error = SYMBOL_UNAVAILABLE)
  then Failure_invalid_owned (
    "keyboard character " +:+ string_of_str (to_dec position) +:+ " (U+"
    +:+ string_of_str (hex_04 character) +:+
    ") is unavailable in the current XKB layout and group; do not change the user's XKB layout or mapping as a workaround")
  else error.

Section keyboard.
Context {W : Type} `{XInput W}.

Notation unavailable message := (map_error (λ _ : XError, Failure_unavailable message)).

Definition KeyboardMap_read : M W Failure KeyboardMap :=
  let! supported := unavailable "cannot negotiate the XKB extension" (xkb_use_extension 1 0) in
  if negb supported
  then fail (Failure_unavailable "the X server does not support the required XKB extension")
  else
    let! state := unavailable "cannot inspect the XKB keyboard state"
                    (xkb_get_state USE_CORE_KBD) in
    let! reply := unavailable "cannot inspect the XKB keyboard map"
                    (xkb_get_map USE_CORE_KBD) in
    lift (KeyboardMap_from_reply reply state).

(** The strokes of the characters from position [index + 1] on, up to the first failure. *)
Fixpoint resolve_characters (map : KeyboardMap) (index : Z) (characters : list Z)
  : result (list KeyStroke) Failure :=
  match characters with
  | [] => Ok []
  | character :: characters =>
      let? stroke := map_err (λ e, character_failure e character (index + 1))
                       (resolve map (keysym_for_character character)) in
      let? strokes := resolve_characters map (index + 1) characters in
      Ok (stroke :: strokes)
  end.

Definition resolve_text (text : str) : M W Failure (list KeyStroke) :=
  let! map := KeyboardMap_read in
  lift (resolve_characters map 0 (chars text)).

Definition resolve_character (character position : Z) : M W Failure KeyStroke :=
  let! map := KeyboardMap_read in
  lift (map_err (λ e, character_failure e character position)
          (resolve map (keysym_for_character character))).

Definition resolve_key (key : KeyboardKey) (modifiers : list KeyboardModifier)
  : M W Failure KeyStroke :=
  let! map := KeyboardMap_read in
  lift (resolve_with_modifiers map (keysym_for_key key) modifiers).
End keyboard.
