(* ===== verification/KeyboardTheorems.v ===== *)
(** * Properties of key resolution

    A stroke that [resolve_with_modifiers] returns makes the server select the wanted
    symbol, holds every requested modifier and no key twice, and no key of the map yields
    the symbol with fewer keys held; when it reports the symbol unavailable there is none. *)

From stdpp Require Import sets.
From S2P Require Import Prelude Text Bounded Message Effects X11 InputServer Keyboard.

(** ** Least elements *)

Section min_by.
Context {A : Type} (measure : A → nat) (lt : A → A → bool).
Context (lt_measure : ∀ a b, lt a b = false → (measure b ≤ measure a)%nat).
Context (measure_lt : ∀ a b, lt a b = true → (measure a ≤ measure b)%nat).

Lemma min_from_spec l best :
  (min_from lt best l = best ∨ min_from lt best l ∈ l) ∧
  (measure (min_from lt best l) ≤ measure best)%nat ∧
  Forall (λ a, measure (min_from lt best l) ≤ measure a)%nat l.
Proof.
  revert best. induction l as [|a l IH]; intros best; cbn [min_from].
  - split; [by left|]. split; [done|constructor].
  - destruct (IH (if lt a best then a else best)) as (Hin & Hle & Hall).
    destruct (lt a best) eqn:Hlt.
    + pose proof (measure_lt _ _ Hlt). split; [set_solver|]. split; [lia|].
      by constructor.
    + pose proof (lt_measure _ _ Hlt). split; [set_solver|]. split; [done|].
      constructor; [lia|done].
Qed.

Lemma min_by_Some l a :
  min_by lt l = Some a → a ∈ l ∧ ∀ b, b ∈ l → (measure a ≤ measure b)%nat.
Proof.
  destruct l as [|b l]; [done|]. intros [= <-].
  destruct (min_from_spec l b) as ([->|Hin] & Hle & Hall); rewrite Forall_forall in Hall;
    (split; [set_solver|]); intros c [->|Hc]%elem_of_cons; eauto.
Qed.

Lemma min_by_None l : min_by lt l = None ↔ l = [].
Proof. by destruct l. Qed.
End min_by.

Lemma min_by_strokes l s :
  min_by fewer_modifiers l = Some s →
  s ∈ l ∧ ∀ t, t ∈ l → (length (stroke_modifiers s) ≤ length (stroke_modifiers t))%nat.
Proof.
  apply (min_by_Some (λ s, length (stroke_modifiers s))); unfold fewer_modifiers;
    intros ??; case_bool_decide; intros; try done; lia.
Qed.

Lemma min_by_held l h :
  min_by fewer_held l = Some h → h ∈ l ∧ ∀ k, k ∈ l → (length h.1 ≤ length k.1)%nat.
Proof.
  apply (min_by_Some (λ h, length h.1)); unfold fewer_held; intros a b;
    repeat case_bool_decide; cbn; intros; try done; lia.
Qed.

(** ** Combinations of keys are the sublists *)

Definition pressed_bits (effective : Z) (keys : list ModifierKey) : Z :=
  fold_left (λ bits key, Z.lor bits (modifier_modifiers key)) keys effective.

Lemma held_sublist combination index effective keycodes keys :
  0 ≤ index →
  ∃ pressed, pressed `sublist_of` keys ∧
    held combination index effective keycodes keys
    = (keycodes ++ (modifier_keycode <$> pressed), pressed_bits effective pressed).
Proof.
  revert index effective keycodes. induction keys as [|key keys IH]; intros index eff kc Hi.
  { exists []. by rewrite app_nil_r. }
  cbn [held]. case_match.
  - edestruct (IH (index + 1)) as (pressed & Hsub & ->); [lia|].
    exists (key :: pressed). split; [by constructor|]. cbn. by rewrite <- (assoc_L (++)).
  - edestruct (IH (index + 1)) as (pressed & Hsub & ->); [lia|].
    exists pressed. by split; [constructor|].
Qed.

Lemma bit_set c i : 0 ≤ i → negb (Z.land c (Z.shiftl 1 i) =? 0) = Z.testbit c i.
Proof.
  intros Hi. rewrite Z.shiftl_1_l. destruct (Z.testbit c i) eqn:Hb.
  - apply negb_true_iff, Z.eqb_neq. intros H.
    assert (Z.testbit (Z.land c (2 ^ i)) i = false) as Hf by (rewrite H; apply Z.bits_0).
    rewrite Z.land_spec, Hb, Z.pow2_bits_true in Hf by lia. done.
  - apply negb_false_iff, Z.eqb_eq. apply Z.bits_inj'. intros n Hn.
    rewrite Z.land_spec, Z.bits_0. destruct (decide (n = i)) as [->|]; [by rewrite Hb|].
    rewrite Z.pow2_bits_false by lia. by rewrite andb_false_r.
Qed.

Lemma sublist_held index effective keycodes keys pressed :
  0 ≤ index → pressed `sublist_of` keys →
  ∃ combination, 0 ≤ combination < 2 ^ (index + len keys) ∧ (∀ i, i < index → Z.testbit combination i = false) ∧
    held combination index effective keycodes keys
    = (keycodes ++ (modifier_keycode <$> pressed), pressed_bits effective pressed).
Proof.
  intros Hi Hsub. revert index effective keycodes Hi.
  induction Hsub as [|key pressed keys _ IH|key pressed keys _ IH]; intros index eff kc Hi.
  - exists 0. split; [split; [done|apply Z.pow_pos_nonneg; unfold len; cbn; lia]|].
    split; [intros; apply Z.bits_0|]. by rewrite app_nil_r.
  - destruct (IH (index + 1) (Z.lor eff (modifier_modifiers key)) (kc ++ [modifier_keycode key]))
      as (c & Hc & Hlow & Heq); [lia|].
    exists (Z.lor c (2 ^ index)).
    assert (Z.testbit (Z.lor c (2 ^ index)) index = true) as Hbit
      by (rewrite Z.lor_spec, Z.pow2_bits_true by lia; apply orb_true_r).
    assert (∀ j kc eff, index < j →
       held (Z.lor c (2 ^ index)) j eff kc keys = held c j eff kc keys) as Hsame.
    { clear. intros j. revert j. induction keys as [|k keys IH]; intros j kc eff Hj; [done|].
      cbn [held]. destruct (decide (0 ≤ index)).
      - rewrite !bit_set, Z.lor_spec, Z.pow2_bits_false, orb_false_r by lia.
        by rewrite !IH by lia.
      - rewrite (Z.pow_neg_r 2 index) by lia. rewrite Z.lor_0_r. done. }
    split.
    { assert (c < 2 ^ (index + len (key :: keys))) by (rewrite len_cons; replace (index + (1 + len keys)) with (index + 1 + len keys) by lia; lia).
      split; [apply Z.lor_nonneg; split; [lia|apply Z.pow_nonneg; lia]|].
      apply Z.log2_lt_cancel. rewrite Z.log2_pow2 by (pose proof (len_nonneg (key :: keys)); lia).
      rewrite Z.log2_lor by (try apply Z.pow_nonneg; lia).
      rewrite Z.log2_pow2 by lia. pose proof (len_nonneg keys). rewrite len_cons in *.
      apply Z.max_lub_lt; [|lia]. destruct (decide (c = 0)) as [->|]; [cbn; lia|].
      apply Z.log2_lt_pow2; lia. }
    split.
    { intros i Hlt. destruct (decide (i < 0)); [by rewrite Z.testbit_neg_r|].
      rewrite Z.lor_spec, Hlow, Z.pow2_bits_false by lia. done. }
    cbn [held]. rewrite bit_set, Hbit, Hsame, Heq by lia.
    cbn. by rewrite <- (assoc_L (++)).
  - destruct (IH (index + 1) eff kc) as (c & Hc & Hlow & Heq); [lia|].
    exists c. split.
    { rewrite len_cons. replace (index + (1 + len keys)) with (index + 1 + len keys) by lia. lia. }
    split; [intros; apply Hlow; lia|].
    cbn [held]. rewrite bit_set, Hlow, Heq by lia. done.
Qed.

(** ** What a level costs *)

Lemma modifiers_for_level_Some key_type level current keys keycodes :
  modifiers_for_level key_type level current keys = Some keycodes →
  ∃ pressed, pressed `sublist_of` keys ∧ keycodes = modifier_keycode <$> pressed ∧
    level_for_modifiers key_type (pressed_bits current pressed) = level ∧
    ∀ other, other `sublist_of` keys →
      level_for_modifiers key_type (pressed_bits current other) = level →
      (length keycodes ≤ length other)%nat.
Proof.
  unfold modifiers_for_level. destruct (Z.ltb_spec (len keys) 16); [|done]. cbn [mbind option_bind].
  intros ([keycodes' effective] & [Hin Hmin]%min_by_held & ->)%fmap_Some.
  apply list_elem_of_filter in Hin as [Hlevel Hin].
  apply list_elem_of_fmap in Hin as (c & Hc & _). cbn in *.
  destruct (held_sublist c 0 current [] keys) as (pressed & Hsub & Heq); [lia|].
  rewrite Heq in Hc. simplify_eq/=. exists pressed. split_and!; [done..|].
  intros other Hother Hol.
  destruct (sublist_held 0 current [] keys other) as (c' & Hc' & _ & Heq'); [lia|done|].
  specialize (Hmin (modifier_keycode <$> other, pressed_bits current other)).
  cbn in Hmin. rewrite !length_fmap in *. apply Hmin. apply list_elem_of_filter. split; [done|].
  apply list_elem_of_fmap. exists c'. split; [by rewrite Heq'|]. apply elem_of_seqZ.
  rewrite Z.shiftl_1_l. rewrite Z.add_0_l in Hc'. lia.
Qed.

Lemma modifiers_for_level_None key_type level current keys pressed :
  len keys < 16 → modifiers_for_level key_type level current keys = None →
  pressed `sublist_of` keys →
  level_for_modifiers key_type (pressed_bits current pressed) ≠ level.
Proof.
  intros Hlen. unfold modifiers_for_level. rewrite (proj2 (Z.ltb_lt _ _)) by done.
  cbn [mbind option_bind]. intros Hn%fmap_None%min_by_None Hsub Hl.
  destruct (sublist_held 0 current [] keys pressed) as (c & Hc & _ & Heq); [lia|done|].
  assert ((modifier_keycode <$> pressed, pressed_bits current pressed) ∈ @nil (list Z * Z)) as Hin;
    [|by apply not_elem_of_nil in Hin].
  rewrite <- Hn. apply list_elem_of_filter. split; [done|].
  apply list_elem_of_fmap. exists c. split; [by rewrite Heq|]. apply elem_of_seqZ.
  rewrite Z.shiftl_1_l. rewrite Z.add_0_l in Hc. lia.
Qed.

(** ** The modifier keys of a map *)

Lemma momentary_loop_spec map keys entries :
  len keys ≤ MAX_MOMENTARY_MODIFIERS →
  NoDup (modifier_modifiers <$> keys) →
  len (momentary_loop map keys entries) ≤ MAX_MOMENTARY_MODIFIERS ∧
  NoDup (modifier_modifiers <$> momentary_loop map keys entries) ∧
  ∀ k, k ∈ momentary_loop map keys entries → k ∈ keys ∨
    ∃ entry, entry ∈ entries ∧ modifier_keycode k = modmap_keycode entry ∧
      modifier_modifiers k = modmap_mods entry ∧ is_u8 (modmap_mods entry).
Proof.
  revert keys. induction entries as [|entry entries IH]; intros keys Hlen Hnd; cbn [momentary_loop].
  { split_and!; [done..|]. by left. }
  assert (∀ l, l = momentary_loop map keys entries →
    len l ≤ MAX_MOMENTARY_MODIFIERS ∧ NoDup (modifier_modifiers <$> l) ∧
    ∀ k, k ∈ l → k ∈ keys ∨ ∃ e, e ∈ entry :: entries ∧ modifier_keycode k = modmap_keycode e ∧
      modifier_modifiers k = modmap_mods e ∧ is_u8 (modmap_mods e)) as Hskip.
  { intros l ->. destruct (IH keys Hlen Hnd) as (? & ? & Hk). split_and!; [done..|].
    intros k [?|(e & ? & ?)]%Hk; [by left|]. right. exists e. by split; [right|]. }
  unfold modifier_bits, ok_or. destruct (checked_in _ _ _) as [bits|] eqn:Hbits; [|by apply Hskip].
  apply checked_in_Some in Hbits as [-> Hbits].
  case_match; [by apply Hskip|]. case_match eqn:Hex; [by apply Hskip|].
  case_match; [split_and!; [done..|]; by left|]. bool_props.
  destruct (IH (keys ++ [{| modifier_keycode := modmap_keycode entry;
                            modifier_modifiers := modmap_mods entry |}])) as (? & ? & Hk).
  - rewrite len_app. unfold len in *. cbn. lia.
  - rewrite fmap_app. apply NoDup_app. split; [done|]. split; [|apply NoDup_singleton].
    intros x (k & -> & Hin)%list_elem_of_fmap Hx%list_elem_of_singleton. cbn in Hx.
    apply not_true_iff_false in Hex. apply Hex, existsb_exists. exists k.
    split; [by apply list_elem_of_In|]. by apply Z.eqb_eq.
  - split_and!; [done..|]. intros k [[?| ->%list_elem_of_singleton]%elem_of_app|(e & ? & ?)]%Hk.
    + by left.
    + right. exists entry. cbn. split_and!; [by left|done|done|unfold is_u8; lia].
    + right. exists e. by split; [right|].
Qed.

(** What the X server makes of held keys: their entries of the modifier map. *)
Definition keycode_bits (map : KeyboardMap) (keycode : Z) : Z :=
  default 0 (modmap_mods <$> head (filter (λ entry, modmap_keycode entry = keycode)
                                     (map_modifier_map map))).

Definition effective_modifiers (map : KeyboardMap) (keycodes : list Z) : Z :=
  fold_left (λ bits keycode, Z.lor bits (keycode_bits map keycode)) keycodes
    (state_mods (map_state map)).

(** Each key has one entry in the modifier map. *)
Definition one_entry_per_key (map : KeyboardMap) : Prop :=
  NoDup (modmap_keycode <$> map_modifier_map map).

Lemma keycode_bits_entry map entry :
  one_entry_per_key map → entry ∈ map_modifier_map map →
  keycode_bits map (modmap_keycode entry) = modmap_mods entry.
Proof.
  unfold one_entry_per_key, keycode_bits. induction (map_modifier_map map) as [|e l IH];
    [by intros _ ?%not_elem_of_nil|]. cbn [fmap list_fmap].
  intros [Hn Hnd]%NoDup_cons [->|Hin]%elem_of_cons; rewrite filter_cons.
  - by rewrite decide_True.
  - rewrite decide_False; [by apply IH|]. intros Heq. apply Hn. rewrite Heq.
    apply list_elem_of_fmap. eauto.
Qed.

(** A key of the map used as a modifier. *)
Definition modifier_of (map : KeyboardMap) (key : ModifierKey) : Prop :=
  ∃ entry, entry ∈ map_modifier_map map ∧ modifier_keycode key = modmap_keycode entry ∧
    modifier_modifiers key = modmap_mods entry ∧ is_u8 (modmap_mods entry).

Lemma modifier_of_bits map key :
  one_entry_per_key map → modifier_of map key →
  keycode_bits map (modifier_keycode key) = modifier_modifiers key.
Proof. intros Hone (entry & ? & -> & -> & _). by apply keycode_bits_entry. Qed.

Lemma momentary_keys map :
  len (momentary_modifier_keys map) < 16 ∧
  NoDup (modifier_modifiers <$> momentary_modifier_keys map) ∧
  ∀ k, k ∈ momentary_modifier_keys map → modifier_of map k.
Proof.
  destruct (momentary_loop_spec map [] (map_modifier_map map)) as (Hlen & ? & Hk);
    [done|constructor|]. unfold momentary_modifier_keys, MAX_MOMENTARY_MODIFIERS in *.
  split_and!; [lia|done|]. by intros k [?%not_elem_of_nil|?]%Hk.
Qed.

(** Keys that share a keycode share their bits, so distinct bits are distinct keycodes. *)
Lemma modifiers_NoDup_keycodes map keys :
  one_entry_per_key map → (∀ k, k ∈ keys → modifier_of map k) →
  NoDup (modifier_modifiers <$> keys) → NoDup (modifier_keycode <$> keys).
Proof.
  intros Hone. induction keys as [|k keys IH]; intros Hof; [constructor|]. cbn [fmap list_fmap].
  intros [Hn Hnd]%NoDup_cons. constructor; [|apply IH; [|done]; intros; apply Hof; by right].
  intros (k' & Heq & Hin)%list_elem_of_fmap. apply Hn, list_elem_of_fmap.
  exists k'. split; [|done]. rewrite <- !(modifier_of_bits map) by
    (done || apply Hof; (by left) || by right). by rewrite Heq.
Qed.

(** ** Rows and levels *)

Lemma enumerate_elem {A} (l : list A) i a :
  (i, a) ∈ enumerate l ↔ 0 ≤ i ∧ l !! Z.to_nat i = Some a.
Proof.
  unfold enumerate. rewrite list_elem_of_lookup. setoid_rewrite lookup_zip_with. split.
  - intros (j & Hj). destruct (seqZ 0 (len l) !! j) as [x|] eqn:Hx; [|done]. cbn in Hj.
    destruct (l !! j) eqn:Hl; [|done]. simplify_eq/=. apply lookup_seqZ in Hx as [-> ?].
    split; [lia|]. by rewrite Z.add_0_l, Nat2Z.id.
  - intros [Hi Hl]. exists (Z.to_nat i). pose proof (lookup_lt_Some _ _ _ Hl).
    rewrite Hl, lookup_seqZ_lt by (unfold len; lia). cbn. do 2 f_equal. lia.
Qed.

Lemma take_enumerate_elem {A} (l : list A) n i a :
  (i, a) ∈ take n (enumerate l) ↔ 0 ≤ i ∧ l !! Z.to_nat i = Some a ∧ i < Z.of_nat n.
Proof.
  rewrite elem_of_take. split.
  - intros (j & Hj & Hlt). assert ((i, a) ∈ enumerate l) as Hin by (eapply list_elem_of_lookup_2, Hj).
    apply enumerate_elem in Hin as [? ?]. unfold enumerate in Hj. rewrite lookup_zip_with in Hj.
    destruct (seqZ 0 (len l) !! j) as [x|] eqn:Hx; [|done]. cbn in Hj.
    destruct (l !! j); [|done]. simplify_eq/=. apply lookup_seqZ in Hx as [-> ?].
    rewrite Z.add_0_l, Nat2Z.id in *. split_and!; done || lia.
  - intros (Hi & Hl & Hn). exists (Z.to_nat i). split; [|lia]. unfold enumerate.
    rewrite lookup_zip_with. pose proof (lookup_lt_Some _ _ _ Hl).
    rewrite Hl, lookup_seqZ_lt by (unfold len; lia). cbn. do 2 f_equal. lia.
Qed.

Lemma get_range_lookup {A} from to (l r : list A) i :
  0 ≤ from → get_range from to l = Some r → 0 ≤ i →
  r !! Z.to_nat i = (if i <? to - from then l !! Z.to_nat (from + i) else None).
Proof.
  unfold get_range. intros Hf Hr Hi. case_match eqn:Hc; [|done]. bool_props.
  injection Hr as <-. destruct (Z.ltb_spec i (to - from)).
  - rewrite lookup_take_lt, lookup_drop by lia. f_equal. lia.
  - apply lookup_take_ge. lia.
Qed.

(** Where the server finds the symbol of a key at a level of its type. *)
Definition symbol_at (map : KeyboardMap) (row : nat) (key_type : KeyType) (level symbol : Z) : Prop :=
  ∃ key group index,
    map_symbols map !! row = Some key ∧
    normalized_group (sym_group_info key) (state_group (map_state map)) = Some group ∧
    sym_kt_index key !! Z.to_nat group = Some index ∧
    map_types map !! Z.to_nat index = Some key_type ∧
    0 ≤ level < Z.min (sym_width key) (type_num_levels key_type) ∧
    group * sym_width key + sym_width key ≤ len (sym_syms key) ∧
    sym_syms key !! Z.to_nat (group * sym_width key + level) = Some symbol.

(** The key of a row, if keycodes reach that far. *)
Definition keycode_at (map : KeyboardMap) (row : nat) : Z := map_minimum map + Z.of_nat row.

(** The wire types of the reply. *)
Definition map_typed (map : KeyboardMap) : Prop :=
  Forall (λ key, is_u8 (sym_group_info key) ∧ is_u8 (sym_width key)) (map_symbols map) ∧
  Forall (λ key_type, is_u8 (type_num_levels key_type)) (map_types map) ∧
  is_u8 (state_group (map_state map)) ∧ is_u8 (map_minimum map) ∧
  map_minimum map + len (map_symbols map) ≤ 256.

(** The lock modifiers in effect do not disturb a key of this type. *)
Definition undisturbed (current safe requested_bits : Z) (key_type : KeyType) : Prop :=
  is_u8 (type_mods_mask key_type) ∧
  Z.ldiff current (Z.lor (Z.lor (type_mods_mask key_type) safe) requested_bits) = 0.

Lemma key_strokes_elem keycode wanted current key_type momentary requested_keys symbols s :
  is_u8 (type_num_levels key_type) →
  s ∈ key_strokes keycode wanted current key_type momentary requested_keys symbols ↔
  ∃ level keycodes, 0 ≤ level < type_num_levels key_type ∧ symbols !! Z.to_nat level = Some wanted ∧
    modifiers_for_level key_type level current momentary = Some keycodes ∧
    s = {| stroke_keycode := keycode; stroke_modifiers := push_new requested_keys keycodes |}.
Proof.
  intros Hn. unfold key_strokes. rewrite list_elem_of_omap. split.
  - intros ([level symbol] & Hin & Hs). apply list_elem_of_filter in Hin as [Hw Hin]. cbn in Hw.
    apply take_enumerate_elem in Hin as (? & ? & ?).
    destruct (checked_in 0 255 level) as [l|] eqn:Hl; [|done]. apply checked_in_Some in Hl as [-> ?].
    cbn in Hs. apply fmap_Some in Hs as (keycodes & ? & ->). exists level, keycodes.
    int_bounds. subst symbol. split_and!; try done; lia.
  - intros (level & keycodes & Hl & Hw & Hk & ->). exists (level, wanted). split.
    + apply list_elem_of_filter. split; [done|]. apply take_enumerate_elem. split_and!; try done; lia.
    + int_bounds. rewrite (proj2 (checked_in_Some 0 255 level level)) by lia. cbn. by rewrite Hk.
Qed.

Lemma normalized_group_bound group_info effective group :
  0 ≤ group_info → 0 ≤ effective → normalized_group group_info effective = Some group → 0 ≤ group < 16.
Proof.
  intros Hi He. unfold normalized_group.
  assert (0 ≤ Z.land group_info 15 < 16) as Hc.
  { change 15 with (Z.ones 4). rewrite Z.land_ones by lia. apply Z.mod_pos_bound. lia. }
  case_match; [done|]. bool_props. case_match; [bool_props; intros [= <-]; lia|].
  case_match; [intros [= <-]; pose proof (Z.mod_pos_bound effective (Z.land group_info 15)); lia|].
  case_match; [intros [= <-]; lia|]. case_match; [|done]. case_match; [|done]. intros [= <-].
  bool_props. split; [|lia]. apply Z.shiftr_nonneg, Z.land_nonneg. by left.
Qed.

(** ** Held keys and the modifiers in effect *)

Lemma pressed_bits_spec effective keys n :
  Z.testbit (pressed_bits effective keys) n
  = Z.testbit effective n || existsb (λ key, Z.testbit (modifier_modifiers key) n) keys.
Proof.
  unfold pressed_bits. revert effective. induction keys as [|k keys IH]; intros e; cbn.
  - by rewrite orb_false_r.
  - rewrite IH, Z.lor_spec. by rewrite orb_assoc.
Qed.

Lemma effective_modifiers_spec map keycodes n :
  Z.testbit (effective_modifiers map keycodes) n
  = Z.testbit (state_mods (map_state map)) n
    || existsb (λ keycode, Z.testbit (keycode_bits map keycode) n) keycodes.
Proof.
  unfold effective_modifiers. generalize (state_mods (map_state map)) as e.
  induction keycodes as [|k keycodes IH]; intros e; cbn.
  - by rewrite orb_false_r.
  - rewrite IH, Z.lor_spec. by rewrite orb_assoc.
Qed.

Lemma push_new_elem all keycodes k : k ∈ push_new all keycodes ↔ k ∈ all ∨ k ∈ keycodes.
Proof.
  revert all. induction keycodes as [|c keycodes IH]; intros all; cbn [push_new]; [set_solver|].
  rewrite IH. case_bool_decide; set_solver.
Qed.

Lemma push_new_NoDup all keycodes : NoDup all → NoDup (push_new all keycodes).
Proof.
  revert all. induction keycodes as [|c keycodes IH]; intros all Hall; cbn [push_new]; [done|].
  apply IH. case_bool_decide; [done|]. apply NoDup_app. split; [done|].
  split; [set_solver|apply NoDup_singleton].
Qed.

Lemma push_new_disjoint all keycodes :
  NoDup keycodes → (∀ k, k ∈ keycodes → k ∉ all) → push_new all keycodes = all ++ keycodes.
Proof.
  revert all. induction keycodes as [|c keycodes IH]; intros all; cbn [push_new].
  { by rewrite app_nil_r. }
  intros [Hc Hnd]%NoDup_cons Hdis. rewrite bool_decide_false by (apply Hdis; by left).
  rewrite IH; [by rewrite <- (assoc_L (++))|done|]. intros k Hk [Hk'|Hk'%list_elem_of_singleton]%elem_of_app.
  - by apply (Hdis k); [right|].
  - congruence.
Qed.

(** The server computes the modifiers of a stroke as the resolution did. *)
Lemma effective_stroke map requested pressed :
  one_entry_per_key map →
  (∀ k, k ∈ requested ++ pressed → modifier_of map k) →
  effective_modifiers map
    (push_new (modifier_keycode <$> requested) (modifier_keycode <$> pressed))
  = pressed_bits (pressed_bits (state_mods (map_state map)) requested) pressed.
Proof.
  intros Hone Hof. apply Z.bits_inj'. intros n _.
  rewrite effective_modifiers_spec, !pressed_bits_spec, <- orb_assoc. f_equal.
  rewrite <- existsb_app. apply eq_true_iff_eq. rewrite !existsb_exists. split.
  - intros (c & Hc%list_elem_of_In%push_new_elem & Hbit).
    assert (∃ k, k ∈ requested ++ pressed ∧ c = modifier_keycode k) as (k & Hk & ->).
    { destruct Hc as [(k & ? & ?)%list_elem_of_fmap|(k & ? & ?)%list_elem_of_fmap];
        exists k; set_solver. }
    exists k. split; [by apply list_elem_of_In|]. by rewrite <- (modifier_of_bits map) by auto.
  - intros (k & Hk%list_elem_of_In & Hbit). exists (modifier_keycode k). split.
    + apply list_elem_of_In, push_new_elem.
      apply elem_of_app in Hk as [?|?]; [left|right]; by apply list_elem_of_fmap_2.
    + by rewrite modifier_of_bits by auto.
Qed.

(** ** The requested modifiers *)

Definition answers (map : KeyboardMap) (modifier : KeyboardModifier) (key : ModifierKey) : Prop :=
  modifier_of map key ∧ modifier_modifiers key ≠ 0 ∧
  key_has_any_symbol map (modifier_keycode key) (modifier_symbols modifier) = true.

Lemma modifier_key_Ok map modifier key :
  modifier_key map modifier = Ok key → answers map modifier key.
Proof.
  unfold modifier_key, ok_or. destruct (head _) as [k|] eqn:Hh; [|done]. intros [= <-].
  assert (k ∈ omap (modifier_entry map (modifier_symbols modifier)) (map_modifier_map map)) as Hin
    by (destruct (omap _ _); [done|cbn in Hh; simplify_eq; by left]).
  apply list_elem_of_omap in Hin as (entry & Hentry & Hk). unfold modifier_entry in Hk.
  unfold modifier_bits, ok_or in Hk. destruct (checked_in _ _ _) as [bits|] eqn:Hbits; [|done].
  apply checked_in_Some in Hbits as [-> Hbits]. cbn in Hk. case_match; [|done]. bool_props.
  injection Hk as <-. split; [|split; [|done]].
  - exists entry. cbn. split_and!; [done..|unfold is_u8; lia].
  - cbn. intros Hz. rewrite Hz in *. by match goal with H : count_ones 0 = _ |- _ => vm_compute in H end.
Qed.

Lemma request_modifiers_Ok map bits keys requested bits' keys' :
  request_modifiers map bits keys requested = Ok (bits', keys') →
  ∃ ks, keys' = keys ++ (modifier_keycode <$> ks) ∧ bits' = pressed_bits bits ks ∧
    Forall2 (answers map) requested ks ∧
    NoDup (modifier_modifiers <$> ks) ∧ Forall (λ k, Z.land bits (modifier_modifiers k) = 0) ks.
Proof.
  revert bits keys. induction requested as [|m requested IH]; intros bits keys; cbn [request_modifiers].
  { intros [= <- <-]. exists []. rewrite app_nil_r. split_and!; constructor || done. }
  destruct (modifier_key map m) as [key|] eqn:Hkey; [|done]. cbn [and_then].
  case_match eqn:Hb; [done|]. bool_props.
  intros (ks & -> & -> & Hans & Hnd & Hall)%IH. apply modifier_key_Ok in Hkey as Hans0.
  exists (key :: ks). rewrite <- (assoc_L (++)).
  assert (∀ k, k ∈ ks → Z.land bits (modifier_modifiers k) = 0 ∧
                        Z.land (modifier_modifiers key) (modifier_modifiers k) = 0) as Hdis.
  { intros k Hk. rewrite Forall_forall in Hall. specialize (Hall k Hk).
    rewrite Z.land_lor_distr_l in Hall. by apply Z.lor_eq_0_iff in Hall. }
  split_and!; [done|done|by constructor| |].
  - constructor; [|done]. intros (k & Heq & Hk)%list_elem_of_fmap. destruct (Hdis k Hk) as [_ H0].
    rewrite <- Heq, Z.land_diag in H0. by destruct Hans0 as (_ & ? & _).
  - constructor; [done|]. apply Forall_forall. intros k Hk. by apply Hdis.
Qed.

(** ** One row of the map *)

Section row.
Context (map : KeyboardMap) (Htyped : map_typed map).
Context (wanted current safe requested_bits : Z) (requested_keys : list Z).
Context (momentary : list ModifierKey).

(** A way to the symbol: a level of the key at [row] and the modifier keys to hold. *)
Definition way (row : nat) (pressed : list ModifierKey) : Prop :=
  ∃ key_type level, symbol_at map row key_type level wanted ∧
    undisturbed current safe requested_bits key_type ∧ pressed `sublist_of` momentary ∧
    level_for_modifiers key_type (pressed_bits current pressed) = level.

Definition stroke_of (row : nat) (pressed : list ModifierKey) : KeyStroke :=
  {| stroke_keycode := keycode_at map row;
     stroke_modifiers := push_new requested_keys (modifier_keycode <$> pressed) |}.

Notation the_row row key :=
  (row_stroke map wanted (state_group (map_state map)) current safe requested_bits
     requested_keys momentary row key).

(** What [row_stroke] has established when it turns to the levels of the key. *)
Lemma row_levels row key key_type level :
  map_symbols map !! row = Some key → symbol_at map row key_type level wanted →
  undisturbed current safe requested_bits key_type →
  ∃ symbols, symbols !! Z.to_nat level = Some wanted ∧
    (∀ l, 0 ≤ l → symbols !! Z.to_nat l = Some wanted → l < type_num_levels key_type →
          symbol_at map row key_type l wanted) ∧
    the_row (Z.of_nat row) key
    = min_by fewer_modifiers (key_strokes (keycode_at map row) wanted current key_type momentary
                                requested_keys symbols).
Proof.
  destruct Htyped as (Hsyms & Htypes & Hgroup & Hmin & Hmax).
  intros Hrow (key' & group & index & Hrow' & Hg & Hi & Ht & Hlevel & Hfit & Hw) [Hmask Hld].
  simplify_eq. rewrite Forall_lookup in Hsyms. destruct (Hsyms _ _ Hrow) as [Hinfo Hwidth].
  apply lookup_lt_Some in Hrow as Hlt. int_bounds. unfold len in Hmax.
  destruct (normalized_group_bound _ _ _ (proj1 Hinfo) (proj1 Hgroup) Hg) as [Hg0 Hg1].
  assert (0 ≤ group * sym_width key < 4096) as Hstart by nia.
  unfold row_stroke, keycode_at, modifier_bits, checked_u64.
  rewrite (checked_in_intro 0 255 (Z.of_nat row)) by lia. cbn [mbind option_bind].
  rewrite (checked_in_intro 0 255 (map_minimum map + _)) by lia. cbn [mbind option_bind].
  rewrite Hg. cbn [mbind option_bind]. rewrite Hi. cbn [mbind option_bind].
  rewrite Ht. cbn [mbind option_bind].
  rewrite (checked_in_intro 0 255 (type_mods_mask _)) by lia.
  cbn [ok_or result_ok mbind option_bind]. rewrite Hld, Z.eqb_refl. cbn [negb].
  rewrite (checked_in_intro 0 U64_MAX (group * _)) by (int_bounds; lia). cbn [mbind option_bind].
  rewrite (checked_in_intro 0 U64_MAX (_ + _)) by (int_bounds; lia). cbn [mbind option_bind].
  destruct (get_range _ _ _) as [symbols|] eqn:Hr; cbn [mbind option_bind].
  2: { unfold get_range in Hr. rewrite (proj2 (Z.leb_le _ _)), (proj2 (Z.leb_le _ _)) in Hr by lia. done. }
  assert (∀ l, 0 ≤ l → symbols !! Z.to_nat l
               = if l <? sym_width key then sym_syms key !! Z.to_nat (group * sym_width key + l) else None)
    as Hlook.
  { intros l Hl. rewrite (get_range_lookup _ _ _ _ _ (proj1 Hstart) Hr Hl).
    by replace (group * sym_width key + sym_width key - group * sym_width key)
      with (sym_width key) by lia. }
  exists symbols. split; [|split; [|done]].
  - rewrite Hlook by lia. by rewrite (proj2 (Z.ltb_lt _ _)) by lia.
  - intros l Hl. rewrite Hlook by done. case_match; [|done]. bool_props. intros.
    exists key, group, index. split_and!; done || lia.
Qed.

Lemma push_new_length all keycodes :
  (length (push_new all keycodes) ≤ length all + length keycodes)%nat.
Proof.
  revert all. induction keycodes as [|c l IH]; intros all; cbn [push_new length]; [lia|].
  specialize (IH (if bool_decide (c ∈ all) then all else all ++ [c])).
  case_bool_decide; rewrite ?length_app in *; cbn in *; lia.
Qed.

(** The row answers with a way, and with the cheapest. *)
Lemma row_stroke_Some row key s :
  map_symbols map !! row = Some key → the_row (Z.of_nat row) key = Some s →
  ∃ pressed, way row pressed ∧ s = stroke_of row pressed.
Proof.
  intros Hrow Hs. pose proof Htyped as (Hsyms & Htypes & Hgroup & Hmin & _).
  rewrite Forall_lookup in Hsyms. destruct (Hsyms _ _ Hrow) as [Hinfo Hwidth].
  unfold row_stroke, modifier_bits, checked_u64 in Hs.
  destruct (checked_in 0 255 (Z.of_nat row)) as [row'|] eqn:Hr; [|done].
  apply checked_in_Some in Hr as [-> ?]. cbn [mbind option_bind] in Hs.
  destruct (checked_in 0 255 (map_minimum map + _)) as [keycode|] eqn:Hk; [|done].
  apply checked_in_Some in Hk as [-> ?]. cbn [mbind option_bind] in Hs.
  destruct (normalized_group _ _) as [group|] eqn:Hg; [|done]. cbn [mbind option_bind] in Hs.
  destruct (sym_kt_index key !! _) as [index|] eqn:Hi; [|done]. cbn [mbind option_bind] in Hs.
  destruct (map_types map !! _) as [key_type|] eqn:Ht; [|done]. cbn [mbind option_bind] in Hs.
  destruct (checked_in 0 255 (type_mods_mask key_type)) as [mask|] eqn:Hm; [|done].
  apply checked_in_Some in Hm as [-> ?]. cbn [ok_or result_ok mbind option_bind] in Hs.
  case_match eqn:Hld; [done|]. bool_props.
  destruct (checked_in 0 U64_MAX (group * _)) as [start|] eqn:Hst; [|done].
  apply checked_in_Some in Hst as [-> ?]. cbn [mbind option_bind] in Hs.
  destruct (checked_in 0 U64_MAX (_ + _)) as [until|] eqn:Hu; [|done].
  apply checked_in_Some in Hu as [-> ?]. cbn [mbind option_bind] in Hs.
  destruct (get_range _ _ _) as [symbols|] eqn:Hrange; [|done]. cbn [mbind option_bind] in Hs.
  apply min_by_strokes in Hs as [Hs _].
  rewrite Forall_lookup in Htypes. pose proof (Htypes _ _ Ht) as Hlevels.
  apply key_strokes_elem in Hs as (level & keycodes & Hl & Hw & Hmods & ->); [|done].
  rewrite (get_range_lookup _ _ _ _ _ (proj1 H2) Hrange (proj1 Hl)) in Hw.
  case_match eqn:Hlt; [|done]. bool_props.
  apply modifiers_for_level_Some in Hmods as (pressed & Hsub & -> & Hlev & _).
  exists pressed. split; [|done]. exists key_type, level. split_and!; try done.
  - exists key, group, index. split_and!; try done; try lia.
    unfold get_range in Hrange. case_match eqn:Hc; [|done]. bool_props. lia.
  - split; [unfold is_u8; lia|done].
Qed.

Lemma row_stroke_cheapest row key pressed :
  len momentary < 16 →
  map_symbols map !! row = Some key → way row pressed →
  ∃ s, the_row (Z.of_nat row) key = Some s ∧
    (length (stroke_modifiers s) ≤ length requested_keys + length pressed)%nat.
Proof.
  intros Hlen Hrow (key_type & level & Hat & Hun & Hsub & Hlev).
  pose proof Hat as (? & ? & ? & ? & ? & ? & Ht & Hl & _).
  destruct (row_levels row key key_type level Hrow Hat Hun) as (symbols & Hw & _ & ->).
  destruct Htyped as (_ & Htypes & _). rewrite Forall_lookup in Htypes.
  pose proof (Htypes _ _ Ht) as Hlevels.
  destruct (modifiers_for_level key_type level current momentary) as [keycodes|] eqn:Hmods.
  2: { by destruct (modifiers_for_level_None _ _ _ _ pressed Hlen Hmods Hsub). }
  apply modifiers_for_level_Some in Hmods as Hspec.
  destruct Hspec as (p & _ & _ & _ & Hleast). specialize (Hleast pressed Hsub Hlev).
  assert ({| stroke_keycode := keycode_at map row; stroke_modifiers := push_new requested_keys keycodes |}
    ∈ key_strokes (keycode_at map row) wanted current key_type momentary requested_keys symbols) as Hin.
  { apply key_strokes_elem; [done|]. exists level, keycodes. split_and!; done || lia. }
  destruct (min_by fewer_modifiers _) as [s|] eqn:Hmin.
  - exists s. split; [done|]. apply min_by_strokes in Hmin as [_ Hmin]. specialize (Hmin _ Hin).
    cbn in Hmin. pose proof (push_new_length requested_keys keycodes). lia.
  - apply min_by_None in Hmin. rewrite Hmin in Hin. by apply not_elem_of_nil in Hin.
Qed.
End row.

(** ** Properties *)

(** What a resolution starts from: the state is released, the requested modifiers have
    keys, and the locked modifiers that may stay are known. *)
Definition released (map : KeyboardMap) : Prop :=
  state_base_mods (map_state map) = 0 ∧ state_latched_mods (map_state map) = 0 ∧
  state_base_group (map_state map) = 0 ∧ state_latched_group (map_state map) = 0.

(** A way of pressing keys to get [wanted] with the requested keys [ks] held. *)
Definition solves (map : KeyboardMap) (wanted : Z) (ks : list ModifierKey) (row : nat)
    (pressed : list ModifierKey) : Prop :=
  ∃ safe, safe_locked_modifiers map = Ok safe ∧
    way map wanted (pressed_bits (state_mods (map_state map)) ks) safe (pressed_bits 0 ks)
      (momentary_modifier_keys map) row pressed.

Lemma pressed_bits_lor a b keys :
  pressed_bits (Z.lor a b) keys = Z.lor a (pressed_bits b keys).
Proof.
  apply Z.bits_inj'. intros n _. by rewrite Z.lor_spec, !pressed_bits_spec, Z.lor_spec, orb_assoc.
Qed.

(** No earlier failure is mistaken for an unavailable symbol. *)
Lemma modifier_bits_Err mask e :
  modifier_bits mask = Err e → Failure_message e ≠ SYMBOL_UNAVAILABLE.
Proof. unfold modifier_bits. destruct (checked_in _ _ _); by intros [= <-]. Qed.

Lemma modifier_bits_Ok mask bits : modifier_bits mask = Ok bits → bits = mask.
Proof.
  unfold modifier_bits. destruct (checked_in _ _ _) eqn:Hc; [|done].
  apply checked_in_Some in Hc as [-> _]. by intros [= <-].
Qed.

Lemma request_modifiers_Err map bits keys requested e :
  request_modifiers map bits keys requested = Err e → Failure_message e ≠ SYMBOL_UNAVAILABLE.
Proof.
  revert bits keys. induction requested as [|m requested IH]; intros bits keys;
    cbn [request_modifiers]; [done|].
  unfold modifier_key. destruct (head _); cbn [ok_or and_then]; [|by intros [= <-]].
  case_match; [by intros [= <-]|]. apply IH.
Qed.

Lemma safe_locked_modifiers_Err map e :
  safe_locked_modifiers map = Err e → Failure_message e ≠ SYMBOL_UNAVAILABLE.
Proof.
  unfold safe_locked_modifiers.
  destruct (modifier_bits _) as [|e'] eqn:Hb; cbn [and_then];
    [|intros [= <-]; by eapply modifier_bits_Err].
  destruct (safe_loop map 0 _) as [|e'] eqn:Hloop; [done|]. intros [= <-]. revert Hloop.
  generalize 0. induction (map_modifier_map map) as [|entry l IH]; intros safe; [done|].
  cbn [safe_loop]. destruct (modifier_bits (modmap_mods entry)) as [|e''] eqn:Hb'; cbn [and_then];
    [apply IH|].
  intros [= <-]. by eapply modifier_bits_Err.
Qed.

(** What [resolve_with_modifiers] does, in terms of [solves]. *)
Lemma resolve_cases map wanted requested :
  map_typed map →
  (∃ ks row pressed stroke, resolve_with_modifiers map wanted requested = Ok stroke ∧
     released map ∧ Forall2 (answers map) requested ks ∧ NoDup (modifier_modifiers <$> ks) ∧
     solves map wanted ks row pressed ∧ stroke = stroke_of map (modifier_keycode <$> ks) row pressed ∧
     ∀ row' pressed', solves map wanted ks row' pressed' →
       (length (stroke_modifiers stroke) ≤ length requested + length pressed')%nat) ∨
  (∃ ks, resolve_with_modifiers map wanted requested = Err (Failure_invalid SYMBOL_UNAVAILABLE) ∧
     Forall2 (answers map) requested ks ∧ ∀ row pressed, ¬ solves map wanted ks row pressed) ∨
  (∃ e, resolve_with_modifiers map wanted requested = Err e ∧ Failure_message e ≠ SYMBOL_UNAVAILABLE).
Proof.
  intros Htyped. unfold resolve_with_modifiers.
  destruct (_ || _ || _ || _) eqn:Hrel; [right; right; by eexists|].
  assert (released map) as Hreleased by (bool_props; by split_and!).
  destruct (request_modifiers map 0 [] requested) as [[bits keys]|e] eqn:Hreq; cbn [and_then].
  2: { right. right. exists e. split; [done|]. by eapply request_modifiers_Err. }
  apply request_modifiers_Ok in Hreq as (ks & -> & -> & Hans & Hnd & _).
  destruct (modifier_bits (state_mods (map_state map))) as [mods|e] eqn:Hmods; cbn [and_then].
  2: { right. right. exists e. split; [done|]. by eapply modifier_bits_Err. }
  apply modifier_bits_Ok in Hmods as ->.
  destruct (safe_locked_modifiers map) as [safe|e] eqn:Hsafe; cbn [and_then].
  2: { right. right. exists e. split; [done|]. by eapply safe_locked_modifiers_Err. }
  rewrite app_nil_l, <- pressed_bits_lor, Z.lor_0_r.
  destruct (momentary_keys map) as (Hlen & _ & _).
  pose proof (Forall2_length _ _ _ Hans) as Hcount.
  assert (∀ row pressed, solves map wanted ks row pressed →
    ∃ s, s ∈ omap (λ '(row, key), row_stroke map wanted (state_group (map_state map))
               (pressed_bits (state_mods (map_state map)) ks) safe (pressed_bits 0 ks)
               (modifier_keycode <$> ks) (momentary_modifier_keys map) row key)
             (enumerate (map_symbols map)) ∧
      (length (stroke_modifiers s) ≤ length requested + length pressed)%nat) as Hall.
  { intros row pressed (safe' & Hsafe' & Hway). rewrite Hsafe in Hsafe'. injection Hsafe' as <-.
    pose proof Hway as (? & ? & (key & ? & ? & Hrow & _) & _).
    destruct (row_stroke_cheapest map Htyped wanted _ _ _ (modifier_keycode <$> ks)
                (momentary_modifier_keys map) row key pressed Hlen Hrow Hway) as (s & Hs & Hle).
    exists s. rewrite length_fmap in Hle. split; [|lia]. apply list_elem_of_omap.
    exists (Z.of_nat row, key). split; [|done]. apply enumerate_elem. rewrite Nat2Z.id.
    split; [lia|done]. }
  destruct (min_by fewer_modifiers _) as [stroke|] eqn:Hmin; cbn [ok_or].
  - left. apply min_by_strokes in Hmin as [Hin Hmin].
    apply list_elem_of_omap in Hin as ([row key] & [Hrow0 Hrow]%enumerate_elem & Hstroke).
    rewrite <- (Z2Nat.id row Hrow0) in Hstroke.
    apply (row_stroke_Some map Htyped) in Hstroke as (pressed & Hway & ->); [|done].
    exists ks, (Z.to_nat row), pressed. eexists. split_and!; try done.
    + by exists safe.
    + intros row' pressed' (s & Hs & Hle)%Hall. specialize (Hmin _ Hs). lia.
  - right. left. exists ks. split_and!; [done..|]. intros row pressed (s & Hs & _)%Hall.
    apply min_by_None in Hmin. rewrite Hmin in Hs. by apply not_elem_of_nil in Hs.
Qed.

(** A resolved stroke does what it is for.  If the server keeps one modifier-map entry per
    key, then with the stroke's modifier keys held (and the locked modifiers as they are) the
    stroke's key selects the wanted symbol in the current group; every requested modifier is
    among the held keys; and no key is held twice. *)
Theorem resolved_stroke_selects map wanted requested stroke :
  map_typed map → one_entry_per_key map →
  resolve_with_modifiers map wanted requested = Ok stroke →
  NoDup (stroke_modifiers stroke) ∧
  (∃ row key_type, stroke_keycode stroke = keycode_at map row ∧
     symbol_at map row key_type
       (level_for_modifiers key_type (effective_modifiers map (stroke_modifiers stroke))) wanted) ∧
  (∀ modifier, modifier ∈ requested → ∃ keycode, keycode ∈ stroke_modifiers stroke ∧
     key_has_any_symbol map keycode (modifier_symbols modifier) = true).
Proof.
  intros Htyped Hone Hres.
  destruct (resolve_cases map wanted requested Htyped)
    as [(ks & row & pressed & s & Hres' & _ & Hans & Hnd & Hsolves & -> & _)
       |[(ks & Herr & _)|(e & Herr & _)]]; [|congruence..].
  rewrite Hres in Hres'. injection Hres' as ->. cbn [stroke_modifiers stroke_keycode stroke_of].
  assert (∀ k, k ∈ ks → modifier_of map k) as Hof.
  { intros k Hk. apply list_elem_of_lookup in Hk as (i & Hi).
    destruct (Forall2_lookup_r _ _ _ _ _ Hans Hi) as (m & _ & Ha & _). done. }
  destruct Hsolves as (safe & _ & key_type & level & Hat & _ & Hsub & Hlev).
  split; [|split].
  - by apply push_new_NoDup, (modifiers_NoDup_keycodes map).
  - exists row, key_type. split; [done|]. rewrite effective_stroke; [by rewrite Hlev|done|].
    intros k [Hk|Hk]%elem_of_app; [by apply Hof|]. apply momentary_keys.
    by eapply elem_of_sublist.
  - intros m Hm. apply list_elem_of_lookup in Hm as (i & Hi).
    destruct (Forall2_lookup_l _ _ _ _ _ Hans Hi) as (k & Hk & _ & _ & Hsym).
    exists (modifier_keycode k). split; [|done]. apply push_new_elem. left.
    apply list_elem_of_fmap_2. by eapply list_elem_of_lookup_2.
Qed.

Lemma resolve_released map wanted safe :
  released map → is_u8 (state_mods (map_state map)) → safe_locked_modifiers map = Ok safe →
  (∃ stroke, resolve map wanted = Ok stroke) ∨
  resolve map wanted = Err (Failure_invalid SYMBOL_UNAVAILABLE).
Proof.
  intros (H1 & H2 & H3 & H4) Hm Hsafe. unfold resolve, resolve_with_modifiers.
  rewrite H1, H2, H3, H4. cbn [Z.eqb negb orb request_modifiers and_then].
  assert (modifier_bits (state_mods (map_state map)) = Ok (state_mods (map_state map))) as ->.
  { unfold modifier_bits. by rewrite checked_in_intro by (int_bounds; lia). }
  cbn [and_then]. rewrite Hsafe. cbn [and_then].
  destruct (min_by _ _); cbn [ok_or]; [left; by eexists|by right].
Qed.

(** ** What yields a symbol, by the protocol *)

(** The key [keycode] has one of [symbols], on some group and level. *)
Definition carries (map : KeyboardMap) (keycode : Z) (symbols : list Z) : Prop :=
  ∃ row key symbol, keycode = map_minimum map + Z.of_nat row ∧ map_symbols map !! row = Some key ∧
    symbol ∈ sym_syms key ∧ symbol ∈ symbols.

Lemma carries_exact map keycode symbols :
  map_typed map → carries map keycode symbols ↔ key_has_any_symbol map keycode symbols = true.
Proof.
  intros (_ & _ & _ & Hmin & Hlen). unfold carries, key_has_any_symbol, symbols_of. split.
  - intros (row & key & symbol & -> & Hrow & Hs & Hsymbols). pose proof (lookup_lt_Some _ _ _ Hrow).
    rewrite checked_in_intro by (unfold len in *; int_bounds; lia). cbn [mbind option_bind].
    replace (Z.to_nat (map_minimum map + Z.of_nat row - map_minimum map)) with row by lia. rewrite Hrow.
    apply existsb_exists. exists symbol. split; [by apply list_elem_of_In|]. by apply bool_decide_eq_true.
  - destruct (checked_in 0 255 _) as [row|] eqn:Hc; [|done]. apply checked_in_Some in Hc as [-> Hc].
    cbn [mbind option_bind]. destruct (map_symbols map !! _) as [key|] eqn:Hrow; [|done].
    intros (symbol & Hs & Hw%bool_decide_eq_true)%existsb_exists.
    exists (Z.to_nat (keycode - map_minimum map)), key, symbol. split_and!; [lia|done|by apply list_elem_of_In|done].
Qed.

(** The group in effect for a key: in range, wrapped, clamped or redirected, as its
    group information says; its low four bits count the groups. *)
Inductive selected_group (info effective : Z) : Z → Prop :=
| group_in_range : effective < info mod 16 → selected_group info effective effective
| group_wraps : 0 < info mod 16 ≤ effective → Z.testbit info 7 = false → Z.testbit info 6 = false →
    selected_group info effective (effective mod (info mod 16))
| group_clamps : 0 < info mod 16 ≤ effective → Z.testbit info 7 = false → Z.testbit info 6 = true →
    selected_group info effective (info mod 16 - 1)
| group_redirects : 0 < info mod 16 ≤ effective → Z.testbit info 7 = true → Z.testbit info 6 = false →
    info / 16 mod 4 < info mod 16 → selected_group info effective (info / 16 mod 4).

(** A decidable fact of bytes is checked on each. *)
Lemma byte_cases (P : Z → Prop) `{∀ v, Decision (P v)} v :
  forallb (λ v, bool_decide (P v)) (seqZ 0 256) = true → 0 ≤ v < 256 → P v.
Proof.
  intros Hall Hv. rewrite forallb_forall in Hall. specialize (Hall v).
  rewrite <- list_elem_of_In, elem_of_seqZ in Hall. apply (bool_decide_eq_true_1 (P v)), Hall; lia.
Qed.

Lemma group_bits info :
  Z.land info 0xc0 = (if Z.testbit info 7 then if Z.testbit info 6 then 192 else 128
                      else if Z.testbit info 6 then 64 else 0) ∧
  Z.shiftr (Z.land info 0x30) 4 = info / 16 mod 4.
Proof.
  split.
  - rewrite <- (Z.mod_pow2_bits_low info 8 6), <- (Z.mod_pow2_bits_low info 8 7) by lia.
    change 0xc0 with (Z.land (Z.ones 8) 0xc0) at 1. rewrite Z.land_assoc, Z.land_ones by lia.
    apply (byte_cases (λ v, Z.land v 0xc0 = if Z.testbit v 7 then if Z.testbit v 6 then 192 else 128 else if Z.testbit v 6 then 64 else 0)); [by vm_compute|].
    apply Z.mod_pos_bound. lia.
  - rewrite Z.shiftr_land. change (Z.shiftr 0x30 4) with (Z.ones 2).
    by rewrite Z.land_ones, Z.shiftr_div_pow2 by lia.
Qed.

Lemma selected_group_exact info effective group :
  0 ≤ effective → selected_group info effective group ↔ normalized_group info effective = Some group.
Proof.
  intros He. unfold normalized_group. destruct (group_bits info) as [-> ->].
  change 0x0f with (Z.ones 4). rewrite Z.land_ones by lia. change (2 ^ 4) with 16. cbv zeta.
  pose proof (Z.mod_pos_bound info 16 ltac:(lia)).
  destruct (Z.eqb_spec (info mod 16) 0) as [H0|H0].
  { split; [|done]. intros []; lia. }
  destruct (Z.ltb_spec effective (info mod 16)).
  { split; [intros []; (done || lia)|]. intros [= <-]. by apply group_in_range. }
  destruct (Z.testbit info 6) eqn:H6, (Z.testbit info 7) eqn:H7; cbn [Z.eqb Pos.eqb];
    try destruct (Z.ltb_spec (info / 16 mod 4) (info mod 16));
    (split; [intros []; (congruence || lia)|]); try done; intros [= <-];
    first [apply group_clamps; (done || lia)|apply group_redirects; (done || lia)|apply group_wraps; (done || lia)].
Qed.

(** The level that [modifiers] select on a key of the type: that of the first active entry
    for those of them the type looks at, else the first. *)
Definition entry_for (modifiers : Z) (entry : KTMapEntry) : Prop :=
  entry_active entry = true ∧ entry_mods_mask entry = modifiers.
Inductive selects (key_type : KeyType) (modifiers : Z) : Z → Prop :=
| selects_entry before entry after :
    type_map key_type = before ++ entry :: after →
    entry_for (Z.land modifiers (type_mods_mask key_type)) entry →
    (∀ e, e ∈ before → ¬ entry_for (Z.land modifiers (type_mods_mask key_type)) e) →
    selects key_type modifiers (entry_level entry)
| selects_first :
    (∀ e, e ∈ type_map key_type → ¬ entry_for (Z.land modifiers (type_mods_mask key_type)) e) →
    selects key_type modifiers 0.

Lemma selects_exact key_type modifiers level :
  is_u8 (type_mods_mask key_type) →
  selects key_type modifiers level ↔ level_for_modifiers key_type modifiers = level.
Proof.
  intros Hmask. unfold level_for_modifiers.
  rewrite checked_in_intro by (int_bounds; lia). cbn [default id]. set (relevant := Z.land _ _).
  assert (0 ≤ relevant ≤ 255) as Hr.
  { unfold relevant. split; [apply Z.land_nonneg; right; int_bounds; lia|].
    assert (type_mods_mask key_type = Z.land (type_mods_mask key_type) (Z.ones 8)) as ->.
    { rewrite Z.land_ones by lia. symmetry. apply Z.mod_small. int_bounds. lia. }
    rewrite Z.land_assoc, Z.land_ones by lia. change (2 ^ 8) with 256.
    match goal with |- ?x mod 256 ≤ _ => pose proof (Z.mod_pos_bound x 256 ltac:(lia)) end. lia. }
  assert (∀ entry, (entry_active entry && match checked_in 0 255 (entry_mods_mask entry) with
            Some mask => relevant =? mask | None => false end) = true ↔ entry_for relevant entry) as Hfor.
  { intros entry. unfold entry_for. rewrite andb_true_iff. destruct (checked_in 0 255 _) as [mask|] eqn:Hc.
    - apply checked_in_Some in Hc as [-> _]. rewrite Z.eqb_eq. naive_solver.
    - split; [by intros [_ ?]|]. intros [_ Heq]. rewrite Heq, checked_in_intro in Hc; [done|lia]. }
  destruct (list_find _ (type_map key_type)) as [[i entry]|] eqn:Hfind.
  - apply list_find_Some in Hfind as (Hi & Hentry & Hbefore). apply Hfor in Hentry.
    assert (∀ e, e ∈ take i (type_map key_type) → ¬ entry_for relevant e) as Hno.
    { intros e (j & Hj & Hlt)%elem_of_take He. by apply (Hbefore j e Hj Hlt), Hfor. }
    pose proof (take_drop_middle _ _ _ Hi) as Hparts. split.
    + intros [before e after Heq He Hb|Hnone].
      * f_equal. destruct (Nat.lt_trichotomy (length before) i) as [Hlt|[<-|Hlt]].
        { exfalso. apply (Hno e); [|done]. apply elem_of_take. exists (length before). split; [|done].
          by rewrite Heq, list_lookup_middle. }
        { rewrite Heq, list_lookup_middle in Hi by done. by injection Hi. }
        exfalso. apply (Hb entry); [|done]. rewrite Heq, lookup_app_l in Hi by done. by eapply list_elem_of_lookup_2.
      * exfalso. apply (Hnone entry); [|done]. by eapply list_elem_of_lookup_2.
    + intros <-. by eapply selects_entry; [symmetry|..].
  - apply list_find_None in Hfind. rewrite Forall_forall in Hfind.
    assert (∀ e, e ∈ type_map key_type → ¬ entry_for relevant e) as Hno by (intros e He Hf; by apply (Hfind e He), Hfor).
    split; [|intros <-; by apply selects_first].
    intros [before e after Heq He _|_]; [|done]. destruct (Hno e); [|done]. rewrite Heq. set_solver.
Qed.

(** *** Locks *)

Definition LOCKS : list Z := [0xffe5; 0xffe6; 0xff7f].

(** The locked modifier [i] belongs to a lock key and does not stop typing. *)
Definition harmless (map : KeyboardMap) (i : Z) : Prop :=
  Z.testbit (state_locked_mods (map_state map)) i = true ∧
  ∃ entry, entry ∈ map_modifier_map map ∧ Z.testbit (modmap_mods entry) i = true ∧
    carries map (modmap_keycode entry) LOCKS.

Definition readable (map : KeyboardMap) : Prop :=
  is_u8 (state_locked_mods (map_state map)) ∧ Forall (λ entry, is_u8 (modmap_mods entry)) (map_modifier_map map).

Lemma modifier_bits_exact mask bits : modifier_bits mask = Ok bits ↔ is_u8 mask ∧ bits = mask.
Proof.
  unfold modifier_bits, ok_or. destruct (checked_in 0 255 mask) as [m|] eqn:Hm.
  - apply checked_in_Some in Hm as [-> Hm]. int_bounds. split; [intros [= ->]; split; [lia|done]|by intros [_ ->]].
  - split; [done|]. intros [Hu _]. rewrite checked_in_intro in Hm; [done|int_bounds; lia].
Qed.

Lemma safe_loop_exact map safe entries result :
  map_typed map →
  safe_loop map safe entries = Ok result ↔
  Forall (λ entry, is_u8 (modmap_mods entry)) entries ∧
  ∀ i, 0 ≤ i → Z.testbit result i = true ↔
    Z.testbit safe i = true ∨ ∃ entry, entry ∈ entries ∧ Z.testbit (modmap_mods entry) i = true ∧
      carries map (modmap_keycode entry) LOCKS.
Proof.
  intros Htyped. revert safe. induction entries as [|entry entries IH]; intros safe; cbn [safe_loop].
  - split.
    + intros [= <-]. split; [constructor|]. intros i _. split; [by left|]. by intros [?|(? & ?%not_elem_of_nil & _)].
    + intros [_ Hall]. f_equal. apply Z.bits_inj'. intros i Hi. apply Bool.eq_true_iff_eq. rewrite (Hall i Hi).
      split; [by left|]. by intros [?|(? & ?%not_elem_of_nil & _)].
  - destruct (modifier_bits (modmap_mods entry)) as [bits|e] eqn:Hbits; cbn [and_then].
    2: { split; [done|]. intros [[Hu _]%Forall_cons _].
         rewrite (proj2 (modifier_bits_exact _ _)) in Hbits by done. done. }
    apply modifier_bits_exact in Hbits as [Hu ->]. rewrite IH, Forall_cons. change [XK_CAPS_LOCK; XK_SHIFT_LOCK; XK_NUM_LOCK] with LOCKS.
    pose proof (carries_exact map (modmap_keycode entry) LOCKS Htyped) as Hc.
    split; (intros [Hall Hbits]; split; [naive_solver|]); intros i Hi; rewrite (Hbits i Hi);
      setoid_rewrite elem_of_cons; destruct (key_has_any_symbol map (modmap_keycode entry) LOCKS);
      rewrite ?Z.lor_spec, ?orb_true_iff; naive_solver.
Qed.

Lemma safe_locked_exact map safe :
  map_typed map →
  safe_locked_modifiers map = Ok safe ↔
  readable map ∧ ∀ i, 0 ≤ i → Z.testbit safe i = true ↔ harmless map i.
Proof.
  intros Htyped. unfold safe_locked_modifiers, readable, harmless. split.
  - destruct (modifier_bits _) as [locked|] eqn:Hlocked; [|done]. apply modifier_bits_exact in Hlocked as [Hu ->].
    cbn [and_then]. destruct (safe_loop _ _ _) as [all|] eqn:Hall; [|done]. intros [= <-].
    apply safe_loop_exact in Hall as [Hf Hall]; [|done]. split; [done|]. intros i Hi.
    rewrite Z.land_spec, andb_true_iff, (Hall i Hi), Z.bits_0. naive_solver.
  - intros [[Hu Hf] Hall]. rewrite (proj2 (modifier_bits_exact _ _)) by done. cbn [and_then].
    destruct (safe_loop map 0 (map_modifier_map map)) as [all|e] eqn:Hloop; cbn [and_then].
    + f_equal. apply Z.bits_inj'. intros i Hi. apply Bool.eq_true_iff_eq. rewrite (Hall i Hi).
      apply safe_loop_exact in Hloop as [_ Hloop]; [|done].
      rewrite Z.land_spec, andb_true_iff, (Hloop i Hi), Z.bits_0. naive_solver.
    + exfalso. clear Hall. revert Hloop. generalize 0.
      induction Hf as [|entry entries Hentry _ IH]; intros x; cbn [safe_loop]; [done|].
      rewrite (proj2 (modifier_bits_exact _ _)) by done. apply IH.
Qed.

(** *** Momentary modifiers *)

Definition SHIFTS : list Z := [0xffe1; 0xffe2; 0xfe03; 0xfe11].
Definition ONE_BIT : list Z := [1; 2; 4; 8; 16; 32; 64; 128].

(** The entry is of a key that shifts while it is held, and of one modifier. *)
Definition shifts (map : KeyboardMap) (entry : KeyModMap) : Prop :=
  modmap_mods entry ∈ ONE_BIT ∧ carries map (modmap_keycode entry) SHIFTS.

Definition key_of (entry : KeyModMap) : ModifierKey :=
  {| modifier_keycode := modmap_keycode entry; modifier_modifiers := modmap_mods entry |}.

(** For each modifier the first key that shifts with it, in the order of the map; [seen] come
    before. *)
Inductive shift_keys (map : KeyboardMap) : list KeyModMap → list KeyModMap → list ModifierKey → Prop :=
| shift_keys_none seen : shift_keys map seen [] []
| shift_keys_first seen entry entries keys :
    shifts map entry → (∀ e, e ∈ seen → shifts map e → modmap_mods e ≠ modmap_mods entry) →
    shift_keys map (entry :: seen) entries keys → shift_keys map seen (entry :: entries) (key_of entry :: keys)
| shift_keys_seen seen entry e entries keys :
    e ∈ seen → shifts map e → modmap_mods e = modmap_mods entry →
    shift_keys map (entry :: seen) entries keys → shift_keys map seen (entry :: entries) keys
| shift_keys_other seen entry entries keys :
    ¬ shifts map entry → shift_keys map (entry :: seen) entries keys → shift_keys map seen (entry :: entries) keys.

Lemma shift_keys_unique map seen entries keys keys' :
  shift_keys map seen entries keys → shift_keys map seen entries keys' → keys = keys'.
Proof.
  intros Hkeys. revert keys'. induction Hkeys; intros keys' Hkeys'; inversion Hkeys'; subst;
    solve [done|f_equal; auto|auto|exfalso; unfold not in *; naive_solver|
           exfalso; unfold shifts in *; repeat match goal with H : modmap_mods _ = modmap_mods _ |- _ => rewrite <- H in * end; naive_solver].
Qed.

Lemma one_bit_exact bits : is_u8 bits → count_ones bits = 1%nat ↔ bits ∈ ONE_BIT.
Proof. apply (byte_cases (λ bits, count_ones bits = 1%nat ↔ bits ∈ ONE_BIT)). by vm_compute. Qed.

Lemma momentary_loop_exact map seen keys entries :
  map_typed map → NoDup (modifier_modifiers <$> keys) →
  (∀ bits, bits ∈ modifier_modifiers <$> keys ↔ ∃ e, e ∈ seen ∧ shifts map e ∧ modmap_mods e = bits) →
  ∃ ks, momentary_loop map keys entries = keys ++ ks ∧ shift_keys map seen entries ks.
Proof.
  intros Htyped. revert seen keys. induction entries as [|entry entries IH]; intros seen keys Hnd Hseen; cbn [momentary_loop].
  { exists []. rewrite app_nil_r. split; [done|constructor]. }
  assert (¬ shifts map entry ∨ (∃ e, e ∈ seen ∧ shifts map e ∧ modmap_mods e = modmap_mods entry) →
    ∃ ks, momentary_loop map keys entries = keys ++ ks ∧ shift_keys map seen (entry :: entries) ks) as Hskip.
  { intros Hwhy. destruct (IH (entry :: seen) keys Hnd) as (ks & -> & Hks).
    - intros bits. rewrite Hseen. setoid_rewrite elem_of_cons. split; [naive_solver|].
      intros (e & [->|?] & Hs & <-); [|naive_solver]. destruct Hwhy as [?|(e & ? & ? & ?)]; [done|by exists e].
    - exists ks. split; [done|]. destruct Hwhy as [?|(e & ? & ? & ?)]; [by apply shift_keys_other|by eapply shift_keys_seen]. }
  destruct (modifier_bits (modmap_mods entry)) as [bits|] eqn:Hbits.
  2: { apply Hskip. left. intros [Hone _]. rewrite (proj2 (modifier_bits_exact _ (modmap_mods entry))) in Hbits; [done|].
       split; [|done]. unfold ONE_BIT in Hone. repeat (apply elem_of_cons in Hone as [->|Hone]; [done|]). by apply not_elem_of_nil in Hone. }
  apply modifier_bits_exact in Hbits as [Hu ->].
  unfold key_has_momentary_modifier_symbol.
  change [XK_SHIFT_L; XK_SHIFT_R; XK_ISO_LEVEL3_SHIFT; XK_ISO_LEVEL5_SHIFT] with SHIFTS.
  pose proof (carries_exact map (modmap_keycode entry) SHIFTS Htyped) as Hcarries. pose proof (one_bit_exact _ Hu) as Hone.
  destruct (negb _ || negb _) eqn:Hkind.
  { apply Hskip. left. intros [H1%Hone H2%Hcarries]. by rewrite H2, bool_decide_eq_true_2 in Hkind. }
  apply orb_false_iff in Hkind as [H1%negb_false_iff%bool_decide_eq_true%Hone H2%negb_false_iff%Hcarries].
  assert (modmap_mods entry ∈ modifier_modifiers <$> keys ↔
          existsb (λ candidate, modifier_modifiers candidate =? modmap_mods entry) keys = true) as Hin.
  { rewrite existsb_exists, list_elem_of_fmap. setoid_rewrite Z.eqb_eq. setoid_rewrite <- list_elem_of_In. naive_solver. }
  destruct (existsb _ keys); [by apply Hskip; right; apply Hseen, Hin|].
  assert (modmap_mods entry ∉ modifier_modifiers <$> keys) as Hfresh by (by intros ?%Hin). clear Hin.
  assert ((modifier_modifiers <$> keys) ⊆ ONE_BIT) as Hsub by (intros bits (e & _ & [? _] & <-)%Hseen; done).
  destruct (Z.eqb_spec (len keys) MAX_MOMENTARY_MODIFIERS) as [Hfull|_].
  { exfalso. apply Hfresh.
    rewrite (submseteq_length_Permutation (modifier_modifiers <$> keys) ONE_BIT); [done|by apply NoDup_submseteq|].
    rewrite length_fmap. unfold len, MAX_MOMENTARY_MODIFIERS in Hfull. cbn. lia. }
  destruct (IH (entry :: seen) (keys ++ [key_of entry])) as (ks & Hloop & Hks).
  - rewrite fmap_app. apply NoDup_app. split; [done|]. split; [|apply NoDup_singleton].
    by intros x Hx ->%list_elem_of_singleton.
  - intros bits. rewrite fmap_app, elem_of_app, Hseen. change (modifier_modifiers <$> [key_of entry]) with [modmap_mods entry].
    rewrite list_elem_of_singleton. setoid_rewrite elem_of_cons.
    split; [intros [?| ->]; [naive_solver|by exists entry; split; [left|]]|].
    intros (e & [->|?] & ? & <-); [by right|left; by exists e].
  - exists (key_of entry :: ks). rewrite (cons_middle (key_of entry) keys ks), (assoc_L (++)). split; [exact Hloop|].
    apply shift_keys_first; [done| |done]. intros e He Hs Heq. apply Hfresh. rewrite <- Heq. apply Hseen. by exists e.
Qed.

Lemma momentary_exact map keys :
  map_typed map → shift_keys map [] (map_modifier_map map) keys ↔ keys = momentary_modifier_keys map.
Proof.
  intros Htyped. unfold momentary_modifier_keys.
  destruct (momentary_loop_exact map [] [] (map_modifier_map map) Htyped) as (ks & -> & Hks); [constructor| |].
  { intros bits. split; [by intros ?%not_elem_of_nil|by intros (? & ?%not_elem_of_nil & _)]. }
  split; [|by intros ->]. intros Hkeys. by eapply shift_keys_unique.
Qed.

(** *** A key, a level and keys to hold *)

(** Holding the keys [pressed], and the modifiers that are set staying, the key of [row]
    yields [wanted]: at the level they select, in the group in effect; every modifier that is
    set is one the key's type looks at, or a lock; the keys are shift keys. *)
Record yields (map : KeyboardMap) (wanted : Z) (row : nat) (pressed : list ModifierKey) : Prop := {
  yields_symbol : ∃ key group index key_type level,
    map_symbols map !! row = Some key ∧
    selected_group (sym_group_info key) (state_group (map_state map)) group ∧
    sym_kt_index key !! Z.to_nat group = Some index ∧
    map_types map !! Z.to_nat index = Some key_type ∧
    0 ≤ level < Z.min (sym_width key) (type_num_levels key_type) ∧
    group * sym_width key + sym_width key ≤ len (sym_syms key) ∧
    sym_syms key !! Z.to_nat (group * sym_width key + level) = Some wanted ∧
    is_u8 (type_mods_mask key_type) ∧
    (∀ i, 0 ≤ i → Z.testbit (state_mods (map_state map)) i = true →
       Z.testbit (type_mods_mask key_type) i = true ∨ harmless map i) ∧
    selects key_type (pressed_bits (state_mods (map_state map)) pressed) level;
  yields_keys : ∃ keys, shift_keys map [] (map_modifier_map map) keys ∧ pressed `sublist_of` keys;
  yields_readable : readable map
}.

Lemma yields_solves map wanted row pressed :
  map_typed map → yields map wanted row pressed ↔ solves map wanted [] row pressed.
Proof.
  intros Htyped. pose proof Htyped as (_ & _ & Hgroup & _).
  assert (∀ safe key_type, safe_locked_modifiers map = Ok safe →
    (∀ i, 0 ≤ i → Z.testbit (state_mods (map_state map)) i = true →
       Z.testbit (type_mods_mask key_type) i = true ∨ harmless map i) ↔
    Z.ldiff (state_mods (map_state map)) (Z.lor (Z.lor (type_mods_mask key_type) safe) 0) = 0) as Hundisturbed.
  { intros safe key_type [_ Hsafe]%safe_locked_exact; [|done]. rewrite Z.lor_0_r. split.
    - intros Hall. apply Z.bits_inj'. intros i Hi. rewrite Z.bits_0, Z.ldiff_spec, Z.lor_spec. specialize (Hall i Hi).
      destruct (Z.testbit (state_mods _) i); [|done]. apply andb_false_iff. right. apply negb_false_iff, orb_true_iff.
      rewrite (Hsafe i Hi). by apply Hall.
    - intros Hzero i Hi Hset. apply (f_equal (λ x, Z.testbit x i)) in Hzero.
      rewrite Z.bits_0, Z.ldiff_spec, Z.lor_spec, Hset in Hzero. apply negb_false_iff, orb_true_iff in Hzero.
      by rewrite (Hsafe i Hi) in Hzero. }
  unfold solves, way, symbol_at, undisturbed. cbn [pressed_bits foldl]. split.
  - intros [(key & group & index & key_type & level & ? & Hg & ? & ? & ? & ? & ? & Hu & Hmods & Hlevel) (keys & Hkeys & ?) Hread].
    apply momentary_exact in Hkeys as ->; [|done].
    apply selected_group_exact in Hg; [|int_bounds; lia]. apply selects_exact in Hlevel; [|done].
    destruct (safe_locked_modifiers map) as [safe|e] eqn:Hsafe.
    + exists safe. split; [done|]. exists key_type, level. apply (Hundisturbed safe key_type eq_refl) in Hmods. eauto 20.
    + exfalso. destruct Hread as [Hl Hf]. unfold safe_locked_modifiers in Hsafe.
      rewrite (proj2 (modifier_bits_exact _ _)) in Hsafe by done. cbn [and_then] in Hsafe.
      destruct (safe_loop map 0 (map_modifier_map map)) as [all|] eqn:Hloop; [done|].
      clear - Hloop Hf. revert Hloop. generalize 0.
      induction Hf as [|entry entries Hentry _ IH]; intros x; cbn [safe_loop]; [done|].
      rewrite (proj2 (modifier_bits_exact _ _)) by done. apply IH.
  - intros (safe & Hsafe & key_type & level & (key & group & index & ? & Hg & ?) & [Hu Hmods] & Hsub & Hlevel).
    change (pressed_bits (state_mods (map_state map)) []) with (state_mods (map_state map)) in *.
    change (pressed_bits 0 []) with 0 in *.
    pose proof (proj2 (Hundisturbed safe key_type Hsafe) Hmods) as Hkept.
    split; [|by exists (momentary_modifier_keys map); rewrite momentary_exact|by apply safe_locked_exact in Hsafe as [? _]].
    apply selected_group_exact in Hg; [|int_bounds; lia]. apply selects_exact in Hlevel; [|done].
    exists key, group, index, key_type, level. naive_solver.
Qed.

(** C30: Text resolution is sound, complete and frugal.  A stroke that is found for a symbol
    presses a key of the map with exactly the keys of one way to the symbol, each once: at
    the level they and the modifiers that are set select in the group in effect, the key
    yields the symbol; and it is found only while no modifier is depressed or latched.  No
    way holds fewer keys; the "unavailable" failure (which the caller turns into a report
    naming the character) means that there is no way; and on a released keyboard a stroke is
    found as soon as there is one. *)
Theorem text_resolution_optimal map wanted :
  map_typed map →
  (∀ stroke, resolve map wanted = Ok stroke →
     released map ∧
     (∃ row pressed, yields map wanted row pressed ∧ stroke_keycode stroke = map_minimum map + Z.of_nat row ∧
        NoDup (stroke_modifiers stroke) ∧
        ∀ keycode, keycode ∈ stroke_modifiers stroke ↔ keycode ∈ modifier_keycode <$> pressed) ∧
     ∀ row pressed, yields map wanted row pressed → (length (stroke_modifiers stroke) ≤ length pressed)%nat) ∧
  (∀ e row pressed, resolve map wanted = Err e → Failure_message e = SYMBOL_UNAVAILABLE →
     ¬ yields map wanted row pressed) ∧
  (∀ row pressed, released map → is_u8 (state_mods (map_state map)) →
     yields map wanted row pressed → ∃ stroke, resolve map wanted = Ok stroke).
Proof.
  intros Htyped. pose proof (resolve_released map wanted) as Hrel. unfold resolve in *.
  assert (∀ row pressed, yields map wanted row pressed ↔ solves map wanted [] row pressed) as Hiff by (intros; by apply yields_solves).
  destruct (resolve_cases map wanted [] Htyped)
    as [(ks & row & pressed & s & -> & Hreleased & Hans & _ & Hsolves & -> & Hleast)
       |[(ks & -> & Hans & Hno)|(e & Heq & Hmsg)]].
  - apply Forall2_nil_inv_l in Hans as ->. split; [|split; [done|by eauto]].
    intros stroke [= <-]. split; [done|]. split; [|intros row' pressed' Hy%Hiff; by eapply Hleast].
    exists row, pressed. split; [by apply Hiff|]. split; [done|]. cbn [stroke_modifiers stroke_of fmap list_fmap]. split.
    + apply push_new_NoDup. constructor.
    + intros keycode. rewrite push_new_elem. split; [by intros [?%not_elem_of_nil|?]|by right].
  - apply Forall2_nil_inv_l in Hans as ->. split; [done|].
    split; [intros e row pressed _ _ ?%Hiff; by eapply Hno|]. intros row pressed _ _ Hs%Hiff. by destruct (Hno row pressed).
  - rewrite Heq in *. split; [done|]. split; [by intros ??? [= <-]|].
    intros row pressed Hr Hm (safe & Hsafe & _)%Hiff.
    destruct (Hrel safe Hr Hm Hsafe) as [?|[= ->]]; [done|by destruct Hmsg].
Qed.

(** ** A concrete map: the code's own test, with Shift *)

Definition demo_map : KeyboardMap :=
  {| map_minimum := 8;
     map_types := [{| type_mods_mask := 1; type_num_levels := 2;
                      type_map := [{| entry_active := true; entry_mods_mask := 1; entry_level := 1 |}] |};
                   {| type_mods_mask := 0; type_num_levels := 1; type_map := [] |}];
     map_symbols := [{| sym_kt_index := [1; 0; 0; 0]; sym_group_info := 1; sym_width := 1;
                        sym_syms := [XK_SHIFT_L] |};
                     {| sym_kt_index := [0; 0; 0; 0]; sym_group_info := 1; sym_width := 2;
                        sym_syms := [120; 88] |}];
     map_modifier_map := [{| modmap_keycode := 8; modmap_mods := 1 |}];
     map_state := {| state_mods := 0; state_base_mods := 0; state_latched_mods := 0;
                     state_locked_mods := 0; state_group := 0; state_base_group := 0;
                     state_latched_group := 0 |} |}.

Lemma demo_typed : map_typed demo_map.
Proof. split_and!; try (by apply (bool_decide_unpack _)); cbn; int_bounds; repeat constructor; lia. Qed.

Lemma resolved_stroke_selects_witness :
  resolve_with_modifiers demo_map 88 [KeyboardModifier_Shift]
  = Ok {| stroke_keycode := 9; stroke_modifiers := [8] |} ∧
  NoDup [8] ∧ effective_modifiers demo_map [8] = 1.
Proof.
  assert (one_entry_per_key demo_map) as Hone by (repeat constructor; apply not_elem_of_nil).
  split; [reflexivity|]. split; [|reflexivity].
  exact (proj1 (resolved_stroke_selects demo_map 88 [KeyboardModifier_Shift] _
                  demo_typed Hone eq_refl)).
Defined.

Lemma text_resolution_optimal_witness :
  resolve demo_map 88 = Ok {| stroke_keycode := 9; stroke_modifiers := [8] |} ∧
  (∃ row pressed, yields demo_map 88 row pressed) ∧
  ∀ row pressed, yields demo_map 88 row pressed → (1 ≤ length pressed)%nat.
Proof.
  pose proof (text_resolution_optimal demo_map 88 demo_typed) as [Hfound _].
  assert (resolve demo_map 88 = Ok {| stroke_keycode := 9; stroke_modifiers := [8] |}) as Hrun by reflexivity.
  destruct (Hfound _ Hrun) as (_ & (row & pressed & Hy & _) & Hleast).
  split; [exact Hrun|]. split; [by exists row, pressed|exact Hleast].
Defined.

(** The unit tests of the source. *)
Example xkb_group_overflow_actions_are_bounded :
  normalized_group 2 3 = Some 1 ∧ normalized_group (Z.lor 0x40 2) 3 = Some 1 ∧
  normalized_group (Z.lor (Z.lor 0x80 0x10) 2) 3 = Some 1 ∧
  normalized_group (Z.lor 0xc0 2) 3 = None ∧ normalized_group 0 0 = None.
Proof. by vm_compute. Qed.

Example unavailable_character :
  string_of_str (hex_04 8364) = "20AC"%string ∧
  match resolve_characters demo_map 0 [120; 8364] with
  | Err e => Failure_message e =
      "keyboard character 2 (U+20AC) is unavailable in the current XKB layout and group; do not change the user's XKB layout or mapping as a workaround"%string
  | Ok _ => False
  end.
Proof. split; vm_compute; reflexivity. Qed.
