(* ===== verification/Input.v ===== *)
(** * [agent-seat-x11/src/observer/input.rs]: pointer and keyboard input

    Every injected event is preceded, under the same server grab, by a new reading of the
    desktop, by the check that the target owns the point or the keyboard focus, and by a
    check of the seat. *)

From S2P Require Import Prelude Text Bounded Protocol Message Effects X11 InputServer SeatGate.
From S2P Require Import Observer Manager Keyboard.

Definition MAX_WINDOW_ANCESTORS : nat := 64.
Definition MAX_HIT_TEST_CHILDREN : Z := 256.
Definition MAX_HIT_TEST_RECTANGLES : Z := 256.
Definition POINTER_ROOT_FOCUS : Z := 1.
Definition FOCUS_RECOVERY : string :=
  "keyboard focus is not owned by the target client; inspect this result and take a fresh desktop snapshot to handle the active client".
Definition COVER_RECOVERY : string :=
  "pointer destination is not visibly owned by the target; inspect this result and take a fresh desktop snapshot to handle the covering client".

(** Core protocol event types. *)
Definition KEY_PRESS_EVENT : Z := 2.
Definition KEY_RELEASE_EVENT : Z := 3.
Definition BUTTON_PRESS_EVENT : Z := 4.
Definition BUTTON_RELEASE_EVENT : Z := 5.
Definition MOTION_NOTIFY_EVENT : Z := 6.

(** ** Pure parts *)

Definition action_reply (sent seat_still_enabled : bool) : InputReply :=
  {| InputReply_completed := Z.b2z sent;
     InputReply_requested := 1;
     InputReply_terminal := if sent && seat_still_enabled then InputTerminal_Queued
                            else InputTerminal_Interrupted |}.

Definition checked_root_coordinate (origin offset : Z) : result Z Failure :=
  let? offset := ok_or (checked_i32 offset)
                   (Failure_invalid "pointer destination exceeds X11 coordinate range") in
  ok_or (value ← checked_i32 (origin + offset); checked_i16 value)
    (Failure_invalid "pointer destination exceeds X11 coordinate range").

Definition rectangle_contains (rectangle : Rectangle) (x y : Z) : bool :=
  let left := rectangle_x rectangle in
  let top := rectangle_y rectangle in
  (left <=? x) && (top <=? y)
  && (x <? left + rectangle_width rectangle) && (y <? top + rectangle_height rectangle).

Definition button_detail (button : PointerButton) : Z :=
  match button with
  | PointerButton_Primary => 1
  | PointerButton_Middle => 2
  | PointerButton_Secondary => 3
  end.

Section input.
Context {W : Type} `{XServer W, XInput W, SharedSeat W}.

Notation St := (Observer * W)%type.

(** ** The server grab *)

Definition under_server_grab {A} (action : M St Failure A) : M St Failure A :=
  or_unavailable "cannot request an X11 server grab" "cannot acquire an X11 server grab"
    grab_server ;!
  let! result := attempt action in
  let! released := attempt (or_unavailable "cannot request an X11 server ungrab"
                              "cannot release the X11 server grab" ungrab_server) in
  match result, released with
  | Ok value, Ok _ => ret value
  | Err error, _ | Ok _, Err error => fail error
  end.

Definition accepts (permit : SeatPermit) : M St Failure bool := x11 (seat_accepts permit).

(** ** Injection *)

Definition fake_input (event_type detail root_x root_y : Z) : M St Failure unit :=
  or_unavailable "cannot queue XTEST input" "the X server refused XTEST input"
    (xtest_fake_input event_type detail root_x root_y) ;!
  or_unavailable "cannot synchronize XTEST input" "cannot synchronize XTEST input" sync.

Definition best_effort_release (event_type detail : Z) : M St Failure unit :=
  let! queued := attempt (x11 (xtest_fake_input_ignored event_type detail)) in
  match queued with
  | Ok _ => let! _ := attempt (x11 sync) in ret tt
  | Err _ => ret tt
  end.

Definition release_keys (keycodes : list Z) : M St Failure unit :=
  for_each (best_effort_release KEY_RELEASE_EVENT) (reverse keycodes).

(** The loop over [stroke.modifiers], with [pressed_modifiers] so far. *)
Fixpoint press_modifiers (pressed modifiers : list Z) : M St Failure (list Z) :=
  match modifiers with
  | [] => ret pressed
  | modifier :: modifiers =>
      let! result := attempt (fake_input KEY_PRESS_EVENT modifier 0 0) in
      match result with
      | Err error => release_keys pressed ;! fail error
      | Ok _ => press_modifiers (pressed ++ [modifier]) modifiers
      end
  end.

(** [while let Some(modifier) = pressed_modifiers.pop()]; the last one is the head. *)
Fixpoint release_modifiers (popped : list Z) : M St Failure unit :=
  match popped with
  | [] => ret tt
  | modifier :: popped =>
      let! result := attempt (fake_input KEY_RELEASE_EVENT modifier 0 0) in
      match result with
      | Err error =>
          best_effort_release KEY_RELEASE_EVENT modifier ;!
          release_keys (reverse popped) ;!
          fail error
      | Ok _ => release_modifiers popped
      end
  end.

Definition type_key (stroke : KeyStroke) : M St Failure unit :=
  let! pressed := press_modifiers [] (stroke_modifiers stroke) in
  let! result := attempt (fake_input KEY_PRESS_EVENT (stroke_keycode stroke) 0 0) in
  match result with
  | Err error => release_keys pressed ;! fail error
  | Ok _ =>
      let! result := attempt (fake_input KEY_RELEASE_EVENT (stroke_keycode stroke) 0 0) in
      match result with
      | Err error =>
          best_effort_release KEY_RELEASE_EVENT (stroke_keycode stroke) ;!
          release_keys pressed ;!
          fail error
      | Ok _ => release_modifiers (reverse pressed)
      end
  end.

Definition click_button (button : PointerButton) (root_x root_y : Z) : M St Failure unit :=
  let detail := button_detail button in
  fake_input BUTTON_PRESS_EVENT detail root_x root_y ;!
  let! result := attempt (fake_input BUTTON_RELEASE_EVENT detail root_x root_y) in
  match result with
  | Err error => best_effort_release BUTTON_RELEASE_EVENT detail ;! fail error
  | Ok _ => ret tt
  end.

(** ** Ownership *)

Definition tree (message : string) (window : Z) : M St Failure (Z * list Z) :=
  or_unavailable message message (query_tree window).

(** The loop over the ancestors of the focus window, [n] rounds. *)
Fixpoint focus_ancestry (n : nat) (target window : Z) : M St Failure unit :=
  match n with
  | O => fail (Failure_invalid FOCUS_RECOVERY)
  | S n =>
      if window =? target then ret tt
      else
        let! '(parent, _) := tree "cannot inspect keyboard focus ancestry" window in
        let! root := get root in
        if (parent =? NONE) || (parent =? root) then fail (Failure_invalid FOCUS_RECOVERY)
        else focus_ancestry n target parent
  end.

Definition require_focus_owned_by (target : Z) : M St Failure unit :=
  let! focus := or_unavailable "cannot inspect X11 input focus" "cannot inspect X11 input focus"
                  get_input_focus in
  if (focus =? NONE) || (focus =? POINTER_ROOT_FOCUS)
  then fail (Failure_invalid FOCUS_RECOVERY)
  else focus_ancestry MAX_WINDOW_ANCESTORS target focus.

Fixpoint frame_ancestry (n : nat) (candidate window : Z) : M St Failure bool :=
  match n with
  | O => fail (Failure_unavailable "target ancestry exceeds the window bound")
  | S n =>
      if window =? candidate then ret true
      else
        let! '(parent, _) := tree "cannot inspect target ancestry" window in
        let! root := get root in
        if (parent =? NONE) || (parent =? root) then ret (parent =? candidate)
        else frame_ancestry n candidate parent
  end.

Definition is_target_or_reparenting_frame (candidate target : Z) : M St Failure bool :=
  frame_ancestry MAX_WINDOW_ANCESTORS candidate target.

(** The loop over the root's children, topmost first. *)
Fixpoint hit_test (children : list Z) (root_x root_y : Z) : M St Failure (option Z) :=
  match children with
  | [] => ret None
  | child :: children =>
      let! attributes := or_unavailable "cannot hit-test pointer destination"
                           "cannot hit-test pointer destination" (get_window_attributes child) in
      if negb (attributes_map_state attributes =? VIEWABLE)
      then hit_test children root_x root_y
      else
        let! root := get root in
        let! '(x, y) := or_unavailable "cannot hit-test pointer destination"
                          "cannot hit-test pointer destination"
                          (translate_coordinates root child root_x root_y) in
        let! rectangles := or_unavailable "cannot inspect pointer input shape"
                             "cannot inspect pointer input shape" (shape_get_rectangles child) in
        if MAX_HIT_TEST_RECTANGLES <? len rectangles
        then fail (Failure_unavailable "pointer hit-test exceeds the shape bound")
        else if existsb (λ rectangle, rectangle_contains rectangle x y) rectangles
        then ret (Some child)
        else hit_test children root_x root_y
  end.

Definition require_point_owned_by (target root_x root_y : Z) : M St Failure unit :=
  let! root := get root in
  let! '(_, children) := tree "cannot hit-test pointer destination" root in
  if MAX_HIT_TEST_CHILDREN <? len children
  then fail (Failure_unavailable "pointer hit-test exceeds the window bound")
  else
    let! destination := hit_test (reverse children) root_x root_y in
    let! owned := match destination with
                  | Some destination => is_target_or_reparenting_frame destination target
                  | None => ret false
                  end in
    if owned then ret tt else fail (Failure_invalid COVER_RECOVERY).

Definition observed_target (request : TargetRequest) : M St Failure Target :=
  refresh ;!
  let! o := get id in
  lift (target o request).

Definition pointer_destination (request : TargetRequest) (x y : Z) : M St Failure (Z * Z * Z) :=
  let! target := observed_target request in
  let! geometry := or_unavailable "cannot inspect target geometry"
                     "cannot inspect target geometry" (get_geometry (Target_xid target)) in
  if (geometry_width geometry <=? x) || (geometry_height geometry <=? y)
  then fail (Failure_invalid "pointer destination is outside the target client")
  else
    let! root := get root in
    let! '(origin_x, origin_y) :=
      or_unavailable "cannot translate target coordinates" "cannot translate target coordinates"
        (translate_coordinates (Target_xid target) root 0 0) in
    let! root_x := lift (checked_root_coordinate origin_x x) in
    let! root_y := lift (checked_root_coordinate origin_y y) in
    require_point_owned_by (Target_xid target) root_x root_y ;!
    ret (Target_xid target, root_x, root_y).

(** ** Operations *)

Definition reply_for (permit : SeatPermit) (sent : bool) : M St Failure InputReply :=
  let! enabled := accepts permit in
  ret (action_reply sent enabled).

(** [if !seat.accepts(seat_permit) { return Ok(false); } action; Ok(true)] *)
Definition if_accepted (permit : SeatPermit) (action : M St Failure unit) : M St Failure bool :=
  let! enabled := accepts permit in
  if negb enabled then ret false else action ;! ret true.

Definition pointer_move (request : PointerMoveRequest) (permit : SeatPermit)
  : M St Failure InputReply :=
  let! sent := under_server_grab (
    let! '(_, root_x, root_y) := pointer_destination (PointerMoveRequest_target request)
                                   (PointerMoveRequest_x request) (PointerMoveRequest_y request) in
    if_accepted permit (fake_input MOTION_NOTIFY_EVENT 0 root_x root_y)) in
  reply_for permit sent.

Definition pointer_click (request : PointerClickRequest) (permit : SeatPermit)
  : M St Failure InputReply :=
  let! sent := under_server_grab (
    let! '(_, root_x, root_y) := pointer_destination (PointerClickRequest_target request)
                                   (PointerClickRequest_x request) (PointerClickRequest_y request) in
    if_accepted permit (
      fake_input MOTION_NOTIFY_EVENT 0 root_x root_y ;!
      click_button (PointerClickRequest_button request) root_x root_y)) in
  reply_for permit sent.

Definition focused_target (request : TargetRequest) : M St Failure Target :=
  let! target := observed_target request in
  require_focus_owned_by (Target_xid target) ;!
  ret target.

(** One round of the loop of [keyboard_text]. *)
Definition type_character (request : TargetRequest) (permit : SeatPermit)
  (character position : Z) : M St Failure bool :=
  under_server_grab (
    let! _ := focused_target request in
    if_accepted permit (
      let! stroke := x11 (resolve_character character position) in
      type_key stroke)).

Fixpoint type_characters (request : TargetRequest) (permit : SeatPermit) (completed : Z)
  (characters : list Z) : M St Failure Z :=
  match characters with
  | [] => ret completed
  | character :: characters =>
      let next := ok_or (checked_u16 (completed + 1))
                    (Failure_internal "keyboard action count overflowed") in
      let! position := lift next in
      let! result := attempt (type_character request permit character position) in
      match result with
      | Ok true =>
          let! completed := lift next in
          let! enabled := accepts permit in
          if negb enabled then ret completed
          else type_characters request permit completed characters
      | Ok false => ret completed
      | Err error => if completed =? 0 then fail error else ret completed
      end
  end.

Definition keyboard_text (request : TargetRequest) (text : str) (permit : SeatPermit)
  : M St Failure InputReply :=
  let! requested := lift (ok_or (checked_u16 (len (chars text)))
                            (Failure_invalid "keyboard text exceeds the action bound")) in
  under_server_grab (
    let! _ := focused_target request in
    let! _ := x11 (resolve_text text) in
    ret tt) ;!
  let! completed := type_characters request permit 0 (chars text) in
  let! complete := if completed =? requested then accepts permit else ret false in
  ret {| InputReply_completed := completed; InputReply_requested := requested;
         InputReply_terminal := if complete then InputTerminal_Queued
                                else InputTerminal_Interrupted |}.

Definition keyboard_type (request : KeyboardTypeRequest) (permit : SeatPermit)
  : M St Failure InputReply :=
  keyboard_text (KeyboardTypeRequest_target request)
    (as_str (KeyboardTypeRequest_text request)) permit.

Definition keyboard_write (request : KeyboardWriteRequest) (permit : SeatPermit)
  : M St Failure InputReply :=
  keyboard_text (KeyboardWriteRequest_target request)
    (as_str (KeyboardWriteRequest_text request)) permit.

Definition keyboard_key (request : KeyboardKeyRequest) (permit : SeatPermit)
  : M St Failure InputReply :=
  let! sent := under_server_grab (
    let! _ := focused_target (KeyboardKeyRequest_target request) in
    let! stroke := x11 (resolve_key (KeyboardKeyRequest_key request)
                          (as_slice (KeyboardKeyRequest_modifiers request))) in
    if_accepted permit (type_key stroke)) in
  reply_for permit sent.
End input.
