(* ===== verification/Capture.v ===== *)
(** * [agent-seat-x11/src/observer/capture.rs]: pixel capture

    Reading of the redirected pixmap of one target, conversion of its pixels to RGB, and
    the reply.  The redirection bookkeeping of the same file is part of [Observer].  The
    PNG encoder and the base64 engine are parameters. *)

From S2P Require Import Prelude Text Bounded Protocol Message Effects X11 InputServer.
From S2P Require Import Observer Manager Input.

(** Core protocol constants. *)
Definition TRUE_COLOR : Z := 4.
Definition LSB_FIRST : Z := 0.

Record RawCapture := {
  RawCapture_width : Z;
  RawCapture_height : Z;
  RawCapture_depth : Z;
  RawCapture_visual : Visualtype;
  RawCapture_bits_per_pixel : Z;
  RawCapture_scanline_pad : Z;
  RawCapture_image_byte_order : Z;
  RawCapture_data : bytes
}.

(** ** Conversion *)

(** [slice::chunks_exact], [fuel] at least the length of the slice. *)
Fixpoint chunks (fuel n : nat) (l : bytes) : list bytes :=
  match fuel with
  | O => []
  | S fuel => if (length l <? n)%nat then [] else take n l :: chunks fuel n (drop n l)
  end.
Definition chunks_exact (n : Z) (l : bytes) : list bytes := chunks (length l) (Z.to_nat n) l.

Definition validate_dimensions (width height : Z) : result unit Failure :=
  let? pixels := ok_or (checked_u64 (width * height))
                   (Failure_too_large "capture dimensions overflowed") in
  if (width =? 0) || (height =? 0) || (MAX_CAPTURE_WIDTH <? width)
     || (MAX_CAPTURE_HEIGHT <? height) || (MAX_CAPTURE_PIXELS <? pixels)
  then Err (Failure_too_large "capture target exceeds the published image bounds")
  else Ok tt.

(** The two folds of [pixel_value]. *)
Fixpoint pixel_lsb (index value : Z) (bytes : bytes) : Z :=
  match bytes with
  | [] => value
  | byte :: bytes => pixel_lsb (index + 1) (Z.lor value (Z.shiftl byte (index * 8))) bytes
  end.
Definition pixel_msb : bytes → Z := foldl (λ value byte, Z.lor (Z.shiftl value 8) byte) 0.

Definition pixel_value (bytes : bytes) (order : Z) : Z :=
  if order =? LSB_FIRST then pixel_lsb 0 0 bytes else pixel_msb bytes.

Fixpoint positive_trailing_zeros (p : positive) : Z :=
  match p with
  | xO p => 1 + positive_trailing_zeros p
  | _ => 0
  end.
(** [u32::trailing_zeros], [u32::is_power_of_two] *)
Definition trailing_zeros (x : Z) : Z :=
  match x with Zpos p => positive_trailing_zeros p | _ => 32 end.
Definition is_power_of_two (x : Z) : bool := (0 <? x) && (Z.land x (x - 1) =? 0).

Definition component (pixel mask : Z) : result Z Failure :=
  if mask =? 0 then Err (Failure_unsupported "capture visual has an empty color mask") else
  let shift := trailing_zeros mask in
  let maximum := Z.shiftr mask shift in
  if negb (is_some_and is_power_of_two (checked_u32 (maximum + 1)))
  then Err (Failure_unsupported "capture visual has a noncontiguous color mask") else
  let value := Z.shiftr (Z.land pixel mask) shift in
  let scaled := (value * 255 + maximum / 2) / maximum in
  ok_or (checked_in 0 255 scaled) (Failure_unsupported "capture color conversion overflowed").

(** The inner loop over the pixels of a row. *)
Definition pixel_components (visual : Visualtype) (order : Z) (pixel : bytes)
  : result bytes Failure :=
  let value := pixel_value pixel order in
  let? red := component value (red_mask visual) in
  let? green := component value (green_mask visual) in
  let? blue := component value (blue_mask visual) in
  Ok [red; green; blue].

Fixpoint convert {A} (f : A → result bytes Failure) (l : list A) : result bytes Failure :=
  match l with
  | [] => Ok []
  | a :: l => let? rgb := f a in let? rest := convert f l in Ok (rgb ++ rest)
  end.

Definition scanline_overflow : Failure := Failure_too_large "capture scanline size overflowed".

Definition to_rgb (self : RawCapture) : result bytes Failure :=
  if RawCapture_depth self =? 0
  then Err (Failure_unsupported "capture pixmap has no color depth") else
  let pixel_bytes := RawCapture_bits_per_pixel self / 8 in
  let? row_bits := ok_or (checked_u64 (RawCapture_width self * RawCapture_bits_per_pixel self))
                     scanline_overflow in
  let pad := RawCapture_scanline_pad self in
  let? stride := ok_or (bits ← checked_u64 ((row_bits + pad - 1) / pad * pad); Some (bits / 8))
                   scanline_overflow in
  let? required := ok_or (checked_u64 (stride * RawCapture_height self))
                     (Failure_too_large "capture pixel storage overflowed") in
  if (len (RawCapture_data self) <? required)
     || (Z.min (required + 3) U64_MAX <? len (RawCapture_data self))
  then Err (Failure_unavailable "capture pixel storage has an unexpected length")
  else
    convert
      (λ row, convert (pixel_components (RawCapture_visual self) (RawCapture_image_byte_order self))
                (chunks_exact pixel_bytes
                   (take (Z.to_nat (RawCapture_width self * pixel_bytes)) row)))
      (chunks_exact stride (take (Z.to_nat required) (RawCapture_data self))).

(** ** Encoding *)

(** Where the [png] crate's encoder can fail. *)
Inductive PngStep := PngStep_Header | PngStep_Data.

Section encoding.
(** The [png] crate's encoder for 8-bit RGB and the [base64] crate's standard engine. *)
Context (png_encode : Z → Z → bytes → result bytes PngStep) (BASE64_encode : bytes → str).

Definition encode_png (width height : Z) (rgb : bytes) : result CaptureData Failure :=
  let? png := map_err (λ step, Failure_internal
                         match step with
                         | PngStep_Header => "cannot initialize PNG capture encoding"
                         | PngStep_Data => "cannot encode PNG capture data"
                         end) (png_encode width height rgb) in
  if MAX_CAPTURE_PNG_BYTES <? len png
  then Err (Failure_too_large "encoded capture exceeds the published image bound")
  else map_err (λ _, Failure_internal "base64 capture exceeded its derived bound")
         (BoundedText_new (BASE64_encode png)).
End encoding.

(** ** Reading *)

Section capture.
Context {W : Type} `{XServer W, XInput W, SharedSeat W, XIdentities W, XImages W}.

Notation St := (Observer * W)%type.

Definition capture_bounds (region : option CaptureRegion) (geometry : Geometry)
  : result (Z * Z * Z * Z) Failure :=
  match region with
  | Some region =>
      let? right' := ok_or (checked_u16 (CaptureRegion_x region + CaptureRegion_width region))
                       (Failure_invalid "capture region horizontal extent overflowed") in
      let? bottom := ok_or (checked_u16 (CaptureRegion_y region + CaptureRegion_height region))
                       (Failure_invalid "capture region vertical extent overflowed") in
      if (geometry_width geometry <? right') || (geometry_height geometry <? bottom)
      then Err (Failure_invalid "capture region extends outside the current target") else
      let? x := ok_or (checked_i16 (CaptureRegion_x region))
                  (Failure_invalid "capture region x is unsupported") in
      let? y := ok_or (checked_i16 (CaptureRegion_y region))
                  (Failure_invalid "capture region y is unsupported") in
      Ok (x, y, CaptureRegion_width region, CaptureRegion_height region)
  | None =>
      validate_dimensions (geometry_width geometry) (geometry_height geometry) ;?
      Ok (0, 0, geometry_width geometry, geometry_height geometry)
  end.

Definition pixmap_format (depth : Z) : result Format Failure :=
  let? format := ok_or (snd <$> list_find (λ format, format_depth format = depth)
                                  (setup_pixmap_formats setup))
                   (Failure_unsupported "capture pixmap format is unavailable") in
  let bits := format_bits_per_pixel format in
  if negb ((bits =? 16) || (bits =? 24) || (bits =? 32)) || (format_scanline_pad format =? 0)
     || negb (format_scanline_pad format mod 8 =? 0)
  then Err (Failure_unsupported "capture pixmap storage format is unsupported")
  else Ok format.

Definition read_named_pixmap (pixmap : Z) (visual : Visualtype) (region : option CaptureRegion)
  : M St Failure RawCapture :=
  let! geometry := or_unavailable "cannot inspect the target pixmap"
                     "cannot inspect the target pixmap" (get_geometry pixmap) in
  let! '(x, y, width, height) := lift (capture_bounds region geometry) in
  let! format := lift (pixmap_format (geometry_depth geometry)) in
  let! '(depth, data) := or_unavailable "cannot request capture pixels"
                           "cannot read capture pixels" (get_image pixmap x y width height) in
  if negb (depth =? geometry_depth geometry)
  then fail (Failure_unavailable "capture pixel depth changed")
  else ret {| RawCapture_width := width; RawCapture_height := height;
              RawCapture_depth := depth; RawCapture_visual := visual;
              RawCapture_bits_per_pixel := format_bits_per_pixel format;
              RawCapture_scanline_pad := format_scanline_pad format;
              RawCapture_image_byte_order := setup_image_byte_order setup;
              RawCapture_data := data |}.

Definition read_redirected_pixmap (window : Z) (visual : Visualtype)
  (region : option CaptureRegion) : M St Failure RawCapture :=
  let! pixmap := or_unavailable "cannot allocate a capture pixmap identity"
                   "cannot allocate a capture pixmap identity" generate_id in
  or_unavailable "cannot request the target pixmap" "cannot name the target pixmap"
    (composite_name_window_pixmap window pixmap) ;!
  let! result := attempt (read_named_pixmap pixmap visual region) in
  let! freed := attempt (or_unavailable "cannot request capture pixmap cleanup"
                           "cannot clean up capture pixmap" (free_pixmap pixmap)) in
  match result, freed with
  | Ok raw, Ok _ => ret raw
  | Err error, _ | Ok _, Err error => fail error
  end.

Definition target_visual (attributes : WindowAttributes) : result Visualtype Failure :=
  let? visual :=
    ok_or (snd <$> list_find (λ visual, visual_id visual = attributes_visual attributes)
                     (setup_roots setup ≫= mjoin))
      (Failure_unsupported "capture target visual is unavailable") in
  if negb (visual_class visual =? TRUE_COLOR)
  then Err (Failure_unsupported "capture requires a TrueColor X11 visual")
  else Ok visual.

Definition read_target_pixels (request : TargetRequest) (region : option CaptureRegion)
  : M St Failure RawCapture :=
  let! target := observed_target request in
  let! redirected := get redirected_clients in
  if negb (bool_decide (Target_xid target ∈ redirected))
  then fail (Failure_unavailable
               "capture target is not held in provider-owned off-screen storage")
  else
    let! attributes := or_unavailable "cannot inspect capture target"
                         "cannot inspect capture target"
                         (get_window_attributes (Target_xid target)) in
    if negb (attributes_map_state attributes =? VIEWABLE)
    then fail (Failure_unavailable "capture target is not viewable")
    else
      let! visual := lift (target_visual attributes) in
      read_redirected_pixmap (Target_xid target) visual region.

Context (png_encode : Z → Z → bytes → result bytes PngStep) (BASE64_encode : bytes → str).

Definition encode_raw (raw : RawCapture) : result CaptureData Failure :=
  let? rgb := to_rgb raw in
  encode_png png_encode BASE64_encode (RawCapture_width raw) (RawCapture_height raw) rgb.

Definition capture_obscured (request : TargetRequest) : M St Failure CaptureReply :=
  let! raw := under_server_grab (read_target_pixels request None) in
  let! data := lift (encode_raw raw) in
  ret {| CaptureReply_target := request;
         CaptureReply_width := RawCapture_width raw;
         CaptureReply_height := RawCapture_height raw;
         CaptureReply_format := CaptureFormat_Png;
         CaptureReply_data := data |}.

Definition capture_region (request : CaptureRegionRequest) : M St Failure CaptureRegionReply :=
  let! raw := under_server_grab (read_target_pixels (CaptureRegionRequest_target request)
                                   (Some (CaptureRegionRequest_region request))) in
  let! data := lift (encode_raw raw) in
  ret {| CaptureRegionReply_target := CaptureRegionRequest_target request;
         CaptureRegionReply_region := CaptureRegionRequest_region request;
         CaptureRegionReply_format := CaptureFormat_Png;
         CaptureRegionReply_data := data |}.
End capture.
