(* ===== verification/TextTransfer.v ===== *)
(** * [agent-seat-x11/src/observer/text_transfer.rs]: text through the clipboard selection

    A window of the provider owns the clipboard for the time of one request; the target is
    sent control-V and asks for the selection; the text is handed only to windows of the
    target's client, under a grab, while the target has the focus, the provider still owns
    the selection and the seat permits it. *)

From S2P Require Import Prelude Text Bounded Protocol Message Effects X11 InputServer SeatGate.
From S2P Require Import Observer Manager Keyboard Input.

Definition TRANSFER_WAIT : Z := 2000 * NANOS_PER_MS.
Definition TRANSFER_SETTLE_WAIT : Z := 250 * NANOS_PER_MS.
Definition EVIDENCE_INTERVAL : Z := 50 * NANOS_PER_MS.
Definition MAX_TRANSFER_EVENTS : nat := 256.
Definition MAX_SELECTION_REQUESTS : Z := 32.
(** [ClientIdMask::CLIENT_XID] of the X-Resource extension. *)
Definition CLIENT_XID : Z := 1.

Definition transfer_reply (target : TargetRequest) (requested_bytes : Z)
  (terminal : TextTransferTerminal) : TextTransferReply :=
  {| TextTransferReply_target := target;
     TextTransferReply_requested_bytes := requested_bytes;
     TextTransferReply_delivered_bytes := 0;
     TextTransferReply_terminal := terminal |}.

Section text_transfer.
Context {W : Type} `{XServer W, XInput W, SharedSeat W, XIdentities W, XSelections W}.

Notation St := (Observer * W)%type.
Notation unavailable message := (or_unavailable message message).

Definition create_transfer_owner : M St Failure Z :=
  let! owner := unavailable "cannot allocate a text-transfer owner window" generate_id in
  let! root := get root in
  unavailable "cannot create a text-transfer owner window" (create_window owner root) ;!
  ret owner.

Definition clipboard_owner (message : string) : M St Failure Z :=
  let! clipboard := get (λ o, clipboard (atoms o)) in
  unavailable message (get_selection_owner clipboard).

Definition claim_transfer_selection (owner : Z) : M St Failure unit :=
  let! clipboard := get (λ o, clipboard (atoms o)) in
  unavailable "cannot claim the X11 clipboard selection" (set_selection_owner owner clipboard) ;!
  let! current := clipboard_owner "cannot verify X11 clipboard ownership" in
  if negb (current =? owner)
  then fail (Failure_unavailable "X11 clipboard ownership changed before text transfer")
  else ret tt.

Definition require_xres_client_identity (window : Z) : M St Failure Z :=
  let! '(server_major, server_minor) :=
    unavailable "X-Resource client identity is unavailable" (res_query_version 1 2) in
  if (server_major <? 1) || ((server_major =? 1) && (server_minor <? 2))
  then fail (Failure_unavailable "X-Resource 1.2 client identity is unavailable")
  else
    let! ids := unavailable "cannot inspect X11 client identity"
                  (res_query_client_ids window CLIENT_XID) in
    lift (ok_or (client_spec_client ∘ snd <$>
                   list_find (λ value, client_spec_mask value = CLIENT_XID ∧ client_value value = [])
                     ids)
            (Failure_unavailable "X11 client identity evidence is incomplete")).

Definition same_x_client (target requestor : Z) : M St Failure bool :=
  let! target_client := require_xres_client_identity target in
  let! requestor_client := require_xres_client_identity requestor in
  ret (target_client =? requestor_client).

Definition notify_selection (request : SelectionRequestEvent) (property : Z) : M St Failure unit :=
  unavailable "cannot send X11 selection notification"
    (send_selection_notify (selection_requestor request)
       {| notify_time := selection_time request;
          notify_requestor := selection_requestor request;
          notify_selection := selection_selection request;
          notify_target := selection_target request;
          notify_property := property |}).

(** Notify, synchronize, and report that no text was delivered. *)
Definition refuse (request : SelectionRequestEvent) (message : string) : M St Failure bool :=
  notify_selection request NONE ;!
  unavailable message sync ;!
  ret false.

Definition publish_targets (request : SelectionRequestEvent) (property : Z) : M St Failure bool :=
  let! atoms := get atoms in
  unavailable "cannot publish text-transfer targets"
    (change_property32 (selection_requestor request) property ATOM
       [targets atoms; utf8_atom atoms; text_plain_utf8 atoms; text_plain atoms]) ;!
  notify_selection request property ;!
  unavailable "cannot synchronize text-transfer targets" sync ;!
  ret false.

Definition deliver_text (request : SelectionRequestEvent) (property : Z) (text : bytes)
  : M St Failure bool :=
  unavailable "cannot deliver UTF-8 transfer text"
    (change_property8 (selection_requestor request) property (selection_target request) text) ;!
  notify_selection request property ;!
  unavailable "cannot synchronize UTF-8 text delivery" sync ;!
  ret true.

(** The part of [handle_selection_request] once the requestor is known to be the target's
    client and the provider to own the selection. *)
Definition serve_request (request : SelectionRequestEvent) (text : bytes) : M St Failure bool :=
  let property := if selection_property request =? NONE then selection_target request
                  else selection_property request in
  let! atoms := get atoms in
  if selection_target request =? targets atoms then publish_targets request property
  else if negb ((selection_target request =? utf8_atom atoms)
                || (selection_target request =? text_plain_utf8 atoms)
                || (selection_target request =? text_plain atoms))
  then refuse request "cannot refuse an unsupported text target"
  else deliver_text request property text.

Definition handle_selection_request (request : SelectionRequestEvent) (owner : Z)
  (target_request : TargetRequest) (text : bytes) (permit : SeatPermit) : M St Failure bool :=
  under_server_grab (
    let! target := focused_target target_request in
    let! enabled := accepts permit in
    if negb enabled then ret false else
    let! same := same_x_client (Target_xid target) (selection_requestor request) in
    if negb same then refuse request "cannot refuse an out-of-scope selection requestor" else
    let! current := clipboard_owner "cannot verify X11 clipboard ownership" in
    if negb (current =? owner) then ret false else
    serve_request request text).

Definition transfer_evidence_is_current (owner : Z) (target_request : TargetRequest)
  (permit : SeatPermit) : M St Failure bool :=
  let! evidence := attempt (under_server_grab (
    let! _ := focused_target target_request in
    let! enabled := accepts permit in
    if negb enabled then ret false else
    let! current := clipboard_owner "cannot verify X11 clipboard ownership" in
    ret (current =? owner))) in
  ret (match evidence with Ok current => current | Err _ => false end).

(** ** Waiting *)

(** [last_delivery], and what is left of the bounds on events and requests. *)
Record Waiting := {
  events_left : nat;
  selection_requests : Z;
  last_delivery : option Z
}.

Section waiting.
Context (owner : Z) (target_request : TargetRequest) (text : bytes) (requested_bytes : Z).
Context (permit : SeatPermit).

Definition interrupted : TextTransferReply :=
  transfer_reply target_request requested_bytes TextTransferTerminal_Interrupted.

(** Serve one request: [Some] new state, or [None] when there were too many. *)
Definition serve_selection (event : SelectionRequestEvent) (n : nat) (waiting : Waiting)
  : M St Failure (option Waiting) :=
  let requests := selection_requests waiting + 1 in
  if MAX_SELECTION_REQUESTS <? requests then ret None else
  let! delivered := handle_selection_request event owner target_request text permit in
  let! delivery := if delivered then let! t := x11 instant_now in ret (Some t)
                   else ret (last_delivery waiting) in
  ret (Some {| events_left := n; selection_requests := requests; last_delivery := delivery |}).

(** The inner loop over the pending events; [None] is an early return of the reply
    [interrupted]. *)
Fixpoint drain_events (budget : nat) (waiting : Waiting) : M St Failure (option Waiting) :=
  let! event := unavailable "cannot read X11 text-transfer events" poll_for_event in
  match event, budget with
  | None, _ => ret (Some {| events_left := budget;
                            selection_requests := selection_requests waiting;
                            last_delivery := last_delivery waiting |})
  | Some _, O => ret None
  | Some event, S budget =>
      let! clipboard := get (λ o, clipboard (atoms o)) in
      match event with
      | XEvent_SelectionClear event_owner selection =>
          if (event_owner =? owner) && (selection =? clipboard) then ret None
          else drain_events budget waiting
      | XEvent_SelectionRequest event =>
          if (selection_owner event =? owner) && (selection_selection event =? clipboard)
          then
            let! served := serve_selection event budget waiting in
            match served with
            | Some waiting => drain_events budget waiting
            | None => ret None
            end
          else drain_events budget waiting
      | XEvent_Other => drain_events budget waiting
      end
  end.

(** What the loop decides once the events are drained. *)
Definition settle (deadline now : Z) (waiting : Waiting) : option TextTransferReply :=
  if is_some_and (λ delivery, TRANSFER_SETTLE_WAIT <=? Z.max 0 (now - delivery))
       (last_delivery waiting)
     || (is_some_and (λ _, true) (last_delivery waiting) && (deadline <=? now))
  then Some {| TextTransferReply_target := target_request;
               TextTransferReply_requested_bytes := requested_bytes;
               TextTransferReply_delivered_bytes := requested_bytes;
               TextTransferReply_terminal := TextTransferTerminal_Delivered |}
  else if deadline <=? now
  then Some (transfer_reply target_request requested_bytes TextTransferTerminal_Offered)
  else None.

Definition wait_time (deadline now : Z) (waiting : Waiting) : Z :=
  let remaining := Z.max 0 (deadline - now) in
  let settle_remaining :=
    match last_delivery waiting with
    | Some delivery => Z.max 0 (TRANSFER_SETTLE_WAIT - Z.max 0 (now - delivery))
    | None => EVIDENCE_INTERVAL
    end in
  Z.min (Z.min remaining EVIDENCE_INTERVAL) settle_remaining.

(** [None] when the fuel ran out. *)
Fixpoint transfer_loop (fuel : nat) (deadline : Z) (waiting : Waiting)
  : M St Failure (option TextTransferReply) :=
  match fuel with
  | O => ret None
  | S fuel =>
      let! drained := drain_events (events_left waiting) waiting in
      match drained with
      | None => ret (Some interrupted)
      | Some waiting =>
          let! current := transfer_evidence_is_current owner target_request permit in
          if negb current then ret (Some interrupted) else
          let! now := x11 instant_now in
          match settle deadline now waiting with
          | Some reply => ret (Some reply)
          | None =>
              unavailable "cannot wait for X11 text-transfer events"
                (wait_readable (wait_time deadline now waiting)) ;!
              transfer_loop fuel deadline waiting
          end
      end
  end.

Definition wait_for_transfer (fuel : nat) : M St Failure (option TextTransferReply) :=
  let! start := x11 instant_now in
  transfer_loop fuel (start + TRANSFER_WAIT)
    {| events_left := MAX_TRANSFER_EVENTS; selection_requests := 0; last_delivery := None |}.
End waiting.

(** ** The operation *)

Definition release_transfer_owner (owner : Z) : M St Failure unit :=
  unavailable "cannot acquire text-transfer cleanup grab" grab_server ;!
  let! clipboard := get (λ o, clipboard (atoms o)) in
  let! cleanup := attempt (
    let! current := clipboard_owner "cannot inspect text-transfer cleanup state" in
    (if current =? owner
     then unavailable "cannot release X11 clipboard ownership"
            (set_selection_owner NONE clipboard)
     else ret tt) ;!
    unavailable "cannot destroy text-transfer owner window" (destroy_window owner)) in
  let! released := attempt (or_unavailable "cannot request text-transfer cleanup ungrab"
                              "cannot release text-transfer cleanup grab" ungrab_server) in
  match cleanup, released with
  | Ok _, Ok _ => unavailable "cannot synchronize text-transfer cleanup" sync
  | Err error, _ | Ok _, Err error => fail error
  end.

(** The action under the first grab. *)
Definition offer (request : TargetRequest) (owner : Z) (permit : SeatPermit) : M St Failure bool :=
  let! target := focused_target request in
  let! _ := require_xres_client_identity (Target_xid target) in
  let! enabled := accepts permit in
  if negb enabled then ret false else
  claim_transfer_selection owner ;!
  let! stroke := x11 (resolve_key KeyboardKey_V [KeyboardModifier_Control]) in
  if_accepted permit (type_key stroke).

Definition text_insert (fuel : nat) (request : TextInsertRequest) (permit : SeatPermit)
  : M St Failure (option TextTransferReply) :=
  let target_request := TextInsertRequest_target request in
  let text := as_str (TextInsertRequest_text request) in
  let! requested_bytes := lift (ok_or (checked_u32 (len text))
    (Failure_internal "text-transfer byte count cannot be represented")) in
  let! owner := create_transfer_owner in
  let! offered := attempt (under_server_grab (offer target_request owner permit)) in
  let! result :=
    match offered with
    | Ok true => attempt (wait_for_transfer owner target_request text requested_bytes permit fuel)
    | Ok false => ret (Ok (Some (transfer_reply target_request requested_bytes
                                   TextTransferTerminal_Interrupted)))
    | Err error => ret (Err error)
    end in
  let! cleanup := attempt (release_transfer_owner owner) in
  match result, cleanup with
  | Ok reply, Ok _ => ret reply
  | Err error, _ | Ok _, Err error => fail error
  end.
End text_transfer.
