(* ===== verification/Recorder.v ===== *)
(** * A recording X server

    [recorder] runs on any server and keeps, in order, the requests whose discipline the
    theorems state: grabs, events sent, flushes, injected input, and the seat word read in
    between.  Everything else passes through and leaves the record as it is, which the
    [Preserves] instances below say of the computations of the observer. *)

From S2P Require Import Prelude Text Bounded Protocol Message Effects Config X11 Scan Observer.
From S2P Require Import SeatGate InputServer Keyboard Input Capture.

(** ** The requests that matter, recorded *)

Inductive Sent :=
| Sent_Grab (granted : bool)
| Sent_Event (window : Z) (event : ClientMessageEvent) (accepted : bool)
| Sent_Ungrab
| Sent_Flush
| Sent_Input (event_type detail root_x root_y : Z) (accepted : bool)
| Sent_IgnoredInput (event_type detail : Z)
| Sent_Sync (done : bool)
| Sent_Seat (word : Z)
| Sent_NamePixmap (window pixmap : Z) (accepted : bool)
| Sent_GetImage (pixmap x y width height : Z) (accepted : bool)
| Sent_FreePixmap (pixmap : Z)
| Sent_CreateWindow (window : Z) (accepted : bool)
| Sent_DestroyWindow (window : Z) (accepted : bool)
| Sent_SetOwner (owner selection : Z) (accepted : bool)
| Sent_Owner (selection : Z) (owner : option Z)
| Sent_Client (window : Z) (reply : option (list ClientIdValue))
| Sent_Targets (window property : Z) (targets : list Z) (accepted : bool)
| Sent_Text (window property type : Z) (data : bytes) (accepted : bool)
| Sent_Notify (destination : Z) (event : SelectionNotifyEvent) (accepted : bool).

Section recording.
Context {W : Type} `{XServer W}.

Notation T := (W * list Sent)%type.

(** A request on the underlying server that leaves the record as it is. *)
Definition quietly {A} (m : M W XError A) : M T XError A := zoom fst (λ w t, (w, snd t)) m.

(** ... or adds what it was, knowing whether it succeeded. *)
Definition recorded {A} (entry : bool → Sent) (m : M W XError A) : M T XError A := λ t,
  let '(r, w) := m (fst t) in
  (r, (w, snd t ++ [entry (match r with Ok _ => true | Err _ => false end)])).

(** ... or adds what it was with its reply, if there was one. *)
Definition noted {A} (entry : option A → Sent) (m : M W XError A) : M T XError A := λ t,
  let '(r, w) := m (fst t) in
  (r, (w, snd t ++ [entry (match r with Ok a => Some a | Err _ => None end)])).

(** The same server, keeping a record of grabs, events and flushes. *)
#[export] Instance recorder : XServer T := {
  intern_atom name := quietly (intern_atom name);
  get_property window property type n := quietly (get_property window property type n);
  get_geometry window := quietly (get_geometry window);
  translate_coordinates source destination x y :=
    quietly (translate_coordinates source destination x y);
  get_window_attributes window := quietly (get_window_attributes window);
  composite_query_version major minor := quietly (composite_query_version major minor);
  composite_redirect_window window := quietly (composite_redirect_window window);
  composite_unredirect_window window := quietly (composite_unredirect_window window);
  grab_server := recorded Sent_Grab grab_server;
  ungrab_server := recorded (λ _, Sent_Ungrab) ungrab_server;
  send_event window event := recorded (Sent_Event window event) (send_event window event);
  flush := recorded (λ _, Sent_Flush) flush;
  now t := let '(i, w) := now (fst t) in (i, (w, snd t));
  sleep d t := (sleep d (fst t), snd t);
  clock t := clock (fst t);
  hash_order := hash_order
}.

Notation record_of := (λ t : T, snd t).

#[export] Instance quietly_record {A} (m : M W XError A) : Preserves record_of (quietly m).
Proof. intros t. unfold quietly, zoom. by destruct (m (fst t)). Qed.

#[export] Instance get_property_record window property type n :
  Preserves record_of (get_property window property type n).
Proof. apply (quietly_record (get_property window property type n)). Qed.
#[export] Instance get_geometry_record window : Preserves record_of (get_geometry window).
Proof. apply (quietly_record (get_geometry window)). Qed.
#[export] Instance translate_record source destination x y :
  Preserves record_of (translate_coordinates source destination x y).
Proof. apply (quietly_record (translate_coordinates source destination x y)). Qed.
#[export] Instance attributes_record window : Preserves record_of (get_window_attributes window).
Proof. apply (quietly_record (get_window_attributes window)). Qed.
#[export] Instance version_record major minor :
  Preserves record_of (composite_query_version major minor).
Proof. apply (quietly_record (composite_query_version major minor)). Qed.
#[export] Instance redirect_record window : Preserves record_of (composite_redirect_window window).
Proof. apply (quietly_record (composite_redirect_window window)). Qed.
#[export] Instance unredirect_record window :
  Preserves record_of (composite_unredirect_window window).
Proof. apply (quietly_record (composite_unredirect_window window)). Qed.

#[export] Instance property32_record window property type max :
  Preserves record_of (property32 window property type max).
Proof. unfold property32. solve_preserves. Qed.
#[export] Instance property_bytes_record window property type max :
  Preserves record_of (property_bytes window property type max).
Proof. unfold property_bytes. solve_preserves. Qed.
#[export] Instance ok_flatten_record {E F A} (m : M T E (option A)) :
  Preserves record_of m → Preserves (E:=F) record_of (ok_flatten m).
Proof. intros. unfold ok_flatten. solve_preserves. Qed.
#[export] Instance optional_cardinal_record window property :
  Preserves record_of (optional_cardinal window property).
Proof. unfold optional_cardinal. solve_preserves. Qed.
#[export] Instance optional_window_record window property :
  Preserves record_of (optional_window window property).
Proof. unfold optional_window. solve_preserves. Qed.
#[export] Instance first_title_record xid atoms properties :
  Preserves record_of (first_title xid atoms properties).
Proof. induction properties as [|p ps IH]; cbn [first_title]; solve_preserves. Qed.
#[export] Instance client_frame_extents_record xid atoms :
  Preserves record_of (client_frame_extents xid atoms).
Proof. unfold client_frame_extents. solve_preserves. Qed.
#[export] Instance read_client_record root atoms supp xid current count scope titles :
  Preserves record_of (read_client root atoms supp xid current count scope titles).
Proof.
  unfold read_client, client_states, client_placement, client_title, client_frame,
    client_actions, atom_list. solve_preserves.
Qed.
#[export] Instance scan_record root atoms scope titles :
  Preserves record_of (scan root atoms scope titles).
Proof.
  unfold scan, validate_wm, required_cardinal, read_workspaces, client_list. solve_preserves.
Qed.

Notation St := (Observer * T)%type.
Notation sent := (λ s : Observer * T, snd (snd s)).

#[export] Instance x11_sent {E A} (m : M T E A) : Preserves record_of m → Preserves sent (x11 m).
Proof.
  intros Hm [o t]. unfold x11, zoom. cbn. pose proof (Hm t). by destruct (m t).
Qed.
#[export] Instance self_sent {A} (m : M Observer Failure A) : Preserves sent (self (W:=T) m).
Proof. intros [o t]. unfold self, zoom. cbn. by destruct (m o). Qed.
#[export] Instance get_sent {E A} (f : Observer → A) : Preserves sent (get (W:=T) (E:=E) f).
Proof. done. Qed.
#[export] Instance or_unavailable_sent {A} request reply (m : M T XError A) :
  Preserves record_of m → Preserves sent (or_unavailable request reply m).
Proof. intros. unfold or_unavailable. apply _. Qed.
#[export] Instance now_record : Preserves record_of (instant_now (W:=T)).
Proof. intros [w l]. unfold instant_now. cbn. by destruct (now w). Qed.
#[export] Instance sleep_record d : Preserves record_of (thread_sleep (W:=T) d).
Proof. done. Qed.
#[export] Instance refresh_sent : Preserves sent (refresh (W:=T)).
Proof.
  unfold refresh, reconcile_capture_targets, require_composite_capture, unredirect_departed,
    redirect_added. solve_preserves.
Qed.
Lemma recorded_raw_post {A} (entry : bool → Sent) (m : M W XError A) (s : St) :
  wp (x11 (recorded entry m))
    (λ _ s', fst s' = fst s ∧ snd (snd s') = snd (snd s) ++ [entry true])
    (λ _ s', fst s' = fst s ∧ snd (snd s') = snd (snd s) ++ [entry false]) s.
Proof.
  destruct s as [o [w l]]. unfold x11, zoom, recorded, wp. cbn. by destruct (m w) as [[] ?].
Qed.

Lemma recorded_post {A} (entry : bool → Sent) (m : M W XError A) request reply (s : St) :
  wp (or_unavailable request reply (recorded entry m))
    (λ _ s', fst s' = fst s ∧ snd (snd s') = snd (snd s) ++ [entry true])
    (λ _ s', fst s' = fst s ∧ snd (snd s') = snd (snd s) ++ [entry false]) s.
Proof.
  destruct s as [o [w l]]. unfold or_unavailable, x11, zoom, map_error, recorded, wp. cbn.
  by destruct (m w) as [[] ?].
Qed.

Lemma wp_sent {A} (m : M St Failure A) s l :
  Preserves sent m → snd (snd s) = l →
  wp m (λ _ s', snd (snd s') = l) (λ _ s', snd (snd s') = l) s.
Proof. intros Hm <-. by apply (preserves_wp sent). Qed.
End recording.

(** ** Input and the seat word *)

Section input.
Context {W : Type} `{XServer W, XInput W, SharedSeat W}.

Notation T := (W * list Sent)%type.
Notation St := (Observer * T)%type.
Notation record_of := (λ t : T, snd t).
Notation sent := (λ s : Observer * T, snd (snd s)).

#[export] Instance input_recorder : XInput T := {
  get_input_focus := quietly get_input_focus;
  query_tree window := quietly (query_tree window);
  shape_get_rectangles window := quietly (shape_get_rectangles window);
  xtest_fake_input type detail x y :=
    recorded (Sent_Input type detail x y) (xtest_fake_input type detail x y);
  xtest_fake_input_ignored type detail :=
    recorded (λ _, Sent_IgnoredInput type detail) (xtest_fake_input_ignored type detail);
  sync := recorded Sent_Sync sync;
  xkb_use_extension major minor := quietly (xkb_use_extension major minor);
  xkb_get_state device := quietly (xkb_get_state device);
  xkb_get_map device := quietly (xkb_get_map device)
}.

#[export] Instance seat_recorder : SharedSeat T := {
  load_gate t := let '(word, w) := load_gate (fst t) in (word, (w, snd t ++ [Sent_Seat word]))
}.

#[export] Instance get_input_focus_record : Preserves record_of (get_input_focus (W:=T)).
Proof. apply (quietly_record get_input_focus). Qed.
#[export] Instance query_tree_record window : Preserves record_of (query_tree (W:=T) window).
Proof. apply (quietly_record (query_tree window)). Qed.
#[export] Instance shape_record window : Preserves record_of (shape_get_rectangles (W:=T) window).
Proof. apply (quietly_record (shape_get_rectangles window)). Qed.
#[export] Instance KeyboardMap_record : Preserves record_of (KeyboardMap_read (W:=T)).
Proof.
  assert (∀ a b, Preserves record_of (xkb_use_extension (W:=T) a b))
    by (intros; apply (quietly_record (xkb_use_extension a b))).
  assert (∀ d, Preserves record_of (xkb_get_state (W:=T) d))
    by (intros; apply (quietly_record (xkb_get_state d))).
  assert (∀ d, Preserves record_of (xkb_get_map (W:=T) d))
    by (intros; apply (quietly_record (xkb_get_map d))).
  unfold KeyboardMap_read. solve_preserves.
Qed.
#[export] Instance resolve_text_record text : Preserves record_of (resolve_text (W:=T) text).
Proof. unfold resolve_text. solve_preserves. Qed.
#[export] Instance resolve_character_record character position :
  Preserves record_of (resolve_character (W:=T) character position).
Proof. unfold resolve_character. solve_preserves. Qed.
#[export] Instance resolve_key_record key modifiers :
  Preserves record_of (resolve_key (W:=T) key modifiers).
Proof. unfold resolve_key. solve_preserves. Qed.

#[export] Instance frame_ancestry_sent n candidate window :
  Preserves sent (frame_ancestry (W:=T) n candidate window).
Proof.
  revert window. induction n as [|n IH]; intros; cbn [frame_ancestry]; unfold tree;
    solve_preserves.
Qed.
#[export] Instance focus_ancestry_sent n target window :
  Preserves sent (focus_ancestry (W:=T) n target window).
Proof.
  revert window. induction n as [|n IH]; intros; cbn [focus_ancestry]; unfold tree;
    solve_preserves.
Qed.
#[export] Instance require_focus_sent target :
  Preserves sent (require_focus_owned_by (W:=T) target).
Proof. unfold require_focus_owned_by. solve_preserves. Qed.
#[export] Instance hit_test_sent children x y : Preserves sent (hit_test (W:=T) children x y).
Proof. induction children as [|c cs IH]; cbn [hit_test]; solve_preserves. Qed.
#[export] Instance require_point_sent target x y :
  Preserves sent (require_point_owned_by (W:=T) target x y).
Proof.
  unfold require_point_owned_by, is_target_or_reparenting_frame, tree. solve_preserves.
Qed.
#[export] Instance observed_target_sent request :
  Preserves sent (observed_target (W:=T) request).
Proof. unfold observed_target. solve_preserves. Qed.
#[export] Instance pointer_destination_sent request x y :
  Preserves sent (pointer_destination (W:=T) request x y).
Proof. unfold pointer_destination. solve_preserves. Qed.
#[export] Instance focused_target_sent request : Preserves sent (focused_target (W:=T) request).
Proof. unfold focused_target. solve_preserves. Qed.

Lemma accepts_post permit (s : St) R :
  wp (accepts permit)
    (λ enabled s', ∃ word, enabled = SeatGate_accepts word permit ∧ fst s' = fst s ∧
                     snd (snd s') = snd (snd s) ++ [Sent_Seat word]) R s.
Proof.
  destruct s as [o [w l]]. unfold accepts, x11, zoom, seat_accepts, wp. cbn.
  destruct (load_gate w) as [word w1]. by exists word.
Qed.
End input.

(** ** Images and selections *)

Section images.
Context {W : Type} `{XServer W, XInput W, SharedSeat W, XIdentities W, XImages W}.

Notation T := (W * list Sent)%type.
Notation record_of := (λ t : T, snd t).
Notation sent := (λ s : Observer * T, snd (snd s)).

#[export] Instance identities_recorder : XIdentities T := { generate_id := quietly generate_id }.

#[export] Instance images_recorder : XImages T := {
  setup := setup (W:=W);
  composite_name_window_pixmap window pixmap :=
    recorded (Sent_NamePixmap window pixmap) (composite_name_window_pixmap window pixmap);
  free_pixmap pixmap := recorded (λ _, Sent_FreePixmap pixmap) (free_pixmap pixmap);
  get_image pixmap x y width height :=
    recorded (Sent_GetImage pixmap x y width height) (get_image pixmap x y width height)
}.

#[export] Instance generate_id_record : Preserves record_of (generate_id (W:=T)).
Proof. apply (quietly_record generate_id). Qed.
End images.

Section selections.
Context {W : Type} `{XSelections W}.

Notation T := (W * list Sent)%type.
Notation record_of := (λ t : T, snd t).

#[export] Instance selections_recorder : XSelections T := {
  create_window window parent :=
    recorded (Sent_CreateWindow window) (create_window window parent);
  destroy_window window := recorded (Sent_DestroyWindow window) (destroy_window window);
  set_selection_owner owner selection :=
    recorded (Sent_SetOwner owner selection) (set_selection_owner owner selection);
  get_selection_owner selection :=
    noted (Sent_Owner selection) (get_selection_owner selection);
  poll_for_event := quietly poll_for_event;
  change_property32 window property type data :=
    recorded (Sent_Targets window property data) (change_property32 window property type data);
  change_property8 window property type data :=
    recorded (Sent_Text window property type data) (change_property8 window property type data);
  send_selection_notify destination event :=
    recorded (Sent_Notify destination event) (send_selection_notify destination event);
  res_query_version major minor := quietly (res_query_version major minor);
  res_query_client_ids window mask :=
    noted (Sent_Client window) (res_query_client_ids window mask);
  wait_readable timeout := quietly (wait_readable timeout)
}.

#[export] Instance poll_for_event_record : Preserves record_of (poll_for_event (W:=T)).
Proof. apply (quietly_record poll_for_event). Qed.
#[export] Instance res_query_version_record major minor :
  Preserves record_of (res_query_version (W:=T) major minor).
Proof. apply (quietly_record (res_query_version major minor)). Qed.
#[export] Instance wait_readable_record timeout :
  Preserves record_of (wait_readable (W:=T) timeout).
Proof. apply (quietly_record (wait_readable timeout)). Qed.
End selections.

(** ** Nothing is taken off the record

    ... and, but for the hand-over of text, no text is written to other windows. *)

Definition quiet (entry : Sent) : Prop :=
  match entry with Sent_Text _ _ _ _ _ => False | _ => True end.

Class Appends {W E A} (m : M (Observer * (W * list Sent)) E A) : Prop :=
  appends : ∀ s, ∃ l, snd (snd (m s).2) = snd (snd s) ++ l ∧ Forall quiet l.

Section appends.
Context {W : Type}.

Notation T := (W * list Sent)%type.
Notation St := (Observer * T)%type.
Notation sent := (λ s : Observer * T, snd (snd s)).

#[export] Instance preserves_appends {E A} (m : M St E A) : Preserves sent m → Appends m | 100.
Proof. intros Hm s. exists []. rewrite app_nil_r. split; [apply Hm|done]. Qed.
#[export] Instance bind_appends {E A B} (m : M St E A) (k : A → M St E B) :
  Appends m → (∀ a, Appends (k a)) → Appends (bind m k) | 10.
Proof.
  intros Hm Hk s. unfold bind. destruct (Hm s) as (l & Hl & Hq).
  destruct (m s) as [[a|e] s1]; cbn in *; [|by exists l].
  destruct (Hk a s1) as (l' & Hl' & Hq'). exists (l ++ l').
  split; [by rewrite Hl', Hl, (assoc_L (++))|by apply Forall_app].
Qed.
#[export] Instance attempt_appends {E F A} (m : M St E A) : Appends m → Appends (E:=F) (attempt m) | 10.
Proof. intros Hm s. unfold attempt. destruct (Hm s) as [l Hl]. exists l. by destruct (m s). Qed.
#[export] Instance for_each_appends {E A} (f : A → M St E unit) l :
  (∀ a, Appends (f a)) → Appends (for_each f l) | 10.
Proof. intros Hf. induction l as [|a l IH]; cbn [for_each]; apply _. Qed.

Lemma recorded_appends {A} entry (m : M W XError A) request reply :
  (∀ b, quiet (entry b)) → Appends (or_unavailable request reply (recorded entry m)).
Proof.
  intros Hq [o [w l]]. unfold or_unavailable, x11, zoom, map_error, recorded. cbn.
  destruct (m w) as [[] ?]; (eexists; split; [reflexivity|by constructor]).
Qed.
Lemma noted_appends {A} entry (m : M W XError A) request reply :
  (∀ b, quiet (entry b)) → Appends (or_unavailable request reply (noted entry m)).
Proof.
  intros Hq [o [w l]]. unfold or_unavailable, x11, zoom, map_error, noted. cbn.
  destruct (m w) as [[] ?]; (eexists; split; [reflexivity|by constructor]).
Qed.
Lemma recorded_raw_appends {E} {A} entry (m : M W E A) :
  (∀ b, quiet (entry b)) →
  Appends (x11 (λ t : T, let '(r, w) := m (fst t) in
    (r, (w, snd t ++ [entry (match r with Ok _ => true | Err _ => false end)])))).
Proof.
  intros Hq [o [w l]]. unfold x11, zoom. cbn.
  destruct (m w) as [[] ?]; (eexists; split; [reflexivity|by constructor]).
Qed.

Lemma wp_appends {E A} (m : M St E A) Q R (s : St) :
  Appends m → wp m Q R s →
  wp m (λ a s', Q a s' ∧ ∃ l, snd (snd s') = snd (snd s) ++ l ∧ Forall quiet l)
    (λ e s', R e s' ∧ ∃ l, snd (snd s') = snd (snd s) ++ l ∧ Forall quiet l) s.
Proof.
  intros Hm Hwp. destruct (Hm s) as [l Hl]. unfold wp in *. destruct (m s) as [[] ?]; cbn in Hl; eauto.
Qed.
End appends.

Ltac solve_appends :=
  repeat first
    [ progress intros
    | match goal with |- Appends (match ?x with _ => _ end) => destruct x end
    | solve [apply _]
    | apply bind_appends | apply attempt_appends | apply for_each_appends
    | solve [apply recorded_appends; done | apply noted_appends; done
            | apply recorded_raw_appends; done] ].

(** ** The record of a grab *)

Section grabs.
Context {W : Type} `{XServer W, XInput W, SharedSeat W}.

Notation T := (W * list Sent)%type.
Notation St := (Observer * T)%type.

(** Whatever the action does stands between its grab and its ungrab. *)
Lemma under_grab_record {A} (action : M St Failure A) (Q : A → list Sent → Prop)
    (R : list Sent → Prop) (s : St) :
  (∀ s1 : St, fst s1 = fst s → snd (snd s1) = snd (snd s) ++ [Sent_Grab true] →
     wp action (λ a s2, ∃ l, snd (snd s2) = snd (snd s1) ++ l ∧ Q a l)
       (λ _ s2, ∃ l, snd (snd s2) = snd (snd s1) ++ l ∧ R l) s1) →
  wp (under_server_grab action)
    (λ a s', ∃ l, snd (snd s') = snd (snd s) ++ [Sent_Grab true] ++ l ++ [Sent_Ungrab] ∧ Q a l)
    (λ _ s', snd (snd s') = snd (snd s) ++ [Sent_Grab false] ∨
       ∃ l, snd (snd s') = snd (snd s) ++ [Sent_Grab true] ++ l ++ [Sent_Ungrab] ∧
         (R l ∨ ∃ a, Q a l)) s.
Proof.
  intros Hact. unfold under_server_grab. wp_step. wp_call recorded_post.
  2: { intros e s1 [_ Hs1]. by left. }
  intros [] s1 [Ho1 Hs1]. specialize (Hact s1 Ho1 Hs1). do 2 wp_step. wp_call Hact.
  - intros a s2 (l & Hs2 & HQ).
    assert (∀ s3 : St, snd (snd s3) = snd (snd s2) ++ [Sent_Ungrab] →
      snd (snd s3) = snd (snd s) ++ [Sent_Grab true] ++ l ++ [Sent_Ungrab]) as Hend.
    { intros s3 ->. by rewrite Hs2, Hs1, <- !(assoc_L (++)). }
    do 2 wp_step. wp_call recorded_post; intros u s3 [_ Hs3%Hend]; wp_step.
    + by exists l.
    + right. exists l. split; [done|]. right. by exists a.
  - intros e s2 (l & Hs2 & HR). do 2 wp_step.
    wp_call recorded_post; intros u s3 [_ Hs3]; wp_step; right; exists l;
      (split; [by rewrite Hs3, Hs2, Hs1, <- !(assoc_L (++))|by left]).
Qed.

Lemma noted_post {A} (entry : option A → Sent) (m : M W XError A) request reply (s : St) :
  wp (or_unavailable request reply (noted entry m))
    (λ a s', fst s' = fst s ∧ snd (snd s') = snd (snd s) ++ [entry (Some a)])
    (λ _ s', fst s' = fst s ∧ snd (snd s') = snd (snd s) ++ [entry None]) s.
Proof.
  destruct s as [o [w l]]. unfold or_unavailable, x11, zoom, map_error, noted, wp. cbn.
  by destruct (m w) as [[] ?].
Qed.
End grabs.
