(* ===== verification/ManagerTheorems.v ===== *)
(** * Properties of window management

    Only justified messages are sent, under the grab and at most once; the grab is always
    released; the reported observation is what the last reading showed; and the watch
    ends. *)

From S2P Require Import Prelude Text Bounded Protocol Message MessageSpec Effects Config X11 Scan.
From S2P Require Import Observer Manager ObserverSpec ObserverTheorems Recorder.

(** ** What a message must be justified by *)

(** The request names this client of the current model, at its current generation. *)
Definition fresh (o : Observer) (request : TargetRequest) (c : ClientRecord) : Prop :=
  (∃ m, model o = Some m ∧ c ∈ Model_clients m) ∧
  record_id c = TargetRequest_client request ∧
  ClientDescriptor_generation (ClientRecord_descriptor c) = TargetRequest_generation request.

Definition advertises (c : ClientRecord) (action : ClientAction) : Prop :=
  action ∈ as_slice (ClientDescriptor_actions (ClientRecord_descriptor c)).

Definition has_workspace (o : Observer) (workspace : WorkspaceId) : Prop :=
  ∃ m, model o = Some m ∧ workspace ∈ WorkspaceDescriptor_id <$> Model_workspaces m.

(** The atom of a state and, where the manager lets a client forbid the change, the atom of
    the action that allows it.  Hidden is not a request. *)
Inductive state_change (atoms : Atoms) : ClientState → Z → option Z → Prop :=
| change_above : state_change atoms ClientState_Above (state_above atoms) (Some (action_above atoms))
| change_below : state_change atoms ClientState_Below (state_below atoms) (Some (action_below atoms))
| change_fullscreen :
    state_change atoms ClientState_Fullscreen (state_fullscreen atoms) (Some (action_fullscreen atoms))
| change_horizontal : state_change atoms ClientState_MaximizedHorizontal
    (state_maximized_horz atoms) (Some (action_maximize_horz atoms))
| change_vertical : state_change atoms ClientState_MaximizedVertical
    (state_maximized_vert atoms) (Some (action_maximize_vert atoms))
| change_attention :
    state_change atoms ClientState_DemandsAttention (state_demands_attention atoms) None
| change_sticky : state_change atoms ClientState_Sticky (state_sticky atoms) (Some (action_stick atoms))
| change_shaded : state_change atoms ClientState_Shaded (state_shaded atoms) (Some (action_shade atoms)).

(** The window the activation request names as active: that of the active client, or none. *)
Definition active_window_of (m : Model) (active : Z) : Prop :=
  (∃ c, c ∈ Model_clients m ∧ Model_active m = Some (record_id c) ∧ active = ClientRecord_xid c) ∨
  (active = 0 ∧ ∀ c, c ∈ Model_clients m → Model_active m ≠ Some (record_id c)).

(** What is sent to move or resize: which of the four values change, in bits 8 to 11, with
    static gravity and the source of a pager; and the rectangle inside the borders. *)
Definition geometry_event (window type : Z) (current frame : Rect) (l r t b : Z)
    (event : ClientMessageEvent) : Prop :=
  ∃ flags, (∀ i, 0 ≤ i → Z.testbit flags i = true ↔
      i = 1 ∨ i = 3 ∨ i = 13 ∨ i = 8 ∧ Rect_x frame ≠ Rect_x current ∨
      i = 9 ∧ Rect_y frame ≠ Rect_y current ∨ i = 10 ∧ Rect_width frame ≠ Rect_width current ∨
      i = 11 ∧ Rect_height frame ≠ Rect_height current) ∧
  is_i32 (Rect_x frame + l) ∧ is_i32 (Rect_y frame + t) ∧
  0 < Rect_width frame - (l + r) ∧ 0 < Rect_height frame - (t + b) ∧
  event = {| message_window := window; message_type := type;
             message_data := [flags; (Rect_x frame + l) mod 2 ^ 32; (Rect_y frame + t) mod 2 ^ 32;
                              Rect_width frame - (l + r); Rect_height frame - (t + b)] |}.

Lemma record_Some o id c :
  record o id = Some c → (∃ m, model o = Some m ∧ c ∈ Model_clients m) ∧ record_id c = id.
Proof.
  unfold record. destruct (model o) as [m|]; [|done].
  destruct (list_find _ _) as [[i c']|] eqn:Hf; [|done]. cbn. intros [= <-].
  apply list_find_Some in Hf as (Hc & Hid & _). split; [|done].
  exists m. split; [done|]. by eapply list_elem_of_lookup_2.
Qed.

Lemma record_None o id m c :
  record o id = None → model o = Some m → c ∈ Model_clients m → record_id c ≠ id.
Proof.
  unfold record. intros Hn Hm Hc Hid. rewrite Hm in Hn. apply fmap_None in Hn.
  apply list_find_None in Hn. rewrite Forall_forall in Hn. by apply (Hn c).
Qed.

Lemma target_fresh o request t :
  target o request = Ok t →
  ∃ c, fresh o request c ∧ Target_id t = TargetRequest_client request ∧
    Target_xid t = ClientRecord_xid c ∧
    Target_frame t = ClientDescriptor_frame (ClientRecord_descriptor c) ∧
    Target_states t = as_slice (ClientDescriptor_states (ClientRecord_descriptor c)) ∧
    Target_actions t = as_slice (ClientDescriptor_actions (ClientRecord_descriptor c)).
Proof.
  unfold target. destruct (record o _) as [c|] eqn:Hr; [|done]. case_match eqn:Hg; [done|].
  bool_props. intros [= <-]. apply record_Some in Hr as [Hm Hid].
  exists c. split_and!; [|exact Hid|done..]. split_and!; done.
Qed.

(** ** The frame that is asked for is the frame that would be read back *)

Definition Rect_typed (r : Rect) : Prop :=
  is_i32 (Rect_x r) ∧ is_i32 (Rect_y r) ∧ is_u32 (Rect_width r) ∧ is_u32 (Rect_height r).

Definition extents_typed (extents : Z * Z * Z * Z) : Prop :=
  let '(l, r, t, b) := extents in is_u32 l ∧ is_u32 r ∧ is_u32 t ∧ is_u32 b.

Lemma checked_then {A E} lo hi v (e : E) (k : Z → result A E) r :
  (let? a := ok_or (checked_in lo hi v) e in k a) = Ok r → lo ≤ v ≤ hi ∧ k v = Ok r.
Proof.
  destruct (checked_in lo hi v) as [a|] eqn:Hc; [|done]. cbn. intros Hk.
  apply checked_in_Some in Hc as [-> ?]. done.
Qed.

Lemma ensure_then {A E} b (e : E) (k : result A E) r : (ensure b e ;? k) = Ok r → b = true ∧ k = Ok r.
Proof. destruct b; [done|]. by cbn. Qed.

Lemma client_rect_Ok frame l r t b x y width height :
  client_rect frame (l, r, t, b) = Ok (x, y, width, height) →
  is_i32 l ∧ is_i32 t ∧ is_u32 (l + r) ∧ is_u32 (t + b) ∧
  is_i32 x ∧ x = Rect_x frame + l ∧ is_i32 y ∧ y = Rect_y frame + t ∧
  is_u32 width ∧ width ≠ 0 ∧ width = Rect_width frame - (l + r) ∧
  is_u32 height ∧ height ≠ 0 ∧ height = Rect_height frame - (t + b).
Proof.
  unfold client_rect. intros Hc.
  do 7 (apply checked_then in Hc as [? Hc]).
  apply ensure_then in Hc as [Hw Hc]. apply checked_then in Hc as [? Hc].
  apply ensure_then in Hc as [Hh Hc]. bool_props. by simplify_eq.
Qed.

(** [i32::from_ne_bytes] of the bytes of a [u32]. *)
Definition u32_as_i32 (u : Z) : Z := if u <=? I32_MAX then u else u - 4294967296.

Lemma u32_i32_round_trip x : is_i32 x → u32_as_i32 (i32_as_u32 x) = x ∧ is_u32 (i32_as_u32 x).
Proof.
  intros Hx. unfold u32_as_i32, i32_as_u32. int_bounds.
  split; [|by pose proof (Z.mod_pos_bound x 4294967296); lia].
  destruct (Z.leb_spec (x mod 4294967296) 2147483647); Z.div_mod_to_equations; lia.
Qed.

(** Geometry requests are exact.  If the window manager places the client where the
    message says, between the border widths that were read, then the frame the observer
    reads back is the requested frame; the client rectangle is never empty, and its
    coordinates survive the trip through the unsigned words of the message. *)
Theorem geometry_request_exact frame extents x y width height :
  Rect_typed frame → extents_typed extents →
  client_rect frame extents = Ok (x, y, width, height) →
  frame_from x y width height extents = Some frame ∧ 0 < width ∧ 0 < height ∧
  u32_as_i32 (i32_as_u32 x) = x ∧ u32_as_i32 (i32_as_u32 y) = y ∧
  Forall is_u32 [i32_as_u32 x; i32_as_u32 y; width; height].
Proof.
  destruct frame as [fx fy fw fh], extents as [[[l r] t] b].
  intros (Hx & Hy & Hw & Hh) (Hl & Hr & Ht & Hb) Hc.
  apply client_rect_Ok in Hc as (? & ? & ? & ? & Hix & -> & Hiy & -> & Hiw & ? & -> & Hih & ? & ->).
  cbn [Rect_x Rect_y Rect_width Rect_height] in *.
  destruct (u32_i32_round_trip _ Hix), (u32_i32_round_trip _ Hiy).
  split; [|int_bounds; split_and!; [lia..|done|done|repeat constructor; lia]].
  unfold frame_from, checked_i32, checked_u32.
  rewrite (checked_in_intro I32_MIN I32_MAX l), (checked_in_intro I32_MIN I32_MAX t) by done.
  cbn [mbind option_bind].
  replace (fx + l - l) with fx by lia. replace (fy + t - t) with fy by lia.
  rewrite (checked_in_intro _ _ fx), (checked_in_intro _ _ fy) by done. cbn [mbind option_bind].
  replace (fw - (l + r) + l) with (fw - r) by lia.
  replace (fh - (t + b) + t) with (fh - b) by lia.
  rewrite (checked_in_intro _ _ (fw - r)) by (int_bounds; lia). cbn [mbind option_bind].
  replace (fw - r + r) with fw by lia. rewrite (checked_in_intro _ _ fw) by done.
  cbn [mbind option_bind].
  rewrite (checked_in_intro _ _ (fh - b)) by (int_bounds; lia). cbn [mbind option_bind].
  replace (fh - b + b) with fh by lia. rewrite (checked_in_intro _ _ fh) by done. done.
Qed.

(** ** What [prepare] allows *)

Section prepare.
Context {W : Type} `{XServer W}.

Notation anything := (λ _ _, True).

Lemma wp_any {S E A} (m : M S E A) s : wp m anything anything s.
Proof. unfold wp. by destruct (m s) as [[] ?]. Qed.

Lemma wp_ensure {S E A} (r : result unit E) (m : M S E A) Q (R : E → S → Prop) s :
  (∀ e s, R e s) → (r = Ok tt → wp m Q R s) → wp (lift r ;! m) Q R s.
Proof. intros HR Hm. wp_step. apply wp_lift; [|by intros]. intros [] Hr. by apply Hm. Qed.

Lemma wp_target {A} (r : result Target Failure) (k : Target → M W Failure A) Q s :
  (∀ t, r = Ok t → wp (k t) Q anything s) → wp (let! t := lift r in k t) Q anything s.
Proof. intros Hk. wp_step. by apply wp_lift. Qed.

Lemma require_workspace_Ok o workspace :
  require_workspace o workspace = Ok tt → has_workspace o workspace.
Proof.
  unfold require_workspace, current_model. destruct (model o) as [m|] eqn:Hm; [|done]. cbn.
  case_bool_decide; [|done]. intros _. by exists m.
Qed.

Lemma require_action_Ok t action : require_action t action = Ok tt → action ∈ Target_actions t.
Proof. unfold require_action, ensure. by case_bool_decide. Qed.

Lemma has_atom_true atom values : has_atom atom (default [] values) = true → ∃ l, values = Some l ∧ atom ∈ l.
Proof.
  unfold has_atom. rewrite bool_decide_eq_true. destruct values as [l|]; cbn; [by exists l|by intros ?%not_elem_of_nil].
Qed.
Lemma require_supported_Ok values atom :
  require_supported (default [] values) atom = Ok tt → ∃ l, values = Some l ∧ atom ∈ l.
Proof. unfold require_supported, ensure. destruct (has_atom _ _) eqn:Ha; [|done]. intros _. by apply has_atom_true. Qed.

(** A computation satisfies what holds of its outcome. *)
Lemma wp_outcome {S E A} (m : M S E A) Q (R : E → S → Prop) s :
  (∀ a s', m s = (Ok a, s') → Q a s') → (∀ e s', R e s') → wp m Q R s.
Proof. unfold wp. intros HQ HR. destruct (m s) as [[a|e] s'] eqn:Hm; eauto. Qed.

(** The list of atoms [property] of [window], read in the state [t], has [atom]; the reading
    leaves [t1]. *)
Definition lists (window property max atom : Z) (t t1 : W) : Prop :=
  ∃ l, property32 window property ATOM max t = (Ok (Some l), t1) ∧ atom ∈ l.

(** The event [event] is what the operation asks for, on the desktop that is the model of
    [o], with what the root window and the target advertise, read from [t] on: the manager
    lists the request as supported; the target is the client of the model that the request
    names, at the generation it names, and allows what is asked for; the workspace exists; a
    switch of the workspace names the current sequence. *)
Definition justified (o : Observer) (t : W) (operation : Operation) (event : ClientMessageEvent) : Prop :=
  let supports atom t1 := lists (root o) (supported (atoms o)) MAX_ROOT_ATOMS atom t t1 in
  let allows c atom t1 t2 := lists (ClientRecord_xid c) (wm_allowed_actions (atoms o)) MAX_CLIENT_ATOMS atom t1 t2 in
  ∃ t1, match operation with
  | Operation_Activate request =>
      ∃ c m active, fresh o request c ∧ advertises c ClientAction_Activate ∧
        supports (active_window (atoms o)) t1 ∧ model o = Some m ∧ active_window_of m active ∧
        event = {| message_window := ClientRecord_xid c; message_type := active_window (atoms o);
                   message_data := [2; 0; active; 0; 0] |}
  | Operation_Close request =>
      ∃ c, fresh o request c ∧ advertises c ClientAction_Close ∧
        supports (close_window (atoms o)) t1 ∧
        event = {| message_window := ClientRecord_xid c; message_type := close_window (atoms o);
                   message_data := [0; 2; 0; 0; 0] |}
  | Operation_WorkspaceSwitch request =>
      WorkspaceRequest_sequence request = sequence o ∧
      has_workspace o (WorkspaceRequest_workspace request) ∧
      supports (current_desktop (atoms o)) t1 ∧
      event = {| message_window := root o; message_type := current_desktop (atoms o);
                 message_data := [WorkspaceRequest_workspace request; 0; 0; 0; 0] |}
  | Operation_ClientWorkspace request =>
      ∃ c, fresh o (ClientWorkspaceRequest_target request) c ∧
        advertises c ClientAction_ChangeWorkspace ∧
        has_workspace o (ClientWorkspaceRequest_workspace request) ∧
        supports (wm_desktop (atoms o)) t1 ∧
        event = {| message_window := ClientRecord_xid c; message_type := wm_desktop (atoms o);
                   message_data := [ClientWorkspaceRequest_workspace request; 2; 0; 0; 0] |}
  | Operation_State request =>
      ∃ c atom action, fresh o (ClientStateRequest_target request) c ∧
        state_change (atoms o) (ClientStateRequest_state request) atom action ∧
        supports (wm_state (atoms o)) t1 ∧ supports atom t1 ∧
        (∀ action_atom, action = Some action_atom → ∃ t2, allows c action_atom t1 t2) ∧
        event = {| message_window := ClientRecord_xid c; message_type := wm_state (atoms o);
                   message_data := [match ClientStateRequest_action request with
                                    | StateAction_Remove => 0 | StateAction_Add => 1 | StateAction_Toggle => 2
                                    end; atom; 0; 2; 0] |}
  | Operation_Geometry request =>
      let frame := ClientGeometryRequest_frame request in
      ∃ c current values l r top b t2 t3,
        fresh o (ClientGeometryRequest_target request) c ∧
        ClientDescriptor_frame (ClientRecord_descriptor c) = Some current ∧
        supports (moveresize_window (atoms o)) t1 ∧
        property32 (ClientRecord_xid c) (wm_allowed_actions (atoms o)) ATOM MAX_CLIENT_ATOMS t1 = (Ok values, t2) ∧
        ((Rect_x frame, Rect_y frame) ≠ (Rect_x current, Rect_y current) →
           allows c (action_move (atoms o)) t1 t2) ∧
        ((Rect_width frame, Rect_height frame) ≠ (Rect_width current, Rect_height current) →
           allows c (action_resize (atoms o)) t1 t2) ∧
        (frame = current → advertises c ClientAction_ChangeGeometry) ∧
        client_frame_extents (ClientRecord_xid c) (atoms o) t2 = (Ok (l, r, top, b), t3) ∧
        geometry_event (ClientRecord_xid c) (moveresize_window (atoms o)) current frame l r top b event
  end.

Lemma state_atoms_change atoms state atom action :
  state_atoms atoms state = Ok (atom, action) → state_change atoms state atom action.
Proof. destruct state; cbn [state_atoms]; try done; intros [= <- <-]; constructor. Qed.

Lemma moveresize_flags_bits mx my rw rh i :
  0 ≤ i → Z.testbit (moveresize_flags mx my rw rh) i = true ↔
    i = 1 ∨ i = 3 ∨ i = 13 ∨ i = 8 ∧ mx = true ∨ i = 9 ∧ my = true ∨ i = 10 ∧ rw = true ∨ i = 11 ∧ rh = true.
Proof.
  intros Hi. destruct (Z.ltb_spec i 16).
  - assert (i ∈ seqZ 0 16) as Hin by (apply elem_of_seqZ; lia).
    assert (Forall (λ i, Z.testbit (moveresize_flags mx my rw rh) i = true ↔
      i = 1 ∨ i = 3 ∨ i = 13 ∨ i = 8 ∧ mx = true ∨ i = 9 ∧ my = true ∨ i = 10 ∧ rw = true ∨ i = 11 ∧ rh = true) (seqZ 0 16)) as Hall.
    { apply (bool_decide_unpack _). by destruct mx, my, rw, rh; vm_compute. }
    rewrite Forall_forall in Hall. by apply Hall.
  - assert (0 ≤ moveresize_flags mx my rw rh < 2 ^ 16) as Hb by (by destruct mx, my, rw, rh).
    rewrite (Z.bits_above_log2 _ i); [|lia|]; [split; [done|lia]|].
    enough (Z.log2 (moveresize_flags mx my rw rh) < 16) by lia. apply Z.log2_lt_pow2; [|lia].
    by destruct mx, my, rw, rh.
Qed.

Lemma prepare_state_justified o request values t t1 :
  property32 (root o) (supported (atoms o)) ATOM MAX_ROOT_ATOMS t = (Ok values, t1) →
  wp (prepare_state o request (default [] values))
    (λ p _, justified o t (Operation_State request) (Prepared_event p)) anything t1.
Proof.
  intros Hread. unfold prepare_state. apply wp_target. intros target (c & Hf & _ & Hx & _)%target_fresh.
  wp_step. apply wp_lift; [|done]. intros [atom action_atom] Ha%state_atoms_change.
  apply wp_ensure; [done|]. intros (l & -> & Hstate)%require_supported_Ok.
  apply wp_ensure; [done|]. intros (? & [= <-] & Hatom)%require_supported_Ok. wp_step.
  apply wp_outcome; [|done]. intros [] t2 Hallowed. cbv zeta. wp_step.
  exists t1, c, atom, action_atom. split_and!; [done..|by exists l|by exists l| |cbn; by rewrite Hx].
  intros action ->. exists t2. revert Hallowed. unfold allowed_actions, bind. rewrite Hx.
  destruct (property32 (ClientRecord_xid c) _ _ _ t1) as [[allowed|e] t'] eqn:Hp; [|done]. unfold ret, lift, ensure.
  destruct (has_atom action (default [] allowed)) eqn:Hhas; [|done]. intros [= <-].
  apply has_atom_true in Hhas as (l' & -> & Hin). by exists l'.
Qed.

Lemma prepare_geometry_justified o request values t t1 :
  property32 (root o) (supported (atoms o)) ATOM MAX_ROOT_ATOMS t = (Ok values, t1) →
  wp (prepare_geometry o request (default [] values))
    (λ p _, justified o t (Operation_Geometry request) (Prepared_event p)) anything t1.
Proof.
  intros Hread. unfold prepare_geometry. apply wp_target. intros target (c & Hf & _ & Hx & Hframe & _ & Hactions)%target_fresh.
  apply wp_ensure; [done|]. intros (supp & -> & Hs)%require_supported_Ok. wp_step. apply wp_lift; [|done]. intros current Hcurrent.
  rewrite Hframe in Hcurrent. destruct (ClientDescriptor_frame _) as [current'|] eqn:Hc; [|done]. injection Hcurrent as ->.
  cbv zeta. wp_step. apply wp_outcome; [|done]. intros allowed t2 Hallowed.
  assert (∃ l, property32 (ClientRecord_xid c) (wm_allowed_actions (atoms o)) ATOM MAX_CLIENT_ATOMS t1 = (Ok l, t2) ∧
               allowed = default [] l) as (l & Hl & ->).
  { revert Hallowed. unfold allowed_actions, bind. rewrite Hx.
    destruct (property32 _ _ _ _ t1) as [[l|e] t']; [|done]. intros [= <- <-]. by exists l. }
  wp_step; [done|]. wp_step; [done|]. wp_step; [done|]. wp_step.
  apply wp_outcome; [|done]. intros [[[left right] top] bottom] t3 Hextents. wp_step.
  apply wp_lift; [|done]. intros [[[x y] width] height] Hr. wp_step.
  apply client_rect_Ok in Hr as (? & ? & ? & ? & ? & -> & ? & -> & ? & ? & -> & ? & ? & ->).
  set (frame := ClientGeometryRequest_frame request) in *. rewrite Hx in Hextents |- *.
  repeat match goal with H : _ && _ = false |- _ => revert H end. intros Hmove Hresize.
  assert (∀ b atom, b && negb (has_atom atom (default [] l)) = false → b = true →
    lists (ClientRecord_xid c) (wm_allowed_actions (atoms o)) MAX_CLIENT_ATOMS atom t1 t2) as Hlists.
  { intros b atom Hb ->. cbn in Hb. apply negb_false_iff, has_atom_true in Hb as (l' & -> & Hin). by exists l'. }
  exists t1, c, current, l, left, right, top, bottom, t2, t3. split_and!; [done|done|by exists supp|done| | | |done|].
  - intros Hne. apply (Hlists _ _ Hmove). apply orb_true_iff. rewrite !negb_true_iff, !Z.eqb_neq.
    destruct (Z.eq_dec (Rect_x frame) (Rect_x current)) as [Heq|]; [|by left]. right. intros Heq'. apply Hne. exact (f_equal2 pair Heq Heq').
  - intros Hne. apply (Hlists _ _ Hresize). apply orb_true_iff. rewrite !negb_true_iff, !Z.eqb_neq.
    destruct (Z.eq_dec (Rect_width frame) (Rect_width current)) as [Heq|]; [|by left]. right. intros Heq'. apply Hne. exact (f_equal2 pair Heq Heq').
  - intros Heq. unfold advertises. rewrite <- Hactions. unfold frame in *.
    match goal with H : negb (_ || _) = false |- _ => rewrite Heq, !Z.eqb_refl in H; cbn in H;
      apply negb_false_iff, bool_decide_eq_true in H; exact H end.
  - fold frame. eexists. split; [|split_and!; [done..|int_bounds; lia|int_bounds; lia|reflexivity]].
    intros i Hi. rewrite moveresize_flags_bits by done. rewrite !negb_true_iff, !Z.eqb_neq. done.
Qed.

Lemma prepare_justified o operation t :
  wp (prepare o operation) (λ p _, justified o t operation (Prepared_event p)) anything t.
Proof.
  unfold prepare. wp_step. apply wp_outcome; [|done]. intros values t1 Hread. cbv zeta.
  destruct operation as [r|r|r|r|r|r].
  - apply wp_target. intros target (c & Hf & _ & Hx & _ & _ & Ha)%target_fresh.
    apply wp_ensure; [done|]. intros Hact%require_action_Ok.
    apply wp_ensure; [done|]. intros (l & -> & Hl)%require_supported_Ok. wp_step. apply wp_lift; [|done]. intros m Hm. wp_step.
    unfold current_model in Hm. destruct (model o) as [m'|] eqn:Hmodel; [|done]. injection Hm as ->.
    exists t1, c, m. eexists. unfold advertises. rewrite <- Ha. split_and!; [done|done|by exists l|done| |cbn; by rewrite Hx].
    unfold active_window_of. destruct (Model_active m) as [id|]; cbn [mbind option_bind].
    2: { right. split; [done|]. intros ? _. congruence. }
    destruct (record o id) as [c'|] eqn:Hc.
    + left. apply record_Some in Hc as [(m' & Hm' & Hin) Hid]. exists c'. rewrite Hmodel in Hm'. injection Hm' as <-.
      split_and!; [done|by rewrite Hid|done].
    + right. split; [done|]. intros c' Hc' [= ->]. by eapply record_None.
  - apply wp_target. intros target (c & Hf & _ & Hx & _ & _ & Ha)%target_fresh.
    apply wp_ensure; [done|]. intros Hact%require_action_Ok.
    apply wp_ensure; [done|]. intros (l & -> & Hl)%require_supported_Ok. wp_step.
    exists t1, c. unfold advertises. rewrite <- Ha. split_and!; [done..|by exists l|cbn; by rewrite Hx].
  - wp_step; [done|]. bool_props. apply wp_ensure; [done|]. intros Hw%require_workspace_Ok.
    apply wp_ensure; [done|]. intros (l & -> & Hl)%require_supported_Ok. wp_step.
    exists t1. split_and!; [done..|by exists l|done].
  - apply wp_target. intros target (c & Hf & _ & Hx & _ & _ & Ha)%target_fresh.
    apply wp_ensure; [done|]. intros Hw%require_workspace_Ok.
    apply wp_ensure; [done|]. intros Hact%require_action_Ok.
    apply wp_ensure; [done|]. intros (l & -> & Hl)%require_supported_Ok. wp_step.
    exists t1, c. unfold advertises. rewrite <- Ha. split_and!; [done..|by exists l|cbn; by rewrite Hx].
  - by apply prepare_state_justified.
  - by apply prepare_geometry_justified.
Qed.
End prepare.

(** ** The requests of [manage], recorded *)

Section recording.
Context {W : Type} `{XServer W}.

Notation T := (W * list Sent)%type.
Notation record_of := (λ t : T, snd t).
Notation St := (Observer * T)%type.
Notation sent := (λ s : Observer * T, snd (snd s)).

#[local] Instance observe_sent fuel desired deadline :
  Preserves sent (observe_loop (W:=T) fuel desired deadline).
Proof. induction fuel as [|fuel IH]; cbn [observe_loop]; solve_preserves. Qed.
#[local] Instance prepare_record o operation : Preserves record_of (prepare (W:=T) o operation).
Proof.
  unfold prepare, prepare_state, prepare_geometry, allowed_actions. solve_preserves.
Qed.

(** A message justified by a reading of the desktop under the grab. *)
Definition justified_under_grab (o : Observer) (operation : Operation) (window : Z)
    (event : ClientMessageEvent) : Prop :=
  ∃ o1 t1 t2, refresh (o, t1) = (Ok tt, (o1, t2)) ∧ snd t1 = [Sent_Grab true] ∧
    window = root o1 ∧ justified o1 t2 operation event.

Definition disciplined (o : Observer) (operation : Operation) (ok : bool) (l : list Sent) : Prop :=
  (ok = false ∧ l = [Sent_Grab false]) ∨
  (ok = false ∧ l = [Sent_Grab true; Sent_Ungrab; Sent_Flush]) ∨
  (∃ window event accepted,
     l = [Sent_Grab true; Sent_Event window event accepted; Sent_Ungrab; Sent_Flush] ∧
     justified_under_grab o operation window event ∧ (accepted = false → ok = false)).

(** What is on record when the result of the attempt to send is known. *)
Definition after_sending (o : Observer) (operation : Operation) (sent_ok : bool)
    (l : list Sent) : Prop :=
  (sent_ok = false ∧ l = [Sent_Grab true]) ∨
  (∃ window event accepted, l = [Sent_Grab true; Sent_Event window event accepted] ∧
     justified_under_grab o operation window event ∧ (accepted = false → sent_ok = false)).

Lemma sending_post o t operation :
  snd t = [Sent_Grab true] →
  wp (refresh ;!
      let! o := get (W:=T) id in
      let! prepared := x11 (prepare o operation) in
      send_prepared o prepared)
    (λ _ s', after_sending o operation true (snd (snd s')))
    (λ _ s', after_sending o operation false (snd (snd s'))) (o, t).
Proof.
  intros Ht. wp_step. unfold wp at 1.
  pose proof (preserves (Preserves:=refresh_sent) (o, t)) as Hsent.
  destruct (refresh (o, t)) as [[[]|e] [o1 t1]] eqn:Hr; cbn in Hsent.
  2: { left. cbn. split; [done|congruence]. }
  wp_step. unfold get. wp_step. cbv [id]. cbn [fst]. wp_step. unfold x11 at 1. wp_step.
  eapply wp_mono; [eapply (wp_preserves record_of); [apply _|apply prepare_justified]| |].
  2: { intros e t2 [_ Ht2]. left. cbn. split; [done|]. cbn in Ht2. congruence. }
  intros p t2 [Hj Ht2]. unfold send_prepared. wp_step.
  assert (justified_under_grab o operation (root o1) (Prepared_event p)) as Hjust
    by (exists o1, t, t1; done).
  cbn in Ht2. eapply wp_mono; [apply recorded_post| |].
  - intros a s2 [_ Hs2]. wp_step. right. do 3 eexists. rewrite Hs2. cbn.
    split_and!; [by rewrite Ht2, Hsent, Ht|exact Hjust|done].
  - intros e s2 [_ Hs2]. right. do 3 eexists. rewrite Hs2. cbn.
    split_and!; [by rewrite Ht2, Hsent, Ht|exact Hjust|done].
Qed.


Lemma after_sending_disciplined o operation sent_ok ok l :
  after_sending o operation sent_ok l → (ok = true → sent_ok = true) →
  disciplined o operation ok (l ++ [Sent_Ungrab; Sent_Flush]).
Proof.
  intros [[-> ->]|(window & event & accepted & -> & Hj & Hacc)] Hok.
  - right. left. split; [|done]. destruct ok; [by specialize (Hok eq_refl)|done].
  - right. right. exists window, event, accepted. split_and!; [done..|].
    intros Ha. specialize (Hacc Ha). destruct ok; [|done]. specialize (Hok eq_refl). congruence.
Qed.

(** The end of [manage], once the outcome of the attempt to send is known. *)
Lemma finishing_post fuel o operation (r : result Desired Failure) s :
  after_sending o operation (is_ok r) (snd (snd s)) →
  wp (let! ungrab := attempt (or_unavailable "cannot request an X11 server ungrab"
                            "cannot release the X11 server grab" ungrab_server) in
      let! flushed := attempt (or_unavailable "cannot flush an EWMH request"
                             "cannot flush an EWMH request" flush) in
      let! desired := lift r in
      lift ungrab ;! lift flushed ;! observe_terminal fuel desired)
    (λ _ s', disciplined o operation true (snd (snd s')))
    (λ _ s', disciplined o operation false (snd (snd s'))) s.
Proof.
  intros Hs.
  assert (∀ (u f : result unit Failure) s4,
    snd (snd s4) = snd (snd s) ++ [Sent_Ungrab; Sent_Flush] →
    wp (let! desired := lift r in lift u ;! lift f ;! observe_terminal fuel desired)
      (λ _ s', disciplined o operation true (snd (snd s')))
      (λ _ s', disciplined o operation false (snd (snd s'))) s4) as Hend.
  { intros u f s4 Hs4. destruct r as [desired|e].
    - eapply wp_mono; [apply (wp_sent _ s4 _ _ eq_refl)| |];
        intros ? s5 ->; rewrite Hs4; by eapply after_sending_disciplined.
    - cbn. rewrite Hs4. by eapply after_sending_disciplined. }
  assert (∀ (u : result unit Failure) s3, snd (snd s3) = snd (snd s) ++ [Sent_Ungrab] →
    wp (let! flushed := attempt (or_unavailable "cannot flush an EWMH request"
                             "cannot flush an EWMH request" flush) in
        let! desired := lift r in lift u ;! lift flushed ;! observe_terminal fuel desired)
      (λ _ s', disciplined o operation true (snd (snd s')))
      (λ _ s', disciplined o operation false (snd (snd s'))) s3) as Hflush.
  { intros u s3 Hs3. do 2 wp_step.
    eapply wp_mono; [apply recorded_post|..]; intros ? s4 [_ Hs4]; apply Hend;
      by rewrite Hs4, Hs3, <- (assoc_L (++)). }
  do 2 wp_step. eapply wp_mono; [apply recorded_post|..]; intros ? s3 [_ Hs3]; by apply Hflush.
Qed.

Lemma manage_disciplined fuel o w operation :
  wp (manage fuel operation)
    (λ _ s', disciplined o operation true (snd (snd s')))
    (λ _ s', disciplined o operation false (snd (snd s'))) (o, (w, [])).
Proof.
  unfold manage. wp_step. eapply wp_mono; [apply recorded_post| |].
  2: { intros e s1 [_ Hs1]. left. by rewrite Hs1. }
  intros [] [o0 t1] [Ho Hs1]. cbn in Ho, Hs1. subst o0. do 2 wp_step.
  eapply wp_mono; [by apply (sending_post o t1 operation)|..].
  - intros desired s2 Hs2. by apply (finishing_post _ _ _ (Ok desired)).
  - intros e s2 Hs2. by apply (finishing_post _ _ _ (Err e)).
Qed.

(** C7: every management operation keeps the grab discipline and sends nothing it did not
    check.  On any server, the operation makes at most one grab; when the grab is granted
    it sends at most one event, and releases the grab and flushes whatever happened in
    between; an event goes to the root window only after the desktop was read again under
    the grab, and that reading justifies it: the target exists at the generation the
    client named, the action is advertised, the workspace exists, the sequence is the
    current one, and the lists of atoms read next show that the window manager supports the
    request and that the target allows the change of state, the movement or the resizing;
    the event is exactly the one the request asks for; and the operation succeeds only if
    the server accepted the event. *)
Theorem manage_sends_only_justified fuel o w operation :
  let '(r, (_, (_, l))) := manage fuel operation (o, (w, [])) in
  disciplined o operation (is_ok r) l.
Proof.
  pose proof (manage_disciplined fuel o w operation) as Hm. unfold wp in Hm.
  destruct (manage fuel operation (o, (w, []))) as [[r|e] [o' [w' l]]]; exact Hm.
Qed.
End recording.

(** ** What a reply means *)

(** The model of [o] has the client [id], as the record [c]. *)
Definition has_client (o : Observer) (id : ClientId) (c : ClientRecord) : Prop :=
  ∃ m, model o = Some m ∧ c ∈ Model_clients m ∧ record_id c = id.

(** What the operation is after, its target being looked at in the model of [o]. *)
Definition intends (o : Observer) (operation : Operation) (desired : Desired) : Prop :=
  match operation with
  | Operation_Activate r => desired = Desired_Active (TargetRequest_client r)
  | Operation_Close r => desired = Desired_Closed (TargetRequest_client r)
  | Operation_WorkspaceSwitch r => desired = Desired_Workspace (WorkspaceRequest_workspace r)
  | Operation_ClientWorkspace r =>
      desired = Desired_ClientWorkspace (TargetRequest_client (ClientWorkspaceRequest_target r))
                  (ClientWorkspaceRequest_workspace r)
  | Operation_State r =>
      ∃ c present,
        fresh o (ClientStateRequest_target r) c ∧
        desired = Desired_State (TargetRequest_client (ClientStateRequest_target r))
                    (ClientStateRequest_state r) present ∧
        match ClientStateRequest_action r with
        | StateAction_Add => present = true
        | StateAction_Remove => present = false
        | StateAction_Toggle =>
            present = true ↔
            ClientStateRequest_state r ∉ as_slice (ClientDescriptor_states (ClientRecord_descriptor c))
        end
  | Operation_Geometry r =>
      desired = Desired_Geometry (TargetRequest_client (ClientGeometryRequest_target r))
                  (ClientGeometryRequest_frame r)
  end.

(** The model of [o] shows what is desired. *)
Definition shows (o : Observer) (desired : Desired) : Prop :=
  match desired with
  | Desired_Active id => ∃ m, model o = Some m ∧ Model_active m = Some id
  | Desired_Closed id => ¬ ∃ c, has_client o id c
  | Desired_Workspace workspace => ∃ m, model o = Some m ∧ Model_current_workspace m = workspace
  | Desired_ClientWorkspace id workspace =>
      ∃ c, has_client o id c ∧ ClientDescriptor_workspace (ClientRecord_descriptor c) = Some workspace
  | Desired_State id state present =>
      ∃ c, has_client o id c ∧
        (state ∈ as_slice (ClientDescriptor_states (ClientRecord_descriptor c)) ↔ present = true)
  | Desired_Geometry id frame =>
      ∃ c, has_client o id c ∧ ClientDescriptor_frame (ClientRecord_descriptor c) = Some frame
  end.

(** The operation is about a client that the model of [o] does not have. *)
Definition gone (o : Observer) (desired : Desired) : Prop :=
  match desired with
  | Desired_Active id | Desired_Closed id | Desired_ClientWorkspace id _ | Desired_State id _ _
  | Desired_Geometry id _ => ¬ ∃ c, has_client o id c
  | Desired_Workspace _ => False
  end.

(** What an observation says of the last reading, whose result is [read], and of the time
    [elapsed] before it was made. *)
Definition truthful (o : Observer) (read : result unit Failure) (elapsed : Z) (desired : Desired)
    (observation : Observation) : Prop :=
  match observation with
  | Observation_Observed => read = Ok tt ∧ shows o desired
  | Observation_TargetGone => read = Ok tt ∧ ¬ shows o desired ∧ gone o desired
  | Observation_TimedOut =>
      1000 * NANOS_PER_MS ≤ elapsed ∧ (read = Ok tt → ¬ shows o desired ∧ ¬ gone o desired)
  end.

Definition unique_clients (o : Observer) : Prop :=
  ∀ m, model o = Some m → NoDup (record_id <$> Model_clients m).

Lemma record_exact o id c : unique_clients o → record o id = Some c ↔ has_client o id c.
Proof.
  intros Hu. split; [intros [(m & ? & ?) ?]%record_Some; by exists m|]. intros (m & Hm & Hc & Hid).
  destruct (record o id) as [c'|] eqn:Hr; [|by destruct (record_None o id m c)].
  apply record_Some in Hr as [(m' & Hm' & Hc') Hid']. rewrite Hm in Hm'. injection Hm' as <-. f_equal.
  specialize (Hu m Hm). apply list_elem_of_lookup in Hc as (i & Hi), Hc' as (j & Hj).
  assert (i = j) as ->; [|congruence].
  eapply NoDup_lookup; [exact Hu|..]; rewrite list_lookup_fmap; [by rewrite Hi|rewrite Hj; cbn; congruence].
Qed.

Lemma record_gone o id : unique_clients o → record o id = None ↔ ¬ ∃ c, has_client o id c.
Proof.
  intros Hu. split.
  - intros Hn (c & Hc). apply record_exact in Hc; [congruence|done].
  - intros Hn. destruct (record o id) as [c|] eqn:Hr; [|done]. destruct Hn. exists c. by apply record_exact.
Qed.

Lemma Desired_observed_exact o desired : unique_clients o → Desired_observed desired o = true ↔ shows o desired.
Proof.
  intros Hu. unfold is_some_and.
  assert (∀ id (P : ClientRecord → bool) (Q : ClientRecord → Prop), (∀ c, P c = true ↔ Q c) →
    match record o id with Some c => P c | None => false end = true ↔ ∃ c, has_client o id c ∧ Q c) as Hsome.
  { intros id P Q HPQ. setoid_rewrite <- HPQ. setoid_rewrite <- (record_exact o id _ Hu).
    destruct (record o id) as [c|]; [naive_solver|]. split; [done|by intros (? & ? & _)]. }
  destruct desired as [id|id|workspace|id workspace|id state present|id frame]; cbn [Desired_observed shows];
    unfold is_some_and.
  - destruct (model o) as [m|]; [rewrite bool_decide_eq_true; naive_solver|naive_solver].
  - rewrite negb_true_iff, bool_decide_eq_false, <- eq_None_not_Some. by apply record_gone.
  - destruct (model o) as [m|]; [rewrite Z.eqb_eq; naive_solver|naive_solver].
  - apply Hsome. intros c. apply bool_decide_eq_true.
  - apply Hsome. intros c. rewrite eqb_true_iff. case_bool_decide; destruct present; naive_solver.
  - apply Hsome. intros c. apply bool_decide_eq_true.
Qed.

Lemma Desired_gone_exact o desired :
  unique_clients o →
  is_some_and (λ id, negb (bool_decide (is_Some (record o id)))) (Desired_target desired) = true ↔ gone o desired.
Proof.
  intros Hu. destruct desired; cbn; [..|done| | |]; try done;
    rewrite negb_true_iff, bool_decide_eq_false, <- eq_None_not_Some; by apply record_gone.
Qed.

Lemma terminal_truthful o elapsed desired :
  unique_clients o →
  match terminal o desired with
  | Some reply => ManagementReply_sequence reply = sequence o ∧
                  truthful o (Ok tt) elapsed desired (ManagementReply_observation reply)
  | None => ¬ shows o desired ∧ ¬ gone o desired
  end.
Proof.
  intros Hu. unfold terminal. pose proof (Desired_observed_exact o desired Hu) as Hshows.
  pose proof (Desired_gone_exact o desired Hu) as Hgone.
  destruct (Desired_observed desired o); [split; [done|]; split; [done|]; by apply Hshows|].
  assert (¬ shows o desired) as Hno by (by intros ?%Hshows).
  destruct (is_some_and _ _); [|split; [done|by intros ?%Hgone]]. apply proj1 in Hgone. specialize (Hgone eq_refl).
  split; [done|]. by destruct desired.
Qed.

Section replies.
Context {W : Type} `{XServerLaws W}.

Notation anything := (λ _ _, True).
Notation St := (Observer * W)%type.

Lemma wp_target_id {A} o request (k : Target → M W Failure A) Q w :
  (∀ t, Target_id t = TargetRequest_client request → wp (k t) Q anything w) →
  wp (let! t := lift (target o request) in k t) Q anything w.
Proof.
  intros Hk. apply wp_target. intros t (c & _ & Hid & _)%target_fresh. by apply Hk.
Qed.

Lemma prepare_intends o operation w :
  wp (prepare o operation) (λ p _, intends o operation (Prepared_desired p)) anything w.
Proof.
  unfold prepare. wp_step. eapply wp_mono; [apply wp_any| |done]. intros supp w1 _. cbv zeta.
  destruct operation as [r|r|r|r|r|r].
  - apply wp_target_id. intros t Hid. do 2 (apply wp_ensure; [done|]; intros _).
    wp_step. apply wp_lift; [|done]. intros m _. wp_step. cbn. by rewrite Hid.
  - apply wp_target_id. intros t Hid. do 2 (apply wp_ensure; [done|]; intros _).
    wp_step. cbn. by rewrite Hid.
  - wp_step; [done|]. do 2 (apply wp_ensure; [done|]; intros _). by wp_step.
  - apply wp_target_id. intros t Hid. do 3 (apply wp_ensure; [done|]; intros _).
    wp_step. cbn. by rewrite Hid.
  - unfold prepare_state. apply wp_target. intros t (c & Hf & Hid & _ & _ & Hstates & _)%target_fresh.
    wp_step. apply wp_lift; [|done].
    intros [atom action_atom] _. do 2 (apply wp_ensure; [done|]; intros _). wp_step.
    eapply wp_mono; [apply wp_any| |done]. intros [] w2 _. cbv zeta. wp_step.
    exists c. eexists. cbn. rewrite Hid. split; [done|]. split; [done|].
    destruct (ClientStateRequest_action r); [done..|]. by rewrite Hstates, negb_true_iff, bool_decide_eq_false.
  - unfold prepare_geometry. apply wp_target_id. intros t Hid. apply wp_ensure; [done|].
    intros _. wp_step. apply wp_lift; [|done]. intros current _. cbv zeta. wp_step.
    eapply wp_mono; [apply wp_any| |done]. intros allowed w2 _. do 3 (wp_step; [done|]).
    wp_step. eapply wp_mono; [apply wp_any| |done]. intros extents w3 _. wp_step.
    apply wp_lift; [|done]. intros [[[x y] width] height] _. wp_step. cbn. by rewrite Hid.
Qed.

(** The reply is about the last reading, that of [s1], and the time since [start]. *)
Definition reported (start : Z) (desired : Desired) (reply : ManagementReply) (s' : St) : Prop :=
  ManagementReply_sequence reply = sequence (fst s') ∧
  ∃ s1 read s2, refresh s1 = (read, s2) ∧ fst s2 = fst s' ∧
    truthful (fst s') read (clock (snd s') - start) desired (ManagementReply_observation reply).

Lemma observer_unique o : observer_inv o → unique_clients o.
Proof.
  intros [_ Hm] m Heq. exact (proj1 (model_inv_records _ _ (Hm m Heq))).
Qed.

Lemma observe_loop_post fuel desired start s :
  observer_inv (fst s) →
  wp (observe_loop fuel desired (start + MANAGEMENT_TIMEOUT))
    (λ r s', observer_inv (fst s') ∧ ∀ reply, r = Some reply → reported start desired reply s')
    (λ _ s', observer_inv (fst s')) s.
Proof.
  revert s. induction fuel as [|fuel IH]; intros s Hs; cbn [observe_loop]; [by wp_step|].
  wp_step. wp_step.
  assert (∀ (read : result unit Failure) s1, observer_inv (fst s1) → refresh s = (read, s1) →
    wp (let! o := get (W:=W) id in
        match (match read with Ok _ => terminal o desired | Err _ => None end) with
        | Some reply => ret (Some reply)
        | None =>
            let! t := x11 instant_now in
            if start + MANAGEMENT_TIMEOUT <=? t
            then ret (Some {| ManagementReply_observation := Observation_TimedOut;
                              ManagementReply_sequence := sequence o |})
            else x11 (thread_sleep SAMPLE_INTERVAL) ;! observe_loop fuel desired (start + MANAGEMENT_TIMEOUT)
        end)
      (λ r s', observer_inv (fst s') ∧ ∀ reply, r = Some reply → reported start desired reply s')
      (λ _ s', observer_inv (fst s')) s1) as Hround.
  { intros read s1 Hs1 Hread. wp_step. unfold get. wp_step. cbv [id].
    pose proof (terminal_truthful (fst s1) (clock (snd s1) - start) desired (observer_unique _ Hs1)) as Hterminal.
    destruct (match read with Ok _ => _ | Err _ => _ end) as [reply|] eqn:Ht.
    - wp_step. split; [done|]. intros ? [= <-]. destruct read as [[]|e]; [|done]. rewrite Ht in Hterminal.
      destruct Hterminal as [Hseq Htrue]. split; [done|]. by exists s, (Ok tt), s1.
    - wp_step. unfold x11 at 1, instant_now. wp_step. unfold wp at 1.
      pose proof (now_clock (snd s1)) as Hnow. destruct (now (snd s1)) as [t w2]. cbn [fst snd] in *.
      wp_step; [wp_step; split; [done|]; intros ? [= <-]|].
      + bool_props. split; [done|]. exists s, read, s1. split_and!; [done..|]. cbn.
        split; [unfold MANAGEMENT_TIMEOUT in *; lia|]. intros ->. by rewrite Ht in Hterminal.
      + wp_step. eapply wp_mono; [apply x11_post| |by intros ? ? ->].
        intros [] s3 Heq3. apply IH. by rewrite Heq3. }
  pose proof (refresh_post s Hs) as Hpost. unfold wp in Hpost |- * at 1.
  destruct (refresh s) as [[[]|e] s1] eqn:Hread.
  - apply (Hround (Ok tt)); [by eapply refreshed_inv|done].
  - destruct Hpost as [_ Hinv]. by apply (Hround (Err e)).
Qed.

Lemma or_unavailable_post {A} request reply (m : M W XError A) (s : St) :
  wp (or_unavailable request reply m) (λ _ s', fst s' = fst s) (λ _ s', fst s' = fst s) s.
Proof. apply x11_post. Qed.

(** The operation as it is understood from a reading of the desktop under the grab. *)
Definition understood (s : St) (operation : Operation) (desired : Desired) : Prop :=
  ∃ s1 s2, (grab_server (snd s)).1 = Ok tt ∧ s1 = (fst s, (grab_server (snd s)).2) ∧
    refresh s1 = (Ok tt, s2) ∧ intends (fst s2) operation desired.

Definition reply_justified (s : St) (operation : Operation) (r : option ManagementReply) (s' : St) : Prop :=
  observer_inv (fst s') ∧
  ∀ reply, r = Some reply →
    ∃ start desired, clock (snd s) ≤ start ∧ understood s operation desired ∧ reported start desired reply s'.

#[local] Instance or_unavailable_time {A} request reply (m : M W XError A) :
  Advances clock m → Advances (λ s : St, clock (snd s)) (or_unavailable request reply m).
Proof. intros Hm. unfold or_unavailable. solve_advances. Qed.
#[local] Instance prepare_time o operation : Advances clock (prepare o operation).
Proof. unfold prepare, prepare_state, prepare_geometry, allowed_actions. solve_advances. Qed.

(** A computation that leaves the observer: what it returned, later. *)
Lemma wp_unavailable {A} request reply (m : M W XError A) (Q : A → St → Prop) (R : Failure → St → Prop) s :
  Advances clock m →
  (∀ a s', m (snd s) = (Ok a, snd s') → fst s' = fst s → clock (snd s) ≤ clock (snd s') → Q a s') →
  (∀ e s', fst s' = fst s → clock (snd s) ≤ clock (snd s') → R e s') →
  wp (or_unavailable request reply m) Q R s.
Proof.
  intros Hm HQ HR. unfold wp, or_unavailable, x11, zoom, map_error. pose proof (Hm (snd s)) as Ht.
  destruct (m (snd s)) as [[a|e] w] eqn:Hrun; [by apply HQ|by apply HR].
Qed.

(** The end of the operation, once it is known what was sent. *)
Lemma manage_finish fuel operation s sent s2 :
  observer_inv (fst s2) → clock (snd s) ≤ clock (snd s2) →
  (∀ d, sent = Ok d → understood s operation d) →
  wp (let! ungrab := attempt (or_unavailable "cannot request an X11 server ungrab"
                          "cannot release the X11 server grab" ungrab_server) in
      let! flushed := attempt (or_unavailable "cannot flush an EWMH request"
                           "cannot flush an EWMH request" flush) in
      let! desired := lift sent in
      lift ungrab ;! lift flushed ;! observe_terminal fuel desired)
    (reply_justified s operation) (λ _ s', observer_inv (fst s')) s2.
Proof.
  intros Hs2 Ht2 Hd.
  assert (∀ (u f : result unit Failure) s4, fst s4 = fst s2 → clock (snd s2) ≤ clock (snd s4) →
    wp (let! desired := lift sent in lift u ;! lift f ;! observe_terminal fuel desired)
      (reply_justified s operation) (λ _ s', observer_inv (fst s')) s4) as Hend.
  { intros u f s4 Heq4 Ht4. wp_step. apply wp_lift; [|by intros; rewrite Heq4]. intros desired Hdes.
    do 2 (wp_step; apply wp_lift; [intros [] _|by intros; rewrite Heq4]).
    unfold observe_terminal. wp_step. unfold x11 at 1, instant_now. wp_step. unfold wp at 1.
    pose proof (now_clock (snd s4)) as Hnow. destruct (now (snd s4)) as [t w5]. cbn [fst snd] in *.
    eapply wp_mono; [apply observe_loop_post; cbn; by rewrite Heq4| |done].
    intros r s6 [Hinv Htrue]. split; [done|]. intros reply Hreply. exists t, desired.
    split_and!; [lia|by apply Hd|by apply Htrue]. }
  assert (∀ (u : result unit Failure) s3, fst s3 = fst s2 → clock (snd s2) ≤ clock (snd s3) →
    wp (let! flushed := attempt (or_unavailable "cannot flush an EWMH request"
                           "cannot flush an EWMH request" flush) in
        let! desired := lift sent in lift u ;! lift flushed ;! observe_terminal fuel desired)
      (reply_justified s operation) (λ _ s', observer_inv (fst s')) s3) as Hflush.
  { intros u s3 Heq3 Ht3. do 2 wp_step. apply wp_unavailable; [apply _|..]; intros; apply Hend; (congruence || lia). }
  do 2 wp_step. apply wp_unavailable; [apply _|..]; intros; by apply Hflush.
Qed.

Lemma manage_post fuel operation s :
  observer_inv (fst s) →
  wp (manage fuel operation) (reply_justified s operation) (λ _ s', observer_inv (fst s')) s.
Proof.
  intros Hs. unfold manage. wp_step. apply wp_unavailable; [apply _| |by intros ? ? ->].
  intros [] s1 Hgrab Heq1 Ht1. wp_step. wp_step.
  assert ((grab_server (snd s)).1 = Ok tt ∧ s1 = (fst s, (grab_server (snd s)).2)) as [Hok Hs1].
  { rewrite Hgrab, <- Heq1. split; [done|]. by destruct s1. }
  pose proof (refresh_post s1 ltac:(by rewrite Heq1)) as Hpost. pose proof (advances (m := refresh) (measure := λ s, clock (snd s)) s1) as Htime.
  wp_step. unfold wp in Hpost |- * at 1. destruct (refresh s1) as [[[]|e] s2] eqn:Hread; cbn [snd] in Htime.
  2: { apply manage_finish; [by destruct Hpost|lia|done]. }
  assert (observer_inv (fst s2)) as Hs2 by (eapply refreshed_inv; [|exact Hpost]; by rewrite Heq1).
  wp_step. unfold get. wp_step. cbv [id]. wp_step. unfold x11 at 1. wp_step.
  pose proof (prepare_intends (fst s2) operation (snd s2)) as Hintends.
  pose proof (prepare_time (fst s2) operation (snd s2)) as Hlater.
  unfold wp in Hintends |- * at 1. destruct (prepare (fst s2) operation (snd s2)) as [[p|e] w3]; cbn [snd] in Hlater.
  2: { apply manage_finish; cbn; [done|lia|done]. }
  unfold send_prepared. wp_step. apply wp_unavailable; [apply _|..]; cbn [fst snd].
  - intros [] s4 _ Heq4 Ht4. wp_step. apply manage_finish; [by rewrite Heq4|lia|].
    intros d [= <-]. exists s1, s2. by split_and!.
  - intros e s4 Heq4 Ht4. apply manage_finish; [by rewrite Heq4|lia|done].
Qed.

Definition observe_body (desired : Desired) : M St Failure (option ManagementReply) :=
  let! refreshed := attempt refresh in
  let! o := get (W:=W) id in
  ret (match refreshed with Ok _ => terminal o desired | Err _ => None end).

Definition observe_timeout : M St Failure (option ManagementReply) :=
  let! o := get (W:=W) id in
  ret (Some {| ManagementReply_observation := Observation_TimedOut;
               ManagementReply_sequence := sequence o |}).

#[local] Instance observe_body_time desired :
  Advances (λ s : Observer * W, clock (snd s)) (observe_body desired).
Proof. unfold observe_body. solve_advances. Qed.

Lemma observe_loop_unfold fuel desired deadline s :
  observe_loop (S fuel) desired deadline s =
    (let! found := observe_body desired in
     match found with
     | Some reply => ret (Some reply)
     | None =>
         let! t := x11 instant_now in
         if deadline <=? t then observe_timeout
         else x11 (thread_sleep SAMPLE_INTERVAL) ;! observe_loop fuel desired deadline
     end) s.
Proof.
  cbn [observe_loop].
  unfold observe_body, observe_timeout, bind, attempt, get, gets, ret, x11, zoom, instant_now.
  destruct (refresh s) as [refreshed s1]. cbv [id]. cbn [fst snd].
  destruct (match refreshed with Ok _ => _ | Err _ => _ end); [done|].
  destruct (now (snd s1)). by case_match.
Qed.

Lemma observe_terminal_terminates fuel desired s :
  (samples MANAGEMENT_TIMEOUT ≤ fuel)%nat → (observe_terminal fuel desired s).1 ≠ Ok None.
Proof.
  intros Hf. unfold observe_terminal, bind at 1, x11, zoom, instant_now. cbn [fst snd].
  pose proof (now_clock (snd s)) as Hn. destruct (now (snd s)) as [t w1]. cbn [fst snd] in *.
  assert (t ≤ clock w1) as Ht by lia.
  destruct (fuel_covers MANAGEMENT_TIMEOUT t w1 fuel Hf Ht) as (k & -> & Hk).
  eapply (sampling_terminates (observe_body desired) _ (λ r, ret (Some r)) observe_timeout
            (thread_sleep SAMPLE_INTERVAL)
            (λ fuel, observe_loop fuel desired (t + MANAGEMENT_TIMEOUT))); try done.
  - intros w. eexists. split; [reflexivity|]. right.
    pose proof (sleep_clock SAMPLE_INTERVAL w). unfold SAMPLE_INTERVAL, NANOS_PER_MS in *. lia.
  - intros. apply observe_loop_unfold.
  - apply _.
Qed.

Lemma wp_not_None {S A} (m : M S Failure (option A)) s :
  wp m (λ r _, r ≠ None) anything s ↔ (m s).1 ≠ Ok None.
Proof.
  unfold wp. destruct (m s) as [[r|e] s1]; cbn; [|done]. split; [intros Hr [= ->]; done|].
  intros Hr ->. done.
Qed.

(** C21: a management operation ends, and what it reports is what it saw.  The watch after
    the send takes at most one reading per 25 ms of its second and one more; a reply
    carries the sequence of the observer it leaves, and is about the last reading of the
    desktop, whose model that observer has: [Observed] only when the model shows what the
    request asked for (as it was understood from the reading under the grab), [TargetGone]
    only when it has no such client any more and does not show the request fulfilled,
    [TimedOut] only after a second, when the last reading failed or shows neither. *)
Theorem manage_reply_truthful fuel operation s :
  observer_inv (fst s) → (samples MANAGEMENT_TIMEOUT ≤ fuel)%nat →
  let '(r, s') := manage fuel operation s in
  r ≠ Ok None ∧ observer_inv (fst s') ∧
  ∀ reply, r = Ok (Some reply) →
    ∃ start desired, clock (snd s) ≤ start ∧ understood s operation desired ∧ reported start desired reply s'.
Proof.
  intros Hs Hf. pose proof (manage_post fuel operation s Hs) as Hpost. unfold wp in Hpost.
  assert ((manage fuel operation s).1 ≠ Ok None) as Hend.
  { apply wp_not_None. unfold manage. wp_step. eapply wp_mono; [apply wp_any| |done].
    intros [] s1 _. do 2 wp_step.
    eapply wp_mono with (R := anything); [apply wp_any|intros ? s2 _..];
      (do 2 wp_step; eapply wp_mono with (R := anything); [apply wp_any|intros ? s3 _..];
       (do 2 wp_step; eapply wp_mono with (R := anything); [apply wp_any|intros ? s4 _..];
        (wp_step; apply wp_lift; [intros ? _|done]);
        (do 2 (wp_step; apply wp_lift; [intros [] _|done]));
        by apply wp_not_None, observe_terminal_terminates)). }
  destruct (manage fuel operation s) as [[r|e] s']; cbn in *.
  - destruct Hpost as [? Hr]. split_and!; [done..|]. intros reply [= ->]. by apply Hr.
  - by split_and!.
Qed.
End replies.
