(* ===== verification/ObserverRuns.v ===== *)
(** * Observers in use

    The observers a session can reach by any sequence of operations, while other programs
    change the server between and during them; what every one of them guarantees; and a
    concrete desktop on which the guarantees are exercised. *)

From stdpp Require Import gmap.
From S2P Require Import Prelude Text Bounded Protocol Message MessageSpec Effects Config X11 Scan.
From S2P Require Import Observer Manager ObserverSpec ObserverTheorems ManagerTheorems.

Section runs.
Context {W : Type} `{XServerLaws W}.

Notation St := (Observer * W)%type.

Inductive reachable : St → Prop :=
| reachable_connect root atoms scope show_titles capture w :
    reachable (Observer_new root atoms scope show_titles capture, w)
| reachable_elsewhere o w w' : reachable (o, w) → reachable (o, w')
| reachable_snapshot s : reachable s → reachable (snapshot s).2
| reachable_subscribe kinds s : reachable s → reachable (subscribe kinds s).2
| reachable_poll fuel after limit wait_ms s :
    reachable s → reachable (poll fuel after limit wait_ms s).2
| reachable_baseline s : reachable s → reachable (launch_baseline s).2
| reachable_correlate fuel baseline startup_id wait s :
    reachable s → reachable (correlate_launch fuel baseline startup_id wait s).2
| reachable_manage fuel operation s : reachable s → reachable (manage fuel operation s).2.

Lemma wp_final {A} (m : M St Failure A) (P : St → Prop) s :
  wp m (λ _, P) (λ _, P) s → P (m s).2.
Proof. unfold wp. by destruct (m s) as [[] ?]. Qed.

Lemma reachable_inv s : reachable s → observer_inv (fst s).
Proof.
  assert (∀ A (m : M St Failure A) Q s, observer_inv (fst s) →
    wp m (λ a s', observer_inv (fst s') ∧ Q a s') (λ _ s', observer_inv (fst s')) s →
    observer_inv (fst (m s).2)) as Hfinal.
  { intros A m Q s' _ Hm. apply (wp_final m (λ s, observer_inv (fst s))).
    by eapply wp_mono; [exact Hm|intros ? ? []|]. }
  induction 1 as [| |s _ IH|kinds s _ IH|fuel after limit wait_ms s _ IH|s _ IH
                 |fuel baseline startup_id wait s _ IH|fuel operation s _ IH].
  - apply observer_new_inv.
  - done.
  - eapply (Hfinal _ _ (λ _ _, True)); [done|].
    by eapply wp_mono; [by apply snapshot_post|intros ? ? (_ & ? & _)|].
  - eapply (Hfinal _ _ (λ _ _, True)); [done|].
    by eapply wp_mono; [by apply subscribe_post|intros ? ? (? & _)|].
  - eapply (Hfinal _ _ (λ _ _, True)); [done|].
    by eapply wp_mono; [by apply poll_post|intros ? ? (? & _)|intros ? ? (? & _)].
  - eapply (Hfinal _ _ (λ _ _, True)); [done|].
    by eapply wp_mono; [by apply launch_baseline_post|..].
  - eapply (Hfinal _ _ (λ _ _, True)); [done|].
    by eapply wp_mono; [by apply correlate_launch_post|..].
  - eapply (Hfinal _ _ (λ _ _, True)); [done|].
    by eapply wp_mono; [by apply manage_post|intros ? ? [? _]|].
Qed.

(** C4: whatever the X server answers, the replies of an observer are valid protocol
    messages.  For every observer reachable by any sequence of snapshots, subscriptions,
    polls, launch correlations and management operations, interleaved with arbitrary
    changes of the server: a snapshot passes [DesktopSnapshot::validate] (nonempty bounded
    titles, nonzero frames, canonical state and action lists, unique identities, present
    active client and current workspace) and carries the observer's sequence; a poll's
    batch passes [EventBatch::validate] (valid events, sequences strictly increasing
    within the cursor). *)
Theorem observer_replies_valid s :
  reachable s →
  (∀ d s', snapshot s = (Ok d, s') →
     validate d = Ok tt ∧ DesktopSnapshot_sequence d = sequence (fst s')) ∧
  (∀ fuel after limit wait_ms b s',
     poll fuel after limit wait_ms s = (Ok (Some b), s') → validate b = Ok tt).
Proof.
  intros Hs%reachable_inv. split.
  - intros d s' Hrun. pose proof (wp_run _ _ _ _ _ _ (snapshot_post s Hs) Hrun)
      as (Hwf & _ & m & _ & _ & ? & _). split; [|done]. by apply DesktopSnapshot_validate_iff.
  - intros fuel after limit wait_ms b s' Hrun.
    pose proof (wp_run _ _ _ _ _ _ (poll_post fuel after limit wait_ms s Hs) Hrun)
      as (_ & _ & Hb). apply check_sequences_iff. by apply Hb.
Qed.

(** C5: the events converge.  Take any reachable observer with a model [p], and a refresh
    that succeeds: the observer emits finitely many events, numbered from its sequence on,
    and a client that replays them on its view of [p] (clients by identity, active client,
    current workspace) has exactly the view of the new model, which is that of the desktop
    as it was read.  In the new model a window that was there keeps its identity, with its
    generation advanced by one exactly if what was read is not what its descriptor says, and
    the same descriptor otherwise; a window that was not gets an identity never used before
    and generation zero. *)
Theorem events_converge s s' p :
  reachable s → model (fst s) = Some p → refresh s = (Ok tt, s') →
  ∃ evs m raw w,
    log_of (fst s') = log_push_all (log_of (fst s)) evs ∧
    model (fst s') = Some m ∧
    apply_events (view_of p) evs = view_of m ∧
    scan (root (fst s)) (atoms (fst s)) (scope (fst s)) (show_titles (fst s)) (snd s) = (Ok raw, w) ∧
    reads_as (next_client (fst s)) p raw m ∧
    Forall (λ c, 0 < record_id c < next_client (fst s)) (Model_clients p) ∧
    NoDup (record_id <$> Model_clients m).
Proof.
  intros Hs%reachable_inv Hp Hrun.
  pose proof (wp_run _ _ _ _ _ _ (refresh_post s Hs) Hrun)
    as (evs & m & (He & _) & Hm & Hinv & Hview).
  destruct (Hview p Hp) as (Hv & raw & w & Hread & _ & Hf).
  destruct Hs as [_ Hold]. destruct (Hold p Hp) as (_ & Hids & _).
  exists evs, m, raw, w. split_and!; try done.
  - by rewrite Forall_fmap in Hids.
  - by destruct Hinv.
Qed.

(** C6: polling loses nothing.  Let [history] be the numbered events since the
    subscription that the observer's log accounts for; a poll extends it by the events [new]
    of its own readings.  A batch holds exactly the events of the extended history that have
    a wanted kind and a sequence after the client's cursor up to the batch's cursor, in
    order; so a client that polls again from the batch's cursor misses none and sees none
    twice.  There is a batch only while nothing was dropped: the cursor is within the
    history that is kept, no resynchronization is due, and no more than 1024 wanted events
    wait after the cursor.  A poll fails only without a subscription; with [ResyncRequired],
    which carries the current sequence, when the cursor is outside the history that is kept
    (and then nothing is changed), a resynchronization is due or more than 1024 wanted
    events wait; or because a reading of the desktop failed. *)
Theorem poll_lossless s history fuel after limit wait_ms r s' :
  reachable s → retains (log_of (fst s)) history → 0 < limit →
  poll fuel after limit wait_ms s = (r, s') →
  ∃ new,
    let history' := history ++ number (sequence (fst s)) new in
    let waiting := delivered (subscribed_kinds (fst s)) after (sequence (fst s')) history' in
    retains (log_of (fst s')) history' ∧
    sequence (fst s') = sequence (fst s) + len new ∧
    match r with
    | Ok (Some batch) =>
        subscribed (fst s) = true ∧ resync_required (fst s) = false ∧
        retained_after (fst s) ≤ after ≤ sequence (fst s) ∧ len waiting ≤ 1024 ∧
        as_slice (EventBatch_events batch)
        = delivered (subscribed_kinds (fst s)) after (EventBatch_cursor batch) history' ∧
        after ≤ EventBatch_cursor batch ≤ sequence (fst s')
    | Ok None => True
    | Err e =>
        (subscribed (fst s) = false ∧ Failure_code e = ErrorCode_InvalidArgument ∧ s' = s) ∨
        (subscribed (fst s) = true ∧ (after < retained_after (fst s) ∨ sequence (fst s) < after) ∧
         e = Failure_resync (sequence (fst s)) ∧ s' = s) ∨
        (subscribed (fst s) = true ∧ (resync_required (fst s) = true ∨ 1024 < len waiting) ∧
         e = Failure_resync (sequence (fst s'))) ∨
        ∃ s1 s2 : St, refresh s1 = (Err e, s2)
    end.
Proof.
  intros Hs%reachable_inv Hret Hlimit Hrun.
  assert (poll_spec after limit s r s') as (new & Hseq & Hspec).
  { pose proof (poll_post fuel after limit wait_ms s Hs) as Hpost. unfold wp in Hpost. rewrite Hrun in Hpost.
    by destruct r; destruct_and?. }
  exists new. destruct (Hspec history Hret) as [Hret' Hr]. split; [done|]. split; [done|].
  destruct r as [[batch|]|e]; [|done..]. destruct Hr as (? & ? & [? ?] & ? & Hbatch).
  destruct (Hbatch Hlimit) as (? & ? & ?). by split_and!.
Qed.
End runs.

(** ** A concrete desktop

    One root window (1), a conforming window manager (its check window is 2), one
    workspace, and the client windows of the state.  Requests never fail, and time passes
    only in sleeps. *)
Module Toy.
Record World := { world_clock : Z; world_windows : list Z }.

Definition toy_atoms : Atoms :=
  Build_Atoms 101 102 103 104 105 106 107 108 109 110 111 112 113 114 115 116 117 118 119 120
    121 122 123 124 125 126 127 128 129 130 131 132 133 134 135 136 137 138 139 140 141 142
    143 144 145 146.

Definition reply_of (type : Z) (values : list Z) : GetPropertyReply :=
  {| reply_type := type; reply_format := 32; reply_bytes_after := 0; reply_value := [];
     reply_value32 := Some values |}.

Definition property_of (w : World) (window property : Z) : GetPropertyReply :=
  if property =? supporting_wm_check toy_atoms then reply_of WINDOW [2]
  else if property =? number_of_desktops toy_atoms then reply_of CARDINAL [1]
  else if property =? current_desktop toy_atoms then reply_of CARDINAL [0]
  else if property =? client_list_stacking toy_atoms
  then reply_of WINDOW (filter is_u32 (world_windows w))
  else if property =? supported toy_atoms
  then reply_of ATOM [active_window toy_atoms; moveresize_window toy_atoms]
  else if property =? wm_allowed_actions toy_atoms
  then reply_of ATOM [action_move toy_atoms; action_resize toy_atoms]
  else reply_of NONE [].

#[export] Instance server : XServer World := {
  intern_atom name := ret 101;
  get_property window property type n := λ w, (Ok (property_of w window property), w);
  get_geometry window :=
    ret {| geometry_width := 100; geometry_height := 80; geometry_depth := 24 |};
  translate_coordinates source destination x y := ret (5 + x, 6 + y);
  get_window_attributes window :=
    ret {| attributes_map_state := VIEWABLE; attributes_visual := 0 |};
  composite_query_version major minor := ret (0, 4);
  composite_redirect_window window := ret tt;
  composite_unredirect_window window := ret tt;
  grab_server := ret tt;
  ungrab_server := ret tt;
  send_event window event := ret tt;
  flush := ret tt;
  now w := (world_clock w, w);
  sleep d w := {| world_clock := world_clock w + Z.max 0 d; world_windows := world_windows w |};
  clock := world_clock;
  hash_order l := l
}.

#[export] Instance laws : XServerLaws World.
Proof.
  split; try (intros; intros w; cbn; lia); try done.
  - intros window property type n w r w' [= <- <-]. unfold property_of.
    assert (∀ type values, Forall is_u32 values →
              opt (Forall is_u32) (reply_value32 (reply_of type values))) as Hr
      by (intros ? ? ? ? [= <-]; done).
    repeat case_match; apply Hr; try (by apply (bool_decide_unpack (Forall is_u32 _))).
    apply Forall_forall. by intros x [? _]%list_elem_of_filter.
  - intros window w g w' [= <- <-]. cbn. int_bounds. lia.
Qed.

Definition start : Observer * World :=
  (Observer_new 1 toy_atoms ClientScope_AllWorkspaces true true,
   {| world_clock := 0; world_windows := [10] |}).

Definition with_windows (s : Observer * World) (windows : list Z) : Observer * World :=
  (fst s, {| world_clock := world_clock (snd s); world_windows := windows |}).

(** Subscribed to everything; then a window opens. *)
Definition subscribed : Observer * World := (subscribe [] start).2.
Definition opened : Observer * World := with_windows subscribed [10; 11].

Lemma subscribed_reachable : reachable subscribed.
Proof. apply reachable_subscribe, reachable_connect. Qed.

Lemma opened_reachable : reachable opened.
Proof.
  unfold opened, with_windows. apply (reachable_elsewhere _ (snd subscribed)).
  rewrite <- surjective_pairing. apply subscribed_reachable.
Qed.

Lemma opened_retains : retains (log_of (fst opened)) [].
Proof. split; [constructor|]. intros _ _. vm_compute. reflexivity. Qed.

(** The outcome of a computation that evaluates to a success. *)
Lemma evaluates {S E A} (m : M S E A) s :
  is_ok (m s).1 = true → ∃ a s', m s = (Ok a, s').
Proof. destruct (m s) as [[a|e] s']; [eauto|done]. Qed.

Lemma observer_replies_valid_witness :
  ∃ d s', snapshot opened = (Ok d, s') ∧ validate d = Ok tt.
Proof.
  destruct (evaluates snapshot opened) as (d & s' & Hrun); [vm_compute; reflexivity|].
  exists d, s'. split; [exact Hrun|].
  exact (proj1 (proj1 (observer_replies_valid opened opened_reachable) d s' Hrun)).
Defined.

Lemma events_converge_witness :
  ∃ p s' evs m, model (fst opened) = Some p ∧ refresh opened = (Ok tt, s') ∧
    model (fst s') = Some m ∧ len (Model_clients m) = 2 ∧
    apply_events (view_of p) evs = view_of m.
Proof.
  destruct (evaluates refresh opened) as ([] & s' & Hrun); [vm_compute; reflexivity|].
  assert (is_some_and (λ _, true) (model (fst opened)) = true) as Hm by (vm_compute; reflexivity).
  destruct (model (fst opened)) as [p|] eqn:Hp; [|discriminate Hm].
  destruct (events_converge opened s' p opened_reachable Hp Hrun)
    as (evs & m & raw & w & _ & Hm' & Hv & _).
  exists p, s', evs, m. split_and!; [reflexivity|exact Hrun|exact Hm'| |exact Hv].
  assert (is_some_and (λ m, len (Model_clients m) =? 2) (model (fst (refresh opened).2)) = true)
    as Hlen by (vm_compute; reflexivity).
  rewrite Hrun in Hlen. cbn in Hlen. rewrite Hm' in Hlen. by apply Z.eqb_eq in Hlen.
Defined.

Lemma poll_lossless_witness :
  ∃ batch s', poll (samples (100 * NANOS_PER_MS)) 0 16 100 opened = (Ok (Some batch), s') ∧
    len (as_slice (EventBatch_events batch)) = 1 ∧
    ∃ new, as_slice (EventBatch_events batch)
           = delivered [] 0 (EventBatch_cursor batch) (number 0 new).
Proof.
  destruct (evaluates (poll (samples (100 * NANOS_PER_MS)) 0 16 100) opened)
    as ([batch|] & s' & Hrun); [vm_compute; reflexivity| |].
  - exists batch, s'. split; [exact Hrun|]. split.
    + assert (match (poll (samples (100 * NANOS_PER_MS)) 0 16 100 opened).1 with
              | Ok (Some b) => len (as_slice (EventBatch_events b)) =? 1
              | _ => false end = true) as Hlen by (vm_compute; reflexivity).
      rewrite Hrun in Hlen. by apply Z.eqb_eq in Hlen.
    + destruct (poll_lossless opened [] _ 0 16 100 _ s' opened_reachable opened_retains
                  ltac:(lia) Hrun) as (new & _ & _ & _ & _ & _ & _ & Hb & _).
      exists new. exact Hb.
  - exfalso. assert (match (poll (samples (100 * NANOS_PER_MS)) 0 16 100 opened).1 with
              | Ok None => false | _ => true end = true) as Hno by (vm_compute; reflexivity).
    rewrite Hrun in Hno. discriminate Hno.
Defined.

Lemma observer_waits_terminate_witness :
  (poll (samples (100 * NANOS_PER_MS)) 0 16 100 subscribed).1 ≠ Ok None ∧
  (correlate_launch (samples 1000) [] (bstr "id") 1000 subscribed).1 ≠ Ok None.
Proof.
  split.
  - exact (proj1 (observer_waits_terminate (samples (100 * NANOS_PER_MS)) 0 16 100 [] [] 1000
             subscribed (le_n _) ltac:(vm_compute; lia))).
  - refine (proj2 (observer_waits_terminate (samples 1000) 0 16 0 [] (bstr "id") 1000
             subscribed _ (le_n _))). vm_compute. lia.
Defined.

Definition move_request : Operation :=
  Operation_Geometry
    {| ClientGeometryRequest_target := {| TargetRequest_client := 1; TargetRequest_generation := 0 |};
       ClientGeometryRequest_frame :=
         {| Rect_x := 5; Rect_y := 6; Rect_width := 100; Rect_height := 80 |} |}.

Lemma manage_reply_truthful_witness :
  ∃ reply s', manage (samples MANAGEMENT_TIMEOUT) move_request subscribed = (Ok (Some reply), s') ∧
    ∃ start desired, understood subscribed move_request desired ∧ reported start desired reply s'.
Proof.
  pose proof (manage_reply_truthful (samples MANAGEMENT_TIMEOUT) move_request subscribed
                (reachable_inv _ subscribed_reachable) (le_n _)) as H.
  assert (match (manage (samples MANAGEMENT_TIMEOUT) move_request subscribed).1 with
          | Ok (Some _) => true | _ => false end = true) as Hrun by (vm_compute; reflexivity).
  destruct (manage _ _ _) as [[[reply|]|e] s']; try discriminate Hrun.
  exists reply, s'. split; [reflexivity|].
  destruct H as (_ & _ & Hreply). destruct (Hreply reply eq_refl) as (start & desired & _ & Hu & Hr).
  exists start, desired. split; [exact Hu|exact Hr].
Defined.
End Toy.

Lemma geometry_request_exact_witness :
  let frame := {| Rect_x := -5; Rect_y := 20; Rect_width := 110; Rect_height := 100 |} in
  client_rect frame (5, 5, 20, 0) = Ok (0, 40, 100, 80) ∧
  frame_from 0 40 100 80 (5, 5, 20, 0) = Some frame.
Proof.
  intros frame. split; [reflexivity|].
  refine (proj1 (geometry_request_exact frame (5, 5, 20, 0) 0 40 100 80 _ _ eq_refl)).
  - repeat split; cbn; int_bounds; lia.
  - repeat split; cbn; int_bounds; lia.
Defined.
