(* ===== verification/InputTheorems.v ===== *)
(** * Properties of pointer and keyboard input

    On the recording server: nothing is injected outside a granted grab or without a
    current seat permit, every key and button known to be down is released before the grab
    ends, and the replies count what was injected.  On a server whose replies stand still,
    as they do under a grab: the ownership checks decide who owns the focus and the
    point. *)

From stdpp Require Import gmap sets.
From S2P Require Import Prelude Text Bounded Protocol Message Effects X11 InputServer SeatGate.
From S2P Require Import Observer Manager Keyboard Input Recorder ObserverRuns.

(** ** The discipline of injected input, as an automaton over the record *)

(** Within a grab: whether the last word of the seat was accepted, the press the server
    has taken but not yet acknowledged, and what is down, as (event type, detail). *)
Record Injection := {
  checked : bool;
  pending : option (Z * Z);
  down : gset (Z * Z)
}.

Definition is_press (event_type : Z) : bool :=
  (event_type =? KEY_PRESS_EVENT) || (event_type =? BUTTON_PRESS_EVENT).
Definition is_release (event_type : Z) : bool :=
  (event_type =? KEY_RELEASE_EVENT) || (event_type =? BUTTON_RELEASE_EVENT).

(** What stays down after an event: a release answers the press of the type before. *)
Definition lifted (event_type detail : Z) (keys : gset (Z * Z)) : gset (Z * Z) :=
  if is_release event_type then keys ∖ {[ (event_type - 1, detail) ]} else keys.

Definition injection_step (permit : SeatPermit) (phase : option Injection) (entry : Sent)
  : option (option Injection) :=
  match phase, entry with
  | None, Sent_Grab granted =>
      Some (if granted then Some {| checked := false; pending := None; down := ∅ |} else None)
  | None, Sent_Seat _ => Some None
  | Some i, Sent_Seat word =>
      Some (Some {| checked := SeatGate_accepts word permit; pending := pending i;
                    down := down i |})
  | Some i, Sent_Input event_type detail _ _ accepted =>
      if checked i
      then Some (Some {| checked := true;
                         pending := if accepted && is_press event_type
                                    then Some (event_type, detail) else None;
                         down := lifted event_type detail (down i) |})
      else None
  | Some i, Sent_IgnoredInput event_type detail =>
      if checked i && is_release event_type
      then Some (Some {| checked := true; pending := pending i;
                         down := lifted event_type detail (down i) |})
      else None
  | Some i, Sent_Sync done =>
      Some (Some {| checked := checked i; pending := None;
                    down := if done then from_option (λ k, {[ k ]}) ∅ (pending i) ∪ down i
                            else down i |})
  | Some i, Sent_Ungrab => if bool_decide (down i = ∅) then Some None else None
  | _, _ => None
  end.

Fixpoint injection_run (permit : SeatPermit) (phase : option Injection) (record : list Sent)
  : option (option Injection) :=
  match record with
  | [] => Some phase
  | entry :: record =>
      phase ← injection_step permit phase entry; injection_run permit phase record
  end.

(** The record of complete grabs, each disciplined. *)
Definition input_disciplined (permit : SeatPermit) (record : list Sent) : Prop :=
  injection_run permit None record = Some None.

Lemma injection_run_app permit phase l l' :
  injection_run permit phase (l ++ l')
  = (phase ← injection_run permit phase l; injection_run permit phase l').
Proof.
  revert phase. induction l as [|e l IH]; intros; [done|]. cbn.
  destruct (injection_step permit phase e); [apply IH|done].
Qed.

(** The input operations of a session. *)
Inductive InputCall :=
| InputCall_PointerMove (request : PointerMoveRequest)
| InputCall_PointerClick (request : PointerClickRequest)
| InputCall_KeyboardType (request : KeyboardTypeRequest)
| InputCall_KeyboardWrite (request : KeyboardWriteRequest)
| InputCall_KeyboardKey (request : KeyboardKeyRequest).

Definition perform {W} `{XServer W, XInput W, SharedSeat W} (permit : SeatPermit)
    (call : InputCall) : M (Observer * W) Failure InputReply :=
  match call with
  | InputCall_PointerMove request => pointer_move request permit
  | InputCall_PointerClick request => pointer_click request permit
  | InputCall_KeyboardType request => keyboard_type request permit
  | InputCall_KeyboardWrite request => keyboard_write request permit
  | InputCall_KeyboardKey request => keyboard_key request permit
  end.

Section discipline.
Context {W : Type} `{XServer W, XInput W, SharedSeat W}.
Context (permit : SeatPermit).

Notation T := (W * list Sent)%type.
Notation St := (Observer * T)%type.
Notation sent := (λ s : Observer * T, snd (snd s)).
Notation key k := (KEY_PRESS_EVENT, k).

Definition in_phase (phase : option Injection) (s : St) : Prop :=
  injection_run permit None (snd (snd s)) = Some phase.

(** Under a grab with an accepted word, and at most [keys] down. *)
Definition holding (keys : list (Z * Z)) (s : St) : Prop :=
  ∃ d, in_phase (Some {| checked := true; pending := None; down := d |}) s ∧
       d ⊆ list_to_set keys.

(** Under a grab, with nothing down. *)
Definition released (s : St) : Prop :=
  ∃ c, in_phase (Some {| checked := c; pending := None; down := ∅ |}) s.

Lemma in_phase_snoc phase (s s' : St) entry :
  in_phase phase s → snd (snd s') = snd (snd s) ++ [entry] →
  injection_run permit None (snd (snd s')) = injection_step permit phase entry.
Proof.
  unfold in_phase. intros Hs ->. rewrite injection_run_app, Hs. cbn.
  by destruct (injection_step permit phase entry).
Qed.

Lemma in_phase_quiet {A} (m : M St Failure A) phase s :
  Preserves sent m → in_phase phase s → wp m (λ _, in_phase phase) (λ _, in_phase phase) s.
Proof.
  intros Hm Hs. wp_call preserves_wp; [exact Hm|..]; intros ? s1 Hs1; unfold in_phase;
    cbn in Hs1; by rewrite Hs1.
Qed.

Lemma holding_nil s :
  holding [] s ↔ in_phase (Some {| checked := true; pending := None; down := ∅ |}) s.
Proof.
  split; [|by exists ∅]. intros (d & Hd & Hsub). assert (d = ∅) as -> by set_solver. done.
Qed.

Lemma holding_released s : holding [] s → released s.
Proof. intros Hs%holding_nil. by exists true. Qed.

Lemma holding_weaken keys keys' s : keys ⊆ keys' → holding keys s → holding keys' s.
Proof. intros Hsub (d & ? & ?). exists d. split; [done|]. set_solver. Qed.

(** *** Injection *)

Lemma sync_holding keys p (s : St) s' ok :
  in_phase (Some {| checked := true; pending := p; down := keys |}) s →
  snd (snd s') = snd (snd s) ++ [Sent_Sync ok] →
  in_phase (Some {| checked := true; pending := None;
                    down := if ok then from_option (λ k, {[ k ]}) ∅ p ∪ keys else keys |}) s'.
Proof. intros Hs Hs'. unfold in_phase. by rewrite (in_phase_snoc _ _ _ _ Hs Hs'). Qed.

Lemma fake_input_phase event_type detail x y keys s :
  in_phase (Some {| checked := true; pending := None; down := keys |}) s →
  wp (fake_input event_type detail x y)
    (λ _, in_phase (Some {| checked := true; pending := None;
       down := (if is_press event_type then {[ (event_type, detail) ]} else ∅)
               ∪ lifted event_type detail keys |}))
    (λ _, in_phase (Some {| checked := true; pending := None;
                            down := lifted event_type detail keys |})) s.
Proof.
  intros Hs. unfold fake_input. wp_step. wp_call recorded_post.
  - intros [] s1 [_ Hs1].
    assert (in_phase (Some {| checked := true;
       pending := if is_press event_type then Some (event_type, detail) else None;
       down := lifted event_type detail keys |}) s1) as Hp.
    { unfold in_phase. by rewrite (in_phase_snoc _ _ _ _ Hs Hs1). }
    wp_call recorded_post; intros ? s2 [_ Hs2]; pose proof (sync_holding _ _ _ _ _ Hp Hs2) as H2;
      [by destruct (is_press event_type)|done].
  - intros e s1 [_ Hs1]. unfold in_phase. by rewrite (in_phase_snoc _ _ _ _ Hs Hs1).
Qed.

Lemma press_holding event_type detail x y keys s :
  is_press event_type = true → holding keys s →
  wp (fake_input event_type detail x y) (λ _, holding ((event_type, detail) :: keys))
    (λ _, holding keys) s.
Proof.
  intros Hpress (d & Hd & Hsub). wp_call fake_input_phase; [exact Hd|..]; cbn; rewrite ?Hpress.
  - intros [] s1 Hs1. eexists. split; [exact Hs1|]. unfold lifted. case_match; set_solver.
  - intros e s1 Hs1. eexists. split; [exact Hs1|]. unfold lifted. case_match; set_solver.
Qed.

Lemma motion_holding x y keys s :
  holding keys s →
  wp (fake_input MOTION_NOTIFY_EVENT 0 x y) (λ _, holding keys) (λ _, holding keys) s.
Proof.
  intros (d & Hd & Hsub). wp_call fake_input_phase; [exact Hd|..]; intros ? s1 Hs1; eexists;
    (split; [exact Hs1|]); unfold lifted; cbn; set_solver.
Qed.

Lemma release_holding event_type detail x y keys s :
  is_release event_type = true → holding ((event_type - 1, detail) :: keys) s →
  wp (fake_input event_type detail x y) (λ _, holding keys) (λ _, holding keys) s.
Proof.
  intros Hrel (d & Hd & Hsub).
  assert (is_press event_type = false) as Hp.
  { unfold is_press, is_release in *. unfold KEY_RELEASE_EVENT, BUTTON_RELEASE_EVENT,
      KEY_PRESS_EVENT, BUTTON_PRESS_EVENT in *. lia. }
  wp_call fake_input_phase; [exact Hd|..]; intros ? s1 Hs1; eexists; (split; [exact Hs1|]);
    rewrite ?Hp; unfold lifted; rewrite Hrel; set_solver.
Qed.

Lemma best_effort_holding event_type detail keys s :
  is_release event_type = true → holding keys s →
  wp (best_effort_release event_type detail)
    (λ _ s', ∃ d, in_phase (Some {| checked := true; pending := None; down := d |}) s' ∧
                  d ⊆ list_to_set keys ∖ {[ (event_type - 1, detail) ]}) (λ _ _, False) s.
Proof.
  intros Hrel (d & Hd & Hsub). unfold best_effort_release. wp_step. wp_step.
  assert (∀ s1, snd (snd s1) = snd (snd s) ++ [Sent_IgnoredInput event_type detail] →
    in_phase (Some {| checked := true; pending := None;
                      down := d ∖ {[ (event_type - 1, detail) ]} |}) s1) as Hq.
  { intros s1 Hs1. unfold in_phase. rewrite (in_phase_snoc _ _ _ _ Hd Hs1). cbn.
    unfold lifted. by rewrite Hrel. }
  assert (∀ s1, snd (snd s1) = snd (snd s) ++ [Sent_IgnoredInput event_type detail] →
    wp (let! _ := attempt (x11 (E:=XError) sync) in ret tt)
      (λ _ s', ∃ d, in_phase (Some {| checked := true; pending := None; down := d |}) s' ∧
                  d ⊆ list_to_set keys ∖ {[ (event_type - 1, detail) ]}) (λ (_ : Failure) _, False) s1)
    as Hsync.
  { intros s1 Hs1%Hq. do 2 wp_step. wp_call recorded_raw_post; intros ? s2 [_ Hs2]; wp_step;
      (eexists; split; [exact (sync_holding _ _ _ _ _ Hs1 Hs2)|cbn; set_solver]). }
  wp_call recorded_raw_post; intros r s1 [_ Hs1].
  - by apply Hsync.
  - wp_step. eexists. split; [by apply Hq|]. set_solver.
Qed.

Lemma best_effort_drop event_type detail keys s :
  is_release event_type = true → holding ((event_type - 1, detail) :: keys) s →
  wp (best_effort_release event_type detail) (λ _, holding keys) (λ _ _, False) s.
Proof.
  intros Hrel Hs. wp_call best_effort_holding; [done|exact Hs| |done].
  intros [] s1 (d & Hd & Hsub). exists d. split; [done|]. set_solver.
Qed.

Lemma release_keys_holding ks keys s :
  holding (keys ++ ((λ k, key k) <$> ks)) s →
  wp (release_keys ks) (λ _, holding keys) (λ _ _, False) s.
Proof.
  unfold release_keys. intros Hs.
  assert (holding (keys ++ ((λ k, key k) <$> reverse ks)) s) as Hs'.
  { eapply holding_weaken; [|exact Hs]. intros k. rewrite !elem_of_app, fmap_reverse, elem_of_reverse. done. }
  clear Hs. revert s Hs'. induction (reverse ks) as [|k rs IH]; intros s Hs; cbn [for_each].
  { wp_step. by rewrite app_nil_r in Hs. }
  wp_step. wp_call (best_effort_drop KEY_RELEASE_EVENT k (keys ++ ((λ k, key k) <$> rs)));
    [done| |by intros [] s1 Hs1; apply IH|done].
  eapply holding_weaken; [|exact Hs]. cbn. intros p. rewrite !elem_of_app, !elem_of_cons, elem_of_app.
  tauto.
Qed.

(** All of [ks] goes up, whatever happens. *)
Lemma release_all ks s :
  holding ((λ k, key k) <$> ks) s → wp (release_keys ks) (λ _, holding []) (λ _ _, False) s.
Proof. intros Hs. by apply release_keys_holding. Qed.

(** The pattern of the error branches: release what is down, and fail. *)
Lemma release_then_fail {A} ks (e : Failure) s (Q : A → St → Prop) :
  holding ((λ k, key k) <$> ks) s → wp (release_keys ks ;! fail e) Q (λ _, holding []) s.
Proof. intros Hs. wp_step. wp_call release_all; [done| |done]. intros [] s1 Hs1. by wp_step. Qed.

Lemma press_modifiers_holding pressed modifiers s :
  holding ((λ k, key k) <$> pressed) s →
  wp (press_modifiers pressed modifiers)
    (λ pressed' s', pressed' = pressed ++ modifiers ∧ holding ((λ k, key k) <$> pressed') s')
    (λ _, holding []) s.
Proof.
  revert pressed s. induction modifiers as [|m ms IH]; intros pressed s Hs; cbn [press_modifiers].
  { wp_step. by rewrite app_nil_r. }
  wp_step. wp_step. wp_call press_holding; [done|exact Hs|..].
  - intros [] s1 Hs1. wp_call (IH (pressed ++ [m])); [|intros p s2; by rewrite <- (assoc_L (++))|done].
    eapply holding_weaken; [|exact Hs1]. rewrite fmap_app. set_solver.
  - intros e s1 Hs1. by apply release_then_fail.
Qed.

Lemma release_modifiers_holding popped s :
  holding ((λ k, key k) <$> popped) s →
  wp (release_modifiers popped) (λ _, holding []) (λ _, holding []) s.
Proof.
  revert s. induction popped as [|m ms IH]; intros s Hs; cbn [release_modifiers]; [by wp_step|].
  wp_step. wp_step. wp_call (release_holding KEY_RELEASE_EVENT m 0 0 ((λ k, key k) <$> ms)); [done|exact Hs|..].
  - intros [] s1 Hs1. by apply IH.
  - intros e s1 Hs1. wp_step. wp_call (best_effort_drop KEY_RELEASE_EVENT m ((λ k, key k) <$> ms)); [done| | |done].
    { eapply holding_weaken; [|exact Hs1]. set_solver. }
    intros [] s2 Hs2. apply release_then_fail. eapply holding_weaken; [|exact Hs2].
    rewrite fmap_reverse. intros p. by rewrite elem_of_reverse.
Qed.

Lemma type_key_holding stroke s :
  holding [] s → wp (type_key stroke) (λ _, holding []) (λ _, holding []) s.
Proof.
  intros Hs. unfold type_key. wp_step. wp_call press_modifiers_holding; [exact Hs| |done].
  intros pressed s1 [_ Hs1]. wp_step. wp_step. wp_call press_holding; [done|exact Hs1|..].
  2: { intros e s2 Hs2. by apply release_then_fail. }
  intros [] s2 Hs2. wp_step. wp_step.
  wp_call (release_holding KEY_RELEASE_EVENT); [done|exact Hs2|..].
  - intros [] s3 Hs3. apply release_modifiers_holding. eapply holding_weaken; [|exact Hs3].
    rewrite fmap_reverse. intros p. by rewrite elem_of_reverse.
  - intros e s3 Hs3. wp_step.
    wp_call (best_effort_drop KEY_RELEASE_EVENT (stroke_keycode stroke) ((λ k, key k) <$> pressed)); [done| | |done].
    { eapply holding_weaken; [|exact Hs3]. set_solver. }
    intros [] s4 Hs4. by apply release_then_fail.
Qed.

Lemma click_button_holding button x y s :
  holding [] s → wp (click_button button x y) (λ _, holding []) (λ _, holding []) s.
Proof.
  intros Hs. unfold click_button. wp_step.
  wp_call (press_holding BUTTON_PRESS_EVENT); [done|exact Hs| |done].
  intros [] s1 Hs1. wp_step. wp_step.
  wp_call (release_holding BUTTON_RELEASE_EVENT); [done|exact Hs1|intros [] s2 Hs2; by wp_step|].
  intros e s2 Hs2. wp_step.
  wp_call (best_effort_drop BUTTON_RELEASE_EVENT (button_detail button) []); [done| |intros [] s3 Hs3; by wp_step|done].
  eapply holding_weaken; [|exact Hs2]. set_solver.
Qed.

(** *** Operations *)

Lemma released_quiet {A} (m : M St Failure A) s :
  Preserves sent m → released s → wp m (λ _, released) (λ _, released) s.
Proof.
  intros Hm [c Hc]. wp_call (in_phase_quiet m _ s Hm Hc); intros ? s1 Hs1; by exists c.
Qed.

Lemma holding_quiet {A} (m : M St Failure A) keys s :
  Preserves sent m → holding keys s → wp m (λ _, holding keys) (λ _, holding keys) s.
Proof.
  intros Hm (d & Hd & ?). wp_call (in_phase_quiet m _ s Hm Hd); intros ? s1 Hs1; by exists d.
Qed.

Lemma accepts_phase i s :
  in_phase (Some i) s →
  wp (accepts permit) (λ enabled, in_phase (Some {| checked := enabled; pending := pending i;
                                                    down := down i |})) (λ _ _, False) s.
Proof.
  intros Hs. wp_call (accepts_post permit s (λ _ _, False)); [|done]. intros enabled s1 (word & -> & _ & Hs1).
  unfold in_phase. by rewrite (in_phase_snoc _ _ _ _ Hs Hs1).
Qed.

Lemma accepts_between s :
  in_phase None s → wp (accepts permit) (λ _, in_phase None) (λ _ _, False) s.
Proof.
  intros Hs. wp_call (accepts_post permit s (λ _ _, False)); [|done]. intros enabled s1 (word & -> & _ & Hs1).
  unfold in_phase. by rewrite (in_phase_snoc _ _ _ _ Hs Hs1).
Qed.

Lemma if_accepted_phase action s :
  released s →
  (∀ s1, holding [] s1 → wp action (λ _, holding []) (λ _, holding []) s1) →
  wp (if_accepted permit action) (λ _, released) (λ _, released) s.
Proof.
  intros [c Hc] Hact. unfold if_accepted. wp_step. wp_call accepts_phase; [exact Hc| |by intros ? ? []].
  intros [] s1 Hs1; cbn [negb].
  - wp_step. wp_call Hact; [by apply holding_nil| |by intros ? ? ?%holding_released].
    intros [] s2 Hs2. wp_step. by apply holding_released.
  - wp_step. by exists false.
Qed.

Lemma under_grab_phase {A} (action : M St Failure A) s :
  in_phase None s →
  (∀ s1, released s1 → wp action (λ _, released) (λ _, released) s1) →
  wp (under_server_grab action) (λ _, in_phase None) (λ _, in_phase None) s.
Proof.
  intros Hs Hact. unfold under_server_grab. wp_step. wp_call recorded_post.
  2: { intros e s1 [_ Hs1]. unfold in_phase. by rewrite (in_phase_snoc _ _ _ _ Hs Hs1). }
  intros [] s1 [_ Hs1].
  assert (released s1) as Hr1.
  { exists false. unfold in_phase. by rewrite (in_phase_snoc _ _ _ _ Hs Hs1). }
  assert (∀ (r : result A Failure) s2, released s2 →
    wp (let! released := attempt (or_unavailable "cannot request an X11 server ungrab"
                              "cannot release the X11 server grab" ungrab_server) in
        match r, released with
        | Ok value, Ok _ => ret value
        | Err error, _ | Ok _, Err error => fail error
        end) (λ _, in_phase None) (λ _, in_phase None) s2) as Hend.
  { intros r s2 [c Hc]. wp_step. wp_step. wp_call recorded_post; intros u s3 [_ Hs3];
      (assert (in_phase None s3) as H3 by (unfold in_phase; by rewrite (in_phase_snoc _ _ _ _ Hc Hs3)));
      destruct r; by wp_step. }
  wp_step. wp_step. wp_call Hact; [exact Hr1|intros a s2 Hs2; by apply (Hend (Ok a))|intros e s2 Hs2; by apply (Hend (Err e))].
Qed.

Lemma reply_for_phase ok s (R : Failure → St → Prop) :
  in_phase None s → wp (reply_for permit ok) (λ _, in_phase None) R s.
Proof.
  intros Hs. unfold reply_for. wp_step. wp_call accepts_between; [done| |by intros ? ? []].
  intros enabled s1 Hs1. by wp_step.
Qed.

Lemma pointer_move_phase request s :
  in_phase None s → wp (pointer_move request permit) (λ _, in_phase None) (λ _, in_phase None) s.
Proof.
  intros Hs. unfold pointer_move. wp_step. wp_call under_grab_phase; [done| |intros; by apply reply_for_phase|done].
  intros s1 Hs1. wp_step. wp_call released_quiet; [apply _|done| |done].
  intros [[xid x] y] s2 Hs2. apply if_accepted_phase; [done|]. intros s3. apply motion_holding.
Qed.

Lemma pointer_click_phase request s :
  in_phase None s → wp (pointer_click request permit) (λ _, in_phase None) (λ _, in_phase None) s.
Proof.
  intros Hs. unfold pointer_click. wp_step. wp_call under_grab_phase; [done| |intros; by apply reply_for_phase|done].
  intros s1 Hs1. wp_step. wp_call released_quiet; [apply _|done| |done].
  intros [[xid x] y] s2 Hs2. apply if_accepted_phase; [done|]. intros s3 Hs3.
  wp_step. wp_call motion_holding; [done|intros [] s4; apply click_button_holding|done].
Qed.

Lemma keyboard_key_phase request s :
  in_phase None s → wp (keyboard_key request permit) (λ _, in_phase None) (λ _, in_phase None) s.
Proof.
  intros Hs. unfold keyboard_key. wp_step. wp_call under_grab_phase; [done| |intros; by apply reply_for_phase|done].
  intros s1 Hs1. wp_step. wp_call released_quiet; [apply _|done| |done]. intros t s2 Hs2.
  wp_step. wp_call released_quiet; [apply _|done| |done]. intros stroke s3 Hs3.
  apply if_accepted_phase; [done|]. intros s4. apply type_key_holding.
Qed.

Lemma type_character_phase request character position s :
  in_phase None s →
  wp (type_character request permit character position) (λ _, in_phase None) (λ _, in_phase None) s.
Proof.
  intros Hs. apply under_grab_phase; [done|]. intros s1 Hs1.
  wp_step. wp_call released_quiet; [apply _|done| |done]. intros t s2 Hs2.
  apply if_accepted_phase; [done|]. intros s3 Hs3. wp_step.
  wp_call holding_quiet; [apply _|done| |done]. intros stroke s4. apply type_key_holding.
Qed.

Lemma type_characters_phase request completed characters s :
  in_phase None s →
  wp (type_characters request permit completed characters) (λ _, in_phase None) (λ _, in_phase None) s.
Proof.
  revert completed s. induction characters as [|c cs IH]; intros completed s Hs;
    cbn [type_characters]; [by wp_step|]. cbv zeta.
  wp_step. apply wp_lift; [|done]. intros position Hpos. wp_step. wp_step.
  wp_call type_character_phase; [done|..].
  - intros [] s1 Hs1; [|by wp_step]. rewrite Hpos. wp_step. apply wp_lift; [|done]. intros next _.
    wp_step. wp_call accepts_between; [done| |by intros ? ? []]. intros enabled s2 Hs2.
    wp_step; [by wp_step|]. by apply IH.
  - intros e s1 Hs1. by wp_step.
Qed.

Lemma keyboard_text_phase request text s :
  in_phase None s →
  wp (keyboard_text request text permit) (λ _, in_phase None) (λ _, in_phase None) s.
Proof.
  intros Hs. unfold keyboard_text. wp_step. apply wp_lift; [|done]. intros requested _.
  wp_step. wp_call under_grab_phase; [done| | |done].
  { intros s1 Hs1. wp_step. wp_call released_quiet; [apply _|done| |done]. intros t s2 Hs2.
    wp_step. wp_call released_quiet; [apply _|done| |done]. intros strokes s3 Hs3. by wp_step. }
  intros [] s1 Hs1. wp_step. wp_call type_characters_phase; [done| |done]. intros completed s2 Hs2.
  wp_step. wp_step.
  - wp_call accepts_between; [done|intros ? s3 Hs3; by wp_step|by intros ? ? []].
  - wp_step. by wp_step.
Qed.


Lemma perform_phase call s :
  in_phase None s → wp (perform permit call) (λ _, in_phase None) (λ _, in_phase None) s.
Proof.
  destruct call; cbn [perform].
  - apply pointer_move_phase.
  - apply pointer_click_phase.
  - apply keyboard_text_phase.
  - apply keyboard_text_phase.
  - apply keyboard_key_phase.
Qed.

(** C3: input is injected only under the grab and the seat permit, and nothing stays
    pressed.  Whatever the X server answers and however operators move the seat word, the
    record of every input operation is disciplined: it is a sequence of complete grabs;
    within a grab an event is injected only after a seat word, read in this same grab, was
    accepted for the permit of the operation; and when the grab is released every key and
    button whose press the server acknowledged has had its release sent. *)
Theorem input_discipline call o w :
  let '(_, (_, (_, record))) := perform permit call (o, (w, [])) in
  input_disciplined permit record.
Proof.
  assert (in_phase None (o, (w, []))) as Hs by done.
  pose proof (perform_phase call _ Hs) as Hp. unfold wp in Hp.
  destruct (perform permit call (o, (w, []))) as [[r|e] [o' [w' l]]]; exact Hp.
Qed.
End discipline.

(** ** What was injected when an operation succeeds *)

(** An event the server took and acknowledged. *)
Definition injected (event_type detail x y : Z) : list Sent :=
  [Sent_Input event_type detail x y true; Sent_Sync true].

Definition pressed (keycode : Z) : list Sent := injected KEY_PRESS_EVENT keycode 0 0.
Definition lifted_key (keycode : Z) : list Sent := injected KEY_RELEASE_EVENT keycode 0 0.

(** Modifiers down in order, the key down and up, modifiers up in reverse order. *)
Definition typed (stroke : KeyStroke) : list Sent :=
  (stroke_modifiers stroke ≫= pressed) ++
  pressed (stroke_keycode stroke) ++ lifted_key (stroke_keycode stroke) ++
  (reverse (stroke_modifiers stroke) ≫= lifted_key).

Definition moved (x y : Z) : list Sent := injected MOTION_NOTIFY_EVENT 0 x y.

Definition clicked (button : PointerButton) (x y : Z) : list Sent :=
  moved x y ++ injected BUTTON_PRESS_EVENT (button_detail button) x y
            ++ injected BUTTON_RELEASE_EVENT (button_detail button) x y.

(** Whole characters typed: each in a grab of its own, under a word accepted there, and
    read again after it. *)
Inductive characters_typed (permit : SeatPermit) : list Sent → Z → Prop :=
| characters_none : characters_typed permit [] 0
| characters_more record n word stroke after :
    characters_typed permit record n → SeatGate_accepts word permit = true →
    characters_typed permit
      (record ++ [Sent_Grab true; Sent_Seat word] ++ typed stroke ++ [Sent_Ungrab; Sent_Seat after])
      (n + 1).

Section success.
Context {W : Type} `{XServer W, XInput W, SharedSeat W}.
Context (permit : SeatPermit).

Notation T := (W * list Sent)%type.
Notation St := (Observer * T)%type.
Notation sent := (λ s : Observer * T, snd (snd s)).
Notation anything := (λ _ _, True).

(** When [m] succeeds it has recorded [entries]. *)
Definition emits {A} (m : M St Failure A) (entries : list Sent) : Prop :=
  ∀ s, wp m (λ _ s', snd (snd s') = snd (snd s) ++ entries) anything s.

Lemma emits_ret {A} (a : A) : emits (ret a) [].
Proof. intros s. wp_step. by rewrite app_nil_r. Qed.

Lemma emits_fail {A} (e : Failure) l : emits (A:=A) (fail e) l.
Proof. done. Qed.

Lemma emits_bind {A B} (m : M St Failure A) (k : A → M St Failure B) l l' :
  emits m l → (∀ a, emits (k a) l') → emits (bind m k) (l ++ l').
Proof.
  intros Hm Hk s. wp_step. wp_call Hm; [|done]. intros a s1 Hs1.
  wp_call Hk; [|done]. intros b s2 Hs2. by rewrite Hs2, Hs1, <- (assoc_L (++)).
Qed.

(** A step whose failure is dealt with, and reported, by [handler]. *)
Lemma emits_try {A B} (m : M St Failure A) (handler : Failure → M St Failure B)
    (k : A → M St Failure B) l l' :
  emits m l → (∀ e s, wp (handler e) (λ _ _, False) anything s) → (∀ a, emits (k a) l') →
  emits (let! r := attempt m in match r with Ok a => k a | Err e => handler e end) (l ++ l').
Proof.
  intros Hm Hh Hk s. wp_step. wp_step. wp_call Hm; intros a s1 Hs1.
  - wp_call Hk; [|done]. intros b s2 Hs2. by rewrite Hs2, Hs1, <- (assoc_L (++)).
  - wp_call Hh; [by intros ? ? []|done].
Qed.

Lemma fails_last {A B} (m : M St Failure B) (e : Failure) s :
  wp (bind m (λ _, fail e)) (λ (_ : A) _, False) anything s.
Proof. wp_step. unfold wp. by destruct (m s) as [[] ?]. Qed.

Lemma fake_input_emits event_type detail x y :
  emits (fake_input event_type detail x y) (injected event_type detail x y).
Proof.
  intros s. unfold fake_input. wp_step. wp_call recorded_post; [|done]. intros [] s1 [_ Hs1].
  wp_call recorded_post; [|done]. intros [] s2 [_ Hs2].
  by rewrite Hs2, Hs1, <- (assoc_L (++)).
Qed.

Lemma press_modifiers_emits down modifiers s :
  wp (press_modifiers down modifiers)
    (λ down' s', down' = down ++ modifiers ∧
       snd (snd s') = snd (snd s) ++ (modifiers ≫= pressed)) anything s.
Proof.
  revert down s. induction modifiers as [|m ms IH]; intros down s; cbn [press_modifiers].
  { wp_step. by rewrite !app_nil_r. }
  do 2 wp_step. wp_call fake_input_emits; intros ? s1 Hs1; [|wp_call (fails_last (A:=list Z)); [by intros ? ? []|done]].
  wp_call IH; [|done]. intros down' s2 [-> Hs2]. rewrite Hs2, Hs1, <- !(assoc_L (++)). done.
Qed.

Lemma release_modifiers_emits popped : emits (release_modifiers popped) (popped ≫= lifted_key).
Proof.
  induction popped as [|m ms IH]; cbn [release_modifiers]; [apply emits_ret|].
  apply (emits_try _ (λ error, best_effort_release KEY_RELEASE_EVENT m ;!
      release_keys (reverse ms) ;! fail error) (λ _, release_modifiers ms));
    [apply fake_input_emits| |done].
  intros e s. wp_step. unfold wp. destruct (best_effort_release _ _ s) as [[[]|] s1]; [|done].
  apply fails_last.
Qed.

Lemma type_key_emits stroke : emits (type_key stroke) (typed stroke).
Proof.
  intros s. unfold type_key, typed. wp_step. wp_call press_modifiers_emits; [|done].
  intros down s1 [-> Hs1].
  assert (emits (
    let! result := attempt (fake_input KEY_PRESS_EVENT (stroke_keycode stroke) 0 0) in
    match result with
    | Err error => release_keys (stroke_modifiers stroke) ;! fail error
    | Ok _ =>
      let! result := attempt (fake_input KEY_RELEASE_EVENT (stroke_keycode stroke) 0 0) in
      match result with
      | Err error =>
          best_effort_release KEY_RELEASE_EVENT (stroke_keycode stroke) ;!
          release_keys (stroke_modifiers stroke) ;!
          fail error
      | Ok _ => release_modifiers (reverse (stroke_modifiers stroke))
      end
    end) (pressed (stroke_keycode stroke) ++ lifted_key (stroke_keycode stroke)
          ++ (reverse (stroke_modifiers stroke) ≫= lifted_key))) as Hrest.
  { apply (emits_try _ (λ error, release_keys (stroke_modifiers stroke) ;! fail error)
      (λ _, let! result := attempt (fake_input KEY_RELEASE_EVENT (stroke_keycode stroke) 0 0) in _));
      [apply fake_input_emits|intros; apply fails_last|intros _].
    apply (emits_try _ (λ error, best_effort_release KEY_RELEASE_EVENT (stroke_keycode stroke) ;!
          release_keys (stroke_modifiers stroke) ;! fail error)
      (λ _, release_modifiers (reverse (stroke_modifiers stroke))));
      [apply fake_input_emits| |intros _; apply release_modifiers_emits].
    intros e s2. wp_step. unfold wp. destruct (best_effort_release _ _ s2) as [[[]|] s3]; [|done].
    apply fails_last. }
  wp_call Hrest; [|done]. intros [] s2 Hs2. by rewrite Hs2, Hs1, <- (assoc_L (++)).
Qed.

Lemma click_button_emits button x y :
  emits (click_button button x y)
    (injected BUTTON_PRESS_EVENT (button_detail button) x y
       ++ injected BUTTON_RELEASE_EVENT (button_detail button) x y).
Proof.
  unfold click_button. cbv zeta. apply emits_bind; [apply fake_input_emits|intros []].
  rewrite <- (app_nil_r (injected BUTTON_RELEASE_EVENT _ _ _)).
  apply (emits_try _ (λ error, best_effort_release BUTTON_RELEASE_EVENT (button_detail button) ;!
      fail error) (λ _, ret tt)); [apply fake_input_emits|intros; apply fails_last|].
  intros _. apply emits_ret.
Qed.
Lemma under_grab_success {A} (action : M St Failure A) (Q : A → list Sent → Prop) s :
  (∀ s1, fst s1 = fst s → snd (snd s1) = snd (snd s) ++ [Sent_Grab true] →
     wp action (λ a s2, ∃ l, snd (snd s2) = snd (snd s1) ++ l ∧ Q a l) anything s1) →
  wp (under_server_grab action)
    (λ a s', ∃ l, snd (snd s') = snd (snd s) ++ [Sent_Grab true] ++ l ++ [Sent_Ungrab] ∧ Q a l)
    anything s.
Proof.
  intros Hact. unfold under_server_grab. wp_step. wp_call recorded_post; [|done].
  intros [] s1 [Ho1 Hs1]. specialize (Hact s1 Ho1 Hs1). do 2 wp_step. wp_call Hact.
  - intros a s2 (l & Hs2 & HQ). do 2 wp_step. wp_call recorded_post; intros u s3 [_ Hs3].
    + wp_step. exists l. split; [|done]. by rewrite Hs3, Hs2, Hs1, <- !(assoc_L (++)).
    + by wp_step.
  - intros e s2 _. do 2 wp_step. wp_call recorded_post; intros u s3 _; by wp_step.
Qed.

Definition if_word (word : Z) (events : list Sent) : list Sent :=
  if SeatGate_accepts word permit then events else [].

Lemma if_accepted_success action events s :
  emits action events →
  wp (if_accepted permit action)
    (λ sent s', ∃ word, sent = SeatGate_accepts word permit ∧
       snd (snd s') = snd (snd s) ++ [Sent_Seat word] ++ if_word word events) anything s.
Proof.
  intros Hact. unfold if_accepted, if_word. wp_step. wp_call (accepts_post permit s (λ _ _, False)); [|done].
  intros enabled s1 (word & -> & _ & Hs1). destruct (SeatGate_accepts word permit) eqn:Hw; cbn [negb].
  - wp_step. wp_call Hact; [|done]. intros [] s2 Hs2. wp_step. exists word. rewrite Hw.
    split; [done|]. by rewrite Hs2, Hs1, <- (assoc_L (++)).
  - wp_step. exists word. rewrite Hw. split; [done|]. by rewrite Hs1.
Qed.

(** What one action records before its reply, and the reply. *)
Definition action_record (events : list Sent) (record : list Sent) (reply : InputReply) : Prop :=
  ∃ word after,
    record = [Sent_Grab true; Sent_Seat word] ++ if_word word events ++ [Sent_Ungrab; Sent_Seat after] ∧
    reply = action_reply (SeatGate_accepts word permit) (SeatGate_accepts after permit).

Lemma action_success (action : M St Failure bool) (Q : list Sent → Prop) o w :
  (∀ s1, fst s1 = o → snd (snd s1) = [Sent_Grab true] →
     wp action (λ sent s2, ∃ word events, Q events ∧ sent = SeatGate_accepts word permit ∧
                  snd (snd s2) = snd (snd s1) ++ [Sent_Seat word] ++ if_word word events)
       anything s1) →
  wp (let! sent := under_server_grab action in reply_for permit sent)
    (λ reply s', ∃ events, Q events ∧ action_record events (snd (snd s')) reply) anything
    (o, (w, [])).
Proof.
  intros Hact. wp_step.
  wp_call (under_grab_success action (λ sent l, ∃ word events, Q events ∧
      sent = SeatGate_accepts word permit ∧ l = [Sent_Seat word] ++ if_word word events)); [| |done].
  { intros s1 Ho Hs1. wp_call Hact; [done|done| |done].
    intros sent s2 (word & events & HQ & Hsent & Hs2). eexists. split; [exact Hs2|]. by eexists _, _. }
  intros sent s2 (l & Hs2 & word & events & HQ & -> & ->). unfold reply_for. wp_step.
  wp_call (accepts_post permit s2 (λ _ _, False)); [|done]. intros enabled s3 (after & -> & _ & Hs3).
  wp_step. exists events. split; [done|]. exists word, after. split; [|done].
  by rewrite Hs3, Hs2, <- !(assoc_L (++)).
Qed.
(** *** Text *)

#[export] Instance fake_input_appends event_type detail x y :
  Appends (fake_input (W:=T) event_type detail x y).
Proof.
  unfold fake_input. solve_appends.
Qed.
#[export] Instance best_effort_appends event_type detail :
  Appends (best_effort_release (W:=T) event_type detail).
Proof.
  unfold best_effort_release.
  assert (Appends (x11 (E:=XError) (xtest_fake_input_ignored (W:=T) event_type detail))) 
    by (by apply recorded_raw_appends).
  assert (Appends (x11 (E:=XError) (sync (W:=T)))) by (by apply recorded_raw_appends).
  solve_appends.
Qed.
#[export] Instance accepts_appends : Appends (accepts (W:=T) permit).
Proof.
  intros [o [w l]]. unfold accepts, x11, zoom, seat_accepts. cbn. destruct (load_gate w).
  eexists. split; [reflexivity|by constructor].
Qed.
#[export] Instance release_keys_appends ks : Appends (release_keys (W:=T) ks).
Proof. unfold release_keys. solve_appends. Qed.
#[export] Instance press_modifiers_appends down ms : Appends (press_modifiers (W:=T) down ms).
Proof. revert down. induction ms; intros; cbn [press_modifiers]; solve_appends. Qed.
#[export] Instance release_modifiers_appends ms : Appends (release_modifiers (W:=T) ms).
Proof. induction ms; cbn [release_modifiers]; solve_appends. Qed.
#[export] Instance under_grab_appends {A} (action : M St Failure A) :
  Appends action → Appends (under_server_grab action).
Proof.
  intros. unfold under_server_grab. solve_appends.
Qed.
#[export] Instance type_character_appends request character position :
  Appends (type_character (W:=T) request permit character position).
Proof. unfold type_character, if_accepted, type_key. solve_appends. Qed.

Lemma type_character_success request character position s :
  wp (type_character request permit character position)
    (λ sent s', ∃ word stroke, sent = SeatGate_accepts word permit ∧
       snd (snd s') = snd (snd s) ++ [Sent_Grab true; Sent_Seat word]
                        ++ if_word word (typed stroke) ++ [Sent_Ungrab]) anything s.
Proof.
  wp_call (under_grab_success _ (λ sent l, ∃ word stroke, sent = SeatGate_accepts word permit ∧
      l = [Sent_Seat word] ++ if_word word (typed stroke))).
  - intros s1 _ Hs1. wp_step. wp_call (preserves_wp sent); [apply _| |done]. intros t s2 Hs2.
    unfold if_accepted, if_word. wp_step. wp_call (accepts_post permit s2 (λ _ _, False)); [|done].
    intros enabled s3 (word & -> & _ & Hs3).
    destruct (SeatGate_accepts word permit) eqn:Hw; cbn [negb].
    + wp_step. wp_step. wp_call (preserves_wp sent); [apply _| |done]. intros stroke s4 Hs4.
      wp_call type_key_emits; [|done]. intros [] s5 Hs5. wp_step. eexists. split.
      * cbn in Hs2, Hs4. by rewrite Hs5, Hs4, Hs3, Hs2, <- !(assoc_L (++)).
      * exists word, stroke. by rewrite Hw.
    + wp_step. eexists. split; [cbn in Hs2; by rewrite Hs3, Hs2|].
      exists word, {| stroke_keycode := 0; stroke_modifiers := [] |}. by rewrite Hw.
  - intros sent s1 (l & Hs1 & word & stroke & -> & ->). exists word, stroke. split; [done|].
    by rewrite Hs1, <- !(assoc_L (++)).
  - done.
Qed.

Lemma type_characters_success request cs base l0 c0 s :
  snd (snd s) = base ++ l0 → characters_typed permit l0 c0 →
  wp (type_characters request permit c0 cs)
    (λ completed s', ∃ l tail, snd (snd s') = base ++ l ++ tail ∧ characters_typed permit l completed ∧
       completed ≤ c0 + len cs ∧ (completed = c0 + len cs → tail = [])) anything s.
Proof.
  revert c0 l0 s. induction cs as [|c cs IH]; intros c0 l0 s Hs Hl; cbn [type_characters].
  { wp_step. exists l0, []. rewrite app_nil_r. unfold len. cbn. split_and!; [done..|lia|done]. }
  cbv zeta. wp_step. apply wp_lift; [|done]. intros position Hpos. do 2 wp_step.
  pose proof (len_nonneg cs). rewrite len_cons.
  wp_call wp_appends; [apply _|apply type_character_success|..].
  - intros sent s1 [(word & stroke & -> & Hs1) _]. destruct (SeatGate_accepts word permit) eqn:Hw.
    + rewrite Hpos. wp_step. apply wp_lift; [|done]. intros next Hnext.
      assert (next = c0 + 1) as ->.
      { unfold checked_u16 in Hnext, Hpos. destruct (checked_in _ _ _) as [v|] eqn:Hc; [|done].
        apply checked_in_Some in Hc as [-> _]. cbn in *. congruence. }
      wp_step. wp_call (accepts_post permit s1 (λ _ _, False)); [|done].
      intros enabled s2 (after & -> & _ & Hs2).
      pose proof (characters_more permit l0 c0 word stroke after Hl Hw) as Hl1.
      set (l1 := l0 ++ _) in Hl1.
      assert (snd (snd s2) = base ++ l1) as Hs2'.
      { rewrite Hs2, Hs1, Hs. unfold l1, if_word. rewrite Hw, <- !(assoc_L (++)). done. }
      wp_step.
      * wp_step. exists l1, []. rewrite app_nil_r. split_and!; [done..|lia|done].
      * wp_call IH; [exact Hs2'|exact Hl1| |done].
        intros completed s3 (l & tail & ? & ? & ? & Ht). exists l, tail.
        split_and!; [done..|lia|]. intros. apply Ht. lia.
    + wp_step. exists l0. eexists. split_and!; [by rewrite Hs1, Hs, <- (assoc_L (++))|done|lia|lia].
  - intros e s1 [_ (l' & Hl' & _)]. wp_step; [done|]. wp_step. exists l0. eexists.
    split_and!; [by rewrite Hl', Hs, <- (assoc_L (++))|done|lia|lia].
Qed.

(** The text is checked in a first grab; then whole characters were typed, as many as the
    reply says; when these are all of them the seat word is read a last time. *)
Definition text_report (text : str) (record : list Sent) (reply : InputReply) : Prop :=
  ∃ l tail,
    record = [Sent_Grab true; Sent_Ungrab] ++ l ++ tail ∧
    characters_typed permit l (InputReply_completed reply) ∧
    InputReply_requested reply = len (chars text) ∧
    InputReply_completed reply ≤ InputReply_requested reply ∧
    if InputReply_completed reply =? InputReply_requested reply
    then ∃ word, tail = [Sent_Seat word] ∧
           InputReply_terminal reply = (if SeatGate_accepts word permit then InputTerminal_Queued
                                        else InputTerminal_Interrupted)
    else InputReply_terminal reply = InputTerminal_Interrupted.

Lemma keyboard_text_success request text o w :
  wp (keyboard_text request text permit)
    (λ reply s', text_report text (snd (snd s')) reply) anything (o, (w, [])).
Proof.
  unfold keyboard_text. wp_step. apply wp_lift; [|done]. intros requested Hreq.
  assert (requested = len (chars text)) as ->.
  { unfold checked_u16 in Hreq. destruct (checked_in _ _ _) as [v|] eqn:Hc; [|done].
    apply checked_in_Some in Hc as [-> _]. cbn in *. congruence. }
  wp_step. wp_call (under_grab_success _ (λ _ l, l = [])); [| |done].
  { intros s1 _ _. eapply wp_mono with (Q := λ _ s2, snd (snd s2) = snd (snd s1)) (R := λ _ s2, snd (snd s2) = snd (snd s1)).
    - apply (preserves_wp sent). apply _.
    - intros [] s2 Hs2. exists []. by rewrite app_nil_r.
    - done. }
  intros [] s1 (l & Hs1 & ->). cbn in Hs1. wp_step.
  wp_call (type_characters_success request (chars text) [Sent_Grab true; Sent_Ungrab] [] 0);
    [by rewrite app_nil_r|constructor| |done].
  intros completed s2 (l & tail & Hs2 & Hl & Hle & Htail). wp_step. wp_step.
  - apply Z.eqb_eq in Heqb. wp_call (accepts_post permit s2 (λ _ _, False)); [|done].
    intros enabled s3 (word & -> & _ & Hs3). wp_step. exists l, [Sent_Seat word].
    rewrite (Htail ltac:(lia)), app_nil_r in Hs2. cbn.
    replace (completed =? len (chars text)) with true by lia.
    split_and!; [by rewrite Hs3, Hs2, <- (assoc_L (++))|done|done|lia|by exists word].
  - wp_step. wp_step. exists l, tail. cbn. rewrite Heqb. split_and!; [done..|lia|done].
Qed.

(** *** Single actions *)

(** The place a pointer operation names, as it was found under the grab. *)
Definition destination (o : Observer) (target : TargetRequest) (x y root_x root_y : Z) : Prop :=
  ∃ (t : T) xid s', snd t = [Sent_Grab true] ∧
    pointer_destination target x y (o, t) = (Ok (xid, root_x, root_y), s').

(** What the call asks to be injected, in view of the desktop as it was under the grab. *)
Definition action_events (o : Observer) (call : InputCall) (events : list Sent) : Prop :=
  match call with
  | InputCall_PointerMove r =>
      ∃ root_x root_y,
        destination o (PointerMoveRequest_target r) (PointerMoveRequest_x r)
          (PointerMoveRequest_y r) root_x root_y ∧
        events = moved root_x root_y
  | InputCall_PointerClick r =>
      ∃ root_x root_y,
        destination o (PointerClickRequest_target r) (PointerClickRequest_x r)
          (PointerClickRequest_y r) root_x root_y ∧
        events = clicked (PointerClickRequest_button r) root_x root_y
  | InputCall_KeyboardKey r =>
      ∃ (t : T) owner (o1 : Observer) (t1 t2 : T) stroke, snd t = [Sent_Grab true] ∧
        focused_target (KeyboardKeyRequest_target r) (o, t) = (Ok owner, (o1, t1)) ∧
        resolve_key (KeyboardKeyRequest_key r) (as_slice (KeyboardKeyRequest_modifiers r)) t1
        = (Ok stroke, t2) ∧
        events = typed stroke
  | InputCall_KeyboardType _ | InputCall_KeyboardWrite _ => False
  end.

Definition reports (o : Observer) (call : InputCall) (record : list Sent) (reply : InputReply)
  : Prop :=
  match call with
  | InputCall_KeyboardType r => text_report (as_str (KeyboardTypeRequest_text r)) record reply
  | InputCall_KeyboardWrite r => text_report (as_str (KeyboardWriteRequest_text r)) record reply
  | _ => ∃ events, action_events o call events ∧ action_record events record reply
  end.

(** A quiet computation, remembered. *)
Lemma wp_remember {A} (m : M St Failure A) s :
  Preserves sent m →
  wp m (λ a s', m s = (Ok a, s') ∧ snd (snd s') = snd (snd s)) anything s.
Proof. intros Hm. unfold wp. pose proof (Hm s). by destruct (m s) as [[a|e] s'] eqn:Hrun. Qed.

Lemma pointer_success (body : Z → Z → M St Failure unit) (events : Z → Z → list Sent)
    target x y o w :
  (∀ root_x root_y, emits (body root_x root_y) (events root_x root_y)) →
  wp (let! sent := under_server_grab (
        let! '(_, root_x, root_y) := pointer_destination target x y in
        if_accepted permit (body root_x root_y)) in
      reply_for permit sent)
    (λ reply s', ∃ evs, (∃ root_x root_y, destination o target x y root_x root_y ∧
                           evs = events root_x root_y) ∧
                        action_record evs (snd (snd s')) reply) anything (o, (w, [])).
Proof.
  intros Hbody. apply action_success. intros [o1 t1] Ho Hs1. cbn in Ho, Hs1. subst o1.
  wp_step. wp_call wp_remember; [apply _| |done]. intros [[xid root_x] root_y] s2 [Hd Hs2].
  cbn in Hs2. wp_call (if_accepted_success _ _ _ (Hbody root_x root_y)); [|done].
  intros sent s3 (word & -> & Hs3). exists word, (events root_x root_y).
  split_and!; [|done|by rewrite Hs3, Hs2]. exists root_x, root_y. split; [|done]. by exists t1, xid, s2.
Qed.

Lemma perform_success call o w :
  wp (perform permit call) (λ reply s', reports o call (snd (snd s')) reply) anything (o, (w, [])).
Proof.
  destruct call as [r|r|r|r|r]; cbn [perform reports].
  - apply (pointer_success (λ x y, fake_input MOTION_NOTIFY_EVENT 0 x y) moved).
    intros. apply fake_input_emits.
  - apply (pointer_success (λ x y, fake_input MOTION_NOTIFY_EVENT 0 x y ;!
      click_button (PointerClickRequest_button r) x y) (clicked (PointerClickRequest_button r))).
    intros. apply emits_bind; [apply fake_input_emits|intros []; apply click_button_emits].
  - apply keyboard_text_success.
  - apply keyboard_text_success.
  - apply action_success. intros [o1 t1] Ho Hs1. cbn in Ho, Hs1. subst o1.
    wp_step. wp_call wp_remember; [apply _| |done]. intros owner [o2 t2] [Ht Hs2].
    wp_step. unfold x11. wp_step.
    pose proof (preserves (Preserves:=resolve_key_record (KeyboardKeyRequest_key r)
                             (as_slice (KeyboardKeyRequest_modifiers r))) t2) as Hs3.
    unfold wp at 1. cbn [snd].
    destruct (resolve_key _ _ t2) as [[stroke|e] t3] eqn:Hk; [|done].
    wp_call (if_accepted_success _ _ _ (type_key_emits stroke)); [|done].
    intros sent s4 (word & -> & Hs4). exists word, (typed stroke). split_and!; [|done|].
    + exists t1, owner, o2, t2, t3, stroke. by split_and!.
    + cbn in Hs2, Hs3, Hs4. cbn. by rewrite Hs4, Hs3, Hs2.
Qed.

Lemma characters_typed_nonneg record n : characters_typed permit record n → 0 ≤ n.
Proof. induction 1; lia. Qed.

(** The text of a call; every other call makes one action. *)
Definition call_actions (call : InputCall) : Z :=
  match call with
  | InputCall_KeyboardType r => len (chars (as_str (KeyboardTypeRequest_text r)))
  | InputCall_KeyboardWrite r => len (chars (as_str (KeyboardWriteRequest_text r)))
  | _ => 1
  end.

Lemma reports_valid o call record reply :
  reports o call record reply → 0 < call_actions call → InputReply_validate reply = Ok tt.
Proof.
  assert (∀ text, text_report text record reply → 0 < len (chars text) →
            InputReply_validate reply = Ok tt) as Htext.
  { intros text (l & tail & _ & Hl & Hr & Hle & Hterm) Hpos.
    pose proof (characters_typed_nonneg _ _ Hl). unfold InputReply_validate.
    replace (InputReply_requested reply =? 0) with false by lia.
    replace (InputReply_requested reply <? InputReply_completed reply) with false by lia.
    destruct (InputReply_completed reply =? InputReply_requested reply); cbn; [|by rewrite Hterm].
    by destruct (InputReply_terminal reply). }
  assert (∀ events, action_record events record reply → InputReply_validate reply = Ok tt) as Hact.
  { intros events (word & after & _ & ->).
    by destruct (SeatGate_accepts word permit), (SeatGate_accepts after permit). }
  destruct call; cbn [reports call_actions]; intros Hrep Hpos.
  3, 4: by eapply Htext.
  all: destruct Hrep as (events & _ & Ha); by eapply Hact.
Qed.

(** the reply of an input operation is what the record shows.  When an operation
    succeeds, a single action was injected completely, at the place or with the key stroke
    determined under the same grab, exactly when the seat word read there was accepted,
    and its reply counts one then and zero otherwise; of a text the reply counts exactly
    the leading characters whose whole stroke was injected, each in its own grab under an
    accepted word.  It says [Queued] only when everything was injected and the last word
    read, after the last grab, was still accepted, and it passes the protocol's
    validation. *)
Theorem input_reply_exact call o w reply s' :
  perform permit call (o, (w, [])) = (Ok reply, s') →
  reports o call (snd (snd s')) reply ∧
  (0 < call_actions call → InputReply_validate reply = Ok tt).
Proof.
  intros Hrun. pose proof (wp_run _ _ _ _ _ _ (perform_success call o w) Hrun) as Hr.
  split; [exact Hr|]. by apply reports_valid with (o := o) (record := snd (snd s')).
Qed.
End success.

(** ** Who owns the focus and the point

    Under the grab no other client's requests are processed, so the server's replies stand
    still.  [screen] is what they say; the checks are compared with its geometry. *)

Record Screen := {
  screen_focus : Z;
  screen_tree : Z → Z * list Z;
  screen_attributes : Z → WindowAttributes;
  screen_geometry : Z → Geometry;
  screen_translate : Z → Z → Z → Z → Z * Z;
  screen_shape : Z → list Rectangle
}.

Section ownership.
Context {W : Type} `{XServer W, XInput W, SharedSeat W}.
Context (screen : Screen) (still : W → Prop).

Notation St := (Observer * W)%type.

(** A request whose reply is [a], leaving the screen as it is. *)
Definition answers {A} (m : M W XError A) (a : A) : Prop :=
  ∀ w, still w → ∃ w', m w = (Ok a, w') ∧ still w'.

(** Documented behaviour of the X protocol between GrabServer and UngrabServer: replies
    depend on the screen only. *)
Record stands_still : Prop := {
  still_focus : answers get_input_focus (screen_focus screen);
  still_tree window : answers (query_tree window) (screen_tree screen window);
  still_attributes window :
    answers (get_window_attributes window) (screen_attributes screen window);
  still_geometry window : answers (get_geometry window) (screen_geometry screen window);
  still_translate source destination x y :
    answers (translate_coordinates source destination x y)
      (screen_translate screen source destination x y);
  still_shape window : answers (shape_get_rectangles window) (screen_shape screen window)
}.

(** [ancestor] is [window] or above it, [n] steps up, and every window on the way is
    below a child of the root. *)
Inductive inside (root ancestor : Z) : nat → Z → Prop :=
| inside_self : inside root ancestor 0 ancestor
| inside_parent n window :
    fst (screen_tree screen window) ≠ NONE → fst (screen_tree screen window) ≠ root →
    inside root ancestor n (fst (screen_tree screen window)) →
    inside root ancestor (S n) window.

Definition inside_bound (root ancestor window : Z) : Prop :=
  ∃ n, (n < MAX_WINDOW_ANCESTORS)%nat ∧ inside root ancestor n window.

Definition owns_focus (root target : Z) : Prop :=
  screen_focus screen ≠ NONE ∧ screen_focus screen ≠ POINTER_ROOT_FOCUS ∧
  inside_bound root target (screen_focus screen).

(** Input at the point of the root window reaches this child of the root. *)
Definition takes_point (root x y child : Z) : Prop :=
  attributes_map_state (screen_attributes screen child) = VIEWABLE ∧
  ∃ rectangle, rectangle ∈ screen_shape screen child ∧
    let '(cx, cy) := screen_translate screen root child x y in
    rectangle_x rectangle ≤ cx < rectangle_x rectangle + rectangle_width rectangle ∧
    rectangle_y rectangle ≤ cy < rectangle_y rectangle + rectangle_height rectangle.

(** The topmost child that takes the point is the target or a frame around it. *)
Definition owns_point (root target x y : Z) : Prop :=
  ∃ lower child upper,
    snd (screen_tree screen root) = lower ++ child :: upper ∧
    takes_point root x y child ∧ Forall (λ c, ¬ takes_point root x y c) upper ∧
    inside_bound root child target.

(** The hit test's bounds on what the server lists. *)
Definition testable (root : Z) : Prop :=
  len (snd (screen_tree screen root)) ≤ MAX_HIT_TEST_CHILDREN ∧
  Forall (λ c, len (screen_shape screen c) ≤ MAX_HIT_TEST_RECTANGLES ∧ c ≠ root ∧ c ≠ NONE)
    (snd (screen_tree screen root)).

Context (Hstill : stands_still).

Notation same s := (λ s' : St, fst s' = fst s ∧ still (snd s')).

Lemma answers_post {A} (m : M W XError A) a request reply (s : St) :
  answers m a → still (snd s) →
  wp (or_unavailable request reply m) (λ b s', b = a ∧ fst s' = fst s ∧ still (snd s'))
    (λ _ _, False) s.
Proof.
  intros Hm Hs. destruct s as [o w]. destruct (Hm w Hs) as (w' & Hrun & Hw').
  unfold or_unavailable, x11, zoom, map_error, wp. cbn. by rewrite Hrun.
Qed.

Lemma focus_ancestry_exact n target window (s : St) :
  still (snd s) →
  wp (focus_ancestry n target window)
    (λ _ s', (∃ k, (k < n)%nat ∧ inside (root (fst s)) target k window) ∧
             fst s' = fst s ∧ still (snd s'))
    (λ _ s', ¬ ∃ k, (k < n)%nat ∧ inside (root (fst s)) target k window) s.
Proof.
  revert window s. induction n as [|n IH]; intros window s Hs; cbn [focus_ancestry].
  { wp_step. intros (k & ? & _). lia. }
  destruct (Z.eqb_spec window target) as [->|Hne].
  { wp_step. split; [|done]. exists O. split; [lia|constructor]. }
  wp_step. wp_call (answers_post _ (screen_tree screen window)); [apply still_tree, Hstill|done| |by intros].
  intros tree s1 (-> & Ho1 & Hs1). destruct (screen_tree screen window) as [parent children] eqn:Ht.
  wp_step. unfold get. wp_step. rewrite Ho1.
  destruct ((parent =? NONE) || (parent =? root (fst s))) eqn:Hp.
  { wp_step. intros (k & _ & Hk). inversion Hk; subst; [done|].
    rewrite Ht in *. cbn in *. apply orb_true_iff in Hp as [?%Z.eqb_eq|?%Z.eqb_eq]; by subst. }
  apply orb_false_iff in Hp as [?%Z.eqb_neq ?%Z.eqb_neq]. wp_call IH; [done| |].
  - intros [] s2 ((k & ? & Hk) & Ho2 & Hs2). rewrite Ho1 in Hk. split; [|by rewrite Ho2].
    exists (S k). split; [lia|]. by constructor; rewrite Ht.
  - intros e s2 Hno (k & ? & Hk). apply Hno. rewrite Ho1. inversion Hk as [|k' ? ? ? Hk']; subst; [done|].
    exists k'. split; [lia|]. by rewrite Ht in Hk'.
Qed.

Lemma require_focus_exact target (s : St) :
  still (snd s) →
  wp (require_focus_owned_by target)
    (λ _ s', owns_focus (root (fst s)) target ∧ fst s' = fst s ∧ still (snd s'))
    (λ _ _, ¬ owns_focus (root (fst s)) target) s.
Proof.
  intros Hs. unfold require_focus_owned_by, owns_focus. wp_step.
  wp_call answers_post; [apply still_focus, Hstill|done| |by intros].
  intros focus s1 (-> & Ho1 & Hs1). wp_step.
  { wp_step. intros (? & ? & _). apply orb_true_iff in Heqb as [?%Z.eqb_eq|?%Z.eqb_eq]; by subst. }
  apply orb_false_iff in Heqb as [?%Z.eqb_neq ?%Z.eqb_neq].
  wp_call focus_ancestry_exact; [done|..]; rewrite Ho1.
  - intros [] s2 (? & Ho2 & ?). split_and!; [done..|by rewrite Ho2|done].
  - intros e s2 Hno (_ & _ & ?). by apply Hno.
Qed.

Lemma frame_ancestry_exact n candidate window (s : St) :
  candidate ≠ root (fst s) → candidate ≠ NONE → still (snd s) →
  wp (frame_ancestry n candidate window)
    (λ owned s', (owned = true ↔ ∃ k, (k < n)%nat ∧ inside (root (fst s)) candidate k window) ∧
             fst s' = fst s ∧ still (snd s'))
    (λ _ s', ¬ ∃ k, (k < n)%nat ∧ inside (root (fst s)) candidate k window) s.
Proof.
  intros Hroot Hnone. revert window s Hroot.
  induction n as [|n IH]; intros window s Hroot Hs; cbn [frame_ancestry].
  { wp_step. intros (k & ? & _). lia. }
  destruct (Z.eqb_spec window candidate) as [->|Hne].
  { wp_step. split; [|done]. split; [intros _|done]. exists O. split; [lia|constructor]. }
  wp_step. wp_call (answers_post _ (screen_tree screen window)); [apply still_tree, Hstill|done| |by intros].
  intros tree s1 (-> & Ho1 & Hs1). destruct (screen_tree screen window) as [parent children] eqn:Ht.
  wp_step. unfold get. wp_step. rewrite Ho1.
  destruct ((parent =? NONE) || (parent =? root (fst s))) eqn:Hp.
  { wp_step. apply orb_true_iff in Hp as Hp'. split; [|by rewrite Ho1].
    replace (parent =? candidate) with false
      by (symmetry; apply Z.eqb_neq; destruct Hp' as [?%Z.eqb_eq|?%Z.eqb_eq]; congruence).
    split; [done|]. intros (k & _ & Hk). inversion Hk; subst; [done|].
    rewrite Ht in *. cbn in *. destruct Hp' as [?%Z.eqb_eq|?%Z.eqb_eq]; by subst. }
  apply orb_false_iff in Hp as [?%Z.eqb_neq ?%Z.eqb_neq].
  assert ((∃ k, (k < n)%nat ∧ inside (root (fst s)) candidate k parent) ↔
          (∃ k, (k < S n)%nat ∧ inside (root (fst s)) candidate k window)) as Hiff.
  { split; intros (k & ? & Hk).
    - exists (S k). split; [lia|]. by constructor; rewrite Ht.
    - inversion Hk as [|k' ? ? ? Hk']; subst; [done|]. exists k'. split; [lia|].
      by rewrite Ht in Hk'. }
  wp_call IH; [by rewrite Ho1|done|..]; rewrite Ho1.
  - intros owned s2 (Howned & Ho2 & Hs2). split; [by rewrite <- Hiff|by rewrite Ho2].
  - intros e s2 Hno. by rewrite <- Hiff.
Qed.

Lemma takes_point_test root x y child :
  attributes_map_state (screen_attributes screen child) = VIEWABLE →
  existsb (λ rectangle, rectangle_contains rectangle
             (fst (screen_translate screen root child x y))
             (snd (screen_translate screen root child x y))) (screen_shape screen child) = true
  ↔ takes_point root x y child.
Proof.
  intros Hv. unfold takes_point. destruct (screen_translate screen root child x y) as [cx cy].
  rewrite existsb_exists. cbn [fst snd]. unfold rectangle_contains. cbv zeta.
  split.
  - intros (r & Hin & Hr). split; [done|]. exists r. split; [by apply list_elem_of_In|]. lia.
  - intros (_ & r & Hin & Hr). exists r. split; [by apply list_elem_of_In|]. lia.
Qed.

Lemma hit_test_exact children x y (s : St) :
  Forall (λ c, len (screen_shape screen c) ≤ MAX_HIT_TEST_RECTANGLES) children →
  still (snd s) →
  wp (hit_test children x y)
    (λ found s', fst s' = fst s ∧ still (snd s') ∧
       match found with
       | Some child => ∃ upper lower, children = upper ++ child :: lower ∧
           takes_point (root (fst s)) x y child ∧
           Forall (λ c, ¬ takes_point (root (fst s)) x y c) upper
       | None => Forall (λ c, ¬ takes_point (root (fst s)) x y c) children
       end)
    (λ _ _, False) s.
Proof.
  intros Hb. revert s. induction Hb as [|c cs Hc Hcs IH]; intros s Hs; cbn [hit_test].
  { by wp_step. }
  assert (∀ s1 : St, fst s1 = fst s → still (snd s1) → ¬ takes_point (root (fst s)) x y c →
    wp (hit_test cs x y)
    (λ found s', fst s' = fst s ∧ still (snd s') ∧
       match found with
       | Some child => ∃ upper lower, c :: cs = upper ++ child :: lower ∧
           takes_point (root (fst s)) x y child ∧
           Forall (λ c, ¬ takes_point (root (fst s)) x y c) upper
       | None => Forall (λ c, ¬ takes_point (root (fst s)) x y c) (c :: cs)
       end) (λ _ _, False) s1) as Hnext.
  { intros s1 Ho1 Hs1 Hno. wp_call IH; [done| |done]. rewrite Ho1.
    intros found s2 (Ho2 & Hs2 & Hf). split_and!; [done..|]. destruct found as [child|]; [|by constructor].
    destruct Hf as (upper & lower & -> & ? & ?). exists (c :: upper), lower.
    split_and!; [done..|by constructor]. }
  wp_step. wp_call answers_post; [apply still_attributes, Hstill|done| |by intros].
  intros attributes s1 (-> & Ho1 & Hs1).
  destruct (Z.eqb_spec (attributes_map_state (screen_attributes screen c)) VIEWABLE) as [Hv|Hv];
    cbn [negb]; [|by apply Hnext; [..|intros [? _]]].
  wp_step. unfold get. wp_step. wp_step.
  wp_call answers_post; [apply still_translate, Hstill|done| |by intros].
  intros [cx cy] s2 (Ht & Ho2 & Hs2). wp_step.
  wp_call answers_post; [apply still_shape, Hstill|done| |by intros].
  intros rectangles s3 (-> & Ho3 & Hs3).
  replace (MAX_HIT_TEST_RECTANGLES <? _) with false by lia.
  pose proof (takes_point_test (root (fst s)) x y c Hv) as Htake. rewrite Ho1 in Ht.
  rewrite <- Ht in Htake. cbn [fst snd] in Htake.
  destruct (existsb _ _) eqn:He.
  - wp_step. split_and!; [by rewrite Ho3, Ho2|done|]. exists [], cs. by split_and!; [|apply Htake|].
  - apply Hnext; [by rewrite Ho3, Ho2|done|]. intros Hp%Htake. done.
Qed.

Lemma takes_point_unique root x y l1 c1 u1 l2 c2 u2 :
  l1 ++ c1 :: u1 = l2 ++ c2 :: u2 →
  takes_point root x y c1 → Forall (λ c, ¬ takes_point root x y c) u1 →
  takes_point root x y c2 → Forall (λ c, ¬ takes_point root x y c) u2 → c1 = c2.
Proof.
  intros Heq Ht1 Hu1 Ht2 Hu2. rewrite Forall_forall in Hu1, Hu2.
  apply app_eq_inv in Heq as [(k & -> & Hk)|(k & -> & Hk)]; destruct k as [|z k]; cbn in Hk;
    injection Hk as; subst; try done.
  all: exfalso; first [apply (Hu2 c1); [set_solver|done] | eapply Hu1; [|exact Ht2]; set_solver].
Qed.

Lemma require_point_exact target x y (s : St) :
  testable (root (fst s)) → still (snd s) →
  wp (require_point_owned_by target x y)
    (λ _ s', owns_point (root (fst s)) target x y ∧ fst s' = fst s ∧ still (snd s'))
    (λ _ _, ¬ owns_point (root (fst s)) target x y) s.
Proof.
  intros [Hlen Hall] Hs. unfold require_point_owned_by. wp_step. unfold get. wp_step.
  wp_step. wp_call (answers_post _ (screen_tree screen (root (fst s)))); [apply still_tree, Hstill|done| |by intros].
  intros tree s1 (-> & Ho1 & Hs1). destruct (screen_tree screen (root (fst s))) as [parent children] eqn:Ht.
  cbn [snd] in Hlen, Hall. replace (MAX_HIT_TEST_CHILDREN <? len children) with false by lia.
  wp_step. wp_call hit_test_exact; [|done| |done].
  { apply Forall_reverse. eapply Forall_impl; [exact Hall|]. by intros ? [? _]. }
  rewrite Ho1. intros [child|] s2 (Ho2 & Hs2 & Hf).
  - destruct Hf as (upper & lower & Hrev & Htake & Hupper).
    assert (children = reverse lower ++ child :: reverse upper) as Hch.
    { rewrite <- (reverse_involutive children), Hrev, reverse_app, reverse_cons, <- (assoc_L (++)). done. }
    rewrite Forall_forall in Hall.
    destruct (Hall child) as (_ & Hr & Hn); [rewrite Hch; set_solver|].
    assert (owns_point (root (fst s)) target x y ↔ inside_bound (root (fst s)) child target) as Hiff.
    { unfold owns_point. rewrite Ht. cbn [snd]. split.
      - intros (l & c & u & Heq & Hc & Hu & Hin). rewrite Hch in Heq.
        by rewrite (takes_point_unique _ _ _ _ _ _ _ _ _ Heq Htake (proj2 (Forall_reverse _ _) Hupper) Hc Hu).
      - intros Hin. exists (reverse lower), child, (reverse upper).
        split_and!; [done..|by apply Forall_reverse|done]. }
    wp_step. unfold is_target_or_reparenting_frame.
    wp_call frame_ancestry_exact; [by rewrite Ho2|done|done|..]; rewrite Ho2.
    + intros owned s3 (Hown & Ho3 & Hs3). destruct owned; wp_step.
      * split_and!; [|by rewrite Ho3|done]. apply Hiff, Hown. done.
      * rewrite Hiff. intros Hin. by apply Hown in Hin.
    + intros e s3 Hno. by rewrite Hiff.
  - do 2 wp_step. wp_step. intros (l & c & u & Heq & Hc & _). rewrite Ht in Heq. cbn in Heq.
    rewrite Forall_forall in Hf. apply (Hf c); [|done]. rewrite elem_of_reverse, Heq. set_solver.
Qed.

Lemma checked_root_coordinate_exact origin offset v :
  I16_MIN ≤ origin ≤ I16_MAX → 0 ≤ offset ≤ U16_MAX →
  checked_root_coordinate origin offset = Ok v
  ↔ v = origin + offset ∧ I16_MIN ≤ origin + offset ≤ I16_MAX.
Proof.
  intros Ho Hf. unfold checked_root_coordinate, checked_i32, checked_i16.
  rewrite (checked_in_intro I32_MIN I32_MAX offset) by (int_bounds; lia).
  cbn -[checked_in]. rewrite (checked_in_intro I32_MIN I32_MAX (origin + offset)) by (int_bounds; lia).
  cbn [mbind option_bind]. destruct (checked_in I16_MIN I16_MAX (origin + offset)) as [z|] eqn:Hc; cbn.
  - apply checked_in_Some in Hc as [-> ?]. split; [by intros [= <-]; split|by intros [-> _]].
  - split; [done|]. intros [-> Hr]. by rewrite checked_in_intro in Hc.
Qed.
Lemma wp_Ok {S E A} (m : M S E A) (P : A → Prop) (N : Prop) s :
  wp m (λ a _, P a) (λ _ _, N) s → (∀ a a', P a → P a' → a = a') → (N → ∀ a, ¬ P a) →
  ∀ a, (m s).1 = Ok a ↔ P a.
Proof.
  unfold wp. destruct (m s) as [[a|e] s']; cbn; intros Hm Huniq Hno b.
  - split; [by intros [= <-]|]. intros Hb. f_equal. by apply Huniq.
  - split; [done|]. intros Hb. by destruct (Hno Hm b).
Qed.

Lemma observed_target_post request (s s1 : St) t :
  refresh s = (Ok tt, s1) → target (fst s1) request = Ok t → observed_target request s = (Ok t, s1).
Proof.
  intros Hr Ht. unfold observed_target, bind. rewrite Hr. unfold get, gets, lift. cbv [id].
  by rewrite Ht.
Qed.

(** C26: the ownership checks decide what they say.  Under a grab, on a screen within the
    hit test's bounds, a keyboard operation is allowed exactly when the window with the
    input focus is the target or inside it; and a pointer operation is given a root
    position exactly when the point lies inside the target, its root position is
    representable, and the topmost child of the root that takes input there is the target
    or a frame around it.  The position is the target's origin plus the point. *)
Theorem input_ownership_exact request x y (s s1 : St) t g ox oy :
  refresh s = (Ok tt, s1) → still (snd s1) → target (fst s1) request = Ok t →
  testable (root (fst s1)) → 0 ≤ x → 0 ≤ y →
  screen_geometry screen (Target_xid t) = g →
  geometry_width g ≤ U16_MAX → geometry_height g ≤ U16_MAX →
  screen_translate screen (Target_xid t) (root (fst s1)) 0 0 = (ox, oy) →
  I16_MIN ≤ ox ≤ I16_MAX → I16_MIN ≤ oy ≤ I16_MAX →
  (∀ a, (focused_target request s).1 = Ok a ↔ a = t ∧ owns_focus (root (fst s1)) (Target_xid t)) ∧
  (∀ d, (pointer_destination request x y s).1 = Ok d ↔
     d = (Target_xid t, ox + x, oy + y) ∧ x < geometry_width g ∧ y < geometry_height g ∧
     I16_MIN ≤ ox + x ≤ I16_MAX ∧ I16_MIN ≤ oy + y ≤ I16_MAX ∧
     owns_point (root (fst s1)) (Target_xid t) (ox + x) (oy + y)).
Proof.
  intros Hr Hs Ht Htest Hx Hy Hg Hw Hh Ho Hox Hoy.
  pose proof (observed_target_post request s s1 t Hr Ht) as Hobs. split.
  - apply wp_Ok with (N := ¬ owns_focus (root (fst s1)) (Target_xid t)).
    + unfold focused_target. wp_step. unfold wp at 1. rewrite Hobs. wp_step.
      wp_call require_focus_exact; [done|intros [] s2 [? _]; by wp_step|done].
    + by intros a a' [-> _] [-> _].
    + intros Hno a [_ ?]. done.
  - apply wp_Ok with (N := ¬ (x < geometry_width g ∧ y < geometry_height g ∧
     I16_MIN ≤ ox + x ≤ I16_MAX ∧ I16_MIN ≤ oy + y ≤ I16_MAX ∧
     owns_point (root (fst s1)) (Target_xid t) (ox + x) (oy + y))).
    + unfold pointer_destination. wp_step. unfold wp at 1. rewrite Hobs. wp_step.
      wp_call answers_post; [apply still_geometry, Hstill|done| |by intros].
      intros geometry s2 (-> & Ho2 & Hs2). rewrite Hg.
      destruct ((geometry_width g <=? x) || (geometry_height g <=? y)) eqn:Hin.
      { wp_step. apply orb_true_iff in Hin as [?|?]; lia. }
      apply orb_false_iff in Hin as [? ?]. wp_step. unfold get. wp_step. rewrite Ho2. wp_step.
      wp_call answers_post; [apply still_translate, Hstill|done| |by intros].
      rewrite Ho. intros [a b] s3 ([= -> ->] & Ho3 & Hs3). wp_step.
      apply wp_lift.
      2: { intros e He (_ & _ & Hb & _).
           rewrite (proj2 (checked_root_coordinate_exact ox x (ox + x) Hox ltac:(lia))) in He; done. }
      intros rx [-> Hrx]%checked_root_coordinate_exact; [|lia..]. wp_step. apply wp_lift.
      2: { intros e He (_ & _ & _ & Hb & _).
           rewrite (proj2 (checked_root_coordinate_exact oy y (oy + y) Hoy ltac:(lia))) in He; done. }
      intros ry [-> Hry]%checked_root_coordinate_exact; [|lia..].
      wp_step. wp_call require_point_exact; [by rewrite Ho3, Ho2|done|..]; rewrite Ho3, Ho2.
      * intros [] s4 [? _]. wp_step. split_and!; [done|lia..|done].
      * intros e s4 Hno (_ & _ & _ & _ & ?). done.
    + by intros d d' [-> _] [-> _].
    + intros Hno d (_ & ?). by apply Hno.
Qed.
End ownership.

(** ** A concrete desktop with input

    The desktop of [ObserverRuns.Toy]: its client window is a child of the root, has the
    focus and takes input on its whole area; the seat is enabled. *)
Module InputToy.
Import ObserverRuns.Toy.

Definition screen : Screen := {|
  screen_focus := 10;
  screen_tree window := if window =? 1 then (0, [10]) else (1, []);
  screen_attributes window := {| attributes_map_state := VIEWABLE; attributes_visual := 0 |};
  screen_geometry window := {| geometry_width := 100; geometry_height := 80; geometry_depth := 24 |};
  screen_translate source destination x y := (5 + x, 6 + y);
  screen_shape window :=
    [ {| rectangle_x := 0; rectangle_y := 0; rectangle_width := 200; rectangle_height := 200 |} ]
|}.

#[export] Instance input : XInput World := {
  get_input_focus := ret (screen_focus screen);
  query_tree window := ret (screen_tree screen window);
  shape_get_rectangles window := ret (screen_shape screen window);
  xtest_fake_input type detail x y := ret tt;
  xtest_fake_input_ignored type detail := ret tt;
  sync := ret tt;
  xkb_use_extension major minor := ret true;
  xkb_get_state device := fail XError_Connection;
  xkb_get_map device := fail XError_Connection
}.

#[export] Instance seat : SharedSeat World := { load_gate w := (1, w) }.

Definition toy_target : TargetRequest :=
  {| TargetRequest_client := 1; TargetRequest_generation := 0 |}.

Definition move_call : InputCall :=
  InputCall_PointerMove
    {| PointerMoveRequest_target := toy_target; PointerMoveRequest_x := 7;
       PointerMoveRequest_y := 9 |}.

Lemma input_reply_exact_witness :
  ∃ reply s', perform 1 move_call (fst subscribed, (snd subscribed, [])) = (Ok reply, s') ∧
    reports 1 (fst subscribed) move_call (snd (snd s')) reply ∧
    InputReply_validate reply = Ok tt ∧
    existsb (λ e, match e with Sent_Input _ _ x y true => (x =? 12) && (y =? 15) | _ => false end)
      (snd (snd s')) = true.
Proof.
  destruct (evaluates (perform 1 move_call) (fst subscribed, (snd subscribed, [])))
    as (reply & s' & Hrun); [vm_compute; reflexivity|].
  exists reply, s'. destruct (input_reply_exact 1 move_call _ _ reply s' Hrun) as [Hr Hv].
  split; [exact Hrun|]. split; [exact Hr|]. split; [apply Hv; reflexivity|].
  assert (snd (snd (perform 1 move_call (fst subscribed, (snd subscribed, []))).2) = snd (snd s'))
    as <- by (rewrite Hrun; reflexivity).
  vm_compute. reflexivity.
Defined.

Lemma toy_stands_still : stands_still screen (λ _, True).
Proof. split; intros; intros w _; by exists w. Qed.

Lemma input_ownership_exact_witness :
  ∃ xid, (pointer_destination toy_target 7 9 subscribed).1 = Ok (xid, 12, 15) ∧
    owns_point screen 1 xid 12 15.
Proof.
  destruct (evaluates refresh subscribed) as ([] & s1 & Hr); [vm_compute; reflexivity|].
  assert (s1 = (refresh subscribed).2) as Hs1 by (rewrite Hr; reflexivity).
  assert (∃ t, target (fst s1) toy_target = Ok t ∧ Target_xid t = 10) as (t & Ht & Hx).
  { rewrite Hs1. eexists. split; vm_compute; reflexivity. }
  assert (root (fst s1) = 1) as Hroot by (rewrite Hs1; vm_compute; reflexivity).
  assert (testable screen (root (fst s1))) as Htest.
  { rewrite Hroot. split; [by compute|]. repeat constructor; by compute. }
  pose proof (proj2 (input_ownership_exact screen (λ _, True) toy_stands_still toy_target 7 9
    subscribed s1 t (screen_geometry screen (Target_xid t)) 5 6 Hr I Ht Htest
    ltac:(lia) ltac:(lia) eq_refl ltac:(by compute) ltac:(by compute) eq_refl
    ltac:(by compute) ltac:(by compute))) as Hdest.
  exists (Target_xid t).
  assert ((pointer_destination toy_target 7 9 subscribed).1 = Ok (Target_xid t, 12, 15)) as Hd
    by (rewrite Hx; vm_compute; reflexivity).
  split; [exact Hd|]. apply Hdest in Hd as (_ & _ & _ & _ & _ & Hown). by rewrite Hroot in Hown.
Defined.
End InputToy.
