(* ===== verification/CaptureTheorems.v ===== *)
(** * Properties of pixel capture

    Conversion computes the reference image; replies pass the protocol's validation; and
    pixels are read only from the redirected pixmap of the named target, under one grab,
    the pixmap being released whatever happens. *)

From stdpp Require Import sets.
From S2P Require Import Prelude Text Bounded Protocol Message MessageSpec Base64 Effects X11.
From S2P Require Import InputServer InputTheorems.
From S2P Require Import SeatGate Observer Manager ManagerTheorems Input Recorder Capture ObserverRuns.

(** ** Color masks *)

(** [mask] selects [k] adjacent bits from [s] on; the code cannot handle all 32. *)
Definition mask_of (s k mask : Z) : Prop :=
  0 ≤ s ∧ 1 ≤ k < 32 ∧ mask = (2 ^ k - 1) * 2 ^ s.
Definition contiguous (mask : Z) : Prop := ∃ s k, mask_of s k mask.

(** [v] of [0..m] on the scale [0..255], rounded to the nearest. *)
Definition scale (v m : Z) : Z := (v * 255 + m / 2) / m.

Lemma scale_nearest v m : 0 ≤ v ≤ m → 0 < m → 0 ≤ scale v m ≤ 255 ∧ 2 * Z.abs (m * scale v m - 255 * v) ≤ m.
Proof.
  intros Hv Hm. unfold scale.
  pose proof (Z.div_mod (v * 255 + m / 2) m ltac:(lia)) as Hd.
  pose proof (Z.mod_pos_bound (v * 255 + m / 2) m Hm) as Hb.
  pose proof (Z.div_mod m 2 ltac:(lia)) as Hd2. pose proof (Z.mod_pos_bound m 2 ltac:(lia)).
  set (q := (v * 255 + m / 2) / m) in *. split; [|lia]. split; [nia|].
  assert (m * q ≤ 255 * m + m / 2) by nia. nia.
Qed.

Lemma positive_trailing_zeros_spec p :
  ∃ m, Z.pos p = (2 * m + 1) * 2 ^ positive_trailing_zeros p ∧ 0 ≤ m ∧ 0 ≤ positive_trailing_zeros p.
Proof.
  induction p as [p IH|p IH|]; cbn [positive_trailing_zeros].
  - exists (Z.pos p). rewrite Z.pow_0_r. lia.
  - destruct IH as (m & Hp & Hm & Hz). exists m. split_and!; [|done|lia].
    rewrite Z.pow_add_r, Z.pow_1_r by lia. rewrite Pos2Z.inj_xO. lia.
  - exists 0. rewrite Z.pow_0_r. lia.
Qed.

Lemma odd_pow_inj m s m' s' :
  0 ≤ s → 0 ≤ s' → (2 * m + 1) * 2 ^ s = (2 * m' + 1) * 2 ^ s' → s = s' ∧ m = m'.
Proof.
  intros Hs Hs' Heq.
  assert (∀ a b c d, 0 ≤ a < b → (2 * c + 1) * 2 ^ a = (2 * d + 1) * 2 ^ b → False) as Hlt.
  { intros a b c d Hab He. replace b with (a + 1 + (b - a - 1)) in He by lia.
    rewrite !Z.pow_add_r, Z.pow_1_r in He by lia.
    assert (0 < 2 ^ a) by (apply Z.pow_pos_nonneg; lia).
    assert (2 * c + 1 = 2 * ((2 * d + 1) * 2 ^ (b - a - 1))) as Hcancel; [|lia].
    apply (Z.mul_reg_r _ _ (2 ^ a)); [lia|]. rewrite He. ring. }
  destruct (Z.lt_trichotomy s s') as [?|[->|?]]; [by destruct (Hlt s s' m m')| |by destruct (Hlt s' s m' m)].
  split; [done|]. assert (0 < 2 ^ s') by (apply Z.pow_pos_nonneg; lia).
  apply Z.mul_reg_r in Heq; lia.
Qed.

Lemma trailing_zeros_spec mask :
  0 < mask → ∃ m, mask = (2 * m + 1) * 2 ^ trailing_zeros mask ∧ 0 ≤ m ∧ 0 ≤ trailing_zeros mask.
Proof. destruct mask as [|p|p]; [lia| |lia]. intros _. apply positive_trailing_zeros_spec. Qed.

Lemma is_power_of_two_spec x : is_power_of_two x = true ↔ ∃ k, 0 ≤ k ∧ x = 2 ^ k.
Proof.
  unfold is_power_of_two. rewrite andb_true_iff, Z.ltb_lt, Z.eqb_eq. split.
  - intros [Hx Hland]. exists (Z.log2 x). split; [apply Z.log2_nonneg|].
    pose proof (Z.log2_spec x Hx) as [Hlo Hhi].
    destruct (Z.eq_dec x (2 ^ Z.log2 x)) as [|Hne]; [done|].
    assert (Z.testbit (Z.land x (x - 1)) (Z.log2 x) = true) as Hbit.
    { rewrite Z.land_spec. apply andb_true_iff. split; [by apply Z.bit_log2|].
      assert (Z.log2 (x - 1) = Z.log2 x) as <-.
      { apply Z.log2_unique; [apply Z.log2_nonneg|]. lia. }
      apply Z.bit_log2. assert (0 < 2 ^ Z.log2 x) by (apply Z.pow_pos_nonneg; [lia|apply Z.log2_nonneg]). lia. }
    by rewrite Hland, Z.bits_0 in Hbit.
  - intros (k & Hk & ->). assert (0 < 2 ^ k) by (apply Z.pow_pos_nonneg; lia). split; [done|].
    replace (2 ^ k - 1) with (Z.ones k) by (rewrite Z.ones_equiv; lia).
    rewrite Z.land_ones by done. apply Z.mod_same. lia.
Qed.

Lemma mask_of_unique s k s' k' mask : mask_of s k mask → mask_of s' k' mask → s = s' ∧ k = k'.
Proof.
  intros (Hs & Hk & ->) (Hs' & Hk' & Heq).
  assert (∀ k, 1 ≤ k → 2 ^ k - 1 = 2 * (2 ^ (k - 1) - 1) + 1) as Hodd.
  { intros j Hj. replace j with (1 + (j - 1)) at 1 by lia. rewrite Z.pow_add_r, Z.pow_1_r by lia. lia. }
  rewrite (Hodd k), (Hodd k') in Heq by lia. apply odd_pow_inj in Heq as [-> Heq]; [|done..].
  split; [done|]. assert (2 ^ (k - 1) = 2 ^ (k' - 1)) as He by lia.
  apply Z.pow_inj_r in He; lia.
Qed.

Lemma field_value pixel s k :
  0 ≤ s → 0 ≤ k →
  Z.shiftr (Z.land pixel ((2 ^ k - 1) * 2 ^ s)) s = pixel / 2 ^ s mod 2 ^ k.
Proof.
  intros Hs Hk. rewrite Z.shiftr_land, <- (Z.shiftl_mul_pow2 _ s) by done.
  rewrite Z.shiftr_shiftl_l, Z.sub_diag, Z.shiftl_0_r by lia.
  replace (2 ^ k - 1) with (Z.ones k) by (rewrite Z.ones_equiv; lia).
  by rewrite Z.land_ones, Z.shiftr_div_pow2.
Qed.

(** [component] extracts the field of the mask and scales it. *)
Lemma component_exact pixel mask c :
  is_u32 mask →
  component pixel mask = Ok c
  ↔ ∃ s k, mask_of s k mask ∧ c = scale (pixel / 2 ^ s mod 2 ^ k) (2 ^ k - 1).
Proof.
  intros Hmask. unfold component. destruct (Z.eqb_spec mask 0) as [->|Hne].
  { split; [done|]. intros (s & k & (? & ? & Heq) & _).
    assert (0 < 2 ^ s) by (apply Z.pow_pos_nonneg; lia).
    assert (2 ^ 1 ≤ 2 ^ k) by (apply Z.pow_le_mono_r; lia). nia. }
  cbv zeta. destruct (trailing_zeros_spec mask) as (m & Hm & Hm0 & Hz); [int_bounds; lia|].
  set (z := trailing_zeros mask) in *. clearbody z.
  assert (0 < 2 ^ z) as Hpz by (apply Z.pow_pos_nonneg; lia).
  assert (Z.shiftr mask z = 2 * m + 1) as Hmax.
  { rewrite Z.shiftr_div_pow2, Hm by done. apply Z.div_mul. lia. }
  rewrite Hmax.
  destruct (is_some_and is_power_of_two (checked_u32 (2 * m + 1 + 1))) eqn:Hpow; cbn [negb].
  - unfold is_some_and in Hpow. destruct (checked_u32 _) as [v|] eqn:Hv; [|done]. unfold checked_u32 in Hv.
    apply checked_in_Some in Hv as [-> Hv]. apply is_power_of_two_spec in Hpow as (k & Hk & Hpow).
    assert (1 ≤ k < 32) as Hk1.
    { split.
      - destruct (Z.eq_dec k 0) as [->|]; [|lia]. change (2 ^ 0) with 1 in Hpow. lia.
      - apply (Z.pow_lt_mono_r_iff 2); [lia..|]. int_bounds. change (2 ^ 32) with 4294967296. lia. }
    assert (mask_of z k mask) as Hof.
    { split_and!; [done|lia|lia|]. rewrite Hm at 1. f_equal. lia. }
    replace (2 * m + 1) with (2 ^ k - 1) by lia.
    assert (Z.shiftr (Z.land pixel mask) z = pixel / 2 ^ z mod 2 ^ k) as ->.
    { destruct Hof as (_ & _ & ->). apply field_value; lia. }
    fold (scale (pixel / 2 ^ z mod 2 ^ k) (2 ^ k - 1)).
    assert (2 ^ 1 ≤ 2 ^ k) by (apply Z.pow_le_mono_r; lia). change (2 ^ 1) with 2 in *.
    pose proof (Z.mod_pos_bound (pixel / 2 ^ z) (2 ^ k) ltac:(lia)).
    destruct (scale_nearest (pixel / 2 ^ z mod 2 ^ k) (2 ^ k - 1)) as [Hr _]; [lia..|].
    rewrite checked_in_intro by done. cbn. split.
    + intros [= <-]. by exists z, k.
    + intros (s & k' & Hof' & ->). by destruct (mask_of_unique _ _ _ _ _ Hof Hof') as [-> ->].
  - split; [done|]. intros (s & k & (Hs & Hk & Heq) & _). exfalso.
    assert (2 ^ k - 1 = 2 * (2 ^ (k - 1) - 1) + 1) as Hodd.
    { replace k with (1 + (k - 1)) at 1 by lia. rewrite Z.pow_add_r, Z.pow_1_r by lia. lia. }
    pose proof Heq as Heq'. rewrite Hm, Hodd in Heq'. apply odd_pow_inj in Heq' as [_ Heqm]; [|done..]. rewrite Heqm in Hpow.
    replace (2 * (2 ^ (k - 1) - 1) + 1 + 1) with (2 ^ k) in Hpow by lia.
    assert (2 ^ k ≤ 2 ^ 31) by (apply Z.pow_le_mono_r; lia). change (2 ^ 31) with 2147483648 in *.
    assert (0 < 2 ^ k) by (apply Z.pow_pos_nonneg; lia).
    unfold checked_u32 in Hpow. rewrite checked_in_intro in Hpow by (int_bounds; lia). cbn in Hpow.
    rewrite (proj2 (is_power_of_two_spec (2 ^ k))) in Hpow; [done|]. by exists k; split; [lia|].
Qed.

(** ** The reference image *)

(** [l[i .. i+n]] *)
Definition slice_of (l : bytes) (i n : Z) : bytes := take (Z.to_nat n) (drop (Z.to_nat i) l).

Lemma slice_slice l i n j m :
  0 ≤ i → 0 ≤ j → 0 ≤ m → j + m ≤ n → slice_of (slice_of l i n) j m = slice_of l (i + j) m.
Proof.
  intros. unfold slice_of. rewrite skipn_firstn_comm, take_take, drop_drop. f_equal; [lia|].
  f_equal. lia.
Qed.

Lemma slice_drop l (i n : Z) (k : nat) : 0 ≤ i → slice_of (drop k l) i n = slice_of l (Z.of_nat k + i) n.
Proof. intros. unfold slice_of. rewrite drop_drop. do 2 f_equal. lia. Qed.

Lemma slice_take l i n c : 0 ≤ i → 0 ≤ n → i + n ≤ c → slice_of (take (Z.to_nat c) l) i n = slice_of l i n.
Proof. intros. change (take (Z.to_nat c) l) with (slice_of l 0 c). rewrite slice_slice by lia. f_equal. Qed.

Lemma slice_len l i n : 0 ≤ i → 0 ≤ n → i + n ≤ len l → len (slice_of l i n) = n.
Proof. intros. unfold len, slice_of in *. rewrite length_take, length_drop. lia. Qed.

Lemma chunks_spec fuel n (k : nat) l :
  (0 < n)%nat → length l = (n * k)%nat → (length l ≤ fuel)%nat →
  chunks fuel n l = (λ i, take n (drop (n * i) l)) <$> seq 0 k.
Proof.
  intros Hn. revert k l. induction fuel as [|fuel IH]; intros k l Hl Hf.
  { destruct k; [done|]. nia. }
  cbn [chunks]. destruct k as [|k].
  { rewrite Nat.mul_0_r in Hl. rewrite Hl. by replace (0 <? n)%nat with true by (symmetry; by apply Nat.ltb_lt). }
  replace (length l <? n)%nat with false by (symmetry; apply Nat.ltb_ge; nia).
  cbn [seq fmap list_fmap]. rewrite Nat.mul_0_r, drop_0. f_equal.
  rewrite (IH k (drop n l)) by (rewrite length_drop; nia).
  rewrite <- (fmap_S_seq 0 k), <- list_fmap_compose. apply list_fmap_ext. intros ? i _. cbn.
  rewrite drop_drop. do 2 f_equal. lia.
Qed.

Lemma seqZ_seq (k : nat) : seqZ 0 (Z.of_nat k) = Z.of_nat <$> seq 0 k.
Proof. unfold seqZ. rewrite Nat2Z.id. apply list_fmap_ext. intros. lia. Qed.

Lemma chunks_exact_spec n k l :
  0 < n → 0 ≤ k → len l = n * k → chunks_exact n l = (λ i, slice_of l (i * n) n) <$> seqZ 0 k.
Proof.
  intros Hn Hk Hl. unfold chunks_exact, len in *.
  rewrite (chunks_spec _ _ (Z.to_nat k)) by lia. rewrite <- (Z2Nat.id k) at 2 by done.
  rewrite seqZ_seq, <- list_fmap_compose. apply list_fmap_ext. intros ? i _. cbn.
  unfold slice_of. do 2 f_equal. lia.
Qed.

Lemma convert_head {A} (f : A → result bytes Failure) a l rgb :
  convert f (a :: l) = Ok rgb → ∃ r, f a = Ok r.
Proof. cbn [convert]. destruct (f a) as [r|]; [by exists r|done]. Qed.

Lemma convert_fmap {A B} (f : B → result bytes Failure) (g : A → B) l :
  convert f (g <$> l) = convert (λ a, f (g a)) l.
Proof. induction l as [|a l IH]; [done|]. cbn. by rewrite IH. Qed.

Lemma convert_ext {A} (f g : A → result bytes Failure) l :
  (∀ a, a ∈ l → f a = g a) → convert f l = convert g l.
Proof.
  induction l as [|a l IH]; intros Hfg; [done|]. cbn [convert].
  rewrite (Hfg a) by (by left). rewrite IH; [done|]. intros b Hb. apply Hfg. by right.
Qed.

(** A conversion that succeeds everywhere is a flat map. *)
Lemma convert_total {A} (f : A → result bytes Failure) (g : A → bytes) l :
  (∀ a, a ∈ l → f a = Ok (g a)) → convert f l = Ok (l ≫= g).
Proof.
  induction l as [|a l IH]; intros Hf; [done|]. cbn [convert]. rewrite (Hf a) by (by left). cbn.
  rewrite IH; [done|]. intros b Hb. apply Hf. by right.
Qed.

Definition pixel_bytes_of (raw : RawCapture) : Z := RawCapture_bits_per_pixel raw / 8.
Definition stride_of (raw : RawCapture) : Z :=
  let pad := RawCapture_scanline_pad raw in
  (RawCapture_width raw * RawCapture_bits_per_pixel raw + pad - 1) / pad * pad / 8.

(** The number the bytes write, the one with the least weight first. *)
Definition weighed : bytes → Z := foldr (λ byte rest, byte + 256 * rest) 0.

(** A pixel of a server whose image byte order is 0, least significant byte first, or not. *)
Definition pixel_number (order : Z) (pixel : bytes) : Z :=
  if decide (order = 0) then weighed pixel else weighed (reverse pixel).

Definition pixel_at (raw : RawCapture) (row column : Z) : Z :=
  pixel_number (RawCapture_image_byte_order raw)
    (slice_of (RawCapture_data raw)
       (row * stride_of raw + column * pixel_bytes_of raw) (pixel_bytes_of raw)).

(** The shift and width of a mask of adjacent bits: its highest bit is known, and with its
    lowest bit added it is the power of two above. *)
Definition mask_shift (mask : Z) : Z := Z.log2 (2 ^ (Z.log2 mask + 1) - mask).
Definition mask_width (mask : Z) : Z := Z.log2 mask + 1 - mask_shift mask.

Definition color (mask pixel : Z) : Z :=
  scale (pixel / 2 ^ mask_shift mask mod 2 ^ mask_width mask) (2 ^ mask_width mask - 1).

Definition reference_pixel (visual : Visualtype) (pixel : Z) : bytes :=
  [color (red_mask visual) pixel; color (green_mask visual) pixel; color (blue_mask visual) pixel].

(** Row by row, column by column, three color components. *)
Definition reference_image (raw : RawCapture) : bytes :=
  seqZ 0 (RawCapture_height raw) ≫= λ row,
    seqZ 0 (RawCapture_width raw) ≫= λ column,
      reference_pixel (RawCapture_visual raw) (pixel_at raw row column).

(** What [read_named_pixmap] and the wire types ensure. *)
Definition raw_wf (raw : RawCapture) : Prop :=
  0 < RawCapture_width raw ≤ U16_MAX ∧ 0 < RawCapture_height raw ≤ U16_MAX ∧
  RawCapture_bits_per_pixel raw ∈ [16; 24; 32] ∧
  0 < RawCapture_scanline_pad raw < 256 ∧ RawCapture_scanline_pad raw mod 8 = 0 ∧
  is_u32 (red_mask (RawCapture_visual raw)) ∧ is_u32 (green_mask (RawCapture_visual raw)) ∧
  is_u32 (blue_mask (RawCapture_visual raw)) ∧ len (RawCapture_data raw) ≤ U64_MAX ∧
  Forall is_u8 (RawCapture_data raw).

Definition convertible (raw : RawCapture) : Prop :=
  RawCapture_depth raw ≠ 0 ∧
  contiguous (red_mask (RawCapture_visual raw)) ∧
  contiguous (green_mask (RawCapture_visual raw)) ∧
  contiguous (blue_mask (RawCapture_visual raw)) ∧
  stride_of raw * RawCapture_height raw ≤ len (RawCapture_data raw)
    ≤ stride_of raw * RawCapture_height raw + 3.

Lemma weighed_bound pixel : Forall is_u8 pixel → 0 ≤ weighed pixel < 256 ^ len pixel.
Proof.
  induction 1 as [|byte pixel Hbyte _ IH]; [by vm_compute|]. cbn [weighed foldr]. rewrite len_cons.
  pose proof (len_nonneg pixel). rewrite Z.add_comm, Z.pow_add_r by lia. fold weighed. int_bounds. lia.
Qed.

Lemma lor_above a b n : 0 ≤ n → 0 ≤ a < 2 ^ n → Z.lor a (Z.shiftl b n) = a + 2 ^ n * b.
Proof.
  intros Hn Ha. assert (Z.land a (Z.shiftl b n) = 0) as Hland.
  { apply Z.bits_inj'. intros i Hi. rewrite Z.land_spec, Z.bits_0. destruct (Z.ltb_spec i n) as [Hlt|Hge].
    - by rewrite Z.shiftl_spec_low, andb_false_r.
    - destruct (Z.eq_dec a 0) as [->|]; [by rewrite Z.bits_0|]. rewrite (Z.bits_above_log2 a i); [done|lia|].
      enough (Z.log2 a < n) by lia. apply Z.log2_lt_pow2; lia. }
  pose proof (Z.add_lor_land a (Z.shiftl b n)) as Hadd. rewrite Hland, Z.shiftl_mul_pow2 in * by done. lia.
Qed.

Lemma pixel_lsb_weighed index value pixel :
  0 ≤ index → 0 ≤ value < 256 ^ index → Forall is_u8 pixel →
  pixel_lsb index value pixel = value + 256 ^ index * weighed pixel.
Proof.
  intros Hi Hv Hu8. revert index value Hi Hv. induction Hu8 as [|byte pixel Hbyte _ IH]; intros index value Hi Hv;
    cbn [pixel_lsb weighed foldr]; [lia|].
  assert (256 ^ index = 2 ^ (index * 8)) as Hpow by (change 256 with (2 ^ 8); rewrite <- Z.pow_mul_r by lia; f_equal; lia).
  assert (0 < 256 ^ index) by (apply Z.pow_pos_nonneg; lia).
  rewrite lor_above, <- Hpow by (rewrite <- ?Hpow; lia). fold weighed.
  assert (256 ^ (index + 1) = 256 * 256 ^ index) as Hnext by (rewrite Z.pow_add_r by lia; lia).
  rewrite IH, Hnext; [ring|lia|rewrite Hnext; int_bounds; nia].
Qed.

Lemma pixel_msb_weighed pixel : Forall is_u8 pixel → pixel_msb pixel = weighed (reverse pixel).
Proof.
  unfold pixel_msb. induction pixel as [|byte pixel IH] using rev_ind; intros Hu8; [done|].
  apply Forall_app in Hu8 as [Hu8 Hbyte%Forall_inv].
  rewrite foldl_app, reverse_app. cbn. rewrite <- IH by done.
  rewrite Z.lor_comm, lor_above by (int_bounds; lia). done.
Qed.

Lemma pixel_value_number order pixel : Forall is_u8 pixel → pixel_value pixel order = pixel_number order pixel.
Proof.
  intros Hu8. unfold pixel_value, pixel_number. change LSB_FIRST with 0. destruct (Z.eqb_spec order 0), (decide (order = 0)); try done.
  - rewrite pixel_lsb_weighed by (done || lia). rewrite Z.pow_0_r. lia.
  - by apply pixel_msb_weighed.
Qed.

Lemma mask_parts s k mask : mask_of s k mask → mask_shift mask = s ∧ mask_width mask = k.
Proof.
  intros (Hs & Hk & ->).
  assert (0 < 2 ^ s) by (apply Z.pow_pos_nonneg; lia). assert (0 < 2 ^ (k - 1)) by (apply Z.pow_pos_nonneg; lia).
  assert (2 ^ k = 2 * 2 ^ (k - 1)) as Hpow.
  { replace k with (1 + (k - 1)) at 1 by lia. rewrite Z.pow_add_r, Z.pow_1_r by lia. done. }
  assert (Z.log2 ((2 ^ k - 1) * 2 ^ s) = k - 1 + s) as Hlog.
  { apply Z.log2_unique; [lia|]. rewrite Z.pow_succ_r, Z.pow_add_r by lia. nia. }
  assert (mask_shift ((2 ^ k - 1) * 2 ^ s) = s) as Hshift.
  { unfold mask_shift. rewrite Hlog. replace (k - 1 + s + 1) with (k + s) by lia. rewrite Z.pow_add_r by lia.
    replace (_ - _) with (2 ^ s) by ring. by apply Z.log2_pow2. }
  unfold mask_width. rewrite Hshift, Hlog. lia.
Qed.

Lemma color_field s k mask pixel :
  mask_of s k mask → color mask pixel = scale (pixel / 2 ^ s mod 2 ^ k) (2 ^ k - 1).
Proof. intros Hof. unfold color. by destruct (mask_parts s k mask Hof) as [-> ->]. Qed.

Lemma component_color pixel mask : is_u32 mask → contiguous mask → component pixel mask = Ok (color mask pixel).
Proof.
  intros Hm (s & k & Hof). apply component_exact; [done|]. exists s, k. split; [done|]. by apply color_field.
Qed.

Lemma color_nearest s k mask pixel :
  mask_of s k mask →
  2 * Z.abs ((2 ^ k - 1) * color mask pixel - 255 * (pixel / 2 ^ s mod 2 ^ k)) ≤ 2 ^ k - 1.
Proof.
  intros Hof. rewrite (color_field s k) by done. destruct Hof as (_ & Hk & _).
  assert (2 ^ 1 ≤ 2 ^ k) by (apply Z.pow_le_mono_r; lia). change (2 ^ 1) with 2 in *.
  pose proof (Z.mod_pos_bound (pixel / 2 ^ s) (2 ^ k) ltac:(lia)). apply scale_nearest; lia.
Qed.

Lemma stride_facts raw :
  raw_wf raw →
  let bits := RawCapture_width raw * RawCapture_bits_per_pixel raw in
  let pad := RawCapture_scanline_pad raw in
  0 < pixel_bytes_of raw ∧ RawCapture_bits_per_pixel raw = 8 * pixel_bytes_of raw ∧
  RawCapture_width raw * pixel_bytes_of raw ≤ stride_of raw ∧
  0 ≤ (bits + pad - 1) / pad * pad ≤ bits + pad ∧ stride_of raw ≤ bits + pad ∧ bits ≤ U16_MAX * 32.
Proof.
  intros (Hw & Hh & Hb & Hp & Hp8 & _). unfold stride_of, pixel_bytes_of.
  set (bits := RawCapture_width raw * RawCapture_bits_per_pixel raw).
  set (pad := RawCapture_scanline_pad raw) in *. cbv zeta.
  assert (RawCapture_bits_per_pixel raw = 8 * (RawCapture_bits_per_pixel raw / 8) ∧
          16 <= RawCapture_bits_per_pixel raw <= 32) as [Hb8 Hbr].
  { rewrite !list_elem_of_In in Hb. cbn in Hb.
    destruct Hb as [<-|[<-|[<-|[]]]]; (split; [reflexivity|lia]). }
  set (b8 := RawCapture_bits_per_pixel raw / 8) in *. clearbody b8.
  assert (0 ≤ bits ≤ U16_MAX * 32) as Hbits by (unfold bits; int_bounds; nia).
  pose proof (Z.div_mod (bits + pad - 1) pad ltac:(lia)) as Hd.
  pose proof (Z.mod_pos_bound (bits + pad - 1) pad ltac:(lia)) as Hm.
  set (ceil := (bits + pad - 1) / pad) in *.
  assert (bits ≤ ceil * pad ≤ bits + pad - 1) as Hc by lia.
  split_and!; [lia|done| |lia|lia| |lia].
  - apply Z.div_le_lower_bound; [lia|]. unfold bits in *. rewrite Hb8 in Hc. lia.
  - transitivity (ceil * pad); [|lia]. apply Z.div_le_upper_bound; lia.
Qed.

Lemma to_rgb_unfold raw :
  raw_wf raw →
  to_rgb raw =
    if RawCapture_depth raw =? 0
    then Err (Failure_unsupported "capture pixmap has no color depth")
    else if bool_decide (stride_of raw * RawCapture_height raw ≤ len (RawCapture_data raw)
                           ≤ stride_of raw * RawCapture_height raw + 3)
    then convert (λ row,
           convert (λ column,
             pixel_components (RawCapture_visual raw) (RawCapture_image_byte_order raw)
               (slice_of (RawCapture_data raw)
                  (row * stride_of raw + column * pixel_bytes_of raw) (pixel_bytes_of raw)))
             (seqZ 0 (RawCapture_width raw)))
           (seqZ 0 (RawCapture_height raw))
    else Err (Failure_unavailable "capture pixel storage has an unexpected length").
Proof.
  intros Hwf. pose proof (stride_facts raw Hwf) as (Hpb & Hb8 & Hws & Hcp & Hs & Hbits).
  destruct Hwf as (Hw & Hh & _ & Hp & Hp8 & _ & _ & _ & Hlen).
  unfold to_rgb. destruct (RawCapture_depth raw =? 0); [done|]. unfold checked_u64.
  rewrite checked_in_intro by (int_bounds; nia). cbn -[chunks_exact checked_in].
  rewrite checked_in_intro by (int_bounds; lia). cbn -[chunks_exact checked_in].
  fold (stride_of raw). fold (pixel_bytes_of raw).
  assert (0 ≤ stride_of raw * RawCapture_height raw ≤ U64_MAX) as Hreq by (int_bounds; nia).
  assert (stride_of raw * RawCapture_height raw + 3 ≤ U64_MAX) as Hreq3 by (int_bounds; nia).
  rewrite checked_in_intro by done. cbn -[chunks_exact].
  rewrite Z.min_l by done.
  destruct (bool_decide _) eqn:Hd; bool_props.
  2: { replace (_ || _) with true; [done|]. symmetry. apply orb_true_iff. lia. }
  replace (_ || _) with false by (symmetry; apply orb_false_iff; lia).
  set (data := RawCapture_data raw) in *. set (stride := stride_of raw) in *.
  set (required := stride * RawCapture_height raw) in *.
  assert (len (take (Z.to_nat required) data) = required) as Hl.
  { unfold len in *. rewrite length_take. lia. }
  rewrite (chunks_exact_spec stride (RawCapture_height raw)) by (unfold required in *; nia).
  rewrite convert_fmap. apply convert_ext. intros row Hrow%elem_of_seqZ.
  rewrite slice_take by (unfold required in *; nia).
  change (take (Z.to_nat (RawCapture_width raw * pixel_bytes_of raw)) ?l)
    with (slice_of l 0 (RawCapture_width raw * pixel_bytes_of raw)).
  rewrite slice_slice, Z.add_0_r by nia.
  rewrite (chunks_exact_spec _ (RawCapture_width raw));
    [|done|lia|rewrite slice_len; unfold required in *; nia].
  rewrite convert_fmap. apply convert_ext. intros column Hcolumn%elem_of_seqZ.
  by rewrite slice_slice by nia.
Qed.

Lemma converted raw :
  is_u32 (red_mask (RawCapture_visual raw)) → is_u32 (green_mask (RawCapture_visual raw)) →
  is_u32 (blue_mask (RawCapture_visual raw)) → Forall is_u8 (RawCapture_data raw) →
  contiguous (red_mask (RawCapture_visual raw)) → contiguous (green_mask (RawCapture_visual raw)) →
  contiguous (blue_mask (RawCapture_visual raw)) →
  convert (λ row,
    convert (λ column,
      pixel_components (RawCapture_visual raw) (RawCapture_image_byte_order raw)
        (slice_of (RawCapture_data raw)
           (row * stride_of raw + column * pixel_bytes_of raw) (pixel_bytes_of raw)))
      (seqZ 0 (RawCapture_width raw)))
    (seqZ 0 (RawCapture_height raw)) = Ok (reference_image raw).
Proof.
  intros. apply convert_total. intros row _. apply convert_total. intros column _.
  unfold pixel_components. cbv zeta. rewrite !component_color, pixel_value_number; [done| |done..].
  by apply Forall_take, Forall_drop.
Qed.

Lemma color_u8 mask pixel : is_u32 mask → is_u8 (color mask pixel).
Proof.
  intros Hm. unfold color. set (k := mask_width mask). assert (0 ≤ k) as Hk.
  { unfold k, mask_width, mask_shift. destruct (Z.eq_dec mask 0) as [->|]; [done|].
    pose proof (Z.log2_spec mask ltac:(int_bounds; lia)) as [Hlo Hhi].
    enough (Z.log2 (2 ^ (Z.log2 mask + 1) - mask) < Z.log2 mask + 1) by lia.
    apply Z.log2_lt_pow2; int_bounds; lia. }
  set (v := pixel / 2 ^ mask_shift mask). clearbody k v.
  destruct (Z.eq_dec k 0) as [->|].
  { rewrite Z.pow_0_r, Z.mod_1_r. by compute. }
  assert (2 ^ 1 ≤ 2 ^ k) by (apply Z.pow_le_mono_r; lia). change (2 ^ 1) with 2 in *.
  pose proof (Z.mod_pos_bound v (2 ^ k) ltac:(lia)).
  destruct (scale_nearest (v mod 2 ^ k) (2 ^ k - 1)) as [Hr _]; [lia..|]. int_bounds. lia.
Qed.

Lemma length_bind_const {A B} (f : A → list B) (n : nat) l :
  (∀ a, length (f a) = n) → length (l ≫= f) = (length l * n)%nat.
Proof. intros Hf. induction l as [|a l IH]; [done|]. rewrite bind_cons, length_app, Hf, IH. cbn. lia. Qed.

Lemma reference_length raw :
  0 ≤ RawCapture_width raw → 0 ≤ RawCapture_height raw →
  len (reference_image raw) = 3 * (RawCapture_width raw * RawCapture_height raw).
Proof.
  intros Hw Hh. unfold len, reference_image.
  rewrite (length_bind_const _ (Z.to_nat (RawCapture_width raw) * 3)%nat).
  - rewrite length_seqZ. nia.
  - intros row. rewrite (length_bind_const _ 3%nat) by done. by rewrite length_seqZ.
Qed.

(** C28: captured pixels are converted exactly.  On every well-formed image the conversion
    succeeds exactly when the pixmap has a depth, the three color masks are runs of
    adjacent bits, and the data has the length of the padded rows (and at most three bytes
    more); it then yields, row by row and pixel by pixel, for each color the field of the
    pixel under its mask, scaled to 0..255 and rounded to the nearest, the pixel being read
    in the byte order of the server. *)
Theorem capture_pixels_exact raw :
  raw_wf raw →
  (∀ rgb, to_rgb raw = Ok rgb ↔ convertible raw ∧ rgb = reference_image raw) ∧
  len (reference_image raw) = 3 * (RawCapture_width raw * RawCapture_height raw) ∧
  Forall is_u8 (reference_image raw) ∧
  (∀ s k mask pixel, mask_of s k mask →
     2 * Z.abs ((2 ^ k - 1) * color mask pixel - 255 * (pixel / 2 ^ s mod 2 ^ k)) ≤ 2 ^ k - 1).
Proof.
  intros Hwf. rewrite (to_rgb_unfold raw Hwf). split_and!.
  - intros rgb. destruct Hwf as (Hw & Hh & _ & _ & _ & Hr & Hg & Hb & _ & Hu8). unfold convertible.
    destruct (Z.eqb_spec (RawCapture_depth raw) 0) as [|Hdepth]; [naive_solver|].
    case_bool_decide as Hlen; [|naive_solver].
    assert (∀ pixel, pixel_components (RawCapture_visual raw) (RawCapture_image_byte_order raw) pixel
              = let value := pixel_value pixel (RawCapture_image_byte_order raw) in
                let? red := component value (red_mask (RawCapture_visual raw)) in
                let? green := component value (green_mask (RawCapture_visual raw)) in
                let? blue := component value (blue_mask (RawCapture_visual raw)) in
                Ok [red; green; blue]) as Hpc by done.
    split.
    + intros Hconv.
      assert (∃ pixel r, pixel_components (RawCapture_visual raw) (RawCapture_image_byte_order raw) pixel
                         = Ok r) as (pixel & r & Hone).
      { rewrite (seqZ_cons 0 (RawCapture_height raw)) in Hconv by lia.
        apply convert_head in Hconv as [r Hrow].
        rewrite (seqZ_cons 0 (RawCapture_width raw)) in Hrow by lia.
        apply convert_head in Hrow as [r' Hpix]. eauto. }
      assert (contiguous (red_mask (RawCapture_visual raw)) ∧
              contiguous (green_mask (RawCapture_visual raw)) ∧
              contiguous (blue_mask (RawCapture_visual raw))) as (Hcr & Hcg & Hcb).
      { rewrite Hpc in Hone. cbv zeta in Hone.
        destruct (component _ (red_mask _)) as [c1|] eqn:H1; [|done]. cbn in Hone.
        destruct (component _ (green_mask _)) as [c2|] eqn:H2; [|done]. cbn in Hone.
        destruct (component _ (blue_mask _)) as [c3|] eqn:H3; [|done].
        apply component_exact in H1 as (s1 & k1 & ? & _); [|done].
        apply component_exact in H2 as (s2 & k2 & ? & _); [|done].
        apply component_exact in H3 as (s3 & k3 & ? & _); [|done].
        split_and!; by do 2 eexists. }
      split; [done|]. rewrite (converted raw) in Hconv by done. congruence.
    + intros [(_ & Hcr & Hcg & Hcb & _) ->]. by apply converted.
  - apply reference_length; destruct Hwf; lia.
  - unfold reference_image. apply Forall_bind, Forall_true. intros row.
    apply Forall_bind, Forall_true. intros column. destruct Hwf as (_ & _ & _ & _ & _ & ? & ? & ? & _).
    repeat constructor; by apply color_u8.
  - apply color_nearest.
Qed.

(** ** What is read *)

Section reading.
Context {W : Type} `{XServer W, XInput W, SharedSeat W, XIdentities W, XImages W}.

Notation T := (W * list Sent)%type.
Notation St := (Observer * T)%type.
Notation sent := (λ s : Observer * T, snd (snd s)).
Notation anything := (λ _ _, True).

(** The part of the pixmap a request asks for. *)
Definition area (region : option CaptureRegion) (x y width height : Z) : Prop :=
  match region with
  | Some r => x = CaptureRegion_x r ∧ y = CaptureRegion_y r ∧
              width = CaptureRegion_width r ∧ height = CaptureRegion_height r
  | None => x = 0 ∧ y = 0 ∧ validate_dimensions width height = Ok tt
  end.

(** Requests on one pixmap of [window]: it is named, at most one image is read from it,
    and once named it is freed. *)
Definition pixmap_reads (window : Z) (region : option CaptureRegion) (ok : bool)
    (reads : list Sent) : Prop :=
  ∃ pixmap,
    (ok = false ∧ reads = [Sent_NamePixmap window pixmap false]) ∨
    (ok = false ∧ reads = [Sent_NamePixmap window pixmap true; Sent_FreePixmap pixmap]) ∨
    (∃ x y width height accepted,
       reads = [Sent_NamePixmap window pixmap true;
                Sent_GetImage pixmap x y width height accepted; Sent_FreePixmap pixmap] ∧
       area region x y width height ∧ (accepted = false → ok = false)).

(** The window is that of the client the request names, in the desktop as it was read
    under the grab, and the provider holds its pixels off screen. *)
Definition confined (o : Observer) (request : TargetRequest) (window : Z) : Prop :=
  ∃ (t1 t2 : T) (o1 : Observer) c,
    refresh (o, t1) = (Ok tt, (o1, t2)) ∧ snd t1 = [Sent_Grab true] ∧
    fresh o1 request c ∧ window = ClientRecord_xid c ∧ window ∈ redirected_clients o1.

Definition capture_reads (o : Observer) (request : TargetRequest) (region : option CaptureRegion)
    (ok : bool) (reads : list Sent) : Prop :=
  (ok = false ∧ reads = []) ∨
  ∃ window, confined o request window ∧ pixmap_reads window region ok reads.

Definition capture_disciplined (o : Observer) (request : TargetRequest)
    (region : option CaptureRegion) (ok : bool) (record : list Sent) : Prop :=
  (ok = false ∧ record = [Sent_Grab false]) ∨
  ∃ reads read_ok, record = [Sent_Grab true] ++ reads ++ [Sent_Ungrab] ∧
    capture_reads o request region read_ok reads ∧ (ok = true → read_ok = true).

Lemma capture_bounds_area region g x y width height :
  capture_bounds region g = Ok (x, y, width, height) → area region x y width height.
Proof.
  unfold capture_bounds, area. destruct region as [r|]; intros Hb.
  - do 2 (apply checked_then in Hb as [_ Hb]). case_match; [done|].
    do 2 (apply checked_then in Hb as [_ Hb]). by simplify_eq.
  - destruct (validate_dimensions _ _) as [[]|] eqn:Hv; [|done]. cbn in Hb. by simplify_eq.
Qed.

Lemma read_named_pixmap_post pixmap visual region (s : St) :
  wp (read_named_pixmap pixmap visual region)
    (λ raw s', ∃ x y width height,
       snd (snd s') = snd (snd s) ++ [Sent_GetImage pixmap x y width height true] ∧
       area region x y width height ∧
       RawCapture_width raw = width ∧ RawCapture_height raw = height)
    (λ _ s', snd (snd s') = snd (snd s) ∨
       ∃ x y width height accepted,
         snd (snd s') = snd (snd s) ++ [Sent_GetImage pixmap x y width height accepted] ∧
         area region x y width height) s.
Proof.
  unfold read_named_pixmap. wp_step. wp_call (preserves_wp sent); [apply _| |intros e s1 Hs1; by left].
  intros g s1 Hs1. wp_step. apply wp_lift; [|intros; by left].
  intros [[[x y] width] height] Hb%capture_bounds_area. wp_step.
  apply wp_lift; [|intros; by left]. intros format _. wp_step.
  wp_call recorded_post; [|intros e s2 [_ Hs2]; right; exists x, y, width, height, false; by rewrite Hs2, <- Hs1].
  intros [depth data] s2 [_ Hs2]. cbn in Hs1. rewrite Hs1 in Hs2. wp_step; wp_step.
  - right. by exists x, y, width, height, true.
  - by exists x, y, width, height.
Qed.

Lemma read_redirected_post window visual region (s : St) :
  wp (read_redirected_pixmap window visual region)
    (λ raw s', (∃ reads, snd (snd s') = snd (snd s) ++ reads ∧ pixmap_reads window region true reads) ∧
       ∃ x y, area region x y (RawCapture_width raw) (RawCapture_height raw))
    (λ _ s', ∃ reads, snd (snd s') = snd (snd s) ++ reads ∧
       (reads = [] ∨ pixmap_reads window region false reads)) s.
Proof.
  unfold read_redirected_pixmap. wp_step.
  wp_call (preserves_wp sent); [apply _| |intros e s1 Hs1; exists []; rewrite app_nil_r; by split; [|left]].
  intros pixmap s1 Hs1. cbn in Hs1. wp_step.
  wp_call recorded_post.
  2: { intros e s2 [_ Hs2]. eexists. split; [by rewrite Hs2, Hs1|]. right. exists pixmap. by left. }
  intros [] s2 [_ Hs2]. do 2 wp_step. wp_call read_named_pixmap_post.
  - intros raw s3 (x & y & width & height & Hs3 & Harea & <- & <-).
    assert (∀ s4 : St, snd (snd s4) = snd (snd s3) ++ [Sent_FreePixmap pixmap] →
      snd (snd s4) = snd (snd s) ++ [Sent_NamePixmap window pixmap true;
        Sent_GetImage pixmap x y (RawCapture_width raw) (RawCapture_height raw) true; Sent_FreePixmap pixmap]) as Hend.
    { intros s4 ->. by rewrite Hs3, Hs2, Hs1, <- !(assoc_L (++)). }
    assert (∀ ok, pixmap_reads window region ok [Sent_NamePixmap window pixmap true;
        Sent_GetImage pixmap x y (RawCapture_width raw) (RawCapture_height raw) true; Sent_FreePixmap pixmap]) as Hreads.
    { intros ok. exists pixmap. do 2 right. by do 5 eexists. }
    do 2 wp_step. wp_call recorded_post; intros u s4 [_ Hs4%Hend]; wp_step.
    + split; [by eexists|by exists x, y].
    + eexists. split; [exact Hs4|by right].
  - intros e s3 Hs3. do 2 wp_step.
    assert (∀ s4 : St, snd (snd s4) = snd (snd s3) ++ [Sent_FreePixmap pixmap] →
      ∃ reads, snd (snd s4) = snd (snd s) ++ reads ∧
        (reads = [] ∨ pixmap_reads window region false reads)) as Hend.
    { intros s4 Hs4. destruct Hs3 as [Hs3|(x & y & width & height & accepted & Hs3 & Harea)];
        eexists; (split; [rewrite Hs4, Hs3, Hs2, Hs1, <- !(assoc_L (++)); reflexivity|]);
        right; exists pixmap; right; [by left|right]. by exists x, y, width, height, accepted. }
    wp_call recorded_post; intros u s4 [_ Hs4]; wp_step; by apply Hend.
Qed.

Lemma observed_target_refresh o request (t : T) tgt s1 :
  observed_target request (o, t) = (Ok tgt, s1) →
  refresh (o, t) = (Ok tt, s1) ∧ target (fst s1) request = Ok tgt.
Proof.
  unfold observed_target, bind. destruct (refresh (o, t)) as [[[]|e] s2] eqn:Hr; [|done].
  unfold get, gets, lift. cbv [id]. intros [= Ht <-]. done.
Qed.

Lemma read_target_post o (t : T) request region :
  snd t = [Sent_Grab true] →
  wp (read_target_pixels request region)
    (λ raw s', (∃ reads, snd (snd s') = [Sent_Grab true] ++ reads ∧
                         capture_reads o request region true reads) ∧
       ∃ x y, area region x y (RawCapture_width raw) (RawCapture_height raw))
    (λ _ s', ∃ reads, snd (snd s') = [Sent_Grab true] ++ reads ∧
       capture_reads o request region false reads) (o, t).
Proof.
  intros Ht. unfold read_target_pixels. wp_step. unfold wp at 1.
  pose proof (preserves (Preserves:=observed_target_sent request) (o, t)) as Hsent.
  assert (∀ s' : St, snd (snd s') = [Sent_Grab true] →
    ∃ reads, snd (snd s') = [Sent_Grab true] ++ reads ∧
       capture_reads o request region false reads) as Hnone.
  { intros s' Hs'. exists []. split; [done|by left]. }
  destruct (observed_target request (o, t)) as [[tgt|e] [o1 t1]] eqn:Hrun; cbn in Hsent.
  2: { apply Hnone. cbn. congruence. }
  apply observed_target_refresh in Hrun as [Hr Htgt].
  apply target_fresh in Htgt as (c & Hfresh & _ & Hxid & _).
  assert (snd t1 = [Sent_Grab true]) as Ht1 by congruence. clear Hsent.
  wp_step. unfold get. wp_step. cbn [fst].
  destruct (bool_decide _) eqn:Hheld; cbn [negb]; [|wp_step; by apply Hnone]. bool_props.
  wp_step. wp_call (preserves_wp sent); [apply _| |intros e s2 Hs2; apply Hnone; by rewrite Hs2].
  intros attributes s2 Hs2. wp_step; [wp_step; apply Hnone; by rewrite Hs2|].
  wp_step. apply wp_lift; [|intros; apply Hnone; by rewrite Hs2]. intros visual _.
  assert (confined o request (Target_xid tgt)) as Hconf.
  { by exists t, t1, o1, c. }
  wp_call read_redirected_post.
  - intros raw s3 [(reads & Hs3 & Hreads) Harea]. split; [|done]. exists reads.
    split; [by rewrite Hs3, Hs2; cbn; rewrite Ht1|]. right. by exists (Target_xid tgt).
  - intros e s3 (reads & Hs3 & Hreads). exists reads.
    split; [by rewrite Hs3, Hs2; cbn; rewrite Ht1|]. destruct Hreads as [->|?]; [by left|].
    right. by exists (Target_xid tgt).
Qed.

Lemma capture_grab_post o w request region :
  wp (under_server_grab (read_target_pixels request region))
    (λ raw s', capture_disciplined o request region true (snd (snd s')))
    (λ _ s', capture_disciplined o request region false (snd (snd s'))) (o, (w, [])).
Proof.
  wp_call (under_grab_record _ (λ raw, capture_reads o request region true)
             (capture_reads o request region false)).
  - intros [o1 t1] Ho Hs1. cbn in Ho, Hs1. subst o1.
    wp_call (read_target_post o t1); [done|..]; cbn; rewrite Hs1; [by intros raw s2 [? _]|done].
  - intros raw s1 (reads & -> & Hreads). right. by exists reads, true.
  - intros e s1 [->|(reads & -> & Hreads)]; [by left|]. right.
    destruct Hreads as [Hreads|[raw Hreads]]; [by exists reads, false|by exists reads, true].
Qed.

Context (png_encode : Z → Z → bytes → result bytes PngStep) (BASE64_encode : bytes → str).

(** C27: a capture reads the pixels of its target and nothing else.  Whatever the server
    answers, a capture is one grab, released; within it at most one pixmap is named, the
    one the provider holds off screen for the window of the client the request names, at
    the generation it names, in the desktop as it was read under this same grab; from it at
    most one image is read, the area requested; and a named pixmap is freed before the
    grab ends.  A capture succeeds only if the pixels were read. *)
Theorem capture_confined o w :
  (∀ request,
     let '(r, (_, (_, record))) :=
       capture_obscured png_encode BASE64_encode request (o, (w, [])) in
     capture_disciplined o request None (is_ok r) record) ∧
  (∀ request,
     let '(r, (_, (_, record))) :=
       capture_region png_encode BASE64_encode request (o, (w, [])) in
     capture_disciplined o (CaptureRegionRequest_target request)
       (Some (CaptureRegionRequest_region request)) (is_ok r) record).
Proof.
  assert (∀ (ok : bool) request region record, capture_disciplined o request region true record →
            capture_disciplined o request region ok record) as Hweak.
  { intros ok request region record [[? _]|(reads & read_ok & ? & ? & ?)]; [done|].
    right. exists reads, read_ok. split_and!; [done..|]. intros. tauto. }
  split; intros request.
  - pose proof (capture_grab_post o w request None) as Hp. unfold capture_obscured, bind.
    unfold wp in Hp. destruct (under_server_grab _ _) as [[raw|e] [o' [w' l]]]; [|exact Hp].
    unfold lift. by destruct (encode_raw _ _ raw); apply Hweak.
  - pose proof (capture_grab_post o w (CaptureRegionRequest_target request)
                  (Some (CaptureRegionRequest_region request))) as Hp. unfold capture_region, bind.
    unfold wp in Hp. destruct (under_server_grab _ _) as [[raw|e] [o' [w' l]]]; [|exact Hp].
    unfold lift. by destruct (encode_raw _ _ raw); apply Hweak.
Qed.
End reading.

(** ** Replies *)

Section replies.
Context {W : Type} `{XServer W, XInput W, SharedSeat W, XIdentities W, XImages W}.
Context (png_encode : Z → Z → bytes → result bytes PngStep) (BASE64_encode : bytes → str).

Notation St := (Observer * W)%type.
Notation anything := (λ _ _, True).

(** The PNG specification, and RFC 4648. *)
Hypothesis png_signature : ∀ width height rgb png,
  png_encode width height rgb = Ok png → starts_png png ∧ Forall is_u8 png.
Hypothesis base64_standard : ∀ p, Forall is_u8 p → BASE64_encode p = base64_encode p.

(** The image in the reply. *)
Definition shows (raw : RawCapture) (data : CaptureData) : Prop :=
  ∃ rgb png, to_rgb raw = Ok rgb ∧
    png_encode (RawCapture_width raw) (RawCapture_height raw) rgb = Ok png ∧
    len png ≤ MAX_CAPTURE_PNG_BYTES ∧ as_str data = base64_encode png.

Lemma encode_raw_exact raw data : encode_raw png_encode BASE64_encode raw = Ok data ↔ shows raw data.
Proof.
  unfold encode_raw, shows, encode_png. destruct (to_rgb raw) as [rgb|e]; cbn; [|naive_solver].
  destruct (png_encode _ _ rgb) as [png|step] eqn:Hpng; cbn.
  2: { split; [done|]. intros (? & ? & [= <-] & ? & _). congruence. }
  destruct (png_signature _ _ _ _ Hpng) as [_ Hu8]. rewrite base64_standard by done.
  destruct (MAX_CAPTURE_PNG_BYTES <? len png) eqn:Hlen; bool_props.
  { split; [done|]. intros (rgb' & png' & [= <-] & Hpng' & ? & _).
    assert (png' = png) as -> by congruence. lia. }
  assert (∀ d : CaptureData, BoundedText_new (base64_encode png) = Ok d ↔ as_str d = base64_encode png)
    as Hnew by (intros; apply BoundedText_new_Ok).
  split.
  - intros Hd. exists rgb, png. split_and!; [done..|]. apply Hnew.
    destruct (BoundedText_new _); [by injection Hd as ->|done].
  - intros (rgb' & png' & [= <-] & Hpng' & _ & Hd).
    assert (png' = png) as -> by congruence. by rewrite (proj2 (Hnew data) Hd).
Qed.

(** The base64 bound of the protocol is the one the PNG bound gives. *)
Lemma capture_data_fits png :
  len png ≤ MAX_CAPTURE_PNG_BYTES → ∃ d : CaptureData, as_str d = base64_encode png.
Proof.
  intros Hlen. assert (over MAX_CAPTURE_DATA_BYTES (base64_encode png) = false) as Hfit.
  { apply over_false. rewrite base64_encode_length.
    change (Z.of_N MAX_CAPTURE_DATA_BYTES) with ((Z.of_N MAX_CAPTURE_PNG_BYTES + 2) / 3 * 4).
    apply Z.mul_le_mono_nonneg_r; [lia|]. apply Z.div_le_mono; lia. }
  by exists (mkBoundedText _ Hfit).
Qed.

Lemma shows_png raw data : shows raw data → valid_png_base64 (as_str data) = true.
Proof.
  intros (rgb & png & _ & Hpng & _ & ->). apply png_signature in Hpng as [? ?].
  by apply png_base64_valid.
Qed.

Lemma read_target_area request region s :
  wp (read_target_pixels request region)
    (λ raw _, ∃ x y, area region x y (RawCapture_width raw) (RawCapture_height raw)) anything s.
Proof.
  unfold read_target_pixels. wp_step. eapply wp_mono; [apply wp_any| |done]. intros tgt s1 _.
  wp_step. unfold get. wp_step. wp_step; [by wp_step|]. wp_step.
  eapply wp_mono; [apply wp_any| |done]. intros attributes s2 _. wp_step; [by wp_step|].
  wp_step. apply wp_lift; [|done]. intros visual _. unfold read_redirected_pixmap. wp_step.
  eapply wp_mono; [apply wp_any| |done]. intros pixmap s3 _. wp_step.
  eapply wp_mono; [apply wp_any| |done]. intros [] s4 _. do 2 wp_step.
  eapply wp_mono with (Q := λ raw _, ∃ x y, area region x y (RawCapture_width raw) (RawCapture_height raw))
    (R := anything).
  - unfold read_named_pixmap. wp_step. eapply wp_mono; [apply wp_any| |done]. intros g s5 _.
    wp_step. apply wp_lift; [|done]. intros [[[x y] width] height] Hb%capture_bounds_area.
    wp_step. apply wp_lift; [|done]. intros format _. wp_step.
    eapply wp_mono; [apply wp_any| |done]. intros [depth data] s6 _. wp_step; wp_step; [done|]. by exists x, y.
  - intros raw s5 Harea. do 2 wp_step. eapply wp_mono with (R := anything); [apply wp_any|..]; intros; by wp_step.
  - intros e s5 _. do 2 wp_step. eapply wp_mono with (R := anything); [apply wp_any|..]; intros; by wp_step.
Qed.

Lemma grab_area request region s :
  wp (under_server_grab (read_target_pixels request region))
    (λ raw _, ∃ x y, area region x y (RawCapture_width raw) (RawCapture_height raw)) anything s.
Proof.
  unfold under_server_grab. wp_step. eapply wp_mono; [apply wp_any| |done]. intros [] s1 _.
  do 2 wp_step. wp_call read_target_area.
  - intros raw s2 Harea. do 2 wp_step. eapply wp_mono with (R := anything); [apply wp_any|..]; intros; by wp_step.
  - intros e s2 _. do 2 wp_step. eapply wp_mono with (R := anything); [apply wp_any|..]; intros; by wp_step.
Qed.

Lemma validate_dimensions_reply request width height data :
  validate_dimensions width height = Ok tt → valid_png_base64 (as_str data) = true →
  CaptureReply_validate {| CaptureReply_target := request; CaptureReply_width := width;
    CaptureReply_height := height; CaptureReply_format := CaptureFormat_Png;
    CaptureReply_data := data |} = Ok tt.
Proof.
  unfold validate_dimensions, CaptureReply_validate. cbn. intros Hdim ->.
  destruct (checked_u64 _) as [pixels|]; [|done]. cbn in *. by destruct (_ || _).
Qed.

(** What the replies of the two operations are. *)
Lemma obscured_reply request s reply s' :
  capture_obscured png_encode BASE64_encode request s = (Ok reply, s') →
  CaptureReply_validate reply = Ok tt ∧ CaptureReply_target reply = request ∧
  ∃ raw, shows raw (CaptureReply_data reply) ∧
    RawCapture_width raw = CaptureReply_width reply ∧
    RawCapture_height raw = CaptureReply_height reply.
Proof.
  intros Hrun.
  pose proof (grab_area request None s) as Hp. unfold wp in Hp. unfold capture_obscured, bind in Hrun.
  destruct (under_server_grab _ s) as [[raw|e] s1]; [|done]. unfold lift in Hrun.
  destruct (encode_raw _ _ raw) as [data|] eqn:Hdata; [|done]. apply encode_raw_exact in Hdata.
  injection Hrun as <- <-. destruct Hp as (x & y & _ & _ & Hdim).
  split_and!; [by apply validate_dimensions_reply, shows_png with raw|done|by exists raw].
Qed.

Lemma region_reply request s reply s' :
  capture_region png_encode BASE64_encode request s = (Ok reply, s') →
  (CaptureRegionRequest_validate request = Ok tt → CaptureRegionReply_validate reply = Ok tt) ∧
  CaptureRegionReply_target reply = CaptureRegionRequest_target request ∧
  ∃ raw, shows raw (CaptureRegionReply_data reply) ∧
    RawCapture_width raw = CaptureRegion_width (CaptureRegionRequest_region request) ∧
    RawCapture_height raw = CaptureRegion_height (CaptureRegionRequest_region request).
Proof.
  intros Hrun.
  pose proof (grab_area (CaptureRegionRequest_target request)
                (Some (CaptureRegionRequest_region request)) s) as Hp.
  unfold wp in Hp. unfold capture_region, bind in Hrun.
  destruct (under_server_grab _ s) as [[raw|e] s1]; [|done]. unfold lift in Hrun.
  destruct (encode_raw _ _ raw) as [data|] eqn:Hdata; [|done]. apply encode_raw_exact in Hdata.
  injection Hrun as <- <-. destruct Hp as (x & y & _ & _ & Hw & Hh).
  split_and!; [|done|by exists raw]. intros Hv. unfold CaptureRegionReply_validate. cbn.
  unfold CaptureRegionRequest_validate in Hv. cbn in Hv. unfold validate, CaptureRegion_Validate in *.
  rewrite Hv. cbn. by rewrite (shows_png raw).
Qed.

(** Capture replies are valid and show the pixels that were read.  When a capture
    succeeds, there are raw pixels of the size the reply names whose conversion, encoded
    as PNG and in base64, is the data of the reply; an image larger than the published
    bound is never sent, and an image within it never fails for its base64 size; and the
    reply passes the protocol's validation (of a region capture, if the request did). *)
Theorem capture_reply_valid s :
  (∀ request reply s', capture_obscured png_encode BASE64_encode request s = (Ok reply, s') →
     CaptureReply_validate reply = Ok tt ∧ CaptureReply_target reply = request ∧
     ∃ raw, shows raw (CaptureReply_data reply) ∧
       RawCapture_width raw = CaptureReply_width reply ∧
       RawCapture_height raw = CaptureReply_height reply) ∧
  (∀ request reply s', capture_region png_encode BASE64_encode request s = (Ok reply, s') →
     (CaptureRegionRequest_validate request = Ok tt → CaptureRegionReply_validate reply = Ok tt) ∧
     CaptureRegionReply_target reply = CaptureRegionRequest_target request ∧
     ∃ raw, shows raw (CaptureRegionReply_data reply) ∧
       RawCapture_width raw = CaptureRegion_width (CaptureRegionRequest_region request) ∧
       RawCapture_height raw = CaptureRegion_height (CaptureRegionRequest_region request)) ∧
  (∀ raw rgb png, to_rgb raw = Ok rgb →
     png_encode (RawCapture_width raw) (RawCapture_height raw) rgb = Ok png →
     len png ≤ MAX_CAPTURE_PNG_BYTES → ∃ data, encode_raw png_encode BASE64_encode raw = Ok data).
Proof.
  split_and!; [intros request reply s'; apply obscured_reply|intros request reply s'; apply region_reply|].
  intros raw rgb png Hrgb Hpng Hlen. destruct (capture_data_fits png Hlen) as [data Hd].
  exists data. apply encode_raw_exact. by exists rgb, png.
Qed.
End replies.

(** ** A concrete capture

    The desktop of [ObserverRuns.Toy] with images of one row of three 16-bit pixels. *)
Module CaptureToy.
Import ObserverRuns.Toy.

Definition toy_visual : Visualtype :=
  {| visual_id := 0; visual_class := TRUE_COLOR;
     red_mask := 63488; green_mask := 2016; blue_mask := 31 |}.

Definition toy_raw : RawCapture :=
  {| RawCapture_width := 3; RawCapture_height := 1; RawCapture_depth := 16;
     RawCapture_visual := toy_visual; RawCapture_bits_per_pixel := 16;
     RawCapture_scanline_pad := 32; RawCapture_image_byte_order := LSB_FIRST;
     RawCapture_data := [0; 248; 0; 4; 15; 0; 0; 0] |}.

(** The same pixels from a server of the other byte order. *)
Definition toy_raw_msb : RawCapture :=
  {| RawCapture_width := 3; RawCapture_height := 1; RawCapture_depth := 16;
     RawCapture_visual := toy_visual; RawCapture_bits_per_pixel := 16;
     RawCapture_scanline_pad := 32; RawCapture_image_byte_order := 1;
     RawCapture_data := [248; 0; 4; 0; 0; 15; 0; 0] |}.

Lemma toy_raw_wf : raw_wf toy_raw ∧ raw_wf toy_raw_msb.
Proof.
  unfold raw_wf. cbn. int_bounds.
  split; (split_and!; try lia; try done; [apply list_elem_of_In; by left|repeat constructor; done]).
Qed.

(** Red, half green, half blue. *)
Lemma capture_pixels_exact_witness :
  (convertible toy_raw ∧ to_rgb toy_raw = Ok [255; 0; 0; 0; 130; 0; 0; 0; 123]) ∧
  (convertible toy_raw_msb ∧ to_rgb toy_raw_msb = Ok [255; 0; 0; 0; 130; 0; 0; 0; 123]).
Proof.
  assert (to_rgb toy_raw = Ok [255; 0; 0; 0; 130; 0; 0; 0; 123]) as Hrun by (vm_compute; reflexivity).
  assert (to_rgb toy_raw_msb = Ok [255; 0; 0; 0; 130; 0; 0; 0; 123]) as Hmsb by (vm_compute; reflexivity).
  split; (split; [|assumption]).
  - exact (proj1 (proj1 (proj1 (capture_pixels_exact toy_raw (proj1 toy_raw_wf)) _) Hrun)).
  - exact (proj1 (proj1 (proj1 (capture_pixels_exact toy_raw_msb (proj2 toy_raw_wf)) _) Hmsb)).
Defined.

#[export] Instance identities : XIdentities World := { generate_id := ret 500 }.

#[export] Instance images : XImages World := {
  setup := {| setup_roots := [[[toy_visual]]];
              setup_pixmap_formats :=
                [ {| format_depth := 24; format_bits_per_pixel := 32; format_scanline_pad := 32 |} ];
              setup_image_byte_order := LSB_FIRST |};
  composite_name_window_pixmap window pixmap := ret tt;
  free_pixmap pixmap := ret tt;
  get_image pixmap x y width height := ret (24, replicate (Z.to_nat (4 * (width * height))) 0)
}.

(** The signature and nothing else. *)
Definition toy_png (width height : Z) (rgb : bytes) : result bytes PngStep :=
  Ok (PNG_SIGNATURE ++ replicate 8 0).

Definition toy_region : CaptureRegion :=
  {| CaptureRegion_x := 1; CaptureRegion_y := 2; CaptureRegion_width := 4;
     CaptureRegion_height := 2 |}.

Definition toy_request : CaptureRegionRequest :=
  {| CaptureRegionRequest_target := InputToy.toy_target; CaptureRegionRequest_region := toy_region |}.

Lemma toy_png_signature width height rgb png :
  toy_png width height rgb = Ok png → starts_png png ∧ Forall is_u8 png.
Proof.
  intros [= <-]. split; [|by repeat constructor; compute].
  split; [reflexivity|]. by intros b [= <-].
Qed.

Lemma capture_reply_valid_witness :
  ∃ reply s', capture_region toy_png base64_encode toy_request subscribed = (Ok reply, s') ∧
    CaptureRegionReply_validate reply = Ok tt.
Proof.
  destruct (evaluates (capture_region toy_png base64_encode toy_request) subscribed)
    as (reply & s' & Hrun); [vm_compute; reflexivity|].
  exists reply, s'. split; [exact Hrun|].
  pose proof (capture_reply_valid toy_png base64_encode toy_png_signature (λ p _, eq_refl) subscribed)
    as (_ & Hregion & _).
  apply (proj1 (Hregion _ _ _ Hrun)). vm_compute. reflexivity.
Defined.
End CaptureToy.
