(* ===== verification/TextTransferTheorems.v ===== *)
(** * Properties of text transfer

    Text is handed only to the target's own client, under the conditions the code checks;
    the provider's claim on the clipboard is always given up; the reply is truthful; and
    the waiting ends. *)

From S2P Require Import Prelude Text Bounded Protocol Message Effects X11 InputServer SeatGate.
From S2P Require Import Observer Manager ManagerTheorems Keyboard Input Recorder TextTransfer.
From S2P Require Import InputTheorems ObserverTheorems.

(** ** Confinement *)

(** The client a reply of the X-Resource extension identifies. *)
Definition identity (ids : list ClientIdValue) : option Z :=
  client_spec_client ∘ snd <$>
    list_find (λ value, client_spec_mask value = CLIENT_XID ∧ client_value value = []) ids.

Section confinement.
Context {W : Type} `{XServer W, XInput W, SharedSeat W, XIdentities W, XSelections W}.
Context (request : TargetRequest) (text : bytes) (permit : SeatPermit) (owner : Z).

Notation T := (W * list Sent)%type.
Notation St := (Observer * T)%type.
Notation sent := (λ s : Observer * T, snd (snd s)).
Notation unavailable message := (or_unavailable message message).

(** The entries of a grab that hands over the text: the seat word was accepted, the
    requestor belongs to the same client as the focused target, the provider owns the
    clipboard, and a text type was asked for; then the text, and no other, is written to
    the requestor. *)
Definition handover (target clip : Z) (a : Atoms) (entries : list Sent) : Prop :=
  ∃ word ids ids' requestor property type accepted tail,
    entries = [Sent_Seat word; Sent_Client target (Some ids); Sent_Client requestor (Some ids');
               Sent_Owner clip (Some owner);
               Sent_Text requestor property type text accepted] ++ tail ∧
    SeatGate_accepts word permit = true ∧
    identity ids = identity ids' ∧ is_Some (identity ids) ∧
    type ∈ [utf8_atom a; text_plain_utf8 a; text_plain a] ∧ Forall quiet tail.

Definition delivery (before grab : list Sent) : Prop :=
  ∃ (s0 s1 : St) tgt entries,
    snd (snd s0) = before ++ [Sent_Grab true] ∧
    focused_target request s0 = (Ok tgt, s1) ∧
    handover (Target_xid tgt) (clipboard (atoms (fst s1))) (atoms (fst s1)) entries ∧
    grab = [Sent_Grab true] ++ entries ++ [Sent_Ungrab].

(** A record, from the creation of the provider's window on, in which text is handed over
    in no other way. *)
Inductive confined_text : list Sent → Prop :=
| confined_start : confined_text [Sent_CreateWindow owner true]
| confined_quiet record entries :
    confined_text record → Forall quiet entries → confined_text (record ++ entries)
| confined_delivery record grab :
    confined_text record → delivery record grab → confined_text (record ++ grab).

(** The text was handed over, and accepted, at least once. *)
Definition delivered (record : list Sent) : Prop :=
  ∃ requestor property type, Sent_Text requestor property type text true ∈ record.

Lemma delivered_app l l' : delivered l → delivered (l ++ l').
Proof. intros (a & b & c & Hin). exists a, b, c. apply elem_of_app. by left. Qed.

(** *** One request *)

Notation quietly_after s := (λ s' : St, ∃ l, snd (snd s') = snd (snd s) ++ l ∧ Forall quiet l).

Lemma xres_post window (s : St) :
  wp (require_xres_client_identity window)
    (λ client s', fst s' = fst s ∧ ∃ ids, identity ids = Some client ∧
       snd (snd s') = snd (snd s) ++ [Sent_Client window (Some ids)])
    (λ _, quietly_after s) s.
Proof.
  unfold require_xres_client_identity. wp_step.
  wp_call (wp_preserves sent _ (λ _ s', fst s' = fst s) (λ _ s', fst s' = fst s)); [apply _|..].
  { destruct s as [o t]. unfold or_unavailable, x11, zoom, map_error, wp. cbn.
    by destruct (quietly _ t) as [[] ?]. }
  2: { intros e s1 [_ Hs1]. exists []. rewrite app_nil_r. by split. }
  intros [major minor] s1 [Ho1 Hs1]. cbn in Hs1. wp_step.
  { wp_step. exists []. rewrite app_nil_r. by split. }
  wp_step. wp_call noted_post.
  2: { intros e s2 [_ Hs2]. eexists. split; [by rewrite Hs2, Hs1|by repeat constructor]. }
  intros ids s2 [Ho2 Hs2]. apply wp_lift.
  - intros client Hc. split; [by rewrite Ho2|]. exists ids. split; [|by rewrite Hs2, Hs1].
    unfold identity. destruct (client_spec_client ∘ snd <$> _); [|done]. cbn in Hc. congruence.
  - intros e _. eexists. split; [by rewrite Hs2, Hs1|by repeat constructor].
Qed.

#[local] Instance xres_appends window : Appends (require_xres_client_identity (W:=T) window).
Proof. unfold require_xres_client_identity. solve_appends. Qed.
#[local] Instance clipboard_owner_appends message : Appends (clipboard_owner (W:=T) message).
Proof. unfold clipboard_owner. solve_appends. Qed.
#[local] Instance notify_appends event property : Appends (notify_selection (W:=T) event property).
Proof. unfold notify_selection. solve_appends. Qed.
#[local] Instance refuse_appends event message : Appends (refuse (W:=T) event message).
Proof. unfold refuse. solve_appends. Qed.
#[local] Instance publish_appends event property : Appends (publish_targets (W:=T) event property).
Proof. unfold publish_targets. solve_appends. Qed.
#[local] Instance create_owner_appends : Appends (create_transfer_owner (W:=T)).
Proof. unfold create_transfer_owner. solve_appends. Qed.
#[local] Instance claim_appends window : Appends (claim_transfer_selection (W:=T) window).
Proof. unfold claim_transfer_selection. solve_appends. Qed.
#[local] Instance offer_appends window : Appends (offer (W:=T) request window permit).
Proof. unfold offer, if_accepted, type_key. solve_appends. Qed.
#[local] Instance evidence_appends window :
  Appends (transfer_evidence_is_current (W:=T) window request permit).
Proof. unfold transfer_evidence_is_current. solve_appends. Qed.
#[local] Instance release_appends window : Appends (release_transfer_owner (W:=T) window).
Proof. unfold release_transfer_owner. solve_appends. Qed.

Lemma appends_post {E A} (m : M St E A) (s : St) :
  Appends m → wp m (λ _, quietly_after s) (λ _, quietly_after s) s.
Proof. intros Hm. unfold wp. destruct (Hm s) as [l Hl]. destruct (m s) as [[] ?]; by exists l. Qed.

Lemma deliver_text_post event property (s : St) :
  wp (deliver_text event property text)
    (λ _ s', ∃ tail, snd (snd s') = snd (snd s) ++
       Sent_Text (selection_requestor event) property (selection_target event) text true :: tail ∧
       Forall quiet tail)
    (λ _ s', ∃ accepted tail, snd (snd s') = snd (snd s) ++
       Sent_Text (selection_requestor event) property (selection_target event) text accepted :: tail ∧
       Forall quiet tail) s.
Proof.
  unfold deliver_text. wp_step. wp_call recorded_post.
  2: { intros e s1 [_ Hs1]. exists false, []. by rewrite Hs1. }
  intros [] s1 [_ Hs1].
  assert (Appends (notify_selection (W:=T) event property ;!
    or_unavailable "cannot synchronize UTF-8 text delivery" "cannot synchronize UTF-8 text delivery" sync ;!
    ret true)) as Hrest by solve_appends.
  wp_call (appends_post _ s1 Hrest).
  - intros a s2 (l & Hs2 & Hl). exists l. by rewrite Hs2, Hs1, <- (assoc_L (++)).
  - intros e s2 (l & Hs2 & Hl). exists true, l. by rewrite Hs2, Hs1, <- (assoc_L (++)).
Qed.

(** Computations that report that no text was delivered. *)
Definition never_true (m : M St Failure bool) : Prop := ∀ s, (m s).1 ≠ Ok true.

Lemma never_true_bind {A} (m : M St Failure A) k :
  (∀ a, never_true (k a)) → never_true (bind m k).
Proof. intros Hk s. unfold bind. destruct (m s) as [[a|e] s1]; [apply Hk|done]. Qed.

Lemma never_true_false : never_true (ret false).
Proof. done. Qed.

(** What the action of a served request adds to the record. *)
Definition served (a : Atoms) (target : Z) (ok : bool) (entries : list Sent) : Prop :=
  (ok = false ∧ Forall quiet entries) ∨
  (handover target (clipboard a) a entries ∧ (ok = true → delivered entries)).

Lemma request_post event o (t : T) tgt (s1 : St) :
  focused_target request (o, t) = (Ok tgt, s1) →
  wp (let! target := focused_target request in
      let! enabled := accepts permit in
      if negb enabled then ret false else
      let! same := same_x_client (Target_xid target) (selection_requestor event) in
      if negb same then refuse event "cannot refuse an out-of-scope selection requestor" else
      let! current := clipboard_owner "cannot verify X11 clipboard ownership" in
      if negb (current =? owner) then ret false else
      serve_request event text)
    (λ ok s', ∃ l, snd (snd s') = snd t ++ l ∧ served (atoms (fst s1)) (Target_xid tgt) ok l)
    (λ _ s', ∃ l, snd (snd s') = snd t ++ l ∧ served (atoms (fst s1)) (Target_xid tgt) false l)
    (o, t).
Proof.
  intros Hrun.
  pose proof (preserves (Preserves:=focused_target_sent request) (o, t)) as Hs1.
  wp_step. unfold wp at 1. rewrite Hrun in *. cbn [fst snd] in Hs1.
  set (Q := λ (ok : bool) (s' : St), ∃ l, snd (snd s') = snd t ++ l ∧
              served (atoms (fst s1)) (Target_xid tgt) ok l).
  wp_step. wp_call (accepts_post permit s1 (λ _ _, False)); [|by intros ? ? []].
  intros enabled s2 (word & -> & Ho2 & Hs2). rewrite Hs1 in Hs2.
  destruct (SeatGate_accepts word permit) eqn:Hword; cbn [negb].
  2: { wp_step. exists [Sent_Seat word]. split; [done|]. left. split; [done|by constructor]. }
  unfold same_x_client. do 2 wp_step.
  wp_call xres_post.
  2: { intros e s3 (l & Hs3 & Hl). exists (Sent_Seat word :: l).
       split; [by rewrite Hs3, Hs2, <- (assoc_L (++))|]. left. split; [done|by constructor]. }
  intros client s3 (Ho3 & ids & Hids & Hs3). wp_step. wp_call xres_post.
  2: { intros e s4 (l & Hs4 & Hl). exists (Sent_Seat word :: Sent_Client (Target_xid tgt) (Some ids) :: l).
       split; [by rewrite Hs4, Hs3, Hs2, <- !(assoc_L (++))|]. left. split; [done|by repeat constructor]. }
  intros client' s4 (Ho4 & ids' & Hids' & Hs4). wp_step.
  set (seen := [Sent_Seat word; Sent_Client (Target_xid tgt) (Some ids);
                Sent_Client (selection_requestor event) (Some ids')]).
  assert (snd (snd s4) = snd t ++ seen) as Hs4' by (by rewrite Hs4, Hs3, Hs2, <- !(assoc_L (++))).
  assert (fst s4 = fst s1) as Ho4' by congruence.
  assert (Forall quiet seen) as Hseen by repeat constructor.
  assert (∀ (m : M St Failure bool), Appends m → never_true m →
    ∀ (entries : list Sent) (s5 : St), snd (snd s5) = snd t ++ entries → Forall quiet entries →
    wp m Q (λ _, Q false) s5) as Hend.
  { intros m Hm Hno entries s5 Hs5 Hentries.
    pose proof (appends_post m s5 Hm) as Hp. specialize (Hno s5). unfold wp in *.
    destruct (m s5) as [[ok|e] s6]; destruct Hp as (l & Hs6 & Hl); cbn in Hno;
      exists (entries ++ l); (split; [by rewrite Hs6, Hs5, <- (assoc_L (++))|]);
      left; (split; [|by apply Forall_app]); [by destruct ok|done]. }
  destruct (Z.eqb_spec client client') as [<-|Hne]; cbn [negb].
  2: { eapply Hend; [apply _| |exact Hs4'|done].
       do 2 (apply never_true_bind; intros). apply never_true_false. }
  wp_step. unfold clipboard_owner. wp_step. unfold get. wp_step. cbn [fst].
  wp_call noted_post.
  2: { intros e s5 [_ Hs5]. eexists (seen ++ [_]). split; [by rewrite Hs5, Hs4', <- (assoc_L (++))|].
       left. split; [done|]. apply Forall_app. split; [done|by repeat constructor]. }
  intros current s5 [Ho5 Hs5]. rewrite Hs4' in Hs5. wp_step.
  { wp_step. eexists (seen ++ [_]). split; [by rewrite Hs5, <- (assoc_L (++))|].
    left. split; [done|]. apply Forall_app. split; [done|by repeat constructor]. }
  bool_props. subst current. rewrite Ho4' in Hs5.
  assert (snd (snd s5) = snd t ++ (seen ++ [Sent_Owner (clipboard (atoms (fst s1))) (Some owner)])) as Hs5'
    by (by rewrite Hs5, <- (assoc_L (++))).
  assert (Forall quiet (seen ++ [Sent_Owner (clipboard (atoms (fst s1))) (Some owner)])) as Hq5
    by (apply Forall_app; split; [done|by repeat constructor]).
  unfold serve_request. cbv zeta. wp_step. unfold get. wp_step. wp_step.
  { eapply Hend; [apply _| |exact Hs5'|done].
    do 4 (apply never_true_bind; intros). apply never_true_false. }
  assert (atoms (fst s5) = atoms (fst s1)) as Hatoms by congruence.
  wp_step.
  { eapply Hend; [apply _| |exact Hs5'|done].
    do 2 (apply never_true_bind; intros). apply never_true_false. }
  bool_props. rewrite Hatoms in *.
  assert (selection_target event ∈ [utf8_atom (atoms (fst s1)); text_plain_utf8 (atoms (fst s1));
                                    text_plain (atoms (fst s1))]) as Htype.
  { rewrite !elem_of_cons. apply orb_true_iff in Heqb0 as [[?%Z.eqb_eq|?%Z.eqb_eq]%orb_true_iff|?%Z.eqb_eq]; auto. }
  assert (∀ property accepted tail, Forall quiet tail →
    handover (Target_xid tgt) (clipboard (atoms (fst s1))) (atoms (fst s1))
      (seen ++ [Sent_Owner (clipboard (atoms (fst s1))) (Some owner)] ++
       Sent_Text (selection_requestor event) property (selection_target event) text accepted :: tail)) as Hhand.
  { intros property accepted tail Htail. exists word, ids, ids'. do 3 eexists. exists accepted, tail.
    split_and!; [reflexivity|done|by rewrite Hids, Hids'|by rewrite Hids|done|done]. }
  wp_call deliver_text_post.
  - intros ok s6 (tail & Hs6 & Htail). eexists. split; [by rewrite Hs6, Hs5', <- !(assoc_L (++))|].
    right. split; [by apply Hhand|]. intros _. do 3 eexists.
    rewrite !elem_of_app, elem_of_cons. right. right. by left.
  - intros e s6 (accepted & tail & Hs6 & Htail). eexists.
    split; [by rewrite Hs6, Hs5', <- !(assoc_L (++))|]. right. split; [by apply Hhand|done].
Qed.

Lemma confined_grab (s : St) entries :
  confined_text (snd (snd s)) → Forall quiet entries →
  ∀ s' : St, snd (snd s') = snd (snd s) ++ entries → confined_text (snd (snd s')).
Proof. intros Hs He s' ->. by apply confined_quiet. Qed.

Lemma keeps_confined {E A} (m : M St E A) (s : St) :
  Appends m → confined_text (snd (snd s)) →
  wp m (λ _ s', confined_text (snd (snd s'))) (λ _ s', confined_text (snd (snd s'))) s.
Proof.
  intros Hm Hs. wp_call (appends_post m s Hm); intros ? s1 (l & -> & Hl); by apply confined_quiet.
Qed.

Lemma handle_request_post event (s : St) :
  confined_text (snd (snd s)) →
  wp (handle_selection_request event owner request text permit)
    (λ ok s', confined_text (snd (snd s')) ∧ (∃ l, snd (snd s') = snd (snd s) ++ l) ∧
              (ok = true → delivered (snd (snd s'))))
    (λ _ s', confined_text (snd (snd s'))) s.
Proof.
  intros Hs. unfold handle_selection_request.
  set (Q := λ (ok : bool) (l : list Sent), (ok = false ∧ Forall quiet l) ∨
    ∃ (s0 s1 : St) tgt, snd (snd s0) = snd (snd s) ++ [Sent_Grab true] ∧
      focused_target request s0 = (Ok tgt, s1) ∧
      handover (Target_xid tgt) (clipboard (atoms (fst s1))) (atoms (fst s1)) l ∧
      (ok = true → delivered l)).
  assert (∀ ok l (s' : St), Q ok l →
    snd (snd s') = snd (snd s) ++ [Sent_Grab true] ++ l ++ [Sent_Ungrab] →
    confined_text (snd (snd s')) ∧ (ok = true → delivered (snd (snd s')))) as HQ.
  { intros ok l s' Hl Hs'. rewrite Hs'. destruct Hl as [[-> Hl]|(s0 & s1 & tgt & Hs0 & Hrun & Hhand & Hdel)].
    - split; [|done]. apply confined_quiet; [done|]. constructor; [done|].
      apply Forall_app. split; [done|by constructor].
    - split.
      + apply confined_delivery; [done|]. by exists s0, s1, tgt, l.
      + intros (a & b & c & Hin)%Hdel. exists a, b, c. apply elem_of_app. right.
        apply elem_of_app. right. apply elem_of_app. by left. }
  wp_call (under_grab_record _ Q (Q false)).
  - intros [o1 t1] _ Hs1. cbn in Hs1.
    destruct (focused_target request (o1, t1)) as [[tgt|e] s2] eqn:Hrun.
    + wp_call (request_post event o1 t1 tgt s2 Hrun).
      * intros ok s3 (l & Hs3 & Hl). exists l. split; [done|]. destruct Hl as [Hl|[Hl Hd]]; [by left|].
        right. by exists (o1, t1), s2, tgt.
      * intros e s3 (l & Hs3 & Hl). exists l. split; [done|]. destruct Hl as [Hl|[Hl Hd]]; [by left|].
        right. by exists (o1, t1), s2, tgt.
    + pose proof (preserves (Preserves:=focused_target_sent request) (o1, t1)) as Hs2.
      wp_step. unfold wp at 1. rewrite Hrun in *. exists []. rewrite app_nil_r. split; [done|by left].
  - intros ok s1 (l & Hs1 & Hl). pose proof (HQ ok l s1 Hl Hs1) as [? ?].
    split_and!; [done|by eexists|done].
  - intros e s1 [Hs1|(l & Hs1 & Hl)].
    + eapply confined_grab; [exact Hs| |exact Hs1]. by constructor.
    + destruct Hl as [Hl|[ok Hl]]; by eapply (HQ _ l s1 Hl).
Qed.

(** *** Waiting *)

Definition waiting_inv (waiting : Waiting) (s : St) : Prop :=
  confined_text (snd (snd s)) ∧ (is_Some (last_delivery waiting) → delivered (snd (snd s))).

Lemma waiting_inv_quiet waiting (s s' : St) entries :
  waiting_inv waiting s → snd (snd s') = snd (snd s) ++ entries → Forall quiet entries →
  waiting_inv waiting s'.
Proof.
  intros [Hc Hd] Hs' Hq. unfold waiting_inv. rewrite Hs'. split; [by apply confined_quiet|].
  intros ?. apply delivered_app. auto.
Qed.

Lemma keeps_waiting {E A} (m : M St E A) waiting (s : St) :
  Appends m → waiting_inv waiting s →
  wp m (λ _, waiting_inv waiting) (λ _ s', confined_text (snd (snd s'))) s.
Proof.
  intros Hm Hs. wp_call (appends_post m s Hm); intros ? s1 (l & Hs1 & Hl);
    by eapply waiting_inv_quiet.
Qed.

Lemma serve_selection_post event n waiting (s : St) :
  waiting_inv waiting s →
  wp (serve_selection owner request text permit event n waiting)
    (λ r s', confined_text (snd (snd s')) ∧ ∀ w', r = Some w' → waiting_inv w' s')
    (λ _ s', confined_text (snd (snd s'))) s.
Proof.
  intros Hs. unfold serve_selection. cbv zeta. wp_step; [wp_step; by destruct Hs|].
  wp_step. wp_call handle_request_post; [by destruct Hs| |done].
  intros delivered' s1 (Hc & [l Hl] & Hd). wp_step.
  eapply wp_mono with (Q := λ delivery s', snd (snd s') = snd (snd s1) ∧
      (is_Some delivery → delivered (snd (snd s1)))) (R := λ _ s', confined_text (snd (snd s'))).
  - destruct delivered'.
    + wp_step. wp_call (wp_sent (x11 instant_now) s1 _ _ eq_refl).
      * intros t s2 Hs2. wp_step. split; [done|]. intros _. by apply Hd.
      * intros e s2 ->. done.
    + wp_step. split; [done|]. intros Hsome. rewrite Hl. apply delivered_app. by apply Hs.
  - intros delivery s2 [Hs2 Hdel]. wp_step. rewrite Hs2. split; [done|].
    intros w' [= <-]. unfold waiting_inv. cbn. by rewrite Hs2.
  - done.
Qed.

Lemma drain_post budget waiting (s : St) :
  waiting_inv waiting s →
  wp (drain_events owner request text permit budget waiting)
    (λ r s', confined_text (snd (snd s')) ∧ ∀ w', r = Some w' → waiting_inv w' s')
    (λ _ s', confined_text (snd (snd s'))) s.
Proof.
  revert waiting s. induction budget as [|budget IH]; intros waiting s Hs; cbn [drain_events];
    wp_step; (wp_call (keeps_waiting _ waiting s); [apply _|done| |done]); intros event s1 Hs1;
    (destruct event as [event|];
      [|wp_step; split; [apply Hs1|]; intros w' [= <-]; exact Hs1]).
  { wp_step. by split; [apply Hs1|]. }
  wp_step. unfold get. wp_step. destruct event as [event_owner selection|event|].
  - wp_step; [wp_step; by split; [apply Hs1|]|by apply IH].
  - wp_step; [|by apply IH]. wp_step. wp_call serve_selection_post; [exact Hs1| |done].
    intros [w'|] s2 [Hc Hw']; [by apply IH, Hw'|by wp_step].
  - by apply IH.
Qed.

(** A reply says [Delivered], of all the text, only when it was. *)
Definition transfer_truthful (requested : Z) (reply : TextTransferReply) (record : list Sent) : Prop :=
  TextTransferReply_target reply = request ∧
  TextTransferReply_requested_bytes reply = requested ∧
  match TextTransferReply_terminal reply with
  | TextTransferTerminal_Delivered =>
      TextTransferReply_delivered_bytes reply = requested ∧ delivered record
  | _ => TextTransferReply_delivered_bytes reply = 0
  end.

Lemma settle_truthful requested deadline now waiting reply (s : St) :
  waiting_inv waiting s → settle request requested deadline now waiting = Some reply →
  transfer_truthful requested reply (snd (snd s)).
Proof.
  intros [_ Hd]. unfold settle. destruct (_ || _) eqn:Hset.
  - intros [= <-]. split_and!; [done..|]. cbn. split; [done|]. apply Hd.
    destruct (last_delivery waiting); [by eexists|done].
  - case_match; [|done]. by intros [= <-].
Qed.

Lemma transfer_loop_post requested fuel deadline waiting (s : St) :
  waiting_inv waiting s →
  wp (transfer_loop owner request text requested permit fuel deadline waiting)
    (λ r s', confined_text (snd (snd s')) ∧
             ∀ reply, r = Some reply → transfer_truthful requested reply (snd (snd s')))
    (λ _ s', confined_text (snd (snd s'))) s.
Proof.
  revert waiting s. induction fuel as [|fuel IH]; intros waiting s Hs; cbn [transfer_loop].
  { wp_step. by split; [apply Hs|]. }
  wp_step. wp_call drain_post; [exact Hs| |done]. intros [waiting'|] s1 [Hc1 Hw1].
  2: { wp_step. split; [done|]. by intros reply [= <-]. }
  specialize (Hw1 _ eq_refl). wp_step. wp_call (keeps_waiting _ waiting' s1); [apply _|done| |done].
  intros current s2 Hs2. wp_step.
  { wp_step. split; [apply Hs2|]. by intros reply [= <-]. }
  wp_step. wp_call (keeps_waiting _ waiting' s2); [apply _|done| |done]. intros now s3 Hs3.
  destruct (settle request requested deadline now waiting') as [reply|] eqn:Hset.
  { wp_step. split; [apply Hs3|]. intros ? [= <-]. eapply settle_truthful; [exact Hs3|exact Hset]. }
  wp_step. wp_call (keeps_waiting _ waiting' s3); [apply _|done| |done]. intros [] s4 Hs4.
  by apply IH.
Qed.

Lemma confined_prefix record :
  confined_text record → ∃ body, record = [Sent_CreateWindow owner true] ++ body.
Proof.
  induction 1 as [|record entries _ [body ->]|record grab _ [body ->]].
  - by exists [].
  - exists (body ++ entries). by rewrite (assoc_L (++)).
  - exists (body ++ grab). by rewrite (assoc_L (++)).
Qed.

(** *** Cleanup *)

(** In the cleanup grab: the clipboard is given up if the provider owns it, and then the
    window is destroyed, unless the server fails before. *)
Definition cleanup_body (clip : Z) (reply : option Z) (given destroyed : bool) : list Sent :=
  match reply with
  | None => []
  | Some current =>
      (if current =? owner then [Sent_SetOwner NONE clip given] else []) ++
      (if (current =? owner) && negb given then [] else [Sent_DestroyWindow owner destroyed])
  end.

Definition cleanup (ok : bool) (entries : list Sent) : Prop :=
  (ok = false ∧ entries = [Sent_Grab false]) ∨
  ∃ clip reply given destroyed tail,
    entries = [Sent_Grab true; Sent_Owner clip reply] ++ cleanup_body clip reply given destroyed
                ++ [Sent_Ungrab] ++ tail ∧
    (tail = [] ∨ ∃ b, tail = [Sent_Sync b]) ∧
    (ok = true → is_Some reply ∧ given = true ∧ destroyed = true ∧ tail = [Sent_Sync true]).

Lemma give_up_post clip current (s : St) :
  wp ((if current =? owner
       then unavailable "cannot release X11 clipboard ownership"
              (set_selection_owner NONE clip)
       else ret tt) ;!
      unavailable "cannot destroy text-transfer owner window" (destroy_window owner))
    (λ _ s', snd (snd s') = snd (snd s) ++ cleanup_body clip (Some current) true true)
    (λ _ s', ∃ given destroyed,
       snd (snd s') = snd (snd s) ++ cleanup_body clip (Some current) given destroyed) s.
Proof.
  unfold cleanup_body. wp_step. destruct (current =? owner).
  - wp_call recorded_post.
    2: { intros e s1 [_ Hs1]. by exists false, false. }
    intros [] s1 [_ Hs1]. wp_call recorded_post; intros ? s2 [_ Hs2].
    + by rewrite Hs2, Hs1, <- (assoc_L (++)).
    + exists true, false. by rewrite Hs2, Hs1, <- (assoc_L (++)).
  - wp_step. wp_call recorded_post; intros ? s2 [_ Hs2]; [done|]. by exists true, false.
Qed.

Lemma release_post (s : St) :
  wp (release_transfer_owner owner)
    (λ _ s', ∃ l, snd (snd s') = snd (snd s) ++ l ∧ cleanup true l)
    (λ _ s', ∃ l, snd (snd s') = snd (snd s) ++ l ∧ cleanup false l) s.
Proof.
  unfold release_transfer_owner. wp_step. wp_call recorded_post.
  2: { intros e s1 [_ Hs1]. exists [Sent_Grab false]. split; [done|by left]. }
  intros [] s1 [Ho1 Hs1]. wp_step. unfold get at 1. wp_step. rewrite Ho1.
  set (clip := clipboard (atoms (fst s))).
  (* the end of the grab *)
  assert (∀ (r : result unit Failure) reply given destroyed (s2 : St),
    snd (snd s2) = snd (snd s) ++ [Sent_Grab true; Sent_Owner clip reply]
                     ++ cleanup_body clip reply given destroyed →
    (is_Some reply ∧ given = true ∧ destroyed = true ∨ ∃ e, r = Err e) →
    wp (let! released := attempt (or_unavailable "cannot request text-transfer cleanup ungrab"
                              "cannot release text-transfer cleanup grab" ungrab_server) in
        match r, released with
        | Ok _, Ok _ => unavailable "cannot synchronize text-transfer cleanup" sync
        | Err error, _ | Ok _, Err error => fail error
        end)
    (λ _ s', ∃ l, snd (snd s') = snd (snd s) ++ l ∧ cleanup true l)
    (λ _ s', ∃ l, snd (snd s') = snd (snd s) ++ l ∧ cleanup false l) s2) as Hend.
  { intros r reply given destroyed s2 Hs2 Hr.
    assert (∀ ok tail (s3 : St), snd (snd s3) = snd (snd s2) ++ [Sent_Ungrab] ++ tail →
      (tail = [] ∨ ∃ b, tail = [Sent_Sync b]) →
      (ok = true → is_Some reply ∧ given = true ∧ destroyed = true ∧ tail = [Sent_Sync true]) →
      ∃ l, snd (snd s3) = snd (snd s) ++ l ∧ cleanup ok l) as Hl.
    { intros ok tail s3 Hs3 Htail Hok. eexists. split; [by rewrite Hs3, Hs2, <- !(assoc_L (++))|].
      right. by exists clip, reply, given, destroyed, tail. }
    do 2 wp_step. wp_call recorded_post; intros u s3 [_ Hs3]; destruct r as [[]|e'].
    - wp_call recorded_post; intros v s4 [_ Hs4]; rewrite Hs3 in Hs4.
      + apply (Hl true [Sent_Sync true]); [by rewrite Hs4, <- (assoc_L (++))|right; by eexists|].
        destruct Hr as [Hr|[? ?]]; [|done]. intros _. naive_solver.
      + apply (Hl false [Sent_Sync false]); [by rewrite Hs4, <- (assoc_L (++))|right; by eexists|done].
    - wp_step. by apply (Hl false []); [|left|].
    - wp_step. by apply (Hl false []); [|left|].
    - wp_step. by apply (Hl false []); [|left|]. }
  do 2 wp_step. unfold clipboard_owner. do 2 wp_step. unfold get. wp_step. rewrite Ho1. fold clip.
  wp_call noted_post.
  2: { intros e s2 [_ Hs2]. apply (Hend (Err e) None true true); [|right; by eexists].
       rewrite Hs2, Hs1, <- !(assoc_L (++)). by rewrite app_nil_r. }
  intros current s2 [_ Hs2]. wp_call give_up_post.
  - intros [] s3 Hs3. apply (Hend (Ok tt) (Some current) true true); [|left; by split; [eexists|]].
    by rewrite Hs3, Hs2, Hs1, <- !(assoc_L (++)).
  - intros e s3 (given & destroyed & Hs3). apply (Hend (Err e) (Some current) given destroyed); [|right; by eexists].
    by rewrite Hs3, Hs2, Hs1, <- !(assoc_L (++)).
Qed.
End confinement.

(** ** The whole operation *)

Section transfer.
Context {W : Type} `{XServer W, XInput W, SharedSeat W, XIdentities W, XSelections W}.
Context (permit : SeatPermit).

Notation T := (W * list Sent)%type.
Notation St := (Observer * T)%type.
Notation sent := (λ s : Observer * T, snd (snd s)).

Definition text_of (request : TextInsertRequest) : bytes := as_str (TextInsertRequest_text request).

(** From the creation of the window to its destruction. *)
Definition owned_transfer (request : TextInsertRequest) (r : result (option TextTransferReply) Failure)
    (record : list Sent) : Prop :=
  ∃ owner body entries,
    record = [Sent_CreateWindow owner true] ++ body ++ entries ∧
    confined_text (TextInsertRequest_target request) (text_of request) permit owner
      ([Sent_CreateWindow owner true] ++ body) ∧
    cleanup owner (is_ok r) entries ∧
    ∀ reply, r = Ok (Some reply) →
      transfer_truthful (TextInsertRequest_target request) (text_of request)
        (len (text_of request)) reply ([Sent_CreateWindow owner true] ++ body).

Definition transfer_disciplined (request : TextInsertRequest)
    (r : result (option TextTransferReply) Failure) (record : list Sent) : Prop :=
  (is_ok r = false ∧ record = []) ∨
  (∃ owner, is_ok r = false ∧ record = [Sent_CreateWindow owner false]) ∨
  owned_transfer request r record.

Lemma truthful_valid request reply record :
  transfer_truthful (TextInsertRequest_target request) (text_of request) (len (text_of request))
    reply record →
  text_of request ≠ [] → TextTransferReply_validate reply = Ok tt.
Proof.
  intros (_ & Hr & Hterm) Hne. unfold TextTransferReply_validate. cbn.
  pose proof (as_str_le (TextInsertRequest_text request)) as Hle. fold (text_of request) in Hle.
  assert (len (text_of request) ≠ 0) by (by rewrite len_nil_iff).
  pose proof (len_nonneg (text_of request)). rewrite Hr.
  replace (len (text_of request) =? 0) with false by lia.
  replace (MAX_TEXT_TRANSFER_BYTES <? len (text_of request)) with false by (symmetry; apply Z.ltb_ge; exact Hle).
  destruct (TextTransferReply_terminal reply); destruct_and?;
    match goal with E : TextTransferReply_delivered_bytes _ = _ |- _ => rewrite E end;
    rewrite ?Z.eqb_refl; replace (_ <? _) with false by lia; done.
Qed.

(** The end of [text_insert], once the outcome of the transfer is known. *)
Lemma finish_transfer request owner (r : result (option TextTransferReply) Failure) (s : St) :
  confined_text (TextInsertRequest_target request) (text_of request) permit owner (snd (snd s)) →
  (∀ reply, r = Ok (Some reply) →
     transfer_truthful (TextInsertRequest_target request) (text_of request)
       (len (text_of request)) reply (snd (snd s))) →
  wp (let! cleanup := attempt (release_transfer_owner owner) in
      match r, cleanup with
      | Ok reply, Ok _ => ret reply
      | Err error, _ | Ok _, Err error => fail error
      end)
    (λ reply s', owned_transfer request (Ok reply) (snd (snd s')))
    (λ e s', owned_transfer request (Err e) (snd (snd s'))) s.
Proof.
  intros Hs Hr. destruct (confined_prefix _ _ _ _ _ Hs) as [body Hbody]. rewrite Hbody in *.
  do 2 wp_step. wp_call release_post.
  - intros [] s1 (l & Hs1 & Hl). destruct r as [reply|e]; wp_step.
    + exists owner, body, l. split_and!; [by rewrite Hs1, Hbody, <- (assoc_L (++))|done|done|].
      intros reply' [= ->]. by apply Hr.
    + exists owner, body, l. split_and!; [by rewrite Hs1, Hbody, <- (assoc_L (++))|done| |done].
      destruct Hl as [[? _]|(clip & reply & given & destroyed & tail & ? & ? & _)]; [done|].
      right. by exists clip, reply, given, destroyed, tail.
  - intros e s1 (l & Hs1 & Hl). destruct r as [reply|e']; wp_step;
      (exists owner, body, l; split_and!; [by rewrite Hs1, Hbody, <- (assoc_L (++))|done|done|done]).
Qed.

Lemma text_insert_post fuel request o w :
  wp (text_insert fuel request permit)
    (λ reply s', transfer_disciplined request (Ok reply) (snd (snd s')))
    (λ e s', transfer_disciplined request (Err e) (snd (snd s'))) (o, (w, [])).
Proof.
  unfold text_insert. cbv zeta. fold (text_of request). wp_step.
  apply wp_lift; [|intros; by left]. intros requested Hreq.
  assert (requested = len (text_of request)) as ->.
  { unfold checked_u32 in Hreq. destruct (checked_in _ _ _) as [v|] eqn:Hc; [|done].
    apply checked_in_Some in Hc as [-> _]. cbn in *. congruence. }
  wp_step. unfold create_transfer_owner. wp_step.
  wp_call (preserves_wp sent); [apply _| |intros e s1 Hs1; by left].
  intros owner s1 Hs1. cbn in Hs1. wp_step. unfold get. wp_step. wp_step.
  wp_call recorded_post.
  2: { intros e s2 [_ Hs2]. right. left. exists owner. by rewrite Hs2, Hs1. }
  intros [] s2 [_ Hs2]. rewrite Hs1 in Hs2. wp_step. do 2 wp_step.
  set (confined := confined_text (TextInsertRequest_target request) (text_of request) permit owner).
  assert (confined (snd (snd s2))) as Hc2 by (rewrite Hs2; constructor).
  assert (∀ (offered : result bool Failure) (s3 : St), confined (snd (snd s3)) →
    wp (let! result :=
          match offered with
          | Ok true => attempt (wait_for_transfer owner (TextInsertRequest_target request)
                         (text_of request) (len (text_of request)) permit fuel)
          | Ok false => ret (Ok (Some (transfer_reply (TextInsertRequest_target request)
                          (len (text_of request)) TextTransferTerminal_Interrupted)))
          | Err error => ret (Err error)
          end in
        let! cleanup := attempt (release_transfer_owner owner) in
        match result, cleanup with
        | Ok reply, Ok _ => ret reply
        | Err error, _ | Ok _, Err error => fail error
        end)
      (λ reply s', owned_transfer request (Ok reply) (snd (snd s')))
      (λ e s', owned_transfer request (Err e) (snd (snd s'))) s3) as Hrest.
  { intros offered s3 Hc3. wp_step. destruct offered as [[]|e].
    - wp_step. unfold wait_for_transfer. wp_step.
      wp_call (wp_sent (x11 instant_now) s3 _ _ eq_refl).
      + intros t s4 Hs4. wp_call transfer_loop_post.
        * split; [by rewrite Hs4|]. by intros [? ?].
        * intros reply s5 [Hc5 Ht]. apply (finish_transfer request owner (Ok reply)); [exact Hc5|].
          intros ? [= ->]. by apply Ht.
        * intros e s5 Hc5. by apply (finish_transfer request owner (Err e)).
      + intros e s4 Hs4. apply (finish_transfer request owner (Err e)); [|done]. cbn in Hs4. rewrite Hs4. exact Hc3.
    - wp_step. apply (finish_transfer request owner (Ok (Some _))); [exact Hc3|].
      by intros reply [= <-].
    - wp_step. by apply (finish_transfer request owner (Err e)). }
  assert (Appends (under_server_grab (W:=T) (offer (TextInsertRequest_target request) owner permit)))
    as Hoffer.
  { apply under_grab_appends. unfold offer, if_accepted, type_key, require_xres_client_identity,
      claim_transfer_selection, clipboard_owner. solve_appends. }
  wp_call (keeps_confined _ _ _ _ _ s2 Hoffer Hc2); intros r s3 Hc3.
  - wp_call (Hrest (Ok r) s3 Hc3); intros; by (right; right).
  - wp_call (Hrest (Err r) s3 Hc3); intros; by (right; right).
Qed.

End transfer.

(** ** The waiting ends *)

Section termination.
Context {W : Type} `{!XServer W, !XServerLaws W, !XInput W, !SharedSeat W, !XIdentities W,
  !XSelections W, !XInputLaws W, !XSelectionLaws W}.
Context (owner : Z) (request : TargetRequest) (text : bytes) (requested : Z) (permit : SeatPermit).

Notation St := (Observer * W)%type.
Notation time := (λ s : Observer * W, clock (snd s)).

#[local] Instance load_gate_time : Advances time (accepts (W:=W) permit).
Proof.
  intros [o w]. unfold accepts, x11, zoom, seat_accepts. cbn. pose proof (load_gate_clock w).
  by destruct (load_gate w).
Qed.
#[local] Instance now_time : Advances time (x11 (W:=W) (E:=Failure) instant_now).
Proof.
  intros [o w]. unfold x11, zoom, instant_now. cbn. pose proof (now_clock w).
  destruct (now w). cbn in *. lia.
Qed.
#[local] Instance under_grab_time {A} (action : M St Failure A) :
  Advances time action → Advances time (under_server_grab action).
Proof. intros. unfold under_server_grab. solve_advances. Qed.
#[local] Instance focus_ancestry_time n target window :
  Advances time (focus_ancestry (W:=W) n target window).
Proof. revert window. induction n; intros; cbn [focus_ancestry]; unfold tree; solve_advances. Qed.
#[local] Instance focused_target_time : Advances time (focused_target (W:=W) request).
Proof. unfold focused_target, observed_target, require_focus_owned_by. solve_advances. Qed.
#[local] Instance clipboard_owner_time message : Advances time (clipboard_owner (W:=W) message).
Proof. unfold clipboard_owner. solve_advances. Qed.
#[local] Instance xres_time window : Advances time (require_xres_client_identity (W:=W) window).
Proof. unfold require_xres_client_identity. solve_advances. Qed.
#[local] Instance handle_request_time event :
  Advances time (handle_selection_request (W:=W) event owner request text permit).
Proof.
  unfold handle_selection_request, same_x_client, serve_request, publish_targets, refuse,
    deliver_text, notify_selection. apply under_grab_time. solve_advances.
Qed.
#[local] Instance serve_time event n waiting :
  Advances time (serve_selection (W:=W) owner request text permit event n waiting).
Proof. unfold serve_selection. cbv zeta. solve_advances. Qed.
#[local] Instance drain_time budget waiting :
  Advances time (drain_events (W:=W) owner request text permit budget waiting).
Proof.
  revert waiting. induction budget; intros; cbn [drain_events]; solve_advances.
Qed.
#[local] Instance evidence_time :
  Advances time (transfer_evidence_is_current (W:=W) owner request permit).
Proof.
  unfold transfer_evidence_is_current. apply bind_advances; [|apply _].
  apply attempt_advances, under_grab_time. solve_advances.
Qed.

Lemma drain_le budget waiting (s : St) :
  wp (drain_events owner request text permit budget waiting)
    (λ r _, ∀ waiting', r = Some waiting' → (events_left waiting' ≤ budget)%nat) (λ _ _, True) s.
Proof.
  revert waiting s. induction budget as [|budget IH]; intros waiting s; cbn [drain_events];
    wp_step; (eapply wp_mono; [apply wp_any| |done]); intros [event|] s1 _;
    try (by wp_step; intros ? [= <-]).
  assert (∀ w s2, wp (drain_events owner request text permit budget w)
    (λ r _, ∀ waiting', r = Some waiting' → (events_left waiting' ≤ S budget)%nat) (λ _ _, True) s2) as Hnext.
  { intros w s2. wp_call IH; [|done]. intros r s3 Hr w' Hw'. specialize (Hr w' Hw'). lia. }
  wp_step. unfold get. wp_step. destruct event as [a b|event|].
  - wp_step; [by wp_step|]. apply Hnext.
  - wp_step; [|apply Hnext]. wp_step. eapply wp_mono; [apply wp_any| |done].
    intros [w'|] s2 _; [apply Hnext|by wp_step].
  - apply Hnext.
Qed.

(** Draining uses up the event that was there, or changes nothing but the clock. *)
Lemma drain_progress budget waiting (s : St) :
  wp (drain_events owner request text permit budget waiting)
    (λ r _, ∀ waiting', r = Some waiting' →
       (events_left waiting' ≤ budget)%nat ∧
       ((events_left waiting' < budget)%nat ∨
        (last_delivery waiting' = last_delivery waiting ∧
         ∀ event w1, poll_for_event (snd s) ≠ (Ok (Some event), w1)))) (λ _ _, True) s.
Proof.
  assert (∀ (m : M W XError (option XEvent)) a b,
    wp (or_unavailable a b m) (λ x s', (m (snd s)).1 = Ok x) (λ _ _, True) s) as Hremember.
  { intros m a b. destruct s as [o w]. unfold or_unavailable, x11, zoom, map_error, wp. cbn.
    by destruct (m w) as [[] ?]. }
  destruct budget as [|budget]; cbn [drain_events]; wp_step; (wp_call Hremember; [|done]);
    intros [event|] s1 Hpoll.
  2, 4: wp_step; intros ? [= <-]; split; [done|]; right; split; [done|];
    intros ? ? Hp; rewrite Hp in Hpoll; done.
  - by wp_step.
  - assert (∀ w s2, wp (drain_events owner request text permit budget w)
      (λ r _, ∀ waiting', r = Some waiting' →
         (events_left waiting' ≤ S budget)%nat ∧
         ((events_left waiting' < S budget)%nat ∨
          (last_delivery waiting' = last_delivery waiting ∧
           ∀ event w1, poll_for_event (snd s) ≠ (Ok (Some event), w1)))) (λ _ _, True) s2) as Hnext.
    { intros w s2. wp_call drain_le; [|done]. intros r s3 Hr w' Hw'. specialize (Hr w' Hw'). lia. }
    wp_step. unfold get. wp_step. destruct event as [a b|event|].
    + wp_step; [by wp_step|]. apply Hnext.
    + wp_step; [|apply Hnext]. wp_step. eapply wp_mono; [apply wp_any| |done].
      intros [w'|] s2 _; [apply Hnext|by wp_step].
    + apply Hnext.
Qed.

(** The whole intervals until the deadline. *)
Definition intervals (deadline : Z) (s : St) : Z :=
  (Z.max 0 (deadline - clock (snd s)) + EVIDENCE_INTERVAL - 1) / EVIDENCE_INTERVAL.

(** The next round reads an event, or ends. *)
Definition promised (deadline : Z) (waiting : Waiting) (s : St) : Prop :=
  (∃ event w1, poll_for_event (snd s) = (Ok (Some event), w1)) ∨
  ∀ now left requests, clock (snd s) ≤ now →
    settle request requested deadline now
      {| events_left := left; selection_requests := requests;
         last_delivery := last_delivery waiting |} ≠ None.

Lemma intervals_mono deadline (s s' : St) :
  clock (snd s) ≤ clock (snd s') → intervals deadline s' ≤ intervals deadline s.
Proof. intros. unfold intervals. apply Z.div_le_mono; unfold EVIDENCE_INTERVAL, NANOS_PER_MS; lia. Qed.

Lemma intervals_step deadline (s s' : St) :
  clock (snd s) + EVIDENCE_INTERVAL ≤ clock (snd s') →
  clock (snd s) < deadline →
  intervals deadline s' + 1 ≤ intervals deadline s.
Proof.
  intros Hadv Hlt. unfold intervals, EVIDENCE_INTERVAL, NANOS_PER_MS in *.
  Z.div_mod_to_equations. lia.
Qed.

Lemma settle_last_delivery deadline now waiting waiting' :
  last_delivery waiting' = last_delivery waiting →
  settle request requested deadline now waiting' = settle request requested deadline now waiting.
Proof. unfold settle. by intros ->. Qed.

(** After a wait the next round is promised, unless a whole interval passed. *)
Lemma wait_progress deadline now waiting (s : St) :
  now ≤ clock (snd s) → settle request requested deadline now waiting = None →
  let w' := (wait_readable (wait_time deadline now waiting) (snd s)).2 in
  promised deadline waiting (fst s, w') ∨
  (clock (snd s) + EVIDENCE_INTERVAL ≤ clock w' ∧ clock (snd s) < deadline).
Proof.
  intros Hnow Hset w'.
  destruct (wait_readable_clock (wait_time deadline now waiting) (snd s)) as [Hmono [Hw|Hev]].
  2: { left. by left. }
  fold w' in Hw, Hmono. unfold settle in Hset. destruct (_ || _) eqn:Hdel; [done|].
  destruct (Z.leb_spec deadline now); [done|]. apply orb_false_iff in Hdel as [Hdel _].
  unfold wait_time in Hw.
  assert (∀ left requests now', clock w' ≤ now' → deadline ≤ now' →
    settle request requested deadline now' {| events_left := left; selection_requests := requests;
         last_delivery := last_delivery waiting |} ≠ None) as Hdue.
  { intros left requests now' _ Hd. unfold settle. destruct (_ || _); [done|].
    by replace (deadline <=? now') with true by lia. }
  destruct (Z.le_gt_cases deadline (clock (snd s))) as [Hover|Hbefore].
  { left. right. cbn [snd]. intros now' left requests Hn'. apply Hdue; lia. }
  destruct (Z.le_gt_cases EVIDENCE_INTERVAL (wait_time deadline now waiting)) as [Hlong|Hshort].
  { right. unfold wait_time in Hlong. split; lia. }
  left. right. cbn [snd]. intros now' left requests Hn'. unfold wait_time in Hshort.
  destruct (last_delivery waiting) as [delivery|] eqn:Hlast.
  - cbn in Hdel. apply Z.leb_gt in Hdel.
    destruct (Z.le_gt_cases deadline now') as [?|Hsettle]; [by apply Hdue|].
    unfold settle. cbn [last_delivery is_some_and].
    replace (TRANSFER_SETTLE_WAIT <=? Z.max 0 (now' - delivery)) with true; [done|].
    symmetry. apply Z.leb_le. unfold TRANSFER_SETTLE_WAIT, EVIDENCE_INTERVAL, NANOS_PER_MS in *. lia.
  - apply Hdue; [done|]. lia.
Qed.

Lemma transfer_loop_ends fuel deadline waiting (s : St) (promise : bool) :
  (promise = true → promised deadline waiting s) →
  2 * Z.of_nat (events_left waiting) + intervals deadline s + (if promise then 1 else 2) ≤ Z.of_nat fuel →
  (transfer_loop owner request text requested permit fuel deadline waiting s).1 ≠ Ok None.
Proof.
  revert waiting s promise. induction fuel as [|fuel IH]; intros waiting s promise Hprom Hfuel.
  { assert (0 ≤ intervals deadline s)
      by (apply Z.div_pos; unfold EVIDENCE_INTERVAL, NANOS_PER_MS; lia). destruct promise; lia. }
  cbn [transfer_loop]. unfold bind at 1.
  pose proof (drain_time (events_left waiting) waiting s) as Ht1.
  pose proof (drain_progress (events_left waiting) waiting s) as Hprog. unfold wp in Hprog.
  destruct (drain_events owner request text permit (events_left waiting) waiting s)
    as [[[waiting'|]|e] s1]; [|done|done].
  destruct (Hprog _ eq_refl) as [Hle Hprog']. clear Hprog. cbn [snd] in Ht1.
  unfold bind at 1. pose proof (evidence_time s1) as Ht2.
  destruct (transfer_evidence_is_current owner request permit s1) as [[current|e] s2]; [|done].
  cbn [snd] in Ht2. destruct current; [|done]. cbn [negb].
  unfold bind at 1, x11, zoom, instant_now. pose proof (now_clock (snd s2)) as Hnow.
  destruct (now (snd s2)) as [t w3]. cbn [fst snd] in Hnow.
  destruct (settle request requested deadline t waiting') as [reply|] eqn:Hset; [done|].
  unfold bind at 1, or_unavailable, x11, zoom, map_error. cbn [fst snd].
  pose proof (wait_progress deadline t waiting' (fst s2, w3)) as Hwait. cbn [fst snd] in Hwait.
  pose proof (wait_readable_clock (wait_time deadline t waiting') w3) as [Hmono _].
  destruct (wait_readable (wait_time deadline t waiting') w3) as [[[]|e] w4]; [|done].
  cbn [fst snd map_err] in *.
  assert (intervals deadline (fst s2, w4) ≤ intervals deadline s) as Hint
    by (apply intervals_mono; cbn [snd]; lia).
  destruct Hprog' as [Hless|[Hlast Hnone]].
  - apply (IH _ _ false); [done|]. destruct promise; lia.
  - destruct promise.
    { exfalso. destruct (Hprom eq_refl) as [(event & w1 & Hpoll)|Hdue]; [by apply (Hnone event w1)|].
      apply (Hdue t (events_left waiting') (selection_requests waiting')); [lia|]. rewrite <- Hset.
      apply settle_last_delivery. cbn. congruence. }
    destruct Hwait as [Hnext|[Hadv Hlong]]; [lia|done|..].
    + apply (IH _ _ true); [done|]. lia.
    + apply (IH _ _ false); [done|].
      assert (intervals deadline (fst s2, w4) + 1 ≤ intervals deadline (fst s2, w3)).
      { by apply intervals_step. }
      assert (intervals deadline (fst s2, w3) ≤ intervals deadline s)
        by (apply intervals_mono; cbn [snd]; lia).
      lia.
Qed.

(** Rounds that are enough: two for each event, one for each interval, and two more. *)
Definition transfer_rounds : nat :=
  2 * MAX_TRANSFER_EVENTS + Z.to_nat ((TRANSFER_WAIT + EVIDENCE_INTERVAL - 1) / EVIDENCE_INTERVAL) + 2.

Lemma wait_for_transfer_ends fuel (s : St) :
  (transfer_rounds ≤ fuel)%nat →
  (wait_for_transfer owner request text requested permit fuel s).1 ≠ Ok None.
Proof.
  intros Hf. unfold wait_for_transfer, bind, x11, zoom, instant_now.
  pose proof (now_clock (snd s)) as Hnow. destruct (now (snd s)) as [t w1]. cbn [fst snd] in *.
  apply (transfer_loop_ends _ _ _ _ false); [done|]. cbn [events_left].
  assert (intervals (t + TRANSFER_WAIT) (fst s, w1) ≤ (TRANSFER_WAIT + EVIDENCE_INTERVAL - 1) / EVIDENCE_INTERVAL).
  { unfold intervals. cbn [snd].
    apply Z.div_le_mono; unfold TRANSFER_WAIT, EVIDENCE_INTERVAL, NANOS_PER_MS; lia. }
  unfold transfer_rounds in Hf.
  assert (0 ≤ (TRANSFER_WAIT + EVIDENCE_INTERVAL - 1) / EVIDENCE_INTERVAL) by (by compute). lia.
Qed.
End termination.

(** A text transfer ends.  On a server whose operations do not turn back the clock,
    and with a [poll(2)] that returns when there is an event to read or its timeout has
    passed, [text_insert] gives its result within two rounds for each of the 256 events it
    is willing to read, one for each 50 ms of its two seconds, and two more. *)
Theorem text_transfer_terminates {W : Type} `{XSelectionLaws W, !XServerLaws W, !XInputLaws W}
    fuel (request : TextInsertRequest) permit (s : Observer * W) :
  (transfer_rounds ≤ fuel)%nat → (text_insert fuel request permit s).1 ≠ Ok None.
Proof.
  intros Hf. apply wp_not_None. unfold text_insert. cbv zeta. wp_step. apply wp_lift; [|done].
  intros requested _. wp_step. eapply wp_mono; [apply wp_any| |done]. intros owner s1 _.
  do 2 wp_step. eapply wp_mono with (R := λ _ _, True); [apply wp_any|intros offered s2 _..].
  - wp_step. destruct offered.
    + wp_step. pose proof (wait_for_transfer_ends owner (TextInsertRequest_target request)
        (as_str (TextInsertRequest_text request)) requested permit fuel s2 Hf) as Hend.
      unfold wp. destruct (wait_for_transfer _ _ _ _ _ _ s2) as [[reply|e] s3]; cbn in Hend.
      * unfold bind, attempt. destruct (release_transfer_owner owner s3) as [[]]; cbn; [|done]. by intros ->.
      * unfold bind, attempt. by destruct (release_transfer_owner owner s3) as [[]].
    + wp_step. do 2 wp_step. eapply wp_mono with (R := λ _ _, True); [apply wp_any|..]; intros; by wp_step.
  - wp_step. wp_step. do 2 wp_step. eapply wp_mono with (R := λ _ _, True); [apply wp_any|..]; intros; by wp_step.
Qed.

(** ** A concrete server

    The desktop of [InputToy], on which nobody asks for the selection. *)
Module TransferToy.
Import ObserverRuns.Toy InputToy.

#[export] Instance identities : XIdentities World := { generate_id := ret 500 }.

Definition advance (d : Z) (w : World) : World :=
  {| world_clock := world_clock w + Z.max 0 d; world_windows := world_windows w |}.

#[export] Instance selections : XSelections World := {
  create_window window parent := ret tt;
  destroy_window window := ret tt;
  set_selection_owner owner selection := ret tt;
  get_selection_owner selection := ret 500;
  poll_for_event := ret None;
  change_property32 window property type data := ret tt;
  change_property8 window property type data := ret tt;
  send_selection_notify destination event := ret tt;
  res_query_version major minor := ret (1, 2);
  res_query_client_ids window mask :=
    ret [ {| client_spec_client := window; client_spec_mask := CLIENT_XID; client_value := [] |} ];
  wait_readable timeout := modify (advance timeout)
}.

#[export] Instance input_laws : XInputLaws World.
Proof. split; intros; first [by intros ?; cbn; lia | by cbn; lia]. Qed.

#[export] Instance selection_laws : XSelectionLaws World.
Proof.
  split; intros; first [by intros w'; cbn; lia | idtac].
  split; [|left]; cbn; unfold advance; cbn; lia.
Qed.

Definition toy_text : TextInsertRequest :=
  {| TextInsertRequest_target := toy_target;
     TextInsertRequest_text := mkBoundedText (MAX := MAX_TEXT_TRANSFER_BYTES) (bstr "text") eq_refl |}.

Lemma text_transfer_terminates_witness :
  (text_insert transfer_rounds toy_text 1 subscribed).1 ≠ Ok None ∧
  (wait_for_transfer 500 toy_target (bstr "text") 4 1 transfer_rounds subscribed).1
  = Ok (Some (transfer_reply toy_target 4 TextTransferTerminal_Offered)).
Proof.
  split; [|vm_compute; reflexivity].
  exact (text_transfer_terminates transfer_rounds toy_text 1 subscribed (le_n _)).
Defined.
End TransferToy.
