(* ===== verification/PolicyTheorems.v ===== *)
(** * Properties of the policy

    Validation accepts exactly the well-formed policies; the editor's draft always holds a
    valid policy and a document that says the same; and the policy grants only what it
    lists, to the provider's own user. *)

From stdpp Require Import sets gmap fin_maps.
From S2P Require Import Prelude Text Bounded Protocol Message MessageSpec Effects Config Policy.

(** ** Well-formed policies *)

(** What a capability depends on. *)
Definition prerequisite (capability : Capability) : option Capability :=
  match capability with
  | Capability_ObserveStructure | Capability_LaunchList => None
  | Capability_LaunchExecute => Some Capability_LaunchList
  | _ => Some Capability_ObserveStructure
  end.

Definition grant_wf (uid : Z) (grant : RawGrant) : Prop :=
  let capabilities := as_slice (RawGrant_capabilities grant) in
  RawGrant_uid grant = uid ∧ NoDup capabilities ∧
  ∀ capability needed, capability ∈ capabilities → prerequisite capability = Some needed →
    needed ∈ capabilities.

Definition canonical_id (application : ApplicationId) : Prop :=
  desktop_id (as_str application) ∧ 47 ∉ as_str application ∧ 0 ∉ as_str application.

Definition launch_wf (launch : RawLaunch) : Prop :=
  let allow := as_slice (RawLaunch_allow launch) in
  let deny := as_slice (RawLaunch_deny launch) in
  Forall canonical_id allow ∧ NoDup allow ∧ Forall canonical_id deny ∧ NoDup deny ∧
  ∀ application, application ∈ allow → application ∉ deny.

Definition raw_wf (uid : Z) (raw : RawConfig) : Prop :=
  1 ≤ RawConfig_max_sessions raw ≤ 32 ∧
  1 ≤ RawConfig_max_requests_per_session raw ≤ 4096 ∧
  50 ≤ RawConfig_io_timeout_ms raw ≤ 10000 ∧
  opt (grant_wf uid) (RawConfig_grant raw) ∧ launch_wf (RawConfig_launch raw).

(** The unsigned fields. *)
Definition raw_typed (raw : RawConfig) : Prop :=
  0 ≤ RawConfig_max_sessions raw ∧ 0 ≤ RawConfig_max_requests_per_session raw.

(** The policy a valid file stands for. *)
Definition config_of (raw : RawConfig) : Config :=
  {| Config_max_sessions := RawConfig_max_sessions raw;
     Config_max_requests := RawConfig_max_requests_per_session raw;
     Config_io_timeout := RawConfig_io_timeout_ms raw * NANOS_PER_MILLI;
     Config_grant := (λ grant, {| Grant_uid := RawGrant_uid grant;
                                  Grant_capabilities := RawGrant_capabilities grant |})
                       <$> RawConfig_grant raw;
     Config_observation :=
       {| Observation_clients := RawObservation_clients (RawConfig_observation raw);
          Observation_titles := RawObservation_titles (RawConfig_observation raw) |};
     Config_launch :=
       {| LaunchPolicy_mode := RawLaunch_mode (RawConfig_launch raw);
          LaunchPolicy_allow := RawLaunch_allow (RawConfig_launch raw);
          LaunchPolicy_deny := RawLaunch_deny (RawConfig_launch raw);
          LaunchPolicy_allow_user_entries := RawLaunch_allow_user_entries (RawConfig_launch raw) |};
     Config_input :=
       {| InputPolicy_provider_private_devices :=
            RawInput_provider_private_devices (RawConfig_input raw) |} |}.

Lemma repeats_false {A} `{EqDecision A} (before l : list A) :
  NoDup before → repeats before l = false ↔ NoDup (before ++ l).
Proof.
  revert before. induction l as [|x l IH]; intros before Hb; cbn [repeats].
  { by rewrite app_nil_r. }
  rewrite orb_false_iff, bool_decide_eq_false.
  replace (before ++ x :: l) with ((before ++ [x]) ++ l) by (by rewrite <- (assoc_L (++))).
  split.
  - intros [Hx Hl]. apply IH in Hl; [done|]. apply NoDup_app. split_and!; [done| |apply NoDup_singleton].
    set_solver.
  - intros Hnd. pose proof Hnd as Hnd'. apply NoDup_app in Hnd' as (Hbx & _ & _).
    split; [|by apply IH]. apply NoDup_app in Hbx as (_ & Hdis & _). set_solver.
Qed.

Lemma member_existsb (c : Capability) caps :
  bool_decide (c ∈ caps) = existsb (λ x, bool_decide (x = c)) caps.
Proof.
  apply eq_true_iff_eq. rewrite bool_decide_eq_true, existsb_exists. split.
  - intros Hc. exists c. split; [by apply list_elem_of_In|by apply bool_decide_eq_true].
  - intros (x & Hx & ->%bool_decide_eq_true). by apply list_elem_of_In.
Qed.

(** One of the dependency tests. *)
Lemma dependency_test (f : Capability → bool) needed caps :
  existsb f caps && negb (bool_decide (needed ∈ caps)) = false
  ↔ ∀ c, c ∈ caps → f c = true → needed ∈ caps.
Proof.
  rewrite andb_false_iff, negb_false_iff, bool_decide_eq_true. split.
  - intros [Hf|Hn] c Hc Hfc; [|done]. exfalso.
    assert (existsb f caps = true) as Ht; [|congruence].
    apply existsb_exists. exists c. split; [by apply list_elem_of_In|done].
  - intros Hall. destruct (existsb f caps) eqn:Hf; [right|by left].
    apply existsb_exists in Hf as (c & Hc & Hfc). apply (Hall c); [by apply list_elem_of_In|done].
Qed.

Lemma RawGrant_validate_exact grant uid g :
  RawGrant_validate grant uid = Ok g
  ↔ grant_wf uid grant ∧
    g = {| Grant_uid := RawGrant_uid grant; Grant_capabilities := RawGrant_capabilities grant |}.
Proof.
  unfold RawGrant_validate, grant_wf. cbv zeta. set (caps := as_slice (RawGrant_capabilities grant)).
  destruct (Z.eqb_spec (RawGrant_uid grant) uid) as [Huid|Huid]; cbn [negb]; [|naive_solver].
  destruct (repeats [] caps) eqn:Hrep.
  { split; [done|]. intros [(_ & Hnd & _) _].
    apply (repeats_false [] caps) in Hnd; [congruence|constructor]. }
  apply (repeats_false [] caps) in Hrep; [|constructor]. cbn [app] in Hrep.
  rewrite (member_existsb Capability_ObserveTitles), (member_existsb Capability_ObserveEvents),
    (member_existsb Capability_LaunchExecute), (member_existsb Capability_CaptureObscured).
  assert (∀ f needed message (rest : result Grant string),
    (∀ c, f c = true → prerequisite c = Some needed) →
    (existsb f caps && negb (bool_decide (needed ∈ caps)) = false →
     rest = Ok g ↔ (RawGrant_uid grant = uid ∧ NoDup caps ∧
       ∀ c needed, c ∈ caps → prerequisite c = Some needed → needed ∈ caps) ∧
       g = {| Grant_uid := RawGrant_uid grant; Grant_capabilities := RawGrant_capabilities grant |}) →
    (if existsb f caps && negb (bool_decide (needed ∈ caps)) then Err message else rest) = Ok g
    ↔ (RawGrant_uid grant = uid ∧ NoDup caps ∧
       ∀ c needed, c ∈ caps → prerequisite c = Some needed → needed ∈ caps) ∧
       g = {| Grant_uid := RawGrant_uid grant; Grant_capabilities := RawGrant_capabilities grant |})
    as Htest.
  { intros f needed message rest Hf Hrest. destruct (_ && _) eqn:Ht; [|by apply Hrest].
    split; [done|]. intros [(_ & _ & Hpre) _]. exfalso.
    assert (existsb f caps && negb (bool_decide (needed ∈ caps)) = false); [|congruence].
    apply dependency_test. eauto. }
  do 6 (apply Htest; [by intros []|]; intros Hd; pose proof (proj1 (dependency_test _ _ _) Hd); clear Hd).
  split; [|by intros [_ ->]]. intros [= <-]. split; [|done]. split_and!; [done..|].
  intros c needed Hc. destruct c; intros [= <-]; eauto 2 using bool_decide_eq_true_2.
Qed.

Lemma check_application_ids_exact field before applications :
  NoDup before →
  check_application_ids field before applications = Ok tt
  ↔ Forall canonical_id applications ∧ NoDup (before ++ applications).
Proof.
  revert before. induction applications as [|a l IH]; intros before Hb; cbn [check_application_ids].
  { rewrite app_nil_r. naive_solver. }
  cbv zeta. replace (before ++ a :: l) with ((before ++ [a]) ++ l) by (by rewrite <- (assoc_L (++))).
  destruct (_ || _) eqn:Hc.
  { split; [done|]. intros [Hf _]. exfalso. apply Forall_cons in Hf as [(Hd & H47 & H0) _].
    assert (is_empty (as_str a) = false) as E1 by (apply is_empty_false; by apply desktop_id_nonempty).
    apply ends_with_desktop in Hd. by rewrite E1, Hd, !bool_decide_false in Hc. }
  bool_props.
  assert (canonical_id a) as Ha by (split; [by apply ends_with_desktop|done]).
  destruct (bool_decide (a ∈ before)) eqn:Hin; bool_props.
  { split; [done|]. intros [_ Hnd]. apply NoDup_app in Hnd as (Hnd & _ & _).
    apply NoDup_app in Hnd as (_ & Hdis & _). exfalso. apply (Hdis a); [done|set_solver]. }
  rewrite IH.
  - rewrite Forall_cons. naive_solver.
  - apply NoDup_app. split_and!; [done|set_solver|apply NoDup_singleton].
Qed.

Lemma RawLaunch_validate_exact launch l :
  RawLaunch_validate launch = Ok l ↔ launch_wf launch ∧ l = Config_launch
    (config_of {| RawConfig_enabled := true; RawConfig_max_sessions := 0;
                  RawConfig_max_requests_per_session := 0; RawConfig_io_timeout_ms := 0;
                  RawConfig_grant := None;
                  RawConfig_observation := {| RawObservation_clients := ClientScope_None;
                                              RawObservation_titles := false |};
                  RawConfig_launch := launch;
                  RawConfig_input := {| RawInput_provider_private_devices := false |} |}).
Proof.
  unfold RawLaunch_validate, launch_wf, validate_application_ids. cbv zeta. cbn.
  set (allow := as_slice (RawLaunch_allow launch)). set (deny := as_slice (RawLaunch_deny launch)).
  pose proof (check_application_ids_exact "launch.allow" [] allow (NoDup_nil_2)) as Hallow.
  pose proof (check_application_ids_exact "launch.deny" [] deny (NoDup_nil_2)) as Hdeny.
  cbn [app] in *.
  destruct (check_application_ids "launch.allow" [] allow) as [[]|e]; cbn; [|naive_solver].
  destruct (check_application_ids "launch.deny" [] deny) as [[]|e]; cbn; [|naive_solver].
  destruct (proj1 Hallow eq_refl) as [? ?]. destruct (proj1 Hdeny eq_refl) as [? ?].
  destruct (existsb _ allow) eqn:Hover.
  - split; [done|]. intros [(_ & _ & _ & _ & Hdis) _].
    apply existsb_exists in Hover as (a & Ha & Hd%bool_decide_eq_true). exfalso.
    apply (Hdis a); [by apply list_elem_of_In|done].
  - split; [|by intros [_ ->]]. intros [= <-]. split; [|done]. split_and!; [done..|].
    intros a Ha Hd. assert (existsb (λ a, bool_decide (a ∈ deny)) allow = true); [|congruence].
    apply existsb_exists. exists a. split; [by apply list_elem_of_In|by apply bool_decide_eq_true].
Qed.

Lemma RawConfig_validate_spec uid raw config :
  raw_typed raw →
  RawConfig_validate raw uid = Ok config ↔ raw_wf uid raw ∧ config = config_of raw.
Proof.
  intros [Hs Hr]. unfold RawConfig_validate, raw_wf, MAX_SESSIONS, MAX_REQUESTS, MIN_IO_TIMEOUT_MS,
    MAX_IO_TIMEOUT_MS.
  destruct ((RawConfig_max_sessions raw =? 0) || _) eqn:Hsessions.
  { split; [done|]. apply orb_true_iff in Hsessions. lia. }
  destruct ((RawConfig_max_requests_per_session raw =? 0) || _) eqn:Hrequests.
  { split; [done|]. apply orb_true_iff in Hrequests. lia. }
  destruct (negb _) eqn:Htimeout.
  { split; [done|]. apply negb_true_iff, andb_false_iff in Htimeout. lia. }
  bool_props. unfold RawInput_validate.
  pose proof (RawLaunch_validate_exact (RawConfig_launch raw)) as Hlaunch.
  destruct raw as [enabled sessions requests timeout grant observation launch input]. cbn in *.
  destruct grant as [grant|]; cbn.
  - pose proof (RawGrant_validate_exact grant uid) as Hgrant.
    destruct (RawGrant_validate grant uid) as [g|e]; cbn.
    + destruct (proj1 (Hgrant g) eq_refl) as [? ->].
      destruct (RawLaunch_validate launch) as [l|e]; cbn.
      * destruct (proj1 (Hlaunch l) eq_refl) as [? ->]. split; [intros [= <-]|by intros [_ ->]].
        split; [|done]. split_and!; [lia..|by intros ? [= <-]|done].
      * split; [done|]. intros [(_ & _ & _ & _ & Hl) _]. exfalso.
        discriminate (proj2 (Hlaunch _) (conj Hl eq_refl)).
    + split; [done|]. intros [(_ & _ & _ & Hg & _) _]. exfalso.
      discriminate (proj2 (Hgrant _) (conj (Hg _ eq_refl) eq_refl)).
  - destruct (RawLaunch_validate launch) as [l|e]; cbn.
    + destruct (proj1 (Hlaunch l) eq_refl) as [? ->]. split; [intros [= <-]|by intros [_ ->]].
      split; [|done]. split_and!; [lia..|by intros ? [=]|done].
    + split; [done|]. intros [(_ & _ & _ & _ & Hl) _]. exfalso.
      discriminate (proj2 (Hlaunch _) (conj Hl eq_refl)).
Qed.

(** C32: policy validation is exact.  A policy is accepted for a user exactly when its
    limits are in range, its grant (if any) is for that user, lists no capability twice,
    and with every capability lists the one it depends on, and its launch lists hold
    canonical desktop IDs, none twice and none in both; the policy is then the one the
    file says, with the time limit in nanoseconds. *)
Theorem policy_validation_exact uid raw config :
  raw_typed raw →
  RawConfig_validate raw uid = Ok config ↔ raw_wf uid raw ∧ config = config_of raw.
Proof. apply RawConfig_validate_spec. Qed.

(** ** The draft *)

(** Fields of an unsigned type hold values of it. *)
Definition raw_in_range (raw : RawConfig) : Prop :=
  0 ≤ RawConfig_max_sessions raw ≤ 255 ∧ is_u16 (RawConfig_max_requests_per_session raw) ∧
  is_u32 (RawConfig_io_timeout_ms raw).

Inductive PolicyEdit :=
| Edit_enabled (enabled : bool)
| Edit_limits (max_sessions max_requests io_timeout : Z)
| Edit_capabilities (capabilities : list Capability)
| Edit_clear_grant
| Edit_observation (clients : ClientScope) (titles : bool)
| Edit_launch (mode : LaunchMode) (allow deny : list ApplicationId) (allow_user_entries : bool)
| Edit_launch_mode (mode : LaunchMode).

Definition edit_in_range (edit : PolicyEdit) : Prop :=
  match edit with
  | Edit_limits s r t => 0 ≤ s ≤ 255 ∧ is_u16 r ∧ is_u32 t
  | _ => True
  end.

(** What an edit asks for; nothing if a list is over its bound. *)
Definition edited (euid : Z) (edit : PolicyEdit) (raw : RawConfig) : option RawConfig :=
  match edit with
  | Edit_enabled enabled => Some (with_enabled enabled raw)
  | Edit_limits s r t => Some (with_limits s r t raw)
  | Edit_capabilities l =>
      list ← result_ok (BoundedList_new l);
      Some (with_grant (Some {| RawGrant_uid := euid; RawGrant_capabilities := list |}) raw)
  | Edit_clear_grant => Some (with_grant None raw)
  | Edit_observation clients titles =>
      Some (with_observation {| RawObservation_clients := clients;
                                RawObservation_titles := titles |} raw)
  | Edit_launch mode allow deny user =>
      allow ← result_ok (BoundedList_new allow);
      deny ← result_ok (BoundedList_new deny);
      Some (with_launch {| RawLaunch_mode := mode; RawLaunch_allow := allow;
                           RawLaunch_deny := deny; RawLaunch_allow_user_entries := user |} raw)
  | Edit_launch_mode mode =>
      let launch := RawConfig_launch raw in
      Some (with_launch {| RawLaunch_mode := mode; RawLaunch_allow := RawLaunch_allow launch;
                           RawLaunch_deny := RawLaunch_deny launch;
                           RawLaunch_allow_user_entries := RawLaunch_allow_user_entries launch |} raw)
  end.

Section draft.
Context {D : Type} `{TomlDocumentLaws D}.
Context (euid : Z) (Heuid : is_u32 euid).

Definition run_edit (edit : PolicyEdit) : M (PolicyDraft D) string unit :=
  match edit with
  | Edit_enabled enabled => set_enabled enabled
  | Edit_limits s r t => set_resource_limits euid s r t
  | Edit_capabilities l => set_capabilities euid l
  | Edit_clear_grant => clear_grant
  | Edit_observation clients titles => set_observation euid clients titles
  | Edit_launch mode allow deny user => set_launch euid mode allow deny user
  | Edit_launch_mode mode => set_launch_mode euid mode
  end.

(** The draft's policy is valid and is what its document says. *)
Definition draft_ok (d : PolicyDraft D) : Prop :=
  raw_in_range (PolicyDraft_raw d) ∧ raw_wf euid (PolicyDraft_raw d) ∧
  decode (PolicyDraft_document d) = Some (PolicyDraft_raw d).

(** *** Names *)

Lemma variant_capability c : variant all_capabilities (bstr (capability_name c)) = Some c.
Proof. by destruct c. Qed.
Lemma variant_mode m : variant all_modes (bstr (launch_mode_name m)) = Some m.
Proof. by destruct m. Qed.
Lemma variant_scope c : variant all_scopes (bstr (client_scope_name c)) = Some c.
Proof. by destruct c. Qed.

Lemma mapM_fmap_id {A B} (f : A → option B) (g : B → A) l :
  (∀ x, f (g x) = Some x) → mapM f (g <$> l) = Some l.
Proof. intros Hfg. induction l as [|x l IH]; [done|]. cbn. by rewrite Hfg; cbn; rewrite IH. Qed.

Lemma BoundedList_new_as_slice {T MAX} (l : BoundedList T MAX) : BoundedList_new (as_slice l) = Ok l.
Proof. by apply BoundedList_new_Ok. Qed.

Lemma BoundedText_new_as_str {MAX} (t : BoundedText MAX) : BoundedText_new (as_str t) = Ok t.
Proof. by apply BoundedText_new_Ok. Qed.

Lemma as_list_capabilities {MAX : N} (l : BoundedList Capability MAX) :
  as_list (variant all_capabilities) (Toml_Array (bstr ∘ capability_name <$> as_slice l)) = Some l.
Proof.
  unfold as_list. rewrite mapM_fmap_id by apply variant_capability. cbn.
  by rewrite BoundedList_new_as_slice.
Qed.

Lemma as_list_applications {MAX : N} (l : BoundedList ApplicationId MAX) :
  as_list as_application (string_array (as_slice l)) = Some l.
Proof.
  unfold as_list, string_array. rewrite mapM_fmap_id.
  - cbn. by rewrite BoundedList_new_as_slice.
  - intros a. unfold as_application. by rewrite BoundedText_new_as_str.
Qed.

Lemma as_integer_fits maximum i : 0 ≤ i ≤ maximum → as_integer maximum (Toml_Integer i) = Some i.
Proof. apply checked_in_intro. Qed.

(** *** Documents *)

Lemma only_known_spec d :
  only_known d = true
  ↔ (∀ table name, lookup_entry d table name ≠ None → (table, name) ∈ known_entries) ∧
    (∀ table, has_table d table = true → table ∈ known_tables).
Proof.
  unfold only_known, has_table. rewrite andb_true_iff, !forallb_forall. split.
  - intros [He Ht]. split.
    + intros t n Hl. eapply bool_decide_eq_true, He, list_elem_of_In, elem_entries, Hl.
    + intros t Hin%bool_decide_eq_true. by eapply bool_decide_eq_true, Ht, list_elem_of_In.
  - intros [He Ht]. split.
    + intros [t n] Hin%list_elem_of_In. apply bool_decide_eq_true, He. by apply elem_entries.
    + intros t Hin%list_elem_of_In. by apply bool_decide_eq_true, Ht, bool_decide_eq_true.
Qed.

Lemma put_known table name v d :
  only_known d = true → (table, name) ∈ known_entries → table = "" ∨ has_table d table = true →
  only_known (put table name v d) = true.
Proof.
  intros Hd Hin Ht. apply only_known_spec. pose proof (proj1 (only_known_spec d) Hd) as [He Htab].
  split.
  - intros t n. rewrite lookup_put by done. destruct (_ && _) eqn:Heq; [|by apply He].
    apply andb_true_iff in Heq as [->%String.eqb_eq ->%String.eqb_eq]. done.
  - intros t. rewrite table_put by done. apply Htab.
Qed.

Lemma ensure_known table d :
  only_known d = true → table ∈ known_tables → only_known (ensure_table table d) = true.
Proof.
  intros Hd Hin. apply only_known_spec. pose proof (proj1 (only_known_spec d) Hd) as [He Htab].
  split.
  - intros t n. rewrite lookup_ensure by done. apply He.
  - intros t. rewrite table_ensure by done. intros [->%String.eqb_eq|Ht]%orb_true_iff; eauto.
Qed.

Lemma remove_known table d :
  only_known d = true → table ∈ known_tables → only_known (remove_table table d) = true.
Proof.
  intros Hd Hin. apply only_known_spec. pose proof (proj1 (only_known_spec d) Hd) as [He Htab].
  split.
  - intros t n. rewrite lookup_remove by done. case_match; [done|]. apply He.
  - intros t. rewrite table_remove by done. intros [_ Ht]%andb_true_iff; eauto.
Qed.

(** What a document that holds known entries only reads as. *)
Definition reads (d : D) (look : string → string → option TomlValue) (tab : string → bool) : Prop :=
  only_known d = true ∧ (∀ table name, lookup_entry d table name = look table name) ∧
  (∀ table, has_table d table = tab table).

Lemma reads_refl d : only_known d = true → reads d (lookup_entry d) (has_table d).
Proof. done. Qed.

Lemma reads_put table name v d look tab :
  reads d look tab → (table, name) ∈ known_entries → table = "" ∨ tab table = true →
  reads (put table name v d)
    (λ t n, if (table =? t)%string && (name =? n)%string then Some v else look t n) tab.
Proof.
  intros (Hk & Hl & Ht) Hin Htab. rewrite <- Ht in Htab. split_and!.
  - by apply put_known.
  - intros t n. by rewrite lookup_put, Hl.
  - intros t. by rewrite table_put, Ht.
Qed.

Lemma reads_ensure table d look tab :
  reads d look tab → table ∈ known_tables →
  reads (ensure_table table d) look (λ t, (table =? t)%string || tab t).
Proof.
  intros (Hk & Hl & Ht) Hin. split_and!.
  - by apply ensure_known.
  - intros t n. by rewrite lookup_ensure, Hl.
  - intros t. by rewrite table_ensure, Ht.
Qed.

Lemma reads_remove table d look tab :
  reads d look tab → table ∈ known_tables →
  reads (remove_table table d) (λ t n, if (table =? t)%string then None else look t n)
    (λ t, negb (table =? t)%string && tab t).
Proof.
  intros (Hk & Hl & Ht) Hin. split_and!.
  - by apply remove_known.
  - intros t n. by rewrite lookup_remove, Hl.
  - intros t. by rewrite table_remove, Ht.
Qed.

Lemma decode_Some d raw :
  decode d = Some raw ↔ only_known d = true ∧
    field as_bool None "" "enabled" d = Some (RawConfig_enabled raw) ∧
    field (as_integer 255) (Some DEFAULT_MAX_SESSIONS) "" "max_sessions" d
      = Some (RawConfig_max_sessions raw) ∧
    field (as_integer U16_MAX) (Some DEFAULT_MAX_REQUESTS) "" "max_requests_per_session" d
      = Some (RawConfig_max_requests_per_session raw) ∧
    field (as_integer U32_MAX) (Some DEFAULT_IO_TIMEOUT_MS) "" "io_timeout_ms" d
      = Some (RawConfig_io_timeout_ms raw) ∧
    decode_grant d = Some (RawConfig_grant raw) ∧
    decode_observation d = Some (RawConfig_observation raw) ∧
    decode_launch d = Some (RawConfig_launch raw) ∧
    decode_input d = Some (RawConfig_input raw).
Proof.
  unfold decode. destruct (only_known d); cbn [negb]; [|naive_solver].
  split.
  - intros Hd. repeat (apply bind_Some in Hd as (? & ? & Hd)). injection Hd as <-. done.
  - intros (_ & -> & -> & -> & -> & -> & -> & -> & ->). by destruct raw.
Qed.

(** A known name. *)
Ltac known := apply (bool_decide_eq_true_1 _); vm_compute; reflexivity.

(** The parts of the document that [Hreads] describes, from those of the one before. *)
Ltac read_parts Hreads :=
  let Hk := fresh in let Hl := fresh in let Ht := fresh in
  destruct Hreads as (Hk & Hl & Ht); apply decode_Some; split_and!; [done|..];
  unfold decode_grant, decode_observation, decode_launch, decode_input, field in *;
  rewrite ?Hl, ?Ht; cbn -[as_integer as_list as_variant bstr]; try first [assumption | reflexivity].

Lemma decode_enabled d raw enabled :
  decode d = Some raw →
  decode (put "" "enabled" (Toml_Boolean enabled) d) = Some (with_enabled enabled raw).
Proof.
  intros (Hk & Hdec)%decode_Some. destruct_and! Hdec.
  pose proof (reads_put "" "enabled" (Toml_Boolean enabled) d _ _ (reads_refl d Hk) ltac:(known)
    (or_introl eq_refl)) as Hreads.
  read_parts Hreads.
Qed.

Lemma decode_limits d raw s r t :
  decode d = Some raw → 0 ≤ s ≤ 255 → is_u16 r → is_u32 t →
  decode (put "" "io_timeout_ms" (Toml_Integer t) (put "" "max_requests_per_session" (Toml_Integer r)
    (put "" "max_sessions" (Toml_Integer s) d))) = Some (with_limits s r t raw).
Proof.
  intros (Hk & Hdec)%decode_Some Hs Hr Ht. destruct_and! Hdec.
  pose proof (reads_refl d Hk) as Hreads.
  apply (reads_put "" "max_sessions" (Toml_Integer s)) in Hreads; [|known|by left].
  apply (reads_put "" "max_requests_per_session" (Toml_Integer r)) in Hreads; [|known|by left].
  apply (reads_put "" "io_timeout_ms" (Toml_Integer t)) in Hreads; [|known|by left].
  read_parts Hreads; by apply as_integer_fits.
Qed.

Lemma decode_with_grant d raw (l : Capabilities) :
  decode d = Some raw →
  decode (put "grant" "capabilities" (Toml_Array (bstr ∘ capability_name <$> as_slice l))
    (put "grant" "uid" (Toml_Integer euid) (ensure_table "grant" d)))
  = Some (with_grant (Some {| RawGrant_uid := euid; RawGrant_capabilities := l |}) raw).
Proof.
  intros (Hk & Hdec)%decode_Some. destruct_and! Hdec.
  pose proof (reads_refl d Hk) as Hreads.
  apply (reads_ensure "grant") in Hreads; [|known].
  apply (reads_put "grant" "uid" (Toml_Integer euid)) in Hreads; [|known|by right].
  apply (reads_put "grant" "capabilities" (Toml_Array (bstr ∘ capability_name <$> as_slice l)))
    in Hreads; [|known|by right].
  read_parts Hreads. rewrite as_integer_fits by done. cbn -[as_list].
  by rewrite as_list_capabilities.
Qed.

Lemma decode_clear_grant d raw :
  decode d = Some raw → decode (remove_table "grant" d) = Some (with_grant None raw).
Proof.
  intros (Hk & Hdec)%decode_Some. destruct_and! Hdec.
  pose proof (reads_refl d Hk) as Hreads.
  apply (reads_remove "grant") in Hreads; [|known].
  read_parts Hreads.
Qed.

Lemma decode_with_observation d raw clients titles :
  decode d = Some raw →
  decode (put "observation" "titles" (Toml_Boolean titles)
    (put "observation" "clients" (Toml_String (bstr (client_scope_name clients)))
      (ensure_table "observation" d)))
  = Some (with_observation {| RawObservation_clients := clients;
                              RawObservation_titles := titles |} raw).
Proof.
  intros (Hk & Hdec)%decode_Some. destruct_and! Hdec.
  pose proof (reads_refl d Hk) as Hreads.
  apply (reads_ensure "observation") in Hreads; [|known].
  apply (reads_put "observation" "clients" (Toml_String (bstr (client_scope_name clients))))
    in Hreads; [|known|by right].
  apply (reads_put "observation" "titles" (Toml_Boolean titles)) in Hreads; [|known|by right].
  read_parts Hreads. unfold as_variant. by rewrite variant_scope.
Qed.

Lemma decode_with_launch d raw mode (allow deny : Applications) user :
  decode d = Some raw →
  decode (put "launch" "allow_user_entries" (Toml_Boolean user)
    (put "launch" "deny" (string_array (as_slice deny))
      (put "launch" "allow" (string_array (as_slice allow))
        (put "launch" "mode" (Toml_String (bstr (launch_mode_name mode)))
          (ensure_table "launch" d)))))
  = Some (with_launch {| RawLaunch_mode := mode; RawLaunch_allow := allow; RawLaunch_deny := deny;
                         RawLaunch_allow_user_entries := user |} raw).
Proof.
  intros (Hk & Hdec)%decode_Some. destruct_and! Hdec.
  pose proof (reads_refl d Hk) as Hreads.
  apply (reads_ensure "launch") in Hreads; [|known].
  apply (reads_put "launch" "mode" (Toml_String (bstr (launch_mode_name mode)))) in Hreads;
    [|known|by right].
  apply (reads_put "launch" "allow" (string_array (as_slice allow))) in Hreads; [|known|by right].
  apply (reads_put "launch" "deny" (string_array (as_slice deny))) in Hreads; [|known|by right].
  apply (reads_put "launch" "allow_user_entries" (Toml_Boolean user)) in Hreads; [|known|by right].
  read_parts Hreads. unfold as_variant. rewrite variant_mode. cbn -[as_list].
  by rewrite !as_list_applications.
Qed.

(** *** The edits *)

Lemma raw_range_typed raw : raw_in_range raw → raw_typed raw.
Proof. intros (Hs & Hr & _). split; [lia|apply Hr]. Qed.

Lemma wp_replace_if_valid candidate (Q : unit → PolicyDraft D → Prop) (R : string → PolicyDraft D → Prop) s :
  raw_in_range candidate →
  (raw_wf euid candidate → Q tt (mkPolicyDraft candidate (PolicyDraft_document s))) →
  (∀ e, ¬ raw_wf euid candidate → R e s) →
  wp (replace_if_valid euid candidate) Q R s.
Proof.
  intros Hty HQ HR. unfold replace_if_valid, set_raw. wp_step. apply wp_lift.
  - intros c Hc. apply wp_modify, HQ. by apply RawConfig_validate_spec in Hc as [? _]; [|apply raw_range_typed].
  - intros e He. apply HR. intros Hwf.
    pose proof (proj2 (RawConfig_validate_spec euid candidate _ (raw_range_typed _ Hty))
                  (conj Hwf eq_refl)). congruence.
Qed.

(** What an edit leaves, and that a refused one changes nothing. *)
Definition edit_done (edit : PolicyEdit) (d : PolicyDraft D) (_ : unit) (d' : PolicyDraft D) : Prop :=
  edited euid edit (PolicyDraft_raw d) = Some (PolicyDraft_raw d') ∧ draft_ok d'.
Definition edit_refused (edit : PolicyEdit) (d : PolicyDraft D) (_ : string) (d' : PolicyDraft D) : Prop :=
  d' = d ∧ opt (λ raw', ¬ raw_wf euid raw') (edited euid edit (PolicyDraft_raw d)).

Lemma map_err_Ok {A E F} (f : E → F) (r : result A E) a : map_err f r = Ok a → r = Ok a.
Proof. destruct r; [by intros [= ->]|done]. Qed.
Lemma map_err_Err {A E F} (f : E → F) (r : result A E) e : map_err f r = Err e → result_ok r = None.
Proof. by destruct r. Qed.

Lemma run_limits s r t d :
  0 ≤ s ≤ 255 → is_u16 r → is_u32 t → draft_ok d →
  wp (set_resource_limits euid s r t) (edit_done (Edit_limits s r t) d)
    (edit_refused (Edit_limits s r t) d) d.
Proof.
  intros Hs Hr Ht (Hty & Hwf & Hdec). unfold set_resource_limits, edit_document. wp_step. wp_step. wp_step.
  assert (raw_in_range (with_limits s r t (PolicyDraft_raw d))) as Hty' by exact (conj Hs (conj Hr Ht)).
  apply wp_replace_if_valid; [done| |].
  - intros Hwf'. repeat wp_step. split; [done|]. split_and!; [done..|].
    by apply decode_limits.
  - intros e Hbad. split; [done|]. by intros ? [= <-].
Qed.

Lemma run_capabilities l d :
  draft_ok d → wp (set_capabilities euid l) (edit_done (Edit_capabilities l) d)
    (edit_refused (Edit_capabilities l) d) d.
Proof.
  intros (Hty & Hwf & Hdec). unfold set_capabilities, edit_document, set_raw. wp_step. apply wp_lift.
  - intros bl Hbl%map_err_Ok. wp_step. wp_step. wp_step. apply wp_replace_if_valid; [done| |].
    + intros Hwf'. repeat wp_step.
      split; [cbn; by rewrite Hbl|]. split_and!; [done..|]. by apply decode_with_grant.
    + intros e Hbad. split; [done|]. cbn. rewrite Hbl. by intros ? [= <-].
  - intros e He%map_err_Err. split; [done|]. cbn. by rewrite He.
Qed.

Lemma run_observation clients titles d :
  draft_ok d → wp (set_observation euid clients titles) (edit_done (Edit_observation clients titles) d)
    (edit_refused (Edit_observation clients titles) d) d.
Proof.
  intros (Hty & Hwf & Hdec). unfold set_observation, edit_document, set_raw. wp_step. wp_step. wp_step.
  apply wp_replace_if_valid; [done| |].
  - intros Hwf'. repeat wp_step. split; [done|]. split_and!; [done..|].
    by apply decode_with_observation.
  - intros e Hbad. split; [done|]. by intros ? [= <-].
Qed.

Lemma run_launch mode allow deny user d :
  draft_ok d → wp (set_launch euid mode allow deny user) (edit_done (Edit_launch mode allow deny user) d)
    (edit_refused (Edit_launch mode allow deny user) d) d.
Proof.
  intros (Hty & Hwf & Hdec). unfold set_launch, edit_document, set_raw. wp_step. apply wp_lift.
  - intros ba Hba%map_err_Ok. wp_step. apply wp_lift.
    + intros bd Hbd%map_err_Ok. wp_step. wp_step. wp_step. apply wp_replace_if_valid; [done| |].
      * intros Hwf'. repeat wp_step. split; [cbn; by rewrite Hba, Hbd|]. split_and!; [done..|].
        by apply decode_with_launch.
      * intros e Hbad. split; [done|]. cbn. rewrite Hba, Hbd. by intros ? [= <-].
    + intros e He%map_err_Err. split; [done|]. cbn. by rewrite Hba, He.
  - intros e He%map_err_Err. split; [done|]. cbn. by rewrite He.
Qed.

(** C31: the policy editor's draft stays valid and in step with its document.  From a draft
    whose policy is valid and is what its TOML document says, an edit either succeeds —
    the policy is then exactly the one asked for, valid, and the edited document reads
    back as it — or is refused, for a list over its bound or a policy that is not valid,
    and then nothing at all has changed. *)
Theorem policy_draft_in_step edit d :
  edit_in_range edit → draft_ok d →
  match run_edit edit d with
  | (Ok _, d') => edited euid edit (PolicyDraft_raw d) = Some (PolicyDraft_raw d') ∧ draft_ok d'
  | (Err _, d') => d' = d ∧ ∀ raw', edited euid edit (PolicyDraft_raw d) = Some raw' → ¬ raw_wf euid raw'
  end.
Proof.
  intros Hedit Hd. enough (wp (run_edit edit) (edit_done edit d) (edit_refused edit d) d) as Hwp.
  { unfold wp, edit_done, edit_refused, opt in Hwp. destruct (run_edit edit d) as [[[]|e] d']; exact Hwp. }
  destruct edit; cbn [run_edit].
  - destruct Hd as (Hty & Hwf & Hdec). unfold set_enabled, edit_document, set_raw. repeat wp_step. split; [done|].
    split_and!; [done..|]. by apply decode_enabled.
  - destruct Hedit as (? & ? & ?). by apply run_limits.
  - by apply run_capabilities.
  - destruct Hd as (Hty & (? & ? & ? & _ & ?) & Hdec). unfold clear_grant, edit_document, set_raw. repeat wp_step.
    split; [done|]. split_and!; [apply Hty..| |by apply decode_clear_grant].
    refine (conj _ (conj _ (conj _ (conj _ _)))); try assumption. by intros ? [=].
  - by apply run_observation.
  - by apply run_launch.
  - unfold set_launch_mode. repeat wp_step.
    eapply wp_mono; [by apply run_launch| |].
    + intros [] d' [He ?]. split; [|done]. cbn in He. unfold launch_allow, launch_deny in He.
      by rewrite !BoundedList_new_as_slice in He.
    + intros e d' [? Hr]. split; [done|]. cbn in Hr. unfold launch_allow, launch_deny in Hr.
      by rewrite !BoundedList_new_as_slice in Hr.
Qed.
End draft.

(** ** What the policy lets anyone do *)

(** C33: the provider acts only within its policy.  A caller is granted something only if
    it is the user the policy was validated for and there is a grant: then exactly those
    of the capabilities it asks for, in its order, that the grant lists.  An application
    may be launched exactly if it is not denied, is a system entry unless user entries
    are allowed, and is listed or installed applications are allowed; if nothing may be
    launched the policy says so. *)
Theorem policy_authority uid raw config :
  raw_typed raw → RawConfig_validate raw uid = Ok config →
  (∀ caller requested l,
     granted config caller requested = Some l
     ↔ caller = uid ∧ ∃ grant, RawConfig_grant raw = Some grant ∧
         l = filter (λ c, c ∈ as_slice (RawGrant_capabilities grant)) requested) ∧
  (∀ application user_entry,
     permits (Config_launch config) application user_entry = true
     ↔ application ∉ as_slice (RawLaunch_deny (RawConfig_launch raw)) ∧
       (user_entry = true → RawLaunch_allow_user_entries (RawConfig_launch raw) = true) ∧
       match RawLaunch_mode (RawConfig_launch raw) with
       | LaunchMode_Deny => False
       | LaunchMode_AllowListed => application ∈ as_slice (RawLaunch_allow (RawConfig_launch raw))
       | LaunchMode_AllowInstalled => True
       end) ∧
  (allows_any (Config_launch config) = false →
     ∀ application user_entry, permits (Config_launch config) application user_entry = false).
Proof.
  intros Hty Hv. apply RawConfig_validate_spec in Hv as [(_ & _ & _ & Hg & _) ->]; [|done].
  split_and!.
  - intros caller requested l. unfold granted, config_of. cbn.
    destruct (RawConfig_grant raw) as [grant|]; cbn; [|naive_solver].
    destruct (Hg grant eq_refl) as [-> _].
    destruct (Z.eqb_spec uid caller) as [->|]; cbn; naive_solver.
  - intros application user. unfold permits, config_of. cbn.
    destruct (RawLaunch_mode _), user, (RawLaunch_allow_user_entries _); cbn;
      destruct (bool_decide_reflect (application ∈ as_slice (RawLaunch_deny (RawConfig_launch raw))));
      rewrite ?bool_decide_eq_true; naive_solver.
  - intros Hnone application user. revert Hnone. unfold allows_any, permits, config_of. cbn.
    destruct (RawLaunch_mode _); case_match; try done.
    intros Hempty%negb_false_iff%is_empty_true. by rewrite Hempty.
Qed.

(** ** A concrete document *)

Module PolicyToy.
Record toy := { toy_map : gmap (string * string) TomlValue; toy_tables : list string }.

#[global] Instance toy_document : TomlDocument toy := {
  entries d := (map_to_list (toy_map d)).*1;
  tables := toy_tables;
  lookup_entry d table name := toy_map d !! (table, name);
  put table name v d := {| toy_map := <[(table, name) := v]> (toy_map d); toy_tables := toy_tables d |};
  ensure_table table d :=
    {| toy_map := toy_map d;
       toy_tables := if decide (table ∈ toy_tables d) then toy_tables d else table :: toy_tables d |};
  remove_table table d :=
    {| toy_map := filter (λ e, e.1.1 ≠ table) (toy_map d);
       toy_tables := filter (λ t, t ≠ table) (toy_tables d) |}
}.

Lemma has_table_toy (d : toy) table : has_table d table = true ↔ table ∈ toy_tables d.
Proof. apply bool_decide_eq_true. Qed.

#[global] Instance toy_laws : TomlDocumentLaws toy.
Proof.
  split.
  - intros d table name. cbn. rewrite list_elem_of_fmap. split.
    + intros ([k v] & Hk & Hin%elem_of_map_to_list). cbn in Hk. subst. congruence.
    + intros Hne. destruct (toy_map d !! (table, name)) as [v|] eqn:Hl; [|done].
      exists ((table, name), v). split; [done|]. by apply elem_of_map_to_list.
  - intros d table name v table' name' _ _ _. cbn. destruct (_ && _) eqn:Heq.
    + apply andb_true_iff in Heq as [->%String.eqb_eq ->%String.eqb_eq]. apply lookup_insert_eq.
    + apply lookup_insert_ne. intros [= -> ->]. by rewrite !String.eqb_refl in Heq.
  - done.
  - done.
  - intros d table table' _ _. apply eq_true_iff_eq.
    rewrite orb_true_iff, !has_table_toy, String.eqb_eq. cbn. case_decide; set_solver.
  - intros d table table' name _ _. cbn. destruct (String.eqb_spec table table') as [->|Hne].
    + apply map_lookup_filter_None. right. intros v _ Hn. by apply Hn.
    + destruct (toy_map d !! (table', name)) as [v|] eqn:Hl.
      * apply map_lookup_filter_Some. split; [done|]. cbn. congruence.
      * apply map_lookup_filter_None. by left.
  - intros d table table' _ _. apply eq_true_iff_eq.
    rewrite andb_true_iff, negb_true_iff, !has_table_toy, String.eqb_neq. cbn.
    rewrite list_elem_of_filter. naive_solver.
Qed.

Definition source : toy := {|
  toy_map := list_to_map [(("", "enabled"), Toml_Boolean true);
                          (("grant", "uid"), Toml_Integer 1000);
                          (("grant", "capabilities"), Toml_Array [bstr "observe_structure"; bstr "launch_list"]);
                          (("launch", "mode"), Toml_String (bstr "allow_listed"));
                          (("launch", "allow"), Toml_Array [bstr "org.example.App.desktop"])]%string;
  toy_tables := ["grant"; "launch"]%string |}.

Definition raw : RawConfig :=
  match decode source with
  | Some raw => raw
  | None => {| RawConfig_enabled := false; RawConfig_max_sessions := 0;
               RawConfig_max_requests_per_session := 0; RawConfig_io_timeout_ms := 0;
               RawConfig_grant := None;
               RawConfig_observation := {| RawObservation_clients := ClientScope_None;
                                           RawObservation_titles := false |};
               RawConfig_launch := {| RawLaunch_mode := LaunchMode_Deny;
                                      RawLaunch_allow := BoundedList_default;
                                      RawLaunch_deny := BoundedList_default;
                                      RawLaunch_allow_user_entries := false |};
               RawConfig_input := {| RawInput_provider_private_devices := false |} |}
  end.
Definition draft : PolicyDraft toy := mkPolicyDraft raw source.

Lemma raw_valid : result_map (λ _, tt) (RawConfig_validate raw 1000) = Ok tt.
Proof. vm_compute. reflexivity. Qed.
Lemma raw_ok : ∃ config, RawConfig_validate raw 1000 = Ok config.
Proof. pose proof raw_valid. destruct (RawConfig_validate raw 1000); [eauto|done]. Qed.
Lemma raw_ranges : raw_in_range raw.
Proof. vm_compute. intuition congruence. Qed.
Lemma draft_is_ok : draft_ok 1000 draft.
Proof.
  split_and!; [apply raw_ranges..| |vm_compute; reflexivity].
  destruct raw_ok as [config Hc]. apply RawConfig_validate_spec in Hc as [? _]; [done|].
  apply raw_range_typed, raw_ranges.
Qed.
End PolicyToy.

Lemma policy_validation_exact_witness :
  ∃ config, RawConfig_validate PolicyToy.raw 1000 = Ok config ∧ raw_wf 1000 PolicyToy.raw ∧
    config = config_of PolicyToy.raw.
Proof.
  destruct PolicyToy.raw_ok as [config Hc]. exists config. split; [exact Hc|].
  exact (proj1 (policy_validation_exact 1000 PolicyToy.raw config
                  (raw_range_typed _ PolicyToy.raw_ranges)) Hc).
Defined.

Lemma policy_draft_in_step_witness :
  ∃ d', run_edit 1000 (Edit_capabilities [Capability_LaunchExecute]) PolicyToy.draft
        = (Err "launch_execute requires launch_list"%string, d') ∧ d' = PolicyToy.draft.
Proof.
  pose proof (policy_draft_in_step (D:=PolicyToy.toy) 1000 ltac:(split; vm_compute; congruence)
    (Edit_capabilities [Capability_LaunchExecute]) PolicyToy.draft I PolicyToy.draft_is_ok) as Hstep.
  assert (fst (run_edit 1000 (Edit_capabilities [Capability_LaunchExecute]) PolicyToy.draft)
          = Err "launch_execute requires launch_list"%string) as Hrun by (vm_compute; reflexivity).
  destruct (run_edit 1000 (Edit_capabilities [Capability_LaunchExecute]) PolicyToy.draft) as [r d'].
  cbn in Hrun. subst r. exists d'. split; [reflexivity|]. exact (proj1 Hstep).
Defined.

Lemma policy_authority_witness :
  ∃ config, RawConfig_validate PolicyToy.raw 1000 = Ok config ∧
    granted config 1000 [Capability_LaunchList; Capability_LaunchExecute] = Some [Capability_LaunchList].
Proof.
  destruct PolicyToy.raw_ok as [config Hc]. exists config. split; [exact Hc|].
  apply (proj1 (policy_authority 1000 PolicyToy.raw config
                  (raw_range_typed _ PolicyToy.raw_ranges) Hc)).
  split; [reflexivity|]. eexists. split; vm_compute; reflexivity.
Defined.
