(* ===== verification/Host.v ===== *)
(** * The operating system the provider calls: files, processes, the environment

    What [std::fs], [std::process] and [std::env] do is a parameter: classes of operations
    over an abstract state [S], so that a file system may change between any two calls.
    A path is its bytes. *)

From S2P Require Import Prelude Text Effects.

(** [std::io::Error], as far as it is looked at. *)
Inductive IoErrorKind :=
| IoError_NotFound
| IoError_AlreadyExists
| IoError_WouldBlock
| IoError_AddrInUse
| IoError_ConnectionRefused
| IoError_Other.
Record IoError := { IoError_kind : IoErrorKind; IoError_text : string }.

Inductive FileType := FileType_File | FileType_Dir | FileType_Symlink | FileType_Socket | FileType_Other.

#[export] Instance FileType_eq_dec : EqDecision FileType.
Proof. solve_decision. Defined.

Record Metadata := {
  Metadata_file_type : FileType;
  Metadata_dev : Z;
  Metadata_ino : Z;
  Metadata_uid : Z;
  Metadata_mode : Z;
  Metadata_len : Z
}.

Definition is_file (m : Metadata) : bool := bool_decide (Metadata_file_type m = FileType_File).
Definition is_dir (m : Metadata) : bool := bool_decide (Metadata_file_type m = FileType_Dir).
Definition is_socket (m : Metadata) : bool := bool_decide (Metadata_file_type m = FileType_Socket).
Definition is_symlink (m : Metadata) : bool := bool_decide (Metadata_file_type m = FileType_Symlink).

(** [mode & 0o111 != 0] *)
Definition any_execute_bit (m : Metadata) : bool := negb (Z.land (Metadata_mode m) 73 =? 0).

(** An open file. *)
Definition File : Type := Z.

Class Files (S : Type) := {
  (** [fs::symlink_metadata], [fs::metadata] *)
  symlink_metadata : str → M S IoError Metadata;
  metadata : str → M S IoError Metadata;
  (** [fs::read_dir(..)], the names of the entries it yields *)
  read_dir : str → M S IoError (list str);
  (** [File::open], [file.metadata()], [file.take(n).read_to_end(..)] *)
  open_file : str → M S IoError File;
  file_metadata : File → M S IoError Metadata;
  read_to_end : File → Z → M S IoError bytes
}.

(** [.ok()?] in a function that returns an [Option]: its failure is [tt]. *)
Definition ok {S A} (m : M S IoError A) : M S unit A := map_error (λ _, tt) m.
Definition some {S A} (o : option A) : M S unit A := lift (ok_or o tt).

(** A child process. *)
Definition Child : Type := Z.

(** [std::process::Command], as built. *)
Record Command := {
  Command_program : str;
  Command_args : list str;
  Command_env : list (str * str);
  Command_current_dir : option str;
  Command_null_stdio : bool
}.

Class Processes (S : Type) := {
  spawn : Command → M S IoError Child;
  (** [child.try_wait()]: whether it has exited *)
  try_wait : Child → M S IoError bool;
  wait : Child → M S IoError unit
}.

(** [env::split_paths] *)
Definition split_paths (value : str) : list str := split 58 value.
