(* ===== verification/PolicyStore.v ===== *)
(** * [agent-seat-x11/src/config.rs]: reading and replacing the policy file

    [read] checks the file before and after it opens it; [replace_policy] stages the
    candidate beside the target, exchanges the two names, looks at what it displaced, and
    either keeps that as the recovery policy or exchanges the names again. *)

From S2P Require Import Prelude Text Effects Host Config Policy.

(** ** What the store calls *)

Class PolicyFiles (S : Type) := {
  (** [OpenOptions::new().write(true).create_new(true).mode(mode).open(path)] *)
  create_new : str → Z → M S IoError File;
  (** [rustix::fs::open(path, RDWR | CREATE | CLOEXEC | NOFOLLOW, mode)] *)
  open_or_create : str → Z → M S IoError File;
  set_file_permissions : File → Z → M S IoError unit;
  set_permissions : str → Z → M S IoError unit;
  write_all : File → bytes → M S IoError unit;
  sync_all : File → M S IoError unit;
  remove_file : str → M S IoError unit;
  (** [renameat_with(.., RenameFlags::EXCHANGE)] and [NOREPLACE] *)
  rename_exchange : str → str → M S IoError unit;
  rename_noreplace : str → str → M S IoError unit;
  (** [flock(NonBlockingLockExclusive)] and [flock(Unlock)] *)
  flock_exclusive : File → M S IoError unit;
  flock_unlock : File → M S IoError unit;
  (** [DirBuilder::new().recursive(true).mode(mode).create(path)] *)
  create_dir_all : str → Z → M S IoError unit;
  (** [NEXT_TRANSACTION.fetch_add(1, Relaxed)]: the number before *)
  fetch_transaction : S → Z * S
}.

Definition TRANSACTION_ATTEMPTS : nat := 16.

(** [0o600], [0o700], [0o022], [0o077] *)
Definition PRIVATE_FILE : Z := 384.
Definition PRIVATE_DIRECTORY : Z := 448.
Definition WRITABLE_BY_OTHERS : Z := 18.
Definition USABLE_BY_OTHERS : Z := 63.

(** ** Paths *)

Definition skippable (f : str) : bool := is_empty f || bool_decide (f = bstr ".").

Fixpoint drop_while {A} (p : A → bool) (l : list A) : list A :=
  match l with
  | [] => []
  | a :: l' => if p a then drop_while p l' else l
  end.

(** [Path::parent] of an absolute path. *)
Definition path_parent (p : str) : option str :=
  match drop_while skippable (reverse (tail (split 47 p))) with
  | [] => None
  | _ :: rest =>
      Some (match drop_while skippable rest with
            | [] => bstr "/"
            | fields => join (bstr "/") ([] :: reverse fields)
            end)
  end.

Definition suffixed_path (path suffix : str) : str := path ++ suffix.
Definition recovery_policy_path (path : str) : str := suffixed_path path (bstr ".previous").

Definition display : str → string := string_of_str.

(** [map_err(|error| format!("{prefix}: {error}"))] *)
Definition context {S A} (prefix : string) (m : M S IoError A) : M S string A :=
  map_error (λ error, prefix +:+ ": " +:+ IoError_text error) m.

(** [let _ = ..] *)
Definition ignore {S E F A} (m : M S E A) : M S F unit := let! _ := attempt m in ret tt.

Record PolicySnapshot (D : Type) := mkPolicySnapshot {
  PolicySnapshot_path : str;
  PolicySnapshot_source : str;
  PolicySnapshot_enabled : bool;
  PolicySnapshot_device : Z;
  PolicySnapshot_inode : Z;
  PolicySnapshot_draft : PolicyDraft D
}.
Arguments mkPolicySnapshot {D} _ _ _ _ _ _.
Arguments PolicySnapshot_path {D} _.
Arguments PolicySnapshot_source {D} _.
Arguments PolicySnapshot_enabled {D} _.
Arguments PolicySnapshot_device {D} _.
Arguments PolicySnapshot_inode {D} _.
Arguments PolicySnapshot_draft {D} _.

(** ** The first policy *)

(** A text, with [~] for the quotation mark. *)
Definition raw_text (text : string) : str := map (λ b, if b =? 126 then 34 else b) (bstr text).

Definition FIRST_RUN_TEMPLATE_PREFIX : str := raw_text
"# agent-seat-x11 configuration
#
# This file was created on the first run of agent-seat-x11. The provider did
# not start. Review this policy, then change `enabled` to true when ready.
# Run `agent-seat-x11 --check-config` after every edit.
#
# The provider is a local authority: every capability below permits the MCP
# companion to observe or affect your X11 session. Keep only permissions you
# intend to grant. Unknown fields, duplicate values, and unsafe combinations
# are rejected instead of being ignored.

# Required safety switch. The generated policy remains inactive until you
# explicitly enable it.
enabled = false

# Resource limits. These defaults are suitable for an ordinary single-user
# desktop. Accepted ranges are shown next to each setting.
max_sessions = 4                 # 1..32 concurrent connections
max_requests_per_session = 1024  # 1..4096 requests per connection
io_timeout_ms = 2000             # 50..10000 milliseconds

[grant]
# Only a local socket peer whose kernel-reported UID equals this value can use
# the grant. This value was filled from the UID that created this file.
uid = ".

Definition FIRST_RUN_TEMPLATE_SUFFIX : str := raw_text
"

# The generated policy grants only basic, title-free structure observation.
# Uncomment capabilities deliberately. `observe_titles`, `observe_events`,
# and all `manage_*` capabilities require `observe_structure`.
# `launch_execute` requires `launch_list`.
# Pointer, keyboard, and text transfer require `observe_structure`. They are
# additionally denied unless the running provider's volatile seat has been
# enabled locally. Text transfer replaces clipboard ownership and a clipboard
# manager may retain the transferred text; it never reads the old clipboard.
# Obscured capture requires `observe_structure` and can reveal target-owned
# pixels even while another window covers the target.
capabilities = [
  ~observe_structure~,
  # ~observe_titles~,     # Read window titles; also set titles = true below.
  # ~observe_events~,     # Poll bounded desktop change events.
  # ~manage_activate~,    # Ask the window manager to activate a client.
  # ~manage_close~,       # Ask a client to close politely.
  # ~manage_workspace~,   # Switch workspaces or move a client between them.
  # ~manage_state~,       # Change supported EWMH client states.
  # ~manage_geometry~,    # Move or resize a client frame.
  # ~launch_list~,        # List applications admitted by launch policy.
  # ~launch_execute~,     # Start an admitted desktop entry without a shell.
  # ~input_pointer~,      # Move or click only inside the unobscured target.
  # ~input_keyboard~,     # Type bounded text or send one key action to a focused target.
  # ~text_transfer~,      # Offer exact UTF-8 to one focused target; replaces clipboard ownership.
  # ~capture_obscured~,   # Capture one scoped client's own pixels.
]

[observation]
# `none` hides every client, `current_workspace` limits visibility to the
# active workspace, and `all_workspaces` exposes clients across workspaces.
clients = ~current_workspace~

# Titles are exposed only when this is true AND `observe_titles` is granted.
titles = false

[launch]
# `deny` exposes and launches nothing.
# `allow_listed` admits only desktop IDs listed in `allow`.
# `allow_installed` admits every valid discovered desktop entry except `deny`.
mode = ~deny~

# Canonical desktop IDs end in `.desktop`. `allow` is consulted only in
# `allow_listed` mode but is retained in other modes so a later mode change can
# restore the selection. An ID cannot appear in both lists.
allow = []
deny = []

# User desktop entries below $XDG_DATA_HOME/applications are separately denied
# by default, even in an allowing mode. System entries remain discoverable.
allow_user_entries = false

[input]
# Optional defense in depth for the separately documented private-device
# service. Ordinary Tier 0.5 input does not require this service, root, evdev,
# uinput, or membership in the input group.
provider_private_devices = false
".

Section store.
Context {W D : Type} `{Files W, PolicyFiles W}.
(** [toml::from_str], [str::parse::<DocumentMut>()], [geteuid()], [process::id()] *)
Context (from_toml : str → result RawConfig string) (parse_document : str → result D string).
Context (euid pid : Z).

(** ** Reading *)

Definition too_long (path : str) : string :=
  display path +:+ " exceeds the 65536-byte configuration bound".

Definition Config_read (path : str) : M W string (PolicySnapshot D * Config) :=
  if negb (is_absolute path) then fail "configuration path must be absolute"%string
  else
    let! path_metadata := context ("cannot inspect " +:+ display path) (symlink_metadata path) in
    if negb (is_file path_metadata)
    then fail (display path +:+ " is not a regular file")
    else
      let! file := context ("cannot open " +:+ display path) (open_file path) in
      let! metadata := context ("cannot inspect open " +:+ display path) (file_metadata file) in
      if negb (Metadata_dev metadata =? Metadata_dev path_metadata)
         || negb (Metadata_ino metadata =? Metadata_ino path_metadata)
      then fail (display path +:+ " changed while it was opened")
      else if negb (Metadata_uid metadata =? euid)
              || negb (Z.land (Metadata_mode metadata) WRITABLE_BY_OTHERS =? 0)
      then fail (display path +:+ " must be owned by UID " +:+ string_of_str (to_dec euid)
                 +:+ " and not writable by group or others")
      else if MAX_CONFIG_BYTES <? Metadata_len metadata then fail (too_long path)
      else
        let! bytes := context ("cannot read " +:+ display path)
                        (read_to_end file (MAX_CONFIG_BYTES + 1)) in
        if MAX_CONFIG_BYTES <? len bytes then fail (too_long path)
        else if negb (utf8_valid bytes) then fail (display path +:+ " is not UTF-8")
        else
          let! '(enabled, config, raw) :=
            lift (map_err (λ error, "invalid " +:+ display path +:+ ": " +:+ error)
                    (validate_source from_toml bytes euid)) in
          let! document :=
            lift (map_err (λ error, "cannot preserve formatting in validated " +:+ display path
                                    +:+ ": " +:+ error) (parse_document bytes)) in
          ret (mkPolicySnapshot path bytes enabled (Metadata_dev metadata) (Metadata_ino metadata)
                 (mkPolicyDraft raw document), config).

Definition read_policy (path : str) : M W string (PolicySnapshot D) :=
  let! '(snapshot, _) := Config_read path in ret snapshot.

Definition Config_load (path : str) : M W string (PolicySnapshot D * Config) :=
  let! '(snapshot, config) := Config_read path in
  if negb (PolicySnapshot_enabled snapshot)
  then fail "provider is disabled; set enabled = true explicitly"%string
  else ret (snapshot, config).

Definition Config_check (path : str) : M W string bool :=
  let! '(snapshot, _) := Config_read path in ret (PolicySnapshot_enabled snapshot).

Definition same_snapshot (left right : PolicySnapshot D) : bool :=
  (PolicySnapshot_device left =? PolicySnapshot_device right)
  && (PolicySnapshot_inode left =? PolicySnapshot_inode right)
  && bool_decide (PolicySnapshot_source left = PolicySnapshot_source right).

(** ** The lock *)

Definition lock_policy_directory (path : str) : M W string File :=
  let! parent := lift (ok_or (path_parent path)
                         ("configuration path " +:+ display path +:+ " has no parent")) in
  let lock_path := path_join parent (bstr ".agent-seat-config.lock") in
  let! file := context ("cannot open settings lock " +:+ display lock_path)
                 (open_or_create lock_path PRIVATE_FILE) in
  let! metadata := context ("cannot inspect settings lock " +:+ display lock_path)
                     (file_metadata file) in
  if negb (is_file metadata) || negb (Metadata_uid metadata =? euid)
  then fail ("settings lock " +:+ display lock_path
             +:+ " must be a private regular file owned by UID " +:+ string_of_str (to_dec euid))
  else
    context ("cannot secure settings lock " +:+ display lock_path)
      (set_file_permissions file PRIVATE_FILE) ;!
    context ("another settings writer is active for " +:+ display path) (flock_exclusive file) ;!
    ret file.

(** [impl Drop for PolicyLock] *)
Definition with_lock {A} (lock : File) (m : M W string A) : M W string A :=
  let! result := attempt m in
  ignore (flock_unlock lock) ;!
  lift result.

(** ** The recovery policy *)

Definition check_recovery_target (path : str) : M W string bool :=
  let! metadata := attempt (symlink_metadata path) in
  match metadata with
  | Err error =>
      match IoError_kind error with
      | IoError_NotFound => ret false
      | _ => fail ("cannot inspect recovery policy " +:+ display path +:+ ": " +:+ IoError_text error)
      end
  | Ok metadata =>
      if negb (is_file metadata) || negb (Metadata_uid metadata =? euid)
         || negb (Z.land (Metadata_mode metadata) USABLE_BY_OTHERS =? 0)
      then fail ("recovery policy " +:+ display path
                 +:+ " must be a private regular file owned by UID " +:+ string_of_str (to_dec euid))
      else ret true
  end.

(** ** The staged candidate *)

Record TemporaryPolicy := { TemporaryPolicy_path : str; TemporaryPolicy_file : File }.

Definition cleanup (temporary : TemporaryPolicy) : M W string unit :=
  ignore (remove_file (TemporaryPolicy_path temporary)).

Definition staging_path (parent : str) (serial : Z) : str :=
  path_join parent (bstr ".agent-seat-config." ++ to_dec pid ++ bstr "." ++ to_dec serial
                    ++ bstr ".tmp").

(** The body of the loop once the file is open. *)
Definition fill_staged (path : str) (file : File) (candidate : str) : M W string TemporaryPolicy :=
  context ("cannot secure staged policy " +:+ display path)
    (set_file_permissions file PRIVATE_FILE) ;!
  let! written := attempt (write_all file candidate ;! sync_all file) in
  match written with
  | Err error =>
      ignore (remove_file path) ;!
      fail ("cannot write staged policy " +:+ display path +:+ ": " +:+ IoError_text error)
  | Ok _ => ret {| TemporaryPolicy_path := path; TemporaryPolicy_file := file |}
  end.

Fixpoint stage (attempts : nat) (parent candidate : str) : M W string TemporaryPolicy :=
  match attempts with
  | O => fail "cannot allocate a unique bounded policy staging path"%string
  | Datatypes.S attempts =>
      let! serial := λ w, let '(serial, w) := fetch_transaction w in (Ok serial, w) in
      let path := staging_path parent serial in
      let! opened := attempt (create_new path PRIVATE_FILE) in
      match opened with
      | Ok file => fill_staged path file candidate
      | Err error =>
          match IoError_kind error with
          | IoError_AlreadyExists => stage attempts parent candidate
          | _ => fail ("cannot stage policy " +:+ display path +:+ ": " +:+ IoError_text error)
          end
      end
  end.

Definition TemporaryPolicy_create (target candidate : str) : M W string TemporaryPolicy :=
  let! parent := lift (ok_or (path_parent target)
                         ("configuration path " +:+ display target +:+ " has no parent")) in
  stage TRANSACTION_ATTEMPTS parent candidate.

(** ** Replacing *)

Definition rollback_exchange (temporary target : str) (candidate_metadata : Metadata)
  : M W string unit :=
  let! target_metadata := context "cannot inspect replacement during rollback"
                            (symlink_metadata target) in
  if negb (is_file target_metadata)
     || negb (Metadata_dev target_metadata =? Metadata_dev candidate_metadata)
     || negb (Metadata_ino target_metadata =? Metadata_ino candidate_metadata)
  then fail ("configuration changed again during rollback; inspect " +:+ display target
             +:+ " and " +:+ display temporary)
  else context ("cannot roll back configuration replacement; inspect " +:+ display target
                +:+ " and " +:+ display temporary) (rename_exchange temporary target).

(** An error, and whether the staged file is to be preserved: [remove_on_drop] is [false]. *)
Definition Unsaved : Type := string * bool.
Definition dropping {A} (m : M W string A) : M W Unsaved A := map_error (λ error, (error, false)) m.

Definition rollback_or_preserve (temporary : TemporaryPolicy) (target : str)
  (candidate_metadata : Metadata) : M W Unsaved unit :=
  map_error (λ error, (error, true))
    (rollback_exchange (TemporaryPolicy_path temporary) target candidate_metadata).

Definition sync_directory (path : str) : M W string unit :=
  let! parent := lift (ok_or (path_parent path)
                         ("configuration path " +:+ display path +:+ " has no parent")) in
  let! directory := context ("cannot open configuration directory " +:+ display parent)
                      (open_file parent) in
  context ("configuration was replaced but cannot synchronize directory " +:+ display parent)
    (sync_all directory).

(** From the exchange on; the last part is past the point of return. *)
Definition retain_displaced (expected : PolicySnapshot D) (backup_exists : bool)
  (temporary : TemporaryPolicy) (candidate_metadata : Metadata) : M W Unsaved unit :=
  let target := PolicySnapshot_path expected in
  let backup_path := recovery_policy_path target in
  let staged := TemporaryPolicy_path temporary in
  let! displaced := attempt (read_policy staged) in
  let displaced_matches := match displaced with
                           | Ok snapshot => same_snapshot expected snapshot
                           | Err _ => false
                           end in
  if negb displaced_matches then
    rollback_or_preserve temporary target candidate_metadata ;!
    fail (match displaced with
          | Ok _ => "configuration changed during replacement; no change was saved"%string
          | Err error => "configuration became unsafe during replacement; no change was saved: " +:+ error
          end, false)
  else
    let! backup := attempt (if backup_exists then rename_exchange staged backup_path
                            else rename_noreplace staged backup_path) in
    match backup with
    | Err error =>
        rollback_or_preserve temporary target candidate_metadata ;!
        fail ("cannot retain recovery policy " +:+ display backup_path +:+ ": "
              +:+ IoError_text error +:+ "; no change was saved", false)
    | Ok _ => ret tt
    end.

Definition install_staged (expected : PolicySnapshot D) (backup_exists : bool)
  (temporary : TemporaryPolicy) : M W Unsaved (PolicySnapshot D) :=
  let target := PolicySnapshot_path expected in
  let backup_path := recovery_policy_path target in
  let! candidate_metadata := dropping (context "cannot inspect staged policy"
                                         (file_metadata (TemporaryPolicy_file temporary))) in
  dropping (context ("cannot atomically install " +:+ display target)
              (rename_exchange (TemporaryPolicy_path temporary) target)) ;!
  retain_displaced expected backup_exists temporary candidate_metadata ;!
  dropping (context ("configuration was replaced but cannot secure recovery policy "
                     +:+ display backup_path) (set_permissions backup_path PRIVATE_FILE)) ;!
  dropping (cleanup temporary) ;!
  dropping (sync_directory target) ;!
  dropping (read_policy target).

(** [impl Drop for TemporaryPolicy] *)
Definition with_temporary {A} (temporary : TemporaryPolicy) (m : M W Unsaved A) : M W string A :=
  let! result := attempt m in
  match result with
  | Ok a => cleanup temporary ;! ret a
  | Err (error, preserved) =>
      (if (preserved : bool) then ret tt else cleanup temporary) ;! fail error
  end.

(** Under the lock. *)
Definition replace_locked (expected : PolicySnapshot D) (candidate : str)
  : M W string (PolicySnapshot D) :=
  let! current := read_policy (PolicySnapshot_path expected) in
  if negb (same_snapshot expected current)
  then fail "configuration changed after it was read; reload before saving"%string
  else if bool_decide (candidate = PolicySnapshot_source current) then ret current
  else
    let! backup_exists := check_recovery_target (recovery_policy_path (PolicySnapshot_path expected)) in
    let! temporary := TemporaryPolicy_create (PolicySnapshot_path expected) candidate in
    with_temporary temporary (install_staged expected backup_exists temporary).

Definition replace_policy (expected : PolicySnapshot D) (candidate : str)
  : M W string (PolicySnapshot D) :=
  let! _ := lift (map_err (λ error, "invalid candidate: " +:+ error)
                    (validate_source from_toml candidate euid)) in
  let! lock := lock_policy_directory (PolicySnapshot_path expected) in
  with_lock lock (replace_locked expected candidate).

(** ** The first run *)

Definition create_first_run_config (path : str) : M W string bool :=
  let! parent := lift (ok_or (path_parent path)
                         ("configuration path " +:+ display path +:+ " has no parent directory")) in
  context ("cannot create configuration directory " +:+ display parent)
    (create_dir_all parent PRIVATE_DIRECTORY) ;!
  let! opened := attempt (create_new path PRIVATE_FILE) in
  match opened with
  | Err error =>
      match IoError_kind error with
      | IoError_AlreadyExists => ret false
      | _ => fail ("cannot create " +:+ display path +:+ ": " +:+ IoError_text error)
      end
  | Ok file =>
      let source := FIRST_RUN_TEMPLATE_PREFIX ++ to_dec euid ++ FIRST_RUN_TEMPLATE_SUFFIX in
      let! written := attempt (write_all file source) in
      match written with
      | Err error =>
          ignore (remove_file path) ;!
          fail ("cannot write " +:+ display path +:+ ": " +:+ IoError_text error)
      | Ok _ => ret true
      end
  end.

Definition ensure_default_policy (env : string → option str) : M W string (str * bool) :=
  let! path := lift (default_path (env "XDG_CONFIG_HOME"%string) (env "HOME"%string)) in
  let! created := create_first_run_config path in
  ret (path, created).
End store.
