(* ===== verification/PolicyDisk.v ===== *)
(** * What the policy store relies on: a directory, and every change made to it

    A view of the file system of [PolicyFiles] as names leading to files, with the [trail]
    of its contents after every change, which is what any other process may have seen.
    [DiskLaws] says what each system call does to it: a failing call changes nothing, save
    that a failing write may have written any part.  Nobody else changes the directory
    meanwhile.  [Disk] is a file system with these laws in which any call may fail. *)

From stdpp Require Import gmap.
From S2P Require Import Prelude Text Effects Host Config Policy PolicyStore.

(** ** Contents *)

Record Node := {
  Node_type : FileType;
  Node_uid : Z;
  Node_mode : Z;
  Node_data : bytes
}.

Record Contents := { names : gmap str Z; nodes : gmap Z Node }.

Definition find_node (c : Contents) (path : str) : option (Z * Node) :=
  i ← names c !! path; n ← nodes c !! i; Some (i, n).

Definition metadata_of (i : Z) (n : Node) : Metadata :=
  {| Metadata_file_type := Node_type n; Metadata_dev := 0; Metadata_ino := i;
     Metadata_uid := Node_uid n; Metadata_mode := Node_mode n; Metadata_len := len (Node_data n) |}.

Definition with_data (data : bytes) (n : Node) : Node :=
  {| Node_type := Node_type n; Node_uid := Node_uid n; Node_mode := Node_mode n; Node_data := data |}.
Definition with_mode (mode : Z) (n : Node) : Node :=
  {| Node_type := Node_type n; Node_uid := Node_uid n; Node_mode := mode; Node_data := Node_data n |}.

Definition renamed (f : gmap str Z → gmap str Z) (c : Contents) : Contents :=
  {| names := f (names c); nodes := nodes c |}.
Definition updated (i : Z) (n : Node) (c : Contents) : Contents :=
  {| names := names c; nodes := <[i := n]> (nodes c) |}.
Definition created (path : str) (i : Z) (n : Node) (c : Contents) : Contents :=
  {| names := <[path := i]> (names c); nodes := <[i := n]> (nodes c) |}.
Definition swap_names (left right : str) (i j : Z) (m : gmap str Z) : gmap str Z :=
  <[left := j]> (<[right := i]> m).

(** No name and no file has this inode. *)
Definition unused (i : Z) (c : Contents) : Prop :=
  (∀ path j, names c !! path = Some j → j ≠ i) ∧ nodes c !! i = None.

(** [path] leads to file [i] holding [data]. *)
Definition holds (path : str) (i : Z) (data : bytes) (c : Contents) : Prop :=
  names c !! path = Some i ∧ ∃ n, nodes c !! i = Some n ∧ Node_data n = data.

Lemma find_node_Some c path i n :
  find_node c path = Some (i, n) ↔ names c !! path = Some i ∧ nodes c !! i = Some n.
Proof.
  unfold find_node. destruct (names c !! path) as [j|]; cbn; [|naive_solver].
  destruct (nodes c !! j) as [m|] eqn:Hj; cbn; naive_solver.
Qed.

Lemma holds_renamed f path i data c :
  holds path i data c → f (names c) !! path = Some i → holds path i data (renamed f c).
Proof. by intros [_ Hn] Hp. Qed.
Lemma holds_created path i data name j n c :
  holds path i data c → names c !! name = None → unused j c → holds path i data (created name j n c).
Proof.
  intros [Hp (m & Hm & Hdata)] Hnone [_ Hj]. split; cbn.
  - rewrite lookup_insert_ne; [done|]. by intros ->; congruence.
  - exists m. split; [|done]. rewrite lookup_insert_ne; [done|]. by intros ->; congruence.
Qed.
Lemma holds_mode path i data j mode n c :
  holds path i data c → nodes c !! j = Some n → holds path i data (updated j (with_mode mode n) c).
Proof.
  intros [Hp (m & Hm & Hdata)] Hj. split; cbn; [done|].
  destruct (decide (j = i)) as [->|Hne].
  - exists (with_mode mode n). rewrite lookup_insert_eq. split; [done|]. cbn. congruence.
  - exists m. by rewrite lookup_insert_ne.
Qed.
Lemma holds_other path i data j n c :
  holds path i data c → j ≠ i → holds path i data (updated j n c).
Proof.
  intros [Hp (m & Hm & Hdata)] Hj. split; cbn; [done|]. exists m. by rewrite lookup_insert_ne.
Qed.

(** ** What a call does *)

Class DiskView (W : Type) := { view : W → Contents; trail : W → list Contents }.

Notation Effect := (Effects.Effect Contents IoError).

Definition creates (path : str) (c : Contents) (i : Z) (c' : Contents) : Prop :=
  names c !! path = None ∧ unused i c ∧
  ∃ n, Node_type n = FileType_File ∧ Node_data n = [] ∧ c' = created path i n c.

Definition writes (file : Z) (data : bytes) : Effect unit := λ c r c',
  match r with
  | Ok _ => ∃ n, nodes c !! file = Some n ∧ c' = updated file (with_data (Node_data n ++ data) n) c
  | Err _ => c' = c ∨ ∃ n k, nodes c !! file = Some n ∧
               c' = updated file (with_data (Node_data n ++ take k data) n) c
  end.

Section obeys.
Context {W : Type} `{DiskView W}.

Definition recorded (w w' : W) : Prop :=
  (view w' = view w ∧ trail w' = trail w) ∨ trail w' = trail w ++ [view w'].

Definition Obeys {A} (m : M W IoError A) (effect : Effect A) : Prop :=
  ∀ w, effect (view w) (fst (m w)) (view (snd (m w))) ∧ recorded w (snd (m w)).
End obeys.

Class DiskLaws (W : Type) `{Files W, PolicyFiles W, DiskView W} : Prop := {
  symlink_metadata_law path : Obeys (symlink_metadata path)
    (looks (λ c m, ∃ i n, find_node c path = Some (i, n) ∧ m = metadata_of i n));
  open_file_law path : Obeys (open_file path)
    (looks (λ c i, ∃ n, find_node c path = Some (i, n)));
  file_metadata_law file : Obeys (file_metadata file)
    (looks (λ c m, ∃ n, nodes c !! file = Some n ∧ m = metadata_of file n));
  read_to_end_law file count : Obeys (read_to_end file count)
    (looks (λ c data, ∃ n, nodes c !! file = Some n ∧ data = take (Z.to_nat count) (Node_data n)));
  sync_all_law file : Obeys (sync_all file) (looks (λ _ _, True));
  flock_exclusive_law file : Obeys (flock_exclusive file) (looks (λ _ _, True));
  flock_unlock_law file : Obeys (flock_unlock file) (looks (λ _ _, True));
  create_new_law path mode : Obeys (create_new path mode) (changes (creates path));
  open_or_create_law path mode : Obeys (open_or_create path mode)
    (changes (λ c i c', (c' = c ∧ ∃ n, find_node c path = Some (i, n)) ∨ creates path c i c'));
  set_file_permissions_law file mode : Obeys (set_file_permissions file mode)
    (changes (λ c _ c', ∃ n, nodes c !! file = Some n ∧ c' = updated file (with_mode mode n) c));
  set_permissions_law path mode : Obeys (set_permissions path mode)
    (changes (λ c _ c', ∃ i n, find_node c path = Some (i, n) ∧ c' = updated i (with_mode mode n) c));
  write_all_law file data : Obeys (write_all file data) (writes file data);
  remove_file_law path : Obeys (remove_file path)
    (changes (λ c _ c', c' = renamed (delete path) c));
  rename_exchange_law left right : Obeys (rename_exchange left right)
    (changes (λ c _ c', ∃ i j, names c !! left = Some i ∧ names c !! right = Some j ∧
                         c' = renamed (swap_names left right i j) c));
  rename_noreplace_law left right : Obeys (rename_noreplace left right)
    (changes (λ c _ c', ∃ i, names c !! left = Some i ∧ names c !! right = None ∧
                         c' = renamed (λ m, <[right := i]> (delete left m)) c));
  fetch_transaction_law w : view (snd (fetch_transaction w)) = view w ∧
                            trail (snd (fetch_transaction w)) = trail w
}.

(** ** A file system whose calls may fail

    [faults] says which calls fail, and how much a failing write has written. *)

Record Disk := {
  contents : Contents;
  fresh : Z;
  transaction : Z;
  ticks : nat;
  history : list Contents
}.

#[export] Instance disk_view : DiskView Disk := {| view := contents; trail := history |}.

Definition no_such_file : IoError := {| IoError_kind := IoError_NotFound; IoError_text := "not found" |}.
Definition file_exists : IoError := {| IoError_kind := IoError_AlreadyExists; IoError_text := "exists" |}.
Definition io_error : IoError := {| IoError_kind := IoError_Other; IoError_text := "input/output" |}.

Section disk.
Context (faults : nat → option nat) (euid : Z).

Definition tick (d : Disk) : Disk :=
  {| contents := contents d; fresh := fresh d + 1; transaction := transaction d;
     ticks := S (ticks d); history := history d |}.
Definition change (c : Contents) (d : Disk) : Disk :=
  {| contents := c; fresh := fresh d; transaction := transaction d; ticks := ticks d;
     history := history d ++ [c] |}.

(** A call that looks at the contents, and one that changes them. *)
Definition look {A} (f : Contents → result A IoError) : M Disk IoError A := λ d,
  match faults (ticks d) with
  | Some _ => (Err io_error, tick d)
  | None => (f (contents d), tick d)
  end.
Definition act {A} (f : Z → Contents → result (A * Contents) IoError) : M Disk IoError A := λ d,
  match faults (ticks d) with
  | Some _ => (Err io_error, tick d)
  | None => match f (fresh d) (contents d) with
            | Ok (a, c) => (Ok a, change c (tick d))
            | Err e => (Err e, tick d)
            end
  end.

Definition node_at (path : str) (c : Contents) : result (Z * Node) IoError :=
  ok_or (find_node c path) no_such_file.
Definition node_of (file : Z) (c : Contents) : result Node IoError := ok_or (nodes c !! file) io_error.
Definition name_at (path : str) (c : Contents) : result Z IoError := ok_or (names c !! path) no_such_file.
Definition vacant (path : str) (c : Contents) : result unit IoError :=
  match names c !! path with Some _ => Err file_exists | None => Ok tt end.

Definition is_unused (i : Z) (c : Contents) : bool :=
  bool_decide (nodes c !! i = None ∧ map_Forall (λ _ j, j ≠ i) (names c)).
Definition create (path : str) (mode i : Z) (c : Contents) : result (File * Contents) IoError :=
  let? _ := vacant path c in
  if is_unused i c
  then Ok (i, created path i {| Node_type := FileType_File; Node_uid := euid; Node_mode := mode;
                                Node_data := [] |} c)
  else Err io_error.
Definition open_existing (path : str) (mode i : Z) (c : Contents) : result (File * Contents) IoError :=
  match find_node c path with
  | Some (j, n) => if bool_decide (Node_type n = FileType_File) then Ok (j, c) else Err io_error
  | None => create path mode i c
  end.
Definition append (file : Z) (data : bytes) (c : Contents) : result Contents IoError :=
  let? n := node_of file c in Ok (updated file (with_data (Node_data n ++ data) n) c).
Definition write (file : Z) (data : bytes) : M Disk IoError unit := λ d,
  match faults (ticks d), append file data (contents d) with
  | None, Ok c => (Ok tt, change c (tick d))
  | Some count, _ =>
      match append file (take count data) (contents d) with
      | Ok c => (Err io_error, change c (tick d))
      | Err e => (Err e, tick d)
      end
  | None, Err e => (Err e, tick d)
  end.

#[export] Instance disk_files : Files Disk := {
  symlink_metadata path := look (λ c, let? '(i, n) := node_at path c in Ok (metadata_of i n));
  metadata path := look (λ c, let? '(i, n) := node_at path c in Ok (metadata_of i n));
  read_dir path := look (λ _, Err io_error);
  open_file path := look (λ c, let? '(i, n) := node_at path c in Ok i);
  file_metadata file := look (λ c, let? n := node_of file c in Ok (metadata_of file n));
  read_to_end file count := look (λ c, let? n := node_of file c in Ok (take (Z.to_nat count) (Node_data n)))
}.

#[export] Instance disk_policy_files : PolicyFiles Disk := {
  create_new path mode := act (create path mode);
  open_or_create path mode := act (open_existing path mode);
  set_file_permissions file mode := act (λ _ c,
    let? n := node_of file c in Ok (tt, updated file (with_mode mode n) c));
  set_permissions path mode := act (λ _ c,
    let? '(i, n) := node_at path c in Ok (tt, updated i (with_mode mode n) c));
  write_all := write;
  sync_all file := look (λ _, Ok tt);
  remove_file path := act (λ _ c, let? _ := name_at path c in Ok (tt, renamed (delete path) c));
  rename_exchange left right := act (λ _ c,
    let? i := name_at left c in
    let? j := name_at right c in
    Ok (tt, renamed (swap_names left right i j) c));
  rename_noreplace left right := act (λ _ c,
    let? i := name_at left c in
    let? _ := vacant right c in
    Ok (tt, renamed (λ m, <[right := i]> (delete left m)) c));
  flock_exclusive file := look (λ _, Ok tt);
  flock_unlock file := look (λ _, Ok tt);
  create_dir_all path mode := look (λ _, Ok tt);
  fetch_transaction d :=
    (transaction d, {| contents := contents d; fresh := fresh d;
                       transaction := (transaction d + 1) mod (U64_MAX + 1); ticks := ticks d;
                       history := history d |})
}.

Lemma look_obeys {A} (f : Contents → result A IoError) (sees : Contents → A → Prop) :
  (∀ c a, f c = Ok a → sees c a) → Obeys (look f) (looks sees).
Proof.
  intros Hf d. unfold look. destruct (faults (ticks d)); [by split; [|left]|]. cbn.
  split; [split; [done|]|by left]. destruct (f (contents d)) eqn:Hc; [by apply Hf|done].
Qed.
Lemma act_obeys {A} (f : Z → Contents → result (A * Contents) IoError) does :
  (∀ i c a c', f i c = Ok (a, c') → does c a c') → Obeys (act f) (changes does).
Proof.
  intros Hf d. unfold act. destruct (faults (ticks d)); [by split; [|left]|].
  destruct (f _ _) as [[a c]|e] eqn:Hc; cbn; [|by split; [|left]].
  split; [by eapply Hf|by right].
Qed.

Lemma create_creates path mode i c j c' : create path mode i c = Ok (j, c') → creates path c j c'.
Proof.
  unfold create, vacant. destruct (names c !! path) eqn:Hp; [done|]. cbn.
  destruct (is_unused i c) eqn:Hu; [|done]. intros [= <- <-].
  apply bool_decide_eq_true in Hu as [Hi Hn].
  split; [done|split; [exact (conj Hn Hi)|]]. eexists; split_and!; [| |reflexivity]; reflexivity.
Qed.

Ltac look_at_directory :=
  intros; unfold node_at, node_of, name_at, vacant, ok_or, and_then in *;
  repeat case_match; simplify_eq; eauto 10.

Lemma write_obeys file data : Obeys (write file data) (writes file data).
Proof.
  intros d. unfold write, append, node_of, and_then, ok_or.
  destruct (faults (ticks d)) as [k|]; destruct (nodes (contents d) !! file) as [n|] eqn:Hn; cbn.
  - split; [right; eauto|by right].
  - split; [by left|by left].
  - split; [eauto|by right].
  - split; [by left|by left].
Qed.

#[export] Instance disk_laws : DiskLaws Disk.
Proof.
  split; intros; cbn [symlink_metadata open_file file_metadata read_to_end sync_all flock_exclusive
    flock_unlock create_new open_or_create set_file_permissions set_permissions write_all
    remove_file rename_exchange rename_noreplace fetch_transaction disk_files disk_policy_files];
    try (apply look_obeys || apply act_obeys; [look_at_directory..]); try done.
  - by eapply create_creates.
  - unfold open_existing in *. repeat case_match; simplify_eq; [eauto|].
    right. by eapply create_creates.
  - apply write_obeys.
Qed.
End disk.
