(* ===== verification/PolicyStoreTheorems.v ===== *)
(** * Properties of the policy store

    Whatever fails on the way, a replacement leaves the complete old or the complete new
    policy under the policy's name at every moment, keeps the policy it replaces under
    some name, and its outcome says which of the two is in force. *)

From stdpp Require Import gmap.
From S2P Require Import Prelude Text Effects Host Config Policy PolicyTheorems PolicyStore PolicyDisk.

(** ** Programs on a directory that is always safe *)

Section acts.
Context {W : Type} `{DiskLaws W}.
Context (safe : Contents → Prop).

(** The directory is in a state [P], and was safe after every change. *)
Definition during (P : Contents → Prop) (w : W) : Prop :=
  P (view w) ∧ safe (view w) ∧ Forall safe (trail w).

(** Started in [P], [m] returns [a] in [Q a] or fails with [e] in [R e], and the directory
    is safe all along. *)
Definition acts {E A} (m : M W E A) (P : Contents → Prop) (Q : A → Contents → Prop)
    (R : E → Contents → Prop) : Prop :=
  ∀ w, during P w → wp m (λ a, during (Q a)) (λ e, during (R e)) w.

Lemma during_mono (P Q : Contents → Prop) w : during P w → (∀ c, P c → safe c → Q c) → during Q w.
Proof. intros (? & ? & ?) HPQ. split_and!; auto. Qed.

Lemma acts_mono {E A} (m : M W E A) P P' Q (Q' : A → Contents → Prop) R (R' : E → Contents → Prop) :
  acts m P Q R → (∀ c, P' c → safe c → P c) → (∀ a c, Q a c → safe c → Q' a c) →
  (∀ e c, R e c → safe c → R' e c) → acts m P' Q' R'.
Proof.
  intros Hm HP HQ HR w Hw. eapply wp_mono; [apply Hm; by eapply during_mono|..]; intros x w' Hw';
    (eapply during_mono; [exact Hw'|auto]).
Qed.
Lemma acts_pre {E A} (m : M W E A) (P P' : Contents → Prop) Q R :
  acts m P Q R → (∀ c, P' c → safe c → P c) → acts m P' Q R.
Proof. intros Hm HP. by eapply acts_mono. Qed.
(** A fact of the state is one of the proof. *)
Lemma acts_given {E A} (F : Prop) (m : M W E A) (P : Contents → Prop) Q R :
  (∀ c, P c → F) → (F → acts m P Q R) → acts m P Q R.
Proof. intros HF Hm w Hw. apply Hm; [|done]. by eapply HF, Hw. Qed.
Lemma acts_ret {E A} (a : A) (P : Contents → Prop) (Q : A → Contents → Prop) R :
  (∀ c, P c → safe c → Q a c) → acts (E:=E) (ret a) P Q R.
Proof. intros HQ w Hw. apply wp_ret. by eapply during_mono. Qed.
Lemma acts_fail {E A} (e : E) (P : Contents → Prop) Q (R : E → Contents → Prop) :
  (∀ c, P c → safe c → R e c) → acts (A:=A) (fail e) P Q R.
Proof. intros HR w Hw. apply wp_fail. by eapply during_mono. Qed.
Lemma acts_lift {E A} (r : result A E) (P : Contents → Prop) Q R :
  (∀ a c, r = Ok a → P c → safe c → Q a c) → (∀ e c, r = Err e → P c → safe c → R e c) →
  acts (lift r) P Q R.
Proof. intros HQ HR w Hw. apply wp_lift; intros x Hx; (eapply during_mono; [exact Hw|auto]). Qed.
Lemma acts_bind {E A B} (m : M W E A) (k : A → M W E B) P Q R T :
  acts m P Q T → (∀ a, acts (k a) (Q a) R T) → acts (bind m k) P R T.
Proof.
  intros Hm Hk w Hw. apply wp_bind.
  eapply wp_mono; [by apply Hm| |done]. intros a w' Hw'. by apply Hk.
Qed.
Lemma acts_lift_bind {E A B} (r : result A E) (k : A → M W E B) (P : Contents → Prop) Q R :
  (∀ a, r = Ok a → acts (k a) P Q R) → (∀ e, r = Err e → ∀ c, P c → R e c) →
  acts (bind (lift r) k) P Q R.
Proof.
  intros Hk HR w Hw. apply wp_bind, wp_lift; [intros a Ha; by apply Hk|].
  intros e He. eapply during_mono; [exact Hw|]. eauto.
Qed.
Lemma acts_attempt {E F A} (m : M W E A) P Q R T :
  acts m P Q R →
  acts (E:=F) (attempt m) P (λ r, match r with Ok a => Q a | Err e => R e end) T.
Proof. intros Hm w Hw. apply wp_attempt. eapply wp_mono; [by apply Hm|done..]. Qed.
Lemma acts_map_error {E F A} (f : E → F) (m : M W E A) P Q R :
  acts m P Q (λ e, R (f e)) → acts (map_error f m) P Q R.
Proof. intros Hm w Hw. apply wp_map_error. by apply Hm. Qed.
Lemma acts_context {A} prefix (m : M W IoError A) P Q (R : Contents → Prop) :
  acts m P Q (λ _, R) → acts (context prefix m) P Q (λ _, R).
Proof. apply (acts_map_error _ m P Q (λ _, R)). Qed.
Lemma acts_ignore {E F A} (m : M W E A) P (Q : Contents → Prop) T :
  acts m P (λ _, Q) (λ _, Q) → acts (E:=F) (ignore m) P (λ _, Q) T.
Proof.
  intros Hm. eapply acts_bind; [by apply acts_attempt|]. intros [a|e]; by apply acts_ret.
Qed.

(** *** Calls *)

Lemma recorded_during w w' Q P :
  during P w → recorded w w' → Q (view w') → safe (view w') → during Q w'.
Proof.
  intros (_ & _ & Htrail) Hrec HQ Hsafe. split_and!; [done..|].
  destruct Hrec as [[_ Heq]|Heq]; rewrite Heq; [done|].
  apply Forall_app. by split; [|constructor].
Qed.

Lemma acts_obeys {A} (m : M W IoError A) effect P Q R :
  Obeys m effect →
  (∀ c r c', P c → safe c → effect c r c' →
     match r with Ok a => Q a c' | Err e => R e c' end ∧ safe c') →
  acts m P Q R.
Proof.
  intros Hm HQ w Hw. destruct (Hm w) as [Heff Hrec].
  destruct (HQ _ _ _ (proj1 Hw) (proj1 (proj2 Hw)) Heff) as [HQR Hsafe].
  unfold wp. destruct (m w) as [[a|e] w']; by eapply recorded_during.
Qed.
Lemma acts_looks {A} (m : M W IoError A) sees (P : Contents → Prop) :
  Obeys m (looks sees) → acts m P (λ a c, P c ∧ sees c a) (λ _, P).
Proof.
  intros Hm. eapply acts_obeys; [done|]. intros c r c' HP Hs [-> Hr]. split; [|done].
  by destruct r.
Qed.
Lemma acts_changes {A} (m : M W IoError A) does (P : Contents → Prop) Q (R : IoError → Contents → Prop) :
  Obeys m (changes does) →
  (∀ c a c', P c → safe c → does c a c' → Q a c' ∧ safe c') →
  (∀ e c, P c → safe c → R e c) → acts m P Q R.
Proof.
  intros Hm HQ HR. eapply acts_obeys; [done|]. intros c [a|e] c' HP Hs Hc; [by eapply HQ|].
  cbn in Hc. subst. eauto.
Qed.
Lemma acts_quiet {A} (m : M W IoError A) sees (P : Contents → Prop) (Q : A → Contents → Prop)
    (R : IoError → Contents → Prop) :
  Obeys m (looks sees) → (∀ a c, P c → Q a c) → (∀ e c, P c → R e c) → acts m P Q R.
Proof.
  intros Hm HQ HR. eapply acts_mono; [exact (acts_looks m sees P Hm)|auto| |auto].
  intros a c [] _. auto.
Qed.

Lemma acts_look_bind {A B} prefix (m : M W IoError A) (k : A → M W string B) sees P R T :
  Obeys m (looks sees) → (∀ e c, P c → T e c) →
  (∀ a, acts (k a) (λ c, P c ∧ sees c a) R T) → acts (bind (context prefix m) k) P R T.
Proof.
  intros Hm HT Hk. eapply acts_bind; [|exact Hk]. apply acts_map_error.
  eapply acts_mono; [exact (acts_looks _ _ P Hm)|auto..].
Qed.

(** ** The lock *)

Context (euid : Z).

(** Making the lock file or its mode private does not disturb [P]. *)
Definition undisturbed (P : Contents → Prop) : Prop :=
  ∀ c, P c → safe c →
    (∀ path i n, names c !! path = None → unused i c →
       P (created path i n c) ∧ safe (created path i n c)) ∧
    (∀ i mode n, nodes c !! i = Some n →
       P (updated i (with_mode mode n) c) ∧ safe (updated i (with_mode mode n) c)).

Lemma lock_policy_directory_acts path P :
  undisturbed P → acts (lock_policy_directory euid path) P (λ _, P) (λ _, P).
Proof.
  intros HP. unfold lock_policy_directory.
  eapply acts_bind; [apply (acts_lift _ P (λ _, P)); auto|]. intros parent.
  eapply acts_bind.
  { apply acts_context. eapply (acts_changes _ _ P (λ _, P)); [apply open_or_create_law| |done].
    intros c i c' Hc Hs [[-> _]|(Hnone & Hu & n & _ & _ & ->)]; [done|].
    by apply (HP c Hc Hs). }
  intros file. eapply acts_look_bind; [apply file_metadata_law|done|]. intros metadata.
  destruct (_ || _); [apply acts_fail; intros; tauto|].
  eapply acts_bind.
  { apply acts_context. eapply acts_pre; [|by intros c [Hc _] _; exact Hc].
    eapply (acts_changes _ _ P (λ _, P)); [apply set_file_permissions_law| |done].
    intros c _ c' Hc Hs (n & Hn & ->). by apply (HP c Hc Hs). }
  intros []. eapply acts_bind.
  { apply acts_context. by eapply (acts_quiet _ _ P (λ _, P)); [apply flock_exclusive_law|..]. }
  intros []. by apply acts_ret.
Qed.
(** ** Reading *)

Context {D : Type} (from_toml : str → result RawConfig string)
  (parse_document : str → result D string).

Notation Snapshot := (PolicySnapshot D).
Notation read_policy := (read_policy from_toml parse_document euid).

(** [PolicySnapshot_source] is the file's text, and [PolicySnapshot_inode] its number. *)
Definition read_from (path : str) (s : Snapshot) : Contents → Prop :=
  holds path (PolicySnapshot_inode s) (PolicySnapshot_source s).

Lemma Config_read_acts path P :
  acts (Config_read from_toml parse_document euid path) P
    (λ '(s, _) c, P c ∧ read_from path s c) (λ _, P).
Proof.
  unfold Config_read. destruct (negb (is_absolute path)); [by apply acts_fail|].
  eapply acts_look_bind; [apply symlink_metadata_law|done|]. intros path_metadata.
  destruct (negb (is_file path_metadata)); [apply acts_fail; intros; tauto|].
  eapply acts_look_bind; [apply open_file_law|by intros e c []|]. intros file.
  eapply acts_look_bind; [apply file_metadata_law|by intros e c [[]]|]. intros metadata.
  destruct (negb _ || _); [apply acts_fail; intros; tauto|].
  destruct (negb _ || _); [apply acts_fail; intros; tauto|].
  destruct (_ <? _); [apply acts_fail; intros; tauto|].
  eapply acts_look_bind; [apply read_to_end_law|by intros e c [[[]]]|]. intros data.
  destruct (MAX_CONFIG_BYTES <? len data) eqn:Hlen; [apply acts_fail; intros; tauto|].
  destruct (negb (utf8_valid data)); [apply acts_fail; intros; tauto|].
  eapply acts_bind.
  { apply acts_lift; [intros a c _ Hc _; exact Hc|intros; tauto]. }
  intros [[enabled config] raw]. eapply acts_bind.
  { apply acts_lift; [intros a c _ Hc _; exact Hc|intros; tauto]. }
  intros document. apply acts_ret.
  intros c [[[[Hc _] (n & Hn)] (n' & Hn' & ->)] (n2 & Hn2 & ->)] _. split; [done|].
  apply find_node_Some in Hn as [Hname Hnode]. split; cbn; [done|]. exists n. split; [done|].
  pose proof (eq_trans (eq_sym Hn2) Hnode) as [= ->]. symmetry. apply take_ge.
  apply Z.ltb_ge in Hlen. unfold len in Hlen. rewrite length_take in Hlen. lia.
Qed.
Lemma read_policy_acts path P :
  acts (read_policy path) P (λ s c, P c ∧ read_from path s c) (λ _, P).
Proof.
  eapply acts_bind; [apply Config_read_acts|]. intros [s config]. by apply acts_ret.
Qed.

End acts.

(** ** A replacement *)

Section replacement.
Context {W : Type} `{DiskLaws W}.
Context (from_toml : str → result RawConfig string) (euid pid : Z).
(** The policy file [target], file [i0] holding [old], is to hold [candidate]. *)
Context (target : str) (i0 : Z) (old candidate : str).

Notation backup := (recovery_policy_path target).

Definition old_in_force : Contents → Prop := holds target i0 old.

(** The candidate is a valid policy, in a file of its own. *)
Definition new_in_force (c : Contents) : Prop :=
  (∃ policy, validate_source from_toml candidate euid = Ok policy) ∧
  ∃ j, j ≠ i0 ∧ holds target j candidate c.

(** The names under which the replaced policy is kept. *)
Definition retains (path : str) : Prop :=
  path = backup ∨
  ∃ parent serial, path_parent target = Some parent ∧ path = staging_path pid parent serial.

Definition exchanged (path : str) (c : Contents) : Prop :=
  new_in_force c ∧ holds path i0 old c ∧ path ≠ target.

(** The policy in force is the complete old or the complete new one, and the old one has a name. *)
Definition policy_safe (c : Contents) : Prop :=
  old_in_force c ∨ ∃ path, retains path ∧ exchanged path c.

Notation acts := (acts policy_safe).

(** *** Before the exchange *)

Lemma old_safe c : old_in_force c → policy_safe c.
Proof. by left. Qed.

Lemma old_undisturbed : undisturbed policy_safe old_in_force.
Proof.
  intros c Hc _. split; intros.
  - assert (old_in_force (created path i n c)) by (by apply holds_created). eauto using old_safe.
  - assert (old_in_force (updated i (with_mode mode n) c)) by (by apply holds_mode). eauto using old_safe.
Qed.

(** [backed] is what the check of the recovery policy reported. *)
Definition ready (backed : bool) (c : Contents) : Prop :=
  old_in_force c ∧ (backed = true → names c !! backup ≠ None).

(** The candidate file [j], so far with [data], is staged at [path]. *)
Definition staged (backed : bool) (data : bytes) (path : str) (j : Z) (c : Contents) : Prop :=
  old_in_force c ∧ holds path j data c ∧ j ≠ i0 ∧ path ≠ target ∧ (backed = true → path ≠ backup).

Lemma check_recovery_target_acts :
  acts (check_recovery_target euid backup) old_in_force ready (λ _, old_in_force).
Proof.
  unfold check_recovery_target. eapply acts_bind.
  { apply acts_attempt. eapply (acts_looks _ _ _ old_in_force), symlink_metadata_law. }
  intros [metadata|error].
  - destruct (_ || _ || _); [apply acts_fail; intros; tauto|].
    apply acts_ret. intros c [Hc (i & n & Hn & _)] _. split; [done|].
    apply find_node_Some in Hn as [Hn _]. cbn. congruence.
  - destruct (IoError_kind error); [by apply acts_ret|by apply acts_fail..].
Qed.

Lemma remove_staged_acts path (P Q : Contents → Prop) :
  (∀ c, P c → policy_safe c → Q (renamed (delete path) c) ∧ policy_safe (renamed (delete path) c)) →
  (∀ c, P c → Q c) →
  acts (ignore (remove_file path) : M W string unit) P (λ _, Q) (λ _, Q).
Proof.
  intros HPQ HQ. apply acts_ignore. eapply acts_changes; [apply remove_file_law| |auto].
  intros c [] c' Hc Hs ->. by apply HPQ.
Qed.

Lemma old_renamed path c :
  old_in_force c → path ≠ target →
  old_in_force (renamed (delete path) c) ∧ policy_safe (renamed (delete path) c).
Proof.
  intros Hc Hne. assert (old_in_force (renamed (delete path) c)); [|eauto using old_safe].
  apply holds_renamed; [done|]. rewrite lookup_delete_ne; [by destruct Hc|done].
Qed.

Lemma staged_written backed path j data more c n :
  staged backed data path j c → nodes c !! j = Some n →
  staged backed (data ++ more) path j (updated j (with_data (Node_data n ++ more) n) c) ∧
  policy_safe (updated j (with_data (Node_data n ++ more) n) c).
Proof.
  intros (Hold & [Hp (m & Hm & Hdata)] & Hne & Hpath & Hb) Hn.
  assert (old_in_force (updated j (with_data (Node_data n ++ more) n) c)) as Hold' by by apply holds_other.
  split; [|by left]. split_and!; [done| |done..]. split; cbn; [done|].
  eexists. rewrite lookup_insert_eq. split; [done|]. cbn. congruence.
Qed.

Lemma fill_staged_acts backed path file :
  acts (fill_staged path file candidate) (staged backed [] path file)
    (λ t c, TemporaryPolicy_path t = path ∧ TemporaryPolicy_file t = file ∧
            staged backed candidate path file c) (λ _, old_in_force).
Proof.
  unfold fill_staged. eapply acts_bind.
  { apply acts_context. eapply (acts_changes _ _ _ _ (λ _, staged backed [] path file));
      [apply set_file_permissions_law| |by intros _ c []].
    intros c _ c' (Hold & Hstaged & Hrest) _ (n & Hn & ->).
    assert (old_in_force (updated file (with_mode PRIVATE_FILE n) c)) by by apply holds_mode.
    split; [|by left]. split; [done|]. split; [by apply holds_mode|done]. }
  intros []. eapply acts_bind.
  { apply (acts_attempt _ _ _ (λ _, staged backed candidate path file)
             (λ _ c, ∃ data, staged backed data path file c)).
    eapply acts_bind.
    - apply (acts_obeys _ _ _ _ (λ _, staged backed candidate path file)
               (λ _ c, ∃ data, staged backed data path file c) (write_all_law file candidate)).
      intros c [[]|e] c' Hc Hs Hr.
      + destruct Hr as (n & Hn & ->). by apply (staged_written _ _ _ [] candidate).
      + destruct Hr as [->|(n & k & Hn & ->)]; [eauto|].
        destruct (staged_written _ _ _ _ (take k candidate) _ _ Hc Hn). eauto.
    - intros []. eapply acts_quiet; [apply sync_all_law|by auto|by eauto]. }
  intros [[]|e].
  - by apply acts_ret.
  - apply (acts_bind _ _ _ _ (λ _, old_in_force)); [|intros []; by apply acts_fail].
    apply remove_staged_acts.
    + intros c (data & Hold & _ & _ & Hne & _) _. by apply old_renamed.
    + by intros c (data & Hold & _).
Qed.

Lemma stage_acts backed attempts parent :
  acts (stage pid attempts parent candidate) (ready backed)
    (λ t c, staged backed candidate (TemporaryPolicy_path t) (TemporaryPolicy_file t) c ∧
            ∃ serial, TemporaryPolicy_path t = staging_path pid parent serial)
    (λ _, old_in_force).
Proof.
  induction attempts as [|attempts IH]; cbn [stage]; [apply acts_fail; by intros c []|].
  apply (acts_bind _ _ _ _ (λ _, ready backed)).
  { intros w (Hready & Hs & Htrail). destruct (fetch_transaction_law w) as [Hview Htrail'].
    unfold wp. destruct (fetch_transaction w) as [serial w']. cbn in *.
    by rewrite <-Hview, <-Htrail' in *. }
  intros serial. apply (acts_bind _ _ _ _ (λ r, match r with
    | Ok file => staged backed [] (staging_path pid parent serial) file
    | Err _ => ready backed end)).
  { apply (acts_attempt _ _ _ _ (λ _, ready backed)). eapply acts_changes; [apply create_new_law| |auto].
    intros c i c' [Hold Hb] _ (Hnone & Hu & n & Htype & Hdata & ->).
    assert (old_in_force (created (staging_path pid parent serial) i n c)) by by apply holds_created.
    split; [|by left]. split_and!; [done| | | |].
    - split; cbn; [apply lookup_insert_eq|]. exists n. by rewrite lookup_insert_eq.
    - intros ->. destruct Hold as [Hold _], Hu as [Hu _]. by apply Hu in Hold.
    - intros Heq. destruct Hold as [Hold _]. congruence.
    - intros Hbt Heq. apply (Hb Hbt). congruence. }
  intros [file|error].
  - eapply acts_mono; [apply (fill_staged_acts backed)|auto| |auto].
    intros t c (Hpath & Hfile & Hstaged) _. rewrite Hpath, Hfile. eauto.
  - destruct (IoError_kind error); [apply acts_fail; by intros c []|done|apply acts_fail; by intros c []..].
Qed.

Lemma TemporaryPolicy_create_acts backed :
  acts (TemporaryPolicy_create pid target candidate) (ready backed)
    (λ t c, staged backed candidate (TemporaryPolicy_path t) (TemporaryPolicy_file t) c ∧
            retains (TemporaryPolicy_path t))
    (λ _, old_in_force).
Proof.
  unfold TemporaryPolicy_create. destruct (path_parent target) as [parent|] eqn:Hparent.
  - apply acts_lift_bind; [|done]. intros p [= <-].
    eapply acts_mono; [apply (stage_acts backed)|auto| |auto].
    intros t c [Hstaged [serial Ht]] _. split; [done|]. right. eauto.
  - apply acts_lift_bind; [done|]. intros e _ c []. done.
Qed.

(** *** From the exchange on *)

Context {D : Type} (parse_document : str → result D string) (expected : PolicySnapshot D).
Context (Hpath : PolicySnapshot_path expected = target).
Context (Hsource : PolicySnapshot_source expected = old).
Context (Hvalid : ∃ policy, validate_source from_toml candidate euid = Ok policy).

Definition swapped (backed : bool) (path : str) (j : Z) (c : Contents) : Prop :=
  holds target j candidate c ∧ holds path i0 old c ∧ j ≠ i0 ∧ path ≠ target ∧
  (backed = true → path ≠ backup).

(** The replacement is done: [path], where it was staged, is in nobody's way. *)
Definition kept (path : str) (c : Contents) : Prop :=
  new_in_force c ∧ holds backup i0 old c ∧ path ≠ target ∧ path ≠ backup.

Lemma swapped_exchanged backed path j c : swapped backed path j c → exchanged path c.
Proof. intros (Hnew & Hold & Hj & Hne & _). split_and!; [|done..]. split; [done|]. by exists j. Qed.
Lemma swapped_safe backed path j c : retains path → swapped backed path j c → policy_safe c.
Proof. right. eauto using swapped_exchanged. Qed.
Lemma backup_differs : backup ≠ target.
Proof.
  unfold recovery_policy_path, suffixed_path. intros Heq%(f_equal length).
  rewrite length_app in Heq. vm_compute (length (bstr _)) in Heq. lia.
Qed.
Lemma kept_safe path c : kept path c → policy_safe c.
Proof.
  intros (Hnew & Hold & _). right. exists backup. split; [by left|].
  split_and!; [done..|apply backup_differs].
Qed.

Lemma swap_names_left left right i j m : swap_names left right i j m !! left = Some j.
Proof. apply lookup_insert_eq. Qed.
Lemma swap_names_right left right i j m :
  left ≠ right → swap_names left right i j m !! right = Some i.
Proof. intros Hne. unfold swap_names. by rewrite lookup_insert_ne, lookup_insert_eq. Qed.
Lemma swap_names_other left right i j m path :
  path ≠ left → path ≠ right → swap_names left right i j m !! path = m !! path.
Proof. intros. unfold swap_names. by rewrite !lookup_insert_ne. Qed.

(** A file keeps its text under a new name. *)
Lemma holds_moved f path path' i data c :
  holds path i data c → f (names c) !! path' = Some i → holds path' i data (renamed f c).
Proof. by intros [_ Hn] Hp. Qed.

Lemma exchange_acts backed path j :
  retains path →
  acts (rename_exchange path target) (staged backed candidate path j)
    (λ _, swapped backed path j) (λ _, staged backed candidate path j).
Proof.
  intros Hret. eapply acts_changes; [apply rename_exchange_law| |auto].
  intros c [] c' (Hold & Hnew & Hj & Hne & Hb) _ (i & k & Hi & Hk & ->).
  assert (i = j ∧ k = i0) as [-> ->] by (destruct Hold, Hnew; split; congruence).
  assert (swapped backed path j (renamed (swap_names path target j i0) c)); [|eauto using swapped_safe].
  split_and!; [| |done..].
  - eapply holds_moved; [done|]. by apply swap_names_right.
  - eapply holds_moved; [done|]. apply swap_names_left.
Qed.
Lemma exchange_back_acts backed path j :
  retains path →
  acts (rename_exchange path target) (swapped backed path j)
    (λ _ c, old_in_force c ∧ path ≠ target) (λ _, swapped backed path j).
Proof.
  intros Hret. eapply acts_changes; [apply rename_exchange_law| |auto].
  intros c [] c' (Hnew & Hold & Hj & Hne & Hb) _ (i & k & Hi & Hk & ->).
  assert (i = i0 ∧ k = j) as [-> ->] by (destruct Hold, Hnew; split; congruence).
  assert (old_in_force (renamed (swap_names path target i0 j) c)); [|by eauto using old_safe].
  eapply holds_moved; [done|]. by apply swap_names_right.
Qed.

Lemma rollback_acts backed t metadata j :
  retains (TemporaryPolicy_path t) →
  acts (rollback_or_preserve t target metadata) (swapped backed (TemporaryPolicy_path t) j)
    (λ _ c, old_in_force c ∧ TemporaryPolicy_path t ≠ target) (λ u c, snd u = true ∧ swapped backed (TemporaryPolicy_path t) j c).
Proof.
  intros Hret. unfold rollback_or_preserve, rollback_exchange. apply acts_map_error.
  eapply acts_look_bind; [apply symlink_metadata_law|done|]. intros m.
  destruct (_ || _ || _); [apply acts_fail; cbn; intros; tauto|].
  apply acts_map_error. eapply acts_mono; [by apply exchange_back_acts|by intros c [] _|auto|].
  by intros e c Hc _.
Qed.

Lemma kept_renamed path f c :
  kept path c → (∀ name, name ≠ path → f (names c) !! name = names c !! name) → kept path (renamed f c).
Proof.
  intros ((_ & j & Hj & Hnew) & Hold & Hne & Hne') Hf. split_and!; [|by eapply holds_moved; [|rewrite Hf; [by destruct Hold|done]]|done..].
  split; [done|]. exists j. split; [done|].
  eapply holds_moved; [done|]. rewrite Hf; [by destruct Hnew|done].
Qed.
Lemma kept_mode path i mode n c :
  kept path c → nodes c !! i = Some n → kept path (updated i (with_mode mode n) c).
Proof.
  intros ((_ & j & Hj & Hnew) & Hold & Hne) Hi. split_and!; [|by apply holds_mode|tauto..].
  split; [done|]. exists j. split; [done|by apply holds_mode].
Qed.

(** What an error leaves: the two policies exchanged and both kept, or one in force. *)
Definition unsaved (path : str) (u : Unsaved) (c : Contents) : Prop :=
  if snd u then exchanged path c else (old_in_force c ∧ path ≠ target) ∨ kept path c.

Lemma retain_backup_acts backed path j :
  retains path →
  acts (if (backed : bool) then rename_exchange path backup else rename_noreplace path backup)
    (swapped backed path j) (λ _, kept path) (λ _, swapped backed path j).
Proof.
  intros Hret. destruct backed.
  - eapply acts_changes; [apply rename_exchange_law| |auto].
    intros c [] c' (Hnew & Hold & Hj & Hne & Hb) _ (i & k & Hi & Hk & ->).
    specialize (Hb eq_refl). assert (i = i0) as -> by (destruct Hold; congruence).
    assert (kept path (renamed (swap_names path backup i0 k) c)); [|eauto using kept_safe].
    split_and!; [|eapply holds_moved; [done|by apply swap_names_right]|done..].
    split; [done|]. exists j. split; [done|]. eapply holds_moved; [done|].
    rewrite swap_names_other; [by destruct Hnew|done|apply not_eq_sym, backup_differs].
  - eapply acts_changes; [apply rename_noreplace_law| |auto].
    intros c [] c' (Hnew & Hold & Hj & Hne & _) _ (i & Hi & Hnone & ->).
    assert (i = i0) as -> by (destruct Hold; congruence).
    assert (path ≠ backup) as Hb by congruence.
    assert (kept path (renamed (λ m, <[backup:=i0]> (delete path m)) c)); [|eauto using kept_safe].
    split_and!; [|eapply holds_moved; [done|apply lookup_insert_eq]|done..].
    split; [done|]. exists j. split; [done|]. eapply holds_moved; [done|].
    rewrite lookup_insert_ne, lookup_delete_ne; [by destruct Hnew|done|apply backup_differs].
Qed.

Lemma retain_displaced_acts backed t j metadata :
  retains (TemporaryPolicy_path t) →
  acts (retain_displaced from_toml parse_document euid expected backed t metadata)
    (swapped backed (TemporaryPolicy_path t) j) (λ _, kept (TemporaryPolicy_path t))
    (unsaved (TemporaryPolicy_path t)).
Proof.
  intros Hret.
  assert (∀ text : string,
      acts (rollback_or_preserve t target metadata ;! fail (text, false) : M W Unsaved unit)
        (swapped backed (TemporaryPolicy_path t) j) (λ _, kept (TemporaryPolicy_path t))
        (unsaved (TemporaryPolicy_path t))) as Hrollback.
  { intros text. apply (acts_bind _ _ _ _ (λ _ c, old_in_force c ∧ TemporaryPolicy_path t ≠ target));
      [|intros []; apply acts_fail; intros c Hc _; exact (or_introl Hc)].
    eapply acts_mono; [by apply (rollback_acts backed t metadata j)|auto|auto|].
    intros [e b] c [Hb Hc] _. cbn in Hb. subst b. by eapply swapped_exchanged. }
  unfold retain_displaced. rewrite Hpath.
  apply (acts_bind _ _ _ _ (λ _, swapped backed (TemporaryPolicy_path t) j)).
  { eapply acts_mono; [apply acts_attempt, (read_policy_acts _ _ _ _ _ (swapped backed (TemporaryPolicy_path t) j))
      |auto| |exact (λ e c Hc _, Hc)].
    intros [s|e] c Hc _; [by destruct Hc|done]. }
  intros displaced. destruct (negb _).
  { destruct displaced; apply Hrollback. }
  eapply acts_bind; [by apply acts_attempt, (retain_backup_acts backed _ j)|].
  intros [[]|e]; [by apply acts_ret|apply Hrollback].
Qed.

Lemma cleanup_acts t (P : Contents → Prop) :
  (∀ c, P c → policy_safe c →
     P (renamed (delete (TemporaryPolicy_path t)) c) ∧ policy_safe (renamed (delete (TemporaryPolicy_path t)) c)) →
  acts (cleanup t) P (λ _, P) (λ _, P).
Proof. intros HP. by apply remove_staged_acts. Qed.

Lemma kept_cleaned path c :
  kept path c → kept path (renamed (delete path) c) ∧ policy_safe (renamed (delete path) c).
Proof.
  intros Hc. assert (kept path (renamed (delete path) c)); [|eauto using kept_safe].
  apply kept_renamed; [done|]. intros name Hne. by rewrite lookup_delete_ne.
Qed.

(** A step after the point of return. *)
Lemma kept_step {A} path (m : M W string A) (Q : A → Contents → Prop) :
  acts m (kept path) Q (λ _, kept path) → acts (dropping m) (kept path) Q (unsaved path).
Proof. intros Hm. apply acts_map_error. eapply acts_mono; [exact Hm|auto..]. intros e c Hc _. by right. Qed.

Lemma sync_directory_acts path (P : Contents → Prop) : acts (sync_directory path) P (λ _, P) (λ _, P).
Proof.
  apply acts_lift_bind; [|done]. intros parent _.
  eapply acts_look_bind; [apply open_file_law|done|]. intros directory.
  apply acts_context. eapply acts_quiet; [apply sync_all_law|by intros _ c []..].
Qed.

(** The outcome of the replacement proper. *)
Definition installed (path : str) (s : PolicySnapshot D) (c : Contents) : Prop :=
  kept path c ∧ read_from target s c.

Lemma install_staged_acts backed t :
  retains (TemporaryPolicy_path t) →
  acts (install_staged from_toml parse_document euid expected backed t)
    (staged backed candidate (TemporaryPolicy_path t) (TemporaryPolicy_file t))
    (installed (TemporaryPolicy_path t)) (unsaved (TemporaryPolicy_path t)).
Proof.
  intros Hret. unfold install_staged. rewrite Hpath.
  set (path := TemporaryPolicy_path t) in *. set (j := TemporaryPolicy_file t).
  assert (∀ u c, snd u = false → staged backed candidate path j c → unsaved path u c) as Hstaged.
  { intros [e b] c Hb (Hold & _ & _ & Hne & _). cbn in Hb. subst b. by left. }
  apply (acts_bind _ _ _ _ (λ _, staged backed candidate path j)).
  { apply acts_map_error, acts_map_error. eapply acts_quiet; [apply file_metadata_law|done|].
    intros e c Hc. by apply Hstaged. }
  intros metadata. apply (acts_bind _ _ _ _ (λ _, swapped backed path j)).
  { apply acts_map_error, acts_map_error. eapply acts_mono; [by apply (exchange_acts backed _ j)|auto|auto|].
    intros e c Hc _. by apply Hstaged. }
  intros []. apply (acts_bind _ _ _ _ (λ _, kept path)); [by apply retain_displaced_acts|]. intros [].
  apply (acts_bind _ _ _ _ (λ _, kept path)).
  { apply kept_step, acts_context. eapply acts_changes; [apply set_permissions_law| |auto].
    intros c [] c' Hc _ (i & n & Hn & ->). apply find_node_Some in Hn as [_ Hn].
    assert (kept path (updated i (with_mode PRIVATE_FILE n) c)); [by apply kept_mode|eauto using kept_safe]. }
  intros []. apply (acts_bind _ _ _ _ (λ _, kept path)).
  { apply kept_step, cleanup_acts. intros c Hc _. by apply kept_cleaned. }
  intros []. apply (acts_bind _ _ _ _ (λ _, kept path)); [apply kept_step, sync_directory_acts|].
  intros []. apply kept_step, read_policy_acts.
Qed.

(** What a replacement reports: the snapshot in force, with the old policy kept beside it. *)
Definition replaced (s : PolicySnapshot D) (c : Contents) : Prop :=
  PolicySnapshot_source s = candidate ∧
  ((candidate = old ∧ old_in_force c) ∨ (new_in_force c ∧ holds backup i0 old c)).

Lemma installed_cleaned path s c :
  installed path s c → installed path s (renamed (delete path) c) ∧ policy_safe (renamed (delete path) c).
Proof.
  intros [Hkept Hread]. destruct (kept_cleaned _ _ Hkept) as [Hkept' Hsafe]. split; [split; [done|]|done].
  eapply holds_moved; [done|]. destruct Hkept as (_ & _ & Hne & _), Hread as [Hread _].
  by rewrite lookup_delete_ne.
Qed.

Lemma installed_replaced path s c : installed path s c → replaced s c.
Proof.
  intros (((Hok & j & Hj & Hnew) & Hold & _) & Hread). split.
  - destruct Hread as [Hr (n & Hn & <-)], Hnew as [Hr' (n' & Hn' & <-)]. congruence.
  - right. split; [split; eauto|done].
Qed.

Lemma with_temporary_acts backed t :
  retains (TemporaryPolicy_path t) →
  acts (with_temporary t (install_staged from_toml parse_document euid expected backed t))
    (staged backed candidate (TemporaryPolicy_path t) (TemporaryPolicy_file t))
    replaced (λ _, policy_safe).
Proof.
  intros Hret. eapply acts_bind; [by apply acts_attempt, install_staged_acts|].
  set (path := TemporaryPolicy_path t) in *. intros [s|[e b]].
  - apply (acts_bind _ _ _ _ (λ _, installed path s)).
    + eapply acts_mono; [apply (cleanup_acts t (installed path s))|auto|auto|by auto].
      intros c Hc _. by apply installed_cleaned.
    + intros []. apply acts_ret. intros c Hc _. by eapply installed_replaced.
  - destruct b.
    + apply (acts_bind _ _ _ _ (λ _, policy_safe)); [by apply acts_ret|intros []; by apply acts_fail].
    + apply (acts_bind _ _ _ _ (λ _, policy_safe)); [|intros []; by apply acts_fail].
      eapply acts_mono; [apply (cleanup_acts t (unsaved path (e, false)))|auto|auto|auto].
      intros c [[Hold Hne]|Hkept] _.
      * destruct (old_renamed path c Hold Hne). split; [by left|done].
      * destruct (kept_cleaned path c Hkept). split; [by right|done].
Qed.
End replacement.

(** ** The whole replacement *)

Section replace.
Context {W : Type} `{DiskLaws W}.
Context {D : Type} (from_toml : str → result RawConfig string)
  (parse_document : str → result D string) (euid pid : Z).

Lemma same_snapshot_iff (left right : PolicySnapshot D) :
  same_snapshot left right = true ↔
  PolicySnapshot_device left = PolicySnapshot_device right ∧
  PolicySnapshot_inode left = PolicySnapshot_inode right ∧
  PolicySnapshot_source left = PolicySnapshot_source right.
Proof. unfold same_snapshot. rewrite !andb_true_iff, !Z.eqb_eq, bool_decide_eq_true. tauto. Qed.

(** The snapshot is that of the file. *)
Definition describes (s : PolicySnapshot D) (i : Z) (data : str) : Prop :=
  PolicySnapshot_inode s = i ∧ PolicySnapshot_source s = data.

Lemma read_from_target target i0 old s c :
  old_in_force target i0 old c → read_from target s c → describes s i0 old.
Proof.
  intros [Hp (n & Hn & <-)] [Hp' (n' & Hn' & Hs)]. rewrite Hp in Hp'. injection Hp' as Hi.
  split; [done|]. rewrite <-Hs. congruence.
Qed.

Lemma replace_locked_acts i0 old expected candidate policy :
  validate_source from_toml candidate euid = Ok policy →
  acts (policy_safe from_toml euid pid (PolicySnapshot_path expected) i0 old candidate)
    (replace_locked from_toml parse_document euid pid expected candidate)
    (old_in_force (PolicySnapshot_path expected) i0 old)
    (λ s c, describes expected i0 old ∧
            replaced from_toml euid (PolicySnapshot_path expected) i0 old candidate s c)
    (λ _, policy_safe from_toml euid pid (PolicySnapshot_path expected) i0 old candidate).
Proof.
  intros Hvalid. set (target := PolicySnapshot_path expected).
  set (safe := policy_safe from_toml euid pid target i0 old candidate).
  assert (∀ c, old_in_force target i0 old c → safe c) as Hold by (intros; by apply old_safe).
  unfold replace_locked. fold target.
  apply (acts_bind _ _ _ _ (λ current c, old_in_force target i0 old c ∧ describes current i0 old)).
  { eapply acts_mono; [apply (read_policy_acts _ _ _ _ _ (old_in_force target i0 old))|auto| |auto].
    intros s c [Hc Hread] _. split; [done|]. by eapply read_from_target. }
  intros current. destruct (same_snapshot expected current) eqn:Hsame; cbn [negb];
    [|apply acts_fail; intros c [Hc _] _; by apply Hold].
  apply same_snapshot_iff in Hsame as (_ & Hinode & Hsource).
  case_bool_decide as Hcandidate.
  { apply acts_ret. intros c [Hc [Hi Hs]] _. split; [split; congruence|]. split; [done|].
    left. split; [congruence|done]. }
  apply (acts_given _ (describes expected i0 old)).
  { intros c [_ [Hi Hs]]. split; congruence. }
  intros Hexpected. apply (acts_bind _ _ _ _ (ready target i0 old)).
  { eapply acts_mono; [by apply check_recovery_target_acts|by intros c []|by auto|by auto]. }
  intros backed. eapply acts_bind.
  { eapply acts_mono; [by apply (TemporaryPolicy_create_acts _ _ _ _ _ _ _ backed)|auto| |auto].
    intros t c Hc _. exact Hc. }
  intros t. apply (acts_given _ (retains pid target (TemporaryPolicy_path t))); [by intros c []|].
  intros Hretains. eapply acts_mono; [|by intros c [Hc _] _; exact Hc|by intros; split|auto].
  by eapply with_temporary_acts; eauto.
Qed.

Lemma with_lock_acts {A} safe lock (m : M W string A) P Q R :
  acts safe m P Q R → acts safe (with_lock lock m) P Q R.
Proof.
  intros Hm. unfold with_lock. eapply acts_bind; [by apply acts_attempt|]. intros r.
  apply (acts_bind _ _ _ _ (λ _, match r with Ok a => Q a | Err e => R e end)).
  - eapply acts_ignore, acts_quiet; [apply flock_unlock_law|auto..].
  - intros []. destruct r; [by apply acts_ret|by apply acts_fail].
Qed.

Lemma replace_policy_acts i0 old expected candidate policy :
  validate_source from_toml candidate euid = Ok policy →
  acts (policy_safe from_toml euid pid (PolicySnapshot_path expected) i0 old candidate)
    (replace_policy from_toml parse_document euid pid expected candidate)
    (old_in_force (PolicySnapshot_path expected) i0 old)
    (λ s c, describes expected i0 old ∧
            replaced from_toml euid (PolicySnapshot_path expected) i0 old candidate s c)
    (λ _, policy_safe from_toml euid pid (PolicySnapshot_path expected) i0 old candidate).
Proof.
  intros Hvalid. apply acts_lift_bind; [intros _ _|by rewrite Hvalid].
  apply (acts_bind _ _ _ _ (λ _, old_in_force (PolicySnapshot_path expected) i0 old)).
  - eapply acts_mono; [apply lock_policy_directory_acts, old_undisturbed|auto|auto|auto].
  - intros lock. apply with_lock_acts. by eapply replace_locked_acts.
Qed.

(** C34: Replacing the policy is atomic and keeps what it replaces, whichever system calls
    fail and however much a failing write has written.  If the policy file [i0] held [old],
    then after every change made on the way the policy's name leads to the complete [old] or
    to the complete [candidate], the latter only when the candidate is a valid policy, and
    the file of the old policy still has a name: its own, the recovery name, or the staging
    name.  A reported success means that the snapshot the caller was shown is that of the file
    replaced, that the candidate is in force, and that the old policy is the recovery
    policy; an invalid candidate is refused before anything is touched. *)
Theorem policy_replacement_atomic (expected : PolicySnapshot D) candidate i0 old (w : W) :
  holds (PolicySnapshot_path expected) i0 old (view w) → trail w = [] →
  let '(r, w') := replace_policy from_toml parse_document euid pid expected candidate w in
  let safe := policy_safe from_toml euid pid (PolicySnapshot_path expected) i0 old candidate in
  Forall safe (trail w') ∧ safe (view w') ∧
  match r with
  | Ok s => describes expected i0 old ∧
            replaced from_toml euid (PolicySnapshot_path expected) i0 old candidate s (view w')
  | Err _ => True
  end ∧
  ((∃ error, validate_source from_toml candidate euid = Err error) → (∃ error, r = Err error) ∧ w' = w).
Proof.
  intros Hold Htrail. destruct (validate_source from_toml candidate euid) as [policy|error] eqn:Hvalid.
  - pose proof (replace_policy_acts i0 old expected candidate policy Hvalid w) as Hm.
    unfold wp in Hm. destruct (replace_policy _ _ _ _ _ _ w) as [r w'].
    opose proof* Hm as Hdone; [split; [done|split; [by apply old_safe|by rewrite Htrail]]|].
    destruct r as [s|e]; destruct Hdone as (Hs & Hsafe & Ht); split_and!; try tauto; by intros [].
  - unfold replace_policy. rewrite Hvalid. cbn. rewrite Htrail. split_and!; [done|by apply old_safe|done|]. eauto.
Qed.
End replace.

(** ** A concrete disk *)

Module StoreToy.
Definition path : str := bstr "/home/ana/.config/agent-seat/config.toml".
Definition old : str := bstr "enabled = false".
Definition candidate : str := bstr "enabled = true".

(** A reader of policies that takes every text but the empty one for the same policy. *)
Definition from_toml (source : str) : result RawConfig string :=
  if is_empty source then Err "empty"%string else Ok PolicyToy.raw.
Definition parse_document (source : str) : result str string := Ok source.

Definition disk : Disk := {|
  contents := {|
    names := {[ path := 1; bstr "/home/ana/.config/agent-seat" := 0 ]};
    nodes := {[ 1 := {| Node_type := FileType_File; Node_uid := 1000; Node_mode := 384; Node_data := old |};
                0 := {| Node_type := FileType_Dir; Node_uid := 1000; Node_mode := 448; Node_data := [] |} ]} |};
  fresh := 2; transaction := 0; ticks := 0; history := [] |}.
Definition expected : PolicySnapshot str := mkPolicySnapshot path old true 0 1 (mkPolicyDraft PolicyToy.raw old).

(** Call number [n] fails. *)
Definition fault (n : nat) (k : nat) : option nat := if bool_decide (n = k) then Some 3%nat else None.
Definition outcome (faults : nat → option nat) :=
  replace_policy (H := disk_files faults) (H0 := disk_policy_files faults 1000)
    from_toml parse_document 1000 7 expected candidate disk.
Definition said (r : result (PolicySnapshot str) string * Disk) : result str string :=
  result_map (PolicySnapshot_source (D:=str)) (fst r).
Definition at_path (p : str) (r : result (PolicySnapshot str) string * Disk) : option str :=
  Node_data ∘ snd <$> find_node (contents (snd r)) p.

(** Without a fault the policy is replaced and the old one kept. *)
Lemma replaced_run :
  said (outcome (λ _, None)) = Ok candidate ∧
  at_path path (outcome (λ _, None)) = Some candidate ∧
  at_path (recovery_policy_path path) (outcome (λ _, None)) = Some old.
Proof. vm_compute. done. Qed.

(** A staged file whose mode cannot be set is left behind. *)
Lemma staged_file_left :
  at_path (staging_path 7 (bstr "/home/ana/.config/agent-seat") 0) (outcome (fault 10)) = Some [].
Proof. vm_compute. done. Qed.

Lemma policy_replacement_atomic_witness :
  ∃ s w', outcome (λ _, None) = (Ok s, w') ∧ PolicySnapshot_source s = candidate ∧
    holds (recovery_policy_path path) 1 old (view w') ∧ length (trail w') = 8%nat.
Proof.
  assert (holds path 1 old (view disk)) as Hold.
  { split; [vm_compute; reflexivity|]. eexists. split; vm_compute; reflexivity. }
  pose proof (policy_replacement_atomic (H := disk_files (λ _, None))
    (H0 := disk_policy_files (λ _, None) 1000) (H1 := disk_view) (H2 := disk_laws (λ _, None) 1000)
    from_toml parse_document 1000 7 expected candidate 1 old disk) as Hrun.
  specialize (Hrun Hold eq_refl).
  assert (said (outcome (λ _, None)) = Ok candidate ∧
          length (trail (snd (outcome (λ _, None)))) = 8%nat) as [Hsaid Hlen] by (vm_compute; split; reflexivity).
  unfold outcome in *.
  destruct (replace_policy _ _ _ _ _ _ disk) as [[s|e] w']; [|discriminate Hsaid].
  destruct Hrun as (_ & _ & (_ & Hs & [[Heq _]|[_ Hkept]]) & _); [discriminate Heq|].
  exists s, w'. split; [reflexivity|]. split; [exact Hs|]. split; [exact Hkept|exact Hlen].
Defined.
End StoreToy.
