(* ===== verification/Runtime.v ===== *)
(** * [agent-seat-x11/src/runtime.rs]: the runtime directory and the sockets in it

    A socket is bound in a private directory; a path that is already there is taken over only
    when it is a socket of this user that nobody answers on. *)

From S2P Require Import Prelude Text Effects Protocol Advertisement Discovery Host Config Policy PolicyStore.

Class RuntimeSystem (S : Type) := {
  (** [DirBuilder::new().recursive(false).mode(mode).create(path)] *)
  create_dir : str → Z → M S IoError unit;
  (** [UnixListener::bind(path)]; a descriptor *)
  listener_bind : str → M S IoError Z;
  (** [UnixStream::connect(path)] *)
  stream_connect : str → M S IoError unit;
  listener_set_nonblocking : Z → M S IoError unit
}.

Record ListenerGuard := {
  ListenerGuard_listener : Z;
  ListenerGuard_path : str;
  ListenerGuard_device : Z;
  ListenerGuard_inode : Z
}.

(** ** Paths *)

Definition FNV_OFFSET : Z := 14695981039346656037.
Definition FNV_PRIME : Z := 1099511628211.

Definition fnv1a64 (bytes : bytes) : Z :=
  fold_left (λ hash byte, (Z.lxor hash byte * FNV_PRIME) mod (U64_MAX + 1)) bytes FNV_OFFSET.

Definition runtime_base (env : string → option str) (missing : string) : result str string :=
  let? base := ok_or (env "XDG_RUNTIME_DIR"%string) missing in
  if negb (is_absolute base) then Err "XDG_RUNTIME_DIR must be absolute"%string else Ok base.

Definition default_socket_path (env : string → option str) (screen : Z) : result str string :=
  let? base := runtime_base env "XDG_RUNTIME_DIR is required unless --socket is provided" in
  let? display := ok_or (env "DISPLAY"%string) "DISPLAY is required for the X11 provider"%string in
  Ok (path_join (path_join base (bstr "agent-seat"))
        (bstr "seat-" ++ hex_fixed 16 (fnv1a64 display) ++ bstr "-s" ++ to_dec screen ++ bstr ".sock")).

Definition control_socket_path (env : string → option str) (provider_socket : str) : result str string :=
  let? base := runtime_base env "XDG_RUNTIME_DIR is required for seat control" in
  Ok (path_join (path_join base (bstr "agent-seat"))
        (bstr "control-" ++ hex_fixed 16 (fnv1a64 provider_socket) ++ bstr ".sock")).

Definition validate_socket_path (path : str) : result unit string :=
  if negb (utf8_valid path) then Err "socket path must be UTF-8"%string
  else
    let? _ := map_err (λ error, "invalid socket path: " +:+ AdvertisementError_to_string error)
                (Advertisement_new path) in
    Ok tt.

(** ** The directory and the socket *)

Section runtime.
Context {W : Type} `{Files W, PolicyFiles W, RuntimeSystem W}.
(** [geteuid()], [std::env::var_os] *)
Context (euid : Z) (env : string → option str).

(** [path.exists()] *)
Definition exists_ (path : str) : M W string bool :=
  let! found := attempt (metadata path) in ret (is_ok found).

Definition validate_private_directory (path : str) : M W string unit :=
  let! metadata := context ("cannot inspect runtime directory " +:+ display path) (symlink_metadata path) in
  if negb (is_dir metadata) || negb (Metadata_uid metadata =? euid)
     || negb (Z.land (Metadata_mode metadata) USABLE_BY_OTHERS =? 0)
  then fail ("runtime directory " +:+ display path +:+ " must be a private directory owned by UID "
             +:+ string_of_str (to_dec euid))
  else ret tt.

Definition ensure_private_directory (path : str) : M W string unit :=
  let! found := exists_ path in
  (if (found : bool) then ret tt
   else context ("cannot create runtime directory " +:+ display path) (create_dir path PRIVATE_DIRECTORY)) ;!
  validate_private_directory path.

Definition is_owned_socket (metadata : Metadata) : bool :=
  is_socket metadata && (Metadata_uid metadata =? euid).

Definition recover_stale_socket (path : str) : M W string unit :=
  let! connected := attempt (stream_connect path) in
  (match connected with
   | Ok _ => fail ("a live provider socket already exists at " +:+ display path)
   | Err error =>
       match IoError_kind error with
       | IoError_ConnectionRefused | IoError_NotFound => ret tt
       | _ => fail ("cannot establish whether " +:+ display path +:+ " is stale: " +:+ IoError_text error)
       end
   end) ;!
  let! metadata := context ("cannot inspect stale socket " +:+ display path) (symlink_metadata path) in
  if negb (is_owned_socket metadata)
  then fail ("refusing to replace non-socket or foreign path " +:+ display path)
  else context ("cannot remove stale socket " +:+ display path) (remove_file path).

(** The bind, with the recovery of an address in use. *)
Definition bind_listener (path : str) : M W string Z :=
  let! bound := attempt (listener_bind path) in
  match bound with
  | Ok listener => ret listener
  | Err error =>
      match IoError_kind error with
      | IoError_AddrInUse =>
          recover_stale_socket path ;!
          context ("cannot bind recovered socket " +:+ display path) (listener_bind path)
      | _ => fail ("cannot bind socket " +:+ display path +:+ ": " +:+ IoError_text error)
      end
  end.

Definition ListenerGuard_bind (explicit : option str) (screen : Z) : M W string ListenerGuard :=
  let! path := lift (match explicit with Some path => Ok path | None => default_socket_path env screen end) in
  lift (validate_socket_path path) ;!
  let! parent := lift (ok_or (path_parent path) "socket path has no parent directory"%string) in
  ensure_private_directory parent ;!
  let! listener := bind_listener path in
  context ("cannot protect socket " +:+ display path) (set_permissions path PRIVATE_FILE) ;!
  context "cannot make listener nonblocking" (listener_set_nonblocking listener) ;!
  let! metadata := context ("cannot inspect bound socket " +:+ display path) (symlink_metadata path) in
  ret {| ListenerGuard_listener := listener; ListenerGuard_path := path;
         ListenerGuard_device := Metadata_dev metadata; ListenerGuard_inode := Metadata_ino metadata |}.

(** A path is removed while it is still the file that is known. *)
Definition remove_same (path : str) (device inode : Z) : M W string unit :=
  let! metadata := attempt (symlink_metadata path) in
  match metadata with
  | Ok m => if (Metadata_dev m =? device) && (Metadata_ino m =? inode) then ignore (remove_file path) else ret tt
  | Err _ => ret tt
  end.

(** [impl Drop for ListenerGuard] *)
Definition drop_listener_guard (self : ListenerGuard) : M W string unit :=
  remove_same (ListenerGuard_path self) (ListenerGuard_device self) (ListenerGuard_inode self).
End runtime.
