(* ===== verification/Active.v ===== *)
(** * [agent-seat-x11/src/active.rs]: which policy a running provider has loaded

    A provider publishes the policy it loaded in a marker file that it keeps locked; whoever
    wants to know reads the markers that are locked. *)

From S2P Require Import Prelude Text Effects Host Config Policy PolicyStore Runtime.

Definition MAGIC : bytes := bstr "agent-seat-act1" ++ [10].
Definition HEADER_BYTES : Z := 28.
Definition MAX_POLICY_PATH_BYTES : Z := 4096.
Definition MAX_MARKER_BYTES : Z := HEADER_BYTES + MAX_POLICY_PATH_BYTES + MAX_CONFIG_BYTES.
Definition MAX_MARKERS : Z := 128.

Class MarkerFiles (S : Type) := {
  (** [fs::read_dir(..)]: the name of each entry, or its error *)
  dir_entries : str → M S IoError (list (result str IoError));
  (** [rustix::fs::open(path, RDONLY | CLOEXEC | NOFOLLOW)], and [RDWR] *)
  open_nofollow : str → M S IoError File;
  open_writable_nofollow : str → M S IoError File
}.

Inductive ActivePolicyStatus :=
| ActivePolicyStatus_NotReported
| ActivePolicyStatus_Matching (pid : Z)
| ActivePolicyStatus_Different (pid : Z)
| ActivePolicyStatus_Multiple (count : Z) (all_match : bool)
| ActivePolicyStatus_Unavailable.

Record ActivePolicyGuard := {
  ActivePolicyGuard_file : File;
  ActivePolicyGuard_path : str;
  ActivePolicyGuard_device : Z;
  ActivePolicyGuard_inode : Z
}.

Record Marker := { Marker_pid : Z; Marker_path : bytes; Marker_source : bytes }.

Definition state_directory (env : string → option str) : result (option str) string :=
  match env "XDG_RUNTIME_DIR"%string with
  | None => Ok None
  | Some base =>
      if negb (is_absolute base) then Err "XDG_RUNTIME_DIR must be absolute"%string
      else Ok (Some (path_join base (bstr "agent-seat")))
  end.

(** ** The marker *)

Definition marker_body {D} (pid : Z) (snapshot : PolicySnapshot D) : result bytes string :=
  let path := PolicySnapshot_path snapshot in
  if MAX_POLICY_PATH_BYTES <? len path
  then Err "policy path exceeds the 4096-byte active-state bound"%string
  else
    let? path_len := ok_or (checked_u32 (len path)) "policy path length cannot be represented"%string in
    let? source_len := ok_or (checked_u32 (len (PolicySnapshot_source snapshot)))
                         "policy source length cannot be represented"%string in
    Ok (MAGIC ++ le_bytes 4 pid ++ le_bytes 4 path_len ++ le_bytes 4 source_len ++ path
        ++ PolicySnapshot_source snapshot).

Definition read_u32 (bytes : bytes) (offset : Z) : result Z string :=
  let value := take 4 (drop (Z.to_nat offset) bytes) in
  if len value =? 4 then Ok (from_le value) else Err "active-policy marker header is truncated"%string.

(** [read_marker], of the bytes that were read. *)
Definition parse_marker (path : str) (bytes : bytes) : result Marker string :=
  if (MAX_MARKER_BYTES <? len bytes) || (len bytes <? HEADER_BYTES)
     || bool_decide (take (length MAGIC) bytes ≠ MAGIC)
  then Err ("active-policy marker " +:+ display path +:+ " is malformed")
  else
    let? pid := read_u32 bytes (len MAGIC) in
    let? path_len := read_u32 bytes (len MAGIC + 4) in
    let? source_len := read_u32 bytes (len MAGIC + 8) in
    let? partial := ok_or (checked_u64 (HEADER_BYTES + path_len))
                      ("active-policy marker " +:+ display path +:+ " has invalid lengths") in
    let? expected := ok_or (checked_u64 (partial + source_len))
                       ("active-policy marker " +:+ display path +:+ " has invalid lengths") in
    if (MAX_POLICY_PATH_BYTES <? path_len) || (MAX_CONFIG_BYTES <? source_len)
       || negb (expected =? len bytes)
    then Err ("active-policy marker " +:+ display path +:+ " has invalid lengths")
    else
      Ok {| Marker_pid := pid;
            Marker_path := take (Z.to_nat path_len) (drop (Z.to_nat HEADER_BYTES) bytes);
            Marker_source := drop (Z.to_nat (HEADER_BYTES + path_len)) bytes |}.

Definition is_marker_name (name : str) : bool :=
  utf8_valid name && starts_with (bstr "active-") name && ends_with (bstr ".policy") name.

(** Of the records, each a process and whether its policy is the one saved. *)
Definition status_of (records : list (Z * bool)) : ActivePolicyStatus :=
  match records with
  | [] => ActivePolicyStatus_NotReported
  | [(pid, true)] => ActivePolicyStatus_Matching pid
  | [(pid, false)] => ActivePolicyStatus_Different pid
  | _ => ActivePolicyStatus_Multiple (len records) (forallb snd records)
  end.

Section active.
Context {W : Type} `{Files W, PolicyFiles W, RuntimeSystem W, MarkerFiles W}.
Context {D : Type} (euid pid : Z) (env : string → option str).

Definition validate_marker_file (path : str) (file : File) : M W string unit :=
  let! metadata := context ("cannot inspect " +:+ display path) (file_metadata file) in
  if negb (is_file metadata) || negb (Metadata_uid metadata =? euid)
     || negb (Z.land (Metadata_mode metadata) USABLE_BY_OTHERS =? 0)
  then fail ("active-policy marker " +:+ display path +:+ " must be a private regular file owned by UID "
             +:+ string_of_str (to_dec euid))
  else if MAX_MARKER_BYTES <? Metadata_len metadata
  then fail ("active-policy marker " +:+ display path +:+ " exceeds its byte bound")
  else ret tt.

Definition read_marker (path : str) (file : File) : M W string Marker :=
  let! bytes := context ("cannot read " +:+ display path) (read_to_end file (MAX_MARKER_BYTES + 1)) in
  lift (parse_marker path bytes).

Definition read_locked_marker (path : str) : M W string (option Marker) :=
  let! opened := attempt (open_nofollow path) in
  match opened with
  | Err error =>
      match IoError_kind error with
      | IoError_NotFound => ret None
      | _ => fail ("cannot open active-policy marker " +:+ display path +:+ ": " +:+ IoError_text error)
      end
  | Ok file =>
      validate_marker_file path file ;!
      let! locked := attempt (flock_exclusive file) in
      match locked with
      | Ok _ => ret None
      | Err error =>
          match IoError_kind error with
          | IoError_WouldBlock => let! marker := read_marker path file in ret (Some marker)
          | _ => fail ("cannot inspect active-policy lock " +:+ display path +:+ ": " +:+ IoError_text error)
          end
      end
  end.

(** The loop over the entries, after so many markers and with these records. *)
Fixpoint scan_markers (directory : str) (snapshot : PolicySnapshot D) (scanned : Z) (records : list (Z * bool))
    (entries : list (result str IoError)) : M W string (list (Z * bool)) :=
  match entries with
  | [] => ret records
  | Err error :: _ => fail ("cannot read active-policy entry: " +:+ IoError_text error)
  | Ok name :: entries =>
      if negb (is_marker_name name) then scan_markers directory snapshot scanned records entries
      else
        let scanned := scanned + 1 in
        if MAX_MARKERS <? scanned then fail "active-policy marker count exceeds the 128-file bound"%string
        else
          let! record := read_locked_marker (path_join directory name) in
          let records :=
            match record with
            | Some marker =>
                if bool_decide (Marker_path marker = PolicySnapshot_path snapshot)
                then records ++ [(Marker_pid marker, bool_decide (Marker_source marker = PolicySnapshot_source snapshot))]
                else records
            | None => records
            end in
          scan_markers directory snapshot scanned records entries
  end.

Definition active_policy_status (snapshot : PolicySnapshot D) : M W string ActivePolicyStatus :=
  let! directory := lift (state_directory env) in
  match directory with
  | None => ret ActivePolicyStatus_Unavailable
  | Some directory =>
      let! metadata := attempt (symlink_metadata directory) in
      match metadata with
      | Err error =>
          match IoError_kind error with
          | IoError_NotFound => ret ActivePolicyStatus_NotReported
          | _ => fail ("cannot inspect active-policy directory " +:+ display directory +:+ ": " +:+ IoError_text error)
          end
      | Ok _ =>
          validate_private_directory euid directory ;!
          let! entries := context ("cannot read active-policy directory " +:+ display directory)
                            (dir_entries directory) in
          let! records := scan_markers directory snapshot 0 [] entries in
          ret (status_of records)
      end
  end.

Definition remove_stale_marker (path : str) : M W string unit :=
  let! file := context "cannot open prior active-policy marker" (open_writable_nofollow path) in
  validate_marker_file path file ;!
  context "prior active-policy marker is still locked by a provider" (flock_exclusive file) ;!
  let! opened := context "cannot inspect prior active-policy marker" (file_metadata file) in
  let! current := context "cannot inspect prior active-policy path" (symlink_metadata path) in
  if negb (Metadata_dev opened =? Metadata_dev current) || negb (Metadata_ino opened =? Metadata_ino current)
  then fail "prior active-policy marker changed during recovery"%string
  else context "cannot remove stale active-policy marker" (remove_file path).

(** The closure that prepares the marker. *)
Definition prepare_marker (snapshot : PolicySnapshot D) (file : File) : M W string Metadata :=
  context "cannot secure active-policy marker" (set_file_permissions file PRIVATE_FILE) ;!
  context "cannot lock active-policy marker" (flock_exclusive file) ;!
  let! body := lift (marker_body pid snapshot) in
  context "cannot write active-policy marker" (write_all file body ;! sync_all file) ;!
  context "cannot inspect active-policy marker" (file_metadata file).

Definition ActivePolicyGuard_publish (snapshot : PolicySnapshot D) : M W string ActivePolicyGuard :=
  let! state := lift (state_directory env) in
  let! directory := lift (ok_or state "XDG_RUNTIME_DIR is unavailable for active-policy reporting"%string) in
  ensure_private_directory euid directory ;!
  let path := path_join directory (bstr "active-" ++ to_dec pid ++ bstr ".policy") in
  let! found := exists_ path in
  (if (found : bool) then remove_stale_marker path else ret tt) ;!
  let! file := context "cannot create active-policy marker" (create_new path PRIVATE_FILE) in
  let! prepared := attempt (prepare_marker snapshot file) in
  match prepared with
  | Err error => ignore (remove_file path) ;! fail error
  | Ok metadata =>
      ret {| ActivePolicyGuard_file := file; ActivePolicyGuard_path := path;
             ActivePolicyGuard_device := Metadata_dev metadata; ActivePolicyGuard_inode := Metadata_ino metadata |}
  end.

(** [impl Drop for ActivePolicyGuard] *)
Definition drop_active_policy_guard (self : ActivePolicyGuard) : M W string unit :=
  ignore (sync_all (ActivePolicyGuard_file self)) ;!
  remove_same (ActivePolicyGuard_path self) (ActivePolicyGuard_device self) (ActivePolicyGuard_inode self).
End active.
