(* ===== verification/ActiveTheorems.v ===== *)
(** * Properties of the reports on loaded policies

    [MarkerLaws] says what the runtime directory holds and which files another process keeps
    locked.  The status that is reported is that of the locked markers, whose format is
    exact. *)

From stdpp Require Import list.
From S2P Require Import Prelude Text Effects Host Config Policy PolicyTheorems PolicyStore Runtime Active.

(** ** The format *)

Definition marker_bytes (m : Marker) : bytes :=
  MAGIC ++ le_bytes 4 (Marker_pid m) ++ le_bytes 4 (len (Marker_path m)) ++ le_bytes 4 (len (Marker_source m))
  ++ Marker_path m ++ Marker_source m.

Record marker_wf (m : Marker) : Prop := {
  wf_pid : is_u32 (Marker_pid m);
  wf_path : len (Marker_path m) ≤ MAX_POLICY_PATH_BYTES;
  wf_source : len (Marker_source m) ≤ MAX_CONFIG_BYTES
}.

Lemma marker_body_exact {D} pid (snapshot : PolicySnapshot D) body :
  is_u32 pid → len (PolicySnapshot_source snapshot) ≤ MAX_CONFIG_BYTES →
  marker_body pid snapshot = Ok body ↔
  marker_wf {| Marker_pid := pid; Marker_path := PolicySnapshot_path snapshot;
               Marker_source := PolicySnapshot_source snapshot |} ∧
  body = marker_bytes {| Marker_pid := pid; Marker_path := PolicySnapshot_path snapshot;
                         Marker_source := PolicySnapshot_source snapshot |}.
Proof.
  intros Hpid Hsource. unfold marker_body.
  assert (checked_u32 (len (PolicySnapshot_source snapshot)) = Some (len (PolicySnapshot_source snapshot))) as Hs.
  { unfold checked_u32, checked_in. rewrite (proj2 (Z.leb_le _ _)) by (unfold len; lia).
    rewrite (proj2 (Z.leb_le _ _)); [done|]. etrans; [exact Hsource|]. done. }
  destruct (Z.ltb_spec MAX_POLICY_PATH_BYTES (len (PolicySnapshot_path snapshot))) as [Hlong|Hshort].
  - split; [done|]. intros [[_ Hp _] _]. cbn [Marker_path] in Hp. lia.
  - unfold checked_u32, checked_in at 1. rewrite (proj2 (Z.leb_le _ _)) by (unfold len; lia).
    rewrite (proj2 (Z.leb_le _ _)) by (etrans; [exact Hshort|done]). cbn [andb ok_or and_then].
    unfold checked_u32 in Hs. rewrite Hs. cbn [ok_or and_then]. split.
    + intros [= <-]. split; [by split|done].
    + by intros [_ ->].
Qed.

Lemma read_u32_at before value after offset :
  length value = 4%nat → len before = offset → read_u32 (before ++ value ++ after) offset = Ok (from_le value).
Proof.
  intros Hlen <-. unfold read_u32.
  assert (drop (Z.to_nat (len before)) (before ++ value ++ after) = value ++ after) as ->.
  { unfold len. by rewrite Nat2Z.id, drop_app_length. }
  assert (take 4 (value ++ after) = value) as ->; [by rewrite <- Hlen, take_app_length|].
  unfold len. by rewrite Hlen.
Qed.

(** The header in its parts. *)
Lemma header_parts bytes :
  HEADER_BYTES ≤ len bytes → take (length MAGIC) bytes = MAGIC →
  ∃ a b c rest, bytes = MAGIC ++ a ++ b ++ c ++ rest ∧ length a = 4%nat ∧ length b = 4%nat ∧ length c = 4%nat.
Proof.
  intros Hlen Hmagic. unfold len in Hlen. change HEADER_BYTES with 28 in Hlen.
  exists (take 4 (drop 16 bytes)), (take 4 (drop 20 bytes)), (take 4 (drop 24 bytes)), (drop 28 bytes).
  split_and!; [|rewrite length_take, length_drop; lia..].
  rewrite <- (take_drop (length MAGIC) bytes) at 1. rewrite Hmagic. f_equal. change (length MAGIC) with 16%nat.
  rewrite <- (take_drop 4 (drop 16 bytes)) at 1. rewrite drop_drop. f_equal. change (16 + 4)%nat with 20%nat.
  rewrite <- (take_drop 4 (drop 20 bytes)) at 1. rewrite drop_drop. f_equal. change (20 + 4)%nat with 24%nat.
  rewrite <- (take_drop 4 (drop 24 bytes)) at 1. by rewrite drop_drop.
Qed.

(** [parse_marker] on a header in its parts. *)
Lemma parse_marker_parts path a b c rest :
  length a = 4%nat → length b = 4%nat → length c = 4%nat →
  Forall is_u8 b → Forall is_u8 c →
  let bytes := MAGIC ++ a ++ b ++ c ++ rest in
  ∀ m, parse_marker path bytes = Ok m ↔
    from_le b ≤ MAX_POLICY_PATH_BYTES ∧ from_le c ≤ MAX_CONFIG_BYTES ∧ len rest = from_le b + from_le c ∧
    m = {| Marker_pid := from_le a; Marker_path := take (Z.to_nat (from_le b)) rest;
           Marker_source := drop (Z.to_nat (from_le b)) rest |}.
Proof.
  intros Ha Hb Hc Hub Huc bytes m.
  assert (len bytes = 28 + len rest) as Hlen.
  { unfold bytes. rewrite !len_app. unfold len at 1 2 3 4. rewrite Ha, Hb, Hc. change (length MAGIC) with 16%nat. lia. }
  assert (0 ≤ from_le b ≤ U32_MAX ∧ 0 ≤ from_le c ≤ U32_MAX) as [Hfb Hfc].
  { pose proof (from_le_bound b Hub). pose proof (from_le_bound c Huc). rewrite Hb, Hc in *. unfold U32_MAX. lia. }
  assert (∀ offset before value after, bytes = before ++ value ++ after → length value = 4%nat → len before = offset →
    read_u32 bytes offset = Ok (from_le value)) as Hread by (intros ??? ? -> ? ?; by apply read_u32_at).
  unfold parse_marker. rewrite (Hread (len MAGIC) MAGIC a (b ++ c ++ rest)) by done.
  rewrite (Hread (len MAGIC + 4) (MAGIC ++ a) b (c ++ rest)) by
    first [done|by unfold bytes; rewrite <- !(assoc_L (++))|rewrite len_app; unfold len at 2; by rewrite Ha].
  rewrite (Hread (len MAGIC + 8) (MAGIC ++ a ++ b) c rest) by
    first [done|by unfold bytes; rewrite <- !(assoc_L (++))|rewrite !len_app; unfold len at 2 3; by rewrite Ha, Hb].
  cbn [and_then].
  assert (take (length MAGIC) bytes = MAGIC) as Hmagic by apply take_app_length.
  assert (∀ n, drop (Z.to_nat (HEADER_BYTES + Z.of_nat n)) bytes = drop n rest) as Hdrop.
  { intros n. change HEADER_BYTES with 28. rewrite Z2Nat.inj_add, Nat2Z.id by lia. change (Z.to_nat 28) with 28%nat.
    rewrite <- drop_drop. f_equal. unfold bytes. rewrite !(assoc_L (++)). apply drop_app_length'.
    rewrite !length_app, Ha, Hb, Hc. done. }
  assert (checked_u64 (HEADER_BYTES + from_le b) = Some (HEADER_BYTES + from_le b)) as ->.
  { unfold checked_u64, checked_in. rewrite !(proj2 (Z.leb_le _ _)); [done|..]; unfold U32_MAX, U64_MAX, HEADER_BYTES in *; lia. }
  assert (checked_u64 (HEADER_BYTES + from_le b + from_le c) = Some (HEADER_BYTES + from_le b + from_le c)) as He.
  { unfold checked_u64, checked_in. rewrite !(proj2 (Z.leb_le _ _)); [done|..]; unfold U32_MAX, U64_MAX, HEADER_BYTES in *; lia. }
  cbn [ok_or and_then]. rewrite He, Hmagic, Hlen. cbn [ok_or and_then]. clear He.
  pose proof (Hdrop 0%nat) as Hdrop0. rewrite Z.add_0_r, drop_0 in Hdrop0.
  pose proof (Hdrop (Z.to_nat (from_le b))) as Hdropb. rewrite Z2Nat.id in Hdropb by lia. rewrite Hdrop0, Hdropb.
  rewrite bool_decide_eq_false_2, orb_false_r by tauto.
  change HEADER_BYTES with 28. change MAX_MARKER_BYTES with (28 + MAX_POLICY_PATH_BYTES + MAX_CONFIG_BYTES).
  pose proof (len_nonneg rest).
  destruct (Z.ltb_spec (28 + MAX_POLICY_PATH_BYTES + MAX_CONFIG_BYTES) (28 + len rest)); cbn [orb].
  { split; [done|]. intros (? & ? & ? & _). lia. }
  rewrite (proj2 (Z.ltb_ge (28 + len rest) 28)) by lia.
  destruct (Z.ltb_spec MAX_POLICY_PATH_BYTES (from_le b)); cbn [orb]; [split; [done|intros (? & _); lia]|].
  destruct (Z.ltb_spec MAX_CONFIG_BYTES (from_le c)); cbn [orb]; [split; [done|intros (_ & ? & _); lia]|].
  destruct (Z.eqb_spec (28 + from_le b + from_le c) (28 + len rest)); cbn [negb].
  - split; [intros [= <-]; split_and!; (done || lia)|]. by intros (_ & _ & _ & ->).
  - split; [done|]. intros (_ & _ & ? & _). lia.
Qed.

Lemma parse_marker_exact path bytes m :
  Forall is_u8 bytes → parse_marker path bytes = Ok m ↔ marker_wf m ∧ bytes = marker_bytes m.
Proof.
  intros Hu8. split.
  - intros Hm.
    assert (HEADER_BYTES ≤ len bytes ∧ take (length MAGIC) bytes = MAGIC) as [Hlen Hmagic].
    { revert Hm. unfold parse_marker. destruct (_ || _) eqn:Hb; [done|]. intros _.
      apply orb_false_iff in Hb as [[_ Hb%Z.ltb_ge]%orb_false_iff Hmagic]. split; [done|].
      apply bool_decide_eq_false in Hmagic. by apply dec_stable. }
    destruct (header_parts bytes Hlen Hmagic) as (a & b & c & rest & -> & Ha & Hb & Hc).
    rewrite !Forall_app in Hu8. destruct Hu8 as (_ & Hua & Hub & Huc & _).
    apply parse_marker_parts in Hm as (Hp & Hs & Hrest & ->); [|done..].
    pose proof (from_le_bound a Hua) as Hfa. rewrite Ha in Hfa.
    pose proof (from_le_bound b Hub) as Hfb. pose proof (from_le_bound c Huc) as Hfc.
    assert (len (take (Z.to_nat (from_le b)) rest) = from_le b) as Hlp.
    { unfold len in *. rewrite length_take. lia. }
    assert (len (drop (Z.to_nat (from_le b)) rest) = from_le c) as Hls.
    { unfold len in *. rewrite length_drop. lia. }
    split.
    + split; cbn [Marker_pid Marker_path Marker_source]; [int_bounds; lia|by rewrite Hlp|by rewrite Hls].
    + unfold marker_bytes. cbn [Marker_pid Marker_path Marker_source]. rewrite Hlp, Hls, take_drop.
      assert (∀ l, length l = 4%nat → Forall is_u8 l → le_bytes 4 (from_le l) = l) as Hle.
      { intros l <- Hl. by apply le_bytes_from_le. }
      by rewrite !Hle.
  - intros [[Hpid Hp Hs] ->]. destruct m as [pid mpath source]. cbn [Marker_pid Marker_path Marker_source] in *.
    unfold marker_bytes. cbn [Marker_pid Marker_path Marker_source].
    pose proof (len_nonneg mpath). pose proof (len_nonneg source).
    assert (MAX_POLICY_PATH_BYTES < 256 ^ Z.of_nat 4 ∧ MAX_CONFIG_BYTES < 256 ^ Z.of_nat 4) as [? ?] by by split.
    apply parse_marker_parts; [apply le_bytes_length..|apply le_bytes_u8|apply le_bytes_u8|].
    rewrite !from_le_le_bytes by first [lia|by int_bounds; lia]. split_and!; [done|done|by rewrite len_app|].
    f_equal; unfold len; rewrite Nat2Z.id; [by rewrite take_app_length|by rewrite drop_app_length].
Qed.

(** ** The runtime directory *)

(** Files by name, by descriptor, and those that another process keeps locked. *)
Record RuntimeDir := {
  file_at : str → option File;
  content : File → bytes;
  status : File → Metadata;
  locked : File → bool;
  entries_of : str → list (result str IoError)
}.

Class MarkerLaws (W : Type) `{Files W, PolicyFiles W, MarkerFiles W} := {
  runtime_dir : W → RuntimeDir;
  marker_symlink_metadata_law path : performs runtime_dir (symlink_metadata path) (λ d r d', d' = d ∧
    match r with Ok _ => True | Err e => IoError_kind e = IoError_NotFound → file_at d path = None end);
  marker_dir_entries_law path : performs runtime_dir (dir_entries path)
    (looks (λ d entries, entries = entries_of d path));
  marker_open_law path : performs runtime_dir (open_nofollow path) (λ d r d', d' = d ∧
    match r with
    | Ok file => file_at d path = Some file
    | Err e => IoError_kind e = IoError_NotFound → file_at d path = None
    end);
  marker_file_metadata_law file : performs runtime_dir (file_metadata file) (looks (λ d m, m = status d file));
  marker_read_law file count : performs runtime_dir (read_to_end file count)
    (looks (λ d data, Forall is_u8 data ∧ data = take (Z.to_nat count) (content d file)));
  marker_flock_law file : performs runtime_dir (flock_exclusive file) (λ d r d', d' = d ∧
    match r with
    | Ok _ => locked d file = false
    | Err e => IoError_kind e = IoError_WouldBlock → locked d file = true
    end)
}.

(** A regular file of the user that nobody else may use. *)
Record private_file (euid : Z) (m : Metadata) : Prop := {
  private_regular : Metadata_file_type m = FileType_File;
  private_owner : Metadata_uid m = euid;
  private_mode : Z.land (Metadata_mode m) 63 = 0
}.

(** The file [path] is the marker [m] of a provider that runs: private, exactly in the
    published format, and locked by another process. *)
Definition published (euid : Z) (d : RuntimeDir) (path : str) (m : Marker) : Prop :=
  ∃ file, file_at d path = Some file ∧ locked d file = true ∧ private_file euid (status d file) ∧
          marker_wf m ∧ content d file = marker_bytes m.

(** No provider runs with the marker [path]. *)
Definition unpublished (d : RuntimeDir) (path : str) : Prop :=
  file_at d path = None ∨ ∃ file, file_at d path = Some file ∧ locked d file = false.

(** What the directory says of the marker [path]: nothing, or the marker. *)
Definition marked (euid : Z) (d : RuntimeDir) (path : str) (m : option Marker) : Prop :=
  match m with Some m => published euid d path m | None => unpublished d path end.

Definition marker_name (name : str) : Prop :=
  utf8_valid name = true ∧ ∃ middle, name = bstr "active-" ++ middle ++ bstr ".policy".

(** The markers of the providers that run with a policy of the path [policy], in the order of
    the entries, of which [n] are markers. *)
Inductive census (euid : Z) (d : RuntimeDir) (directory policy : str) :
    list (result str IoError) → nat → list Marker → Prop :=
| census_none : census euid d directory policy [] 0 []
| census_other name entries n ms :
    ¬ marker_name name → census euid d directory policy entries n ms →
    census euid d directory policy (Ok name :: entries) n ms
| census_free name entries n ms :
    marker_name name → unpublished d (path_join directory name) → census euid d directory policy entries n ms →
    census euid d directory policy (Ok name :: entries) (S n) ms
| census_elsewhere name m entries n ms :
    marker_name name → published euid d (path_join directory name) m → Marker_path m ≠ policy →
    census euid d directory policy entries n ms → census euid d directory policy (Ok name :: entries) (S n) ms
| census_running name m entries n ms :
    marker_name name → published euid d (path_join directory name) m → Marker_path m = policy →
    census euid d directory policy entries n ms → census euid d directory policy (Ok name :: entries) (S n) (m :: ms).

(** What is to be said of providers that run with the markers [ms] when [source] is saved. *)
Definition says (source : bytes) (ms : list Marker) (reported : ActivePolicyStatus) : Prop :=
  match reported with
  | ActivePolicyStatus_NotReported => ms = []
  | ActivePolicyStatus_Matching pid => ∃ m, ms = [m] ∧ pid = Marker_pid m ∧ Marker_source m = source
  | ActivePolicyStatus_Different pid => ∃ m, ms = [m] ∧ pid = Marker_pid m ∧ Marker_source m ≠ source
  | ActivePolicyStatus_Multiple count all_match =>
      2 ≤ count ∧ count = len ms ∧ (all_match = true ↔ ∀ m, m ∈ ms → Marker_source m = source)
  | ActivePolicyStatus_Unavailable => False
  end.

Lemma marker_name_decided name : is_marker_name name = true ↔ marker_name name.
Proof.
  unfold is_marker_name, marker_name. rewrite !andb_true_iff, starts_with_true, ends_with_true. split.
  - intros [[Hu [r Hr]] [l Hl]]. split; [done|].
    rewrite Hr in Hl. apply app_eq_inv in Hl as [(k & Ha & Hb)|(k & _ & ->)]; [|by exists k].
    destruct k as [|x k]; [exists []; rewrite Hr, Hb; done|].
    assert (x ∈ bstr "active-") as Hx by (rewrite Ha; apply elem_of_app; right; by left).
    assert (x = 46) as -> by (vm_compute in Hb; by injection Hb). exfalso. revert Hx. by apply (bool_decide_unpack (46 ∉ bstr "active-")).
  - intros [Hu [middle ->]]. split_and!; [done|by eexists|]. exists (bstr "active-" ++ middle). by rewrite (assoc_L (++)).
Qed.

Lemma status_of_says source ms :
  says source ms (status_of ((λ m, (Marker_pid m, bool_decide (Marker_source m = source))) <$> ms)).
Proof.
  destruct ms as [|m [|m' ms]]; cbn [status_of fmap list_fmap].
  - done.
  - case_bool_decide; cbn [says]; by exists m.
  - set (all := m :: m' :: ms). set (record := λ m : Marker, _).
    assert (∀ b (x y : ActivePolicyStatus), x = y → (if b : bool then x else y) = x) as Hsame by (by intros []).
    rewrite Hsame by done. change (record m :: _) with (record <$> all).
    enough (says source all (ActivePolicyStatus_Multiple (len (record <$> all)) (forallb snd (record <$> all)))) by done.
    cbn [says].
    unfold len. rewrite length_fmap. split; [cbn; lia|]. split; [done|].
    assert (forallb snd (record <$> all) = forallb (λ m, bool_decide (Marker_source m = source)) all) as ->.
    { clearbody all. induction all as [|x all IH]; [done|]. cbn. by f_equal. }
    rewrite forallb_forall. split; intros Hall x Hx.
    + specialize (Hall x (proj1 (list_elem_of_In _ _) Hx)). by apply bool_decide_eq_true in Hall.
    + apply bool_decide_eq_true, Hall. by apply list_elem_of_In.
Qed.

Section status.
Context {W : Type} `{MarkerLaws W}.
Context {D : Type} (euid : Z) (env : string → option str).

(** Run on a directory that is [d], it stays so; a value that is returned satisfies [Q]. *)
Definition finds {A} (m : M W string A) (d : RuntimeDir) (Q : A → Prop) : Prop :=
  ∀ w, runtime_dir w = d → wp m (λ a w', runtime_dir w' = d ∧ Q a) (λ _ w', runtime_dir w' = d) w.

Lemma finds_bind {A B} (m : M W string A) (k : A → M W string B) d P Q :
  finds m d P → (∀ a, P a → finds (k a) d Q) → finds (bind m k) d Q.
Proof.
  intros Hm Hk w Hw. apply wp_bind. eapply wp_mono; [by apply Hm|intros a w' [Hw' Ha]; by apply Hk|done].
Qed.
Lemma finds_ret {A} (a : A) d (Q : A → Prop) : Q a → finds (ret a) d Q.
Proof. intros Ha w Hw. by apply wp_ret. Qed.
Lemma finds_fail {A} e d (Q : A → Prop) : finds (fail e) d Q.
Proof. by intros w Hw. Qed.
Lemma finds_mono {A} (m : M W string A) d (P Q : A → Prop) : finds m d P → (∀ a, P a → Q a) → finds m d Q.
Proof. intros Hm HPQ w Hw. eapply wp_mono; [by apply Hm|naive_solver|done]. Qed.
Lemma finds_lift {A} (r : result A string) d (Q : A → Prop) : (∀ a, r = Ok a → Q a) → finds (lift r) d Q.
Proof. intros HQ w Hw. apply wp_lift; [by eauto|done]. Qed.

(** A call that leaves the directory, and the rest. *)
Lemma finds_attempt {A B} (m : M W IoError A) (k : result A IoError → M W string B) sees d Q :
  performs runtime_dir m (λ d r d', d' = d ∧ sees d r) → (∀ r, sees d r → finds (k r) d Q) →
  finds (bind (attempt m) k) d Q.
Proof.
  intros Hm Hk w Hw. apply wp_bind, wp_attempt. specialize (Hm w). unfold wp.
  destruct (m w) as [[a|e] w'], Hm as [Hd Hs]; cbn in Hd, Hs; rewrite Hw in Hd, Hs; by apply Hk.
Qed.
Lemma finds_context {A B} prefix (m : M W IoError A) (k : A → M W string B) sees d Q :
  performs runtime_dir m (looks sees) → (∀ a, sees d a → finds (k a) d Q) → finds (bind (context prefix m) k) d Q.
Proof.
  intros Hm Hk w Hw. apply wp_bind, wp_map_error. eapply wp_looks; [exact Hm|..].
  - intros a w' Hw' Ha. rewrite Hw in Hw', Ha. by apply Hk.
  - intros e w' Hw'. by rewrite Hw'.
Qed.

Lemma validate_marker_file_finds path file d :
  finds (validate_marker_file euid path file) d (λ _, private_file euid (status d file)).
Proof.
  eapply finds_context; [apply marker_file_metadata_law|]. intros m ->.
  destruct (negb (is_file _) || _ || _) eqn:Hp; [apply finds_fail|].
  destruct (_ <? _); [apply finds_fail|]. apply finds_ret.
  apply orb_false_iff in Hp as [[Ht%negb_false_iff Hu%negb_false_iff]%orb_false_iff Hm%negb_false_iff].
  split; [|by apply Z.eqb_eq..]. unfold is_file in Ht. by destruct (Metadata_file_type _).
Qed.

Lemma validate_private_directory_finds path d : finds (validate_private_directory euid path) d (λ _, True).
Proof.
  intros w Hw. apply wp_bind, wp_map_error. pose proof (marker_symlink_metadata_law path w) as Hm. unfold wp.
  destruct (symlink_metadata path w) as [[m|e] w'], Hm as [Hd _]; cbn in Hd; rewrite Hw in Hd; [|done].
  by destruct (_ || _).
Qed.

(** A content longer than a marker may be is none. *)
Lemma marker_bytes_bound m : marker_wf m → len (marker_bytes m) ≤ MAX_MARKER_BYTES.
Proof.
  intros [_ Hp Hs]. unfold marker_bytes. rewrite !len_app.
  assert (∀ x, len (le_bytes 4 x) = 4) as Hle by (intros x; unfold len; by rewrite le_bytes_length). rewrite !Hle.
  change (len MAGIC) with 16. unfold MAX_MARKER_BYTES, HEADER_BYTES. lia.
Qed.

Lemma read_marker_finds path file d :
  finds (read_marker path file) d (λ m, marker_wf m ∧ content d file = marker_bytes m).
Proof.
  eapply finds_context; [apply marker_read_law|]. intros data [Hu8 Hdata]. apply finds_lift. intros m Hm.
  apply parse_marker_exact in Hm as [Hwf Hbytes]; [|done]. split; [done|]. rewrite <- Hbytes, Hdata.
  symmetry. apply take_ge. pose proof (marker_bytes_bound m Hwf) as Hlen. rewrite <- Hbytes, Hdata in Hlen.
  assert (0 ≤ MAX_MARKER_BYTES) by done. unfold len in Hlen. rewrite length_take in Hlen. lia.
Qed.

Lemma read_locked_marker_finds path d : finds (read_locked_marker euid path) d (marked euid d path).
Proof.
  eapply finds_attempt; [apply marker_open_law|]. intros [file|e] Hopen; cbn in Hopen.
  - eapply finds_bind; [apply validate_marker_file_finds|]. intros [] Hprivate.
    eapply finds_attempt; [apply marker_flock_law|]. intros [[]|e] Hlock; cbn in Hlock.
    + apply finds_ret. right. by exists file.
    + destruct (IoError_kind e); try apply finds_fail.
      eapply finds_bind; [apply read_marker_finds|]. intros m [Hwf Hm]. apply finds_ret.
      exists file. specialize (Hlock eq_refl). done.
  - destruct (IoError_kind e); try apply finds_fail. apply finds_ret. left. by apply Hopen.
Qed.

(** The loop adds a record for each marker of the census. *)
Lemma scan_markers_finds directory (snapshot : PolicySnapshot D) scanned records entries d :
  finds (scan_markers euid directory snapshot scanned records entries) d
    (λ all, ∃ n ms,
       census euid d directory (PolicySnapshot_path snapshot) entries n ms ∧
       scanned + Z.of_nat n ≤ Z.max scanned MAX_MARKERS ∧
       all = records ++ ((λ m, (Marker_pid m, bool_decide (Marker_source m = PolicySnapshot_source snapshot))) <$> ms)).
Proof.
  revert scanned records. induction entries as [|[name|e] entries IH]; intros scanned records; cbn [scan_markers].
  - apply finds_ret. exists 0%nat, []. rewrite app_nil_r. split_and!; [constructor|lia|done].
  - destruct (is_marker_name name) eqn:Hname; cbn [negb].
    2: { eapply finds_mono; [apply IH|]. intros all (n & ms & Hc & Hn & ->). exists n, ms. split_and!; [|done..].
         constructor; [|done]. rewrite <- marker_name_decided. congruence. }
    apply marker_name_decided in Hname.
    destruct (Z.ltb_spec MAX_MARKERS (scanned + 1)); [apply finds_fail|].
    eapply finds_bind; [apply read_locked_marker_finds|]. intros [m|] Hm; cbn [marked] in Hm.
    + case_bool_decide as Hpath; (eapply finds_mono; [apply IH|]; intros all (n & ms & Hc & Hn & ->)).
      * exists (S n), (m :: ms). split_and!; [by eapply census_running|lia|by rewrite <- (assoc_L (++))].
      * exists (S n), ms. split_and!; [by eapply census_elsewhere|lia|done].
    + eapply finds_mono; [apply IH|]. intros all (n & ms & Hc & Hn & ->).
      exists (S n), ms. split_and!; [by apply census_free|lia|done].
  - apply finds_fail.
Qed.

(** C38: the reported status is that of the providers that run.  A status that is returned is
    [Unavailable] exactly without a runtime directory in the environment; else it is said of
    the markers another process keeps locked, in the order of the directory, that carry the
    path of the saved policy: there are none, there is one, of a process that loaded exactly
    the saved source or another, or there are several, which all match exactly when each
    loaded the saved source.  Each marker is a private file and holds its process, path and
    source exactly in the published format; what is not locked, or is gone, counts for
    nothing, at most 128 markers are looked at, and nothing is changed. *)
Theorem active_policy_status_exact (snapshot : PolicySnapshot D) w :
  wp (active_policy_status euid env snapshot)
    (λ reported w', runtime_dir w' = runtime_dir w ∧
       match env "XDG_RUNTIME_DIR"%string with
       | None => reported = ActivePolicyStatus_Unavailable
       | Some base =>
           let directory := path_join base (bstr "agent-seat") in
           is_absolute base = true ∧
           (reported = ActivePolicyStatus_NotReported ∧ file_at (runtime_dir w) directory = None ∨
            ∃ n ms,
              census euid (runtime_dir w) directory (PolicySnapshot_path snapshot)
                (entries_of (runtime_dir w) directory) n ms ∧
              Z.of_nat n ≤ 128 ∧ says (PolicySnapshot_source snapshot) ms reported)
       end)
    (λ _ w', runtime_dir w' = runtime_dir w ∧ ∃ base, env "XDG_RUNTIME_DIR"%string = Some base) w.
Proof.
  set (d := runtime_dir w). unfold active_policy_status, state_directory.
  destruct (env "XDG_RUNTIME_DIR"%string) as [base|]; [|by split].
  destruct (is_absolute base); cbn [negb]; [|by split; [|exists base]]. cbv zeta. set (directory := path_join base _).
  match goal with |- wp ?m (λ reported w', _ ∧ ?Q) _ _ =>
    enough (finds m d (λ reported, Q)) as Hm end.
  { eapply wp_mono; [by apply Hm|done|]. intros e w' Hw'. split; [done|by exists base]. }
  eapply finds_bind; [by apply (finds_ret (Some directory) d (λ o, o = Some directory))|]. intros ? ->.
  eapply finds_attempt; [apply marker_symlink_metadata_law|]. intros [m|e] Hdir; cbn in Hdir.
  - eapply finds_bind; [apply (validate_private_directory_finds directory d)|]. intros [] _.
    eapply finds_context; [apply marker_dir_entries_law|]. intros entries ->.
    eapply finds_bind; [apply scan_markers_finds|]. intros records (n & ms & Hc & Hn & ->).
    apply finds_ret. split; [done|]. right. exists n, ms. split_and!; [done| |apply status_of_says].
    change MAX_MARKERS with 128 in Hn. lia.
  - destruct (IoError_kind e); try apply finds_fail. apply finds_ret. split; [done|]. left. split; [done|]. by apply Hdir.
Qed.
End status.

(** ** A directory *)

Module ActiveToy.
(** Process 41 runs with the saved policy, 42 with another source of it; the marker of 43 is
    not locked any more. *)
Definition policy : str := bstr "/home/ana/.config/agent-seat/config.toml".
Definition saved : PolicySnapshot unit :=
  mkPolicySnapshot policy (bstr "enabled = true") true 0 1 (mkPolicyDraft PolicyToy.raw tt).
Definition marker (pid : Z) (source : string) : Marker :=
  {| Marker_pid := pid; Marker_path := policy; Marker_source := bstr source |}.

Definition name (pid : Z) : str := bstr "active-" ++ to_dec pid ++ bstr ".policy".
Definition directory : str := bstr "/run/user/1000/agent-seat".
Definition dir : RuntimeDir := {|
  file_at path :=
    if bool_decide (path = path_join directory (name 41)) then Some 41
    else if bool_decide (path = path_join directory (name 42)) then Some 42
    else if bool_decide (path = path_join directory (name 43)) then Some 43
    else if bool_decide (path = directory) then Some 0 else None;
  content file :=
    if file =? 41 then marker_bytes (marker 41 "enabled = true")
    else if file =? 42 then marker_bytes (marker 42 "enabled = false")
    else if file =? 43 then marker_bytes (marker 43 "enabled = true") else [];
  status file := {|
    Metadata_file_type := if file =? 0 then FileType_Dir else FileType_File; Metadata_dev := 0; Metadata_ino := file;
    Metadata_uid := 1000; Metadata_mode := if file =? 0 then PRIVATE_DIRECTORY else PRIVATE_FILE; Metadata_len := 100 |};
  locked file := file <? 43;
  entries_of _ := [Ok (name 41); Ok (bstr "seat.sock"); Ok (name 42); Ok (name 43)]
|}.

Definition no_such_file : IoError := {| IoError_kind := IoError_NotFound; IoError_text := "not found" |}.
Definition refused : IoError := {| IoError_kind := IoError_Other; IoError_text := "refused" |}.
Definition would_block : IoError := {| IoError_kind := IoError_WouldBlock; IoError_text := "locked" |}.
Definition at_path (path : str) : result File IoError := ok_or (file_at dir path) no_such_file.

#[export] Instance files : Files unit := {
  symlink_metadata path := lift (result_map (status dir) (at_path path));
  metadata path := lift (result_map (status dir) (at_path path));
  read_dir _ := fail refused;
  open_file path := lift (at_path path);
  file_metadata file := ret (status dir file);
  read_to_end file count := ret (take (Z.to_nat count) (content dir file))
}.
#[export] Instance policy_files : PolicyFiles unit := {
  create_new _ _ := fail refused;
  open_or_create _ _ := fail refused;
  set_file_permissions _ _ := fail refused;
  set_permissions _ _ := fail refused;
  write_all _ _ := fail refused;
  sync_all _ := fail refused;
  remove_file _ := fail refused;
  rename_exchange _ _ := fail refused;
  rename_noreplace _ _ := fail refused;
  flock_exclusive file := if locked dir file then fail would_block else ret tt;
  flock_unlock _ := fail refused;
  create_dir_all _ _ := fail refused;
  fetch_transaction s := (0, s)
}.
#[export] Instance marker_files : MarkerFiles unit := {
  dir_entries path := ret (entries_of dir path);
  open_nofollow path := lift (at_path path);
  open_writable_nofollow _ := fail refused
}.

Lemma content_u8 file : Forall is_u8 (content dir file).
Proof.
  assert (∀ l, forallb (λ b, (0 <=? b) && (b <? 256)) l = true → Forall is_u8 l) as Hu8.
  { intros l Hl. apply Forall_forall. intros b Hb. rewrite forallb_forall in Hl.
    specialize (Hl b (proj1 (list_elem_of_In _ _) Hb)). unfold is_u8. lia. }
  apply Hu8. cbn [dir content]. repeat case_match; by vm_compute.
Qed.

#[export] Instance laws : MarkerLaws unit.
Proof.
  refine {| runtime_dir := λ _, dir |}; intros; intros w; cbn -[dir file_at content locked status]; unfold at_path.
  - by destruct (file_at dir path).
  - done.
  - by destruct (file_at dir path).
  - done.
  - split; [done|]. split; [apply Forall_take, content_u8|done].
  - by destruct (locked dir file).
Defined.

Definition env (name : string) : option str :=
  if bool_decide (name = "XDG_RUNTIME_DIR"%string) then Some (bstr "/run/user/1000") else None.

Example status_runs : (active_policy_status 1000 env saved tt).1 = Ok (ActivePolicyStatus_Multiple 2 false).
Proof. vm_compute. done. Qed.

Lemma active_policy_status_exact_witness :
  ∃ n ms, census 1000 dir directory policy (entries_of dir directory) n ms ∧
          says (bstr "enabled = true") ms (ActivePolicyStatus_Multiple 2 false).
Proof.
  pose proof (active_policy_status_exact 1000 env saved tt) as Hstatus. unfold wp in Hstatus.
  assert (active_policy_status 1000 env saved tt = (Ok (ActivePolicyStatus_Multiple 2 false), tt)) as Hrun by by vm_compute.
  rewrite Hrun in Hstatus. destruct Hstatus as (_ & _ & [[? _]|(n & ms & Hc & _ & Hs)]); [done|].
  exists n, ms. split; [exact Hc|exact Hs].
Defined.
End ActiveToy.
