(* ===== verification/DesktopEntry.v ===== *)
(** * [agent-seat-x11/src/launch.rs]: reading a desktop entry

    The parts that look at text only: the key file, localized strings, the [Exec] line.
    A text is its UTF-8 bytes; the loops of the source that look for ASCII characters run
    on bytes here, of which none is part of a longer character. *)

From stdpp Require Import gmap.
From S2P Require Import Prelude Text.

Definition MAX_ENTRY_KEYS : nat := 256.
Definition MAX_EXEC_ARGUMENTS : Z := 128.
Definition MAX_DATA_ROOTS : Z := 32.

(** ** [char] and [str] *)

(** [char::is_whitespace]: the property [White_Space]. *)
Definition is_whitespace (c : Z) : bool :=
  within 9 13 c || (c =? 32) || (c =? 133) || (c =? 160) || (c =? 5760) || within 8192 8202 c
  || (c =? 8232) || (c =? 8233) || (c =? 8239) || (c =? 8287) || (c =? 12288).

(** [u8::is_ascii_whitespace] and the [char] method of the name. *)
Definition is_ascii_whitespace (c : Z) : bool :=
  (c =? 32) || (c =? 9) || (c =? 10) || (c =? 12) || (c =? 13).

Fixpoint skip_while (f : Z → bool) (s : list Z) : list Z :=
  match s with
  | c :: t => if f c then skip_while f t else s
  | [] => []
  end.

(** [str::trim] *)
Definition trim (s : str) : str :=
  utf8 (reverse (skip_while is_whitespace (reverse (skip_while is_whitespace (chars s))))).

(** [s[1..s.len() - 1]] *)
Definition inner (s : str) : str := removelast (tl s).

(** ** The key file *)

Definition base_key (key : str) : str :=
  match split_once 91 key with Some (base, _) => base | None => key end.

Definition valid_key (key : str) : bool :=
  let base := base_key key in
  negb (is_empty base)
  && forallb (λ byte, is_ascii_alphanumeric byte || (byte =? 45)) base
  && (bool_decide (key = base)
      || match strip_prefix base key with
         | Some suffix => starts_with (bstr "[") suffix && ends_with (bstr "]") suffix
         | None => false
         end).

Abbreviation Values := (gmap str str).

Record Parser := {
  values : Values;
  in_desktop_entry : bool;
  found_desktop_entry : bool
}.

Definition parse_line (raw_line : str) (self : Parser) : option Parser :=
  let line := strip_cr raw_line in
  if is_empty line || starts_with (bstr "#") line then Some self
  else if starts_with (bstr "[") line then
    if negb (ends_with (bstr "]") line) || contains 91 (inner line) || contains 93 (inner line)
    then None
    else
      let here := bool_decide (line = bstr "[Desktop Entry]") in
      if here && found_desktop_entry self then None
      else Some {| values := values self; in_desktop_entry := here;
                   found_desktop_entry := found_desktop_entry self || here |}
  else if negb (found_desktop_entry self) then None
  else if negb (in_desktop_entry self) then Some self
  else
    '(key, value) ← split_once 61 line;
    let key := trim key in
    if negb (valid_key key) || bool_decide (size (values self) = MAX_ENTRY_KEYS)
       || bool_decide (is_Some (values self !! key))
    then None
    else Some {| values := <[key := trim value]> (values self);
                 in_desktop_entry := in_desktop_entry self;
                 found_desktop_entry := found_desktop_entry self |}.

Fixpoint parse_lines (raw_lines : list str) (self : Parser) : option Parser :=
  match raw_lines with
  | [] => Some self
  | raw_line :: raw_lines => self ← parse_line raw_line self; parse_lines raw_lines self
  end.

Definition parse_desktop (source : str) : option Values :=
  if existsb (λ c, is_control c && negb ((c =? 10) || (c =? 13))) (chars source) then None
  else
    self ← parse_lines (lines source)
             {| values := ∅; in_desktop_entry := false; found_desktop_entry := false |};
    if found_desktop_entry self then Some (values self) else None.

Definition get (m : Values) (key : string) : option str := m !! bstr key.

Definition boolean (m : Values) (key : string) : option bool :=
  match get m key with
  | None => Some false
  | Some value =>
      if bool_decide (value = bstr "false") then Some false
      else if bool_decide (value = bstr "true") then Some true
      else None
  end.

(** ** Strings *)

Definition escape (c : Z) : option Z :=
  if c =? 115 then Some 32
  else if c =? 110 then Some 10
  else if c =? 116 then Some 9
  else if c =? 114 then Some 13
  else if c =? 92 then Some 92
  else None.

Fixpoint decode_string (value : str) : option str :=
  match value with
  | [] => Some []
  | c :: rest =>
      if negb (c =? 92) then decoded ← decode_string rest; Some (c :: decoded)
      else match rest with
           | [] => None
           | e :: rest => c ← escape e; decoded ← decode_string rest; Some (c :: decoded)
           end
  end.

Definition parse_list (value : str) : option (list str) :=
  mapM decode_string (split_terminator 59 value).

Definition visible_on_desktop (m : Values) (current : list str) : bool :=
  let only := get m "OnlyShowIn" ≫= parse_list in
  let not := get m "NotShowIn" ≫= parse_list in
  let present key := bool_decide (is_Some (get m key)) in
  let absent (o : option (list str)) := bool_decide (o = None) in
  if (present "OnlyShowIn" && absent only) || (present "NotShowIn" && absent not) then false
  else if match only with
          | Some only => forallb (λ desktop, negb (bool_decide (desktop ∈ only))) current
          | None => false
          end
  then false
  else negb match not with
            | Some not => existsb (λ desktop, bool_decide (desktop ∈ not)) current
            | None => false
            end.

(** ** Names *)

(** [env::var(key).ok()] of an environment of byte strings. *)
Definition var (env : string → option str) (key : string) : option str :=
  value ← env key; if utf8_valid value then Some value else None.

(** [Vec::dedup]: no two equal neighbours. *)
Fixpoint dedup (l : list str) : list str :=
  match l with
  | a :: (b :: _) as t => if bool_decide (a = b) then dedup t else a :: dedup t
  | _ => l
  end.

Definition nonempty (o : option str) : option str :=
  value ← o; if is_empty value then None else Some value.

Definition locale_candidates (env : string → option str) : list str :=
  let locale := default [] (head (omap (λ key, nonempty (var env key))
                                    ["LC_ALL"; "LC_MESSAGES"; "LANG"]%string)) in
  let locale := default [] (head (split 46 locale)) in
  if is_empty locale || bool_decide (locale = bstr "C") || bool_decide (locale = bstr "POSIX")
  then []
  else dedup (
    [locale]
    ++ match split_once 64 locale with
       | Some (without_modifier, _) => [without_modifier]
       | None => []
       end
    ++ match split_once 95 locale with
       | Some (language, _) =>
           match split_once 64 locale with
           | Some (_, modifier) => [language ++ bstr "@" ++ modifier]
           | None => []
           end ++ [language]
       | None => []
       end).

(** [None] when a candidate's value does not decode: the code's [?] ends the search. *)
Fixpoint first_name (m : Values) (locales : list str) : option (option str) :=
  match locales with
  | [] => Some None
  | locale :: locales =>
      match m !! (bstr "Name[" ++ locale ++ bstr "]") with
      | Some value =>
          value ← decode_string value;
          if negb (is_empty value) then Some (Some value) else first_name m locales
      | None => first_name m locales
      end
  end.

Definition localized_name (env : string → option str) (m : Values) : option str :=
  found ← first_name m (locale_candidates env);
  match found with
  | Some name => Some name
  | None => value ← get m "Name"; nonempty (decode_string value)
  end.

(** ** The [Exec] line *)

Record ExecWord := { ExecWord_text : str; ExecWord_quoted : bool }.

#[export] Instance ExecWord_eq_dec : EqDecision ExecWord.
Proof. solve_decision. Defined.

(** The characters a shell would treat specially. *)
Definition exec_reserved : list Z :=
  [39; 62; 60; 126; 124; 38; 59; 36; 42; 63; 35; 40; 41; 96].
Definition is_exec_reserved (c : Z) : bool := bool_decide (c ∈ exec_reserved).

(** Double quote, back quote, dollar, backslash: what a backslash may escape between quotes. *)
Definition is_exec_escaped (c : Z) : bool := bool_decide (c ∈ [34; 96; 36; 92]).

Record ExecState := {
  words : list ExecWord;
  text : str;
  quoted : bool;
  word_quoted : bool;
  present : bool;
  closed_quote : bool
}.

Definition push_text (c : Z) (self : ExecState) : ExecState :=
  {| words := words self; text := text self ++ [c]; quoted := quoted self;
     word_quoted := word_quoted self; present := true; closed_quote := closed_quote self |}.

Definition open_quote (self : ExecState) : ExecState :=
  {| words := words self; text := text self; quoted := true; word_quoted := true;
     present := true; closed_quote := closed_quote self |}.
Definition close_quote (self : ExecState) : ExecState :=
  {| words := words self; text := text self; quoted := false; word_quoted := word_quoted self;
     present := present self; closed_quote := true |}.
Definition end_word (self : ExecState) : ExecState :=
  {| words := words self ++ [{| ExecWord_text := text self; ExecWord_quoted := word_quoted self |}];
     text := []; quoted := quoted self; word_quoted := false; present := false;
     closed_quote := false |}.

Fixpoint exec_chars (s : str) (self : ExecState) : option ExecState :=
  match s with
  | [] => Some self
  | c :: s =>
      if closed_quote self && negb (is_ascii_whitespace c) then None
      else if c =? 34 then
        if quoted self then exec_chars s (close_quote self)
        else if present self then None
        else exec_chars s (open_quote self)
      else if c =? 92 then
        if negb (quoted self) then None
        else match s with
             | [] => None
             | escaped :: s =>
                 if negb (is_exec_escaped escaped) then None
                 else exec_chars s (push_text escaped self)
             end
      else if is_ascii_whitespace c && negb (quoted self) then
        exec_chars s (if present self then end_word self else self)
      else if negb (quoted self) && is_exec_reserved c then None
      else exec_chars s (push_text c self)
  end.

Definition exec_words (value : str) : option (list ExecWord) :=
  self ← exec_chars value
           {| words := []; text := []; quoted := false; word_quoted := false; present := false;
              closed_quote := false |};
  if quoted self then None
  else
    let words := words (if present self then end_word self else self) in
    if is_empty words then None else Some words.

Definition ignored_fields : list str :=
  bstr <$> ["%f"; "%F"; "%u"; "%U"; "%d"; "%D"; "%n"; "%N"; "%v"; "%m"]%string.

Fixpoint literal (text : str) : option str :=
  match text with
  | [] => Some []
  | c :: rest =>
      if negb (c =? 37) then l ← literal rest; Some (c :: l)
      else match rest with
           | c :: rest => if c =? 37 then l ← literal rest; Some (37 :: l) else None
           | [] => None
           end
  end.

Definition expand_word (word : ExecWord) (name desktop_path : str) (icon : option str)
  : option (list str) :=
  let text := ExecWord_text word in
  if ExecWord_quoted word && contains 37 text then None
  else if bool_decide (text ∈ ignored_fields) then Some []
  else if bool_decide (text = bstr "%i") then
    match icon with
    | None => Some []
    | Some icon =>
        icon ← decode_string icon;
        Some (if is_empty icon then [] else [bstr "--icon"; icon])
    end
  else if bool_decide (text = bstr "%c") then Some [name]
  else if bool_decide (text = bstr "%k") then
    if utf8_valid desktop_path then Some [desktop_path] else None
  else l ← literal text; Some [l].

Fixpoint expand_words (words : list ExecWord) (name desktop_path : str) (icon : option str)
  (expanded : list str) : option (list str) :=
  match words with
  | [] => Some expanded
  | word :: words =>
      output ← expand_word word name desktop_path icon;
      let expanded := expanded ++ output in
      if MAX_EXEC_ARGUMENTS <? len expanded then None
      else expand_words words name desktop_path icon expanded
  end.

(** [value.is_ascii()] *)
Definition is_ascii (value : str) : bool := forallb (λ b, within 0 127 b) value.

(** [parse_exec] up to the search for the program. *)
Definition exec_arguments (value name desktop_path : str) (icon : option str)
  : option (str * list str) :=
  if is_empty value || negb (is_ascii value) then None
  else
    value ← decode_string value;
    words ← exec_words value;
    expanded ← expand_words words name desktop_path icon [];
    program ← head expanded;
    if is_empty program || contains 61 program then None
    else Some (program, tail expanded).
