(* ===== verification/Catalog.v ===== *)
(** * [agent-seat-x11/src/launch.rs]: the catalog of applications

    Discovery of desktop entries under the XDG data roots, in the order and with the
    bounds of the source, over the file system of [Host]. *)

From stdpp Require Import sorting.
From S2P Require Import Prelude Text Bounded Protocol Message Effects Policy Host DesktopEntry.

Definition MAX_INSTALLED_APPLICATIONS : Z := 4096.
Definition MAX_SCANNED_PATHS : Z := 16384.
Definition MAX_DIRECTORY_DEPTH : Z := 16.
Definition MAX_DESKTOP_BYTES : Z := 64 * 1024.

Record Failure := {
  Failure_code : ErrorCode;
  Failure_retry : Retry;
  Failure_message : string
}.

Definition Failure_of (code : ErrorCode) (message : string) : Failure :=
  {| Failure_code := code; Failure_retry := Retry_Never; Failure_message := message |}.
Definition refused : string → Failure := Failure_of ErrorCode_Refused.
Definition unavailable : string → Failure := Failure_of ErrorCode_Unavailable.
Definition invalid : string → Failure := Failure_of ErrorCode_InvalidArgument.
Definition too_large : string → Failure := Failure_of ErrorCode_TooLarge.
Definition internal : string → Failure := Failure_of ErrorCode_Internal.

Record CatalogEntry := {
  CatalogEntry_descriptor : ApplicationDescriptor;
  CatalogEntry_program : str;
  CatalogEntry_arguments : list str;
  CatalogEntry_working_directory : option str
}.

Record DataRoot := { DataRoot_applications : str; DataRoot_user_entry : bool }.

(** ** What the environment says *)

Definition absolute_path (value : str) (variable : string) : result str Failure :=
  if is_absolute value then Ok value
  else if (variable =? "HOME")%string then Err (unavailable "HOME is not absolute")
  else Err (unavailable "XDG_DATA_HOME is not absolute").

Fixpoint system_roots (values : list str) (roots : list DataRoot) : result (list DataRoot) Failure :=
  match values with
  | [] => Ok roots
  | value :: values =>
      if len roots =? MAX_DATA_ROOTS
      then Err (too_large "XDG data root count exceeds its bound")
      else if negb (is_absolute value)
      then Err (unavailable "XDG_DATA_DIRS contains a relative path")
      else
        let applications := path_join value (bstr "applications") in
        system_roots values
          (if existsb (λ root, bool_decide (DataRoot_applications root = applications)) roots
           then roots
           else roots ++ [{| DataRoot_applications := applications; DataRoot_user_entry := false |}])
  end.

Definition data_roots (env : string → option str) : result (list DataRoot) Failure :=
  let? user := match nonempty (env "XDG_DATA_HOME"%string) with
               | Some value => absolute_path value "XDG_DATA_HOME"
               | None =>
                   let? home := ok_or (env "HOME"%string)
                                  (unavailable "HOME is unavailable for XDG discovery") in
                   let? home := absolute_path home "HOME" in
                   Ok (path_join home (bstr ".local/share"))
               end in
  let system := default (bstr "/usr/local/share:/usr/share") (nonempty (env "XDG_DATA_DIRS"%string)) in
  system_roots (split_paths system)
    [{| DataRoot_applications := path_join user (bstr "applications"); DataRoot_user_entry := true |}].

Definition current_desktops (env : string → option str) : result (list str) Failure :=
  let value := default [] (var env "XDG_CURRENT_DESKTOP") in
  if 4096 <? len value then Err (too_large "XDG_CURRENT_DESKTOP exceeds its bound")
  else
    let desktops := filter (λ desktop, desktop ≠ []) (split 58 value) in
    if MAX_DATA_ROOTS <? len desktops
    then Err (too_large "XDG_CURRENT_DESKTOP exceeds its item bound")
    else Ok desktops.

(** ** Desktop IDs *)

(** [Component::Normal] of a text, or nothing. *)
Definition normal_text (component : Component) : option str :=
  match component with
  | Normal name => if utf8_valid name then Some name else None
  | _ => None
  end.

Fixpoint id_of_components (components : list Component) (id : str) : option str :=
  match components with
  | [] => Some id
  | component :: components =>
      name ← normal_text component;
      id_of_components components ((if is_empty id then id else id ++ bstr "-") ++ name)
  end.

Definition desktop_id (relative : str) : option ApplicationId :=
  id ← id_of_components (components relative) [];
  if is_empty id || negb (ends_with (bstr ".desktop") id) then None
  else result_ok (BoundedText_new id).

(** [Path::cmp]: by components, of which normal ones are the greatest and in byte order. *)
Definition component_rank (c : Component) : Z :=
  match c with RootDir => 0 | CurDir => 1 | ParentDir => 2 | Normal _ => 3 end.
Definition component_ltb (c d : Component) : bool :=
  match c, d with
  | Normal a, Normal b => str_ltb a b
  | _, _ => component_rank c <? component_rank d
  end.
Fixpoint components_ltb (p q : list Component) : bool :=
  match p, q with
  | [], [] => false
  | [], _ :: _ => true
  | _ :: _, [] => false
  | c :: p, d :: q =>
      component_ltb c d || (bool_decide (c = d) && components_ltb p q)
  end.

(** The orders of the two sorts: [left] is not greater than [right]. *)
Definition path_le (left right : str * str) : Prop :=
  components_ltb (components (right.2)) (components (left.2)) = false.
#[export] Instance path_le_dec left right : Decision (path_le left right).
Proof. unfold path_le. apply _. Defined.

Definition entry_id (entry : CatalogEntry) : ApplicationId :=
  ApplicationDescriptor_id (CatalogEntry_descriptor entry).
Definition entry_le (left right : CatalogEntry) : Prop :=
  str_ltb (as_str (entry_id right)) (as_str (entry_id left)) = false.
#[export] Instance entry_le_dec left right : Decision (entry_le left right).
Proof. unfold entry_le. apply _. Defined.

Section discovery.
Context {W : Type} `{Files W}.
(** [env::var_os] *)
Context (env : string → option str).

(** ** Paths *)

(** A directory still to read: its path, its path relative to the root, its depth. *)
Record Pending := {
  Pending_directory : str;
  Pending_relative : str;
  Pending_depth : Z
}.

Record Walk := {
  result_paths : list (str * str);
  pending : list Pending; (* the top of the stack first *)
  scanned : Z
}.

Definition count (self : Walk) : Walk :=
  {| result_paths := result_paths self; pending := pending self; scanned := scanned self + 1 |}.
Definition push_directory (d : Pending) (self : Walk) : Walk :=
  {| result_paths := result_paths self; pending := d :: pending self; scanned := scanned self |}.
Definition push_path (path relative : str) (self : Walk) : Walk :=
  {| result_paths := result_paths self ++ [(path, relative)]; pending := pending self;
     scanned := scanned self |}.

(** [file_type.is_file() || file_type.is_symlink() && fs::metadata(..).is_ok_and(..)] *)
Definition leads_to_file (path : str) (m : Metadata) : M W Failure bool :=
  if is_file m then ret true
  else if is_symlink m then
    let! target := attempt (metadata path) in
    ret match target with Ok target => is_file target | Err _ => false end
  else ret false.

Definition visit (directory relative : str) (depth : Z) (name : str) (self : Walk)
  : M W Failure Walk :=
  if MAX_SCANNED_PATHS <? scanned self + 1
  then fail (too_large "XDG scan exceeds its path bound")
  else
    let self := count self in
    if negb (utf8_valid name) then ret self
    else if is_empty name || bool_decide (name = bstr ".") || bool_decide (name = bstr "..")
    then ret self
    else
      let path := path_join directory name in
      let child_relative := path_join relative name in
      let! m := attempt (symlink_metadata path) in
      match m with
      | Err _ => ret self
      | Ok m =>
          if is_dir m && (depth <? MAX_DIRECTORY_DEPTH)
          then ret (push_directory {| Pending_directory := path; Pending_relative := child_relative;
                                      Pending_depth := depth + 1 |} self)
          else
            let! is_file := leads_to_file path m in
            ret (if is_file && ends_with (bstr ".desktop") name
                 then push_path path child_relative self else self)
      end.

Fixpoint visit_all (directory relative : str) (depth : Z) (names : list str) (self : Walk)
  : M W Failure Walk :=
  match names with
  | [] => ret self
  | name :: names =>
      let! self := visit directory relative depth name self in
      visit_all directory relative depth names self
  end.

(** [while let Some(..) = pending.pop()]; [None]: out of fuel. *)
Fixpoint walk (fuel : nat) (self : Walk) : M W Failure (option Walk) :=
  match fuel with
  | O => ret None
  | S fuel =>
      match pending self with
      | [] => ret (Some self)
      | d :: rest =>
          let self := {| result_paths := result_paths self; pending := rest;
                         scanned := scanned self |} in
          let! names := attempt (read_dir (Pending_directory d)) in
          match names with
          | Err _ => walk fuel self
          | Ok names =>
              let! self := visit_all (Pending_directory d) (Pending_relative d)
                             (Pending_depth d) names self in
              walk fuel self
          end
      end
  end.

(** One turn for every directory pushed, of which each was counted, and the first. *)
Definition walk_fuel : nat := Z.to_nat (MAX_SCANNED_PATHS + 2).

Definition desktop_paths (root : str) : M W Failure (list (str * str)) :=
  let! m := attempt (symlink_metadata root) in
  match m with
  | Err _ => ret []
  | Ok m =>
      if negb (is_dir m) || is_symlink m then ret []
      else
        let! walked := walk walk_fuel
          {| result_paths := [];
             pending := [{| Pending_directory := root; Pending_relative := []; Pending_depth := 0 |}];
             scanned := 0 |} in
        match walked with
        | Some self => ret (result_paths self)
        | None => fail (internal "out of fuel")
        end
  end.

(** ** Entries *)

Definition executable_file (path : str) : M W unit bool :=
  let! m := attempt (metadata path) in
  ret match m with Ok m => is_file m && any_execute_bit m | Err _ => false end.

Fixpoint find_executable (paths : list str) : M W unit str :=
  match paths with
  | [] => fail tt
  | path :: paths =>
      let! found := executable_file path in
      if found then ret path else find_executable paths
  end.

Definition resolve_program (value : str) : M W unit str :=
  if is_absolute value then
    let! found := executable_file value in
    if found then ret value else fail tt
  else if negb (len (components value) =? 1) then fail tt
  else
    let! path := some (env "PATH"%string) in
    find_executable ((λ directory, path_join directory value)
                       <$> filter (λ directory, is_absolute directory = true)
                             (take 64 (split_paths path))).

Definition parse_exec (value name desktop_path : str) (icon : option str)
  : M W unit (str * list str) :=
  let! '(program, arguments) := some (exec_arguments value name desktop_path icon) in
  let! program := resolve_program program in
  ret (program, arguments).

(** The bytes of the entry's file: the file that was inspected, within its bound. *)
Definition read_source (path : str) : M W unit bytes :=
  let! path_metadata := ok (symlink_metadata path) in
  if negb (is_file path_metadata || is_symlink path_metadata) then fail tt
  else
    let! file := ok (open_file path) in
    let! m := ok (file_metadata file) in
    if negb (is_file m) || (MAX_DESKTOP_BYTES <? Metadata_len m) then fail tt
    else if is_file path_metadata
            && (negb (Metadata_dev m =? Metadata_dev path_metadata)
                || negb (Metadata_ino m =? Metadata_ino path_metadata)) then fail tt
    else
      let! bytes := ok (read_to_end file (MAX_DESKTOP_BYTES + 1)) in
      if MAX_DESKTOP_BYTES <? len bytes then fail tt else ret bytes.

Definition launchable (values : Values) (current_desktops : list str) : option bool :=
  if negb (bool_decide (get values "Type" = Some (bstr "Application"))) then Some false
  else
    hidden ← boolean values "Hidden";
    if (hidden : bool) then Some false
    else
      no_display ← boolean values "NoDisplay";
      if (no_display : bool) then Some false
      else
        terminal ← boolean values "Terminal";
        if (terminal : bool) then Some false
        else Some (visible_on_desktop values current_desktops).

Definition working_directory_of (values : Values) : option (option str) :=
  match get values "Path" with
  | Some value => value ← decode_string value; Some (nonempty (Some value))
  | None => Some None
  end.

(** [directory.is_dir()] *)
Definition directory_exists (path : str) : M W unit bool :=
  let! m := attempt (metadata path) in
  ret match m with Ok m => is_dir m | Err _ => false end.

Definition read_entry (path : str) (id : ApplicationId) (user_entry : bool)
  (current_desktops : list str) : M W unit CatalogEntry :=
  let! bytes := read_source path in
  let! source := some (if utf8_valid bytes then Some bytes else None) in
  let! values := some (parse_desktop source) in
  let! shown := some (launchable values current_desktops) in
  if negb shown then fail tt
  else
    let! name := some (localized_name env values) in
    let icon := get values "Icon" in
    let! exec := some (get values "Exec") in
    let! '(program, arguments) := parse_exec exec name path icon in
    match get values "TryExec" with
    | Some try_exec =>
        let! try_exec := some (decode_string try_exec) in
        let! _ := resolve_program try_exec in
        ret tt
    | None => ret tt
    end ;!
    let! working_directory := some (working_directory_of values) in
    match working_directory with
    | Some directory =>
        if negb (is_absolute directory) then fail tt
        else
          let! exists_ := directory_exists directory in
          if negb exists_ then fail tt else ret tt
    | None => ret tt
    end ;!
    let! name := some (result_ok (BoundedText_new name)) in
    ret {| CatalogEntry_descriptor :=
             {| ApplicationDescriptor_id := id; ApplicationDescriptor_name := name;
                ApplicationDescriptor_user_entry := user_entry |};
           CatalogEntry_program := program;
           CatalogEntry_arguments := arguments;
           CatalogEntry_working_directory := working_directory |}.

(** ** Discovery *)

Record Discovery := { catalog : list CatalogEntry; seen : list ApplicationId }.

Definition discover_path (user_entry : bool) (current_desktops : list str) (path relative : str)
  (self : Discovery) : M W Failure Discovery :=
  match desktop_id relative with
  | None => ret self
  | Some id =>
      if bool_decide (id ∈ seen self) then ret self
      else
        let seen := id :: seen self in
        if len (catalog self) =? MAX_INSTALLED_APPLICATIONS
        then fail (too_large "application catalog exceeds its bound")
        else
          let! entry := attempt (read_entry path id user_entry current_desktops) in
          ret {| catalog := catalog self ++ match entry with Ok entry => [entry] | Err _ => [] end;
                 seen := seen |}
  end.

Fixpoint discover_paths (user_entry : bool) (current_desktops : list str)
  (paths : list (str * str)) (self : Discovery) : M W Failure Discovery :=
  match paths with
  | [] => ret self
  | (path, relative) :: paths =>
      let! self := discover_path user_entry current_desktops path relative self in
      discover_paths user_entry current_desktops paths self
  end.

Fixpoint discover_roots (current_desktops : list str) (roots : list DataRoot) (self : Discovery)
  : M W Failure Discovery :=
  match roots with
  | [] => ret self
  | root :: roots =>
      let! paths := desktop_paths (DataRoot_applications root) in
      let! self := discover_paths (DataRoot_user_entry root) current_desktops
                     (merge_sort path_le paths) self in
      discover_roots current_desktops roots self
  end.

Definition discover_all : M W Failure (list CatalogEntry) :=
  let! current_desktops := lift (current_desktops env) in
  let! roots := lift (data_roots env) in
  let! self := discover_roots current_desktops roots {| catalog := []; seen := [] |} in
  ret (merge_sort entry_le (catalog self)).

Definition permitted (policy : LaunchPolicy) (entry : CatalogEntry) : bool :=
  permits policy (entry_id entry) (ApplicationDescriptor_user_entry (CatalogEntry_descriptor entry)).

Definition discover (policy : LaunchPolicy) : M W Failure (list CatalogEntry) :=
  if negb (allows_any policy) then ret []
  else
    let! entries := discover_all in
    ret (filter (λ entry, permitted policy entry = true) entries).

Definition installed_applications : M W string (list ApplicationDescriptor) :=
  let! entries := map_error Failure_message discover_all in
  ret (CatalogEntry_descriptor <$> entries).

(** ** Pages *)

(** A session's catalog, beside the host. *)
Record SessionCatalog := { cached : option (list ApplicationDescriptor) }.

Definition host_of (t : SessionCatalog * W) : W := t.2.
Definition set_host (s : W) (t : SessionCatalog * W) : SessionCatalog * W := (t.1, s).
Definition set_cached (l : list ApplicationDescriptor) (t : SessionCatalog * W) : SessionCatalog * W :=
  ({| cached := Some l |}, t.2).

Definition SessionCatalog_new : SessionCatalog := {| cached := None |}.

Definition page (catalog : list ApplicationDescriptor) (cursor limit : Z)
  : result ApplicationPage Failure :=
  if len catalog <? cursor then Err (invalid "application cursor is outside the catalog")
  else
    let end_ := Z.min (cursor + limit) (len catalog) in
    let? next_cursor :=
      if end_ <? len catalog
      then result_map Some (ok_or (checked_u32 end_) (internal "application cursor space is exhausted"))
      else Ok None in
    let? applications :=
      map_err (λ _, internal "application page exceeded its public bound")
        (BoundedList_new (take (Z.to_nat (end_ - cursor)) (drop (Z.to_nat cursor) catalog))) in
    Ok {| ApplicationPage_applications := applications; ApplicationPage_next_cursor := next_cursor |}.

Definition SessionCatalog_list (request : ApplicationListRequest) (policy : LaunchPolicy)
  : M (SessionCatalog * W) Failure ApplicationPage :=
  let cursor := ApplicationListRequest_cursor request in
  (if cursor =? 0 then
     let! entries := zoom host_of set_host (discover policy) in
     modify (set_cached (CatalogEntry_descriptor <$> entries))
   else ret tt) ;!
  let! cached := gets (λ t, cached t.1) in
  let! catalog := lift (ok_or cached (invalid "application cursor has no session catalog")) in
  lift (page catalog cursor (ApplicationListRequest_limit request)).
End discovery.
