(* ===== verification/Launch.v ===== *)
(** * [agent-seat-x11/src/launch.rs]: starting applications

    The supervisor: launch tokens, the children it keeps, and the command it builds —
    the entry's program itself, or [systemd-run] around it. *)

From S2P Require Import Prelude Text Bounded Protocol Message Effects Policy Host DesktopEntry Catalog.

Definition MAX_ACTIVE_CHILDREN : Z := 64.
Definition MAX_DELEGATED_ENVIRONMENT_BYTES : Z := 4096.
Definition SYSTEMD_RUN : str := bstr "/usr/bin/systemd-run".

Record LaunchSupervisor := {
  next_token : Z;
  children : list Child;
  delegate_via_systemd : bool;
  delegated_unit_stem : str
}.

Record Started := { Started_token : LaunchToken; Started_startup_id : str }.

(** ** Commands *)

(** [Command::new] and its setters. *)
Definition Command_new (program : str) : Command :=
  {| Command_program := program; Command_args := []; Command_env := [];
     Command_current_dir := None; Command_null_stdio := false |}.
Definition with_args (args : list str) (c : Command) : Command :=
  {| Command_program := Command_program c; Command_args := Command_args c ++ args;
     Command_env := Command_env c; Command_current_dir := Command_current_dir c;
     Command_null_stdio := Command_null_stdio c |}.
Definition with_env (name value : str) (c : Command) : Command :=
  {| Command_program := Command_program c; Command_args := Command_args c;
     Command_env := Command_env c ++ [(name, value)]; Command_current_dir := Command_current_dir c;
     Command_null_stdio := Command_null_stdio c |}.
Definition with_current_dir (directory : str) (c : Command) : Command :=
  {| Command_program := Command_program c; Command_args := Command_args c;
     Command_env := Command_env c; Command_current_dir := Some directory;
     Command_null_stdio := Command_null_stdio c |}.
Definition configure_stdio (c : Command) : Command :=
  {| Command_program := Command_program c; Command_args := Command_args c;
     Command_env := Command_env c; Command_current_dir := Command_current_dir c;
     Command_null_stdio := true |}.

Definition direct_command (entry : CatalogEntry) (startup_id : str) : Command :=
  let command := with_env (bstr "DESKTOP_STARTUP_ID") startup_id
                   (with_args (CatalogEntry_arguments entry)
                      (Command_new (CatalogEntry_program entry))) in
  configure_stdio
    match CatalogEntry_working_directory entry with
    | Some directory => with_current_dir directory command
    | None => command
    end.

(** The variables handed on to the user manager. *)
Definition delegated_variables : list string :=
  ["DISPLAY"; "XAUTHORITY"; "WAYLAND_DISPLAY"; "XDG_RUNTIME_DIR"; "XDG_CURRENT_DESKTOP";
   "XDG_SESSION_DESKTOP"; "DBUS_SESSION_BUS_ADDRESS"; "HOME"; "USER"; "LOGNAME"; "LANG"; "LC_ALL";
   "LC_MESSAGES"]%string.

Definition environment_too_large : Failure :=
  too_large "delegated application environment exceeds its bound".

Fixpoint delegate_environment (env : string → option str) (names : list string)
  (environment_bytes : Z) (c : Command) : result Command Failure :=
  match names with
  | [] => Ok c
  | name :: names =>
      match env name with
      | None => delegate_environment env names environment_bytes c
      | Some value =>
          let? environment_bytes :=
            ok_or (bytes ← checked_u64 (environment_bytes + len (bstr name));
                   checked_u64 (bytes + len value)) environment_too_large in
          if MAX_DELEGATED_ENVIRONMENT_BYTES <? environment_bytes then Err environment_too_large
          else delegate_environment env names environment_bytes
                 (with_args [bstr "--setenv=" ++ bstr name ++ bstr "=" ++ value] c)
      end
  end.

(** ** The supervisor's parts of the state *)

Section launch.
Context {W : Type} `{Files W} `{Processes W}.
Context (env : string → option str).
(** [process::id()], and [getrandom] into a buffer of the given size: the bytes written *)
Context (pid : Z) (getrandom : Z → M W string bytes).

Abbreviation St := (LaunchSupervisor * W)%type.

Definition world (t : St) : W := t.2.
Definition set_world (s : W) (t : St) : St := (t.1, s).
Definition in_world {E A} (m : M W E A) : M St E A := zoom world set_world m.

Definition set_token (token : Z) (t : St) : St :=
  ({| next_token := token; children := children t.1; delegate_via_systemd := delegate_via_systemd t.1;
      delegated_unit_stem := delegated_unit_stem t.1 |}, t.2).
Definition set_children (l : list Child) (t : St) : St :=
  ({| next_token := next_token t.1; children := l; delegate_via_systemd := delegate_via_systemd t.1;
      delegated_unit_stem := delegated_unit_stem t.1 |}, t.2).

(** ** Creation *)

(** [while offset < bytes.len()]; eight rounds are enough for the eight bytes, as each
    fills at least one. *)
Fixpoint random_bytes (fuel : nat) (bytes : list Z) : M W string (list Z) :=
  match fuel with
  | O => ret bytes
  | S fuel =>
      if 8 <=? len bytes then ret bytes
      else
        let! more := getrandom (8 - len bytes) in
        if len more =? 0 then fail "random source returned no launch instance bytes"%string
        else random_bytes fuel (bytes ++ more)
  end.

(** [u64::from_ne_bytes] on a little-endian machine. *)
Fixpoint from_ne_bytes (bytes : list Z) : Z :=
  match bytes with
  | [] => 0
  | b :: bytes => b + 256 * from_ne_bytes bytes
  end.

Definition random_instance : M W string Z :=
  let! bytes := random_bytes 8 [] in
  let instance := from_ne_bytes bytes in
  if instance =? 0 then fail "random launch instance identifier was zero"%string else ret instance.

Definition LaunchSupervisor_new (delegate : bool) : M W string LaunchSupervisor :=
  let! stem :=
    if delegate then
      let! instance := random_instance in
      ret (bstr "agent-seat-launched-" ++ to_dec pid ++ bstr "-" ++ hex_fixed 16 instance)
    else ret [] in
  ret {| next_token := 1; children := []; delegate_via_systemd := delegate;
         delegated_unit_stem := stem |}.

(** ** Children *)

(** [Vec::swap_remove]: the last element takes the place. *)
Definition swap_remove {A} (index : nat) (l : list A) : list A :=
  match last l with
  | Some x => if decide (index = length l - 1)%nat then removelast l
              else <[index := x]> (removelast l)
  | None => l
  end.

(** [while index < children.len()]: every round shortens what is left by one. *)
Fixpoint reap_from (rounds : nat) (index : nat) (children : list Child)
  : M W Failure (list Child) :=
  match rounds with
  | O => ret children
  | S rounds =>
      match children !! index with
      | None => ret children
      | Some child =>
          let! exited := attempt (try_wait child) in
          match exited with
          | Ok true =>
              let! _ := attempt (F:=Failure) (wait child) in
              reap_from rounds index (swap_remove index children)
          | Ok false | Err _ => reap_from rounds (Nat.succ index) children
          end
      end
  end.

Definition reap_children (children : list Child) : M W Failure (list Child) :=
  reap_from (length children) 0 children.

Definition reap : M St Failure unit :=
  let! before := gets (λ t, children t.1) in
  let! after := in_world (reap_children before) in
  modify (set_children after).

(** ** Launching *)

Definition delegated_command (entry : CatalogEntry) (startup_id unit_stem : str) (numeric : Z)
  : M W Failure Command :=
  let! m := map_error (λ _, unavailable "systemd launch delegation is unavailable")
              (metadata SYSTEMD_RUN) in
  if negb (is_file m) || negb (any_execute_bit m)
  then fail (unavailable "systemd launch delegation is unavailable")
  else
    let command :=
      with_args [bstr "--user"; bstr "--wait"; bstr "--collect"; bstr "--quiet";
                 bstr "--service-type=exec"] (Command_new SYSTEMD_RUN) in
    let command :=
      with_args [bstr "--unit=" ++ unit_stem ++ bstr "-" ++ to_dec numeric ++ bstr ".service";
                 bstr "--setenv=DESKTOP_STARTUP_ID=" ++ startup_id] command in
    let! command := lift (delegate_environment env delegated_variables (len startup_id) command) in
    let command := match CatalogEntry_working_directory entry with
                   | Some directory => with_args [bstr "--working-directory=" ++ directory] command
                   | None => command
                   end in
    ret (configure_stdio
           (with_args (bstr "--" :: CatalogEntry_program entry :: CatalogEntry_arguments entry)
              command)).

(** [next_token.fetch_update(.., |current| current.checked_add(1))] *)
Definition take_token : M St Failure Z :=
  let! numeric := gets (λ t, next_token t.1) in
  let! next := lift (ok_or (checked_u64 (numeric + 1)) (internal "launch token space is exhausted")) in
  modify (set_token next) ;!
  ret numeric.

Definition startup_id_of (numeric : Z) : str :=
  bstr "agent-seat-x11-" ++ to_dec pid ++ bstr "-" ++ to_dec numeric.

Definition find_entry (application : ApplicationId) (entries : list CatalogEntry)
  : option CatalogEntry :=
  snd <$> list_find (λ entry, entry_id entry = application) entries.

Definition launch (application : ApplicationId) (policy : LaunchPolicy) : M St Failure Started :=
  let! entries := in_world (discover env policy) in
  let! entry := lift (ok_or (find_entry application entries)
                        (refused "application is not allowed by current policy")) in
  let! numeric := take_token in
  let! token := lift (ok_or (if numeric =? 0 then None else Some numeric)
                        (internal "launch token space is exhausted")) in
  let startup_id := startup_id_of numeric in
  reap ;!
  let! active := gets (λ t, children t.1) in
  if len active =? MAX_ACTIVE_CHILDREN
  then fail (unavailable "active application launch bound is reached")
  else
    let! delegate := gets (λ t, delegate_via_systemd t.1) in
    let! stem := gets (λ t, delegated_unit_stem t.1) in
    let! command := if (delegate : bool)
                    then in_world (delegated_command entry startup_id stem numeric)
                    else ret (direct_command entry startup_id) in
    let! child := map_error (λ _, unavailable "desktop application could not be started")
                    (in_world (spawn command)) in
    modify (set_children (active ++ [child])) ;!
    ret {| Started_token := token; Started_startup_id := startup_id |}.
End launch.
