(* ===== verification/CatalogTheorems.v ===== *)
(** * Properties of the application catalog

    The [Exec] line's words against a grammar of them.  For every file system, also one that
    changes under the scan: the walk of the data roots ends, and the catalog is a sorted list
    of valid entries. *)

From stdpp Require Import gmap sorting sets.
From S2P Require Import Prelude Text Bounded Protocol Message MessageSpec Effects Policy Host DesktopEntry Catalog.

(** ** A grammar of [Exec] lines *)

Definition blank (c : Z) : Prop := is_ascii_whitespace c = true.

(** A character that stands for itself outside quotes. *)
Definition bare (c : Z) : Prop :=
  is_ascii_whitespace c = false ∧ c ≠ 34 ∧ c ≠ 92 ∧ is_exec_reserved c = false.

(** Text between quotes, and what it stands for. *)
Inductive Quoted : str → str → Prop :=
| Quoted_end : Quoted [] []
| Quoted_plain c s t : c ≠ 34 → c ≠ 92 → Quoted s t → Quoted (c :: s) (c :: t)
| Quoted_escape c s t : is_exec_escaped c = true → Quoted s t → Quoted (92 :: c :: s) (c :: t).

Inductive Word : str → ExecWord → Prop :=
| Word_bare s : s ≠ [] → Forall bare s → Word s {| ExecWord_text := s; ExecWord_quoted := false |}
| Word_quoted s t :
    Quoted s t → Word (34 :: s ++ [34]) {| ExecWord_text := t; ExecWord_quoted := true |}.

(** What may follow a word: nothing, or a blank. *)
Definition boundary (s : str) : Prop := match s with [] => True | c :: _ => blank c end.

Inductive Line : str → list ExecWord → Prop :=
| Line_end s : Forall blank s → Line s []
| Line_word s w word rest words :
    Forall blank s → Word w word → boundary rest → Line rest words →
    Line (s ++ w ++ rest) (word :: words).

(** ** The states of the loop *)

Definition idle (W : list ExecWord) : ExecState :=
  {| words := W; text := []; quoted := false; word_quoted := false; present := false;
     closed_quote := false |}.
Definition in_bare (W : list ExecWord) (t : str) : ExecState :=
  {| words := W; text := t; quoted := false; word_quoted := false; present := true;
     closed_quote := false |}.
Definition in_quotes (W : list ExecWord) (t : str) : ExecState :=
  {| words := W; text := t; quoted := true; word_quoted := true; present := true;
     closed_quote := false |}.
Definition closed (W : list ExecWord) (t : str) : ExecState :=
  {| words := W; text := t; quoted := false; word_quoted := true; present := true;
     closed_quote := true |}.

Definition finish (self : ExecState) : option (list ExecWord) :=
  if quoted self then None else Some (words (if present self then end_word self else self)).
Definition run (s : str) (self : ExecState) : option (list ExecWord) :=
  exec_chars s self ≫= finish.

Abbreviation word_of t q := {| ExecWord_text := t; ExecWord_quoted := q |}.

Lemma exec_words_run s : exec_words s = (W ← run s (idle []); if is_empty W then None else Some W).
Proof.
  unfold exec_words, run, idle. destruct (exec_chars s _) as [st|]; [|done]. cbn.
  unfold finish. by destruct (quoted st).
Qed.

Lemma blank_not c : blank c → c ≠ 34 ∧ c ≠ 92 ∧ is_exec_reserved c = false.
Proof.
  unfold blank, is_ascii_whitespace. rewrite !orb_true_iff, !Z.eqb_eq.
  intros [[[[->| ->]| ->]| ->]| ->]; done.
Qed.

Lemma run_idle c s W :
  run (c :: s) (idle W)
  = if is_ascii_whitespace c then run s (idle W)
    else if c =? 34 then run s (in_quotes W [])
    else if c =? 92 then None
    else if is_exec_reserved c then None
    else run s (in_bare W [c]).
Proof.
  unfold run. cbn [exec_chars closed_quote idle andb quoted present negb].
  destruct (is_ascii_whitespace c) eqn:Hb; cbn [andb].
  - destruct (blank_not c Hb) as (H1 & H2 & H3).
    by rewrite (proj2 (Z.eqb_neq c 34)), (proj2 (Z.eqb_neq c 92)).
  - by repeat case_match.
Qed.

Lemma run_bare c s W t :
  run (c :: s) (in_bare W t)
  = if is_ascii_whitespace c then run s (idle (W ++ [word_of t false]))
    else if (c =? 34) || (c =? 92) || is_exec_reserved c then None
    else run s (in_bare W (t ++ [c])).
Proof.
  unfold run. cbn [exec_chars closed_quote in_bare andb quoted present negb].
  destruct (is_ascii_whitespace c) eqn:Hb; cbn [andb].
  - destruct (blank_not c Hb) as (H1 & H2 & H3).
    by rewrite (proj2 (Z.eqb_neq c 34)), (proj2 (Z.eqb_neq c 92)).
  - destruct (c =? 34), (c =? 92), (is_exec_reserved c); done.
Qed.

Lemma run_quotes c s W t :
  run (c :: s) (in_quotes W t)
  = if c =? 34 then run s (closed W t)
    else if c =? 92 then
      match s with
      | [] => None
      | e :: s => if is_exec_escaped e then run s (in_quotes W (t ++ [e])) else None
      end
    else run s (in_quotes W (t ++ [c])).
Proof.
  unfold run. cbn [exec_chars closed_quote in_quotes andb quoted present negb].
  rewrite andb_false_r.
  destruct (c =? 34), (c =? 92); try done.
  destruct s as [|e s]; [done|]. by destruct (is_exec_escaped e).
Qed.

Lemma run_closed c s W t :
  run (c :: s) (closed W t)
  = if is_ascii_whitespace c then run s (idle (W ++ [word_of t true])) else None.
Proof.
  unfold run. cbn [exec_chars closed_quote closed andb quoted present negb].
  destruct (is_ascii_whitespace c) eqn:Hb; cbn [andb negb]; [|done].
  destruct (blank_not c Hb) as (H1 & H2 & H3).
  by rewrite (proj2 (Z.eqb_neq c 34)), (proj2 (Z.eqb_neq c 92)).
Qed.

(** ** Every line of the grammar is read as its words *)

Lemma run_blanks s rest W : Forall blank s → run (s ++ rest) (idle W) = run rest (idle W).
Proof. induction 1 as [|c s Hc _ IH]; [done|]. cbn [app]. by rewrite run_idle, Hc. Qed.

Lemma run_bare_text u rest W t : Forall bare u → run (u ++ rest) (in_bare W t) = run rest (in_bare W (t ++ u)).
Proof.
  intros Hu. revert t. induction Hu as [|c u (Hb & H34 & H92 & Hr) _ IH]; intros t.
  { by rewrite app_nil_r. }
  cbn [app]. rewrite run_bare, Hb, Hr, (proj2 (Z.eqb_neq c 34) H34), (proj2 (Z.eqb_neq c 92) H92).
  cbn [orb]. by rewrite IH, <- (assoc_L (++)).
Qed.

Lemma run_quoted_text u v rest W t :
  Quoted u v → run (u ++ 34 :: rest) (in_quotes W t) = run rest (closed W (t ++ v)).
Proof.
  intros Hu. revert t. induction Hu as [|c u v H34 H92 _ IH|c u v He _ IH]; intros t; cbn [app].
  - by rewrite run_quotes, app_nil_r.
  - rewrite run_quotes, (proj2 (Z.eqb_neq c 34) H34), (proj2 (Z.eqb_neq c 92) H92).
    by rewrite IH, <- (assoc_L (++)).
  - rewrite run_quotes. cbn [Z.eqb Pos.eqb]. by rewrite He, IH, <- (assoc_L (++)).
Qed.

(** A finished word and the rest of the line. *)
Lemma run_boundary rest W t (q : bool) :
  boundary rest →
  run rest ((if q then closed else in_bare) W t) = run rest (idle (W ++ [word_of t q])).
Proof.
  destruct rest as [|c rest]; [by destruct q|]. intros Hb.
  destruct q; [rewrite run_closed|rewrite run_bare]; rewrite run_idle, Hb; done.
Qed.

Lemma run_word w word rest W :
  Word w word → boundary rest → run (w ++ rest) (idle W) = run rest (idle (W ++ [word])).
Proof.
  intros Hw Hrest. destruct Hw as [s Hne Hs|s t Hq].
  - destruct s as [|c s]; [done|]. apply Forall_cons in Hs as [(Hb & H34 & H92 & Hr) Hs].
    cbn [app]. rewrite run_idle, Hb, Hr, (proj2 (Z.eqb_neq c 34) H34), (proj2 (Z.eqb_neq c 92) H92).
    rewrite run_bare_text by done. by apply (run_boundary rest W (c :: s) false).
  - cbn [app]. rewrite <- (assoc_L (++)), run_idle. cbn [is_ascii_whitespace Z.eqb Pos.eqb orb].
    change ([34] ++ rest) with (34 :: rest).
    rewrite (run_quoted_text s t) by done. by apply (run_boundary rest W t true).
Qed.

Lemma run_line s L W : Line s L → run s (idle W) = Some (W ++ L).
Proof.
  intros Hl. revert W. induction Hl as [s Hs|s w word rest words Hs Hw Hb _ IH]; intros W.
  - rewrite <- (app_nil_r s), run_blanks by done. by rewrite app_nil_r.
  - rewrite run_blanks, (run_word w word), IH by done. by rewrite <- (assoc_L (++)).
Qed.

Lemma Line_nil : Line [] [].
Proof. apply Line_end. constructor. Qed.

(** ** Everything that is read is a line of the grammar *)

Lemma Line_blank c s L : blank c → Line s L → Line (c :: s) L.
Proof.
  intros Hc. destruct 1 as [s Hs|s w word rest words Hs Hw Hb Hl].
  - apply Line_end. by constructor.
  - apply (Line_word (c :: s)); [by constructor|done..].
Qed.

Definition reads_idle (s : str) : Prop :=
  ∀ W R, run s (idle W) = Some R → ∃ L, R = W ++ L ∧ Line s L.
Definition reads_bare (s : str) : Prop :=
  ∀ W t R, run s (in_bare W t) = Some R →
    ∃ u rest L, s = u ++ rest ∧ Forall bare u ∧ boundary rest ∧ Line rest L ∧
      R = W ++ word_of (t ++ u) false :: L.
Definition reads_quotes (s : str) : Prop :=
  ∀ W t R, run s (in_quotes W t) = Some R →
    ∃ u v rest L, s = u ++ 34 :: rest ∧ Quoted u v ∧ boundary rest ∧ Line rest L ∧
      R = W ++ word_of (t ++ v) true :: L.
Definition reads_closed (s : str) : Prop :=
  ∀ W t R, run s (closed W t) = Some R →
    ∃ L, boundary s ∧ Line s L ∧ R = W ++ word_of t true :: L.

Lemma reads_bare_step s :
  (∀ t, length t < length s → reads_idle t ∧ reads_bare t)%nat → reads_bare s.
Proof.
  intros IH W t R. destruct s as [|c s].
  { intros [= <-]. exists [], [], []. rewrite (app_nil_r t). split_and!; try done. apply Line_nil. }
  destruct (IH s) as [Hidle Hbare]; [cbn; lia|]. rewrite run_bare.
  destruct (is_ascii_whitespace c) eqn:Hb.
  - intros (L & -> & HL)%Hidle. exists [], (c :: s), L. rewrite app_nil_r, <- (assoc_L (++)).
    split_and!; try done. by apply Line_blank.
  - destruct (_ || _) eqn:Hor; [done|]. bool_props.
    intros (u & rest & L & -> & Hu & ? & ? & ->)%Hbare. exists (c :: u), rest, L.
    rewrite <- (assoc_L (++)). split_and!; try done. by constructor.
Qed.

Lemma reads_closed_step s : (∀ t, length t < length s → reads_idle t)%nat → reads_closed s.
Proof.
  intros IH W t R. destruct s as [|c s].
  { intros [= <-]. exists []. split_and!; try done. apply Line_nil. }
  rewrite run_closed. destruct (is_ascii_whitespace c) eqn:Hb; [|done].
  intros (L & -> & HL)%IH; [|cbn; lia]. exists L. rewrite <- (assoc_L (++)). split_and!; try done.
  by apply Line_blank.
Qed.

Lemma reads_quotes_step s :
  (∀ t, length t < length s → reads_quotes t ∧ reads_closed t)%nat → reads_quotes s.
Proof.
  intros IH W t R. destruct s as [|c s]; [done|]. rewrite run_quotes.
  destruct (Z.eqb_spec c 34) as [->|H34].
  { destruct (IH s) as [_ Hclosed]; [cbn; lia|].
    intros (L & Hb & HL & ->)%Hclosed. exists [], [], s, L. rewrite app_nil_r.
    split_and!; try done. constructor. }
  destruct (Z.eqb_spec c 92) as [->|H92].
  - destruct s as [|e s]; [done|]. destruct (is_exec_escaped e) eqn:He; [|done].
    destruct (IH s) as [Hq _]; [cbn; lia|].
    intros (u & v & rest & L & -> & Hu & ? & ? & ->)%Hq. exists (92 :: e :: u), (e :: v), rest, L.
    rewrite <- (assoc_L (++)). split_and!; try done. by constructor.
  - destruct (IH s) as [Hq _]; [cbn; lia|].
    intros (u & v & rest & L & -> & Hu & ? & ? & ->)%Hq. exists (c :: u), (c :: v), rest, L.
    rewrite <- (assoc_L (++)). split_and!; try done. by constructor.
Qed.

Lemma reads_idle_step s :
  (∀ t, length t < length s → reads_idle t ∧ reads_bare t ∧ reads_quotes t)%nat → reads_idle s.
Proof.
  intros IH W R. destruct s as [|c s].
  { intros [= <-]. exists []. rewrite app_nil_r. split; [done|apply Line_nil]. }
  destruct (IH s) as (Hidle & Hbare & Hq); [cbn; lia|]. rewrite run_idle.
  destruct (is_ascii_whitespace c) eqn:Hb.
  { intros (L & -> & HL)%Hidle. exists L. split; [done|]. by apply Line_blank. }
  destruct (Z.eqb_spec c 34) as [->|H34].
  { intros (u & v & rest & L & -> & Hu & Hbd & HL & ->)%Hq. exists (word_of v true :: L).
    split; [done|]. replace (34 :: u ++ 34 :: rest) with ([] ++ (34 :: u ++ [34]) ++ rest)
      by (cbn; by rewrite <- (assoc_L (++))).
    by apply Line_word; [constructor|constructor|..]. }
  destruct (Z.eqb_spec c 92) as [->|H92]; [done|].
  destruct (is_exec_reserved c) eqn:Hr; [done|].
  intros (u & rest & L & -> & Hu & Hbd & HL & ->)%Hbare. exists (word_of (c :: u) false :: L).
  split; [done|]. apply (Line_word [] (c :: u)); [constructor|constructor|done..]; [done|].
  by constructor.
Qed.

Lemma reads_all n s : (length s < n)%nat → reads_idle s ∧ reads_bare s ∧ reads_quotes s ∧ reads_closed s.
Proof.
  revert s. induction n as [|n IH]; intros s Hs; [lia|].
  assert (∀ t, (length t < length s)%nat → reads_idle t ∧ reads_bare t ∧ reads_quotes t ∧ reads_closed t)
    as Hall by (intros t Ht; apply IH; lia).
  split_and!; [apply reads_idle_step|apply reads_bare_step|apply reads_quotes_step|apply reads_closed_step];
    intros t Ht; destruct (Hall t Ht) as (? & ? & ? & ?); tauto.
Qed.

Lemma exec_words_iff s W : exec_words s = Some W ↔ W ≠ [] ∧ Line s W.
Proof.
  rewrite exec_words_run. split.
  - intros (R & HR & Hne)%bind_Some. destruct (reads_all (Datatypes.S (length s)) s) as [Hidle _]; [lia|].
    apply Hidle in HR as (L & -> & HL). cbn in Hne. by destruct L as [|w L]; [|injection Hne as <-].
  - intros [Hne HL]. rewrite (run_line s W []) by done. by destruct W.
Qed.

(** The words of an [Exec] line are those of its grammar.  A line is split into words
    exactly when it is a sequence of words set apart by blanks, at least one: each
    either characters that mean nothing to a shell, standing for themselves, or a quoted
    text in which only a backslash is special, before the four characters it may stand
    before.  Nothing else is accepted, and no character of a word is lost or added. *)
Theorem exec_words_grammar s W : exec_words s = Some W ↔ W ≠ [] ∧ Line s W.
Proof. apply exec_words_iff. Qed.

(** ** The order of entries is total *)

#[export] Instance entry_le_total : Total entry_le.
Proof.
  intros a b. unfold entry_le. destruct (str_ltb (as_str (entry_id b)) (as_str (entry_id a))) eqn:H;
    [right; by apply str_ltb_asym|by left].
Qed.

#[export] Instance entry_le_trans : Transitive entry_le.
Proof.
  intros a b c. unfold entry_le. intros Hab Hbc.
  destruct (str_ltb (as_str (entry_id c)) (as_str (entry_id a))) eqn:Hca; [|done]. exfalso.
  destruct (str_ltb (as_str (entry_id a)) (as_str (entry_id b))) eqn:Hlt.
  - pose proof (str_ltb_trans _ _ _ Hca Hlt). congruence.
  - rewrite (str_ltb_total _ _ Hlt Hab) in Hca. congruence.
Qed.

Definition ids (entries : list CatalogEntry) : list str := (λ e, as_str (entry_id e)) <$> entries.

Lemma sorted_canonical l : StronglySorted entry_le l → NoDup (ids l) → canonical (ids l).
Proof.
  induction 1 as [|e l _ IH He]; intros Hnd; [constructor|].
  apply NoDup_cons in Hnd as [Hnin Hnd]. constructor; [by apply IH|].
  apply Forall_fmap. rewrite Forall_forall in *. intros e' He'. cbn.
  specialize (He e' He'). unfold entry_le in He. unfold ord_lt, str_Ord.
  destruct (str_ltb (as_str (entry_id e)) (as_str (entry_id e'))) eqn:Hlt; [done|]. exfalso.
  apply Hnin. rewrite (str_ltb_total _ _ Hlt He). apply list_elem_of_fmap. by exists e'.
Qed.

(** ** What a catalog entry is *)

Section discovery.
Context {W : Type} `{Files W}.
Context (env : string → option str).

(** The file system has said so at some moment. *)
Definition seen_executable (path : str) : Prop :=
  ∃ (s s' : W) m, metadata path s = (Ok m, s') ∧ is_file m = true ∧ any_execute_bit m = true.

Definition entry_wf (e : CatalogEntry) : Prop :=
  ApplicationDescriptor_wf (CatalogEntry_descriptor e) ∧
  is_absolute (CatalogEntry_program e) = true ∧ seen_executable (CatalogEntry_program e) ∧
  len (CatalogEntry_arguments e) < MAX_EXEC_ARGUMENTS ∧
  opt (λ directory, is_absolute directory = true) (CatalogEntry_working_directory e).

(** *** Texts *)

Lemma expand_words_bound words name path icon expanded l :
  expand_words words name path icon expanded = Some l → len expanded ≤ MAX_EXEC_ARGUMENTS →
  len l ≤ MAX_EXEC_ARGUMENTS.
Proof.
  revert expanded. induction words as [|w words IH]; intros expanded; cbn [expand_words].
  { by intros [= <-]. }
  intros (output & _ & Hl)%bind_Some _. cbv zeta in Hl.
  destruct (MAX_EXEC_ARGUMENTS <? len (expanded ++ output)) eqn:Hb; [done|]. bool_props. by eapply IH.
Qed.

Lemma exec_arguments_wf value name path icon program arguments :
  exec_arguments value name path icon = Some (program, arguments) →
  program ≠ [] ∧ 61 ∉ program ∧ len arguments < MAX_EXEC_ARGUMENTS.
Proof.
  unfold exec_arguments. destruct (_ || _); [done|].
  intros (v & _ & (words & _ & (l & Hl & (p & Hp & Hr)%bind_Some)%bind_Some)%bind_Some)%bind_Some.
  destruct (is_empty p || contains 61 p) eqn:Hc; [done|]. bool_props. injection Hr as <- <-.
  apply expand_words_bound in Hl; [|done].
  split_and!; [by apply is_empty_false|by apply contains_false|].
  destruct l as [|x l]; [done|]. unfold len in *. cbn in *. lia.
Qed.

Lemma nonempty_Some o (s : str) : nonempty o = Some s → s ≠ [].
Proof.
  unfold nonempty. intros (v & _ & Hv)%bind_Some. destruct (is_empty v) eqn:He; [done|].
  injection Hv as <-. by apply is_empty_false.
Qed.

Lemma first_name_nonempty m locales name : first_name m locales = Some (Some name) → name ≠ [].
Proof.
  induction locales as [|locale locales IH]; cbn [first_name]; [done|].
  destruct (m !! _) as [value|]; [|done].
  intros (v & _ & Hv)%bind_Some. destruct (is_empty v) eqn:He; cbn in Hv; [by apply IH|].
  injection Hv as <-. by apply is_empty_false.
Qed.

Lemma localized_name_nonempty m name : localized_name env m = Some name → name ≠ [].
Proof.
  unfold localized_name. intros (found & Hf & Hn)%bind_Some. destruct found as [n|].
  - injection Hn as <-. by eapply first_name_nonempty.
  - apply bind_Some in Hn as (v & _ & Hn). by eapply nonempty_Some.
Qed.

Lemma desktop_id_wf relative id :
  desktop_id relative = Some id → MessageSpec.desktop_id (as_str id).
Proof.
  unfold desktop_id. intros (t & _ & Ht)%bind_Some.
  destruct (is_empty t || negb (ends_with (bstr ".desktop") t)) eqn:Hc; [done|]. bool_props.
  destruct (BoundedText_new t) as [b|] eqn:Hb; [|done]. injection Ht as <-.
  apply BoundedText_new_Ok in Hb as ->. by apply ends_with_desktop.
Qed.

(** *** Programs *)

Abbreviation anything := (λ _ _, True).

Lemma wp_some {A} (o : option A) (Q : A → W → Prop) s :
  (∀ a, o = Some a → Q a s) → wp (some o) Q anything s.
Proof. intros HQ. unfold some. apply wp_lift; [|done]. intros a Ha. apply HQ. destruct o as [b|]; [|done]. cbn in Ha. congruence. Qed.

Lemma wp_returned {E A} (m : M W E A) Q s :
  (∀ a s', m s = (Ok a, s') → Q a s') → wp m Q anything s.
Proof. intros HQ. unfold wp. destruct (m s) as [[a|e] s'] eqn:Hm; [by apply HQ|done]. Qed.

Lemma wp_ok {A} (m : M W IoError A) Q s :
  (∀ a s', m s = (Ok a, s') → Q a s') → wp (ok m) Q anything s.
Proof. intros HQ. unfold ok. apply wp_map_error. by apply wp_returned. Qed.

Lemma executable_file_post path s :
  wp (executable_file path) (λ found _, found = true → seen_executable path) anything s.
Proof.
  unfold executable_file. wp_step. wp_step. unfold wp.
  destruct (metadata path s) as [[m|e] s'] eqn:Hm; [|done].
  intros [Hf Hx]%andb_true_iff. by exists s, s', m.
Qed.

Definition program_wf (path : str) : Prop := is_absolute path = true ∧ seen_executable path.

Lemma find_executable_post paths s :
  Forall (λ p, is_absolute p = true) paths →
  wp (find_executable paths) (λ path _, program_wf path) anything s.
Proof.
  revert s. induction paths as [|p paths IH]; intros s Hp; [done|]. cbn [find_executable].
  apply Forall_cons in Hp as [Hp Hps]. wp_step. wp_call executable_file_post; [|done].
  intros [] s1 Hs1; [|by apply IH]. apply wp_ret. split; [done|by apply Hs1].
Qed.

Lemma path_join_absolute base relative : is_absolute base = true → is_absolute (path_join base relative) = true.
Proof.
  unfold path_join, is_absolute. intros (r & ->)%starts_with_true. apply starts_with_true.
  destruct (_ || _); [exists (r ++ relative)|exists (r ++ bstr "/" ++ relative)]; by rewrite <- (assoc_L (++)).
Qed.

Lemma resolve_program_post value s :
  wp (resolve_program env value) (λ path _, program_wf path) anything s.
Proof.
  unfold resolve_program. destruct (is_absolute value) eqn:Habs.
  - wp_step. wp_call executable_file_post; [|done]. intros [] s1 Hs1; [|done].
    apply wp_ret. split; [done|by apply Hs1].
  - destruct (negb _); [done|]. wp_step. apply wp_some. intros path _.
    apply find_executable_post. apply Forall_fmap, Forall_forall. intros d Hd. cbn.
    apply list_elem_of_filter in Hd as [Hd _]. by apply path_join_absolute.
Qed.

Lemma parse_exec_post value name path icon s :
  wp (parse_exec env value name path icon)
    (λ r _, program_wf r.1 ∧ len r.2 < MAX_EXEC_ARGUMENTS) anything s.
Proof.
  unfold parse_exec. wp_step. apply wp_some. intros [p arguments] (_ & _ & Hl)%exec_arguments_wf.
  wp_step. wp_call resolve_program_post; [|done]. intros program s1 Hp. by apply wp_ret.
Qed.

(** *** Entries *)

Definition entry_of (id : ApplicationId) (user_entry : bool) (e : CatalogEntry) : Prop :=
  entry_id e = id ∧
  ApplicationDescriptor_user_entry (CatalogEntry_descriptor e) = user_entry ∧ entry_wf e.

Lemma read_entry_post path id user_entry desktops s :
  MessageSpec.desktop_id (as_str id) →
  wp (read_entry env path id user_entry desktops) (λ e _, entry_of id user_entry e) anything s.
Proof.
  intros Hid. unfold read_entry. wp_step. apply wp_returned. intros bytes s1 _.
  wp_step. apply wp_some. intros source _. wp_step. apply wp_some. intros values _.
  wp_step. apply wp_some. intros shown _. destruct (negb shown); [done|].
  wp_step. apply wp_some. intros name Hname%localized_name_nonempty. cbv zeta.
  wp_step. apply wp_some. intros exec _. wp_step. wp_call parse_exec_post; [|done].
  intros [program arguments] s2 [[Hpa Hpx] Hargs]. cbn [fst snd] in *.
  wp_step. apply wp_returned. intros [] s3 _. wp_step. apply wp_some. intros directory _.
  wp_step. apply (wp_mono _ (λ _ _, opt (λ d, is_absolute d = true) directory) _ anything); [| |done].
  { destruct directory as [d|]; [|by apply wp_ret; intros ? [=]].
    destruct (is_absolute d) eqn:Habs; [|done]. cbn [negb]. apply wp_returned. intros _ _ _ d' [= <-]. done. }
  intros [] s4 Hdir. wp_step. apply wp_some. intros bounded Hb. apply wp_ret.
  destruct (BoundedText_new name) as [b|] eqn:Hbn; [|done]. injection Hb as <-.
  apply BoundedText_new_Ok in Hbn. unfold entry_of, entry_wf. cbn. split_and!; try done.
  split; [done|]. unfold nonempty_text. cbn. by rewrite Hbn.
Qed.

(** ** The walk ends *)

Definition pushed_within (before : Walk) (after : Walk) : Prop :=
  scanned after ≤ Z.max (scanned before) MAX_SCANNED_PATHS ∧ scanned before ≤ scanned after ∧
  len (pending after) - scanned after ≤ len (pending before) - scanned before.

Lemma visit_post directory relative depth name w s :
  wp (visit directory relative depth name w) (λ w' _, pushed_within w w')
    (λ e _, Failure_code e = ErrorCode_TooLarge) s.
Proof.
  unfold visit, MAX_SCANNED_PATHS, pushed_within.
  destruct (16384 <? scanned w + 1) eqn:Hmax; [done|]. bool_props. cbv zeta.
  assert (∀ w', scanned w' = scanned w + 1 → len (pending w') ≤ len (pending w) + 1 →
    scanned w' ≤ Z.max (scanned w) 16384 ∧ scanned w ≤ scanned w' ∧
    len (pending w') - scanned w' ≤ len (pending w) - scanned w) as Hok by lia.
  destruct (negb _); [apply wp_ret, Hok; cbn; lia|].
  destruct (_ || _ || _); [apply wp_ret, Hok; cbn; lia|].
  do 2 wp_step. unfold wp at 1. destruct (symlink_metadata _ s) as [[m|e] s1]; [|apply wp_ret, Hok; cbn; lia].
  destruct (is_dir m && _).
  { apply wp_ret, Hok; cbn; rewrite ?len_cons; lia. }
  wp_step. apply (wp_mono _ (λ _ _, True) _ (λ _ _, False)); [| |done].
  - unfold leads_to_file. repeat wp_step; try done. unfold wp. by destruct (metadata _ _) as [[]].
  - intros b s2 _. apply wp_ret, Hok; destruct (b && _); cbn; lia.
Qed.

Lemma visit_all_post directory relative depth names w s :
  wp (visit_all directory relative depth names w) (λ w' _, pushed_within w w')
    (λ e _, Failure_code e = ErrorCode_TooLarge) s.
Proof.
  revert w s. induction names as [|name names IH]; intros w s; cbn [visit_all].
  { apply wp_ret. unfold pushed_within. lia. }
  wp_step. wp_call visit_post; [|done]. intros w1 s1 Hw1.
  wp_call IH; [|done]. intros w2 s2 Hw2. unfold pushed_within in *. lia.
Qed.

Lemma walk_post fuel w s :
  scanned w ≤ MAX_SCANNED_PATHS →
  len (pending w) + MAX_SCANNED_PATHS - scanned w < Z.of_nat fuel →
  wp (walk fuel w) (λ w' _, w' ≠ None) (λ e _, Failure_code e = ErrorCode_TooLarge) s.
Proof.
  revert w s. induction fuel as [|fuel IH]; intros w s Hscan Hfuel; [unfold len in *; lia|].
  cbn [walk]. destruct (pending w) as [|d rest] eqn:Hp; [by apply wp_ret|].
  rewrite len_cons in Hfuel. do 2 wp_step. unfold wp at 1.
  destruct (read_dir _ s) as [[names|e] s1]; [|by apply IH; cbn; lia].
  wp_step. wp_call visit_all_post; [|done]. intros w' s2 (H1 & H2 & H3). cbn in *.
  apply IH; lia.
Qed.

Definition scan_error (e : Failure) : Prop :=
  Failure_code e = ErrorCode_TooLarge ∨ Failure_code e = ErrorCode_Unavailable.

Lemma desktop_paths_post root s :
  wp (desktop_paths root) (λ _ _, True) (λ e _, scan_error e) s.
Proof.
  unfold desktop_paths. do 2 wp_step. unfold wp at 1.
  destruct (symlink_metadata root s) as [[m|e] s1]; [|done].
  destruct (_ || _); [done|]. wp_step. wp_call walk_post; [done|..].
  - cbn [pending scanned]. unfold walk_fuel, MAX_SCANNED_PATHS, len. cbn [length]. lia.
  - intros [w|] s2 Hw; [by apply wp_ret|done].
  - intros e s2 He. by left.
Qed.

(** ** The catalog *)

(** What discovery has found so far. *)
Definition discovery_ok (d : Discovery) : Prop :=
  Forall entry_wf (catalog d) ∧ NoDup (ids (catalog d)) ∧
  (∀ e, e ∈ catalog d → entry_id e ∈ seen d) ∧ len (catalog d) ≤ MAX_INSTALLED_APPLICATIONS.

Lemma discover_path_post user_entry desktops path relative d s :
  discovery_ok d →
  wp (discover_path env user_entry desktops path relative d) (λ d' _, discovery_ok d')
    (λ e _, scan_error e) s.
Proof.
  intros (Hwf & Hnd & Hseen & Hlen). unfold discover_path.
  destruct (desktop_id relative) as [id|] eqn:Hid; [|by apply wp_ret]. apply desktop_id_wf in Hid.
  destruct (bool_decide (id ∈ seen d)) eqn:Hin; [by apply wp_ret|]. bool_props. cbv zeta.
  destruct (Z.eqb_spec (len (catalog d)) MAX_INSTALLED_APPLICATIONS) as [|Hmax]; [by left|].
  do 2 wp_step. wp_call (read_entry_post path id user_entry desktops); [done| |].
  - intros e s1 (He & _ & Hewf). apply wp_ret. split_and!; cbn.
    + apply Forall_app. by split; [|constructor].
    + unfold ids in *. rewrite fmap_app. apply NoDup_app. split_and!; [done| |apply NoDup_singleton].
      intros x (e' & -> & He')%list_elem_of_fmap. cbn. rewrite list_elem_of_singleton, He.
      intros Heq%as_str_inj. apply Hin. rewrite <- Heq. by apply Hseen.
    + intros e' [He'|He']%elem_of_app; [right; by apply Hseen|].
      apply list_elem_of_singleton in He' as ->. rewrite He. by left.
    + unfold len in *. rewrite length_app. cbn. lia.
  - intros [] s1 _. apply wp_ret. unfold discovery_ok. cbn. rewrite app_nil_r.
    split_and!; try done. intros e He. right. by apply Hseen.
Qed.

Lemma discover_paths_post user_entry desktops paths d s :
  discovery_ok d →
  wp (discover_paths env user_entry desktops paths d) (λ d' _, discovery_ok d')
    (λ e _, scan_error e) s.
Proof.
  revert d s. induction paths as [|[path relative] paths IH]; intros d s Hd; cbn [discover_paths].
  { by apply wp_ret. }
  wp_step. wp_call discover_path_post; [done| |done]. intros d1 s1 Hd1. by apply IH.
Qed.

Lemma discover_roots_post desktops roots d s :
  discovery_ok d →
  wp (discover_roots env desktops roots d) (λ d' _, discovery_ok d') (λ e _, scan_error e) s.
Proof.
  revert d s. induction roots as [|root roots IH]; intros d s Hd; cbn [discover_roots].
  { by apply wp_ret. }
  wp_step. wp_call desktop_paths_post; [|done]. intros paths s1 _.
  wp_step. wp_call discover_paths_post; [done| |done]. intros d1 s2 Hd1. by apply IH.
Qed.

Definition catalog_ok (entries : list CatalogEntry) : Prop :=
  Forall entry_wf entries ∧ canonical (ids entries) ∧ len entries ≤ MAX_INSTALLED_APPLICATIONS.

Lemma data_roots_error e : data_roots env = Err e → scan_error e.
Proof.
  assert (∀ values roots e, system_roots values roots = Err e → scan_error e) as Hsys.
  { intros values. induction values as [|v values IH]; intros roots e'; cbn [system_roots]; [done|].
    destruct (len roots =? _); [intros [= <-]; by left|].
    destruct (negb _); [intros [= <-]; by right|]. apply IH. }
  assert (∀ v x e, absolute_path v x = Err e → scan_error e) as Habs.
  { intros v x e'. unfold absolute_path. repeat case_match; [done|intros [= <-]; by right..]. }
  unfold data_roots. destruct (nonempty (env "XDG_DATA_HOME"%string)) as [v|]; cbn.
  - destruct (absolute_path v _) eqn:Hv; cbn; [apply Hsys|intros [= <-]; by eapply Habs].
  - destruct (env "HOME"%string) as [home|]; cbn; [|intros [= <-]; by right].
    destruct (absolute_path home _) eqn:Hv; cbn; [apply Hsys|intros [= <-]; by eapply Habs].
Qed.

Lemma current_desktops_error e : current_desktops env = Err e → scan_error e.
Proof. unfold current_desktops. repeat case_match; intros [= <-]; by left. Qed.

Lemma ids_permutation l k : l ≡ₚ k → ids l ≡ₚ ids k.
Proof. apply fmap_Permutation. Qed.

Lemma discover_all_post s :
  wp (discover_all env) (λ entries _, catalog_ok entries) (λ e _, scan_error e) s.
Proof.
  unfold discover_all. wp_step. apply wp_lift; [|apply current_desktops_error].
  intros desktops _. wp_step. apply wp_lift; [|apply data_roots_error]. intros roots _.
  wp_step. wp_call discover_roots_post; [| |done].
  { split_and!; cbn; [constructor..|by intros e He; inversion He|unfold len, MAX_INSTALLED_APPLICATIONS; cbn; lia]. }
  intros d s1 (Hwf & Hnd & _ & Hlen). apply wp_ret.
  pose proof (merge_sort_Permutation entry_le (catalog d)) as Hperm. split_and!.
  - by rewrite Hperm.
  - apply sorted_canonical; [apply (StronglySorted_merge_sort _)|]. by rewrite (ids_permutation _ _ Hperm).
  - unfold len in *. by rewrite Hperm.
Qed.

Lemma canonical_ids_filter (P : CatalogEntry → Prop) `{∀ e, Decision (P e)} l :
  canonical (ids l) → canonical (ids (filter P l)).
Proof.
  unfold ids, canonical. induction l as [|e l IH]; [done|].
  rewrite filter_cons, fmap_cons, StronglySorted_cons. intros [He Hl]%id.
  case_decide; [|by apply IH]. rewrite fmap_cons, StronglySorted_cons. split; [|by apply IH].
  rewrite Forall_fmap, Forall_forall in *. intros x [_ Hx]%list_elem_of_filter. by apply He.
Qed.

Lemma discover_post policy s :
  wp (discover env policy)
    (λ entries _, catalog_ok entries ∧ Forall (λ e, permitted policy e = true) entries ∧
       (allows_any policy = false → entries = []))
    (λ e _, scan_error e) s.
Proof.
  unfold discover. destruct (allows_any policy) eqn:Hany; cbn [negb].
  - wp_step. wp_call discover_all_post; [|done]. intros entries s1 (Hwf & Hc & Hlen). apply wp_ret.
    split; [split|split; [apply Forall_forall; by intros e [? _]%list_elem_of_filter|done]].
    + rewrite Forall_forall in *. intros e [_ He]%list_elem_of_filter. by apply Hwf.
    + split; [by apply canonical_ids_filter|]. unfold len in *.
      pose proof (length_filter (λ e, permitted policy e = true) entries). lia.
  - apply wp_ret. split; [split; [constructor|by split; [constructor|]]|]. by split; [constructor|].
Qed.

(** C40: the application catalog is valid whatever the file system does.  Discovery ends;
    it fails only for a bound or an unusable environment, and else yields at most 4096
    entries, strictly ordered by desktop ID (so none twice), each permitted by the policy
    and each valid: a canonical ID, a name that is not empty, an absolute program that the
    file system has called an executable file, fewer than 128 arguments and an absolute
    working directory.  Under a policy that allows nothing it is empty. *)
Theorem catalog_valid policy s :
  match discover env policy s with
  | (Ok entries, _) =>
      Forall entry_wf entries ∧ canonical (ids entries) ∧ len entries ≤ MAX_INSTALLED_APPLICATIONS ∧
      Forall (λ e, permitted policy e = true) entries ∧
      (allows_any policy = false → entries = [])
  | (Err e, _) => Failure_code e = ErrorCode_TooLarge ∨ Failure_code e = ErrorCode_Unavailable
  end.
Proof.
  pose proof (discover_post policy s) as Hwp. unfold wp in Hwp.
  destruct (discover env policy s) as [[entries|e] s']; [|exact Hwp].
  destruct Hwp as ((? & ? & ?) & ? & ?). done.
Qed.

(** ** Pages *)

Definition descriptor_id (d : ApplicationDescriptor) : str := as_str (ApplicationDescriptor_id d).

Definition descriptors_ok (l : list ApplicationDescriptor) : Prop :=
  Forall ApplicationDescriptor_wf l ∧ canonical (descriptor_id <$> l) ∧
  len l ≤ MAX_INSTALLED_APPLICATIONS.

Lemma catalog_descriptors entries :
  catalog_ok entries → descriptors_ok (CatalogEntry_descriptor <$> entries).
Proof.
  intros (Hwf & Hc & Hlen). split_and!.
  - apply Forall_fmap. eapply Forall_impl; [done|]. intros e He. apply He.
  - rewrite <- list_fmap_compose. exact Hc.
  - unfold len in *. by rewrite length_fmap.
Qed.

Lemma descriptors_slice a l b : descriptors_ok (a ++ l ++ b) → Forall ApplicationDescriptor_wf l ∧ canonical (descriptor_id <$> l).
Proof.
  intros (Hwf & Hc & _). split.
  - by apply Forall_app in Hwf as [_ [? _]%Forall_app].
  - rewrite !fmap_app in Hc. apply StronglySorted_app in Hc as (_ & _ & Hc).
    by apply StronglySorted_app in Hc as (_ & Hc & _).
Qed.

(** The page at [cursor] of a valid catalog, and where the next one starts. *)
Lemma page_exact l cursor limit :
  descriptors_ok l → 0 ≤ cursor ≤ len l → 0 < limit ≤ MAX_APPLICATIONS →
  ∃ p, page l cursor limit = Ok p ∧ ApplicationPage_wf p ∧
    let end_ := Z.min (cursor + limit) (len l) in
    drop (Z.to_nat cursor) l = as_slice (ApplicationPage_applications p) ++ drop (Z.to_nat end_) l ∧
    ApplicationPage_next_cursor p = if end_ <? len l then Some end_ else None.
Proof.
  intros Hl Hcur Hlim. unfold page. rewrite (proj2 (Z.ltb_ge (len l) cursor)) by lia. cbv zeta.
  set (end_ := Z.min (cursor + limit) (len l)).
  assert (len l ≤ 4096) as Hmax by apply Hl.
  set (slice := take (Z.to_nat (end_ - cursor)) (drop (Z.to_nat cursor) l)).
  assert (drop (Z.to_nat cursor) l = slice ++ drop (Z.to_nat end_) l) as Hdrop.
  { unfold slice. rewrite <- (take_drop (Z.to_nat (end_ - cursor)) (drop (Z.to_nat cursor) l)) at 1.
    by rewrite drop_drop, <- Z2Nat.inj_add by lia; replace (cursor + (end_ - cursor)) with end_ by lia. }
  destruct (BoundedList_new_fits MAX_APPLICATIONS slice) as [bl Hbl].
  { unfold slice, len. rewrite length_take. unfold MAX_APPLICATIONS in *. lia. }
  assert (ApplicationPage_wf {| ApplicationPage_applications := bl;
            ApplicationPage_next_cursor := if end_ <? len l then Some end_ else None |}) as Hwf.
  { pose proof Hbl as Hs%BoundedList_new_Ok. unfold ApplicationPage_wf. cbn. rewrite Hs.
    apply (descriptors_slice (take (Z.to_nat cursor) l) slice (drop (Z.to_nat end_) l)).
    rewrite <- Hdrop. by rewrite take_drop. }
  rewrite Hbl. unfold checked_u32. rewrite checked_in_intro by (int_bounds; lia).
  apply BoundedList_new_Ok in Hbl.
  destruct (end_ <? len l); eexists; (split; [reflexivity|]); cbn; by rewrite Hbl.
Qed.

(** A client that asks for page after page, as it is told to, with the limits it likes. *)
Fixpoint browse (fuel : nat) (limit : Z → Z) (policy : LaunchPolicy) (cursor : Z)
  : M (SessionCatalog * W) Failure (list ApplicationPage) :=
  match fuel with
  | O => ret []
  | S fuel =>
      let! p := SessionCatalog_list env
                  {| ApplicationListRequest_cursor := cursor;
                     ApplicationListRequest_limit := limit cursor |} policy in
      match ApplicationPage_next_cursor p with
      | None => ret [p]
      | Some cursor => let! ps := browse fuel limit policy cursor in ret (p :: ps)
      end
  end.

Definition listed (pages : list ApplicationPage) : list ApplicationDescriptor :=
  concat ((λ p, as_slice (ApplicationPage_applications p)) <$> pages).

Section paging.
Context (limit : Z → Z) (Hlimit : ∀ cursor, 0 < limit cursor ≤ MAX_APPLICATIONS).
Context (policy : LaunchPolicy).

(** With the catalog in the session, or just read. *)
Lemma list_cached l cursor t :
  descriptors_ok l → cached t.1 = Some l → 0 < cursor ≤ len l →
  SessionCatalog_list env {| ApplicationListRequest_cursor := cursor;
                             ApplicationListRequest_limit := limit cursor |} policy t
  = (page l cursor (limit cursor), t).
Proof.
  intros Hl Ht Hcur. unfold SessionCatalog_list. cbn.
  rewrite (proj2 (Z.eqb_neq cursor 0)) by lia. unfold bind, ret, gets, lift. cbn. by rewrite Ht.
Qed.

Lemma browse_cached fuel l cursor t :
  descriptors_ok l → cached t.1 = Some l → 0 < cursor ≤ len l → len l - cursor < Z.of_nat fuel →
  ∃ pages, browse fuel limit policy cursor t = (Ok pages, t) ∧ Forall ApplicationPage_wf pages ∧
    listed pages = drop (Z.to_nat cursor) l.
Proof.
  revert cursor. induction fuel as [|fuel IH]; intros cursor Hl Ht Hcur Hfuel; [lia|].
  destruct (page_exact l cursor (limit cursor)) as (p & Hp & Hwf & Hdrop & Hnext); [done|lia|done|].
  cbn [browse]. unfold bind at 1. rewrite (list_cached l), Hp by done. rewrite Hnext.
  destruct (Hlimit cursor) as [Hpos _].
  destruct (Z.ltb_spec (Z.min (cursor + limit cursor) (len l)) (len l)) as [Hlt|Hge].
  - destruct (IH (Z.min (cursor + limit cursor) (len l))) as (pages & Hrun & Hpages & Hlisted);
      [done|done|lia|lia|].
    exists (p :: pages). unfold bind. rewrite Hrun. split; [done|]. split; [by constructor|].
    unfold listed in *. cbn. by rewrite Hlisted, <- Hdrop.
  - exists [p]. split; [done|]. split; [by constructor|]. unfold listed. cbn.
    rewrite Hdrop. f_equal. rewrite drop_ge; [done|]. unfold len in *. lia.
Qed.

Lemma browse_catalog fuel t entries s1 :
  discover env policy t.2 = (Ok entries, s1) → catalog_ok entries →
  MAX_INSTALLED_APPLICATIONS < Z.of_nat fuel →
  ∃ pages, browse fuel limit policy 0 t
           = (Ok pages, ({| cached := Some (CatalogEntry_descriptor <$> entries) |}, s1)) ∧
    Forall ApplicationPage_wf pages ∧ listed pages = CatalogEntry_descriptor <$> entries.
Proof.
  intros Hrun0 Hok%catalog_descriptors Hfuel. set (l := CatalogEntry_descriptor <$> entries) in *.
  destruct fuel as [|fuel]; [unfold MAX_INSTALLED_APPLICATIONS in *; lia|].
  pose proof (len_nonneg l) as Hlen. destruct (Hlimit 0) as [Hpos _].
  destruct (page_exact l 0 (limit 0)) as (p & Hp & Hwf & Hdrop & Hnext); [done|lia|apply Hlimit|].
  assert (SessionCatalog_list env {| ApplicationListRequest_cursor := 0;
            ApplicationListRequest_limit := limit 0 |} policy t
          = (Ok p, ({| cached := Some l |}, s1))) as Hlist.
  { unfold SessionCatalog_list. cbn. unfold bind, zoom, host_of, modify, gets, lift.
    rewrite Hrun0. cbn. fold l. by rewrite Hp. }
  cbn [browse]. unfold bind at 1. rewrite Hlist, Hnext. rewrite Z.add_0_l in *. rewrite drop_0 in Hdrop.
  destruct (Z.ltb_spec (Z.min (limit 0) (len l)) (len l)) as [Hlt|Hge].
  - destruct (browse_cached fuel l (Z.min (limit 0) (len l)) ({| cached := Some l |}, s1))
      as (pages & Hrun & Hpages & Hlisted); [done|done|lia| |].
    { assert (len l ≤ MAX_INSTALLED_APPLICATIONS) by apply Hok. lia. }
    exists (p :: pages). unfold bind. rewrite Hrun. split; [done|]. split; [by constructor|].
    unfold listed in *. cbn. by rewrite Hlisted, <- Hdrop.
  - exists [p]. split; [done|]. split; [by constructor|].
    unfold listed. cbn. etrans; [|symmetry; exact Hdrop]. f_equal. rewrite drop_ge; [done|]. unfold len in *. lia.
Qed.

Lemma browse_error fuel t e s1 :
  discover env policy t.2 = (Err e, s1) → (0 < fuel)%nat →
  browse fuel limit policy 0 t = (Err e, (t.1, s1)).
Proof.
  intros Hrun Hfuel. destruct fuel as [|fuel]; [lia|]. cbn [browse]. unfold bind at 1.
  unfold SessionCatalog_list. cbn. unfold bind, zoom, host_of. by rewrite Hrun.
Qed.
End paging.

(** Listing applications page by page.  A client that starts at cursor 0 and follows
    the cursors it is given, with limits of its choice, gets exactly the catalog that
    discovery finds at its first request: every page is valid, and together, in order,
    they list every application once.  At most 4097 requests do; if the discovery fails
    the client is told so. *)
Theorem pages_cover_catalog limit policy fuel t :
  (∀ cursor, 0 < limit cursor ≤ MAX_APPLICATIONS) → MAX_INSTALLED_APPLICATIONS < Z.of_nat fuel →
  match discover env policy t.2 with
  | (Ok entries, _) =>
      ∃ pages t', browse fuel limit policy 0 t = (Ok pages, t') ∧ Forall ApplicationPage_wf pages ∧
        listed pages = CatalogEntry_descriptor <$> entries ∧ canonical (descriptor_id <$> listed pages)
  | (Err e, _) => ∃ t', browse fuel limit policy 0 t = (Err e, t')
  end.
Proof.
  intros Hlimit Hfuel. pose proof (discover_post policy t.2) as Hwp. unfold wp in Hwp.
  destruct (discover env policy t.2) as [[entries|e] s] eqn:Hrun.
  - destruct Hwp as (Hok & _).
    destruct (browse_catalog limit Hlimit policy fuel t entries s) as (pages & Hb & Hwf & Hl); [done..|].
    eexists pages, _. split; [exact Hb|]. split; [done|]. split; [done|]. rewrite Hl.
    by apply catalog_descriptors.
  - eexists. apply browse_error; [exact Hrun|]. unfold MAX_INSTALLED_APPLICATIONS in *. lia.
Qed.
End discovery.

(** ** What discovery leaves as it is *)

(** A part of the world that reading files does not change. *)
Class FilesPreserve {W T} `{Files W} (part : W → T) : Prop := {
  #[global] symlink_metadata_preserves path :: Preserves part (symlink_metadata path);
  #[global] metadata_preserves path :: Preserves part (metadata path);
  #[global] read_dir_preserves path :: Preserves part (read_dir path);
  #[global] open_file_preserves path :: Preserves part (open_file path);
  #[global] file_metadata_preserves file :: Preserves part (file_metadata file);
  #[global] read_to_end_preserves file n :: Preserves part (read_to_end file n)
}.

Section preserves.
Context {W T : Type} `{Files W} (part : W → T) `{!FilesPreserve part}.
Context (env : string → option str).

#[export] Instance ok_preserves {A} (m : M W IoError A) : Preserves part m → Preserves part (ok m).
Proof. intros Hm. unfold ok. apply _. Qed.
#[export] Instance some_preserves {A} (o : option A) : Preserves part (some o).
Proof. unfold some. apply _. Qed.

#[export] Instance leads_to_file_preserves path m : Preserves part (leads_to_file path m).
Proof. unfold leads_to_file. solve_preserves. Qed.
#[export] Instance visit_preserves directory relative depth name w :
  Preserves part (visit directory relative depth name w).
Proof. unfold visit. solve_preserves. Qed.
#[export] Instance visit_all_preserves directory relative depth names w :
  Preserves part (visit_all directory relative depth names w).
Proof. revert w. induction names; intros w; cbn [visit_all]; solve_preserves. Qed.
#[export] Instance walk_preserves fuel w : Preserves part (walk fuel w).
Proof. revert w. induction fuel; intros w; cbn [walk]; solve_preserves. Qed.
#[export] Instance desktop_paths_preserves root : Preserves part (desktop_paths root).
Proof. unfold desktop_paths. solve_preserves. Qed.
#[export] Instance executable_file_preserves path : Preserves part (executable_file path).
Proof. unfold executable_file. solve_preserves. Qed.
#[export] Instance find_executable_preserves paths : Preserves part (find_executable paths).
Proof. induction paths; cbn [find_executable]; solve_preserves. Qed.
#[export] Instance resolve_program_preserves value : Preserves part (resolve_program env value).
Proof. unfold resolve_program. solve_preserves. Qed.
#[export] Instance read_source_preserves path : Preserves part (read_source path).
Proof. unfold read_source. solve_preserves. Qed.
#[export] Instance read_entry_preserves path id user desktops :
  Preserves part (read_entry env path id user desktops).
Proof. unfold read_entry, parse_exec, directory_exists. solve_preserves. Qed.
#[export] Instance discover_path_preserves user desktops path relative d :
  Preserves part (discover_path env user desktops path relative d).
Proof. unfold discover_path. solve_preserves. Qed.
#[export] Instance discover_paths_preserves user desktops paths d :
  Preserves part (discover_paths env user desktops paths d).
Proof. revert d. induction paths; intros d; cbn [discover_paths]; solve_preserves. Qed.
#[export] Instance discover_roots_preserves desktops roots d :
  Preserves part (discover_roots env desktops roots d).
Proof. revert d. induction roots; intros d; cbn [discover_roots]; solve_preserves. Qed.
#[export] Instance discover_preserves policy : Preserves part (discover env policy).
Proof. unfold discover, discover_all. solve_preserves. Qed.
End preserves.

(** ** A concrete file system *)

Module CatalogToy.
Definition directory : str := bstr "/usr/share/applications".
Definition file_of (path : str) : option bytes :=
  if bool_decide (path = directory ++ bstr "/b.desktop") then Some (bstr "[Desktop Entry]
Type=Application
Name=Bee
Exec=/bin/true %U
")
  else if bool_decide (path = directory ++ bstr "/a.desktop") then Some (bstr "# first
[Desktop Entry]
Type=Application
Name=Ant
Exec=true --verbose
")
  else if bool_decide (path = bstr "/bin/true") then Some []
  else None.

Definition data (type : FileType) (size : Z) : Metadata :=
  {| Metadata_file_type := type; Metadata_dev := 1; Metadata_ino := 1; Metadata_uid := 0;
     Metadata_mode := 493; Metadata_len := size |}.
Definition inspect (path : str) : M unit IoError Metadata :=
  if bool_decide (path = directory) then ret (data FileType_Dir 0)
  else match file_of path with
       | Some bytes => ret (data FileType_File (len bytes))
       | None => fail {| IoError_kind := IoError_NotFound; IoError_text := "" |}
       end.

(** A file handle is the position of its path here. *)
Definition paths : list str := [directory ++ bstr "/b.desktop"; directory ++ bstr "/a.desktop"].
Definition contents (file : File) : bytes :=
  default [] (paths !! Z.to_nat file ≫= file_of).

#[global] Instance toy_files : Files unit := {
  symlink_metadata := inspect;
  metadata := inspect;
  read_dir path := ret [bstr "b.desktop"; bstr "notes.txt"; bstr "a.desktop"];
  open_file path := ret (if bool_decide (path = directory ++ bstr "/b.desktop") then 0 else 1);
  file_metadata file := ret (data FileType_File (len (contents file)));
  read_to_end file n := ret (contents file)
}.

Definition env (name : string) : option str :=
  if (name =? "HOME")%string then Some (bstr "/home/me")
  else if (name =? "PATH")%string then Some (bstr "/usr/bin:/bin")
  else None.
Definition policy : LaunchPolicy :=
  {| LaunchPolicy_mode := LaunchMode_AllowInstalled; LaunchPolicy_allow := BoundedList_default;
     LaunchPolicy_deny := BoundedList_default; LaunchPolicy_allow_user_entries := false |}.

Definition found : list CatalogEntry :=
  match discover env policy tt with (Ok entries, _) => entries | _ => [] end.
Lemma found_run : discover env policy tt = (Ok found, tt).
Proof. vm_compute. reflexivity. Qed.
Lemma found_ids : ids found = [bstr "a.desktop"; bstr "b.desktop"].
Proof. vm_compute. reflexivity. Qed.
End CatalogToy.

Lemma pages_cover_catalog_witness :
  ∃ pages t', browse CatalogToy.env 4097 (λ _, 1) CatalogToy.policy 0 (SessionCatalog_new, tt)
              = (Ok pages, t') ∧
    descriptor_id <$> listed pages = [bstr "a.desktop"; bstr "b.desktop"].
Proof.
  pose proof (pages_cover_catalog CatalogToy.env (λ _, 1) CatalogToy.policy 4097 (SessionCatalog_new, tt)
    ltac:(intros; unfold MAX_APPLICATIONS; lia) ltac:(unfold MAX_INSTALLED_APPLICATIONS; lia)) as Hp.
  cbn [snd] in Hp. rewrite CatalogToy.found_run in Hp.
  destruct Hp as (pages & t' & Hrun & _ & Hl & _). exists pages, t'. split; [exact Hrun|].
  rewrite Hl, <- list_fmap_compose. exact CatalogToy.found_ids.
Defined.
