(* ===== verification/Settings.v ===== *)
(** * [agent-seat-settings/src/lib.rs]: the settings model

    A loaded policy and the draft made of it; the draft is saved through the provider's
    replacement, and the previous policy is put back the same way. *)

From S2P Require Import Prelude Text Bounded Message Effects Host Config Policy PolicyStore Runtime Active Catalog.

Record SettingsModel (D : Type) := mkSettingsModel {
  SettingsModel_snapshot : PolicySnapshot D;
  SettingsModel_original : PolicyDraft D;
  SettingsModel_draft : PolicyDraft D
}.
Arguments mkSettingsModel {D} _ _ _.
Arguments SettingsModel_snapshot {D} _.
Arguments SettingsModel_original {D} _.
Arguments SettingsModel_draft {D} _.

(** ** The review *)

(** [left.iter().zip(right).take_while(|(left, right)| left == right).count()] *)
Fixpoint common (ls rs : list str) : nat :=
  match ls, rs with
  | l :: ls, r :: rs => if bool_decide (l = r) then S (common ls rs) else O
  | _, _ => O
  end.

Definition slice {A} (from to : nat) (l : list A) : list A := take (to - from) (drop from l).

Definition marked_lines (mark : Z) (ls : list str) : str := concat ((λ line, mark :: line ++ [10]) <$> ls).

Definition DIFF_HEADER : str := bstr "--- saved policy" ++ [10] ++ bstr "+++ draft policy" ++ [10].

(** The marks are a space, [-] and [+]. *)
Definition unified_diff (before after : str) : str :=
  let before := lines before in
  let after := lines after in
  let prefix := common before after in
  let possible_suffix := (Nat.min (length before) (length after) - prefix)%nat in
  let suffix := Nat.min possible_suffix (common (reverse before) (reverse after)) in
  let before_changed_end := (length before - suffix)%nat in
  let after_changed_end := (length after - suffix)%nat in
  let context_start := (prefix - 2)%nat in
  let context_end_before := Nat.min (before_changed_end + 2) (length before) in
  DIFF_HEADER ++ marked_lines 32 (slice context_start prefix before)
  ++ marked_lines 45 (slice prefix before_changed_end before)
  ++ marked_lines 43 (slice prefix after_changed_end after)
  ++ marked_lines 32 (slice before_changed_end context_end_before before).

(** ** The model *)

Section settings.
Context {W D : Type} `{Files W, PolicyFiles W, RuntimeSystem W, MarkerFiles W}.
(** [toml::from_str], [str::parse::<DocumentMut>()] and [DocumentMut::to_string] *)
Context (from_toml : str → result RawConfig string) (parse_document : str → result D string)
  (print_document : D → str).
Context (euid pid : Z) (env : string → option str).

(** [PolicyDraft::render] *)
Definition PolicyDraft_render (self : PolicyDraft D) : result str string :=
  let source := print_document (PolicyDraft_document self) in
  let? _ := validate_source from_toml source euid in
  Ok source.

(** [impl PartialEq for PolicyDraft] *)
Definition PolicyDraft_eq (self other : PolicyDraft D) : bool :=
  bool_decide (PolicyDraft_raw self = PolicyDraft_raw other).

Definition from_snapshot (snapshot : PolicySnapshot D) : SettingsModel D :=
  let draft := PolicySnapshot_draft snapshot in mkSettingsModel snapshot draft draft.

Definition SettingsModel_open (path : str) : M W string (SettingsModel D) :=
  let! snapshot := read_policy from_toml parse_document euid path in ret (from_snapshot snapshot).

Definition SettingsModel_open_default : M W string (SettingsModel D * bool) :=
  let! '(path, created) := ensure_default_policy euid env in
  let! model := SettingsModel_open path in
  ret (model, created).

Definition SettingsModel_path (self : SettingsModel D) : str := PolicySnapshot_path (SettingsModel_snapshot self).
Definition saved_source (self : SettingsModel D) : str := PolicySnapshot_source (SettingsModel_snapshot self).
Definition saved_enabled (self : SettingsModel D) : bool :=
  RawConfig_enabled (PolicyDraft_raw (SettingsModel_original self)).
Definition recovery_path (self : SettingsModel D) : str := recovery_policy_path (SettingsModel_path self).

Definition with_draft (draft : PolicyDraft D) (self : SettingsModel D) : SettingsModel D :=
  mkSettingsModel (SettingsModel_snapshot self) (SettingsModel_original self) draft.

(** The operation is applied to a clone. *)
Definition edit (operation : M (PolicyDraft D) string unit) : M (SettingsModel D) string unit := λ self,
  match operation (SettingsModel_draft self) with
  | (Ok _, candidate) => (Ok tt, with_draft candidate self)
  | (Err error, _) => (Err error, self)
  end.

Definition discard_draft (self : SettingsModel D) : SettingsModel D :=
  with_draft (SettingsModel_original self) self.

Definition has_changes (self : SettingsModel D) : bool :=
  negb (PolicyDraft_eq (SettingsModel_draft self) (SettingsModel_original self)).

Definition candidate_source (self : SettingsModel D) : result str string :=
  if has_changes self then PolicyDraft_render (SettingsModel_draft self) else Ok (saved_source self).

Definition SettingsModel_unified_diff (self : SettingsModel D) : result str string :=
  if negb (has_changes self) then Ok (bstr "No policy changes." ++ [10])
  else
    let? after := candidate_source self in
    Ok (unified_diff (saved_source self) after).

(** What follows changes the model and the files. *)
Notation Model := (SettingsModel D * W)%type.

Definition on_files {A} (m : M W string A) : M Model string A := zoom snd (λ w t, (fst t, w)) m.
Definition model : M Model string (SettingsModel D) := gets fst.
Definition set_model (self : SettingsModel D) : M Model string unit := modify (λ t, (self, snd t)).

Definition save : M Model string unit :=
  let! self := model in
  if negb (has_changes self) then fail "there are no policy changes to save"%string
  else
    let! candidate := lift (candidate_source self) in
    let! snapshot := on_files (replace_policy from_toml parse_document euid pid
                                 (SettingsModel_snapshot self) candidate) in
    set_model (from_snapshot snapshot).

Definition reload : M Model string unit :=
  let! self := model in
  let! self := on_files (SettingsModel_open (SettingsModel_path self)) in
  set_model self.

Definition restore_previous : M Model string unit :=
  let! self := model in
  let! recovery := on_files (read_policy from_toml parse_document euid (recovery_path self)) in
  let! snapshot := on_files (replace_policy from_toml parse_document euid pid
                               (SettingsModel_snapshot self) (PolicySnapshot_source recovery)) in
  set_model (from_snapshot snapshot).

Definition SettingsModel_active_policy_status (self : SettingsModel D) : M W string ActivePolicyStatus :=
  active_policy_status euid env (SettingsModel_snapshot self).

Definition application_catalog : M W string (list ApplicationDescriptor) := installed_applications env.
End settings.
