(* ===== verification/SettingsTheorems.v ===== *)
(** * Properties of the settings model

    The review shows one region, as small as can be, and its surroundings.  What was saved is
    in force, and what it replaced can be put back. *)

From S2P Require Import Prelude Text Effects Host Config Policy PolicyStore PolicyDisk PolicyStoreTheorems PolicyTheorems Settings.

(** ** The review *)

Lemma common_take n ls rs : (n ≤ common ls rs)%nat → take n ls = take n rs.
Proof.
  revert n rs. induction ls as [|l ls IH]; intros [|n] [|r rs]; cbn [common]; intros Hn; try done; try lia.
  case_bool_decide as Heq; [|lia]. cbn [take]. rewrite Heq. f_equal. apply IH. lia.
Qed.
Lemma common_stops ls rs x : ls !! common ls rs = Some x → rs !! common ls rs ≠ Some x.
Proof.
  revert rs. induction ls as [|l ls IH]; intros [|r rs]; cbn [common]; [done..|].
  case_bool_decide as Heq; [apply IH|]. cbn. congruence.
Qed.
Lemma common_length ls rs : (common ls rs ≤ length ls)%nat ∧ (common ls rs ≤ length rs)%nat.
Proof.
  revert rs. induction ls as [|l ls IH]; intros [|r rs]; cbn [common length]; try lia.
  specialize (IH rs). case_bool_decide; lia.
Qed.

Lemma slice_at {A} (p m s whole : list A) from to :
  whole = p ++ m ++ s → from = length p → to = (length p + length m)%nat → slice from to whole = m.
Proof.
  intros -> -> ->. unfold slice. rewrite drop_app_length, Nat.add_comm, Nat.add_sub. apply take_app_length.
Qed.

(** The last [n] of a list, and those before; the first [n], and those after. *)
Lemma split_last {A} n (l : list A) : ∃ a b, l = a ++ b ∧ length b = Nat.min n (length l) ∧ length a = (length l - n)%nat.
Proof.
  exists (take (length l - n) l), (drop (length l - n) l). rewrite take_drop, length_take, length_drop. split_and!; [done|lia..].
Qed.
Lemma split_first {A} n (l : list A) : ∃ a b, l = a ++ b ∧ length a = Nat.min n (length l).
Proof. exists (take n l), (drop n l). by rewrite take_drop, length_take. Qed.


(** What two lists share at the front, and then at the end. *)
Lemma shared_ends before after :
  let prefix := common before after in
  let suffix := Nat.min (Nat.min (length before) (length after) - prefix) (common (reverse before) (reverse after)) in
  ∃ p l r t, before = p ++ l ++ t ∧ after = p ++ r ++ t ∧ length p = prefix ∧ length t = suffix ∧
    (∀ x, head l = Some x → head r ≠ Some x) ∧ (∀ x, last l = Some x → last r ≠ Some x).
Proof.
  intros prefix suffix. pose proof (common_length before after) as [Hpb Hpa]. fold prefix in Hpb, Hpa.
  set (p := reverse (take prefix before)). set (l := reverse (drop prefix before)). set (r := reverse (drop prefix after)).
  assert (reverse before = l ++ p) as Hb by (unfold l, p; by rewrite <- reverse_app, take_drop).
  assert (reverse after = r ++ p) as Ha.
  { unfold r, p. by rewrite (common_take prefix before after), <- reverse_app, take_drop. }
  assert (length l = (length before - prefix)%nat) as Hl by (unfold l; by rewrite length_reverse, length_drop).
  assert (length r = (length after - prefix)%nat) as Hr by (unfold r; by rewrite length_reverse, length_drop).
  assert (take suffix l = take suffix r) as Htake.
  { rewrite <- (take_app_le l p), <- (take_app_le r p), <- Hb, <- Ha by (unfold suffix; lia).
    apply common_take. unfold suffix. lia. }
  exists (take prefix before), (reverse (drop suffix l)), (reverse (drop suffix r)), (reverse (take suffix l)).
  rewrite <- reverse_app, take_drop, Htake, <- reverse_app, take_drop. unfold l at 1, r at 1. rewrite !reverse_involutive.
  rewrite !last_reverse, length_reverse, !length_take. split_and!.
  - by rewrite take_drop.
  - by rewrite (common_take prefix before after), take_drop.
  - lia.
  - unfold suffix. lia.
  - intros x Hx Hx'.
    assert (∀ k, head (reverse (drop suffix k)) = Some x → head (reverse k) = Some x) as Hhead.
    { intros k Hk. rewrite <- (take_drop suffix k), reverse_app. by destruct (reverse (drop suffix k)). }
    apply Hhead in Hx, Hx'. unfold l in Hx. unfold r in Hx'. rewrite reverse_involutive, head_lookup, lookup_drop in Hx, Hx'.
    rewrite Nat.add_0_r in Hx, Hx'. by apply (common_stops before after x).
  - intros x Hx Hx'. rewrite head_lookup, lookup_drop, Nat.add_0_r in Hx, Hx'.
    apply lookup_lt_Some in Hx as Hlt. apply lookup_lt_Some in Hx' as Hlt'.
    assert (suffix = common (reverse before) (reverse after)) as Hs by (unfold suffix in *; lia).
    apply (common_stops (reverse before) (reverse after) x); rewrite <- Hs.
    + rewrite Hb. by apply lookup_app_l_Some.
    + rewrite Ha. by apply lookup_app_l_Some.
Qed.

(** A text changed in one place, with the surroundings that are shown. *)
Record Change := {
  Change_before : list str;
  Change_above : list str;
  Change_removed : list str;
  Change_added : list str;
  Change_below : list str;
  Change_after : list str
}.

Definition old_lines (c : Change) : list str :=
  Change_before c ++ Change_above c ++ Change_removed c ++ Change_below c ++ Change_after c.
Definition new_lines (c : Change) : list str :=
  Change_before c ++ Change_above c ++ Change_added c ++ Change_below c ++ Change_after c.
Definition shown (c : Change) : str :=
  DIFF_HEADER ++ marked_lines 32 (Change_above c) ++ marked_lines 45 (Change_removed c)
  ++ marked_lines 43 (Change_added c) ++ marked_lines 32 (Change_below c).

(** Two lines are shown on each side, where there are; and what is removed and what is
    added have neither their first line nor their last in common. *)
Record tight (c : Change) : Prop := {
  tight_above : (length (Change_above c) ≤ 2)%nat ∧ (Change_before c ≠ [] → length (Change_above c) = 2%nat);
  tight_below : (length (Change_below c) ≤ 2)%nat ∧ (Change_after c ≠ [] → length (Change_below c) = 2%nat);
  tight_first : ∀ line, head (Change_removed c) = Some line → head (Change_added c) ≠ Some line;
  tight_last : ∀ line, last (Change_removed c) = Some line → last (Change_added c) ≠ Some line
}.

(** The review shows the change.  There is one change that turns the lines of the saved
    policy into those of the draft, and the review is its text: up to two lines of context,
    every line that is removed, every line that is added, and up to two lines of context;
    the region is as small as one region can be. *)
Theorem unified_diff_exact before after :
  ∃ c, lines before = old_lines c ∧ lines after = new_lines c ∧ unified_diff before after = shown c ∧ tight c.
Proof.
  unfold unified_diff. generalize (lines before) (lines after). clear before after. intros before after. cbv zeta.
  destruct (shared_ends before after) as (p & l & r & t & Hb & Ha & Hp & Ht & Hhead & Hlast). cbv zeta in *.
  rewrite <- Ht, <- Hp. clear Ht Hp. subst before after.
  destruct (split_last 2 p) as (pb & pa & -> & Hpa & Hpb). destruct (split_first 2 t) as (ta & tb & -> & Hta).
  exists {| Change_before := pb; Change_above := pa; Change_removed := l; Change_added := r;
            Change_below := ta; Change_after := tb |}.
  unfold old_lines, new_lines, shown. cbn [Change_before Change_above Change_removed Change_added Change_below Change_after].
  split; [by rewrite <- !(assoc_L (++))|]. split; [by rewrite <- !(assoc_L (++))|]. split.
  - f_equal. f_equal; [|f_equal; [|f_equal]]; f_equal;
      [apply (slice_at pb pa (l ++ ta ++ tb))|apply (slice_at (pb ++ pa) l (ta ++ tb))|
       apply (slice_at (pb ++ pa) r (ta ++ tb))|apply (slice_at (pb ++ pa ++ l) ta tb)];
      first [by rewrite <- !(assoc_L (++))|rewrite !length_app in *; lia].
  - rewrite !length_app in Hpa, Hpb, Hta. split; cbn [Change_before Change_above Change_removed Change_added
      Change_below Change_after]; [| |done..].
    + split; [lia|]. intros Hne. destruct pb; [done|]. cbn [length] in *. lia.
    + split; [lia|]. intros Hne. destruct tb; [done|]. cbn [length] in *. lia.
Qed.

Example diff_runs :
  unified_diff (bstr "one" ++ [10] ++ bstr "two" ++ [10] ++ bstr "three" ++ [10] ++ bstr "four" ++ [10])
    (bstr "one" ++ [10] ++ bstr "two" ++ [10] ++ bstr "changed" ++ [10] ++ bstr "four" ++ [10]) =
  DIFF_HEADER ++ bstr " one" ++ [10] ++ bstr " two" ++ [10] ++ bstr "-three" ++ [10] ++ bstr "+changed" ++ [10]
  ++ bstr " four" ++ [10].
Proof. vm_compute. done. Qed.

(** Line ends are not part of what is compared. *)
Example line_ends_unseen : unified_diff (bstr "a" ++ [13; 10]) (bstr "a") = DIFF_HEADER ++ bstr " a" ++ [10].
Proof. vm_compute. done. Qed.

(** ** The policy file *)

Section settings.
Context {W : Type} `{DiskLaws W}.
Context {D : Type} (from_toml : str → result RawConfig string) (parse_document : str → result D string)
  (print_document : D → str).
Context (euid pid : Z).

Notation SettingsModel := (SettingsModel D).
Notation read_policy := (read_policy from_toml parse_document euid).
Notation replace_policy := (replace_policy from_toml parse_document euid pid).

(** A snapshot of a valid policy, with the draft that is made of its text. *)
Definition snapshot_loaded (s : PolicySnapshot D) : Prop :=
  ∃ enabled config raw document,
    validate_source from_toml (PolicySnapshot_source s) euid = Ok (enabled, config, raw) ∧
    parse_document (PolicySnapshot_source s) = Ok document ∧
    PolicySnapshot_enabled s = enabled ∧ PolicySnapshot_draft s = mkPolicyDraft raw document.

Definition loaded (self : SettingsModel) : Prop :=
  snapshot_loaded (SettingsModel_snapshot self) ∧
  SettingsModel_original self = PolicySnapshot_draft (SettingsModel_snapshot self).

(** A text makes one draft. *)
Lemma loaded_draft (m m' : SettingsModel) :
  loaded m → loaded m' → saved_source m = saved_source m' → SettingsModel_original m = SettingsModel_original m'.
Proof.
  intros [(? & ? & ? & ? & Hv & Hp & _ & Hd) ->] [(? & ? & ? & ? & Hv' & Hp' & _ & Hd') ->].
  unfold saved_source. intros Heq. rewrite Heq in Hv, Hp. rewrite Hd, Hd'. congruence.
Qed.

(** Every value that [m] returns satisfies [Q]. *)
Definition yields {E A} (m : M W E A) (Q : A → Prop) : Prop := ∀ w, wp m (λ a _, Q a) (λ _ _, True) w.

Lemma yields_bind {E A B} (m : M W E A) (k : A → M W E B) P Q :
  yields m P → (∀ a, P a → yields (k a) Q) → yields (bind m k) Q.
Proof. intros Hm Hk w. apply wp_bind. eapply wp_mono; [apply Hm|intros a w' Ha; by apply Hk|done]. Qed.
Lemma yields_after {E A B} (m : M W E A) (k : A → M W E B) Q : (∀ a, yields (k a) Q) → yields (bind m k) Q.
Proof. intros Hk. apply (yields_bind m k (λ _, True)); [intros w; apply wp_true|auto]. Qed.
Lemma yields_lift {E A} (r : result A E) (Q : A → Prop) : (∀ a, r = Ok a → Q a) → yields (lift r) Q.
Proof. intros HQ w. by apply wp_lift. Qed.
Lemma yields_attempt {E F A} (m : M W E A) (Q : A → Prop) :
  yields m Q → yields (E:=F) (attempt m) (λ r, ∀ a, r = Ok a → Q a).
Proof. intros Hm w. apply wp_attempt. eapply wp_mono; [apply Hm|naive_solver..]. Qed.
Lemma yields_map_error {E F A} (f : E → F) (m : M W E A) Q : yields m Q → yields (map_error f m) Q.
Proof. intros Hm w. apply wp_map_error, Hm. Qed.
Lemma yields_fail {E A} (e : E) (Q : A → Prop) : yields (fail e) Q.
Proof. done. Qed.
Lemma yields_ret {E A} (a : A) (Q : A → Prop) : Q a → yields (E:=E) (ret a) Q.
Proof. by intros HQ w. Qed.

Definition is_policy_at (path : str) (s : PolicySnapshot D) : Prop :=
  snapshot_loaded s ∧ PolicySnapshot_path s = path.

Lemma read_policy_loaded path : yields (read_policy path) (is_policy_at path).
Proof.
  apply (yields_bind _ _ (λ r, is_policy_at path (fst r))); [|intros [s c] Hs; by apply yields_ret].
  unfold Config_read.
  do 2 (case_match; [apply yields_fail|]; apply yields_after; intros ?). apply yields_after. intros ?.
  do 3 (case_match; [apply yields_fail|]). apply yields_after. intros ?. do 2 (case_match; [apply yields_fail|]).
  eapply yields_bind; [apply yields_lift; intros v Hv; exact Hv|]. intros [[enabled config] raw] Hvalid.
  destruct (validate_source from_toml _ euid) as [[[? ?] ?]|] eqn:Hsource; [|done]. injection Hvalid as -> -> ->.
  eapply yields_bind; [apply yields_lift; intros v Hv; exact Hv|]. intros document Hdocument.
  destruct (parse_document _) as [?|] eqn:Hparse; [|done]. injection Hdocument as ->.
  apply yields_ret. split; [|done]. by repeat eexists.
Qed.

Lemma replace_policy_loaded expected candidate :
  yields (replace_policy expected candidate) (is_policy_at (PolicySnapshot_path expected)).
Proof.
  do 2 (apply yields_after; intros ?). unfold with_lock.
  apply (yields_bind _ _ (λ r, ∀ s, r = Ok s → is_policy_at (PolicySnapshot_path expected) s));
    [apply yields_attempt|intros r Hr; apply yields_after; intros _; by apply yields_lift].
  eapply yields_bind; [apply read_policy_loaded|]. intros current Hcurrent.
  destruct (negb _); [apply yields_fail|]. case_bool_decide; [by apply yields_ret|].
  do 2 (apply yields_after; intros ?). unfold with_temporary.
  apply (yields_bind _ _ (λ r, ∀ s, r = Ok s → is_policy_at (PolicySnapshot_path expected) s));
    [apply yields_attempt|].
  - unfold install_staged. do 6 (apply yields_after; intros ?). apply yields_map_error, read_policy_loaded.
  - intros [s|[error preserved]] Hs; cbn beta iota; apply yields_after; intros []; [by apply yields_ret, Hs|apply yields_fail].
Qed.

(** The file of [s] holds [candidate], and what it held has the recovery name. *)
Definition in_force (path : str) (i0 : Z) (old candidate : str) (c : Contents) : Prop :=
  (∃ j, holds path j candidate c) ∧ (candidate ≠ old → holds (recovery_policy_path path) i0 old c).

(** At every moment the policy file is complete, the old one or the candidate. *)
Definition never_torn (path : str) (i0 : Z) (old candidate : str) (w : W) : Prop :=
  policy_safe from_toml euid pid path i0 old candidate (view w) ∧
  Forall (policy_safe from_toml euid pid path i0 old candidate) (trail w).

Lemma replace_policy_in_force expected i0 old candidate w :
  (∃ policy, validate_source from_toml candidate euid = Ok policy) →
  holds (PolicySnapshot_path expected) i0 old (view w) → never_torn (PolicySnapshot_path expected) i0 old candidate w →
  wp (replace_policy expected candidate)
    (λ s w1, is_policy_at (PolicySnapshot_path expected) s ∧ PolicySnapshot_source s = candidate ∧
             in_force (PolicySnapshot_path expected) i0 old candidate (view w1) ∧
             never_torn (PolicySnapshot_path expected) i0 old candidate w1)
    (λ _ w1, never_torn (PolicySnapshot_path expected) i0 old candidate w1) w.
Proof.
  intros [policy Hvalid] Hold Hsafe. eapply wp_mono.
  - apply wp_both; [apply replace_policy_loaded|].
    by apply (replace_policy_acts from_toml parse_document euid pid i0 old expected candidate policy Hvalid).
  - intros s w1 [Hs ((_ & Hsource & Hreplaced) & Hnow & Htrail)]. split; [done|]. split; [done|]. split; [|by split].
    destruct Hreplaced as [[-> Hholds]|[(_ & j & _ & Hnew) Hkept]]; split; try done; by eexists.
  - intros e w1 [_ (_ & Hnow & Htrail)]. by split.
Qed.

Lemma from_snapshot_loaded path s :
  is_policy_at path s →
  loaded (from_snapshot s) ∧ SettingsModel_path (from_snapshot s) = path ∧ has_changes (from_snapshot s) = false.
Proof.
  intros [Hs Hpath]. split; [by split|]. split; [done|]. unfold has_changes, PolicyDraft_eq. cbn.
  by rewrite bool_decide_eq_true_2.
Qed.

(** The outcome of putting [candidate] in force for the model [m]. *)
Definition put_in_force (m : SettingsModel) (i0 : Z) (candidate : str) (t : SettingsModel * W) : Prop :=
  saved_source (fst t) = candidate ∧ loaded (fst t) ∧ SettingsModel_path (fst t) = SettingsModel_path m ∧
  has_changes (fst t) = false ∧ in_force (SettingsModel_path m) i0 (saved_source m) candidate (view (snd t)) ∧
  never_torn (SettingsModel_path m) i0 (saved_source m) candidate (snd t).

(** What a changed draft renders as: its document, printed, a valid policy. *)
Lemma candidate_text (m : SettingsModel) candidate :
  has_changes m = true → candidate_source from_toml print_document euid m = Ok candidate →
  candidate = print_document (PolicyDraft_document (SettingsModel_draft m)) ∧
  ∃ policy, validate_source from_toml candidate euid = Ok policy.
Proof.
  unfold candidate_source, PolicyDraft_render. intros -> Hcandidate.
  destruct (validate_source from_toml _ euid) as [policy|] eqn:Hvalid; [|done]. injection Hcandidate as <-.
  split; [done|by exists policy].
Qed.

(** What a save is to put in force: the document of the draft, printed. *)
Definition draft_text (m : SettingsModel) : str := print_document (PolicyDraft_document (SettingsModel_draft m)).

(** C37: what is saved can be put back.  For a model that was loaded from the policy file, a
    save puts exactly the printed document of the draft in force, loads it, and leaves the
    file it replaced under the recovery name; it does so only for a draft that differs from
    what was loaded and prints as a valid policy, and is refused with nothing touched
    otherwise.  Restoring puts exactly the text of the recovery file in force and keeps
    the one it replaces the same way, so that after a save it gives back the text that was
    loaded first, and with it the same draft.  When either fails the model is as it was, and
    whatever fails, the policy file is at every moment complete: the old text or the new. *)
Theorem save_and_restore_exact (m : SettingsModel) i0 w :
  loaded m → holds (SettingsModel_path m) i0 (saved_source m) (view w) → trail w = [] →
  wp (save from_toml parse_document print_document euid pid)
    (λ _ t, PolicyDraft_raw (SettingsModel_draft m) ≠ PolicyDraft_raw (SettingsModel_original m) ∧
            put_in_force m i0 (draft_text m) t)
    (λ _ t, fst t = m ∧ never_torn (SettingsModel_path m) i0 (saved_source m) (draft_text m) (snd t)) (m, w) ∧
  (PolicyDraft_raw (SettingsModel_draft m) = PolicyDraft_raw (SettingsModel_original m) ∨
     (∀ policy, validate_source from_toml (draft_text m) euid ≠ Ok policy) →
   ∃ e, save from_toml parse_document print_document euid pid (m, w) = (Err e, (m, w))) ∧
  (∀ i1 previous, holds (recovery_path m) i1 previous (view w) →
     wp (restore_previous from_toml parse_document euid pid)
       (λ _ t, put_in_force m i0 previous t)
       (λ _ t, fst t = m ∧ never_torn (SettingsModel_path m) i0 (saved_source m) previous (snd t)) (m, w)) ∧
  (∀ m', loaded m' → saved_source m' = saved_source m → SettingsModel_original m' = SettingsModel_original m).
Proof.
  intros Hm Hold Htrail.
  assert (∀ candidate, never_torn (SettingsModel_path m) i0 (saved_source m) candidate w) as Hnow.
  { intros candidate. split; [by left|]. by rewrite Htrail. }
  split; [|split; [|split]].
  - unfold save. apply wp_bind, wp_gets. cbn [fst]. destruct (has_changes m) eqn:Hchanges; cbn [negb].
    2: { apply wp_fail. split; [done|apply Hnow]. }
    apply wp_bind, wp_lift; [intros candidate Hcandidate|intros e _; split; [done|apply Hnow]].
    destruct (candidate_text m candidate Hchanges Hcandidate) as [-> [policy Hvalid]].
    apply wp_bind, wp_zoom. cbn [snd]. eapply wp_mono; [apply replace_policy_in_force; [by exists policy|exact Hold|apply Hnow]|..].
    + intros s w1 (Hs & Hsource & Hforce & Htorn). apply wp_modify. cbn [fst snd].
      destruct (from_snapshot_loaded _ _ Hs) as (? & ? & ?). split; [|done].
      unfold has_changes, PolicyDraft_eq in Hchanges. intros Heq. by rewrite bool_decide_eq_true_2 in Hchanges.
    + intros e w1 Htorn. by split.
  - intros Hwhy. unfold save, bind, model, gets. cbn [fst]. destruct (has_changes m) eqn:Hchanges; cbn [negb]; [|by eexists].
    destruct (candidate_source from_toml print_document euid m) as [candidate|e] eqn:Hcandidate.
    + destruct (candidate_text m candidate Hchanges Hcandidate) as [-> [policy Hvalid]].
      destruct Hwhy as [Heq|Hnone]; [|by apply Hnone in Hvalid].
      unfold has_changes, PolicyDraft_eq in Hchanges. by rewrite bool_decide_eq_true_2 in Hchanges.
    + by exists e.
  - intros i1 previous Hprevious. unfold restore_previous. apply wp_bind, wp_gets. cbn [fst].
    set (safe := policy_safe from_toml euid pid (SettingsModel_path m) i0 (saved_source m) previous).
    apply wp_bind, wp_zoom. cbn [snd]. eapply wp_mono.
    { apply wp_both; [apply read_policy_loaded|].
      apply (read_policy_acts safe euid from_toml parse_document (recovery_path m)
               (λ c, holds (SettingsModel_path m) i0 (saved_source m) c ∧ holds (recovery_path m) i1 previous c)).
      split; [done|]. apply Hnow. }
    + intros s w1 [[(enabled & config & raw & document & Hvalid & _) _] ([[Hold1 Hprevious1] Hread] & Hnow1)].
      assert (PolicySnapshot_source s = previous) as Hs.
      { destruct Hread as [Hr (n & Hn & <-)], Hprevious1 as [Hr' (n' & Hn' & <-)]. congruence. }
      rewrite Hs in Hvalid |- *. apply wp_bind, wp_zoom. cbn [snd fst].
      eapply wp_mono; [apply replace_policy_in_force; [by eexists|exact Hold1|exact Hnow1]|..].
      * intros s2 w2 (Hs2 & Hsource & Hforce & Htorn). apply wp_modify. cbn [fst snd].
        by destruct (from_snapshot_loaded _ _ Hs2) as (? & ? & ?).
      * intros e w2 Htorn. by split.
    + intros e w1 [_ (_ & Hnow1)]. by split.
  - intros m' Hm' Hsource. by apply loaded_draft.
Qed.
End settings.

(** ** A draft is saved and the first policy put back *)

Module SettingsToy.
Import StoreToy.

Definition enabled : bool := RawConfig_enabled PolicyToy.raw.
Definition snapshot : PolicySnapshot str := mkPolicySnapshot path old enabled 0 1 (mkPolicyDraft PolicyToy.raw old).
(** The switch is turned, in the values and in the text. *)
Definition turn : M (PolicyDraft str) string unit :=
  modify (λ d, mkPolicyDraft (with_enabled (negb enabled) (PolicyDraft_raw d)) candidate).
Definition drafted : SettingsModel str := snd (edit turn (from_snapshot snapshot)).

Notation saving := (save (H := disk_files (λ _, None)) (H0 := disk_policy_files (λ _, None) 1000)
                      from_toml parse_document id 1000 7).
Notation restoring := (restore_previous (H := disk_files (λ _, None)) (H0 := disk_policy_files (λ _, None) 1000)
                         from_toml parse_document 1000 7).

Definition policies (t : SettingsModel str * Disk) : option str * option str :=
  (Node_data ∘ snd <$> find_node (contents (snd t)) path,
   Node_data ∘ snd <$> find_node (contents (snd t)) (recovery_policy_path path)).

Example saved_and_restored :
  policies (snd (saving (drafted, disk))) = (Some candidate, Some old) ∧
  policies (snd ((let! _ := saving in restoring) (drafted, disk))) = (Some old, Some candidate).
Proof. vm_compute. done. Qed.

Lemma save_and_restore_exact_witness :
  (saving (drafted, disk)).1 = Ok tt ∧
  saved_source (fst (saving (drafted, disk)).2) = candidate ∧
  holds (recovery_path drafted) 1 old (contents (snd (saving (drafted, disk)).2)).
Proof.
  pose proof (save_and_restore_exact (H := disk_files (λ _, None)) (H0 := disk_policy_files (λ _, None) 1000)
    (H1 := disk_view) (H2 := disk_laws (λ _, None) 1000) from_toml parse_document id 1000 7 drafted 1 disk) as Hsave.
  destruct Hsave as [Hsave _].
  - split; [|reflexivity]. do 4 eexists. by vm_compute.
  - split; [by vm_compute|]. eexists. split; vm_compute; reflexivity.
  - reflexivity.
  - assert ((saving (drafted, disk)).1 = Ok tt) as Hok by by vm_compute.
    split; [done|]. unfold wp in Hsave. destruct (saving (drafted, disk)) as [[[]|e] t]; [|discriminate Hok].
    destruct Hsave as (_ & Hs & _ & _ & _ & [_ Hkept] & _). split; [done|].
    apply Hkept. discriminate.
Defined.
End SettingsToy.
