(* ===== verification/LaunchTheorems.v ===== *)
(** * Properties of starting applications

    What is asked of the operating system: only programs of permitted catalog entries, as
    the entry writes them, and no more children than the supervisor may keep. *)

From stdpp Require Import sets.
From S2P Require Import Prelude Text Bounded Protocol Message MessageSpec Effects Policy Host DesktopEntry Catalog CatalogTheorems Launch.

(** ** A world that notes what is spawned *)

Section record.
Context {W : Type} `{Files W} `{Processes W}.

Record Spawned := { spawned : list Command; host : W }.

Definition set_inner (w : W) (r : Spawned) : Spawned := {| spawned := spawned r; host := w |}.
Definition inner_world {E A} (m : M W E A) : M Spawned E A := zoom host set_inner m.

#[export] Instance spawned_files : Files Spawned := {
  symlink_metadata path := inner_world (symlink_metadata path);
  metadata path := inner_world (metadata path);
  read_dir path := inner_world (read_dir path);
  open_file path := inner_world (open_file path);
  file_metadata file := inner_world (file_metadata file);
  read_to_end file n := inner_world (read_to_end file n)
}.
#[export] Instance spawned_processes : Processes Spawned := {
  spawn command :=
    modify (λ r, {| spawned := spawned r ++ [command]; host := host r |}) ;!
    inner_world (spawn command);
  try_wait child := inner_world (try_wait child);
  wait child := inner_world (wait child)
}.

#[export] Instance inner_preserves {E A} (m : M W E A) : Preserves spawned (inner_world m).
Proof. intros r. unfold inner_world, zoom. by destruct (m (host r)). Qed.
#[export] Instance spawned_files_preserve : FilesPreserve spawned.
Proof. split; intros; apply inner_preserves. Qed.

(** ** Commands *)

Context (env : string → option str) (pid : Z).
Abbreviation St := (LaunchSupervisor * Spawned)%type.

(** An option of [systemd-run]: it starts with two dashes and is not just those. *)
Definition is_option (argument : str) : Prop := ∃ rest, argument = bstr "--" ++ rest ∧ rest ≠ [].

(** The program of the entry and its arguments, unchanged; through the user manager they
    follow the option separator. *)
Definition runs_entry (delegate : bool) (entry : CatalogEntry) (startup_id : str) (c : Command) : Prop :=
  Command_null_stdio c = true ∧
  if delegate then
    Command_program c = SYSTEMD_RUN ∧ Command_env c = [] ∧ Command_current_dir c = None ∧
    ∃ options, Forall is_option options ∧ (bstr "--setenv=DESKTOP_STARTUP_ID=" ++ startup_id) ∈ options ∧
      Command_args c
      = options ++ bstr "--" :: CatalogEntry_program entry :: CatalogEntry_arguments entry
  else
    Command_program c = CatalogEntry_program entry ∧
    Command_args c = CatalogEntry_arguments entry ∧
    Command_env c = [(bstr "DESKTOP_STARTUP_ID", startup_id)] ∧
    Command_current_dir c = CatalogEntry_working_directory entry.

Lemma direct_command_runs entry startup_id :
  runs_entry false entry startup_id (direct_command entry startup_id).
Proof. unfold runs_entry, direct_command. by destruct (CatalogEntry_working_directory entry). Qed.

(** A command to [systemd-run] under construction, of options only. *)
Definition options_only (required : str) (c : Command) : Prop :=
  Command_program c = SYSTEMD_RUN ∧ Command_env c = [] ∧ Command_current_dir c = None ∧
  Forall is_option (Command_args c) ∧ required ∈ Command_args c.

Lemma with_option required c rest :
  options_only required c → rest ≠ [] → options_only required (with_args [bstr "--" ++ rest] c).
Proof.
  intros (? & ? & ? & Hopts & Hin) Hne. split_and!; try done; cbn.
  - apply Forall_app. split; [done|]. constructor; [by exists rest|constructor].
  - apply elem_of_app. by left.
Qed.

Lemma delegate_environment_options required names n c c' :
  options_only required c → delegate_environment env names n c = Ok c' → options_only required c'.
Proof.
  revert n c. induction names as [|name names IH]; intros n c Hc; cbn [delegate_environment].
  { by intros [= <-]. }
  destruct (env name) as [value|]; [|by apply IH].
  destruct (ok_or _ _) as [n'|e]; cbn; [|done]. destruct (_ <? n'); [done|].
  apply IH. apply (with_option required c (bstr "setenv=" ++ bstr name ++ bstr "=" ++ value)); done.
Qed.

Lemma delegated_command_post entry startup_id stem numeric s :
  wp (delegated_command env entry startup_id stem numeric)
    (λ c s', runs_entry true entry startup_id c ∧ spawned s' = spawned s)
    (λ _ s', spawned s' = spawned s) s.
Proof.
  unfold delegated_command. wp_step. wp_step. wp_call (preserves_wp spawned); [apply _| |done].
  intros m s1 Hs1. destruct (_ || _); [done|]. cbv zeta.
  set (required := bstr "--setenv=DESKTOP_STARTUP_ID=" ++ startup_id).
  wp_step. apply wp_lift; [|done]. intros c Hc.
  apply (delegate_environment_options required) in Hc.
  - apply wp_ret. split; [|done].
    assert (options_only required match CatalogEntry_working_directory entry with
              | Some directory => with_args [bstr "--working-directory=" ++ directory] c
              | None => c end) as (Hp & He & Hd & Hopts & Hreq).
    { destruct (CatalogEntry_working_directory entry) as [d|]; [|done].
      by apply (with_option required c (bstr "working-directory=" ++ d)). }
    split; [done|]. split_and!; [done..|]. eexists. split; [exact Hopts|]. by split.
  - split_and!; try done; cbn [Command_args with_args].
    + cbn. repeat (apply Forall_cons; split; [eexists; split; [reflexivity|discriminate]|]).
      done.
    + apply elem_of_app. right. right. left.
Qed.

(** ** Children *)

Lemma swap_remove_post {A} i (l : list A) :
  (i < length l)%nat → (length (swap_remove i l) < length l)%nat ∧ swap_remove i l ⊆ l.
Proof.
  intros Hi. unfold swap_remove. destruct l as [|x l _] using rev_ind; [cbn in Hi; lia|].
  rewrite last_snoc, removelast_last. rewrite length_app in *. cbn in *.
  case_decide as Hlast; [split; [lia|set_solver]|]. rewrite length_insert. split; [lia|].
  intros y (j & Hj)%list_elem_of_lookup.
  destruct (decide (i = j)) as [->|Hne].
  - rewrite list_lookup_insert_eq in Hj by lia. injection Hj as <-. set_solver.
  - rewrite list_lookup_insert_ne in Hj by done. apply elem_of_app. left. by eapply list_elem_of_lookup_2.
Qed.

Lemma reap_from_post rounds i l s :
  wp (reap_from rounds i l)
    (λ l' s', (length l' ≤ length l)%nat ∧ l' ⊆ l ∧ spawned s' = spawned s) (λ _ _, False) s.
Proof.
  revert i l s. induction rounds as [|rounds IH]; intros i l s; cbn [reap_from].
  { by apply wp_ret. }
  destruct (l !! i) as [child|] eqn:Hi; [|by apply wp_ret]. apply lookup_lt_Some in Hi.
  do 2 wp_step. eapply wp_mono; [apply (wp_preserves spawned _ (λ _ _, True) (λ _ _, True)); [apply _|]|..].
  { unfold wp. by destruct (try_wait child s) as [[] ?]. }
  - intros [] s1 [_ Hs1]; cbv beta.
    + do 2 wp_step. eapply wp_mono; [apply (preserves_wp spawned); apply _|..];
        intros ? s2 Hs2; (eapply wp_mono; [apply IH| |done]); intros l' s3 (Hlen & Hsub & Hs3);
        destruct (swap_remove_post i l Hi) as [Hsl Hss]; (split; [lia|split; [set_solver|congruence]]).
    + eapply wp_mono; [apply IH| |done]. intros l' s3 (? & ? & Hs3). split_and!; [done..|congruence].
  - intros e s1 [_ Hs1]. eapply wp_mono; [apply IH| |done]. intros l' s3 (? & ? & Hs3).
    split_and!; [done..|congruence].
Qed.

(** ** Launching *)

Definition supervisor_ok (t : LaunchSupervisor) : Prop :=
  len (children t) ≤ MAX_ACTIVE_CHILDREN ∧ 1 ≤ next_token t ≤ U64_MAX.

(** An entry the policy lets the caller start under that ID. *)
Definition admitted (policy : LaunchPolicy) (application : ApplicationId) (e : CatalogEntry) : Prop :=
  entry_wf (W:=Spawned) e ∧ entry_id e = application ∧ permitted policy e = true.

(** What a launch may have asked to be spawned. *)
Definition spawned_for (policy : LaunchPolicy) (application : ApplicationId) (t t' : St) (token : Z)
  (c : Command) : Prop :=
  spawned t'.2 = spawned t.2 ++ [c] ∧
  ∃ e, admitted policy application e ∧ runs_entry (delegate_via_systemd t.1) e (startup_id_of pid token) c.

Definition same_settings (t t' : LaunchSupervisor) : Prop :=
  delegate_via_systemd t' = delegate_via_systemd t ∧ delegated_unit_stem t' = delegated_unit_stem t.

Lemma reap_post (t : St) :
  wp reap (λ _ t', spawned t'.2 = spawned t.2 ∧ next_token t'.1 = next_token t.1 ∧
             same_settings t.1 t'.1 ∧ (length (children t'.1) ≤ length (children t.1))%nat ∧
             children t'.1 ⊆ children t.1)
    (λ _ _, False) t.
Proof.
  unfold reap, in_world, reap_children. wp_step. wp_step. wp_step. wp_step.
  wp_call reap_from_post; [|done]. intros l s1 (Hlen & Hsub & Hs1). by apply wp_modify.
Qed.

Lemma find_entry_Some application entries e :
  find_entry application entries = Some e → e ∈ entries ∧ entry_id e = application.
Proof.
  unfold find_entry. intros ([i e'] & Hf & ->)%fmap_Some. cbn.
  apply list_find_Some in Hf as (Hl & He & _). split; [by eapply list_elem_of_lookup_2|done].
Qed.

(** The token, taken before anything is started. *)
Lemma take_token_post (t : St) :
  1 ≤ next_token t.1 ≤ U64_MAX →
  wp take_token
    (λ numeric t', numeric = next_token t.1 ∧ next_token t'.1 = numeric + 1 ∧ numeric + 1 ≤ U64_MAX ∧
       t'.2 = t.2 ∧ children t'.1 = children t.1 ∧ same_settings t.1 t'.1)
    (λ _ t', t' = t) t.
Proof.
  intros Ht. unfold take_token. wp_step. wp_step. wp_step. apply wp_lift; [|done].
  intros next Hnext. unfold checked_u64 in Hnext.
  destruct (checked_in 0 U64_MAX (next_token t.1 + 1)) as [n|] eqn:Hn; [|done].
  injection Hnext as <-. apply checked_in_Some in Hn as [-> Hle].
  wp_step. wp_step. apply wp_ret. cbn. split_and!; try done; lia.
Qed.

Definition launch_done (policy : LaunchPolicy) (application : ApplicationId) (t : St)
  (started : Started) (t' : St) : Prop :=
  ∃ c, spawned_for policy application t t' (next_token t.1) c ∧
    Started_token started = next_token t.1 ∧
    Started_startup_id started = startup_id_of pid (next_token t.1) ∧
    next_token t'.1 = next_token t.1 + 1 ∧ supervisor_ok t'.1 ∧ same_settings t.1 t'.1 ∧
    ∃ child, last (children t'.1) = Some child ∧ removelast (children t'.1) ⊆ children t.1.

Definition launch_failed (policy : LaunchPolicy) (application : ApplicationId) (t : St)
  (e : Failure) (t' : St) : Prop :=
  (spawned t'.2 = spawned t.2 ∨
   Failure_code e = ErrorCode_Unavailable ∧
   ∃ c, spawned_for policy application t t' (next_token t.1) c) ∧
  next_token t.1 ≤ next_token t'.1 ∧ supervisor_ok t'.1 ∧ same_settings t.1 t'.1 ∧
  children t'.1 ⊆ children t.1.

(** The command, once there is room for a child. *)
Lemma build_command_post (t0 : LaunchSupervisor) entry startup_id numeric (t : St) :
  wp (if delegate_via_systemd t0
      then in_world (delegated_command env entry startup_id (delegated_unit_stem t0) numeric)
      else ret (direct_command entry startup_id))
    (λ c t', runs_entry (delegate_via_systemd t0) entry startup_id c ∧ spawned t'.2 = spawned t.2 ∧ t'.1 = t.1)
    (λ _ t', spawned t'.2 = spawned t.2 ∧ t'.1 = t.1) t.
Proof.
  destruct (delegate_via_systemd t0).
  - unfold in_world. wp_step. wp_call delegated_command_post; cbn.
    + intros c s1 [? ?]. done.
    + done.
  - apply wp_ret. split; [apply direct_command_runs|done].
Qed.

Lemma spawn_post c (s : Spawned) :
  wp (spawn c) (λ _ s', spawned s' = spawned s ++ [c]) (λ _ s', spawned s' = spawned s ++ [c]) s.
Proof.
  cbn [spawn spawned_processes]. wp_step. wp_step.
  eapply wp_mono; [apply (preserves_wp spawned); apply _|..]; by intros ? s1 Hs1.
Qed.

Lemma launch_post policy application (t : St) :
  supervisor_ok t.1 →
  wp (launch env pid application policy) (launch_done policy application t)
    (launch_failed policy application t) t.
Proof.
  intros (Hlen & Htok). unfold launch.
  assert (∀ e, launch_failed policy application t e t) as Hnone.
  { intros e. split_and!; [by left|lia|done..]. }
  assert (∀ e s', spawned s' = spawned t.2 → launch_failed policy application t e (t.1, s')) as Hworld.
  { intros e s' Hs'. split_and!; [by left|cbn; lia|done..]. }
  wp_step. unfold in_world at 1. wp_step.
  eapply wp_mono; [eapply (wp_preserves spawned); [apply _|apply discover_post]|..].
  2:{ intros e s1 [_ Hs1]. by apply Hworld. }
  intros entries s1 [((Hwf & _ & _) & Hperm & _) Hs1]. cbv beta. wp_step.
  apply wp_lift; [|intros e _; by apply Hworld]. intros entry Hentry.
  assert (admitted policy application entry) as Hadm.
  { destruct (find_entry application entries) as [e|] eqn:Hf; [|done]. injection Hentry as ->.
    apply find_entry_Some in Hf as [Hin ?]. rewrite Forall_forall in *. split_and!; [|done|]; eauto. }
  wp_step. unfold set_world. wp_call take_token_post; [done| |intros e t1 ->; by apply Hworld].
  intros numeric t2 (-> & Hnext & Hmax & Hw2 & Hch2 & Hset2). cbn [fst snd] in *.
  wp_step. apply wp_lift; [|intros e; rewrite (proj2 (Z.eqb_neq _ _)); [done|lia]].
  rewrite (proj2 (Z.eqb_neq _ _)) by lia. intros token [= <-]. cbv zeta.
  wp_step. wp_call reap_post; [|done].
  intros [] t3 (Hs3 & Hn3 & Hset3 & Hlen3 & Hsub3).
  assert (same_settings t.1 t3.1) as Hset by (unfold same_settings in *; intuition congruence).
  assert (spawned t3.2 = spawned t.2) as Hlog by (rewrite Hs3, Hw2; exact Hs1).
  assert (len (children t3.1) ≤ MAX_ACTIVE_CHILDREN) as Hroom by (rewrite Hch2 in Hlen3; unfold len in *; lia).
  rewrite Hch2 in Hsub3.
  assert (∀ e t', spawned t'.2 = spawned t.2 → t'.1 = t3.1 → launch_failed policy application t e t') as Hfail.
  { intros e t' Hsp Ht'. unfold launch_failed, supervisor_ok. rewrite Ht', Hn3, Hnext.
    split; [by left|]. split; [lia|]. split; [split; [done|lia]|]. by split. }
  wp_step. wp_step. destruct (Z.eqb_spec (len (children t3.1)) MAX_ACTIVE_CHILDREN) as [|Hfull]; [by apply Hfail|].
  wp_step. wp_step. wp_step. wp_step. wp_step. wp_call build_command_post; cbv beta.
  2:{ intros e t4 [Hs4 Ht4]. apply Hfail; [congruence|done]. }
  intros c t4 (Hruns & Hs4 & Ht4). destruct Hset as [Hdel Hstem]. rewrite Hdel in Hruns.
  wp_step. wp_step. unfold in_world. wp_step. wp_call spawn_post; cbv beta.
  - intros child s5 Hs5. unfold world in Hs5. wp_step. wp_step. apply wp_ret. exists c. cbn. split.
    { split; [cbn; congruence|]. by exists entry. }
    rewrite Ht4, Hn3. split_and!; try done; cbn.
    + unfold supervisor_ok. cbn. split; [|lia].
      unfold len in *. rewrite length_app. cbn. lia.
    + exists child. by rewrite last_snoc, removelast_last.
  - intros e s5 Hs5. unfold world in Hs5. split_and!.
    + right. split; [done|]. exists c. split; [cbn; congruence|]. by exists entry.
    + cbn. rewrite Ht4. lia.
    + unfold supervisor_ok. cbn. rewrite Ht4. split; [done|lia].
    + cbn. unfold same_settings. by rewrite Ht4.
    + cbn. by rewrite Ht4.
Qed.

End record.

(** ** A concrete launch *)

Module LaunchToy.
#[global] Instance toy_processes : Processes unit := {
  spawn command := ret 7;
  try_wait child := ret (child =? 5);
  wait child := ret tt
}.

Definition start : LaunchSupervisor * Spawned (W:=unit) :=
  ({| next_token := 3; children := [4; 5; 6]; delegate_via_systemd := false;
      delegated_unit_stem := [] |}, {| spawned := []; host := tt |}).
Definition ant : ApplicationId := mkBoundedText (MAX:=MAX_APPLICATION_ID_BYTES) (bstr "a.desktop") eq_refl.
Definition result := launch CatalogToy.env 99 ant CatalogToy.policy start.

Lemma start_ok : supervisor_ok start.1.
Proof. unfold supervisor_ok, len, MAX_ACTIVE_CHILDREN, U64_MAX. cbn. lia. Qed.
End LaunchToy.

