(* ===== verification/Diagnostics.v ===== *)
(** * Every error an operation can return carries a diagnostic that may be sent

    [diagnostic] in [session.rs] panics on a message of more than 512 bytes, and the
    protocol refuses an empty one.  [Errs P m] says that every error of [m] satisfies [P];
    there is an instance for each function of the observer and of the launcher. *)

From S2P Require Import Prelude Text Bounded Protocol Effects Host DesktopEntry Catalog Launch.
From S2P Require Import Message SeatGate Config Policy X11 Scan Observer Manager InputServer Keyboard Input Capture TextTransfer.

(** ** Diagnostics *)

Definition brief (message : string) : bool :=
  (1 <=? String.length message)%nat && (String.length message <=? 512)%nat.

Definition brief_failure (e : X11.Failure) : Prop := brief (X11.Failure_message e) = true.
Definition brief_launch (e : Catalog.Failure) : Prop := brief (Catalog.Failure_message e) = true.

Lemma request_or_reply_brief request reply e :
  brief request = true → brief reply = true → brief_failure (request_or_reply request reply e).
Proof. by destruct e. Qed.

Lemma length_append (a b : string) :
  String.length (a +:+ b) = (String.length a + String.length b)%nat.
Proof. induction a as [|c a IH]; [done|exact (f_equal S IH)]. Qed.
Lemma length_string_of_str (s : str) : String.length (string_of_str s) = length s.
Proof. unfold string_of_str. induction s as [|c s IH]; [done|exact (f_equal S IH)]. Qed.
Lemma dec_digits_length fuel x : (length (dec_digits fuel x) ≤ fuel)%nat.
Proof.
  revert x. induction fuel as [|fuel IH]; intros x; cbn [dec_digits]; [done|].
  destruct (x <? 10); [cbn; lia|]. rewrite length_app. cbn. specialize (IH (x / 10)). lia.
Qed.
Lemma hex_digits_length fuel x : length (hex_digits fuel x) = fuel.
Proof.
  revert x. induction fuel as [|fuel IH]; intros x; cbn [hex_digits]; [done|].
  rewrite length_app, IH. cbn. lia.
Qed.
Lemma hex_04_length x : (length (hex_04 x) ≤ 6)%nat.
Proof. unfold hex_04. rewrite hex_digits_length. repeat case_match; lia. Qed.

Lemma character_failure_brief e character position :
  brief_failure e → brief_failure (character_failure e character position).
Proof.
  intros He. unfold character_failure. case_bool_decide; [|done].
  unfold brief_failure, brief. cbn [X11.Failure_message Failure_invalid_owned failure].
  rewrite !length_append, !length_string_of_str.
  pose proof (dec_digits_length 20 position) as Hd. pose proof (hex_04_length character) as Hh.
  change (dec_digits 20 position) with (to_dec position) in Hd.
  cbn [String.length]. apply andb_true_iff. rewrite !Nat.leb_le. lia.
Qed.

Section observer.
Context {W : Type} `{XServer W, XInput W, SharedSeat W, XIdentities W, XImages W, XSelections W}.

(** *** Shared steps *)
Lemma or_unavailable_errs {A} (request reply : string) (m : M W XError A) :
  brief request = true → brief reply = true →
  Errs brief_failure (or_unavailable request reply m).
Proof.
  intros. unfold or_unavailable. apply zoom_errs, map_error_errs. intros.
  by apply request_or_reply_brief.
Qed.
Lemma self_errs {A} (m : M Observer X11.Failure A) :
  Errs brief_failure m → Errs brief_failure (self (W:=W) m).
Proof. apply zoom_errs. Qed.
Lemma x11_errs {A} (m : M W X11.Failure A) :
  Errs brief_failure m → Errs brief_failure (x11 m).
Proof. apply zoom_errs. Qed.
Ltac errs_x11 :=
  lazymatch goal with
  | |- brief_failure (request_or_reply _ _ _) => apply request_or_reply_brief
  | |- brief_failure (match ?x with _ => _ end) => destruct x
  | |- brief_failure (_ (match ?x with _ => _ end)) => destruct x
  | |- Errs _ (or_unavailable _ _ _) => apply or_unavailable_errs
  | |- Errs _ (self _) => apply self_errs
  | |- Errs _ (x11 _) => apply x11_errs
  end.
Ltac errs_lemma ::= errs_x11.

#[export] Instance seat_accepts_errs {E} (P : E → Prop) permit :
  Errs P (seat_accepts (W:=W) permit).
Proof. intros w e w'. unfold seat_accepts. by repeat case_match. Qed.
#[export] Instance accepts_errs (permit : SeatPermit) :
  Errs brief_failure (Input.accepts (W:=W) permit).
Proof. apply x11_errs. apply _. Qed.
Lemma under_server_grab_errs {A} (action : M (Observer * W) X11.Failure A) :
  Errs brief_failure action → Errs brief_failure (under_server_grab action).
Proof. intros. unfold under_server_grab. solve_errs. Qed.
Lemma if_accepted_errs permit (action : M (Observer * W) X11.Failure unit) :
  Errs brief_failure action → Errs brief_failure (if_accepted permit action).
Proof. intros. unfold if_accepted. solve_errs. Qed.
Lemma tree_errs message window :
  brief message = true → Errs brief_failure (tree (W:=W) message window).
Proof. intros. unfold tree. by apply or_unavailable_errs. Qed.
Lemma clipboard_owner_errs message :
  brief message = true → Errs brief_failure (clipboard_owner (W:=W) message).
Proof. intros. unfold clipboard_owner. solve_errs. Qed.
#[export] Instance notify_selection_errs (request : SelectionRequestEvent) (property : Z) :
  Errs brief_failure (notify_selection (W:=W) request property).
Proof. unfold notify_selection. solve_errs. Qed.
Lemma refuse_errs request message :
  brief message = true → Errs brief_failure (TextTransfer.refuse (W:=W) request message).
Proof. intros. unfold TextTransfer.refuse. solve_errs. Qed.

Ltac errs_lemma ::=
  lazymatch goal with
  | |- Errs _ (under_server_grab _) => apply under_server_grab_errs
  | |- Errs _ (if_accepted _ _) => apply if_accepted_errs
  | |- Errs _ (tree _ _) => apply tree_errs
  | |- Errs _ (clipboard_owner _) => apply clipboard_owner_errs
  | |- Errs _ (TextTransfer.refuse _ _) => apply refuse_errs
  | _ => errs_x11
  end.

(** *** X11 *)
#[export] Instance ok_flatten_errs {E F A} (P : F → Prop) (m : M W E (option A)) :
  Errs P (ok_flatten m).
Proof. unfold ok_flatten. solve_errs. Qed.
#[export] Instance atom_errs (name : string) : Errs brief_failure (atom (W:=W) name).
Proof. unfold atom. solve_errs. Qed.
#[export] Instance Atoms_intern_errs : Errs brief_failure (Atoms_intern (W:=W)).
Proof. unfold Atoms_intern. solve_errs. Qed.
#[export] Instance property32_errs (window property expected_type max_items : Z) :
  Errs brief_failure (property32 (W:=W) window property expected_type max_items).
Proof. unfold property32. solve_errs. Qed.
#[export] Instance property_bytes_errs (window property expected_type max_bytes : Z) :
  Errs brief_failure (property_bytes (W:=W) window property expected_type max_bytes).
Proof. unfold property_bytes. solve_errs. Qed.
#[export] Instance optional_cardinal_errs (window property : Z) :
  Errs brief_failure (optional_cardinal (W:=W) window property).
Proof. unfold optional_cardinal. solve_errs. Qed.
#[export] Instance optional_window_errs (window property : Z) :
  Errs brief_failure (optional_window (W:=W) window property).
Proof. unfold optional_window. solve_errs. Qed.
#[export] Instance required_cardinal_errs (window property : Z) :
  Errs brief_failure (required_cardinal (W:=W) window property).
Proof. unfold required_cardinal. solve_errs. Qed.

(** *** Scan *)
#[export] Instance validate_wm_errs (root : Z) (atoms : Atoms) :
  Errs brief_failure (validate_wm (W:=W) root atoms).
Proof. unfold validate_wm. solve_errs. Qed.
#[export] Instance read_workspaces_errs (root : Z) (atoms : Atoms) (count : Z) :
  Errs brief_failure (read_workspaces (W:=W) root atoms count).
Proof. unfold read_workspaces. solve_errs. Qed.
#[export] Instance client_list_errs (root : Z) (atoms : Atoms) :
  Errs brief_failure (client_list (W:=W) root atoms).
Proof. unfold client_list. solve_errs. Qed.
#[export] Instance atom_list_errs (window property : Z) :
  Errs brief_failure (atom_list (W:=W) window property).
Proof. unfold atom_list. solve_errs. Qed.
#[export] Instance client_states_errs (xid : Z) (atoms : Atoms) :
  Errs brief_failure (client_states (W:=W) xid atoms).
Proof. unfold client_states. solve_errs. Qed.
#[export] Instance client_actions_errs (xid : Z) (atoms : Atoms) (supp : list Z) :
  Errs brief_failure (client_actions (W:=W) xid atoms supp).
Proof. unfold client_actions. solve_errs. Qed.
#[export] Instance client_placement_errs (xid : Z) (atoms : Atoms) (states : list ClientState)
  (workspace_count : Z) :
  Errs brief_failure (client_placement (W:=W) xid atoms states workspace_count).
Proof. unfold client_placement. solve_errs. Qed.
#[export] Instance first_title_errs (xid : Z) (atoms : Atoms) (properties : list Z) :
  Errs brief_failure (first_title (W:=W) xid atoms properties).
Proof. revert xid atoms. induction properties; intros; cbn [first_title]; solve_errs. Qed.
#[export] Instance client_title_errs (xid : Z) (atoms : Atoms) :
  Errs brief_failure (client_title (W:=W) xid atoms).
Proof. unfold client_title. solve_errs. Qed.
#[export] Instance client_frame_extents_errs (xid : Z) (atoms : Atoms) :
  Errs brief_failure (client_frame_extents (W:=W) xid atoms).
Proof. unfold client_frame_extents. solve_errs. Qed.
#[export] Instance client_frame_errs (root xid : Z) (atoms : Atoms) :
  Errs brief_failure (client_frame (W:=W) root xid atoms).
Proof. unfold client_frame. solve_errs. Qed.
#[export] Instance read_client_errs (root : Z) (atoms : Atoms) (supp : list Z) (xid : Z)
  (current_workspace : WorkspaceId) (workspace_count : Z) (scope : ClientScope) (show_titles : bool) :
  Errs brief_failure (read_client (W:=W) root atoms supp xid current_workspace workspace_count scope show_titles).
Proof. unfold read_client. solve_errs. Qed.
#[export] Instance scan_errs (root : Z) (atoms : Atoms) (scope : ClientScope) (show_titles : bool) :
  Errs brief_failure (scan (W:=W) root atoms scope show_titles).
Proof. unfold scan. solve_errs. Qed.
#[export] Instance client_startup_id_matches_errs (xid : Z) (atoms : Atoms) (expected : bytes) :
  Errs brief_failure (client_startup_id_matches (W:=W) xid atoms expected).
Proof. unfold client_startup_id_matches. solve_errs. Qed.

(** *** Observer *)
#[export] Instance RawClient_descriptor_errs (self : RawClient) (id : ClientId)
  (generation : Generation) :
  ErrsR brief_failure (RawClient_descriptor self id generation).
Proof. unfold RawClient_descriptor. solve_errs. Qed.
#[export] Instance assign_errs (f : Observer → Observer) : Errs brief_failure (assign f).
Proof. unfold assign. solve_errs. Qed.
#[export] Instance allocate_client_errs : Errs brief_failure (allocate_client ).
Proof. unfold allocate_client. solve_errs. Qed.
#[export] Instance push_event_errs (event : Event) : Errs brief_failure (push_event event).
Proof. unfold push_event. solve_errs. Qed.
#[export] Instance initial_model_errs (raw : RawDesktop) : Errs brief_failure (initial_model raw).
Proof. unfold initial_model. solve_errs. Qed.
#[export] Instance diff_client_errs (previous : Model) (client : RawClient) :
  Errs brief_failure (diff_client previous client).
Proof. unfold diff_client. solve_errs. Qed.
#[export] Instance diff_removed_errs (raw : RawDesktop) (client : ClientRecord) :
  Errs brief_failure (diff_removed raw client).
Proof. unfold diff_removed. solve_errs. Qed.
#[export] Instance diff_model_errs (previous : Model) (raw : RawDesktop) :
  Errs brief_failure (diff_model previous raw).
Proof. unfold diff_model. solve_errs. Qed.
#[export] Instance current_snapshot_errs (self : Observer) :
  ErrsR brief_failure (current_snapshot self).
Proof. unfold current_snapshot. solve_errs. Qed.
#[export] Instance event_page_errs (self : Observer) (after limit : Z) :
  ErrsR brief_failure (event_page self after limit).
Proof. unfold event_page. solve_errs. Qed.
#[export] Instance instant_now_errs : Errs brief_failure (instant_now (W:=W)).
Proof. intros w e w'. unfold instant_now. by case_match. Qed.
#[export] Instance thread_sleep_errs (d : Z) : Errs brief_failure (thread_sleep (W:=W) d).
Proof. unfold thread_sleep. solve_errs. Qed.
#[export] Instance require_composite_capture_errs :
  Errs brief_failure (require_composite_capture (W:=W)).
Proof. unfold require_composite_capture. solve_errs. Qed.
#[export] Instance unredirect_departed_errs (window : Z) :
  Errs brief_failure (unredirect_departed (W:=W) window).
Proof. unfold unredirect_departed. solve_errs. Qed.
#[export] Instance redirect_added_errs (window : Z) :
  Errs brief_failure (redirect_added (W:=W) window).
Proof. unfold redirect_added. solve_errs. Qed.
#[export] Instance reconcile_capture_targets_errs (clients : list Z) :
  Errs brief_failure (reconcile_capture_targets (W:=W) clients).
Proof. unfold reconcile_capture_targets. solve_errs. Qed.
#[export] Instance refresh_errs : Errs brief_failure (refresh (W:=W)).
Proof. unfold refresh. solve_errs. Qed.
#[export] Instance snapshot_errs : Errs brief_failure (snapshot (W:=W)).
Proof. unfold snapshot. solve_errs. Qed.
#[export] Instance subscribe_errs (kinds : list EventKind) :
  Errs brief_failure (subscribe (W:=W) kinds).
Proof. unfold subscribe. solve_errs. Qed.
#[export] Instance sleep_towards_errs (deadline : Z) :
  Errs brief_failure (sleep_towards (W:=W) deadline).
Proof. unfold sleep_towards. solve_errs. Qed.
#[export] Instance poll_loop_errs (fuel : nat) (after deadline : Z) :
  Errs brief_failure (poll_loop (W:=W) fuel after deadline).
Proof. revert after deadline. induction fuel; intros; cbn [poll_loop]; solve_errs. Qed.
#[export] Instance poll_errs (fuel : nat) (after limit wait_ms : Z) :
  Errs brief_failure (poll (W:=W) fuel after limit wait_ms).
Proof. unfold poll. solve_errs. Qed.
#[export] Instance launch_baseline_errs : Errs brief_failure (launch_baseline (W:=W)).
Proof. unfold launch_baseline. solve_errs. Qed.
#[export] Instance find_launched_errs (baseline : list Z) (startup_id : bytes)
  (clients : list ClientRecord) :
  Errs brief_failure (find_launched (W:=W) baseline startup_id clients).
Proof. revert baseline startup_id. induction clients; intros; cbn [find_launched]; solve_errs. Qed.
#[export] Instance correlate_loop_errs (fuel : nat) (baseline : list Z) (startup_id : bytes)
  (deadline : Z) :
  Errs brief_failure (correlate_loop (W:=W) fuel baseline startup_id deadline).
Proof.
  revert baseline startup_id deadline. induction fuel; intros; cbn [correlate_loop]; solve_errs.
Qed.
#[export] Instance correlate_launch_errs (fuel : nat) (baseline : list Z) (startup_id : bytes)
  (wait : Z) :
  Errs brief_failure (correlate_launch (W:=W) fuel baseline startup_id wait).
Proof. unfold correlate_launch. solve_errs. Qed.

(** *** Manager *)
#[export] Instance target_errs (o : Observer) (request : TargetRequest) :
  ErrsR brief_failure (Manager.target o request).
Proof. unfold Manager.target. solve_errs. Qed.
#[export] Instance current_model_errs (o : Observer) : ErrsR brief_failure (current_model o).
Proof. unfold current_model. solve_errs. Qed.
#[export] Instance require_workspace_errs (o : Observer) (workspace : WorkspaceId) :
  ErrsR brief_failure (require_workspace o workspace).
Proof. unfold require_workspace. solve_errs. Qed.
#[export] Instance require_action_errs (target : Target) (action : ClientAction) :
  ErrsR brief_failure (require_action target action).
Proof. unfold require_action. solve_errs. Qed.
#[export] Instance require_supported_errs (supp : list Z) (atom : Z) :
  ErrsR brief_failure (require_supported supp atom).
Proof. unfold require_supported. solve_errs. Qed.
#[export] Instance state_atoms_errs (atoms : Atoms) (state : ClientState) :
  ErrsR brief_failure (state_atoms atoms state).
Proof. unfold state_atoms. solve_errs. Qed.
#[export] Instance client_rect_errs (frame : Rect) (extents : Z * Z * Z * Z) :
  ErrsR brief_failure (client_rect frame extents).
Proof. unfold client_rect. solve_errs. Qed.
#[export] Instance allowed_actions_errs (o : Observer) (xid : Z) :
  Errs brief_failure (allowed_actions (W:=W) o xid).
Proof. unfold allowed_actions. solve_errs. Qed.
#[export] Instance prepare_state_errs (o : Observer) (request : ClientStateRequest) (supp : list Z) :
  Errs brief_failure (prepare_state (W:=W) o request supp).
Proof. unfold prepare_state. solve_errs. Qed.
#[export] Instance prepare_geometry_errs (o : Observer) (request : ClientGeometryRequest)
  (supp : list Z) :
  Errs brief_failure (prepare_geometry (W:=W) o request supp).
Proof. unfold prepare_geometry. solve_errs. Qed.
#[export] Instance prepare_errs (o : Observer) (operation : Operation) :
  Errs brief_failure (prepare (W:=W) o operation).
Proof. unfold prepare. solve_errs. Qed.
#[export] Instance observe_loop_errs (fuel : nat) (desired : Desired) (deadline : Z) :
  Errs brief_failure (observe_loop (W:=W) fuel desired deadline).
Proof. revert desired deadline. induction fuel; intros; cbn [observe_loop]; solve_errs. Qed.
#[export] Instance observe_terminal_errs (fuel : nat) (desired : Desired) :
  Errs brief_failure (observe_terminal (W:=W) fuel desired).
Proof. unfold observe_terminal. solve_errs. Qed.
#[export] Instance send_prepared_errs (o : Observer) (prepared : Prepared) :
  Errs brief_failure (send_prepared (W:=W) o prepared).
Proof. unfold send_prepared. solve_errs. Qed.
#[export] Instance manage_errs (fuel : nat) (operation : Operation) :
  Errs brief_failure (manage (W:=W) fuel operation).
Proof. unfold manage. solve_errs. Qed.

(** *** Keyboard *)
#[export] Instance modifier_bits_errs (mask : Z) : ErrsR brief_failure (modifier_bits mask).
Proof. unfold modifier_bits. solve_errs. Qed.
#[export] Instance KeyboardMap_from_reply_errs (reply : GetMapReply) (state : GetStateReply) :
  ErrsR brief_failure (KeyboardMap_from_reply reply state).
Proof. unfold KeyboardMap_from_reply. solve_errs. Qed.
#[export] Instance modifier_key_errs (map : KeyboardMap) (modifier : KeyboardModifier) :
  ErrsR brief_failure (modifier_key map modifier).
Proof. unfold modifier_key. solve_errs. Qed.
#[export] Instance safe_loop_errs (map : KeyboardMap) (safe : Z) (entries : list KeyModMap) :
  ErrsR brief_failure (safe_loop map safe entries).
Proof. revert map safe. induction entries; intros; cbn [safe_loop]; solve_errs. Qed.
#[export] Instance safe_locked_modifiers_errs (map : KeyboardMap) :
  ErrsR brief_failure (safe_locked_modifiers map).
Proof. unfold safe_locked_modifiers. solve_errs. Qed.
#[export] Instance request_modifiers_errs (map : KeyboardMap) (bits : Z) (keys : list Z)
  (requested : list KeyboardModifier) :
  ErrsR brief_failure (request_modifiers map bits keys requested).
Proof. revert map bits keys. induction requested; intros; cbn [request_modifiers]; solve_errs. Qed.
#[export] Instance resolve_with_modifiers_errs (map : KeyboardMap) (wanted : Z)
  (requested : list KeyboardModifier) :
  ErrsR brief_failure (resolve_with_modifiers map wanted requested).
Proof. unfold resolve_with_modifiers. solve_errs. Qed.
#[export] Instance resolve_errs (map : KeyboardMap) (wanted : Z) :
  ErrsR brief_failure (resolve map wanted).
Proof. unfold resolve. solve_errs. Qed.
#[export] Instance KeyboardMap_read_errs : Errs brief_failure (KeyboardMap_read (W:=W)).
Proof. unfold KeyboardMap_read. solve_errs. Qed.
Lemma characters_errs {A} (r : result A X11.Failure) character position :
  ErrsR brief_failure r →
  ErrsR brief_failure (map_err (λ e, character_failure e character position) r).
Proof.
  intros Hr e. destruct r as [|e']; [done|]. intros [= <-]. by apply character_failure_brief, Hr.
Qed.
#[export] Instance resolve_characters_errs (map : KeyboardMap) (index : Z) (characters : list Z) :
  ErrsR brief_failure (resolve_characters map index characters).
Proof.
  revert map index. induction characters; intros; cbn [resolve_characters]; repeat first [apply characters_errs | errs_step].
Qed.
#[export] Instance resolve_text_errs (text : str) : Errs brief_failure (resolve_text (W:=W) text).
Proof. unfold resolve_text. solve_errs. Qed.
#[export] Instance resolve_character_errs (character position : Z) :
  Errs brief_failure (resolve_character (W:=W) character position).
Proof. unfold resolve_character. repeat first [apply characters_errs | errs_step]. Qed.
#[export] Instance resolve_key_errs (key : KeyboardKey) (modifiers : list KeyboardModifier) :
  Errs brief_failure (resolve_key (W:=W) key modifiers).
Proof. unfold resolve_key. solve_errs. Qed.

(** *** Input *)
#[export] Instance checked_root_coordinate_errs (origin offset : Z) :
  ErrsR brief_failure (checked_root_coordinate origin offset).
Proof. unfold checked_root_coordinate. solve_errs. Qed.
#[export] Instance fake_input_errs (event_type detail root_x root_y : Z) :
  Errs brief_failure (fake_input (W:=W) event_type detail root_x root_y).
Proof. unfold fake_input. solve_errs. Qed.
#[export] Instance best_effort_release_errs (event_type detail : Z) :
  Errs brief_failure (best_effort_release (W:=W) event_type detail).
Proof. unfold best_effort_release. solve_errs. Qed.
#[export] Instance release_keys_errs (keycodes : list Z) :
  Errs brief_failure (release_keys (W:=W) keycodes).
Proof. unfold release_keys. solve_errs. Qed.
#[export] Instance press_modifiers_errs (pressed modifiers : list Z) :
  Errs brief_failure (press_modifiers (W:=W) pressed modifiers).
Proof. revert pressed. induction modifiers; intros; cbn [press_modifiers]; solve_errs. Qed.
#[export] Instance release_modifiers_errs (popped : list Z) :
  Errs brief_failure (release_modifiers (W:=W) popped).
Proof. induction popped; intros; cbn [release_modifiers]; solve_errs. Qed.
#[export] Instance type_key_errs (stroke : KeyStroke) : Errs brief_failure (type_key (W:=W) stroke).
Proof. unfold type_key. solve_errs. Qed.
#[export] Instance click_button_errs (button : PointerButton) (root_x root_y : Z) :
  Errs brief_failure (click_button (W:=W) button root_x root_y).
Proof. unfold click_button. solve_errs. Qed.
#[export] Instance focus_ancestry_errs (n : nat) (target window : Z) :
  Errs brief_failure (focus_ancestry (W:=W) n target window).
Proof. revert target window. induction n; intros; cbn [focus_ancestry]; solve_errs. Qed.
#[export] Instance require_focus_owned_by_errs (target : Z) :
  Errs brief_failure (require_focus_owned_by (W:=W) target).
Proof. unfold require_focus_owned_by. solve_errs. Qed.
#[export] Instance frame_ancestry_errs (n : nat) (candidate window : Z) :
  Errs brief_failure (frame_ancestry (W:=W) n candidate window).
Proof. revert candidate window. induction n; intros; cbn [frame_ancestry]; solve_errs. Qed.
#[export] Instance is_target_or_reparenting_frame_errs (candidate target : Z) :
  Errs brief_failure (is_target_or_reparenting_frame (W:=W) candidate target).
Proof. unfold is_target_or_reparenting_frame. solve_errs. Qed.
#[export] Instance hit_test_errs (children : list Z) (root_x root_y : Z) :
  Errs brief_failure (hit_test (W:=W) children root_x root_y).
Proof. revert root_x root_y. induction children; intros; cbn [hit_test]; solve_errs. Qed.
#[export] Instance require_point_owned_by_errs (target root_x root_y : Z) :
  Errs brief_failure (require_point_owned_by (W:=W) target root_x root_y).
Proof. unfold require_point_owned_by. solve_errs. Qed.
#[export] Instance observed_target_errs (request : TargetRequest) :
  Errs brief_failure (observed_target (W:=W) request).
Proof. unfold observed_target. solve_errs. Qed.
#[export] Instance pointer_destination_errs (request : TargetRequest) (x y : Z) :
  Errs brief_failure (pointer_destination (W:=W) request x y).
Proof. unfold pointer_destination. solve_errs. Qed.
#[export] Instance reply_for_errs (permit : SeatPermit) (sent : bool) :
  Errs brief_failure (reply_for (W:=W) permit sent).
Proof. unfold reply_for. solve_errs. Qed.
#[export] Instance pointer_move_errs (request : PointerMoveRequest) (permit : SeatPermit) :
  Errs brief_failure (pointer_move (W:=W) request permit).
Proof. unfold pointer_move. solve_errs. Qed.
#[export] Instance pointer_click_errs (request : PointerClickRequest) (permit : SeatPermit) :
  Errs brief_failure (pointer_click (W:=W) request permit).
Proof. unfold pointer_click. solve_errs. Qed.
#[export] Instance focused_target_errs (request : TargetRequest) :
  Errs brief_failure (focused_target (W:=W) request).
Proof. unfold focused_target. solve_errs. Qed.
#[export] Instance type_character_errs (request : TargetRequest) (permit : SeatPermit)
  (character position : Z) :
  Errs brief_failure (type_character (W:=W) request permit character position).
Proof. unfold type_character. solve_errs. Qed.
#[export] Instance type_characters_errs (request : TargetRequest) (permit : SeatPermit)
  (completed : Z) (characters : list Z) :
  Errs brief_failure (type_characters (W:=W) request permit completed characters).
Proof.
  revert request permit completed. induction characters; intros; cbn [type_characters]; solve_errs.
Qed.
#[export] Instance keyboard_text_errs (request : TargetRequest) (text : str) (permit : SeatPermit) :
  Errs brief_failure (keyboard_text (W:=W) request text permit).
Proof. unfold keyboard_text. solve_errs. Qed.
#[export] Instance keyboard_type_errs (request : KeyboardTypeRequest) (permit : SeatPermit) :
  Errs brief_failure (keyboard_type (W:=W) request permit).
Proof. unfold keyboard_type. solve_errs. Qed.
#[export] Instance keyboard_write_errs (request : KeyboardWriteRequest) (permit : SeatPermit) :
  Errs brief_failure (keyboard_write (W:=W) request permit).
Proof. unfold keyboard_write. solve_errs. Qed.
#[export] Instance keyboard_key_errs (request : KeyboardKeyRequest) (permit : SeatPermit) :
  Errs brief_failure (keyboard_key (W:=W) request permit).
Proof. unfold keyboard_key. solve_errs. Qed.

(** *** Capture *)
#[export] Instance validate_dimensions_errs (width height : Z) :
  ErrsR brief_failure (validate_dimensions width height).
Proof. unfold validate_dimensions. solve_errs. Qed.
#[export] Instance component_errs (pixel mask : Z) : ErrsR brief_failure (component pixel mask).
Proof. unfold component. solve_errs. Qed.
#[export] Instance pixel_components_errs (visual : Visualtype) (order : Z) (pixel : bytes) :
  ErrsR brief_failure (pixel_components visual order pixel).
Proof. unfold pixel_components. solve_errs. Qed.
#[export] Instance convert_errs {A} (f : A → result bytes X11.Failure) l :
  (∀ a, ErrsR brief_failure (f a)) → ErrsR brief_failure (convert f l).
Proof. intros. induction l; cbn [convert]; solve_errs. Qed.

#[export] Instance to_rgb_errs (self : RawCapture) : ErrsR brief_failure (to_rgb self).
Proof. unfold to_rgb. solve_errs. Qed.
#[export] Instance encode_png_errs png b64 (width height : Z) (rgb : bytes) :
  ErrsR brief_failure (encode_png png b64 width height rgb).
Proof. unfold encode_png. solve_errs. Qed.
#[export] Instance capture_bounds_errs (region : option CaptureRegion) (geometry : Geometry) :
  ErrsR brief_failure (capture_bounds region geometry).
Proof. unfold capture_bounds. solve_errs. Qed.
#[export] Instance pixmap_format_errs (depth : Z) : ErrsR brief_failure (pixmap_format depth).
Proof. unfold pixmap_format. solve_errs. Qed.
#[export] Instance read_named_pixmap_errs (pixmap : Z) (visual : Visualtype)
  (region : option CaptureRegion) :
  Errs brief_failure (read_named_pixmap (W:=W) pixmap visual region).
Proof. unfold read_named_pixmap. solve_errs. Qed.
#[export] Instance read_redirected_pixmap_errs (window : Z) (visual : Visualtype)
  (region : option CaptureRegion) :
  Errs brief_failure (read_redirected_pixmap (W:=W) window visual region).
Proof. unfold read_redirected_pixmap. solve_errs. Qed.
#[export] Instance target_visual_errs (attributes : WindowAttributes) :
  ErrsR brief_failure (target_visual attributes).
Proof. unfold target_visual. solve_errs. Qed.
#[export] Instance read_target_pixels_errs (request : TargetRequest) (region : option CaptureRegion) :
  Errs brief_failure (read_target_pixels (W:=W) request region).
Proof. unfold read_target_pixels. solve_errs. Qed.
#[export] Instance encode_raw_errs png b64 (raw : RawCapture) :
  ErrsR brief_failure (encode_raw png b64 raw).
Proof. unfold encode_raw. solve_errs. Qed.
#[export] Instance capture_obscured_errs png b64 (request : TargetRequest) :
  Errs brief_failure (capture_obscured (W:=W) png b64 request).
Proof. unfold capture_obscured. solve_errs. Qed.
#[export] Instance capture_region_errs png b64 (request : CaptureRegionRequest) :
  Errs brief_failure (capture_region (W:=W) png b64 request).
Proof. unfold capture_region. solve_errs. Qed.

(** *** TextTransfer *)
#[export] Instance create_transfer_owner_errs : Errs brief_failure (create_transfer_owner (W:=W)).
Proof. unfold create_transfer_owner. solve_errs. Qed.
#[export] Instance claim_transfer_selection_errs (owner : Z) :
  Errs brief_failure (claim_transfer_selection (W:=W) owner).
Proof. unfold claim_transfer_selection. solve_errs. Qed.
#[export] Instance require_xres_client_identity_errs (window : Z) :
  Errs brief_failure (require_xres_client_identity (W:=W) window).
Proof. unfold require_xres_client_identity. solve_errs. Qed.
#[export] Instance same_x_client_errs (target requestor : Z) :
  Errs brief_failure (same_x_client (W:=W) target requestor).
Proof. unfold same_x_client. solve_errs. Qed.
#[export] Instance publish_targets_errs (request : SelectionRequestEvent) (property : Z) :
  Errs brief_failure (publish_targets (W:=W) request property).
Proof. unfold publish_targets. solve_errs. Qed.
#[export] Instance deliver_text_errs (request : SelectionRequestEvent) (property : Z) (text : bytes) :
  Errs brief_failure (deliver_text (W:=W) request property text).
Proof. unfold deliver_text. solve_errs. Qed.
#[export] Instance serve_request_errs (request : SelectionRequestEvent) (text : bytes) :
  Errs brief_failure (serve_request (W:=W) request text).
Proof. unfold serve_request. solve_errs. Qed.
#[export] Instance handle_selection_request_errs (request : SelectionRequestEvent) (owner : Z)
  (target_request : TargetRequest) (text : bytes) (permit : SeatPermit) :
  Errs brief_failure (handle_selection_request (W:=W) request owner target_request text permit).
Proof. unfold handle_selection_request. solve_errs. Qed.
#[export] Instance transfer_evidence_is_current_errs (owner : Z) (target_request : TargetRequest)
  (permit : SeatPermit) :
  Errs brief_failure (transfer_evidence_is_current (W:=W) owner target_request permit).
Proof. unfold transfer_evidence_is_current. solve_errs. Qed.
#[export] Instance serve_selection_errs owner request text permit (event : SelectionRequestEvent)
  (n : nat) (waiting : Waiting) :
  Errs brief_failure (serve_selection (W:=W) owner request text permit event n waiting).
Proof. unfold serve_selection. solve_errs. Qed.
#[export] Instance drain_events_errs owner request text permit (budget : nat) (waiting : Waiting) :
  Errs brief_failure (drain_events (W:=W) owner request text permit budget waiting).
Proof. revert waiting. induction budget; intros; cbn [drain_events]; solve_errs. Qed.
#[export] Instance transfer_loop_errs owner request text count permit (fuel : nat) (deadline : Z)
  (waiting : Waiting) :
  Errs brief_failure (transfer_loop (W:=W) owner request text count permit fuel deadline waiting).
Proof. revert deadline waiting. induction fuel; intros; cbn [transfer_loop]; solve_errs. Qed.
#[export] Instance wait_for_transfer_errs owner request text count permit (fuel : nat) :
  Errs brief_failure (wait_for_transfer (W:=W) owner request text count permit fuel).
Proof. unfold wait_for_transfer. solve_errs. Qed.
#[export] Instance release_transfer_owner_errs (owner : Z) :
  Errs brief_failure (release_transfer_owner (W:=W) owner).
Proof. unfold release_transfer_owner. solve_errs. Qed.
#[export] Instance offer_errs (request : TargetRequest) (owner : Z) (permit : SeatPermit) :
  Errs brief_failure (offer (W:=W) request owner permit).
Proof. unfold offer. solve_errs. Qed.
#[export] Instance text_insert_errs (fuel : nat) (request : TextInsertRequest) (permit : SeatPermit) :
  Errs brief_failure (text_insert (W:=W) fuel request permit).
Proof.
  unfold text_insert. cbv zeta. apply bind_errs; [solve_errs|intros bytes].
  apply bind_errs; [apply _|intros owner]. apply bind_attempt_errs; [solve_errs|intros offered..].
  - apply bind_result_errs; [solve_errs| |solve_errs..].
    intros s e s'. destruct offered; [apply attempt_yields, _|done].
  - intros He. apply bind_result_errs; [solve_errs| |solve_errs..]. by intros s e s' [= <- <-].
Qed.
End observer.

(** *** Launching *)

Section launching.
Context {W : Type} `{Files W} `{Processes W}.

#[export] Instance absolute_path_errs value variable :
  ErrsR brief_launch (absolute_path value variable).
Proof. unfold absolute_path. solve_errs. Qed.
#[export] Instance system_roots_errs values roots : ErrsR brief_launch (system_roots values roots).
Proof. revert roots. induction values; intros; cbn [system_roots]; solve_errs. Qed.
#[export] Instance data_roots_errs env : ErrsR brief_launch (data_roots env).
Proof. unfold data_roots. solve_errs. Qed.
#[export] Instance current_desktops_errs env : ErrsR brief_launch (current_desktops env).
Proof. unfold current_desktops. solve_errs. Qed.
#[export] Instance leads_to_file_errs path m : Errs brief_launch (leads_to_file (W:=W) path m).
Proof. unfold leads_to_file. solve_errs. Qed.
#[export] Instance visit_errs directory relative depth name self :
  Errs brief_launch (visit (W:=W) directory relative depth name self).
Proof. unfold visit. solve_errs. Qed.
#[export] Instance visit_all_errs directory relative depth names self :
  Errs brief_launch (visit_all (W:=W) directory relative depth names self).
Proof. revert self. induction names; intros; cbn [visit_all]; solve_errs. Qed.
#[export] Instance walk_errs fuel self : Errs brief_launch (walk (W:=W) fuel self).
Proof. revert self. induction fuel; intros; cbn [walk]; solve_errs. Qed.
#[export] Instance desktop_paths_errs root : Errs brief_launch (desktop_paths (W:=W) root).
Proof. unfold desktop_paths. solve_errs. Qed.
#[export] Instance discover_path_errs env user_entry desktops path relative self :
  Errs brief_launch (discover_path (W:=W) env user_entry desktops path relative self).
Proof. unfold discover_path. solve_errs. Qed.
#[export] Instance discover_paths_errs env user_entry desktops paths self :
  Errs brief_launch (discover_paths (W:=W) env user_entry desktops paths self).
Proof. revert self. induction paths as [|[]]; intros; cbn [discover_paths]; solve_errs. Qed.
#[export] Instance discover_roots_errs env desktops roots self :
  Errs brief_launch (discover_roots (W:=W) env desktops roots self).
Proof. revert self. induction roots; intros; cbn [discover_roots]; solve_errs. Qed.
#[export] Instance discover_all_errs env : Errs brief_launch (discover_all (W:=W) env).
Proof. unfold discover_all. solve_errs. Qed.
#[export] Instance discover_errs env policy : Errs brief_launch (discover (W:=W) env policy).
Proof. unfold discover. solve_errs. Qed.
#[export] Instance page_errs catalog cursor limit : ErrsR brief_launch (page catalog cursor limit).
Proof.
  unfold page. case_match; [by apply Err_errs|]. apply and_then_errs; [|solve_errs].
  case_match; [|apply _]. intros e. unfold ok_or. by destruct (checked_u32 _); intros [= <-].
Qed.
#[export] Instance SessionCatalog_list_errs env request policy :
  Errs brief_launch (SessionCatalog_list (W:=W) env request policy).
Proof. unfold SessionCatalog_list. solve_errs. Qed.
#[export] Instance delegate_environment_errs env names environment_bytes command :
  ErrsR brief_launch (delegate_environment env names environment_bytes command).
Proof.
  revert environment_bytes command.
  induction names; intros; cbn [delegate_environment]; solve_errs.
Qed.
#[export] Instance reap_from_errs rounds index children :
  Errs brief_launch (reap_from (W:=W) rounds index children).
Proof. revert index children. induction rounds; intros; cbn [reap_from]; solve_errs. Qed.
#[export] Instance reap_errs : Errs brief_launch (reap (W:=W)).
Proof. unfold reap, reap_children, Launch.in_world. solve_errs. Qed.
#[export] Instance delegated_command_errs env entry startup_id unit_stem numeric :
  Errs brief_launch (delegated_command (W:=W) env entry startup_id unit_stem numeric).
Proof. unfold delegated_command. solve_errs. Qed.
#[export] Instance take_token_errs : Errs brief_launch (take_token (W:=W)).
Proof. unfold take_token. solve_errs. Qed.
#[export] Instance launch_errs env pid application policy :
  Errs brief_launch (launch (W:=W) env pid application policy).
Proof. unfold launch, Launch.in_world. solve_errs. Qed.
End launching.
