(* ===== verification/Replies.v ===== *)
(** * The replies of the operations pass the checks of the protocol

    [Keeps I m]: [m] keeps the invariant [I] of its state, whether it succeeds or not. *)

From S2P Require Import Prelude Text Bounded Protocol Message MessageSpec Base64 Effects SeatGate.
From S2P Require Import X11 Scan Observer Manager InputServer Keyboard Input Capture TextTransfer.
From S2P Require Import ObserverSpec ManagerTheorems CaptureTheorems.

Class Keeps {S E A} (I : S → Prop) (m : M S E A) : Prop := keeps : ∀ s, I s → I (m s).2.

Section keeps.
Context {S E : Type} (I : S → Prop).

#[export] Instance ret_keeps {A} (a : A) : Keeps (E:=E) I (ret a).
Proof. by intros s. Qed.
#[export] Instance fail_keeps {A} (e : E) : Keeps (A:=A) I (fail e).
Proof. by intros s. Qed.
#[export] Instance lift_keeps {A} (r : result A E) : Keeps I (lift r).
Proof. by intros s. Qed.
#[export] Instance gets_keeps {A} (f : S → A) : Keeps (E:=E) I (gets f).
Proof. by intros s. Qed.
#[export] Instance attempt_keeps {F A} (m : M S E A) : Keeps I m → Keeps (E:=F) I (attempt m).
Proof. intros Hm s Hs. unfold attempt. specialize (Hm s Hs). by destruct (m s). Qed.
#[export] Instance map_error_keeps {F A} (f : F → E) (m : M S F A) :
  Keeps I m → Keeps I (map_error f m).
Proof. intros Hm s Hs. unfold map_error. specialize (Hm s Hs). by destruct (m s). Qed.
Lemma bind_keeps {A B} (m : M S E A) (k : A → M S E B) :
  Keeps I m → (∀ a, Keeps I (k a)) → Keeps I (bind m k).
Proof.
  intros Hm Hk s Hs. unfold bind. specialize (Hm s Hs).
  destruct (m s) as [[a|e] s']; [by apply Hk|done].
Qed.
Lemma for_each_keeps {A} (f : A → M S E unit) l :
  (∀ a, Keeps I (f a)) → Keeps I (for_each f l).
Proof. intros Hf. induction l; cbn [for_each]; [apply _|by apply bind_keeps]. Qed.
End keeps.

Lemma wp_keeps {S E A} (m : M S E A) Q R (I : S → Prop) s :
  (I s → wp m Q R s) → (∀ a s, Q a s → I s) → (∀ e s, R e s → I s) → I s → I (m s).2.
Proof.
  intros Hm HQ HR Hs. specialize (Hm Hs). unfold wp in Hm.
  destruct (m s) as [[]]; eauto.
Qed.

(** The other direction, to add the invariant to a postcondition. *)
Lemma keeps_wp {S E A} (m : M S E A) Q R (I : S → Prop) s :
  Keeps I m → I s → wp m Q R s → wp m (λ a s, Q a s ∧ I s) (λ e s, R e s ∧ I s) s.
Proof. intros Hm Hs. specialize (Hm s Hs). unfold wp. destruct (m s) as [[]]; auto. Qed.

Ltac keeps_lemma := fail.
Ltac solve_keeps :=
  repeat first
    [ progress intros
    | progress cbv beta iota zeta
    | match goal with |- Keeps _ (match ?x with _ => _ end) => destruct x end
    | solve [apply _]
    | lazymatch goal with
      | |- Keeps _ (bind _ _) => apply bind_keeps
      | |- Keeps _ (for_each _ _) => apply for_each_keeps
      | |- Keeps _ (attempt _) => apply attempt_keeps
      | _ => keeps_lemma
      end ].

(** ** The invariant of the observer *)

Section observer.
Context {W : Type} `{XServerLaws W, !XInput W, !SharedSeat W, !XIdentities W, !XImages W, !XSelections W}.

#[export] Instance x11_keeps {E A} (m : M W E A) : Keeps inv_after (x11 m).
Proof. intros s Hs. unfold x11, zoom. by destruct (m (snd s)). Qed.
#[export] Instance get_keeps {E A} (f : Observer → A) : Keeps (E:=E) (inv_after (W:=W)) (get f).
Proof. apply gets_keeps. Qed.
#[export] Instance or_unavailable_keeps {A} request reply (m : M W XError A) :
  Keeps inv_after (or_unavailable request reply m).
Proof. apply x11_keeps. Qed.
#[export] Instance accepts_keeps permit : Keeps inv_after (Input.accepts (W:=W) permit).
Proof. unfold Input.accepts. solve_keeps. Qed.
#[export] Instance under_server_grab_keeps {A} (action : M (Observer * W) X11.Failure A) :
  Keeps inv_after action → Keeps inv_after (under_server_grab action).
Proof. intros. unfold under_server_grab. solve_keeps. Qed.
#[export] Instance if_accepted_keeps permit (action : M (Observer * W) X11.Failure unit) :
  Keeps inv_after action → Keeps inv_after (if_accepted permit action).
Proof. intros. unfold if_accepted. solve_keeps. Qed.

End observer.

Ltac keeps_lemma ::=
  lazymatch goal with
  | |- Keeps _ (under_server_grab _) => apply under_server_grab_keeps
  | |- Keeps _ (if_accepted _ _) => apply if_accepted_keeps
  end.

Section operations.
Context {W : Type} `{XServerLaws W, !XInput W, !SharedSeat W, !XIdentities W, !XImages W, !XSelections W}.

#[export] Instance refresh_keeps : Keeps (inv_after (W:=W)) refresh.
Proof.
  intros s Hs. apply (wp_keeps refresh (λ _, refreshed s) (λ _, interrupted s)); [|..|done].
  - apply refresh_post.
  - intros _ s1. by apply refreshed_inv.
  - by intros _ s1 [_ Hs1].
Qed.


(** *** Input *)
#[export] Instance fake_input_keeps event_type detail root_x root_y :
  Keeps inv_after (fake_input (W:=W) event_type detail root_x root_y).
Proof. unfold fake_input. solve_keeps. Qed.
#[export] Instance best_effort_release_keeps event_type detail :
  Keeps inv_after (best_effort_release (W:=W) event_type detail).
Proof. unfold best_effort_release. solve_keeps. Qed.
#[export] Instance release_keys_keeps keycodes : Keeps inv_after (release_keys (W:=W) keycodes).
Proof. unfold release_keys. solve_keeps. Qed.
#[export] Instance press_modifiers_keeps pressed modifiers :
  Keeps inv_after (press_modifiers (W:=W) pressed modifiers).
Proof. revert pressed. induction modifiers; intros; cbn [press_modifiers]; solve_keeps. Qed.
#[export] Instance release_modifiers_keeps popped :
  Keeps inv_after (release_modifiers (W:=W) popped).
Proof. induction popped; intros; cbn [release_modifiers]; solve_keeps. Qed.
#[export] Instance type_key_keeps stroke : Keeps inv_after (type_key (W:=W) stroke).
Proof. unfold type_key. solve_keeps. Qed.
#[export] Instance click_button_keeps button root_x root_y :
  Keeps inv_after (click_button (W:=W) button root_x root_y).
Proof. unfold click_button. solve_keeps. Qed.
#[export] Instance tree_keeps message window : Keeps inv_after (tree (W:=W) message window).
Proof. unfold tree. solve_keeps. Qed.
#[export] Instance focus_ancestry_keeps n target window :
  Keeps inv_after (focus_ancestry (W:=W) n target window).
Proof. revert target window. induction n; intros; cbn [focus_ancestry]; solve_keeps. Qed.
#[export] Instance require_focus_owned_by_keeps target :
  Keeps inv_after (require_focus_owned_by (W:=W) target).
Proof. unfold require_focus_owned_by. solve_keeps. Qed.
#[export] Instance frame_ancestry_keeps n candidate window :
  Keeps inv_after (frame_ancestry (W:=W) n candidate window).
Proof. revert candidate window. induction n; intros; cbn [frame_ancestry]; solve_keeps. Qed.
#[export] Instance is_target_or_reparenting_frame_keeps candidate target :
  Keeps inv_after (is_target_or_reparenting_frame (W:=W) candidate target).
Proof. unfold is_target_or_reparenting_frame. solve_keeps. Qed.
#[export] Instance hit_test_keeps children root_x root_y :
  Keeps inv_after (hit_test (W:=W) children root_x root_y).
Proof. revert root_x root_y. induction children; intros; cbn [hit_test]; solve_keeps. Qed.
#[export] Instance require_point_owned_by_keeps target root_x root_y :
  Keeps inv_after (require_point_owned_by (W:=W) target root_x root_y).
Proof. unfold require_point_owned_by. solve_keeps. Qed.
#[export] Instance observed_target_keeps request :
  Keeps inv_after (observed_target (W:=W) request).
Proof. unfold observed_target. solve_keeps. Qed.
#[export] Instance pointer_destination_keeps request x y :
  Keeps inv_after (pointer_destination (W:=W) request x y).
Proof. unfold pointer_destination. solve_keeps. Qed.
#[export] Instance reply_for_keeps permit sent : Keeps inv_after (reply_for (W:=W) permit sent).
Proof. unfold reply_for. solve_keeps. Qed.
#[export] Instance pointer_move_keeps request permit :
  Keeps inv_after (pointer_move (W:=W) request permit).
Proof. unfold pointer_move. solve_keeps. Qed.
#[export] Instance pointer_click_keeps request permit :
  Keeps inv_after (pointer_click (W:=W) request permit).
Proof. unfold pointer_click. solve_keeps. Qed.
#[export] Instance focused_target_keeps request : Keeps inv_after (focused_target (W:=W) request).
Proof. unfold focused_target. solve_keeps. Qed.
#[export] Instance type_character_keeps request permit character position :
  Keeps inv_after (type_character (W:=W) request permit character position).
Proof. unfold type_character. solve_keeps. Qed.
#[export] Instance type_characters_keeps request permit completed characters :
  Keeps inv_after (type_characters (W:=W) request permit completed characters).
Proof. revert request permit completed. induction characters; intros; cbn [type_characters]; solve_keeps. Qed.
#[export] Instance keyboard_text_keeps request text permit :
  Keeps inv_after (keyboard_text (W:=W) request text permit).
Proof. unfold keyboard_text. solve_keeps. Qed.
#[export] Instance keyboard_type_keeps request permit :
  Keeps inv_after (keyboard_type (W:=W) request permit).
Proof. unfold keyboard_type. solve_keeps. Qed.
#[export] Instance keyboard_write_keeps request permit :
  Keeps inv_after (keyboard_write (W:=W) request permit).
Proof. unfold keyboard_write. solve_keeps. Qed.
#[export] Instance keyboard_key_keeps request permit :
  Keeps inv_after (keyboard_key (W:=W) request permit).
Proof. unfold keyboard_key. solve_keeps. Qed.

(** *** Capture *)
#[export] Instance read_named_pixmap_keeps pixmap visual region :
  Keeps inv_after (read_named_pixmap (W:=W) pixmap visual region).
Proof. unfold read_named_pixmap. solve_keeps. Qed.
#[export] Instance read_redirected_pixmap_keeps window visual region :
  Keeps inv_after (read_redirected_pixmap (W:=W) window visual region).
Proof. unfold read_redirected_pixmap. solve_keeps. Qed.
#[export] Instance read_target_pixels_keeps request region :
  Keeps inv_after (read_target_pixels (W:=W) request region).
Proof. unfold read_target_pixels. solve_keeps. Qed.
#[export] Instance capture_obscured_keeps png b64 request :
  Keeps inv_after (capture_obscured (W:=W) png b64 request).
Proof. unfold capture_obscured. solve_keeps. Qed.
#[export] Instance capture_region_keeps png b64 request :
  Keeps inv_after (capture_region (W:=W) png b64 request).
Proof. unfold capture_region. solve_keeps. Qed.

(** *** TextTransfer *)
#[export] Instance create_transfer_owner_keeps : Keeps inv_after (create_transfer_owner (W:=W) ).
Proof. unfold create_transfer_owner. solve_keeps. Qed.
#[export] Instance clipboard_owner_keeps message :
  Keeps inv_after (clipboard_owner (W:=W) message).
Proof. unfold clipboard_owner. solve_keeps. Qed.
#[export] Instance claim_transfer_selection_keeps owner :
  Keeps inv_after (claim_transfer_selection (W:=W) owner).
Proof. unfold claim_transfer_selection. solve_keeps. Qed.
#[export] Instance require_xres_client_identity_keeps window :
  Keeps inv_after (require_xres_client_identity (W:=W) window).
Proof. unfold require_xres_client_identity. solve_keeps. Qed.
#[export] Instance same_x_client_keeps target requestor :
  Keeps inv_after (same_x_client (W:=W) target requestor).
Proof. unfold same_x_client. solve_keeps. Qed.
#[export] Instance notify_selection_keeps request property :
  Keeps inv_after (notify_selection (W:=W) request property).
Proof. unfold notify_selection. solve_keeps. Qed.
#[export] Instance refuse_keeps request message :
  Keeps inv_after (TextTransfer.refuse (W:=W) request message).
Proof. unfold TextTransfer.refuse. solve_keeps. Qed.
#[export] Instance publish_targets_keeps request property :
  Keeps inv_after (publish_targets (W:=W) request property).
Proof. unfold publish_targets. solve_keeps. Qed.
#[export] Instance deliver_text_keeps request property text :
  Keeps inv_after (deliver_text (W:=W) request property text).
Proof. unfold deliver_text. solve_keeps. Qed.
#[export] Instance serve_request_keeps request text :
  Keeps inv_after (serve_request (W:=W) request text).
Proof. unfold serve_request. solve_keeps. Qed.
#[export] Instance handle_selection_request_keeps request owner target_request text permit :
  Keeps inv_after (handle_selection_request (W:=W) request owner target_request text permit).
Proof. unfold handle_selection_request. solve_keeps. Qed.
#[export] Instance transfer_evidence_is_current_keeps owner target_request permit :
  Keeps inv_after (transfer_evidence_is_current (W:=W) owner target_request permit).
Proof. unfold transfer_evidence_is_current. solve_keeps. Qed.
#[export] Instance serve_selection_keeps owner target text permit event n waiting :
  Keeps inv_after (serve_selection (W:=W) owner target text permit event n waiting).
Proof. unfold serve_selection. solve_keeps. Qed.
#[export] Instance drain_events_keeps owner target text permit budget waiting :
  Keeps inv_after (drain_events (W:=W) owner target text permit budget waiting).
Proof. revert waiting. induction budget; intros; cbn [drain_events]; solve_keeps. Qed.
#[export] Instance transfer_loop_keeps owner target text count permit fuel deadline waiting :
  Keeps inv_after (transfer_loop (W:=W) owner target text count permit fuel deadline waiting).
Proof. revert deadline waiting. induction fuel; intros; cbn [transfer_loop]; solve_keeps. Qed.
#[export] Instance wait_for_transfer_keeps owner target text count permit fuel :
  Keeps inv_after (wait_for_transfer (W:=W) owner target text count permit fuel).
Proof. unfold wait_for_transfer. solve_keeps. Qed.
#[export] Instance release_transfer_owner_keeps owner :
  Keeps inv_after (release_transfer_owner (W:=W) owner).
Proof. unfold release_transfer_owner. solve_keeps. Qed.
#[export] Instance offer_keeps request owner permit :
  Keeps inv_after (offer (W:=W) request owner permit).
Proof. unfold offer. solve_keeps. Qed.
#[export] Instance text_insert_keeps fuel request permit :
  Keeps inv_after (text_insert (W:=W) fuel request permit).
Proof. unfold text_insert. solve_keeps. Qed.
End operations.

(** ** Replies

    [answers_with ok m]: from a sound observer [m] leaves a sound observer, and a value it
    returns satisfies [ok]. *)

Definition answers_with {W A} (ok : A → Prop) (m : M (Observer * W) X11.Failure A) : Prop :=
  ∀ s, inv_after s → wp m (λ a s', ok a ∧ inv_after s') (λ _ s', inv_after s') s.

Definition valid {A} `{Validate A} (a : A) : Prop := validate a = Ok tt.

(** A Rust string is valid UTF-8. *)
Definition text_ok (s : str) : Prop := s ≠ [] ∧ utf8_valid s = true.

Lemma chars_nonempty s : text_ok s → 0 < len (chars s).
Proof.
  intros [Hne Hv]. unfold utf8_valid in Hv. unfold chars.
  destruct (utf8_decode s) as [[|c cs]|] eqn:Hd; [|cbn; rewrite len_cons; pose proof (len_nonneg cs); lia|done].
  destruct s as [|b0 s1]; [done|]. cbn in Hd. repeat (case_match; try done).
  all: by match goal with H : _ <$> ?o = Some [] |- _ => destruct o end.
Qed.

Lemma text_content_ok text maximum errors :
  validate_text_content text maximum errors = Ok tt → utf8_valid text = true → text_ok text.
Proof.
  unfold validate_text_content. destruct (is_empty text) eqn:He; [done|].
  by apply is_empty_false in He.
Qed.

Lemma answers_result {W A} (ok : A → Prop) (m : M (Observer * W) X11.Failure A) :
  Keeps inv_after m → (∀ s, wp m (λ a _, ok a) (λ _ _, True) s) → answers_with ok m.
Proof.
  intros Hm Hok s Hs. wp_call (keeps_wp m (λ a _, ok a) (λ _ _, True)); [done..|auto| |].
  - done.
  - by intros e s' [_ ?].
Qed.

Section replies.
Context {W : Type} `{XServerLaws W, !XInput W, !SharedSeat W, !XIdentities W, !XImages W, !XSelections W}.
Notation St := (Observer * W)%type.

(** *** Observation and management *)

Lemma snapshot_answers : answers_with valid (snapshot (W:=W)).
Proof.
  intros s Hs. wp_call snapshot_post; [done| |done]. intros d s' (Hd & Hs' & _).
  split; [by apply DesktopSnapshot_validate_iff|done].
Qed.
Lemma subscribe_answers kinds : answers_with valid (subscribe (W:=W) kinds).
Proof. intros s Hs. wp_call subscribe_post; [done| |done]. by intros r s' [Hs' _]. Qed.
Lemma poll_answers fuel after limit wait_ms :
  answers_with (opt valid) (poll (W:=W) fuel after limit wait_ms).
Proof.
  intros s Hs. wp_call poll_post; [done| |by intros e s' [? _]]. intros r s' (Hs' & _ & Hr). split; [|done].
  intros batch ->. apply check_sequences_iff. by apply Hr.
Qed.
Lemma manage_answers fuel operation : answers_with (opt valid) (manage (W:=W) fuel operation).
Proof. intros s Hs. wp_call manage_post; [done| |done]. by intros r s' [Hs' _]. Qed.
Lemma launch_baseline_answers : answers_with (λ _, True) (launch_baseline (W:=W)).
Proof. intros s Hs. wp_call launch_baseline_post; [done| |done]. done. Qed.
Lemma correlate_launch_answers fuel baseline startup_id wait :
  answers_with (λ _, True) (correlate_launch (W:=W) fuel baseline startup_id wait).
Proof. intros s Hs. wp_call correlate_launch_post; [done| |done]. done. Qed.

(** *** Input *)

Lemma action_reply_valid sent enabled : valid (action_reply sent enabled).
Proof. by destruct sent, enabled. Qed.

Lemma action_answers permit (m : M St X11.Failure bool) :
  Keeps inv_after m → answers_with valid (let! sent := m in reply_for permit sent).
Proof.
  intros Hm. apply answers_result; [solve_keeps|]. intros s. wp_step.
  wp_call wp_true; [|done]. intros sent s' _. unfold reply_for. wp_step. wp_call wp_true; [|done].
  intros enabled s1 _. wp_step. apply action_reply_valid.
Qed.

Lemma pointer_move_answers request permit : answers_with valid (pointer_move (W:=W) request permit).
Proof. apply action_answers. solve_keeps. Qed.
Lemma pointer_click_answers request permit : answers_with valid (pointer_click (W:=W) request permit).
Proof. apply action_answers. solve_keeps. Qed.
Lemma keyboard_key_answers request permit : answers_with valid (keyboard_key (W:=W) request permit).
Proof. apply action_answers. solve_keeps. Qed.

Lemma type_characters_counts request permit completed characters (s : St) :
  wp (type_characters request permit completed characters)
    (λ n _, completed ≤ n ≤ completed + len characters) (λ _ _, True) s.
Proof.
  revert completed s. induction characters as [|c cs IH]; intros completed s; cbn [type_characters].
  { apply wp_ret. unfold len. cbn. lia. }
  rewrite len_cons. pose proof (len_nonneg cs) as Hcs. wp_step. apply wp_lift; [|done].
  intros next Hnext. assert (next = completed + 1) as ->.
  { unfold ok_or, checked_u16 in Hnext. destruct (checked_in _ _ _) eqn:Hc; [|done].
    apply checked_in_Some in Hc as [-> _]. congruence. }
  wp_step. wp_step. eapply wp_mono with (Q := λ _ _, True) (R := λ _ _, True); [apply wp_true|..].
  - intros [] s' _; [|wp_step; cbv beta; lia]. wp_step. rewrite Hnext. apply wp_lift; [|done]. intros ? [= <-].
    wp_step. wp_call wp_true; [|done]. intros enabled s1 _. wp_step; [wp_step; cbv beta; lia|].
    eapply wp_mono; [apply IH| |done]. intros n s2 ?. cbn in *. lia.
  - intros e s' _. wp_step; [by wp_step|wp_step; cbv beta; lia].
Qed.

Lemma keyboard_text_answers request text permit :
  text_ok text → answers_with valid (keyboard_text (W:=W) request text permit).
Proof.
  intros Htext%chars_nonempty. apply answers_result; [apply _|]. intros s. unfold keyboard_text.
  wp_step. apply wp_lift; [|done]. intros requested Hr.
  assert (requested = len (chars text)) as ->.
  { unfold ok_or, checked_u16 in Hr. destruct (checked_in _ _ _) eqn:Hc; [|done].
    apply checked_in_Some in Hc as [-> _]. congruence. }
  wp_step. wp_call wp_true; [|done]. intros [] s1 _. wp_step. wp_call type_characters_counts; [|done].
  intros completed s2 Hc. cbv beta in Hc. wp_step.
  eapply wp_mono with (Q := λ b _, b = true → completed = len (chars text)) (R := λ _ _, True).
  { wp_step; [|by wp_step]. bool_props. wp_call wp_true; [|done]. by intros. }
  2: done.
  intros complete s3 Hcomplete. wp_step. apply InputReply_validate_iff. unfold InputReply_wf. cbn.
  destruct complete; [specialize (Hcomplete eq_refl)|]; split_and!; try lia; try done.
Qed.

Lemma keyboard_type_answers request permit :
  valid request → utf8_valid (as_str (KeyboardTypeRequest_text request)) = true →
  answers_with valid (keyboard_type (W:=W) request permit).
Proof.
  intros Hv Hutf. apply keyboard_text_answers. eapply text_content_ok; [exact Hv|exact Hutf].
Qed.
Lemma keyboard_write_answers request permit :
  valid request → utf8_valid (as_str (KeyboardWriteRequest_text request)) = true →
  answers_with valid (keyboard_write (W:=W) request permit).
Proof.
  intros Hv Hutf. apply keyboard_text_answers. eapply text_content_ok; [exact Hv|exact Hutf].
Qed.

(** *** Text transfer *)

Section transfer.
Context (owner : Z) (request : TextInsertRequest) (permit : SeatPermit).
Context (Hvalid : valid request).

Lemma requested_bounds :
  0 < len (as_str (TextInsertRequest_text request)) ≤ MAX_TEXT_TRANSFER_BYTES.
Proof.
  pose proof (as_str_le (TextInsertRequest_text request)). split; [|done].
  unfold valid, validate, TextInsertRequest_Validate, TextInsertRequest_validate in Hvalid.
  cbn in Hvalid. unfold validate_text_content in Hvalid.
  destruct (is_empty _) eqn:He; [done|]. apply is_empty_false in He.
  destruct (as_str (TextInsertRequest_text request)) as [|b l]; [done|].
  rewrite len_cons. pose proof (len_nonneg l). lia.
Qed.

Lemma transfer_valid delivered terminal :
  delivered = match terminal with
              | TextTransferTerminal_Delivered => len (as_str (TextInsertRequest_text request))
              | _ => 0
              end →
  valid {| TextTransferReply_target := TextInsertRequest_target request;
           TextTransferReply_requested_bytes := len (as_str (TextInsertRequest_text request));
           TextTransferReply_delivered_bytes := delivered;
           TextTransferReply_terminal := terminal |}.
Proof.
  intros ->. pose proof requested_bounds. apply TextTransferReply_validate_iff.
  unfold TextTransferReply_wf. cbn. by destruct terminal; cbn; split_and!; try lia; try done.
Qed.

Lemma transfer_loop_valid fuel deadline waiting (s : St) :
  wp (transfer_loop owner (TextInsertRequest_target request) (as_str (TextInsertRequest_text request))
        (len (as_str (TextInsertRequest_text request))) permit fuel deadline waiting)
    (λ r _, opt valid r) (λ _ _, True) s.
Proof.
  revert waiting s. induction fuel as [|fuel IH]; intros waiting s; cbn [transfer_loop].
  { by apply wp_ret. }
  assert (∀ (s : St), wp (ret (Some (TextTransfer.interrupted (TextInsertRequest_target request)
                   (len (as_str (TextInsertRequest_text request))))) : M St X11.Failure _)
            (λ r _, opt valid r) (λ _ _, True) s) as Hint.
  { intros s0. wp_step. intros r [= <-]. by apply transfer_valid. }
  wp_step. wp_call wp_true; [|done]. intros [waiting1|] s1 _; [|apply Hint].
  wp_step. wp_call wp_true; [|done]. intros current s2 _. destruct (negb current); [apply Hint|].
  wp_step. wp_call wp_true; [|done]. intros now s3 _.
  destruct (settle _ _ _ _ _) as [reply|] eqn:Hsettle.
  - wp_step. intros r [= <-]. unfold settle in Hsettle.
    repeat (case_match; simplify_eq/=); by apply transfer_valid.
  - wp_step. wp_call wp_true; [|done]. intros [] s4 _. apply IH.
Qed.
End transfer.

Lemma text_insert_answers fuel request permit :
  valid request → answers_with (opt valid) (text_insert (W:=W) fuel request permit).
Proof.
  intros Hvalid. apply answers_result; [apply _|]. intros s. unfold text_insert. cbv zeta.
  wp_step. apply wp_lift; [|done]. intros requested Hr.
  assert (requested = len (as_str (TextInsertRequest_text request))) as ->.
  { unfold ok_or, checked_u32 in Hr. destruct (checked_in _ _ _) eqn:Hc; [|done].
    apply checked_in_Some in Hc as [-> _]. congruence. }
  wp_step. wp_call wp_true; [|done]. intros owner s1 _. do 2 wp_step.
  assert (∀ offered s2, wp
    (let! result :=
       match offered with
       | Ok true => attempt (wait_for_transfer owner (TextInsertRequest_target request)
                     (as_str (TextInsertRequest_text request))
                     (len (as_str (TextInsertRequest_text request))) permit fuel)
       | Ok false => ret (Ok (Some (transfer_reply (TextInsertRequest_target request)
                       (len (as_str (TextInsertRequest_text request)))
                       TextTransferTerminal_Interrupted)))
       | Err error => ret (Err error)
       end in
     let! cleanup := attempt (release_transfer_owner owner) in
     match result, cleanup with
     | Ok reply, Ok _ => ret reply
     | Err error, _ | Ok _, Err error => fail error
     end) (λ r _, opt valid r) (λ _ _, True) s2) as Hrest.
  { intros offered s2. wp_step.
    eapply wp_mono with (Q := λ r _, ∀ reply, r = Ok reply → opt valid reply) (R := λ _ _, True).
    - destruct offered as [[]|e].
      + apply wp_attempt. unfold wait_for_transfer. wp_step. wp_call wp_true.
        * intros t s3 _. wp_call transfer_loop_valid; [done| |done]. by intros r s4 Hr4 ? [= <-].
        * done.
      + wp_step. intros reply [= <-] r [= <-]. by apply transfer_valid.
      + by wp_step.
    - intros r s3 Hreply. wp_step. wp_step. eapply wp_mono with (R := λ _ _, True); [apply wp_true|..].
      + intros [] s4 _. destruct r; wp_step; [by apply Hreply|done].
      + intros e s4 _. by destruct r; wp_step.
    - done. }
  eapply wp_mono with (R := λ _ _, True); [apply wp_true|..].
  - intros offered s2 _. exact (Hrest (Ok offered) s2).
  - intros e s2 _. exact (Hrest (Err e) s2).
Qed.

(** *** Capture *)

Section capture.
Context (png_encode : Z → Z → bytes → result bytes PngStep) (BASE64_encode : bytes → str).
Hypothesis png_signature : ∀ width height rgb png,
  png_encode width height rgb = Ok png → starts_png png ∧ Forall is_u8 png.
Hypothesis base64_standard : ∀ p, Forall is_u8 p → BASE64_encode p = base64_encode p.

Lemma capture_obscured_answers request :
  answers_with valid (capture_obscured (W:=W) png_encode BASE64_encode request).
Proof.
  apply answers_result; [apply _|]. intros s. unfold wp.
  destruct (capture_obscured _ _ _ s) as [[reply|e] s'] eqn:Hrun; [|done].
  by apply (obscured_reply _ _ png_signature base64_standard) in Hrun as [? _].
Qed.
Lemma capture_region_answers request :
  valid request → answers_with valid (capture_region (W:=W) png_encode BASE64_encode request).
Proof.
  intros Hv. apply answers_result; [apply _|]. intros s. unfold wp.
  destruct (capture_region _ _ _ s) as [[reply|e] s'] eqn:Hrun; [|done].
  apply (region_reply _ _ png_signature base64_standard) in Hrun as [Hr _]. by apply Hr.
Qed.
End capture.
End replies.

Create HintDb answers.
#[export] Hint Resolve snapshot_answers subscribe_answers poll_answers manage_answers
  launch_baseline_answers correlate_launch_answers pointer_move_answers pointer_click_answers
  keyboard_key_answers keyboard_type_answers keyboard_write_answers text_insert_answers
  capture_obscured_answers capture_region_answers : answers.
