(* ===== verification/Session.v ===== *)
(** * [agent-seat-x11/src/session.rs]: one authenticated session

    The handshake, the loop over requests, and the dispatch of a request to the observer,
    the catalog and the launcher.  The connection is a component of its own, behind
    [Channel]; what sessions share (the launch supervisor, the slot of the private
    companion, the stop flag, the seat word) belongs to the world. *)

From S2P Require Import Prelude Text Bounded Protocol Effects Host DesktopEntry Catalog Launch.
From S2P Require Import Message SeatGate Config Policy X11 Scan Observer Manager InputServer Keyboard Input Capture TextTransfer.

(** ** What the session talks to *)

Class Channel (C : Type) := {
  (** of the stream, in nanoseconds *)
  set_read_timeout : Z → M C string unit;
  set_write_timeout : Z → M C string unit;
  (** the UID of [socket_peercred] *)
  peer_uid : M C string Z;
  (** [read_frame(stream, MAX_REQUEST_FRAME_BYTES)]; [None] is a clean end *)
  receive : M C string (option ClientMessage);
  (** [write_frame(stream, message, MAX_RESPONSE_FRAME_BYTES)] *)
  transmit : ServerMessage → M C string unit;
  (** [poll] for input, 100 ms: whether there is some *)
  wait_readable : M C string bool
}.

(** The launch supervisor behind its [Arc], and the two shared flags. *)
Class Shared (W : Type) := {
  get_launcher : W → LaunchSupervisor;
  put_launcher : LaunchSupervisor → W → W;
  (** [slot.compare_exchange(false, true, ..).is_ok()] *)
  claim_slot : W → bool * W;
  release_slot : W → W;
  load_stopping : W → bool * W
}.

(** [x11rb::connect(None)] and the root window of the selected screen, if there is one. *)
Class Display (W : Type) := {
  connect_display : M W XError (option Z)
}.

(** Why [run] ends early: the error it returns, or the panic of [diagnostic]; the last is
    the model's own bound on the loops it calls. *)
Inductive Stop :=
| Stop_Error (message : string)
| Stop_Panic
| Stop_OutOfFuel.

Inductive CallFailure :=
| CallFailure_Observation (error : X11.Failure)
| CallFailure_Launch (error : Catalog.Failure)
| CallFailure_OutOfFuel. (* not in the source: see [Stop] *)

(** ** Authority *)

Definition has (granted : list Capability) (c : Capability) : bool := bool_decide (c ∈ granted).

(** The calls whose dependency on [observe_structure] is rechecked. *)
Definition acts_on_clients (call : Call) : bool :=
  match call with
  | Call_ClientActivate _ | Call_ClientClose _ | Call_WorkspaceSwitch _ | Call_ClientWorkspace _
  | Call_ClientState _ | Call_ClientGeometry _ | Call_PointerMove _ | Call_PointerClick _
  | Call_KeyboardType _ | Call_KeyboardWrite _ | Call_KeyboardKey _ | Call_TextInsert _
  | Call_CaptureObscured _ | Call_CaptureRegion _ => true
  | _ => false
  end.
Definition is_application_launch (call : Call) : bool :=
  match call with Call_ApplicationLaunch _ => true | _ => false end.

Definition authorized (call : Call) (granted : list Capability) : bool :=
  has granted (Call_required_capability call)
  && (negb (acts_on_clients call) || has granted Capability_ObserveStructure)
  && (negb (is_application_launch call) || has granted Capability_LaunchList).

(** ** Messages *)

(** [Diagnostic::new(value).expect(..)] *)
Definition diagnostic (value : string) : result Diagnostic Stop :=
  map_err (λ _, Stop_Panic) (BoundedText_new (bstr value)).

Definition error_outcome (code : ErrorCode) (retry : Retry) (message : string)
  (generation : option Generation) (sequence : option Sequence) : result Outcome Stop :=
  let? message := diagnostic message in
  Ok (Outcome_Error
        {| ProtocolError_code := code; ProtocolError_retry := retry; ProtocolError_field := None;
           ProtocolError_message := Some message;
           ProtocolError_current_generation := generation;
           ProtocolError_current_sequence := sequence |}).

Definition observation_error (error : X11.Failure) : result Outcome Stop :=
  error_outcome (X11.Failure_code error) (X11.Failure_retry error) (X11.Failure_message error)
    (X11.Failure_current_generation error) (X11.Failure_current_sequence error).
Definition launch_error (error : Catalog.Failure) : result Outcome Stop :=
  error_outcome (Catalog.Failure_code error) (Catalog.Failure_retry error)
    (Catalog.Failure_message error) None None.
Definition protocol_error (code : ErrorCode) (retry : Retry) (message : string)
  : result Outcome Stop := error_outcome code retry message None None.

(** [text(value)?] *)
Definition text_of {MAX : N} (value : str) : result (BoundedText MAX) Stop :=
  map_err (λ error, Stop_Error (BoundError_to_string error)) (BoundedText_new value).

Definition wants_input (granted : list Capability) : bool :=
  existsb (λ c, match c with
                | Capability_InputPointer | Capability_InputKeyboard | Capability_TextTransfer => true
                | _ => false
                end) granted.

Definition features_for (granted : list Capability) : list Feature :=
  [Feature_EwmhObservation; Feature_EwmhManagement; Feature_DesktopLaunch]
  ++ (if has granted Capability_CaptureObscured then [Feature_ObscuredCapture] else [])
  ++ (if wants_input granted then [Feature_InputInjection] else [])
  ++ (if has granted Capability_TextTransfer then [Feature_TextTransfer] else []).

(** [env!("CARGO_PKG_VERSION")] is a parameter. *)
Definition welcome (version : str) (session : SessionId)
  (granted : BoundedList Capability MAX_CAPABILITIES) : result Welcome Stop :=
  let? protocol := text_of PROTOCOL_NAME in
  let? name := text_of (bstr "agent-seat-x11") in
  let? version := text_of version in
  let? features :=
    map_err (λ error, Stop_Error ("provider feature list exceeded wire bounds: "
                                  ++ BoundError_to_string error))
      (BoundedList_new (features_for (as_slice granted))) in
  Ok {| Welcome_protocol := protocol; Welcome_revision := PROTOCOL_REVISION;
        Welcome_session := session;
        Welcome_provider := {| ProviderInfo_name := name; ProviderInfo_version := version |};
        Welcome_backend := Backend_X11Ewmh; Welcome_assurance := Assurance_Tier0;
        Welcome_features := features; Welcome_granted := granted;
        Welcome_limits := {| Limits_request_frame_bytes := MAX_REQUEST_FRAME_BYTES;
                             Limits_response_frame_bytes := MAX_RESPONSE_FRAME_BYTES;
                             Limits_events_per_poll := MAX_EVENTS;
                             Limits_poll_wait_ms := MAX_POLL_WAIT_MS |} |}.

(** ** The session *)

Record SessionState (C W : Type) := mkSessionState {
  session_observer : option Observer;
  session_catalog : SessionCatalog;
  session_world : W;
  session_channel : C
}.
Arguments mkSessionState {C W} _ _ _ _.
Arguments session_observer {C W} _.
Arguments session_catalog {C W} _.
Arguments session_world {C W} _.
Arguments session_channel {C W} _.

Section session.
Context {C W : Type} `{Channel C} `{XServer W, XInput W, SharedSeat W, XIdentities W}.
Context `{XImages W, XSelections W, Files W, Processes W, Shared W, Display W}.
(** The environment, the process, and the encoders of captures. *)
Context (env : string → option str) (pid : Z).
Context (png_encode : Z → Z → bytes → result bytes PngStep) (BASE64_encode : bytes → str).
(** A bound for the loops of an operation. *)
Context (fuel : nat).

Abbreviation S := (SessionState C W).

Definition set_observer_world (o : Observer) (w : W) (s : S) : S :=
  mkSessionState (Some o) (session_catalog s) w (session_channel s).
Definition in_channel {E A} (m : M C E A) : M S E A :=
  zoom session_channel (λ c s, mkSessionState (session_observer s) (session_catalog s)
                                 (session_world s) c) m.
Definition in_world {E A} (m : M W E A) : M S E A :=
  zoom session_world (λ w s, mkSessionState (session_observer s) (session_catalog s) w
                               (session_channel s)) m.
Definition in_catalog {E A} (m : M (SessionCatalog * W) E A) : M S E A :=
  zoom (λ s, (session_catalog s, session_world s))
    (λ t s, mkSessionState (session_observer s) t.1 t.2 (session_channel s)) m.
Definition in_launcher {E A} (m : M (LaunchSupervisor * W) E A) : M S E A :=
  in_world (zoom (λ w, (get_launcher w, w)) (λ t _, put_launcher t.1 t.2) m).

(** Errors of the channel, with [format!("{prefix}: {error}")]. *)
Definition stops {A} (prefix : string) (m : M S string A) : M S Stop A :=
  map_error (λ error, Stop_Error (prefix ++ ": " ++ error)) m.

Definition accepts (permit : SeatPermit) : M S Stop bool := in_world (seat_accepts permit).
Definition seat_permit : M S Stop (option SeatPermit) :=
  in_world (λ w, let '(word, w) := load_gate w in (Ok (SeatGate_permit word), w)).

Definition close (code : ErrorCode) (message : string) : M S Stop unit :=
  let! message := lift (diagnostic message) in
  stops "cannot write terminal session message"
    (in_channel (transmit (ServerMessage_Goodbye {| Goodbye_code := code;
                                                    Goodbye_message := Some message |}))).

Definition respond (what : string) (id : RequestId) (outcome : Outcome) : M S Stop unit :=
  stops what (in_channel (transmit (ServerMessage_Response {| Response_id := id;
                                                              Response_outcome := outcome |}))).

(** *** The observer, connected when first needed *)

Section context.
Context (id : SessionId) (granted : list Capability) (config : Config) (permit : SeatPermit).

Definition client_scope : ClientScope := Observation_clients (Config_observation config).

(** [Observer::connect] *)
Definition connect (show_titles capture_enabled : bool) : M W X11.Failure Observer :=
  let! root := map_error (λ _, Failure_unavailable "cannot connect an X11 observer") connect_display in
  let! root := lift (ok_or root (Failure_unavailable "selected X11 screen is absent")) in
  let! atoms := Atoms_intern in
  ret (Observer_new root atoms client_scope show_titles capture_enabled).

Definition observer_for : M S X11.Failure unit :=
  let! present := gets session_observer in
  match present with
  | Some _ => ret tt
  | None =>
      let show_titles := Observation_titles (Config_observation config)
                         && has granted Capability_ObserveTitles in
      let capture_enabled := has granted Capability_CaptureObscured in
      let! o := in_world (connect show_titles capture_enabled) in
      modify (λ s, set_observer_world o (session_world s) s)
  end.

(** [observer_for(..).and_then(|observer| ..)] *)
Definition with_observer {A} (m : M (Observer * W) X11.Failure A) : M S X11.Failure A :=
  observer_for ;!
  λ s, match session_observer s with
       | Some o =>
           let '(r, (o, w)) := m (o, session_world s) in (r, set_observer_world o w s)
       | None => (Err (Failure_internal "observer initialization failed"), s)
       end.

(** The observer's operations as calls; those with a loop may run out of fuel. *)
Definition observe {A} (reply : A → Reply) (m : M (Observer * W) X11.Failure A)
  : M S CallFailure Reply :=
  let! a := map_error CallFailure_Observation (with_observer m) in
  ret (reply a).
Definition observe_fueled {A} (reply : A → Reply) (m : M (Observer * W) X11.Failure (option A))
  : M S CallFailure Reply :=
  let! a := map_error CallFailure_Observation (with_observer m) in
  match a with
  | Some a => ret (reply a)
  | None => fail CallFailure_OutOfFuel
  end.

Definition manage_call (operation : Operation) : M S CallFailure Reply :=
  observe_fueled Reply_Management (manage fuel operation).

(** *** Launching *)

Definition baseline_for : M S CallFailure (option (list Z)) :=
  if negb (bool_decide (client_scope = ClientScope_None))
     && has granted Capability_ObserveStructure then
    let! baseline := attempt (with_observer launch_baseline) in
    ret (result_ok baseline)
  else ret None.

Definition correlate (baseline : list Z) (startup_id : str) : M S CallFailure (option ClientId) :=
  λ s, match session_observer s with
       | None => (Ok None, s)
       | Some o =>
           let '(r, (o, w)) :=
             correlate_launch fuel baseline startup_id 1000000000 (o, session_world s) in
           (match r with
            | Ok (Some client) => Ok client
            | Ok None => Err CallFailure_OutOfFuel
            | Err _ => Ok None
            end, set_observer_world o w s)
       end.

Definition launch_application (application : ApplicationId) : M S CallFailure LaunchReply :=
  let! baseline := baseline_for in
  let! started := map_error CallFailure_Launch
                    (in_launcher (launch env pid application (Config_launch config))) in
  let! client := match baseline with
                 | Some baseline => correlate baseline (Started_startup_id started)
                 | None => ret None
                 end in
  ret {| LaunchReply_token := Started_token started; LaunchReply_client := client |}.

(** *** Dispatch *)

Definition observer_sequence (o : option Observer) : Sequence :=
  match o with Some o => sequence o | None => 0 end.

Definition perform (call : Call) : M S CallFailure Reply :=
  match call with
  | Call_SeatStatus _ =>
      let! o := gets session_observer in
      ret (Reply_SeatStatus {| SeatStatus_session := id;
                               SeatStatus_sequence := observer_sequence o;
                               SeatStatus_assurance := Assurance_Tier0 |})
  | Call_DesktopSnapshot _ => observe Reply_DesktopSnapshot snapshot
  | Call_EventsSubscribe a =>
      observe Reply_Subscribed (subscribe (as_slice (SubscribeRequest_kinds a)))
  | Call_EventsPoll a =>
      observe_fueled Reply_Events
        (poll fuel (PollRequest_after a) (PollRequest_limit a) (PollRequest_wait_ms a))
  | Call_ClientActivate a => manage_call (Operation_Activate a)
  | Call_ClientClose a => manage_call (Operation_Close a)
  | Call_WorkspaceSwitch a => manage_call (Operation_WorkspaceSwitch a)
  | Call_ClientWorkspace a => manage_call (Operation_ClientWorkspace a)
  | Call_ClientState a => manage_call (Operation_State a)
  | Call_ClientGeometry a => manage_call (Operation_Geometry a)
  | Call_ApplicationsList a =>
      let! page := map_error CallFailure_Launch
                     (in_catalog (SessionCatalog_list env a (Config_launch config))) in
      ret (Reply_Applications page)
  | Call_ApplicationLaunch a =>
      let! reply := launch_application (ApplicationLaunchRequest_application a) in
      ret (Reply_Launched reply)
  | Call_PointerMove a => observe Reply_Input (pointer_move a permit)
  | Call_PointerClick a => observe Reply_Input (pointer_click a permit)
  | Call_KeyboardType a => observe Reply_Input (keyboard_type a permit)
  | Call_KeyboardWrite a => observe Reply_Input (keyboard_write a permit)
  | Call_KeyboardKey a => observe Reply_Input (keyboard_key a permit)
  | Call_TextInsert a => observe_fueled Reply_TextTransfer (text_insert fuel a permit)
  | Call_CaptureObscured a => observe Reply_Capture (capture_obscured png_encode BASE64_encode a)
  | Call_CaptureRegion a => observe Reply_CaptureRegion (capture_region png_encode BASE64_encode a)
  end.

Definition provider_call (call : Call) : M S Stop Outcome :=
  let! result := attempt (perform call) in
  match result with
  | Ok reply => ret (Outcome_Ok reply)
  | Err (CallFailure_Observation error) => lift (observation_error error)
  | Err (CallFailure_Launch error) => lift (launch_error error)
  | Err CallFailure_OutOfFuel => fail Stop_OutOfFuel
  end.

Definition handle (request : Request) : M S Stop Outcome :=
  if negb (authorized (Request_call request) granted)
  then lift (protocol_error ErrorCode_Refused Retry_Never "capability was not granted")
  else provider_call (Request_call request).

(** *** The loop *)

Definition stopping : M S Stop bool :=
  in_world (λ w, let '(b, w) := load_stopping w in (Ok b, w)).

(** [while !stopping { poll(..)?; if count != 0 { break } }] *)
Fixpoint wait_for_input (rounds : nat) : M S Stop unit :=
  match rounds with
  | O => fail Stop_OutOfFuel
  | Datatypes.S rounds =>
      let! stop := stopping in
      if (stop : bool) then ret tt
      else
        let! ready := stops "cannot wait for private companion request" (in_channel wait_readable) in
        if (ready : bool) then ret tt else wait_for_input rounds
  end.

(** The private companion may wait idle: whether the provider is stopping. *)
Definition idle (persistent : bool) : M S Stop bool :=
  if persistent then wait_for_input fuel ;! stopping else ret false.

Fixpoint serve (requests : nat) (persistent : bool) : M S Stop unit :=
  match requests with
  | O => close ErrorCode_SessionClosed "session request bound reached"
  | Datatypes.S requests =>
      let! stop := idle persistent in
      if (stop : bool) then ret tt
      else
        let! message := stops "cannot read session request" (in_channel receive) in
        match message with
        | None => ret tt
        | Some (ClientMessage_Request request) =>
            let! accepted := accepts permit in
            if negb accepted then
              let! outcome := lift (protocol_error ErrorCode_Revoked Retry_Reconnect
                                      "operator seat generation was revoked") in
              respond "cannot write revoked session response" (Request_id request) outcome
            else
              let! outcome := handle request in
              respond "cannot write session response" (Request_id request) outcome ;!
              serve requests persistent
        | Some (ClientMessage_Goodbye _) => ret tt
        | Some (ClientMessage_Hello _) =>
            close ErrorCode_Malformed "hello cannot be repeated"
        end
  end.
End context.

(** *** The handshake *)

Definition claim (enabled : bool) : M S Stop bool :=
  if enabled then in_world (λ w, let '(b, w) := claim_slot w in (Ok b, w)) else ret false.
Definition release (claimed : bool) : M S Stop unit :=
  if claimed then in_world (modify release_slot) else ret tt.

(** With the slot held: the welcome and the loop. *)
Definition attend (version : str) (config : Config) (session : SessionId)
  (granted : list Capability) (permit : SeatPermit) (persistent : bool) : M S Stop unit :=
  let! granted := lift (map_err (λ error, Stop_Error ("configured grant exceeded wire bounds: "
                                                      ++ BoundError_to_string error))
                          (BoundedList_new granted)) in
  let! w := lift (welcome version session granted) in
  stops "cannot write session welcome" (in_channel (transmit (ServerMessage_Welcome w))) ;!
  serve session (as_slice granted) config permit (Z.to_nat (Config_max_requests config)) persistent.

Definition greet (version : str) (config : Config) (session : SessionId) (uid : Z) (hello : Hello)
  : M S Stop unit :=
  if negb (Hello_is_compatible hello)
  then close ErrorCode_IncompatibleRevision "exact Agent Seat revision 9 is required"
  else
    let! permit := seat_permit in
    match permit with
    | None => close ErrorCode_Refused "operator seat is disabled"
    | Some permit =>
        match granted config uid (as_slice (Hello_requested hello)) with
        | None => close ErrorCode_Refused "verified peer UID has no configured grant"
        | Some granted =>
            let! accepted := accepts permit in
            if negb accepted
            then close ErrorCode_Revoked "operator seat generation was revoked"
            else
              let! claimed := claim (InputPolicy_provider_private_devices (Config_input config)) in
              let! result := attempt (attend version config session granted permit claimed) in
              release claimed ;!
              lift result
        end
    end.

Definition run (version : str) (config : Config) (session : SessionId) : M S Stop unit :=
  stops "cannot bound session I/O" (in_channel (
    set_read_timeout (Config_io_timeout config) ;!
    set_write_timeout (Config_io_timeout config))) ;!
  let! uid := stops "cannot authenticate local peer credentials" (in_channel peer_uid) in
  let! first := stops "cannot read session hello" (in_channel receive) in
  match first with
  | None => ret tt
  | Some (ClientMessage_Hello hello) => greet version config session uid hello
  | Some _ => close ErrorCode_Malformed "hello must be first"
  end.

(** [let _ = stream.set_write_timeout(..); let _ = close(..)] *)
Definition reject_capacity : M S Stop unit :=
  let! _ := attempt (F:=Stop) (in_channel (set_write_timeout 100000000)) in
  let! _ := attempt (F:=Stop) (close ErrorCode_Unavailable "provider session limit reached") in
  ret tt.
End session.
