(* ===== verification/SessionTheorems.v ===== *)
(** * What a session says

    The messages a session exchanges with its client form a conversation of the protocol,
    whatever the client, the X server, the file system and the operator do; every message
    it sends is valid, and it never panics. *)

From S2P Require Import Prelude Text Bounded Protocol Message MessageSpec Base64 Effects SeatGate.
From S2P Require Import Config Policy X11 Scan Observer Manager InputServer Keyboard Input Capture TextTransfer.
From S2P Require Import Host DesktopEntry Catalog CatalogTheorems Launch ObserverSpec Diagnostics Replies Session.

(** ** The conversation *)

Inductive Exchanged :=
| Received (message : ClientMessage)
| Sent (message : ServerMessage).

Definition diagnostic_of (text : string) : option Diagnostic := result_ok (BoundedText_new (bstr text)).

Definition goodbye (code : ErrorCode) (text : string) : Exchanged :=
  Sent (ServerMessage_Goodbye {| Goodbye_code := code; Goodbye_message := diagnostic_of text |}).

Definition reports (code : ErrorCode) (retry : Retry) (text : string) : Outcome :=
  Outcome_Error
    {| ProtocolError_code := code; ProtocolError_retry := retry; ProtocolError_field := None;
       ProtocolError_message := diagnostic_of text; ProtocolError_current_generation := None;
       ProtocolError_current_sequence := None |}.

Definition answer (request : Request) (outcome : Outcome) : Exchanged :=
  Sent (ServerMessage_Response {| Response_id := Request_id request; Response_outcome := outcome |}).

(** The kind of reply each call has. *)
Definition answers (id : SessionId) (call : Call) (reply : Reply) : Prop :=
  match call, reply with
  | Call_SeatStatus _, Reply_SeatStatus status => SeatStatus_session status = id
  | Call_DesktopSnapshot _, Reply_DesktopSnapshot _
  | Call_EventsSubscribe _, Reply_Subscribed _
  | Call_EventsPoll _, Reply_Events _
  | (Call_ClientActivate _ | Call_ClientClose _ | Call_WorkspaceSwitch _ | Call_ClientWorkspace _
     | Call_ClientState _ | Call_ClientGeometry _), Reply_Management _
  | Call_ApplicationsList _, Reply_Applications _
  | Call_ApplicationLaunch _, Reply_Launched _
  | (Call_PointerMove _ | Call_PointerClick _ | Call_KeyboardType _ | Call_KeyboardWrite _
     | Call_KeyboardKey _), Reply_Input _
  | Call_TextInsert _, Reply_TextTransfer _
  | Call_CaptureObscured _, Reply_Capture _
  | Call_CaptureRegion _, Reply_CaptureRegion _ => True
  | _, _ => False
  end.

Section conversation.
Context (version : str) (config : Config) (id : SessionId) (uid : Z).

Inductive answered (granted : list Capability) (call : Call) : Outcome → Prop :=
| answered_unauthorized :
    authorized call granted = false →
    answered granted call (reports ErrorCode_Refused Retry_Never "capability was not granted")
| answered_reply reply :
    authorized call granted = true → answers id call reply → valid reply →
    answered granted call (Outcome_Ok reply)
| answered_error error :
    authorized call granted = true → valid error → ProtocolError_message error ≠ None →
    answered granted call (Outcome_Error error).

(** The exchanges after the welcome, when [n] more requests are allowed, and how the
    session ends.  Only an input or output error, or a wait without bound, cuts it off. *)
Inductive exchanges (granted : list Capability) : nat → result unit Stop → list Exchanged → Prop :=
| exchanges_left n : exchanges granted (S n) (Ok tt) []
| exchanges_cut n e : e ≠ Stop_Panic → exchanges granted n (Err e) []
| exchanges_bound :
    exchanges granted 0 (Ok tt) [goodbye ErrorCode_SessionClosed "session request bound reached"]
| exchanges_goodbye n g :
    exchanges granted (S n) (Ok tt) [Received (ClientMessage_Goodbye g)]
| exchanges_hello n hello :
    exchanges granted (S n) (Ok tt)
      [Received (ClientMessage_Hello hello); goodbye ErrorCode_Malformed "hello cannot be repeated"]
| exchanges_hello_cut n hello e :
    e ≠ Stop_Panic → exchanges granted (S n) (Err e) [Received (ClientMessage_Hello hello)]
| exchanges_revoked n request :
    exchanges granted (S n) (Ok tt)
      [Received (ClientMessage_Request request);
       answer request (reports ErrorCode_Revoked Retry_Reconnect "operator seat generation was revoked")]
| exchanges_request_cut n request e :
    e ≠ Stop_Panic → exchanges granted (S n) (Err e) [Received (ClientMessage_Request request)]
| exchanges_answered n request outcome r rest :
    answered granted (Request_call request) outcome → exchanges granted n r rest →
    exchanges granted (S n) r
      (Received (ClientMessage_Request request) :: answer request outcome :: rest).

(** What follows a hello. *)
Inductive greeted (hello : Hello) : result unit Stop → list Exchanged → Prop :=
| greeted_cut e : e ≠ Stop_Panic → greeted hello (Err e) []
| greeted_incompatible :
    Hello_is_compatible hello = false →
    greeted hello (Ok tt)
      [goodbye ErrorCode_IncompatibleRevision "exact Agent Seat revision 9 is required"]
| greeted_disabled :
    Hello_is_compatible hello = true →
    greeted hello (Ok tt) [goodbye ErrorCode_Refused "operator seat is disabled"]
| greeted_unknown :
    Hello_is_compatible hello = true → granted config uid (as_slice (Hello_requested hello)) = None →
    greeted hello (Ok tt) [goodbye ErrorCode_Refused "verified peer UID has no configured grant"]
| greeted_revoked capabilities :
    Hello_is_compatible hello = true →
    granted config uid (as_slice (Hello_requested hello)) = Some capabilities →
    greeted hello (Ok tt) [goodbye ErrorCode_Revoked "operator seat generation was revoked"]
| greeted_welcome w r rest :
    Hello_is_compatible hello = true →
    granted config uid (as_slice (Hello_requested hello)) = Some (as_slice (Welcome_granted w)) →
    welcome version id (Welcome_granted w) = Ok w → valid w →
    exchanges (as_slice (Welcome_granted w)) (Z.to_nat (Config_max_requests config)) r rest →
    greeted hello r (Sent (ServerMessage_Welcome w) :: rest).

Inductive conversation : result unit Stop → list Exchanged → Prop :=
| conversation_silent : conversation (Ok tt) []
| conversation_cut e : e ≠ Stop_Panic → conversation (Err e) []
| conversation_greeted hello r rest :
    greeted hello r rest → conversation r (Received (ClientMessage_Hello hello) :: rest)
| conversation_malformed message :
    (∀ hello, message ≠ ClientMessage_Hello hello) →
    conversation (Ok tt) [Received message; goodbye ErrorCode_Malformed "hello must be first"]
| conversation_malformed_cut message e :
    (∀ hello, message ≠ ClientMessage_Hello hello) → e ≠ Stop_Panic →
    conversation (Err e) [Received message].
End conversation.

(** ** What is relied on of the connection

    [transcript] is what was exchanged so far: [read_frame] gives messages of their types
    that passed validation, and a message counts as sent when [write_frame] succeeded.
    The peer is the one the kernel names. *)

(** What the types of the decoded message guarantee, beyond its model: integers in their
    width, and strings in UTF-8. *)
Definition call_decoded (call : Call) : Prop :=
  match call with
  | Call_ApplicationsList a => is_u32 (ApplicationListRequest_cursor a) ∧ is_u16 (ApplicationListRequest_limit a)
  | Call_KeyboardType a => utf8_valid (as_str (KeyboardTypeRequest_text a)) = true
  | Call_KeyboardWrite a => utf8_valid (as_str (KeyboardWriteRequest_text a)) = true
  | _ => True
  end.
Definition decoded (message : ClientMessage) : Prop :=
  match message with ClientMessage_Request r => call_decoded (Request_call r) | _ => True end.

Definition received (message : option ClientMessage) : list Exchanged :=
  match message with Some m => [Received m] | None => [] end.

Class Transcript (C : Type) `{Channel C} := {
  transcript : C → list Exchanged;
  peer : C → Z;
  timeouts_quiet d c :
    (transcript (set_read_timeout d c).2 = transcript c ∧ peer (set_read_timeout d c).2 = peer c) ∧
    (transcript (set_write_timeout d c).2 = transcript c ∧ peer (set_write_timeout d c).2 = peer c);
  peer_uid_spec c :
    wp peer_uid (λ uid c', uid = peer c ∧ transcript c' = transcript c)
      (λ _ c', transcript c' = transcript c) c;
  wait_readable_quiet c : transcript (wait_readable c).2 = transcript c;
  receive_spec c :
    wp receive
      (λ m c', transcript c' = transcript c ++ received m ∧
         ∀ message, m = Some message → decoded message ∧ valid message)
      (λ _ c', transcript c' = transcript c) c;
  transmit_spec m c :
    wp (transmit m) (λ _ c', transcript c' = transcript c ++ [Sent m])
      (λ _ c', transcript c' = transcript c) c
}.

(** ** The operations of a session *)

Definition brief_call (e : CallFailure) : Prop :=
  match e with
  | CallFailure_Observation e => brief_failure e
  | CallFailure_Launch e => brief_launch e
  | CallFailure_OutOfFuel => True
  end.

Lemma brief_diagnostic text :
  brief text = true → ∃ d : Diagnostic, diagnostic text = Ok d ∧ diagnostic_of text = Some d ∧ as_str d ≠ [].
Proof.
  intros [Hlo Hhi]%andb_true_iff. apply Nat.leb_le in Hlo, Hhi.
  assert (length (bstr text) = String.length text) as Hlen.
  { unfold bstr. rewrite length_fmap. induction text as [|c t IH]; [done|cbn in *].
    destruct (Nat.eq_dec (String.length t) 0) as [Ht|]; [by destruct t|]. f_equal. apply IH; lia. }
  unfold diagnostic, diagnostic_of.
  destruct (@BoundedText_new_spec MAX_DIAGNOSTIC_BYTES (bstr text)) as [(_ & d & -> & Hd)|[Hover _]].
  - exists d. split_and!; [done..|]. rewrite Hd. intros Hnil. rewrite Hnil in Hlen. cbn in Hlen. lia.
  - unfold len in Hover. rewrite Hlen in Hover. unfold MAX_DIAGNOSTIC_BYTES in Hover. lia.
Qed.

Lemma error_outcome_ok code retry message generation sequence :
  brief message = true →
  ∃ error, error_outcome code retry message generation sequence = Ok (Outcome_Error error) ∧
    valid error ∧ ProtocolError_message error ≠ None.
Proof.
  intros (d & Hd & _ & Hne)%brief_diagnostic. unfold error_outcome. rewrite Hd. cbn [and_then].
  eexists. split; [reflexivity|]. split; [|done]. apply ProtocolError_validate_iff. split; [done|].
  by intros ? [= <-].
Qed.

Lemma protocol_error_ok code retry message :
  brief message = true → protocol_error code retry message = Ok (reports code retry message).
Proof.
  intros (d & Hd & Hof & _)%brief_diagnostic. unfold protocol_error, error_outcome, reports.
  by rewrite Hd, Hof.
Qed.

Section session.
Context {C W : Type} `{Transcript C} `{XServerLaws W, !XInput W, !SharedSeat W, !XIdentities W}.
Context `{!XImages W, !XSelections W, !Files W, !Processes W, !Shared W, !Display W}.
Context (env : string → option str) (pid : Z).
Context (png_encode : Z → Z → bytes → result bytes PngStep) (BASE64_encode : bytes → str).
Context (fuel : nat).
(** The PNG specification, and RFC 4648. *)
Hypothesis png_signature : ∀ width height rgb png,
  png_encode width height rgb = Ok png → starts_png png ∧ Forall is_u8 png.
Hypothesis base64_standard : ∀ p, Forall is_u8 p → BASE64_encode p = base64_encode p.

Notation St := (SessionState C W).

(** The observer, if there is one, is sound, and the catalog that is kept is valid. *)
Definition session_inv (s : St) : Prop :=
  opt observer_inv (session_observer s) ∧ opt descriptors_ok (cached (session_catalog s)).

(** What the operations do to the session. *)
Definition kept (s s' : St) : Prop := session_inv s' ∧ session_channel s' = session_channel s.

Lemma kept_trans s1 s2 s3 : kept s1 s2 → kept s2 s3 → kept s1 s3.
Proof. intros [_ Hc] [Hinv Hc']. split; [done|congruence]. Qed.
Lemma kept_refl s : session_inv s → kept s s.
Proof. done. Qed.

Lemma in_world_kept {E A} (m : M W E A) Q R (s : St) :
  session_inv s → (∀ w, wp m (λ a _, Q a) (λ e _, R e) w) →
  wp (in_world m) (λ a s', Q a ∧ kept s s') (λ e s', R e ∧ kept s s') s.
Proof.
  intros Hs Hm. unfold in_world. wp_step. eapply wp_mono; [apply Hm| |]; intros; by split.
Qed.

Lemma in_world_errs {E A} (m : M W E A) (P : E → Prop) (s : St) :
  session_inv s → Errs P m →
  wp (in_world m) (λ _ s', kept s s') (λ e s', P e ∧ kept s s') s.
Proof.
  intros Hs Hm. eapply wp_mono; [apply (in_world_kept m (λ _, True) P)| |]; [done| |by intros ? ? []|done].
  intros w. unfold wp. destruct (m w) as [[a|e] w'] eqn:Hrun; [done|by eapply Hm].
Qed.

Section context.
Context (id : SessionId) (granted : list Capability) (config : Config) (permit : SeatPermit).

#[local] Instance connect_errs show_titles capture :
  Errs brief_failure (connect (W:=W) config show_titles capture).
Proof. unfold connect. solve_errs. Qed.

Lemma connect_spec show_titles capture w :
  wp (connect config show_titles capture) (λ o _, observer_inv o) (λ e _, brief_failure e) w.
Proof.
  assert (wp (connect config show_titles capture) (λ o _, observer_inv o) (λ _ _, True) w) as Hwp.
  { unfold connect. wp_step. wp_step. unfold wp. destruct (connect_display w) as [[root|e] w1]; [|done].
    change (wp (let! root := lift (ok_or root (Failure_unavailable "selected X11 screen is absent")) in
                let! atoms := Atoms_intern in
                ret (Observer_new root atoms (client_scope config) show_titles capture))
              (λ o _, observer_inv o) (λ _ _, True) w1).
    wp_step. apply wp_lift; [|done]. intros r _. wp_step. unfold wp at 1.
    destruct (Atoms_intern w1) as [[atoms|e] w2]; [|done]. apply wp_ret, observer_new_inv. }
  unfold wp in *. destruct (connect _ _ _ w) as [[o|e] w'] eqn:Hrun; [done|by eapply connect_errs].
Qed.

Lemma observer_for_spec s :
  session_inv s →
  wp (observer_for granted config)
    (λ _ s', kept s s' ∧ session_observer s' ≠ None) (λ e s', brief_failure e ∧ kept s s') s.
Proof.
  intros Hs. unfold observer_for. wp_step. wp_step. destruct (session_observer s) as [o|] eqn:Ho.
  { apply wp_ret. split; [done|congruence]. }
  cbv zeta. wp_step. set (titles := _ && _). set (capture := has _ _).
  eapply wp_mono with (Q := λ o s1, observer_inv o ∧ kept s s1)
    (R := λ e s1, brief_failure e ∧ kept s s1).
  - unfold in_world. wp_step. eapply wp_mono; [apply connect_spec|..]; intros ? ? ?; by (split; [|split]).
  - intros o s1 [Hnew [[_ Hcat] Hch]]. wp_step. split; [|done]. split; [|done]. split; [|done].
    by intros o' [= <-].
  - done.
Qed.

Lemma with_observer_spec {A} (m : M (Observer * W) X11.Failure A) ok s :
  session_inv s → answers_with ok m → Errs brief_failure m →
  wp (with_observer granted config m)
    (λ a s', ok a ∧ kept s s') (λ e s', brief_failure e ∧ kept s s') s.
Proof.
  intros Hs Hm Herrs. unfold with_observer. wp_step. wp_call observer_for_spec; [done| |done].
  intros [] s1 [Hk Hne]. unfold wp. destruct (session_observer s1) as [o|] eqn:Ho; [|done].
  destruct Hk as [[Hobs Hcat] Hch].
  specialize (Hm (o, session_world s1) (Hobs _ Ho)). unfold wp in Hm.
  destruct (m (o, session_world s1)) as [[a|e] [o' w]] eqn:Hrun.
  - destruct Hm as [Hok Ho']. split; [done|]. split; [|done]. split; [|done]. by intros ? [= <-].
  - split; [by eapply Herrs|]. split; [|done]. split; [|done]. by intros ? [= <-].
Qed.

Lemma observe_spec {A} (reply : A → Reply) (m : M (Observer * W) X11.Failure A) ok s :
  session_inv s → answers_with ok m → Errs brief_failure m →
  wp (observe granted config reply m)
    (λ r s', (∃ a, r = reply a ∧ ok a) ∧ kept s s') (λ e s', brief_call e ∧ kept s s') s.
Proof.
  intros. unfold observe. do 2 wp_step. wp_call with_observer_spec; [done..| |done].
  intros a s' [Ha Hk]. wp_step. eauto.
Qed.

Lemma observe_fueled_spec {A} (reply : A → Reply) (m : M (Observer * W) X11.Failure (option A)) ok s :
  session_inv s → answers_with (opt ok) m → Errs brief_failure m →
  wp (observe_fueled granted config reply m)
    (λ r s', (∃ a, r = reply a ∧ ok a) ∧ kept s s') (λ e s', brief_call e ∧ kept s s') s.
Proof.
  intros. unfold observe_fueled. do 2 wp_step. wp_call with_observer_spec; [done..| |done].
  intros [a|] s' [Ha Hk]; wp_step; [|done]. eauto.
Qed.

(** *** The catalog and the launcher *)

Lemma list_spec request policy s :
  session_inv s → valid request → call_decoded (Call_ApplicationsList request) →
  wp (in_catalog (SessionCatalog_list env request policy))
    (λ p s', valid p ∧ kept s s') (λ e s', brief_launch e ∧ kept s s') s.
Proof.
  intros [Hobs Hcat] Hv [Hcur Hlimit].
  apply (errs_wp brief_launch); [unfold in_catalog; apply zoom_errs, _|].
  unfold in_catalog. wp_step. unfold SessionCatalog_list. cbv zeta. wp_step.
  eapply wp_mono with (Q := λ _ t, opt descriptors_ok (cached t.1))
    (R := λ _ t, opt descriptors_ok (cached t.1)).
  - wp_step; [|by wp_step]. wp_step. wp_step. wp_call discover_post; [|done].
    intros entries w (Hok & _). wp_step. cbn. intros l [= <-]. by apply catalog_descriptors.
  - intros [] t Ht. wp_step. wp_step. wp_step.
    apply wp_lift; [|by intros; split]. intros l Hl. apply wp_lift; [|by intros; split].
    intros p Hp. split; [|by split].
    unfold ok_or in Hl. destruct (cached t.1) as [l'|] eqn:Hcached; [|done].
    injection Hl as ->. specialize (Ht _ eq_refl).
    destruct (len l <? ApplicationListRequest_cursor request) eqn:Hout.
    { unfold page in Hp. by rewrite Hout in Hp. }
    unfold valid, validate, ApplicationListRequest_Validate, ApplicationListRequest_validate in Hv.
    destruct (_ || _) eqn:Hlim in Hv; [done|]. unfold is_u32, is_u16 in *. bool_props.
    destruct (page_exact l (ApplicationListRequest_cursor request)
                (ApplicationListRequest_limit request)) as (p' & Hp' & Hwf & _); [done|lia..|].
    assert (p' = p) as -> by congruence. by apply ApplicationPage_validate_iff.
  - intros e t Ht. by split.
Qed.

Lemma launcher_spec application policy s :
  session_inv s →
  wp (in_launcher (launch env pid application policy))
    (λ _ s', kept s s') (λ e s', brief_launch e ∧ kept s s') s.
Proof.
  intros Hs. apply in_world_errs; [done|]. apply zoom_errs, _.
Qed.

Lemma launch_application_spec application s :
  session_inv s →
  wp (launch_application env pid fuel granted config application)
    (λ _ s', kept s s') (λ e s', brief_call e ∧ kept s s') s.
Proof.
  intros Hs. unfold launch_application. wp_step.
  eapply wp_mono with (Q := λ _ s1, kept s s1) (R := λ _ _, False).
  { unfold baseline_for. wp_step; [|by wp_step]. do 2 wp_step.
    wp_call (with_observer_spec launch_baseline (λ _, True));
      [done|apply launch_baseline_answers|apply _|..]; intros ? ? [_ ?]; by wp_step. }
  2: done.
  intros baseline s1 Hk1. do 2 wp_step. wp_call launcher_spec; [apply Hk1| |].
  2: { intros e s2 [? ?]. split; [done|by eapply kept_trans]. }
  intros started s2 Hk2. wp_step.
  eapply wp_mono with (Q := λ _ s3, kept s s3) (R := λ e s3, brief_call e ∧ kept s s3).
  2: intros; by wp_step. 2: done.
  assert (kept s s2) as Hk by by eapply kept_trans.
  wp_step; [|by wp_step]. unfold correlate, wp. destruct (session_observer s2) as [o|] eqn:Ho; [|done].
  pose proof (correlate_launch_answers fuel l (Started_startup_id started) 1000000000
                (o, session_world s2)) as Hc. unfold wp in Hc.
  destruct Hk as [[Hobs Hcat] Hch]. specialize (Hc (Hobs _ Ho)).
  assert (∀ o' w, observer_inv o' → kept s (set_observer_world o' w s2)) as Hset.
  { intros o' w Ho'. split; [|done]. split; [|done]. by intros ? [= <-]. }
  destruct (correlate_launch _ _ _ _ _) as [[[client|]|e] [o' w]]; try (split; [done|]); apply Hset, Hc.
Qed.

(** *** One request *)

Abbreviation performs call :=
  (perform env pid png_encode BASE64_encode fuel id granted config permit call).

(** An operation of the observer as a call: its reply is of the kind of the call. *)
Lemma observed_call {A} `{Validate A} (call : Call) (reply : A → Reply)
    (m : M (Observer * W) X11.Failure A) s :
  session_inv s → answers_with valid m → Errs brief_failure m →
  (∀ a, answers id call (reply a) ∧ (valid a → valid (reply a))) →
  wp (observe granted config reply m)
    (λ r s', (answers id call r ∧ valid r) ∧ kept s s') (λ e s', brief_call e ∧ kept s s') s.
Proof.
  intros Hs Hm Herrs Hr. wp_call (observe_spec reply m valid); [done..| |done].
  intros r s' [(a & -> & Ha) Hk]. split; [|done]. split; [apply Hr|by apply Hr].
Qed.

Lemma observed_fueled_call {A} `{Validate A} (call : Call) (reply : A → Reply)
    (m : M (Observer * W) X11.Failure (option A)) s :
  session_inv s → answers_with (opt valid) m → Errs brief_failure m →
  (∀ a, answers id call (reply a) ∧ (valid a → valid (reply a))) →
  wp (observe_fueled granted config reply m)
    (λ r s', (answers id call r ∧ valid r) ∧ kept s s') (λ e s', brief_call e ∧ kept s s') s.
Proof.
  intros Hs Hm Herrs Hr. wp_call (observe_fueled_spec reply m valid); [done..| |done].
  intros r s' [(a & -> & Ha) Hk]. split; [|done]. split; [apply Hr|by apply Hr].
Qed.

Lemma perform_spec call s :
  session_inv s → valid call → call_decoded call →
  wp (performs call)
    (λ r s', (answers id call r ∧ valid r) ∧ kept s s') (λ e s', brief_call e ∧ kept s s') s.
Proof.
  intros Hs Hv Hd. destruct call; cbn [perform].
  1: by do 3 wp_step.
  10: { do 2 wp_step. wp_call list_spec; [done..| |done]. intros p s' [Hp Hk]. by wp_step. }
  10: { wp_step. wp_call launch_application_spec; [done| |done]. intros r s' Hk. by wp_step. }
  all: unfold manage_call; (apply observed_call || apply observed_fueled_call);
    [done|eauto with answers|apply _|by intros].
Qed.

Lemma handle_spec request s :
  session_inv s → valid (Request_call request) → call_decoded (Request_call request) →
  wp (handle env pid png_encode BASE64_encode fuel id granted config permit request)
    (λ o s', answered id granted (Request_call request) o ∧ kept s s')
    (λ e s', e ≠ Stop_Panic ∧ kept s s') s.
Proof.
  intros Hs Hv Hd. unfold handle. destruct (authorized _ _) eqn:Hauth; cbn [negb].
  2: { rewrite protocol_error_ok by done. apply wp_lift; [intros o [= <-]|done].
       split; [by constructor|done]. }
  unfold provider_call. do 2 wp_step. wp_call perform_spec; [done..| |].
  - intros reply s' [[Ha Hr] Hk]. wp_step. split; [by constructor|done].
  - intros e s' [He Hk]. destruct e as [e|e|]; [..|by wp_step].
    + destruct (error_outcome_ok (X11.Failure_code e) (X11.Failure_retry e) (X11.Failure_message e)
        (X11.Failure_current_generation e) (X11.Failure_current_sequence e) He)
        as (error & Herror & Hvalid & Hm).
      unfold observation_error. rewrite Herror. apply wp_lift; [intros o [= <-]|done].
      split; [by constructor|done].
    + destruct (error_outcome_ok (Catalog.Failure_code e) (Catalog.Failure_retry e)
        (Catalog.Failure_message e) None None He) as (error & Herror & Hvalid & Hm).
      unfold launch_error. rewrite Herror. apply wp_lift; [intros o [= <-]|done].
      split; [by constructor|done].
Qed.

(** *** What is said *)

Definition said (s s' : St) (l : list Exchanged) : Prop :=
  transcript (session_channel s') = transcript (session_channel s) ++ l.

Lemma said_kept s s' : kept s s' → said s s' [].
Proof. intros [_ Hc]. unfold said. by rewrite Hc, app_nil_r. Qed.
Lemma said_app s1 s2 s3 l l' : said s1 s2 l → said s2 s3 l' → said s1 s3 (l ++ l').
Proof. unfold said. intros H12 ->. by rewrite H12, app_assoc. Qed.

(** [m] says [l] for which [P] holds, together with the result. *)
Definition speaks {A} (P : result A Stop → list Exchanged → Prop) (m : M St Stop A) (s : St) : Prop :=
  wp m (λ a s', ∃ l, said s s' l ∧ P (Ok a) l) (λ e s', ∃ l, said s s' l ∧ P (Err e) l) s.

(** It says [l a] and goes on in a sound state, or fails without a word. *)
Definition says {A} (l : A → list Exchanged) (m : M St Stop A) : Prop :=
  ∀ s, session_inv s →
    wp m (λ a s', said s s' (l a) ∧ session_inv s')
      (λ e s', e ≠ Stop_Panic ∧ said s s' [] ∧ session_inv s') s.

Lemma speaks_bind {A B} (l : A → list Exchanged) (m : M St Stop A) (k : A → M St Stop B) P s :
  says l m → session_inv s →
  (∀ e, e ≠ Stop_Panic → P (Err e) []) →
  (∀ a s', session_inv s' → speaks (λ r l', P r (l a ++ l')) (k a) s') →
  speaks P (bind m k) s.
Proof.
  intros Hm Hs Herr Hk. unfold speaks. wp_step. wp_call Hm; [done|..].
  - intros a s' [Hl Hs']. wp_call Hk; [done|..]; intros ? s'' (l' & Hl' & HP);
      eexists; (split; [by eapply said_app|exact HP]).
  - intros e s' (He & Hl & _). eauto.
Qed.

Lemma speaks_ret {A} (a : A) (P : result A Stop → list Exchanged → Prop) s : P (Ok a) [] → speaks P (ret a) s.
Proof. intros HP. apply wp_ret. exists []. split; [unfold said; by rewrite app_nil_r|done]. Qed.

Lemma says_speaks {A} l (m : M St Stop A) (P : result A Stop → list Exchanged → Prop) s :
  says l m → session_inv s → (∀ a, P (Ok a) (l a)) → (∀ e, e ≠ Stop_Panic → P (Err e) []) →
  speaks P m s.
Proof.
  intros Hm Hs HP Herr. unfold speaks. wp_call Hm; [done|..].
  - intros a s' [Hl _]. eauto.
  - intros e s' (He & Hl & _). eauto.
Qed.

Lemma channel_says {A} prefix (m : M C string A) (l : A → list Exchanged) :
  (∀ c, wp m (λ a c', transcript c' = transcript c ++ l a) (λ _ c', transcript c' = transcript c) c) →
  says l (stops prefix (in_channel m)).
Proof.
  intros Hm s Hs. unfold stops, in_channel. do 2 wp_step. eapply wp_mono; [apply Hm|..].
  - intros a c Hc. by split.
  - intros e c Hc. split; [done|]. split; [|done]. unfold said. by rewrite app_nil_r.
Qed.

Lemma transmit_says prefix m : says (λ _, [Sent m]) (stops prefix (in_channel (transmit m))).
Proof. apply channel_says. intros c. apply transmit_spec. Qed.

Lemma world_says {A} (m : M W Stop A) : Errs (λ e, e ≠ Stop_Panic) m → says (λ _, []) (in_world m).
Proof.
  intros Hm s Hs. wp_call (in_world_errs m (λ e, e ≠ Stop_Panic)); [done..| |].
  - intros a s' Hk. split; [by apply said_kept|apply Hk].
  - intros e s' [He Hk]. split; [done|]. split; [by apply said_kept|apply Hk].
Qed.

Lemma close_says code text : brief text = true → says (λ _, [goodbye code text]) (close code text).
Proof.
  intros (d & Hd & Hof & _)%brief_diagnostic s Hs. unfold close. wp_step. rewrite Hd.
  apply wp_lift; [|done]. intros ? [= <-]. unfold goodbye. rewrite Hof. by apply transmit_says.
Qed.

Lemma respond_says what request outcome :
  says (λ _, [answer request outcome]) (respond what (Request_id request) outcome).
Proof. apply transmit_says. Qed.

Lemma stopping_says : says (λ _, []) stopping.
Proof. apply world_says. intros w e w'. by case_match. Qed.

Lemma says_ret {A} (a : A) l : l a = [] → says l (ret a).
Proof. intros Hl s Hs. wp_step. rewrite Hl. split; [by apply said_kept|done]. Qed.
Lemma says_bind {A B} (m : M St Stop A) (k : A → M St Stop B) l :
  says (λ _, []) m → (∀ a, says l (k a)) → says l (bind m k).
Proof.
  intros Hm Hk s Hs. wp_step. wp_call Hm; [done| |done]. intros a s1 [H01 Hs1].
  wp_call Hk; [done|..].
  - intros b s2 [H12 Hs2]. split; [exact (said_app _ _ _ _ _ H01 H12)|done].
  - intros e s2 (He & H12 & Hs2). split_and!; [done|exact (said_app _ _ _ _ _ H01 H12)|done].
Qed.

Lemma wait_says rounds : says (λ _, []) (wait_for_input rounds).
Proof.
  induction rounds as [|rounds IH]; cbn [wait_for_input].
  { intros s Hs. wp_step. split; [done|]. split; [by apply said_kept|done]. }
  apply says_bind; [apply stopping_says|intros []; [by apply says_ret|]].
  apply says_bind; [|intros []; [by apply says_ret|done]].
  apply channel_says. intros c. unfold wp. pose proof (wait_readable_quiet c).
  destruct (wait_readable c) as [[]]; [by rewrite app_nil_r|done].
Qed.

Lemma idle_says persistent : says (λ _, []) (idle fuel persistent).
Proof.
  unfold idle. destruct persistent; [|by apply says_ret].
  apply says_bind; [apply wait_says|intros []; apply stopping_says].
Qed.

(** *** The loop *)

Lemma receive_speaks {B} prefix (k : option ClientMessage → M St Stop B) P s :
  session_inv s → (∀ e, e ≠ Stop_Panic → P (Err e) []) →
  (∀ m s', session_inv s' → (∀ message, m = Some message → decoded message ∧ valid message) →
     speaks (λ r l', P r (received m ++ l')) (k m) s') →
  speaks P (bind (stops prefix (in_channel receive)) k) s.
Proof.
  intros Hs Herr Hk. unfold speaks, stops, in_channel. do 3 wp_step.
  eapply wp_mono; [apply receive_spec|..].
  - intros m c [Hl Hm]. wp_call Hk; [done|done|..]; intros ? s'' (l' & Hl' & HP);
      exists (received m ++ l'); (split; [refine (said_app _ _ _ _ _ _ Hl'); exact Hl|exact HP]).
  - intros e c Hl. exists []. split; [unfold said; by rewrite app_nil_r|by apply Herr].
Qed.

Lemma serve_speaks n persistent s :
  session_inv s →
  speaks (exchanges id granted n)
    (serve env pid png_encode BASE64_encode fuel id granted config permit n persistent) s.
Proof.
  revert s. induction n as [|n IH]; intros s Hs; cbn [serve].
  { eapply says_speaks; [by apply close_says|done|intros []; constructor|intros; by constructor]. }
  eapply speaks_bind; [apply idle_says|done|intros; by constructor|]. intros stop s1 Hs1. cbn [app].
  destruct stop; [apply speaks_ret; constructor|].
  apply receive_speaks; [done|intros; by constructor|]. intros [[hello|request|g]|] s2 Hs2 Hm; cbn [received app].
  - eapply says_speaks; [by apply close_says|done|intros []; constructor|intros; by constructor].
  - destruct (Hm _ eq_refl) as [Hd Hv]. unfold accepts.
    eapply speaks_bind; [apply world_says|done|intros; by constructor|].
    { apply seat_accepts_errs. }
    intros accepted s3 Hs3. cbn [app]. destruct accepted; cbn [negb].
    + unfold speaks. wp_step. wp_call handle_spec; [done..| |].
      * intros outcome s4 [Ha Hk].
        assert (speaks (λ r l, exchanges id granted (S n) r
                          (Received (ClientMessage_Request request) :: l))
          (respond "cannot write session response" (Request_id request) outcome ;!
           serve env pid png_encode BASE64_encode fuel id granted config permit n persistent) s4)
          as Hrest.
        { eapply speaks_bind; [apply respond_says|apply Hk|intros; by constructor|].
          intros [] s5 Hs5. cbn [app]. wp_call IH; [done|..]; intros ? s6 (l & Hl & HP);
            exists l; (split; [done|by constructor]). }
        destruct Hk as [_ Hch]. wp_call Hrest; intros ? s5 (l & Hl & HP); exists l;
          (split; [unfold said in *; by rewrite <- Hch|done]).
      * intros e s4 [He Hk]. exists []. split; [by apply said_kept|by constructor].
    + unfold speaks. wp_step. rewrite protocol_error_ok by done. apply wp_lift; [|done].
      intros outcome [= <-].
      apply (says_speaks _ _ (λ r l, exchanges id granted (S n) r
               (Received (ClientMessage_Request request) :: l)) s3 (respond_says _ request _));
        [done|intros []; constructor|intros; by constructor].
  - apply speaks_ret. constructor.
  - apply speaks_ret. constructor.
Qed.
End context.

(** *** The handshake *)

Context (version : str) (config : Config) (id : SessionId).
Hypothesis version_nonempty : version ≠ [].

Lemma features_canonical capabilities : canonical (features_for capabilities).
Proof.
  apply strictly_ordered_canonical. unfold features_for.
  by destruct (has _ _), (wants_input _), (has _ _).
Qed.

Lemma welcome_valid granted w :
  welcome version id granted = Ok w → canonical (as_slice granted) →
  Welcome_granted w = granted ∧ valid w.
Proof.
  intros Hw Hc. unfold welcome in Hw.
  destruct (text_of PROTOCOL_NAME) as [protocol|] eqn:Hp; [|done].
  destruct (text_of (bstr "agent-seat-x11")) as [name|] eqn:Hn; [|done].
  destruct (text_of version) as [v|] eqn:Hv; [|done].
  destruct (BoundedList_new _) as [features|] eqn:Hf; [|done].
  injection Hw as <-. split; [done|].
  assert (∀ MAX s (t : BoundedText MAX), text_of s = Ok t → as_str t = s) as Htext.
  { intros MAX s t. unfold text_of. destruct (BoundedText_new s) as [t'|] eqn:Ht; [|done].
    intros [= <-]. by apply BoundedText_new_Ok. }
  apply Welcome_validate_iff. unfold Welcome_wf, nonempty_text. cbn.
  apply Htext in Hp, Hn, Hv. rewrite Hp, Hn, Hv.
  apply BoundedList_new_Ok in Hf. rewrite Hf.
  split_and!; try done. apply features_canonical.
Qed.

Lemma lift_says {A} (r : result A Stop) :
  (∀ e, r = Err e → e ≠ Stop_Panic) → says (λ _, []) (lift r).
Proof.
  intros Hr s Hs. apply wp_lift; intros x Hx.
  - split; [by apply said_kept|done].
  - split; [by apply Hr|]. split; [by apply said_kept|done].
Qed.

Lemma welcome_error granted e : welcome version id granted = Err e → e ≠ Stop_Panic.
Proof.
  unfold welcome, text_of. intros Hw.
  repeat (destruct (BoundedText_new _); cbn in Hw; [|congruence]).
  destruct (BoundedList_new _); cbn in Hw; congruence.
Qed.

Abbreviation greets uid hello := (greeted version config id uid hello).

Lemma attend_speaks uid hello capabilities permit claimed s :
  session_inv s → Hello_is_compatible hello = true →
  Policy.granted config uid (as_slice (Hello_requested hello)) = Some capabilities →
  canonical capabilities →
  speaks (greets uid hello)
    (attend env pid png_encode BASE64_encode fuel version config id capabilities permit claimed) s.
Proof.
  intros Hs Hcompat Hgrant Hc. unfold attend.
  assert (∀ r : result (BoundedList Capability MAX_CAPABILITIES) Stop,
    (∀ l, r = Ok l → as_slice l = capabilities) → (∀ e, r = Err e → e ≠ Stop_Panic) →
    speaks (greets uid hello)
      (let! granted := lift r in
       let! w := lift (welcome version id granted) in
       stops "cannot write session welcome" (in_channel (transmit (ServerMessage_Welcome w))) ;!
       serve env pid png_encode BASE64_encode fuel id (as_slice granted) config permit
         (Z.to_nat (Config_max_requests config)) claimed) s) as Hgo.
  { intros r Hok Herr. unfold speaks. wp_step. apply wp_lift; [intros bounded Hr|intros e Hr].
    2: { exists []. split; [by apply said_kept|]. constructor. by apply Herr. }
    apply Hok in Hr. wp_step. apply wp_lift; [intros w Hw|intros e Hw].
    2: { exists []. split; [by apply said_kept|]. constructor. by eapply welcome_error. }
    destruct (welcome_valid bounded w Hw) as [Hg Hv]; [by rewrite Hr|]. rewrite <- Hg.
    apply (speaks_bind (λ _, [Sent (ServerMessage_Welcome w)]) _ _ (greets uid hello) s (transmit_says _ _)).
    - done.
    - intros; by constructor.
    - intros [] s1 Hs1. wp_call (serve_speaks id (as_slice (Welcome_granted w)) config permit); [done|..];
        intros ? s2 (l & Hl & HP); exists l; (split; [done|]);
        apply (greeted_welcome _ _ _ _ _ w); try done; by rewrite Hg, ?Hr. }
  apply Hgo; intros x; destruct (BoundedList_new _) as [l|] eqn:Hl; cbn; try done.
  - intros [= <-]. by apply BoundedList_new_Ok in Hl.
  - by intros [= <-].
Qed.

Lemma claim_says enabled : says (λ _, []) (claim enabled).
Proof.
  unfold claim. destruct enabled; [|by apply says_ret]. apply world_says.
  intros w e w'. by case_match.
Qed.

(** The result of the session passes through the release of the slot. *)
Lemma release_speaks (m : M St Stop unit) claimed P s :
  speaks P m s →
  speaks P (let! result := attempt m in release claimed ;! lift result) s.
Proof.
  intros Hm. unfold speaks. do 2 wp_step.
  assert (∀ s', session_channel (release (C:=C) claimed s').2 = session_channel s' ∧
                (release (C:=C) claimed s').1 = Ok tt) as Hrel by by destruct claimed.
  wp_call Hm; intros x s' (l & Hl & HP); wp_step; unfold wp; specialize (Hrel s');
    destruct (release claimed s') as [r s'']; destruct Hrel as [Hch Hr]; cbn in Hr, Hch; subst r;
    exists l; (split; [unfold said in *; cbn; by rewrite Hch|done]).
Qed.

Lemma greet_speaks uid hello s :
  session_inv s → valid (ClientMessage_Hello hello) →
  speaks (greets uid hello)
    (greet env pid png_encode BASE64_encode fuel version config id uid hello) s.
Proof.
  intros Hs Hv. unfold greet. destruct (Hello_is_compatible hello) eqn:Hcompat; cbn [negb].
  2: { eapply says_speaks; [by apply close_says|done|intros []; by constructor|intros; by constructor]. }
  eapply speaks_bind; [apply world_says|done|intros; by constructor|].
  { intros w e w'. by case_match. }
  intros [permit|] s1 Hs1; cbn [app].
  2: { eapply says_speaks; [by apply close_says|done|intros []; by constructor|intros; by constructor]. }
  destruct (Policy.granted config uid _) as [capabilities|] eqn:Hgrant.
  2: { eapply says_speaks; [by apply close_says|done|intros []; by constructor|intros; by constructor]. }
  assert (canonical capabilities) as Hc.
  { apply Hello_validate_iff in Hv as [_ Hv]. unfold Policy.granted in Hgrant.
    destruct (Config_grant config) as [grant|]; [|done]. cbn in Hgrant.
    destruct (negb _); [done|]. injection Hgrant as <-. by apply canonical_filter. }
  unfold accepts. eapply speaks_bind; [apply world_says, seat_accepts_errs|done|intros; by constructor|].
  intros accepted s2 Hs2; cbn [app]. destruct accepted; cbn [negb].
  2: { eapply says_speaks; [by apply close_says|done|intros []|intros; by constructor].
       by eapply greeted_revoked. }
  eapply speaks_bind; [apply claim_says|done|intros; by constructor|].
  intros claimed s3 Hs3; cbn [app]. by apply release_speaks, attend_speaks.
Qed.

Lemma timeouts_spec d c :
  wp (set_read_timeout d ;! set_write_timeout d)
    (λ _ c', transcript c' = transcript c ∧ peer c' = peer c)
    (λ _ c', transcript c' = transcript c) c.
Proof.
  destruct (timeouts_quiet d c) as [[Ht Hp] _]. wp_step. unfold wp at 1.
  destruct (set_read_timeout d c) as [[[]|e] c1]; cbn in Ht, Hp; [|done].
  destruct (timeouts_quiet d c1) as [_ [Ht' Hp']]. unfold wp.
  destruct (set_write_timeout d c1) as [[[]|e] c2]; cbn in Ht', Hp'; [|congruence].
  split; congruence.
Qed.

Lemma run_speaks s :
  session_inv s →
  speaks (conversation version config id (peer (session_channel s)))
    (Session.run env pid png_encode BASE64_encode fuel version config id) s.
Proof.
  intros Hs. unfold Session.run, speaks. wp_step. unfold stops at 1, in_channel at 1. do 2 wp_step.
  wp_call timeouts_spec.
  2: { intros e c Hc. exists []. unfold said. cbn. rewrite Hc, app_nil_r. split; [done|by constructor]. }
  intros [] c1 [Ht1 Hp1]. wp_step. unfold stops at 1, in_channel at 1. do 2 wp_step.
  wp_call peer_uid_spec.
  2: { intros e c Hc. exists []. unfold said. cbn. cbn in Hc. rewrite Hc, Ht1, app_nil_r.
       split; [done|by constructor]. }
  intros uid c2 [-> Ht2]. cbn in Ht2 |- *.
  match goal with |- wp _ _ _ ?s0 => set (s2 := s0) end.
  assert (∀ l s', said s2 s' l → said s s' l) as Hsaid.
  { unfold said. cbn. intros l s' ->. by rewrite Ht2, Ht1. }
  enough (speaks (conversation version config id (peer (session_channel s)))
    (let! first := stops "cannot read session hello" (in_channel receive) in
     match first with
     | None => ret tt
     | Some (ClientMessage_Hello hello) =>
         greet env pid png_encode BASE64_encode fuel version config id (peer c1) hello
     | Some _ => close ErrorCode_Malformed "hello must be first"
     end) s2) as Hrest.
  { wp_call Hrest; intros ? s' (l & Hl & HP); exists l; (split; [by apply Hsaid|done]). }
  apply receive_speaks; [done|intros; by constructor|].
  intros first s3 Hs3 Hm. destruct first as [[hello|request|g]|]; cbn [received app].
  - destruct (Hm _ eq_refl) as [_ Hv]. rewrite Hp1.
    wp_call greet_speaks; [done|done|..]; intros ? s' (l & Hl & HP); exists l;
      (split; [done|by constructor]).
  - eapply says_speaks; [by apply close_says|done|intros []; by constructor|intros; by constructor].
  - eapply says_speaks; [by apply close_says|done|intros []; by constructor|intros; by constructor].
  - apply speaks_ret. constructor.
Qed.

(** *** Properties *)

(** A session before its first message. *)
Definition fresh (c : C) (w : W) : St := mkSessionState None SessionCatalog_new w c.

Lemma fresh_inv c w : session_inv (fresh c w).
Proof. done. Qed.


Definition sent_valid (e : Exchanged) : Prop :=
  match e with Sent m => valid m | Received _ => True end.
Definition is_response (e : Exchanged) : bool :=
  match e with Sent (ServerMessage_Response _) => true | _ => false end.
Definition responses (l : list Exchanged) : nat := length (List.filter is_response l).

Lemma goodbye_valid code text : brief text = true → sent_valid (goodbye code text).
Proof.
  intros (d & _ & Hd & Hne)%brief_diagnostic. apply Goodbye_validate_iff.
  unfold Goodbye_wf. cbn [Goodbye_message]. rewrite Hd.
  by intros ? [= <-].
Qed.

Lemma answer_valid request outcome : valid outcome → sent_valid (answer request outcome).
Proof. done. Qed.

Lemma reported_valid code retry text : brief text = true → valid (reports code retry text).
Proof.
  intros Hb. destruct (error_outcome_ok code retry text None None Hb) as (e & He & Hv & _).
  pose proof (protocol_error_ok code retry text Hb) as Hp. unfold protocol_error in Hp.
  rewrite He in Hp. assert (reports code retry text = Outcome_Error e) as -> by congruence. exact Hv.
Qed.

Lemma answered_valid granted call outcome : answered id granted call outcome → valid outcome.
Proof. destruct 1; [by apply reported_valid|done..]. Qed.

Lemma exchanges_valid granted n r l :
  exchanges id granted n r l → r ≠ Err Stop_Panic ∧ Forall sent_valid l ∧ (responses l ≤ n)%nat.
Proof.
  induction 1 as [| | | | | | | |n request outcome r rest Ha _ (Hr & Hl & Hn)].
  all: try (split_and!; [congruence|repeat constructor; try done; by apply goodbye_valid|unfold responses; cbn; lia]).
  - split_and!; [done| |unfold responses in *; cbn; lia].
    rewrite !Forall_cons. split_and!; [done|by eapply answer_valid, answered_valid|done].
Qed.

Lemma conversation_valid uid r l :
  conversation version config id uid r l →
  r ≠ Err Stop_Panic ∧ Forall sent_valid l ∧ (responses l ≤ Z.to_nat (Config_max_requests config))%nat.
Proof.
  destruct 1 as [|e He|hello r rest Hg|message Hm|message e Hm He].
  - split_and!; [done|constructor|unfold responses; cbn; lia].
  - split_and!; [congruence|constructor|unfold responses; cbn; lia].
  - assert (r ≠ Err Stop_Panic ∧ Forall sent_valid rest ∧
            (responses rest ≤ Z.to_nat (Config_max_requests config))%nat) as (? & ? & ?).
    { destruct Hg as [e He| | | | |w r rest _ _ _ Hv (Hr & Hl & Hn)%exchanges_valid].
      1: split_and!; [congruence|constructor|unfold responses; cbn; lia].
      5: split_and!; [done|by constructor|exact Hn].
      all: split_and!; [done|repeat constructor; by apply goodbye_valid|unfold responses; cbn; lia]. }
    split_and!; [done|by constructor|done].
  - split_and!; [done|repeat constructor; by apply goodbye_valid|unfold responses; cbn; lia].
  - split_and!; [congruence|by repeat constructor|unfold responses; cbn; lia].
Qed.

(** C2: a session never panics and never says what the protocol does not allow.  Every
    message it sends passes the validation of the protocol, every diagnostic fits its
    bound and is not empty, and at most as many requests are answered as the policy
    allows. *)
Theorem session_messages_valid c w r s' :
  Session.run env pid png_encode BASE64_encode fuel version config id (fresh c w) = (r, s') →
  r ≠ Err Stop_Panic ∧
  ∃ l, transcript (session_channel s') = transcript c ++ l ∧ Forall sent_valid l ∧
       (responses l ≤ Z.to_nat (Config_max_requests config))%nat.
Proof.
  intros Hrun. pose proof (run_speaks (fresh c w) (fresh_inv c w)) as Hs.
  unfold speaks, wp, said in Hs. rewrite Hrun in Hs.
  assert (∃ l, transcript (session_channel s') = transcript c ++ l ∧
               conversation version config id (peer c) r l) as (l & Hl & Hc) by by destruct r as [[]|].
  apply conversation_valid in Hc as (? & ? & ?). eauto.
Qed.
End session.

(** ** A concrete session

    The desktop of [ObserverRuns.Toy] behind an enabled seat; a client that says hello,
    asks for the status, then for something it was not granted, and leaves. *)
From S2P Require Import ObserverRuns InputTheorems CaptureTheorems TextTransferTheorems.

Module SessionToy.
Import ObserverRuns.Toy InputToy TransferToy CaptureToy.

Record Connection := { inbox : list ClientMessage; exchanged : list Exchanged }.

Definition log (e : Exchanged) (c : Connection) : Connection :=
  {| inbox := inbox c; exchanged := exchanged c ++ [e] |}.

#[export] Instance call_decoded_dec call : Decision (call_decoded call).
Proof. destruct call; cbn; apply _. Defined.
#[export] Instance decoded_dec message : Decision (decoded message).
Proof. destruct message; cbn; apply _. Defined.

#[export] Instance toy_channel : Channel Connection := {
  set_read_timeout d := ret tt;
  set_write_timeout d := ret tt;
  peer_uid := ret 1000;
  receive c :=
    match inbox c with
    | [] => (Ok None, c)
    | m :: rest =>
        if bool_decide (decoded m) && bool_decide (validate m = Ok tt)
        then (Ok (Some m), log (Received m) {| inbox := rest; exchanged := exchanged c |})
        else (Err "malformed frame"%string, c)
    end;
  transmit m c := (Ok tt, log (Sent m) c);
  wait_readable := ret true
}.

#[export] Instance toy_transcript : Transcript Connection.
Proof.
  refine {| transcript := exchanged; peer _ := 1000 |}; try done.
  intros c. unfold wp. cbn. destruct (inbox c) as [|m rest].
  { cbn. split; [by rewrite app_nil_r|done]. }
  destruct (bool_decide (decoded m)) eqn:Hd, (bool_decide (validate m = Ok tt)) eqn:Hv; cbn; try done.
  split; [done|]. intros ? [= <-]. by apply bool_decide_eq_true in Hd, Hv.
Defined.

Definition missing : IoError := {| IoError_kind := IoError_NotFound; IoError_text := "" |}.
#[export] Instance toy_files : Files World := {
  symlink_metadata path := fail missing;
  metadata path := fail missing;
  read_dir path := fail missing;
  open_file path := fail missing;
  file_metadata file := fail missing;
  read_to_end file n := fail missing
}.
#[export] Instance toy_processes : Processes World := {
  spawn command := fail missing;
  try_wait child := ret true;
  wait child := ret tt
}.
(** The launcher never starts anything here, so its state stays as it is. *)
#[export] Instance toy_shared : Shared World := {
  get_launcher w := {| next_token := 1; children := []; delegate_via_systemd := false;
                       delegated_unit_stem := [] |};
  put_launcher _ w := w;
  claim_slot w := (true, w);
  release_slot w := w;
  load_stopping w := (false, w)
}.
#[export] Instance toy_display : Display World := { connect_display := ret (Some 1) }.

Definition toy_capabilities : Capabilities :=
  mkBoundedList (MAX := MAX_POLICY_CAPABILITIES) [Capability_ObserveStructure] eq_refl.
Definition toy_config : Config :=
  {| Config_max_sessions := 1; Config_max_requests := 8; Config_io_timeout := 1000000000;
     Config_grant := Some {| Grant_uid := 1000; Grant_capabilities := toy_capabilities |};
     Config_observation := {| Observation_clients := ClientScope_AllWorkspaces;
                              Observation_titles := false |};
     Config_launch := {| LaunchPolicy_mode := LaunchMode_Deny;
                         LaunchPolicy_allow := mkBoundedList (MAX := MAX_APPLICATIONS) [] eq_refl;
                         LaunchPolicy_deny := mkBoundedList (MAX := MAX_APPLICATIONS) [] eq_refl;
                         LaunchPolicy_allow_user_entries := false |};
     Config_input := {| InputPolicy_provider_private_devices := false |} |}.

Definition toy_hello : Hello :=
  {| Hello_protocol := mkBoundedText (MAX := 128) PROTOCOL_NAME eq_refl; Hello_revision := PROTOCOL_REVISION;
     Hello_peer := {| PeerInfo_name := mkBoundedText (MAX := 128) (bstr "client") eq_refl;
                      PeerInfo_version := mkBoundedText (MAX := 64) (bstr "1") eq_refl;
                      PeerInfo_purpose := mkBoundedText (MAX := 256) (bstr "test") eq_refl |};
     Hello_requested := mkBoundedList (MAX := MAX_CAPABILITIES) [Capability_ObserveStructure; Capability_ObserveEvents] eq_refl |}.

Definition toy_client : Connection :=
  {| inbox := [ClientMessage_Hello toy_hello;
               ClientMessage_Request {| Request_id := 7; Request_call := Call_SeatStatus tt |};
               ClientMessage_Request {| Request_id := 8;
                 Request_call := Call_EventsPoll {| PollRequest_after := 0; PollRequest_limit := 1;
                                                    PollRequest_wait_ms := 0 |} |}];
     exchanged := [] |}.

Definition toy_run : result unit Stop * SessionState Connection World :=
  Session.run (λ _, None) 42 toy_png base64_encode 10 (bstr "1") toy_config 3
    (fresh toy_client (snd subscribed)).


Lemma session_messages_valid_witness :
  Forall sent_valid (transcript (session_channel toy_run.2)) ∧
  responses (transcript (session_channel toy_run.2)) = 2%nat.
Proof.
  split; [|vm_compute; reflexivity].
  destruct toy_run as [r s'] eqn:Hrun.
  destruct (session_messages_valid (λ _, None) 42 toy_png base64_encode 10 toy_png_signature
    (λ p _, eq_refl) (bstr "1") toy_config 3 ltac:(done) toy_client (snd subscribed) r s' Hrun)
    as (_ & l & Hl & Hv & _).
  change (transcript toy_client ++ l) with l in Hl. cbn [snd]. rewrite Hl. exact Hv.
Defined.
End SessionToy.
