(* ===== verification/Provider.v ===== *)
(** * [agent-seat-x11/src/lib.rs]: the provider

    The command line, the start of the provider, and the loop that serves: seat control,
    ended workers and children, the selection, and one connection a turn.  A session runs in a
    worker of its own; starting and joining workers is an interface. *)

From S2P Require Import Prelude Text Protocol Effects Discovery Ownership SeatGate Host Config Policy PolicyStore Runtime Active Launch Session.

(** ** The command line *)

Inductive RuntimeSeatCommand := RuntimeSeatCommand_Status | RuntimeSeatCommand_Enable | RuntimeSeatCommand_Disable.

Record Options := { Options_config : option str; Options_socket : option str; Options_check_config : bool }.
Definition Options_default : Options :=
  {| Options_config := None; Options_socket := None; Options_check_config := false |}.

Inductive ProviderCommand :=
| ProviderCommand_Run (options : Options)
| ProviderCommand_Seat (command : RuntimeSeatCommand)
| ProviderCommand_Help.

Definition with_config (path : str) (o : Options) : Options :=
  {| Options_config := Some path; Options_socket := Options_socket o; Options_check_config := Options_check_config o |}.
Definition with_socket (path : str) (o : Options) : Options :=
  {| Options_config := Options_config o; Options_socket := Some path; Options_check_config := Options_check_config o |}.
Definition with_check_config (o : Options) : Options :=
  {| Options_config := Options_config o; Options_socket := Options_socket o; Options_check_config := true |}.

(** [{:?}] of an argument *)
Section options.
Context (debug : str → string).

Definition parse_seat (arguments : list str) : result ProviderCommand string :=
  match arguments with
  | [] => Err "seat requires status, enable, or disable"%string
  | action :: arguments =>
      let? command :=
        if bool_decide (action = bstr "status") then Ok RuntimeSeatCommand_Status
        else if bool_decide (action = bstr "enable") then Ok RuntimeSeatCommand_Enable
        else if bool_decide (action = bstr "disable") then Ok RuntimeSeatCommand_Disable
        else Err ("unknown seat action " +:+ debug action) in
      match arguments with
      | [] => Ok (ProviderCommand_Seat command)
      | argument :: _ => Err ("unexpected seat argument " +:+ debug argument)
      end
  end.

Definition relative (path : option str) : bool :=
  match path with Some path => negb (is_absolute path) | None => false end.

(** The loop; [None] is the help. *)
Fixpoint parse_run (options : Options) (arguments : list str) : result (option Options) string :=
  match arguments with
  | [] =>
      if relative (Options_config options) then Err "--config requires an absolute path"%string
      else if relative (Options_socket options) then Err "--socket requires an absolute path"%string
      else Ok (Some options)
  | argument :: arguments =>
      if bool_decide (argument = bstr "--config") then
        if bool_decide (is_Some (Options_config options)) then Err "--config may be specified only once"%string
        else match arguments with
             | path :: arguments => parse_run (with_config path options) arguments
             | [] => Err "--config requires an absolute path"%string
             end
      else if bool_decide (argument = bstr "--socket") then
        if bool_decide (is_Some (Options_socket options)) then Err "--socket may be specified only once"%string
        else match arguments with
             | path :: arguments => parse_run (with_socket path options) arguments
             | [] => Err "--socket requires an absolute path"%string
             end
      else if bool_decide (argument = bstr "--check-config") then
        if Options_check_config options then Err "--check-config may be specified only once"%string
        else parse_run (with_check_config options) arguments
      else if bool_decide (argument = bstr "--help") || bool_decide (argument = bstr "-h") then Ok None
      else Err ("unknown argument " +:+ debug argument)
  end.

Definition Options_parse (arguments : list str) : result ProviderCommand string :=
  match arguments with
  | argument :: rest =>
      if bool_decide (argument = bstr "seat") then parse_seat rest
      else result_map (λ o, match o with Some options => ProviderCommand_Run options | None => ProviderCommand_Help end)
             (parse_run Options_default arguments)
  | [] => result_map (λ o, match o with Some options => ProviderCommand_Run options | None => ProviderCommand_Help end)
            (parse_run Options_default [])
  end.
End options.

(** ** The system *)

(** A worker that runs one session. *)
Definition Worker : Type := Z.

Class ProviderSystem (W : Type) := {
  print : string → W → W;
  eprint : string → W → W;
  (** the two signal handlers that set the flag of [load_stopping] *)
  register_signals : M W string unit;
  (** one [accept] of the control listener, and the acknowledgement written *)
  control_accept : Z → W → Accept * W;
  acknowledge : bytes → W → W;
  seat_word : W → Z;
  set_seat_word : Z → W → W;
  listener_accept : Z → M W IoError Z;
  (** [session::reject_capacity(stream)] *)
  reject_stream : Z → W → W;
  (** a thread that runs [session::run] for the stream under the number *)
  spawn_worker : Z → Z → M W IoError Worker;
  is_finished : Worker → W → bool * W;
  (** [None] when the worker panicked *)
  join_worker : Worker → W → option (result unit string) * W;
  sleep : Z → W → W;
  (** a connection to a control socket: connect, bound, send and shut down, read *)
  control_connect : str → M W string Z;
  control_bound : Z → M W string unit;
  control_send : Z → bytes → M W string unit;
  control_read : Z → nat → M W string bytes
}.

Definition effect {S E A} (f : S → A * S) : M S E A := λ s, let '(a, s) := f s in (Ok a, s).
Definition change {S E} (f : S → S) : M S E unit := modify f.

(** How a run that does not fail ends; [ServeEnd_Running] and [ServeStop_OutOfFuel] are the
    model's own bounds. *)
Inductive ServeEnd := ServeEnd_Done | ServeEnd_Running.
Inductive ServeStop := ServeStop_Error (message : string) | ServeStop_OutOfFuel.

Section provider.
Context {W : Type} `{OwnershipServer W, Files W, PolicyFiles W, RuntimeSystem W, MarkerFiles W}.
Context `{Processes W, Shared W, ProviderSystem W}.
Context (from_toml : str → result RawConfig string) {D : Type} (parse_document : str → result D string).
Context (debug : str → string) (euid pid : Z) (env : string → option str).

Definition stop {A} (m : M W string A) : M W ServeStop A := map_error ServeStop_Error m.

(** What is dropped when a computation fails. *)
Definition on_error {E A} (cleanup : M W string unit) (m : M W E A) : M W E A :=
  let! result := attempt m in
  match result with
  | Ok a => ret a
  | Err error => ignore cleanup ;! fail error
  end.

(** ** Seat control from the command line *)

Definition seat_request (path : str) (command : ControlCommand) : M W string SeatStatus :=
  let! stream := prefixed "cannot connect to running provider seat control" (control_connect path) in
  prefixed "cannot bound seat-control I/O" (control_bound stream) ;!
  prefixed "cannot send seat-control request" (control_send stream (encode_request command)) ;!
  let! response := attempt (control_read stream RESPONSE_BYTES) in
  lift (request_outcome response).

Definition command_of (command : RuntimeSeatCommand) : ControlCommand :=
  match command with
  | RuntimeSeatCommand_Status => ControlCommand_Status
  | RuntimeSeatCommand_Enable => ControlCommand_Enable
  | RuntimeSeatCommand_Disable => ControlCommand_Disable
  end.

Definition control_runtime_seat (command : RuntimeSeatCommand) : M W string SeatStatus :=
  let! provider := advertised_socket in
  let! path := lift (control_socket_path env provider) in
  seat_request path (command_of command).

Definition RuntimeSeatStatus_to_string (self : SeatStatus) : string :=
  "Seat " +:+ (if SeatStatus_enabled self then "enabled" else "disabled") +:+ " (generation "
  +:+ string_of_str (to_dec (SeatStatus_generation self)) +:+ ").".

(** ** Private devices *)

Fixpoint require_hidden (device_root : str) (names : list str) : M W string unit :=
  match names with
  | [] => ret tt
  | relative :: names =>
      let path := path_join device_root relative in
      let! metadata := attempt (symlink_metadata path) in
      match metadata with
      | Err error =>
          match IoError_kind error with
          | IoError_NotFound => require_hidden device_root names
          | _ => fail ("input.provider_private_devices cannot verify that " +:+ debug path +:+ " is hidden")
          end
      | Ok _ =>
          fail ("input.provider_private_devices requires " +:+ debug path
                +:+ " to be hidden; start the documented private-device user service")
      end
  end.

Definition require_private_input_devices (device_root : str) : M W string unit :=
  require_hidden device_root [bstr "input"; bstr "uinput"].

(** ** Workers *)

Definition report_session (worker : Worker) : M W ServeStop unit :=
  let! outcome := effect (join_worker worker) in
  match outcome with
  | Some (Ok _) => ret tt
  | Some (Err error) => change (eprint ("agent-seat-x11: session ended: " +:+ error))
  | None => change (eprint "agent-seat-x11: session worker panicked")
  end.

(** [while index < sessions.len()]: every round shortens what is left by one. *)
Fixpoint reap_workers_from (rounds : nat) (index : nat) (sessions : list Worker) : M W ServeStop (list Worker) :=
  match rounds with
  | O => ret sessions
  | S rounds =>
      match sessions !! index with
      | None => ret sessions
      | Some worker =>
          let! finished := effect (is_finished worker) in
          if (finished : bool) then report_session worker ;! reap_workers_from rounds index (swap_remove index sessions)
          else reap_workers_from rounds (Nat.succ index) sessions
      end
  end.
Definition reap_workers (sessions : list Worker) : M W ServeStop (list Worker) :=
  reap_workers_from (length sessions) 0 sessions.

(** [seat::handle_pending(control.listener(), &seat)] *)
Definition seat_control (control : Z) : M W ServeStop unit :=
  let! accepted := effect (control_accept control) in
  let! gate := gets seat_word in
  let '(gate, acknowledgement, outcome) := handle_pending euid accepted gate in
  change (set_seat_word gate) ;!
  match acknowledgement with Some bytes => change (acknowledge bytes) | None => ret tt end ;!
  lift (map_err ServeStop_Error outcome).

(** [launcher.reap()] *)
Definition reap_launcher : M W ServeStop unit :=
  let! launcher := gets get_launcher in
  let! left_ := map_error (λ _, ServeStop_OutOfFuel) (reap_children (children launcher)) in
  change (λ w, put_launcher (set_children left_ (get_launcher w, w)).1 w).

(** One connection, or a pause: the workers and the number of the next session. *)
Definition admit_connection (max_sessions : Z) (listener : Z) (sessions : list Worker) (next_session : Z)
  : M W ServeStop (list Worker * Z) :=
  let! accepted := attempt (listener_accept listener) in
  match accepted with
  | Ok stream =>
      if max_sessions <=? len sessions then
        change (reject_stream stream) ;! ret (sessions, next_session)
      else if next_session =? 0 then fail (ServeStop_Error "session identity space is exhausted")
      else
        let! next := lift (ok_or (checked_u64 (next_session + 1)) (ServeStop_Error "session identity space is exhausted")) in
        let! worker := map_error (λ error, ServeStop_Error ("cannot start bounded session worker: " +:+ IoError_text error))
                         (spawn_worker next_session stream) in
        ret (sessions ++ [worker], next)
  | Err error =>
      match IoError_kind error with
      | IoError_WouldBlock => change (sleep (10 * 1000000)) ;! ret (sessions, next_session)
      | _ => fail (ServeStop_Error ("provider listener failed: " +:+ IoError_text error))
      end
  end.

(** Why the loop ended, with the workers that are left. *)
Inductive TurnsEnd :=
| TurnsEnd_Stopping (sessions : list Worker)
| TurnsEnd_Lost (sessions : list Worker)
| TurnsEnd_Running (sessions : list Worker).

Fixpoint turns (rounds fuel : nat) (max_sessions listener control : Z) (ownership : Ownership)
    (sessions : list Worker) (next_session : Z) : M W ServeStop TurnsEnd :=
  match rounds with
  | O => ret (TurnsEnd_Running sessions)
  | S rounds =>
      let! stopping := effect load_stopping in
      if (stopping : bool) then ret (TurnsEnd_Stopping sessions)
      else
        seat_control control ;!
        let! sessions := reap_workers sessions in
        reap_launcher ;!
        let! ownership_lost := stop (lost fuel ownership) in
        match ownership_lost with
        | None => fail ServeStop_OutOfFuel
        | Some true => ret (TurnsEnd_Lost sessions)
        | Some false =>
            let! '(sessions, next_session) := admit_connection max_sessions listener sessions next_session in
            turns rounds fuel max_sessions listener control ownership sessions next_session
        end
  end.

(** The loop, and what follows it; an owner that was not withdrawn is dropped. *)
Definition serve_turns (rounds fuel : nat) (max_sessions listener control : Z) (ownership : Ownership)
  : M W ServeStop ServeEnd :=
  let! ended := on_error (drop_ownership ownership)
                  (turns rounds fuel max_sessions listener control ownership [] 1) in
  match ended with
  | TurnsEnd_Running _ => ret ServeEnd_Running
  | TurnsEnd_Stopping sessions =>
      for_each report_session sessions ;!
      let! '(released, _) := stop (withdraw ownership) in
      lift (map_err ServeStop_Error released) ;!
      ret ServeEnd_Done
  | TurnsEnd_Lost sessions =>
      for_each report_session sessions ;!
      ignore (drop_ownership ownership) ;!
      fail (ServeStop_Error "Agent Seat selection ownership was lost")
  end.

(** The two listeners are dropped when it has ended. *)
Definition serve (rounds fuel : nat) (getrandom : Z → M W string bytes) (config : Config)
    (listener control : ListenerGuard) (ownership : Ownership) : M W ServeStop ServeEnd :=
  let! result := attempt (
    let! launcher := on_error (drop_ownership ownership)
      (stop (LaunchSupervisor_new pid getrandom (InputPolicy_provider_private_devices (Config_input config)))) in
    change (put_launcher launcher) ;!
    change (set_seat_word SeatGate_new) ;!
    serve_turns rounds fuel (Config_max_sessions config) (ListenerGuard_listener listener)
      (ListenerGuard_listener control) ownership) in
  match result with
  | Ok ServeEnd_Running => ret ServeEnd_Running
  | _ =>
      ignore (drop_listener_guard control) ;!
      ignore (drop_listener_guard listener) ;!
      lift result
  end.

(** ** The program *)

(** From the policy to the listeners, the owner and the marker; what was acquired before a
    failure is dropped, the last first. *)
Definition start (options : Options) (snapshot : PolicySnapshot D) (config : Config)
  : M W string (ListenerGuard * ListenerGuard * Ownership * option ActivePolicyGuard) :=
  (if InputPolicy_provider_private_devices (Config_input config)
   then require_private_input_devices (bstr "/dev") else ret tt) ;!
  let! screen := selected_screen in
  let! listener := ListenerGuard_bind euid env (Options_socket options) screen in
  on_error (drop_listener_guard listener) (
    let! ownership := Ownership_claim (ListenerGuard_path listener) in
    on_error (drop_ownership ownership) (
      if negb (Ownership_screen ownership =? screen)
      then fail "selected X11 screen changed during provider startup"%string
      else
        let! path := lift (control_socket_path env (ListenerGuard_path listener)) in
        let! control := ListenerGuard_bind euid env (Some path) screen in
        on_error (drop_listener_guard control) (
          let! published := attempt (ActivePolicyGuard_publish euid pid env snapshot) in
          let! active :=
            match published with
            | Ok guard => ret (Some guard)
            | Err error =>
                change (eprint ("agent-seat-x11: active-policy status unavailable: " +:+ error)) ;! ret None
            end in
          on_error (match active with Some guard => drop_active_policy_guard guard | None => ret tt end)
            (prefixed "cannot install shutdown handlers" register_signals) ;!
          change (eprint ("agent-seat-x11: ready on screen " +:+ string_of_str (to_dec screen) +:+ " at "
                          +:+ display (ListenerGuard_path listener)
                          +:+ "; seat disabled until `agent-seat-x11 seat enable`")) ;!
          ret (listener, control, ownership, active)))).

(** The help and the text on the first run are not spelled out. *)
Context (HELP FIRST_RUN : string).

Definition run_provider (rounds fuel : nat) (getrandom : Z → M W string bytes) (options : Options)
  : M W ServeStop ServeEnd :=
  let creates := bool_decide (Options_config options = None) && bool_decide (Options_socket options = None)
                 && negb (Options_check_config options) in
  let! default := stop (lift (default_path (env "XDG_CONFIG_HOME"%string) (env "HOME"%string))) in
  let config_path := match Options_config options with Some path => path | None => default end in
  let! created := if creates then stop (create_first_run_config euid config_path) else ret false in
  if (created : bool) then change (print FIRST_RUN) ;! ret ServeEnd_Done
  else if Options_check_config options then
    let! enabled := stop (Config_check from_toml parse_document euid config_path) in
    change (print (display config_path +:+ ": valid and "
                   +:+ (if (enabled : bool) then "enabled" else "disabled"))) ;!
    ret ServeEnd_Done
  else
    let! '(snapshot, config) := stop (Config_load from_toml parse_document euid config_path) in
    let! '(listener, control, ownership, active) := stop (start options snapshot config) in
    let! result := attempt (serve rounds fuel getrandom config listener control ownership) in
    match result, active with
    | Ok ServeEnd_Running, _ | _, None => lift result
    | _, Some guard => ignore (drop_active_policy_guard guard) ;! lift result
    end.

Definition run (rounds fuel : nat) (getrandom : Z → M W string bytes) (arguments : list str) : M W ServeStop ServeEnd :=
  let! command := stop (lift (Options_parse debug arguments)) in
  match command with
  | ProviderCommand_Help => change (print HELP) ;! ret ServeEnd_Done
  | ProviderCommand_Seat command =>
      let! status := stop (control_runtime_seat command) in
      change (print (RuntimeSeatStatus_to_string status)) ;!
      ret ServeEnd_Done
  | ProviderCommand_Run options => run_provider rounds fuel getrandom options
  end.
End provider.
