(* ===== verification/ProviderTheorems.v ===== *)
(** * Properties of the provider's loop

    The workers that are started and joined and the connections that are turned away are
    noted in a journal.  The notes are those of a service that never has more workers than
    the policy allows, numbers its sessions from one without a gap and, when it is stopped,
    has joined every worker. *)

From S2P Require Import Prelude Text Effects Discovery Ownership SeatGate Host PolicyStore Launch Session Provider.

(** ** The journal *)

Inductive ServeNote :=
| ServeNote_Spawned (number stream : Z) (worker : Worker)
| ServeNote_Rejected (stream : Z)
| ServeNote_Joined (worker : Worker).

(** A provider whose system keeps the journal: the calls that are noted, and those that are
    not. *)
Class ServeJournal (W : Type) `{OwnershipServer W, Processes W, Shared W, ProviderSystem W} := {
  serve_journal :: Journaled W ServeNote;
  spawn_worker_noted number stream w :
    wp (spawn_worker number stream) (λ worker w', journal w' = journal w ++ [ServeNote_Spawned number stream worker])
      (λ _ w', journal w' = journal w) w;
  reject_stream_noted stream w : journal (reject_stream stream w) = journal w ++ [ServeNote_Rejected stream];
  join_worker_noted worker w : journal (snd (join_worker worker w)) = journal w ++ [ServeNote_Joined worker];
  is_finished_silent worker w : journal (snd (is_finished worker w)) = journal w;
  listener_accept_silent listener :: Preserves journal (listener_accept listener);
  control_accept_silent control w : journal (snd (control_accept control w)) = journal w;
  acknowledge_silent bytes w : journal (acknowledge bytes w) = journal w;
  set_seat_word_silent word w : journal (set_seat_word word w) = journal w;
  load_stopping_silent w : journal (snd (load_stopping w)) = journal w;
  put_launcher_silent launcher w : journal (put_launcher launcher w) = journal w;
  sleep_silent duration w : journal (sleep duration w) = journal w;
  eprint_silent text w : journal (eprint text w) = journal w;
  try_wait_silent child :: Preserves journal (try_wait child);
  wait_silent child :: Preserves journal (wait child);
  grab_server_silent :: Preserves journal grab_server;
  ungrab_server_silent :: Preserves journal ungrab_server;
  flush_silent :: Preserves journal flush;
  selection_owner_silent selection :: Preserves journal (selection_owner selection);
  set_selection_owner_silent owner selection :: Preserves journal (set_selection_owner owner selection);
  delete_property_silent window property :: Preserves journal (delete_property window property);
  destroy_window_silent window :: Preserves journal (destroy_window window);
  poll_for_event_silent :: Preserves journal poll_for_event
}.

(** ** The service *)

(** The workers that were started and not joined, and the number of the next session. *)
Inductive serves (max_sessions : Z) : list Worker * Z → list ServeNote → list Worker * Z → Prop :=
| serves_nothing live next : serves max_sessions (live, next) [] (live, next)
| serves_spawned live next stream worker notes after :
    len live < max_sessions → 0 < next < U64_MAX →
    serves max_sessions (live ++ [worker], next + 1) notes after →
    serves max_sessions (live, next) (ServeNote_Spawned next stream worker :: notes) after
| serves_rejected live next stream notes after :
    max_sessions ≤ len live → serves max_sessions (live, next) notes after →
    serves max_sessions (live, next) (ServeNote_Rejected stream :: notes) after
| serves_joined live live' next worker notes after :
    live ≡ₚ worker :: live' → serves max_sessions (live', next) notes after →
    serves max_sessions (live, next) (ServeNote_Joined worker :: notes) after.

Lemma serves_app max_sessions s1 n1 s2 n2 s3 :
  serves max_sessions s1 n1 s2 → serves max_sessions s2 n2 s3 → serves max_sessions s1 (n1 ++ n2) s3.
Proof. induction 1; intros; cbn; [done|econstructor; eauto..]. Qed.

(** What the notes say of themselves. *)
Definition spawned_numbers (notes : list ServeNote) : list Z :=
  omap (λ note, match note with ServeNote_Spawned number _ _ => Some number | _ => None end) notes.
Definition spawned_workers (notes : list ServeNote) : list Worker :=
  omap (λ note, match note with ServeNote_Spawned _ _ worker => Some worker | _ => None end) notes.
Definition joined_workers (notes : list ServeNote) : list Worker :=
  omap (λ note, match note with ServeNote_Joined worker => Some worker | _ => None end) notes.

Lemma serves_workers max_sessions live next notes live' next' :
  serves max_sessions (live, next) notes (live', next') →
  live ++ spawned_workers notes ≡ₚ joined_workers notes ++ live' ∧
  spawned_numbers notes = seqZ next (len (spawned_workers notes)) ∧
  next' = next + len (spawned_workers notes).
Proof.
  remember (live, next) as s eqn:Hs. remember (live', next') as s' eqn:Hs'. intros Hrun.
  revert live next Hs Hs'. induction Hrun as [|live next stream worker notes after Hlen Hnext _ IH|live next stream notes after Hfull _ IH
    |live rest next worker notes after Hperm _ IH]; intros ? ? [= <- <-] Heq; [injection Heq as <- <-|..].
  - cbn -[seqZ]. rewrite app_nil_r. by split_and!; [|rewrite seqZ_nil by done|unfold len; cbn; lia].
  - destruct (IH _ _ eq_refl Heq) as (IHl & IHn & ->).
    change (spawned_workers (_ :: notes)) with (worker :: spawned_workers notes).
    change (joined_workers (_ :: notes)) with (joined_workers notes).
    change (spawned_numbers (_ :: notes)) with (next :: spawned_numbers notes).
    assert (len (worker :: spawned_workers notes) = 1 + len (spawned_workers notes)) as -> by (unfold len; cbn [length]; lia).
    rewrite <- (assoc_L (++)) in IHl. split; [done|]. split; [|lia].
    rewrite (seqZ_cons next) by (unfold len; lia). f_equal. rewrite IHn. f_equal; lia.
  - by destruct (IH _ _ eq_refl Heq).
  - destruct (IH _ _ eq_refl Heq) as (IHl & IHn & ?). split; [|done].
    change (spawned_workers (_ :: notes)) with (spawned_workers notes).
    change (joined_workers (_ :: notes)) with (worker :: joined_workers notes). by rewrite Hperm; cbn [app]; rewrite IHl.
Qed.

Lemma serves_prefix max_sessions s notes s' :
  serves max_sessions s notes s' → len s.1 ≤ max_sessions →
  ∀ before after, notes = before ++ after → ∃ middle,
    serves max_sessions s before middle ∧ serves max_sessions middle after s' ∧ len middle.1 ≤ max_sessions.
Proof.
  induction 1 as [live next|live next stream worker notes after Hlen Hnext Hrun IH|live next stream notes after Hfull Hrun IH
    |live rest next worker notes after Hperm Hrun IH]; intros Hmax [|note before] rest' Heq; try discriminate Heq.
  all: try (cbn in Heq; subst rest'; eexists; split; [constructor|split; [by econstructor|done]]).
  all: injection Heq as <- ->.
  - destruct (IH ltac:(unfold len in *; cbn in *; rewrite length_app; cbn; lia) _ _ eq_refl) as (m & ? & ? & ?). exists m. by split; [econstructor|].
  - destruct (IH Hmax _ _ eq_refl) as (m & ? & ? & ?). exists m. by split; [econstructor|].
  - apply Permutation_length in Hperm as Hl. destruct (IH ltac:(unfold len in *; cbn in *; lia) _ _ eq_refl) as (m & ? & ? & ?). exists m. by split; [econstructor|].
Qed.

(** ** The loop *)

Lemma swap_remove_perm {A} index (l : list A) x : l !! index = Some x → l ≡ₚ x :: swap_remove index l.
Proof.
  intros Hx. unfold swap_remove. destruct l as [|y l _] using rev_ind; [by rewrite lookup_nil in Hx|].
  rewrite last_snoc, removelast_last, length_app. cbn [length]. case_decide as Hlast.
  - rewrite lookup_app_r in Hx by lia. replace (index - length l)%nat with 0%nat in Hx by lia.
    injection Hx as ->. by rewrite Permutation_app_comm.
  - assert (index < length l)%nat as Hin.
    { apply lookup_lt_Some in Hx. rewrite length_app in Hx. cbn in Hx. lia. }
    rewrite lookup_app_l in Hx by done. rewrite (insert_take_drop l index y Hin).
    rewrite <- (take_drop_middle l index x Hx) at 1. rewrite Permutation_app_comm. cbn [app].
    rewrite <- (Permutation_middle (take index l)). rewrite <- (Permutation_middle (take index l)). apply perm_swap.
Qed.

Section provider.
Context {W : Type} `{ServeJournal W}.

Lemma change_silent {E} (f : W → W) : (∀ w, journal (f w) = journal w) → Preserves (E:=E) journal (change f).
Proof. intros Hf w. apply Hf. Qed.
Lemma effect_silent {E A} (f : W → A * W) : (∀ w, journal (snd (f w)) = journal w) → Preserves (E:=E) journal (effect f).
Proof. intros Hf w. specialize (Hf w). unfold effect. by destruct (f w). Qed.

#[local] Hint Resolve change_silent effect_silent : core.
Ltac silent :=
  repeat first
    [ progress intros
    | match goal with |- Preserves _ (match ?x with _ => _ end) => destruct x end
    | solve [apply _]
    | apply bind_preserves | apply change_silent | apply effect_silent ];
  auto using acknowledge_silent, set_seat_word_silent, put_launcher_silent, sleep_silent, eprint_silent,
    control_accept_silent, load_stopping_silent, is_finished_silent.

#[local] Instance release_silent root owner selection property :
  Preserves journal (Ownership.release root owner selection property).
Proof. unfold Ownership.release, x11_error. silent. Qed.
#[local] Instance withdraw_silent ownership : Preserves journal (withdraw ownership).
Proof. unfold withdraw, release_of. silent. Qed.
#[local] Instance drop_ownership_silent ownership : Preserves journal (drop_ownership ownership).
Proof. unfold drop_ownership, unchecked, release_of. silent. Qed.
#[local] Instance lost_silent fuel ownership : Preserves journal (lost fuel ownership).
Proof. induction fuel as [|fuel IH]; cbn [lost]; unfold x11_error; silent. Qed.
#[local] Instance reap_children_silent children : Preserves journal (reap_children children).
Proof.
  unfold reap_children. generalize (length children) 0%nat. intros rounds.
  revert children. induction rounds as [|rounds IH]; intros children index; cbn [reap_from]; silent.
Qed.
#[local] Instance reap_launcher_silent : Preserves journal reap_launcher.
Proof. unfold reap_launcher. silent. Qed.
#[local] Instance seat_control_silent euid control : Preserves journal (seat_control euid control).
Proof. unfold seat_control. silent. Qed.

Context (max_sessions : Z).
Notation State := (list Worker * Z)%type.

(** From a service in one state to one in another. *)
Definition services {E A} (s : State) (m : M W E A) (Q : A → State → Prop) : Prop :=
  logs m (λ a notes, ∃ s', serves max_sessions s notes s' ∧ Q a s') (λ notes, ∃ s', serves max_sessions s notes s').

Lemma services_bind {E A B} s (m : M W E A) (k : A → M W E B) Q Q' :
  services s m Q → (∀ a s', Q a s' → services s' (k a) Q') → services s (bind m k) Q'.
Proof.
  intros Hm Hk. eapply logs_bind; [exact Hm|done|]. intros a n1 (s1 & Hn1 & Ha).
  eapply logs_mono; [by apply (Hk a s1)|..].
  - intros b n2 (s2 & Hn2 & Hb). exists s2. split; [by eapply serves_app|done].
  - intros n2 (s2 & Hn2). exists s2. by eapply serves_app.
Qed.
Lemma services_ret {E A} s (a : A) (Q : A → State → Prop) : Q a s → services (E:=E) s (ret a) Q.
Proof. intros Ha. apply logs_ret. exists s. split; [destruct s; constructor|done]. Qed.
Lemma services_quiet {E A} s (m : M W E A) (Q : A → State → Prop) :
  Preserves journal m → (∀ a, Q a s) → services s m Q.
Proof. intros Hm HQ. apply logs_preserves; [done|..]; intros; exists s; [split|]; destruct s; try constructor; auto. Qed.
Lemma services_quietly {E A B} s (m : M W E A) (k : A → M W E B) Q :
  Preserves journal m → (∀ a, services s (k a) Q) → services s (bind m k) Q.
Proof. intros Hm Hk. eapply services_bind; [by apply (services_quiet _ _ (λ _ s', s' = s))|]. by intros a s' ->. Qed.
Lemma services_error {E A} s (e : E) (Q : A → State → Prop) : services s (lift (Err e)) Q.
Proof. intros w. exists []. rewrite app_nil_r. split; [done|]. exists s. destruct s; constructor. Qed.
Lemma services_mono {E A} s (m : M W E A) (Q Q' : A → State → Prop) :
  services s m Q → (∀ a s', Q a s' → Q' a s') → services s m Q'.
Proof. intros Hm HQ. eapply logs_mono; [exact Hm| |done]. intros a n (s' & ? & ?). eauto. Qed.

Lemma services_report live live' next worker :
  live ≡ₚ worker :: live' → services (live, next) (report_session worker) (λ _ s', s' = (live', next)).
Proof.
  intros Hlive. unfold report_session. eapply services_bind with (Q := λ _ s', s' = (live', next)).
  - intros w. unfold effect, wp. pose proof (join_worker_noted worker w) as Hjoin. destruct (join_worker worker w) as [r w'].
    exists [ServeNote_Joined worker]. split; [exact Hjoin|]. exists (live', next). split; [|done]. econstructor; [done|constructor].
  - intros outcome s' ->. apply services_quiet; [silent|done].
Qed.

Lemma services_reap rounds index live next :
  services (live, next) (reap_workers_from rounds index live) (λ sessions s', s' = (sessions, next)).
Proof.
  revert index live. induction rounds as [|rounds IH]; intros index live; cbn [reap_workers_from]; [by apply services_ret|].
  destruct (live !! index) as [worker|] eqn:Hworker; [|by apply services_ret].
  apply services_quietly; [silent|]. intros []; [|apply IH].
  eapply services_bind; [apply services_report, (swap_remove_perm _ _ _ Hworker)|]. intros _ s' ->. apply IH.
Qed.

Lemma services_join_all live next :
  services (live, next) (for_each report_session live) (λ _ s', s' = ([], next)).
Proof.
  induction live as [|worker live IH]; cbn [for_each]; [by apply services_ret|].
  eapply services_bind; [by apply services_report|]. intros _ s' ->. apply IH.
Qed.

Lemma services_admit listener live next :
  1 ≤ next ≤ U64_MAX →
  services (live, next) (admit_connection max_sessions listener live next) (λ a s', s' = a ∧ 1 ≤ snd a ≤ U64_MAX).
Proof.
  intros Hnext. unfold admit_connection. apply services_quietly; [silent|]. intros [stream|error].
  - destruct (Z.leb_spec max_sessions (len live)) as [Hfull|Hroom].
    + eapply services_bind with (Q := λ _ s', s' = (live, next)).
      * intros w. exists [ServeNote_Rejected stream]. split; [apply reject_stream_noted|].
        exists (live, next). split; [by repeat constructor|done].
      * intros _ s' ->. by apply services_ret.
    + destruct (Z.eqb_spec next 0) as [->|_]; [lia|].
      unfold checked_u64, checked_in. destruct (andb _ _) eqn:Hin; cbn [ok_or];
        [|by eapply services_bind; [apply (services_error _ _ (λ _ _, False))|]].
      apply andb_true_iff in Hin as [_ Hin]. apply Z.leb_le in Hin.
      change (services (live, next) (
        let! worker := map_error (λ error, ServeStop_Error ("cannot start bounded session worker: " +:+ IoError_text error))
                         (spawn_worker next stream) in
        ret (live ++ [worker], next + 1)) (λ a s', s' = a ∧ 1 ≤ snd a ≤ U64_MAX)).
      eapply services_bind with (Q := λ worker s', s' = (live ++ [worker], next + 1)).
      * apply logs_map_error. intros w. eapply wp_mono; [apply spawn_worker_noted| |].
        -- intros worker w' Hw'. exists [ServeNote_Spawned next stream worker]. split; [done|].
           eexists. split; [|done]. constructor; [done|lia|constructor].
        -- intros e w' Hw'. exists []. rewrite app_nil_r. split; [done|]. exists (live, next). constructor.
      * intros worker s' ->. apply services_ret. cbn. split; [done|lia].
  - destruct (IoError_kind error); try (by apply services_error).
    apply services_quietly; [silent|]. intros _. by apply services_ret.
Qed.

(** The workers that are left when the loop ends. *)
Definition left_of (ended : TurnsEnd) : list Worker :=
  match ended with TurnsEnd_Stopping live | TurnsEnd_Lost live | TurnsEnd_Running live => live end.

Lemma services_turns euid rounds fuel listener control ownership live next :
  1 ≤ next ≤ U64_MAX →
  services (live, next) (turns euid rounds fuel max_sessions listener control ownership live next)
    (λ ended s', fst s' = left_of ended).
Proof.
  revert live next. induction rounds as [|rounds IH]; intros live next Hnext; cbn [turns]; [by apply services_ret|].
  apply services_quietly; [silent|]. intros []; [by apply services_ret|].
  apply services_quietly; [apply _|]. intros _.
  eapply services_bind; [apply services_reap|]. intros live' s' ->.
  apply services_quietly; [apply _|]. intros _.
  apply services_quietly; [apply _|]. intros [[]|]; [by apply services_ret| |by apply services_error].
  eapply services_bind; [by apply services_admit|]. intros [live2 next2] s' [-> Hnext2]. by apply IH.
Qed.

Lemma services_on_error {E A} s (cleanup : M W string unit) (m : M W E A) Q :
  Preserves journal cleanup → services s m Q → services s (on_error cleanup m) Q.
Proof.
  intros Hcleanup Hm. eapply services_bind with
    (Q := λ r s', match r with Ok a => Q a s' | Err _ => True end).
  - eapply logs_mono; [apply (logs_attempt _ _ _ (λ _, False) Hm)| |done].
    intros [a|e] n; [done|]. intros (s' & Hn). by exists s'.
  - intros [a|e] s' Ha; [by apply services_ret|]. apply services_quietly; [unfold PolicyStore.ignore; silent|].
    intros _. apply services_error.
Qed.

Lemma services_serve_turns euid rounds fuel listener control ownership :
  services ([], 1) (serve_turns euid rounds fuel max_sessions listener control ownership)
    (λ ended s', ended = ServeEnd_Done → fst s' = []).
Proof.
  unfold serve_turns. eapply services_bind.
  { apply services_on_error; [apply _|]. by apply services_turns. }
  intros [live|live|live] [live' next]; cbn [left_of fst]; intros ->; [..|by apply services_ret].
  - eapply services_bind; [apply services_join_all|]. intros _ s' ->.
    apply services_quietly; [silent|]. intros [released ?]. apply services_quiet; [silent|done].
  - eapply services_bind; [apply services_join_all|]. intros _ s' ->.
    apply services_quietly; [unfold PolicyStore.ignore; silent|]. intros _. apply services_error.
Qed.
End provider.

(** C36: the sessions of a provider are bounded and numbered: however it runs, before each of
    its calls at most as many workers are unjoined as the policy allows; a connection is
    turned away only when there are as many; the sessions are numbered from one without a
    gap; only workers that were started are joined, each once; and when the loop is stopped
    and ends without an error, every worker that was started has been joined. *)
Theorem sessions_bounded {W} `{ServeJournal W} euid rounds fuel max_sessions listener control ownership w :
  0 ≤ max_sessions →
  let r := (serve_turns euid rounds fuel max_sessions listener control ownership w).1 in
  let w' := (serve_turns euid rounds fuel max_sessions listener control ownership w).2 in
  ∃ notes live, journal w' = journal w ++ notes ∧
    spawned_workers notes ≡ₚ joined_workers notes ++ live ∧
    spawned_numbers notes = seqZ 1 (len (spawned_workers notes)) ∧
    (r = Ok ServeEnd_Done → live = []) ∧
    ∀ before after, notes = before ++ after → ∃ unjoined,
      spawned_workers before ≡ₚ joined_workers before ++ unjoined ∧ len unjoined ≤ max_sessions ∧
      ∀ stream rest, after = ServeNote_Rejected stream :: rest → len unjoined = max_sessions.
Proof.
  intros Hmax. cbv zeta.
  pose proof (services_serve_turns max_sessions euid rounds fuel listener control ownership w) as Hrun. unfold wp in Hrun.
  assert (∃ notes s', journal (serve_turns euid rounds fuel max_sessions listener control ownership w).2 = journal w ++ notes ∧
    serves max_sessions ([], 1) notes s' ∧
    ((serve_turns euid rounds fuel max_sessions listener control ownership w).1 = Ok ServeEnd_Done → s'.1 = []))
    as (notes & [live next] & Hnotes & Hserves & Hdone).
  { destruct (serve_turns _ _ _ _ _ _ _ w) as [[ended|error] w'];
      destruct Hrun as (notes & Hnotes & s' & Hs'); exists notes, s'; (split; [done|]); [|done].
    destruct Hs' as [Hserves Hended]. split; [done|]. intros [= ->]. by apply Hended. }
  destruct (serves_workers _ _ _ _ _ _ Hserves) as (Hworkers & Hnumbers & _).
  exists notes, live. split_and!; [done..|]. intros before after Heq.
  destruct (serves_prefix _ _ _ _ Hserves Hmax _ _ Heq) as ([unjoined next'] & Hbefore & Hafter & Hlen).
  exists unjoined. destruct (serves_workers _ _ _ _ _ _ Hbefore) as (Hb & _ & _). split; [done|]. split; [done|].
  intros stream rest ->. inversion Hafter; subst. cbn in Hlen. lia.
Qed.

(** ** A concrete run

    One session at a time: the second connection is turned away, the third is served when
    the first session has ended, and a signal stops the provider. *)

Module ProviderToy.
Record World := { World_notes : list ServeNote; World_signals : list bool; World_streams : list Z; World_finished : list bool }.
Definition note (n : ServeNote) (w : World) : World :=
  {| World_notes := World_notes w ++ [n]; World_signals := World_signals w; World_streams := World_streams w;
     World_finished := World_finished w |}.

#[export] Instance discovery : DiscoveryServer World := {
  environment _ _ := None;
  connect_x11 := ret (0, [30]);
  existing_atom _ := ret 5;
  selection_owner _ := ret 77;
  window_property _ _ _ := fail "no property"%string
}.
#[export] Instance server : OwnershipServer World := {
  intern_atom _ := ret 5;
  generate_id := ret 77;
  create_window _ _ := ret tt;
  destroy_window _ := ret tt;
  grab_server := ret tt;
  ungrab_server := ret tt;
  flush := ret tt;
  set_selection_owner _ _ := ret tt;
  change_property8 _ _ _ _ := ret tt;
  delete_property _ _ := ret tt;
  poll_for_event := ret None
}.
#[export] Instance processes : Processes World := {
  spawn _ := ret 7;
  try_wait _ := ret false;
  wait _ := ret tt
}.
#[export] Instance shared : Shared World := {
  get_launcher _ := {| next_token := 1; children := [4]; delegate_via_systemd := false; delegated_unit_stem := [] |};
  put_launcher _ w := w;
  claim_slot w := (true, w);
  release_slot w := w;
  load_stopping w := (from_option id true (head (World_signals w)),
    {| World_notes := World_notes w; World_signals := tail (World_signals w); World_streams := World_streams w;
       World_finished := World_finished w |})
}.
#[export] Instance system : ProviderSystem World := {
  print _ w := w;
  eprint _ w := w;
  register_signals := ret tt;
  control_accept _ w := (Accept_WouldBlock, w);
  acknowledge _ w := w;
  seat_word _ := 0;
  set_seat_word _ w := w;
  listener_accept _ w :=
    match World_streams w with
    | stream :: rest => (Ok stream, {| World_notes := World_notes w; World_signals := World_signals w;
                                       World_streams := rest; World_finished := World_finished w |})
    | [] => (Err {| IoError_kind := IoError_WouldBlock; IoError_text := "no connection"%string |}, w)
    end;
  reject_stream stream := note (ServeNote_Rejected stream);
  spawn_worker number stream w := (Ok (100 + number), note (ServeNote_Spawned number stream (100 + number)) w);
  is_finished _ w := (from_option id true (head (World_finished w)),
    {| World_notes := World_notes w; World_signals := World_signals w; World_streams := World_streams w;
       World_finished := tail (World_finished w) |});
  join_worker worker w := (Some (Ok tt), note (ServeNote_Joined worker) w);
  sleep _ w := w;
  control_connect _ := ret 3;
  control_bound _ := ret tt;
  control_send _ _ := ret tt;
  control_read _ _ := ret []
}.

#[export] Instance journaled : ServeJournal World.
Proof.
  refine {| serve_journal := World_notes |}; try (intros; apply _); try done.
  intros listener w. cbn. by destruct (World_streams w).
Defined.

Definition start : World := {|
  World_notes := []; World_signals := [false; false; false]; World_streams := [11; 12; 13];
  World_finished := [false; true] |}.
Definition ownership : Ownership :=
  {| Ownership_screen := 0; Ownership_root := 30; Ownership_owner := 77; Ownership_selection := 5;
     Ownership_property := 5; Ownership_active := true |}.
Definition run : result ServeEnd ServeStop * World := serve_turns 1000 5 3 1 20 21 ownership start.

Definition run_notes : list ServeNote :=
  [ServeNote_Spawned 1 11 101; ServeNote_Rejected 12; ServeNote_Joined 101; ServeNote_Spawned 2 13 102;
   ServeNote_Joined 102].

Lemma sessions_bounded_witness :
  run.1 = Ok ServeEnd_Done ∧ World_notes run.2 = run_notes ∧
  ∃ live, spawned_workers run_notes ≡ₚ joined_workers run_notes ++ live ∧ live = [].
Proof.
  assert (run.1 = Ok ServeEnd_Done ∧ World_notes run.2 = run_notes) as [Hdone Hnotes] by by vm_compute.
  split; [done|]. split; [done|].
  destruct (sessions_bounded 1000 5 3 1 20 21 ownership start ltac:(done))
    as (notes & live & Hjournal & Hworkers & _ & Hlive & _).
  exists live. change (World_notes run.2 = notes) in Hjournal. rewrite Hnotes in Hjournal. subst notes.
  split; [exact Hworkers|]. by apply Hlive.
Defined.
End ProviderToy.
