(* ===== verification/DeviceSet.v ===== *)
(** * [agent-seat-activity-broker/src/device_set.rs]: the reviewed device set

    A record lists the reviewed input devices, one line of nineteen tab-separated fields
    each, in increasing order of their event numbers, below a header line.  The decoder
    accepts only what the encoder writes.  A capability bitmap is compared with the event
    codes a device reports. *)

From Stdlib Require Import Sorted.
From stdpp Require Import sorting.
From S2P Require Import Prelude Text BrokerProtocol InputSet.

Definition DEVICE_SET_HEADER : bytes := bstr "agent-seat-device-set" ++ [9] ++ bstr "1" ++ [10].
Definition MAX_VALUE_BYTES : Z := 1024.
Definition MAX_CAPABILITY_VALUE_BYTES : Z := 4096.
Definition MAX_DEVICE_SET_BYTES : Z := 64 * 1024.

Inductive IdentityStrength := IdentityStrength_Topology | IdentityStrength_Serial.

Record DeviceIdentity := {
  DeviceIdentity_path : str;
  DeviceIdentity_bus : option str;
  DeviceIdentity_vendor : option str;
  DeviceIdentity_model : option str;
  DeviceIdentity_revision : option str;
  DeviceIdentity_serial : option str
}.

(** [values: [String; 10]] *)
Record DeviceCapabilities := { DeviceCapabilities_values : list str }.

Inductive CapabilityKind :=
| CapabilityKind_Absolute
| CapabilityKind_Event
| CapabilityKind_ForceFeedback
| CapabilityKind_Key
| CapabilityKind_Led
| CapabilityKind_Misc
| CapabilityKind_Relative
| CapabilityKind_Sound
| CapabilityKind_Switch
| CapabilityKind_Property.

(** A path is its bytes. *)
Record EnrolledDevice := {
  EnrolledDevice_event_number : Z;
  EnrolledDevice_sysfs_path : str;
  EnrolledDevice_classes : list str;
  EnrolledDevice_identity : DeviceIdentity;
  EnrolledDevice_capabilities : DeviceCapabilities
}.

Inductive DeviceSetError := DeviceSetError_Invalid | DeviceSetError_TooLarge.

Definition DeviceSetError_to_string (self : DeviceSetError) : string :=
  match self with
  | DeviceSetError_Invalid => "invalid reviewed device set"
  | DeviceSetError_TooLarge => "reviewed device set exceeds its bound"
  end.

(** ** Validation *)

(** [(0x20..=0x7e).contains(&byte)] *)
Definition is_printable (b : Z) : bool := within 32 126 b.

Definition validate_value (value : str) : result unit DeviceSetError :=
  if is_empty value || bool_decide (value = bstr "-") || (MAX_VALUE_BYTES <? len value)
     || negb (forallb is_printable value)
  then Err DeviceSetError_Invalid else Ok tt.

(** [byte == b' ' || byte.is_ascii_digit() || (b'a'..=b'f').contains(&byte)] *)
Definition is_bitmap_byte (b : Z) : bool := (b =? 32) || is_ascii_digit b || within 97 102 b.

Definition validate_capability_value (value : str) : result unit DeviceSetError :=
  if is_empty value || (MAX_CAPABILITY_VALUE_BYTES <? len value) || starts_with [32] value
     || ends_with [32] value || contains_str [32; 32] value || negb (forallb is_bitmap_byte value)
  then Err DeviceSetError_Invalid else Ok tt.

Fixpoint validate_values (values : list str) : result unit DeviceSetError :=
  match values with
  | [] => Ok tt
  | value :: values => validate_value value ;? validate_values values
  end.

Fixpoint validate_capability_values (values : list str) : result unit DeviceSetError :=
  match values with
  | [] => Ok tt
  | value :: values => validate_capability_value value ;? validate_capability_values values
  end.

Definition DeviceIdentity_new (path : str) (bus vendor model revision serial : option str)
  : result DeviceIdentity DeviceSetError :=
  validate_value path ;?
  validate_values (omap id [bus; vendor; model; revision; serial]) ;?
  if negb (Bool.eqb (bool_decide (is_Some vendor)) (bool_decide (is_Some model))) then Err DeviceSetError_Invalid
  else Ok {| DeviceIdentity_path := path; DeviceIdentity_bus := bus;
             DeviceIdentity_vendor := vendor; DeviceIdentity_model := model;
             DeviceIdentity_revision := revision; DeviceIdentity_serial := serial |}.

Definition DeviceIdentity_strength (self : DeviceIdentity) : IdentityStrength :=
  if bool_decide (is_Some (DeviceIdentity_serial self)) then IdentityStrength_Serial else IdentityStrength_Topology.

Definition DeviceCapabilities_new (values : list str) : result DeviceCapabilities DeviceSetError :=
  validate_capability_values values ;?
  Ok {| DeviceCapabilities_values := values |}.

Definition validate_sysfs_path (n : Z) (path : str) : result unit DeviceSetError :=
  if negb (is_absolute path) || negb (path_starts_with path (bstr "/sys/devices"))
     || bool_decide (file_name path ≠ Some (event_name n))
     || negb (forallb is_root_or_normal (components path))
  then Err DeviceSetError_Invalid else Ok tt.

Definition allowed_classes : list str :=
  [bstr "key"; bstr "keyboard"; bstr "mouse"; bstr "touchpad"; bstr "touchscreen"; bstr "tablet"].

(** [allowed.iter().position(..)] *)
Fixpoint position (class : str) (allowed : list str) : option nat :=
  match allowed with
  | [] => None
  | a :: allowed => if bool_decide (a = class) then Some O else S <$> position class allowed
  end.

Fixpoint validate_classes_from (seen : list str) (previous : option nat) (classes : list str)
  : result unit DeviceSetError :=
  match classes with
  | [] => Ok tt
  | class :: classes =>
      match position class allowed_classes with
      | None => Err DeviceSetError_Invalid
      | Some index =>
          if match previous with Some p => (index <=? p)%nat | None => false end
             || bool_decide (class ∈ seen)
          then Err DeviceSetError_Invalid
          else validate_classes_from (class :: seen) (Some index) classes
      end
  end.

Definition validate_classes (classes : list str) : result unit DeviceSetError :=
  if is_empty classes || (6 <? len classes) then Err DeviceSetError_Invalid
  else validate_classes_from [] None classes.

Definition EnrolledDevice_new (n : Z) (path : str) (classes : list str) (identity : DeviceIdentity)
  (capabilities : DeviceCapabilities) : result EnrolledDevice DeviceSetError :=
  validate_sysfs_path n path ;?
  validate_classes classes ;?
  Ok {| EnrolledDevice_event_number := n; EnrolledDevice_sysfs_path := path;
        EnrolledDevice_classes := classes; EnrolledDevice_identity := identity;
        EnrolledDevice_capabilities := capabilities |}.

(** ** Encoding *)

(** [U+FFFD] *)
Definition REPLACEMENT : str := [239; 191; 189].

(** [Path::display], as [String::from_utf8_lossy]: each maximal ill-formed part becomes
    one replacement character. *)
Fixpoint display_path (s : str) : str :=
  match s with
  | [] => []
  | b0 :: s1 =>
      if within 0 127 b0 then b0 :: display_path s1
      else match s1 with
      | [] => REPLACEMENT
      | b1 :: s2 =>
          if within 194 223 b0 then
            if cont b1 then b0 :: b1 :: display_path s2 else REPLACEMENT ++ display_path s1
          else if within 224 244 b0
                  && within (if b0 =? 224 then 160 else if b0 =? 240 then 144 else 128)
                            (if b0 =? 237 then 159 else if b0 =? 244 then 143 else 191) b1
          then match s2 with
          | [] => REPLACEMENT
          | b2 :: s3 =>
              if negb (cont b2) then REPLACEMENT ++ display_path s2
              else if within 224 239 b0 then b0 :: b1 :: b2 :: display_path s3
              else match s3 with
              | [] => REPLACEMENT
              | b3 :: s4 =>
                  if cont b3 then b0 :: b1 :: b2 :: b3 :: display_path s4
                  else REPLACEMENT ++ display_path s3
              end
          end
          else REPLACEMENT ++ display_path s1
      end
  end.

Definition optional (value : option str) : str := default (bstr "-") value.

(** The fields of one line, in the order of the format string. *)
Definition device_fields (device : EnrolledDevice) : list str :=
  [event_name (EnrolledDevice_event_number device);
   display_path (EnrolledDevice_sysfs_path device);
   join (bstr ",") (EnrolledDevice_classes device);
   DeviceIdentity_path (EnrolledDevice_identity device);
   optional (DeviceIdentity_bus (EnrolledDevice_identity device));
   optional (DeviceIdentity_vendor (EnrolledDevice_identity device));
   optional (DeviceIdentity_model (EnrolledDevice_identity device));
   optional (DeviceIdentity_revision (EnrolledDevice_identity device));
   optional (DeviceIdentity_serial (EnrolledDevice_identity device))]
  ++ DeviceCapabilities_values (EnrolledDevice_capabilities device).

Fixpoint encode_devices (output : bytes) (previous : option Z) (devices : list EnrolledDevice)
  : result bytes DeviceSetError :=
  match devices with
  | [] => Ok output
  | device :: devices =>
      let n := EnrolledDevice_event_number device in
      if match previous with Some p => n <=? p | None => false end then Err DeviceSetError_Invalid
      else
        validate_sysfs_path n (EnrolledDevice_sysfs_path device) ;?
        validate_classes (EnrolledDevice_classes device) ;?
        let output := output ++ join [9] (device_fields device) ++ [10] in
        if MAX_DEVICE_SET_BYTES <? len output then Err DeviceSetError_TooLarge
        else encode_devices output (Some n) devices
  end.

Definition encode_device_set (devices : list EnrolledDevice) : result bytes DeviceSetError :=
  if is_empty devices || (Z.of_nat MAX_EVENT_DESCRIPTORS <? len devices) then Err DeviceSetError_TooLarge
  else encode_devices DEVICE_SET_HEADER None devices.

(** ** Decoding *)

Definition parse_optional (value : str) : result (option str) DeviceSetError :=
  if bool_decide (value = bstr "-") then Ok None
  else validate_value value ;? Ok (Some value).

Definition canonical_event_number (value : str) : result Z DeviceSetError :=
  let? digits := ok_or (strip_prefix (bstr "event") value) DeviceSetError_Invalid in
  let? number := ok_or (parse_u32 digits) DeviceSetError_Invalid in
  if bool_decide (to_dec number ≠ digits) then Err DeviceSetError_Invalid else Ok number.

Definition decode_device (line : str) : result EnrolledDevice DeviceSetError :=
  match split 9 line with
  | [event; sysfs; classes; path; bus; vendor; model; revision; serial;
     abs; ev; ff; key; led; msc; rel; snd; sw; properties] =>
      let? number := canonical_event_number event in
      let? bus := parse_optional bus in
      let? vendor := parse_optional vendor in
      let? model := parse_optional model in
      let? revision := parse_optional revision in
      let? serial := parse_optional serial in
      let? identity := DeviceIdentity_new path bus vendor model revision serial in
      let? capabilities :=
        DeviceCapabilities_new [abs; ev; ff; key; led; msc; rel; snd; sw; properties] in
      EnrolledDevice_new number sysfs (split 44 classes) identity capabilities
  | _ => Err DeviceSetError_Invalid
  end.

Fixpoint decode_devices (devices : list EnrolledDevice) (ls : list str)
  : result (list EnrolledDevice) DeviceSetError :=
  match ls with
  | [] => Ok devices
  | line :: ls =>
      if Z.of_nat MAX_EVENT_DESCRIPTORS <=? len devices then Err DeviceSetError_TooLarge
      else
        let? device := decode_device line in
        decode_devices (devices ++ [device]) ls
  end.

Definition decode_device_set (source : bytes) : result (list EnrolledDevice) DeviceSetError :=
  if MAX_DEVICE_SET_BYTES <? len source then Err DeviceSetError_TooLarge
  else if negb (utf8_valid source) then Err DeviceSetError_Invalid
  else
    let? body := ok_or (strip_prefix DEVICE_SET_HEADER source) DeviceSetError_Invalid in
    if is_empty body || negb (ends_with [10] body) then Err DeviceSetError_Invalid
    else
      let? devices := decode_devices [] (lines body) in
      let? canonical := encode_device_set devices in
      if bool_decide (canonical ≠ source) then Err DeviceSetError_Invalid else Ok devices.

(** ** Capability bitmaps *)

Definition USIZE_BITS : Z := 64.

Definition hex_value (b : Z) : Z := if is_ascii_digit b then b - 48 else b - 87.

(** [usize::from_str_radix(word, 16).unwrap_or_default()] of a word of [0-9a-f]: zero when
    it is empty or does not fit. *)
Definition word_value (word : str) : Z :=
  let value := fold_left (λ acc b, 16 * acc + hex_value b) word 0 in
  if value <=? U64_MAX then value else 0.

(** [word.trailing_zeros()] of a nonzero word *)
Fixpoint positive_zeros (p : positive) : Z :=
  match p with
  | xO p => 1 + positive_zeros p
  | _ => 0
  end.
Definition word_trailing_zeros (word : Z) : Z :=
  match word with Zpos p => positive_zeros p | _ => USIZE_BITS end.

(** [while word != 0], at most once for each bit of the word. *)
Fixpoint word_codes (fuel : nat) (base word : Z) : list Z :=
  match fuel with
  | O => []
  | S fuel =>
      if word =? 0 then []
      else option_list (checked_u16 (Z.min (base + word_trailing_zeros word) U64_MAX))
           ++ word_codes fuel base (Z.land word (word - 1))
  end.

Fixpoint codes_from (index : Z) (words : list str) : list Z :=
  match words with
  | [] => []
  | word :: words =>
      word_codes 64 (Z.min (index * USIZE_BITS) U64_MAX) (word_value word)
      ++ codes_from (index + 1) words
  end.

Definition bitmap_codes (value : str) : list Z :=
  merge_sort Z.le (codes_from 0 (reverse (split 32 value))).

Definition capability_index (kind : CapabilityKind) : nat :=
  match kind with
  | CapabilityKind_Absolute => 0
  | CapabilityKind_Event => 1
  | CapabilityKind_ForceFeedback => 2
  | CapabilityKind_Key => 3
  | CapabilityKind_Led => 4
  | CapabilityKind_Misc => 5
  | CapabilityKind_Relative => 6
  | CapabilityKind_Sound => 7
  | CapabilityKind_Switch => 8
  | CapabilityKind_Property => 9
  end.

(** The index is below ten, the length of the array. *)
Definition DeviceCapabilities_matches (self : DeviceCapabilities) (kind : CapabilityKind)
  (actual : list Z) : bool :=
  bool_decide (bitmap_codes (nth (capability_index kind) (DeviceCapabilities_values self) []) = actual).

(** ** An example: the fixture of the unit tests *)

Definition example_device (serial : option str) : EnrolledDevice := {|
  EnrolledDevice_event_number := 2;
  EnrolledDevice_sysfs_path := bstr "/sys/devices/example/input/input2/event2";
  EnrolledDevice_classes := [bstr "key"; bstr "keyboard"];
  EnrolledDevice_identity := {|
    DeviceIdentity_path := bstr "pci-0000:00:01.0-usb-0:1:1.0";
    DeviceIdentity_bus := Some (bstr "usb"); DeviceIdentity_vendor := Some (bstr "046d");
    DeviceIdentity_model := Some (bstr "c548"); DeviceIdentity_revision := Some (bstr "0504");
    DeviceIdentity_serial := serial |};
  EnrolledDevice_capabilities := {|
    DeviceCapabilities_values := [bstr "0"; bstr "120013"; bstr "0"; bstr "1000000000007 ff9f207ac14057ff";
      bstr "1f"; bstr "10"; bstr "0"; bstr "0"; bstr "0"; bstr "0"] |} |}.

Example device_sets_run :
  match encode_device_set [example_device (Some (bstr "receiver-1"))] with
  | Ok b => decode_device_set b = Ok [example_device (Some (bstr "receiver-1"))]
  | Err _ => False
  end ∧
  DeviceCapabilities_matches (EnrolledDevice_capabilities (example_device None)) CapabilityKind_Event
    [0; 1; 4; 17; 20] = true.
Proof. vm_compute. split; reflexivity. Qed.
