(* ===== verification/DeviceSetTheorems.v ===== *)
(** * Properties of the device set

    The record is canonical: it decodes exactly when it is what the encoder writes for the
    devices it lists; and a capability bitmap is compared bit by bit. *)

From Stdlib Require Import Sorted.
From stdpp Require Import sorting.
From S2P Require Import Prelude Text BrokerProtocol InputSet DeviceSet.

(** ** Text *)

(** The first character of a valid string, and the valid rest. *)
Lemma utf8_first b0 s :
  utf8_valid (b0 :: s) = true →
  ∃ rest t, s = rest ++ t ∧ Forall (λ b, cont b = true) rest ∧ utf8_valid (b0 :: rest) = true ∧
            utf8_valid t = true.
Proof.
  unfold utf8_valid. cbn [utf8_decode]. intros Hd.
  destruct (within 0 127 b0) eqn:H0.
  { exists [], s. cbn [utf8_decode]. by destruct (utf8_decode s). }
  destruct s as [|b1 s]; [done|]. destruct (within 194 223 b0) eqn:H1.
  { exists [b1], s. cbn [utf8_decode]. destruct (cont b1) eqn:Hc; [|done].
    split_and!; [done|by repeat constructor|done|]. by destruct (utf8_decode s). }
  destruct s as [|b2 s]; [done|]. destruct (within 224 239 b0) eqn:H2.
  { exists [b1; b2], s. cbn [utf8_decode]. destruct (_ && cont b2) eqn:Hc; [|done].
    apply andb_true_iff in Hc as [Hb1 Hb2]. split_and!; [done| |done|by destruct (utf8_decode s)].
    repeat constructor; [|done]. apply within_iff in Hb1. apply cont_true.
    repeat case_match; lia. }
  destruct s as [|b3 s]; [done|]. exists [b1; b2; b3], s. cbn [utf8_decode].
  destruct (_ && cont b3) eqn:Hc; [|done]. bool_props.
  split_and!; [done| |done|by destruct (utf8_decode s)].
  repeat constructor; [|done..].
  match goal with H : within (if _ then 144 else _) _ _ = true |- _ => apply within_iff in H end.
  apply cont_true. repeat case_match; lia.
Qed.

Lemma app_eq_before {A} (c : A) (rest t a b : list A) :
  rest ++ t = a ++ c :: b → c ∉ rest → ∃ a', a = rest ++ a' ∧ t = a' ++ c :: b.
Proof.
  revert a. induction rest as [|x rest IH]; intros a Heq Hc; [by exists a|].
  apply not_elem_of_cons in Hc as [Hx Hc]. destruct a as [|y a]; simplify_eq/=.
  destruct (IH a) as (a' & -> & ->); [done..|]. by exists a'.
Qed.

(** Taking a valid string apart at an ASCII byte leaves valid strings. *)
Lemma utf8_valid_split a c b :
  within 0 127 c = true → utf8_valid (a ++ c :: b) = true →
  utf8_valid a = true ∧ utf8_valid b = true.
Proof.
  intros Hc. remember (length a) as n eqn:Hn. revert a Hn.
  induction (lt_wf n) as [n _ IH]. intros a -> Hv.
  destruct a as [|b0 a]; cbn [app] in Hv.
  { apply utf8_first in Hv as (rest & t & -> & Hrest & Hhead & Ht). split; [done|].
    apply utf8_valid_app; [|done]. unfold utf8_valid in *. cbn [utf8_decode] in Hhead.
    rewrite Hc in Hhead. by destruct (utf8_decode rest). }
  apply utf8_first in Hv as (rest & t & Heq & Hrest & Hhead & Ht).
  symmetry in Heq. apply app_eq_before in Heq as (a' & -> & ->).
  - destruct (IH (length a')) with (a := a') as [Ha Hb]; [cbn; rewrite length_app; lia|done..|].
    split; [|done]. exact (utf8_valid_app _ _ Hhead Ha).
  - intros Hin. rewrite Forall_forall in Hrest. apply Hrest in Hin.
    apply within_iff in Hc. unfold cont in Hin. bool_props. lia.
Qed.

Lemma utf8_valid_fields c s :
  within 0 127 c = true → utf8_valid s = true → Forall (λ f, utf8_valid f = true) (split c s).
Proof.
  intros Hc. rewrite <- (join_split c s) at 1. pose proof (split_nonempty c s) as Hne. revert Hne.
  generalize (split c s). intros fs. induction fs as [|f [|g fs] IH]; intros Hne Hv; [done|by constructor|].
  change (join [c] (f :: g :: fs)) with (f ++ c :: join [c] (g :: fs)) in Hv.
  apply utf8_valid_split in Hv as [Hf Hv]; [|done]. constructor; [done|]. by apply IH.
Qed.

Lemma display_path_valid s : utf8_valid s = true → display_path s = s.
Proof.
  remember (length s) as n eqn:Hn. revert s Hn. induction (lt_wf n) as [n _ IH]. intros s -> Hv.
  assert (∀ t, (length t < length s)%nat → is_Some (utf8_decode t) → display_path t = t) as IH'.
  { intros t Hlt [cs Ht]. apply (IH (length t)); [done..|]. unfold utf8_valid. by rewrite Ht. }
  clear IH. unfold utf8_valid in Hv. destruct s as [|b0 s]; [done|].
  cbn [utf8_decode display_path] in *. destruct (within 0 127 b0).
  { f_equal. apply IH'; [cbn; lia|]. by destruct (utf8_decode s). }
  destruct s as [|b1 s]; [done|]. destruct (within 194 223 b0).
  { destruct (cont b1); [|done]. do 2 f_equal. apply IH'; [cbn; lia|]. by destruct (utf8_decode s). }
  destruct s as [|b2 s]; [done|]. destruct (within 224 239 b0) eqn:H2.
  { destruct (_ && cont b2) eqn:Hc; [|done]. apply andb_true_iff in Hc as [Hb1 ->].
    apply within_iff in H2, Hb1. replace (_ && _) with true; cycle 1.
    { symmetry. apply andb_true_iff. rewrite !within_iff. repeat case_match; bool_props; lia. }
    cbn [negb]. do 3 f_equal. apply IH'; [cbn; lia|]. by destruct (utf8_decode s). }
  destruct s as [|b3 s]; [done|]. destruct (_ && cont b3) eqn:Hc; [|done].
  apply andb_true_iff in Hc as [[[H3 Hb1]%andb_true_iff ->]%andb_true_iff ->].
  apply within_iff in H3, Hb1. replace (_ && _) with true; cycle 1.
  { symmetry. apply andb_true_iff. rewrite !within_iff. repeat case_match; bool_props; lia. }
  cbn [negb]. do 4 f_equal. apply IH'; [cbn; lia|]. by destruct (utf8_decode s).
Qed.

(** ** Fields

    Every field of a line is text without a tab or a newline. *)

Definition field_ok (f : str) : Prop := utf8_valid f = true ∧ 9 ∉ f ∧ 10 ∉ f.

Lemma printable_field f : forallb is_printable f = true → field_ok f.
Proof.
  intros Hf. rewrite forallb_forall in Hf.
  assert (∀ c, c ∈ f → 32 ≤ c ≤ 126) as Hc.
  { intros c Hin. apply within_iff, Hf. by apply list_elem_of_In. }
  split; [|split; intros Hin%Hc; lia].
  apply utf8_valid_ascii, Forall_forall. intros c Hin%Hc. apply within_iff. lia.
Qed.

Lemma validate_value_Ok v :
  validate_value v = Ok tt ↔
  v ≠ [] ∧ v ≠ bstr "-" ∧ len v ≤ MAX_VALUE_BYTES ∧ forallb is_printable v = true.
Proof.
  unfold validate_value. rewrite <- is_empty_false.
  destruct (is_empty v), (bool_decide_reflect (v = bstr "-")),
    (Z.ltb_spec MAX_VALUE_BYTES (len v)), (forallb is_printable v); cbn; naive_solver lia.
Qed.

Lemma bitmap_printable v : forallb is_bitmap_byte v = true → forallb is_printable v = true.
Proof.
  rewrite !forallb_forall. intros Hv c Hin%Hv. unfold is_bitmap_byte, is_ascii_digit, within in Hin.
  apply within_iff. rewrite !orb_true_iff, !andb_true_iff, !Z.leb_le, Z.eqb_eq in Hin. lia.
Qed.

Lemma validate_capability_value_Ok v :
  validate_capability_value v = Ok tt →
  v ≠ [] ∧ forallb is_bitmap_byte v = true ∧ contains_str [32; 32] v = false ∧
  starts_with [32] v = false ∧ ends_with [32] v = false.
Proof.
  unfold validate_capability_value. rewrite <- is_empty_false.
  destruct (is_empty v), (_ <? _), (starts_with _ v), (ends_with _ v), (contains_str _ v),
    (forallb is_bitmap_byte v); done.
Qed.

Lemma position_allowed class allowed index : position class allowed = Some index → class ∈ allowed.
Proof.
  revert index. induction allowed as [|a allowed IH]; intros index; cbn; [done|].
  case_bool_decide; [subst; left|]. intros (i & Hi & _)%fmap_Some. right. by eapply IH.
Qed.

Lemma validate_classes_from_Ok seen previous classes :
  validate_classes_from seen previous classes = Ok tt → Forall (λ c, c ∈ allowed_classes) classes.
Proof.
  revert seen previous. induction classes as [|class classes IH]; intros seen previous; [done|]; cbn [validate_classes_from].
  destruct (position class allowed_classes) eqn:Hp; [|done]. case_match; [done|].
  intros ?%IH. constructor; [by eapply position_allowed|done].
Qed.
Lemma validate_classes_Ok classes :
  validate_classes classes = Ok tt → classes ≠ [] ∧ Forall (λ c, c ∈ allowed_classes) classes.
Proof.
  unfold validate_classes. destruct (is_empty classes) eqn:He; [done|]. cbn. case_match; [done|].
  apply is_empty_false in He. by intros ?%validate_classes_from_Ok.
Qed.

(** The names of the classes are printable and have no comma. *)
Lemma allowed_class c : c ∈ allowed_classes → forallb is_printable c = true ∧ 44 ∉ c.
Proof.
  intros Hc. assert (Forall (λ c, forallb is_printable c = true ∧ 44 ∉ c) allowed_classes) as Hall.
  { apply (bool_decide_unpack _). vm_compute. done. }
  rewrite Forall_forall in Hall. by apply Hall.
Qed.

Lemma split_no_byte sep c s : c ∉ s → Forall (λ f, c ∉ f) (split sep s).
Proof.
  rewrite <- (join_split sep s) at 1. generalize (split sep s). intros fs.
  induction fs as [|f [|g fs] IH]; intros Hc; [done|by constructor|].
  change (join [sep] (f :: g :: fs)) with (f ++ sep :: join [sep] (g :: fs)) in Hc.
  apply not_elem_of_app in Hc as [Hf Hc]. apply not_elem_of_cons in Hc as [_ Hc].
  constructor; [done|by apply IH].
Qed.

Lemma forallb_join p sep fs :
  forallb p sep = true → Forall (λ f, forallb p f = true) fs → forallb p (join sep fs) = true.
Proof.
  intros Hsep Hfs. induction Hfs as [|f [|g fs] Hf _ IH]; [done|done|].
  change (join sep (f :: g :: fs)) with (f ++ sep ++ join sep (g :: fs)).
  by rewrite !forallb_app, Hf, Hsep, IH.
Qed.

(** ** Devices *)

Definition identity_built (i : DeviceIdentity) : Prop :=
  DeviceIdentity_new (DeviceIdentity_path i) (DeviceIdentity_bus i) (DeviceIdentity_vendor i)
    (DeviceIdentity_model i) (DeviceIdentity_revision i) (DeviceIdentity_serial i) = Ok i.

Definition capabilities_built (c : DeviceCapabilities) : Prop :=
  DeviceCapabilities_new (DeviceCapabilities_values c) = Ok c ∧ length (DeviceCapabilities_values c) = 10%nat.

(** A device that the constructors make. *)
Definition device_built (d : EnrolledDevice) : Prop :=
  is_u32 (EnrolledDevice_event_number d) ∧
  EnrolledDevice_new (EnrolledDevice_event_number d) (EnrolledDevice_sysfs_path d)
    (EnrolledDevice_classes d) (EnrolledDevice_identity d) (EnrolledDevice_capabilities d) = Ok d ∧
  identity_built (EnrolledDevice_identity d) ∧ capabilities_built (EnrolledDevice_capabilities d).

(** The constructors do not look at this: the path is UTF-8 without a tab or a newline. *)
Definition path_plain (d : EnrolledDevice) : Prop := field_ok (EnrolledDevice_sysfs_path d).

Lemma validate_values_Ok vs :
  validate_values vs = Ok tt ↔ Forall (λ v, validate_value v = Ok tt) vs.
Proof.
  induction vs as [|v vs IH]; cbn [validate_values]; [by split|]. rewrite Forall_cons, <- IH.
  destruct (validate_value v) as [[]|e]; cbn; [tauto|]. naive_solver.
Qed.
Lemma validate_capability_values_Ok vs :
  validate_capability_values vs = Ok tt ↔ Forall (λ v, validate_capability_value v = Ok tt) vs.
Proof.
  induction vs as [|v vs IH]; cbn [validate_capability_values]; [by split|]. rewrite Forall_cons, <- IH.
  destruct (validate_capability_value v) as [[]|e]; cbn; [tauto|]. naive_solver.
Qed.

Definition option_valid (o : option str) : Prop := ∀ v, o = Some v → validate_value v = Ok tt.

Lemma DeviceIdentity_new_Ok path bus vendor model revision serial i :
  DeviceIdentity_new path bus vendor model revision serial = Ok i ↔
  validate_value path = Ok tt ∧ option_valid bus ∧ option_valid vendor ∧ option_valid model ∧
  option_valid revision ∧ option_valid serial ∧ (is_Some vendor ↔ is_Some model) ∧
  i = {| DeviceIdentity_path := path; DeviceIdentity_bus := bus; DeviceIdentity_vendor := vendor;
         DeviceIdentity_model := model; DeviceIdentity_revision := revision;
         DeviceIdentity_serial := serial |}.
Proof.
  unfold DeviceIdentity_new.
  assert (validate_values (omap id [bus; vendor; model; revision; serial]) = Ok tt ↔
          option_valid bus ∧ option_valid vendor ∧ option_valid model ∧ option_valid revision ∧
          option_valid serial) as Hvalues.
  { rewrite validate_values_Ok. unfold option_valid.
    destruct bus, vendor, model, revision, serial; cbn; rewrite ?Forall_cons, ?Forall_nil; naive_solver. }
  destruct (validate_value path) as [[]|e]; cbn [and_then]; [|naive_solver].
  destruct (validate_values _) as [[]|e]; cbn [and_then];
    [|split; [done|intros (_ & ? & ? & ? & ? & ? & _); by discriminate (proj2 Hvalues ltac:(auto))]].
  pose proof (proj1 Hvalues eq_refl) as Hv.
  destruct vendor, model; cbn; split; (intros [= <-] || intros (_ & _ & _ & _ & _ & _ & Hvm & ->));
    try done; try tauto.
  - split_and!; try tauto. by split.
  - by destruct (proj1 Hvm ltac:(by eexists)).
  - by destruct (proj2 Hvm ltac:(by eexists)).
Qed.

Lemma DeviceCapabilities_new_Ok vs c :
  DeviceCapabilities_new vs = Ok c ↔
  Forall (λ v, validate_capability_value v = Ok tt) vs ∧ c = {| DeviceCapabilities_values := vs |}.
Proof.
  unfold DeviceCapabilities_new. rewrite <- validate_capability_values_Ok.
  destruct (validate_capability_values vs) as [[]|e]; cbn; naive_solver.
Qed.

Lemma EnrolledDevice_new_Ok n path classes identity capabilities d :
  EnrolledDevice_new n path classes identity capabilities = Ok d ↔
  validate_sysfs_path n path = Ok tt ∧ validate_classes classes = Ok tt ∧
  d = {| EnrolledDevice_event_number := n; EnrolledDevice_sysfs_path := path;
         EnrolledDevice_classes := classes; EnrolledDevice_identity := identity;
         EnrolledDevice_capabilities := capabilities |}.
Proof.
  unfold EnrolledDevice_new. destruct (validate_sysfs_path n path) as [[]|e]; cbn; [|naive_solver].
  destruct (validate_classes classes) as [[]|e]; cbn; naive_solver.
Qed.

Lemma optional_printable o : option_valid o → forallb is_printable (optional o) = true.
Proof. destruct o as [v|]; [|done]. intros Ho. by apply validate_value_Ok, Ho. Qed.

Lemma parse_optional_Ok v o : parse_optional v = Ok o ↔ v = optional o ∧ option_valid o.
Proof.
  unfold parse_optional, option_valid. case_bool_decide as Hdash.
  - split; [intros [= <-]; by split|]. intros [Hv Ho]. destruct o as [w|]; [|done].
    cbn in Hv. specialize (Ho w eq_refl). subst. discriminate Ho.
  - destruct (validate_value v) as [[]|e] eqn:Hv; cbn.
    + split; [intros [= <-]; cbn; naive_solver|]. intros [-> Ho]. by destruct o.
    + split; [done|]. intros [-> Ho]. destruct o as [w|]; [|done]. cbn in *. by rewrite Ho in Hv.
Qed.

Lemma parse_optional_optional o : option_valid o → parse_optional (optional o) = Ok o.
Proof. intros Ho. by apply parse_optional_Ok. Qed.

(** *** A line *)

Lemma device_fields_ok d : device_built d → path_plain d → Forall field_ok (device_fields d).
Proof.
  intros (Hn & Hd & Hi & Hc & _) Hp.
  apply EnrolledDevice_new_Ok in Hd as (_ & [_ Hclasses]%validate_classes_Ok & _).
  apply DeviceIdentity_new_Ok in Hi as (Hpath & Hbus & Hvendor & Hmodel & Hrev & Hserial & _).
  apply DeviceCapabilities_new_Ok in Hc as [Hc _].
  unfold device_fields. apply Forall_app. split.
  - repeat apply Forall_cons_2; try (by apply printable_field, optional_printable); [..|done].
    + split; [by apply event_name_utf8|].
      split; (apply event_name_no_byte; [done| |done]); by apply (bool_decide_unpack (_ ∉ bstr "event")).
    + rewrite display_path_valid; [done|apply Hp].
    + apply printable_field, forallb_join; [done|]. eapply Forall_impl; [exact Hclasses|].
      intros c Hin. by apply allowed_class.
    + by apply printable_field, validate_value_Ok.
  - eapply Forall_impl; [exact Hc|]. intros v (_ & Hv & _)%validate_capability_value_Ok.
    by apply printable_field, bitmap_printable.
Qed.

Lemma canonical_event_number_Ok value n :
  canonical_event_number value = Ok n ↔ value = event_name n ∧ is_u32 n.
Proof.
  unfold canonical_event_number, event_name. split.
  - destruct (strip_prefix _ value) as [digits|] eqn:Hs; [|done]. apply strip_prefix_Some in Hs as ->.
    cbn. destruct (parse_u32 digits) as [m|] eqn:Hm; [|done]. cbn.
    case_bool_decide as Hne; [done|]. intros [= ->]. subst digits.
    split; [done|by eapply parse_u32_range].
  - intros [-> Hn]. rewrite (proj2 (strip_prefix_Some _ _ _) eq_refl). cbn.
    rewrite (parse_u32_to_dec n Hn). cbn. by rewrite bool_decide_false by tauto.
Qed.

Lemma split_classes classes :
  validate_classes classes = Ok tt → split 44 (join (bstr ",") classes) = classes.
Proof.
  intros [Hne Hclasses]%validate_classes_Ok. apply split_join; [done|].
  eapply Forall_impl; [exact Hclasses|]. intros c Hin. by apply allowed_class.
Qed.

Lemma decode_device_line d :
  device_built d → path_plain d → decode_device (join [9] (device_fields d)) = Ok d.
Proof.
  intros Hb Hp. pose proof (device_fields_ok d Hb Hp) as Hf. destruct Hb as (Hn & Hd & Hi & Hc & Hlen).
  unfold decode_device. rewrite split_join; [|done|eapply Forall_impl; [exact Hf|by intros f (_ & ? & _)]].
  destruct d as [n path classes identity [values]]. unfold path_plain in Hp.
  unfold device_fields. cbn [EnrolledDevice_event_number EnrolledDevice_sysfs_path EnrolledDevice_classes
    EnrolledDevice_identity EnrolledDevice_capabilities DeviceCapabilities_values] in *.
  do 10 (destruct values as [|? values]; [done|]). destruct values; [|done]. cbn [app].
  rewrite (proj2 (canonical_event_number_Ok _ n)) by done. cbn [and_then].
  pose proof Hi as (_ & Hbus & Hvendor & Hmodel & Hrev & Hserial & _)%DeviceIdentity_new_Ok.
  rewrite !parse_optional_optional by done. cbn [and_then].
  rewrite Hi. cbn [and_then]. rewrite Hc. cbn [and_then].
  apply EnrolledDevice_new_Ok in Hd as (Hpath & Hclasses & _).
  rewrite display_path_valid, split_classes by (done || apply Hp). by apply EnrolledDevice_new_Ok.
Qed.

Lemma decode_device_built line d :
  decode_device line = Ok d → utf8_valid line = true → 10 ∉ line → device_built d ∧ path_plain d.
Proof.
  intros Hd Hutf8 Hline. unfold decode_device in Hd.
  pose proof (utf8_valid_fields 9 line eq_refl Hutf8) as Hvalid.
  pose proof (split_no_sep 9 line) as Htab. pose proof (split_no_byte 9 10 line Hline) as Hnl.
  destruct (split 9 line) as [|event [|sysfs [|classes [|path [|bus [|vendor [|model [|revision [|serial
    [|abs [|ev [|ff [|key [|led [|msc [|rel [|snd [|sw [|properties [|? ?]]]]]]]]]]]]]]]]]]]]; try done.
  destruct (canonical_event_number event) as [n|] eqn:Hn; [|done]. cbn [and_then] in Hd.
  destruct (parse_optional bus) as [bus'|]; [|done]. cbn [and_then] in Hd.
  destruct (parse_optional vendor) as [vendor'|]; [|done]. cbn [and_then] in Hd.
  destruct (parse_optional model) as [model'|]; [|done]. cbn [and_then] in Hd.
  destruct (parse_optional revision) as [revision'|]; [|done]. cbn [and_then] in Hd.
  destruct (parse_optional serial) as [serial'|]; [|done]. cbn [and_then] in Hd.
  destruct (DeviceIdentity_new _ _ _ _ _ _) as [identity|] eqn:Hi; [|done]. cbn [and_then] in Hd.
  destruct (DeviceCapabilities_new _) as [capabilities|] eqn:Hc; [|done]. cbn [and_then] in Hd.
  apply canonical_event_number_Ok in Hn as [_ Hn].
  pose proof Hd as (_ & _ & ->)%EnrolledDevice_new_Ok.
  split.
  - split; [done|]. split; [done|]. split.
    + pose proof Hi as (_ & _ & _ & _ & _ & _ & _ & ->)%DeviceIdentity_new_Ok. done.
    + pose proof Hc as (_ & ->)%DeviceCapabilities_new_Ok. by split.
  - repeat match goal with H : Forall _ (_ :: _ :: _) |- _ =>
      apply Forall_cons in H as [_ H]; apply Forall_cons in H as [H _] end.
    by split.
Qed.

(** ** The record *)

Definition device_line (d : EnrolledDevice) : str := join [9] (device_fields d).
Definition device_record (ds : list EnrolledDevice) : bytes :=
  DEVICE_SET_HEADER ++ terminated 10 (device_line <$> ds).

(** What the encoder checks: the number of devices, their order, paths and classes. *)
Definition device_set_wf (ds : list EnrolledDevice) : Prop :=
  1 ≤ len ds ≤ Z.of_nat MAX_EVENT_DESCRIPTORS ∧
  Sorted Z.lt (EnrolledDevice_event_number <$> ds) ∧
  Forall (λ d, validate_sysfs_path (EnrolledDevice_event_number d) (EnrolledDevice_sysfs_path d) = Ok tt ∧
               validate_classes (EnrolledDevice_classes d) = Ok tt) ds.

Lemma encode_devices_Ok output previous ds b :
  encode_devices output previous ds = Ok b ↔
  Sorted Z.lt (option_list previous ++ (EnrolledDevice_event_number <$> ds)) ∧
  Forall (λ d, validate_sysfs_path (EnrolledDevice_event_number d) (EnrolledDevice_sysfs_path d) = Ok tt ∧
               validate_classes (EnrolledDevice_classes d) = Ok tt) ds ∧
  b = output ++ terminated 10 (device_line <$> ds) ∧
  (ds = [] ∨ len b ≤ MAX_DEVICE_SET_BYTES).
Proof.
  revert output previous. induction ds as [|d ds IH]; intros output previous.
  { cbn. rewrite !app_nil_r. split; [|naive_solver]. intros [= ->]. split_and!; try by auto.
    destruct previous; cbn; repeat constructor. }
  cbn [encode_devices fmap list_fmap]. fold (device_line d). rewrite terminated_cons, Forall_cons.
  set (n := EnrolledDevice_event_number d).
  assert (Sorted Z.lt (option_list previous ++ n :: (EnrolledDevice_event_number <$> ds)) ↔
          match previous with Some p => p < n | None => True end ∧
          Sorted Z.lt (n :: (EnrolledDevice_event_number <$> ds))) as ->.
  { destruct previous as [p|]; cbn [option_list app]; [|tauto]. split.
    - intros [Hs Hh%HdRel_inv]%Sorted_inv. done.
    - intros [Hp Hs]. by constructor; [|constructor]. }
  replace (match previous with Some p => n <=? p | None => false end)
    with (negb (match previous with Some p => p <? n | None => true end)) by
    (destruct previous; [by rewrite Z.leb_antisym|done]).
  destruct (match previous with Some p => p <? n | None => true end) eqn:Hp; cbn [negb];
    [|split; [done|]; intros [[Hlt _] _]; destruct previous; [apply Z.ltb_ge in Hp; lia|done]].
  assert (match previous with Some p => p < n | None => True end) as Hprev.
  { destruct previous; [by apply Z.ltb_lt|done]. }
  destruct (validate_sysfs_path n _) as [[]|e]; cbn [and_then]; [|naive_solver].
  destruct (validate_classes _) as [[]|e]; cbn [and_then]; [|naive_solver].
  set (output' := output ++ device_line d ++ [10]).
  replace (output ++ device_line d ++ [10] ++ _) with (output' ++ terminated 10 (device_line <$> ds))
    by (unfold output'; by rewrite <- !(assoc_L (++))).
  destruct (Z.ltb_spec MAX_DEVICE_SET_BYTES (len output')) as [Hlt|Hle].
  - split; [done|]. intros (_ & _ & -> & [?|Hlen]); [done|]. rewrite len_app in Hlen. unfold len in *. lia.
  - rewrite IH. cbn [option_list app]. split; [|naive_solver].
    intros (? & ? & -> & [->|?]); [|naive_solver].
    split_and!; try done. right. cbn. by rewrite app_nil_r.
Qed.

Lemma encode_device_set_Ok ds b :
  encode_device_set ds = Ok b ↔
  device_set_wf ds ∧ b = device_record ds ∧ len b ≤ MAX_DEVICE_SET_BYTES.
Proof.
  unfold encode_device_set, device_set_wf.
  destruct (is_empty ds) eqn:He; cbn [orb].
  { apply is_empty_true in He as ->. split; [done|]. intros [[H _] _]. by destruct H as [[] _]. }
  apply is_empty_false in He. assert (1 ≤ len ds) by (destruct ds; [done|]; rewrite len_cons; unfold len; lia).
  destruct (Z.ltb_spec (Z.of_nat MAX_EVENT_DESCRIPTORS) (len ds)); [split; [done|lia]|].
  rewrite encode_devices_Ok. cbn [option_list app]. unfold device_record. naive_solver.
Qed.

Lemma join_utf8 fs : Forall field_ok fs → utf8_valid (join [9] fs) = true ∧ 10 ∉ join [9] fs.
Proof.
  induction 1 as [|f [|g fs] (Hf & _ & Hnl) _ IH]; [by split; [|apply not_elem_of_nil]|done|].
  change (join [9] (f :: g :: fs)) with (f ++ [9] ++ join [9] (g :: fs)).
  rewrite !not_elem_of_app. split; [|split_and!; [done|by apply (bool_decide_unpack (10 ∉ [9]))|tauto]].
  do 2 (apply utf8_valid_app; [done|]). tauto.
Qed.

Lemma join_last sep fs f : ∃ a, join sep (fs ++ [f]) = a ++ f.
Proof.
  induction fs as [|g fs [a IH]]; [by exists []|]. destruct fs as [|h fs]; cbn [app] in *.
  - exists (g ++ sep). by rewrite <- (assoc_L (++)).
  - exists (g ++ sep ++ a). change (join sep (g :: h :: fs ++ [f])) with (g ++ sep ++ join sep (h :: fs ++ [f])).
    rewrite IH. by rewrite <- !(assoc_L (++)).
Qed.

(** A line ends with a bitmap, so it keeps its last byte. *)
Lemma strip_cr_last a f : f ≠ [] → 13 ∉ f → strip_cr (a ++ f) = a ++ f.
Proof.
  intros Hne Hcr. unfold strip_cr. rewrite reverse_app.
  destruct (reverse f) as [|c r] eqn:Hr; [by destruct f; [|apply (f_equal length) in Hr; rewrite length_reverse in Hr]|].
  cbn [app]. destruct (Z.eqb_spec c 13) as [->|]; [|done].
  destruct Hcr. apply elem_of_reverse. rewrite Hr. left.
Qed.
Lemma strip_cr_line d : device_built d → strip_cr (device_line d) = device_line d.
Proof.
  intros (_ & _ & _ & Hc & Hlen). apply DeviceCapabilities_new_Ok in Hc as [Hc _].
  unfold device_line, device_fields.
  destruct (DeviceCapabilities_values _) as [|v vs _] using rev_ind; [done|].
  apply Forall_app in Hc as [_ [(Hne & Hv & _)%validate_capability_value_Ok _]%Forall_cons].
  rewrite (assoc_L (++)).
  match goal with |- context [join [9] (?fs ++ [v])] => destruct (join_last [9] fs v) as [a ->] end.
  apply strip_cr_last; [done|]. apply bitmap_printable in Hv.
  rewrite forallb_forall in Hv. intros Hin%list_elem_of_In%Hv. done.
Qed.

Lemma decode_devices_encoded acc ds :
  Forall device_built ds → Forall path_plain ds →
  len acc + len ds ≤ Z.of_nat MAX_EVENT_DESCRIPTORS →
  decode_devices acc (device_line <$> ds) = Ok (acc ++ ds).
Proof.
  revert acc. induction ds as [|d ds IH]; intros acc Hb Hp Hlen; [by rewrite app_nil_r|].
  apply Forall_cons in Hb as [Hd Hb], Hp as [Hpd Hp]. rewrite len_cons in Hlen.
  cbn [fmap list_fmap decode_devices].
  rewrite (proj2 (Z.leb_gt _ _)) by (unfold len in *; lia).
  unfold device_line at 1. rewrite decode_device_line by done. cbn [and_then].
  rewrite IH; [by rewrite <- (assoc_L (++))|done..|].
  rewrite len_app, len_cons. change (len (A:=EnrolledDevice) []) with 0. lia.
Qed.

Lemma decode_devices_built acc ls ds :
  decode_devices acc ls = Ok ds → Forall (λ l, utf8_valid l = true ∧ 10 ∉ l) ls →
  Forall (λ d, device_built d ∧ path_plain d) acc → Forall (λ d, device_built d ∧ path_plain d) ds.
Proof.
  revert acc. induction ls as [|l ls IH]; intros acc; cbn [decode_devices]; [by intros [= ->]|].
  case_match; [done|]. destruct (decode_device l) as [d|] eqn:Hd; [|done]. cbn [and_then].
  intros Hds [[Hu Hn] Hls]%Forall_cons Hacc. eapply IH; [done..|].
  apply Forall_app. split; [done|]. constructor; [by eapply decode_device_built|done].
Qed.

Lemma strip_cr_ok l : utf8_valid l = true ∧ 10 ∉ l → utf8_valid (strip_cr l) = true ∧ 10 ∉ strip_cr l.
Proof.
  intros [Hu Hn]. unfold strip_cr. destruct (reverse l) as [|c r] eqn:Hr; [done|].
  destruct (Z.eqb_spec c 13) as [->|]; [|done].
  assert (l = reverse r ++ [13]) as ->.
  { by rewrite <- (reverse_involutive l), Hr, reverse_cons. }
  apply utf8_valid_split in Hu as [Hu _]; [|done]. apply not_elem_of_app in Hn as [Hn _]. done.
Qed.

Lemma lines_ok body :
  utf8_valid body = true → ends_with [10] body = true →
  Forall (λ l, utf8_valid l = true ∧ 10 ∉ l) (lines body).
Proof.
  intros Hu He. pose proof (split_terminator_inv 10 body He) as [Hbody Hnl].
  assert (Forall (λ f, utf8_valid f = true) (split 10 body)) as Hv by (by apply utf8_valid_fields).
  rewrite Hbody, split_terminated in Hv by done. apply Forall_app in Hv as [Hv _].
  rewrite Hbody, lines_terminated by done. apply Forall_fmap. rewrite Forall_forall in Hv, Hnl |- *. intros l Hl. apply strip_cr_ok. eauto.
Qed.

Lemma device_lines_ok ds :
  Forall device_built ds → Forall path_plain ds →
  Forall (λ l, utf8_valid l = true ∧ 10 ∉ l) (device_line <$> ds).
Proof.
  intros Hb Hp. apply Forall_fmap. rewrite Forall_forall in Hb, Hp |- *. intros d Hd.
  apply join_utf8, device_fields_ok; eauto.
Qed.

Lemma terminated_utf8 ls :
  Forall (λ l, utf8_valid l = true ∧ 10 ∉ l) ls → utf8_valid (terminated 10 ls) = true.
Proof.
  induction 1 as [|l ls [Hl _] _ IH]; [done|]. rewrite terminated_cons.
  apply utf8_valid_app; [done|]. by apply utf8_valid_app.
Qed.

Lemma decode_device_record ds :
  Forall device_built ds → Forall path_plain ds → device_set_wf ds →
  len (device_record ds) ≤ MAX_DEVICE_SET_BYTES → decode_device_set (device_record ds) = Ok ds.
Proof.
  intros Hb Hp Hwf Hlen. pose proof (device_lines_ok ds Hb Hp) as Hls. pose proof Hwf as (Hcount & _).
  assert (Forall (λ l, 10 ∉ l) (device_line <$> ds)) as Hnl by (eapply Forall_impl; [exact Hls|tauto]).
  assert (device_line <$> ds ≠ []) as Hne.
  { destruct ds; [|done]. by destruct Hcount as [[] _]. }
  unfold decode_device_set. rewrite (proj2 (Z.ltb_ge _ _)) by done.
  assert (utf8_valid (device_record ds) = true) as ->.
  { apply utf8_valid_app; [done|]. by apply terminated_utf8. }
  cbn [negb]. unfold device_record at 1. rewrite (proj2 (strip_prefix_Some _ _ _) eq_refl).
  cbn [ok_or and_then].
  assert (ends_with [10] (terminated 10 (device_line <$> ds)) = true) as He.
  { apply ends_with_true. eexists. by apply terminated_join. }
  rewrite He. rewrite (proj2 (is_empty_false _)) by (by destruct (device_line <$> ds) as [|[] ?]).
  cbn [orb negb]. rewrite lines_terminated by done.
  assert (strip_cr <$> (device_line <$> ds) = device_line <$> ds) as ->.
  { rewrite <- list_fmap_compose. apply list_fmap_ext. intros i d Hd.
    rewrite Forall_forall in Hb. apply strip_cr_line, Hb. by eapply list_elem_of_lookup_2. }
  rewrite decode_devices_encoded; [|done..|change (len (A:=EnrolledDevice) []) with 0; lia].
  cbn [app and_then]. rewrite (proj2 (encode_device_set_Ok ds (device_record ds))) by done.
  cbn [and_then]. by rewrite bool_decide_false by tauto.
Qed.

(** C24: the device-set record is canonical.  A byte string decodes to a list of devices
    exactly when it is what the encoder writes for that list and the devices are ones their
    constructors make, with UTF-8 paths free of tabs and newlines; so decoding inverts
    encoding on those, and no record has two spellings.  The encoder succeeds exactly on
    1 to 32 devices with strictly increasing event numbers, valid paths and valid classes
    whose record fits in 64 KiB. *)
Theorem device_set_canonical source ds :
  (decode_device_set source = Ok ds ↔
   encode_device_set ds = Ok source ∧ Forall device_built ds ∧ Forall path_plain ds) ∧
  (encode_device_set ds = Ok source ↔
   device_set_wf ds ∧ source = device_record ds ∧ len source ≤ MAX_DEVICE_SET_BYTES).
Proof.
  split; [|apply encode_device_set_Ok]. split.
  - unfold decode_device_set. case_match; [done|]. destruct (utf8_valid source) eqn:Hu; [|done].
    destruct (strip_prefix DEVICE_SET_HEADER source) as [body|] eqn:Hs; [|done]. cbn [ok_or and_then negb].
    destruct (is_empty body || _) eqn:He; [done|]. apply orb_false_iff in He as [_ He%negb_false_iff].
    destruct (decode_devices [] (lines body)) as [ds'|] eqn:Hd; [|done]. cbn [and_then].
    destruct (encode_device_set ds') as [canonical|] eqn:Henc; [|done]. cbn [and_then].
    case_bool_decide; [done|]. intros [= ->]. subst canonical. split; [done|].
    apply strip_prefix_Some in Hs.
    assert (utf8_valid body = true) as Hbody.
    { rewrite Hs in Hu. change DEVICE_SET_HEADER with (take 23 DEVICE_SET_HEADER ++ [10]) in Hu.
      rewrite <- (assoc_L (++)) in Hu. by apply utf8_valid_split in Hu as [_ ?]. }
    apply Forall_and. eapply decode_devices_built; [exact Hd|by apply lines_ok|done].
  - intros (Henc & Hb & Hp). apply encode_device_set_Ok in Henc as (Hwf & -> & Hlen).
    by apply decode_device_record.
Qed.

(** *** Paths the constructor accepts and the record cannot hold *)

Definition device_at (path : str) : EnrolledDevice := {|
  EnrolledDevice_event_number := 2; EnrolledDevice_sysfs_path := path;
  EnrolledDevice_classes := EnrolledDevice_classes (example_device None);
  EnrolledDevice_identity := EnrolledDevice_identity (example_device None);
  EnrolledDevice_capabilities := EnrolledDevice_capabilities (example_device None) |}.

Definition reread (d : EnrolledDevice) : result (list EnrolledDevice) DeviceSetError :=
  let? source := encode_device_set [d] in decode_device_set source.

Example tab_is_written_and_refused :
  reread (device_at (bstr "/sys/devices/a" ++ [9] ++ bstr "b/event2")) = Err DeviceSetError_Invalid.
Proof. vm_compute. reflexivity. Qed.

Example invalid_utf8_is_replaced :
  reread (device_at (bstr "/sys/devices/" ++ [255] ++ bstr "/event2"))
  = Ok [device_at (bstr "/sys/devices/" ++ REPLACEMENT ++ bstr "/event2")].
Proof. vm_compute. reflexivity. Qed.

(** ** Capability bitmaps

    A bitmap is compared with the codes a device reports exactly: bit [c] of the kernel's
    text is set iff [c] is reported, and the reports are in order without repetition. *)

(** ** One word *)

Lemma positive_zeros_spec p :
  ∃ m, Z.pos p = (2 * m + 1) * 2 ^ positive_zeros p ∧ 0 ≤ m ∧ 0 ≤ positive_zeros p.
Proof.
  induction p as [p _|p (m & IH & Hm & Hz)|]; cbn [positive_zeros].
  - exists (Z.pos p). split_and!; lia.
  - exists m. split_and!; [|lia..]. rewrite Z.pow_add_r by lia. lia.
  - exists 0. split_and!; lia.
Qed.

Lemma odd_multiple_bit m t b :
  0 ≤ t → 0 ≤ b → Z.testbit ((2 * m + 1) * 2 ^ t) b = (t =? b) || Z.testbit (m * 2 ^ (t + 1)) b.
Proof.
  intros Ht Hb. destruct (Z.lt_ge_cases b t) as [Hlt|Hge].
  - rewrite !Z.mul_pow2_bits_low by lia. rewrite (proj2 (Z.eqb_neq _ _)) by lia. done.
  - rewrite Z.mul_pow2_bits by lia. destruct (Z.eqb_spec t b) as [->|Hne].
    + by rewrite Z.sub_diag, Z.testbit_odd_0.
    + rewrite Z.mul_pow2_bits by lia. replace (b - t) with (Z.succ (b - (t + 1))) by lia.
      by rewrite Z.testbit_odd_succ by lia.
Qed.

(** [word & (word - 1)] clears the lowest set bit. *)
Lemma clear_lowest m t :
  0 ≤ t → 0 ≤ m → Z.land ((2 * m + 1) * 2 ^ t) ((2 * m + 1) * 2 ^ t - 1) = m * 2 ^ (t + 1).
Proof.
  intros Ht Hm. apply Z.bits_inj'. intros b Hb. rewrite Z.land_spec, odd_multiple_bit by lia.
  assert (0 < 2 ^ t) as Hp by (apply Z.pow_pos_nonneg; lia).
  destruct (Z.lt_ge_cases b t) as [Hlt|Hge].
  { rewrite (proj2 (Z.eqb_neq _ _)) by lia. cbn [orb]. rewrite Z.mul_pow2_bits_low by lia. done. }
  assert (Z.testbit ((2 * m + 1) * 2 ^ t - 1) b = Z.testbit (2 * m) (b - t)) as ->.
  { replace b with (b - t + t) at 1 by lia. rewrite <- Z.div_pow2_bits by lia. f_equal.
    symmetry. apply Z.div_unique with (r := 2 ^ t - 1); lia. }
  rewrite Z.mul_pow2_bits by lia. destruct (Z.eqb_spec t b) as [->|Hne]; cbn [orb].
  - rewrite Z.sub_diag, Z.testbit_even_0. rewrite Z.testbit_neg_r by lia. done.
  - replace (b - t) with (Z.succ (b - (t + 1))) by lia.
    rewrite Z.testbit_even_succ by lia. apply andb_diag.
Qed.

Lemma word_trailing_zeros_spec word :
  0 < word → ∃ m, word = (2 * m + 1) * 2 ^ word_trailing_zeros word ∧ 0 ≤ m ∧ 0 ≤ word_trailing_zeros word.
Proof. destruct word as [|p|p]; [lia| |lia]. intros _. apply positive_zeros_spec. Qed.

Lemma checked_code base b c :
  0 ≤ base ≤ U64_MAX → 0 ≤ b →
  c ∈ option_list (checked_u16 (Z.min (base + b) U64_MAX)) ↔ c = base + b ∧ c ≤ U16_MAX.
Proof.
  intros Hbase Hb. unfold checked_u16. destruct (checked_in _ _ _) as [x|] eqn:Hx; cbn.
  - apply checked_in_Some in Hx as [-> Hx]. rewrite list_elem_of_singleton. int_bounds. lia.
  - apply checked_in_None in Hx. split; [by intros ?%not_elem_of_nil|]. int_bounds. lia.
Qed.

(** The bits set from [k] on, in order. *)
Lemma word_codes_spec fuel base word k :
  0 ≤ base ≤ U64_MAX → 0 ≤ k → 0 ≤ word < 2 ^ 64 → (2 ^ k | word) → 64 ≤ Z.of_nat fuel + k →
  (∀ c, c ∈ word_codes fuel base word ↔
        k ≤ c - base < 64 ∧ Z.testbit word (c - base) = true ∧ c ≤ U16_MAX) ∧
  StronglySorted Z.lt (word_codes fuel base word).
Proof.
  intros Hbase. revert word k. induction fuel as [|fuel IH]; intros word k Hk Hword Hdiv Hfuel.
  { split; [|constructor]. intros c. split; [by intros ?%not_elem_of_nil|lia]. }
  cbn [word_codes]. destruct (Z.eqb_spec word 0) as [->|Hne].
  { split; [|constructor]. intros c. rewrite Z.bits_0. split; [by intros ?%not_elem_of_nil|naive_solver]. }
  destruct (word_trailing_zeros_spec word) as (m & Heq & Hm & Hz); [lia|].
  set (t := word_trailing_zeros word) in *. clearbody t.
  assert (0 < 2 ^ t) as Hp by (apply Z.pow_pos_nonneg; lia).
  assert (t < 64) as Ht.
  { apply (Z.pow_lt_mono_r_iff 2); [lia..|]. nia. }
  assert (k ≤ t) as Hkt.
  { destruct (Z.le_gt_cases k t) as [|Hgt]; [done|]. exfalso. destruct Hdiv as [q Hq].
    replace k with (k - t - 1 + 1 + t) in Hq by lia. rewrite !Z.pow_add_r in Hq by lia.
    assert (2 * m + 1 = q * 2 ^ (k - t - 1) * 2) by nia. lia. }
  assert (Z.land word (word - 1) = m * 2 ^ (t + 1)) as -> by (rewrite Heq; by apply clear_lowest).
  destruct (IH (m * 2 ^ (t + 1)) (t + 1)) as [Hin Hsorted]; [lia| |by exists m|lia|].
  { rewrite Z.pow_add_r by lia. nia. }
  split.
  - intros c. rewrite elem_of_app, checked_code, Hin by lia.
    destruct (Z.lt_ge_cases (c - base) 0) as [|Hc]; [rewrite (Z.testbit_neg_r word) by lia; lia|].
    rewrite Heq, (odd_multiple_bit m t (c - base)) by lia. rewrite orb_true_iff, Z.eqb_eq.
    split.
    + intros [[-> ?]|(? & ? & ?)].
      * split; [lia|]. split; [left; lia|done].
      * split; [lia|]. split; [by right|done].
    + intros (? & [?|Hbit] & ?); [left; lia|right]. split; [|by split].
      split; [|lia]. destruct (Z.lt_ge_cases (c - base) (t + 1)); [|lia].
      rewrite Z.mul_pow2_bits_low in Hbit by lia. done.
  - assert (Forall (Z.lt (base + t)) (word_codes fuel base (m * 2 ^ (t + 1)))) as Hlater.
    { apply Forall_forall. intros c Hc%Hin. lia. }
    destruct (option_list _) as [|x [|? ?]] eqn:Hx.
    + done.
    + cbn [app]. assert (x ∈ option_list (checked_u16 (Z.min (base + t) U64_MAX))) as Hx' by (rewrite Hx; left).
      apply checked_code in Hx' as [-> _]; [|lia..]. by constructor.
    + by destruct (checked_u16 _).
Qed.

(** ** All words *)

Lemma increasing_sorted l : StronglySorted Z.lt l → StronglySorted Z.le l.
Proof.
  induction 1 as [|x l _ IH Hx]; constructor; [done|]. eapply Forall_impl; [exact Hx|]. lia.
Qed.
Lemma increasing_NoDup l : StronglySorted Z.lt l → NoDup l.
Proof.
  induction 1 as [|x l _ IH Hx]; constructor; [|done]. intros Hin. rewrite Forall_forall in Hx.
  specialize (Hx _ Hin). lia.
Qed.

Definition is_word (word : str) : Prop := 0 ≤ word_value word < 2 ^ 64.

Lemma word_at index word :
  0 ≤ index → is_word word →
  (∀ c, c ∈ word_codes 64 (Z.min (index * USIZE_BITS) U64_MAX) (word_value word) ↔
        0 ≤ c - index * 64 < 64 ∧ Z.testbit (word_value word) (c - index * 64) = true ∧ c ≤ U16_MAX) ∧
  StronglySorted Z.lt (word_codes 64 (Z.min (index * USIZE_BITS) U64_MAX) (word_value word)).
Proof.
  intros Hi Hw. unfold USIZE_BITS.
  destruct (word_codes_spec 64 (Z.min (index * 64) U64_MAX) (word_value word) 0) as [Hin Hsorted];
    [int_bounds; lia|lia|done|apply Z.divide_1_l|lia|].
  split; [|done]. intros c. rewrite Hin.
  destruct (Z.le_gt_cases (index * 64) U64_MAX) as [Hle|Hgt].
  - by rewrite Z.min_l by lia.
  - int_bounds. lia.
Qed.

Lemma codes_from_spec index words :
  0 ≤ index → Forall is_word words →
  (∀ c, c ∈ codes_from index words ↔
        c ≤ U16_MAX ∧ ∃ i word, words !! i = Some word ∧ 0 ≤ c - (index + Z.of_nat i) * 64 < 64 ∧
          Z.testbit (word_value word) (c - (index + Z.of_nat i) * 64) = true) ∧
  StronglySorted Z.lt (codes_from index words).
Proof.
  intros Hi Hws. revert index Hi. induction Hws as [|w ws Hw _ IH]; intros index Hi.
  { split; [|constructor]. intros c. cbn. split; [by intros ?%not_elem_of_nil|naive_solver]. }
  cbn [codes_from]. destruct (word_at index w Hi Hw) as [Hin Hs].
  destruct (IH (index + 1)) as [Hin' Hs']; [lia|]. split.
  - intros c. rewrite elem_of_app, Hin, Hin'. split.
    + intros [(? & ? & ?)|(? & i & word & Hl & Hc & Hb)].
      * split; [done|]. exists O, w. by rewrite Z.add_0_r.
      * split; [done|]. exists (S i), word.
        replace (index + Z.of_nat (S i)) with (index + 1 + Z.of_nat i) by lia. done.
    + intros (? & [|i] & word & Hl & Hc & Hb).
      * cbn in Hl. simplify_eq. rewrite Z.add_0_r in *. by left.
      * right. split; [done|]. exists i, word.
        replace (index + 1 + Z.of_nat i) with (index + Z.of_nat (S i)) by lia. done.
  - apply StronglySorted_app. split_and!; [|done..].
    intros c c' (? & _)%Hin (_ & i & word & _ & ? & _)%Hin'. lia.
Qed.

(** ** The text of a bitmap *)

(** Bit [c] of the kernel's text: words of 64 bits, the last one lowest. *)
Definition bit_set (value : str) (c : Z) : Prop :=
  0 ≤ c ≤ U16_MAX ∧
  ∃ word, reverse (split 32 value) !! Z.to_nat (c / 64) = Some word ∧
          Z.testbit (word_value word) (c mod 64) = true.

Lemma hex_value_nonneg b : is_bitmap_byte b = true → b ≠ 32 → 0 ≤ hex_value b.
Proof.
  unfold is_bitmap_byte, hex_value, is_ascii_digit, within. intros Hb Hne.
  rewrite !orb_true_iff, !andb_true_iff, !Z.leb_le, Z.eqb_eq in Hb.
  destruct (_ && _) eqn:Hd; bool_props; [lia|].
  apply andb_false_iff in Hd as [Hd|Hd]; apply Z.leb_gt in Hd; lia.
Qed.

Lemma hex_nonneg word acc :
  0 ≤ acc → Forall (λ b, 0 ≤ hex_value b) word → 0 ≤ fold_left (λ acc b, 16 * acc + hex_value b) word acc.
Proof. intros Hacc Hw. revert acc Hacc. induction Hw; intros acc Hacc; cbn; [done|]. apply IHHw. lia. Qed.

Lemma bitmap_words value :
  forallb is_bitmap_byte value = true → Forall is_word (split 32 value).
Proof.
  intros Hv. pose proof (split_no_sep 32 value) as Hsep.
  assert (Forall (λ f, forallb is_bitmap_byte f = true) (split 32 value)) as Hf.
  { rewrite <- (join_split 32 value) in Hv. revert Hv. generalize (split 32 value). intros fs.
    induction fs as [|f [|g fs] IH]; intros Hv; [done|by constructor|].
    change (join [32] (f :: g :: fs)) with (f ++ [32] ++ join [32] (g :: fs)) in Hv.
    rewrite !forallb_app in Hv. apply andb_true_iff in Hv as [? Hv]. apply andb_true_iff in Hv as [_ ?].
    constructor; [done|by apply IH]. }
  rewrite Forall_forall in Hf, Hsep |- *. intros word Hin. specialize (Hf _ Hin). specialize (Hsep _ Hin).
  unfold is_word, word_value.
  assert (0 ≤ fold_left (λ acc b, 16 * acc + hex_value b) word 0).
  { apply hex_nonneg; [done|]. apply Forall_forall. intros b Hb. rewrite forallb_forall in Hf.
    apply hex_value_nonneg; [by apply Hf, list_elem_of_In|congruence]. }
  case_match; bool_props; int_bounds; lia.
Qed.

Lemma bitmap_codes_spec value :
  forallb is_bitmap_byte value = true →
  (∀ c, c ∈ bitmap_codes value ↔ bit_set value c) ∧ StronglySorted Z.lt (bitmap_codes value).
Proof.
  intros Hv. assert (Forall is_word (reverse (split 32 value))) as Hws.
  { apply Forall_reverse, bitmap_words, Hv. }
  destruct (codes_from_spec 0 _ ltac:(done) Hws) as [Hin Hs].
  assert (StronglySorted Z.le (codes_from 0 (reverse (split 32 value)))) as Hle.
  { by apply increasing_sorted. }
  assert (bitmap_codes value = codes_from 0 (reverse (split 32 value))) as ->.
  { apply (StronglySorted_unique Z.le); [apply StronglySorted_merge_sort; apply _|done|].
    apply merge_sort_Permutation. }
  split; [|done]. intros c. rewrite Hin. unfold bit_set. split.
  - intros (? & i & word & Hl & Hc & Hb). rewrite Z.add_0_l in *.
    assert (c / 64 = Z.of_nat i) as Hdiv by (symmetry; apply Z.div_unique with (r := c - Z.of_nat i * 64); lia).
    split; [lia|]. exists word. rewrite Hdiv, Nat2Z.id. split; [done|].
    rewrite Z.mod_eq, Hdiv by lia. by replace (64 * Z.of_nat i) with (Z.of_nat i * 64) by lia.
  - intros ([? ?] & word & Hl & Hb). split; [done|]. exists (Z.to_nat (c / 64)), word.
    pose proof (Z.div_pos c 64). pose proof (Z.mod_pos_bound c 64). pose proof (Z.div_mod c 64).
    rewrite Z.add_0_l, Z2Nat.id by lia. split; [done|].
    replace (c - c / 64 * 64) with (c mod 64) by lia. split; [lia|done].
Qed.

(** A device matches a bitmap of its enrollment exactly when the codes it reports are
    in increasing order, without repetition, and are the set bits of the bitmap: bit [c]
    is bit [c mod 64] of the 64-bit hexadecimal word at place [c / 64] from the right. *)
Theorem capability_match_exact capabilities kind actual :
  capabilities_built capabilities →
  DeviceCapabilities_matches capabilities kind actual = true ↔
  StronglySorted Z.lt actual ∧
  ∀ c, c ∈ actual ↔ bit_set (nth (capability_index kind) (DeviceCapabilities_values capabilities) []) c.
Proof.
  intros [[Hvalues _]%DeviceCapabilities_new_Ok Hlen].
  set (value := nth (capability_index kind) (DeviceCapabilities_values capabilities) []).
  assert (forallb is_bitmap_byte value = true) as Hvalue.
  { rewrite Forall_forall in Hvalues. apply validate_capability_value_Ok, Hvalues.
    apply list_elem_of_In, nth_In. rewrite Hlen. destruct kind; cbn; lia. }
  destruct (bitmap_codes_spec value Hvalue) as [Hin Hs].
  unfold DeviceCapabilities_matches. fold value. rewrite bool_decide_eq_true. split.
  - intros <-. by split.
  - intros [Hs' Hin']. apply (StronglySorted_unique Z.le); [by apply increasing_sorted..|].
    apply NoDup_Permutation; [by apply increasing_NoDup..|]. intros c. by rewrite Hin, Hin'.
Qed.

Lemma capability_match_exact_witness :
  DeviceCapabilities_matches (EnrolledDevice_capabilities (example_device None)) CapabilityKind_Event
    [0; 1; 4; 17; 20] = true ∧ bit_set (bstr "120013") 20.
Proof.
  assert (capabilities_built (EnrolledDevice_capabilities (example_device None))) as Hbuilt
    by (split; vm_compute; reflexivity).
  pose proof (capability_match_exact _ CapabilityKind_Event [0; 1; 4; 17; 20] Hbuilt) as Hexact.
  assert (DeviceCapabilities_matches (EnrolledDevice_capabilities (example_device None))
            CapabilityKind_Event [0; 1; 4; 17; 20] = true) as Hmatch by (vm_compute; reflexivity).
  split; [exact Hmatch|]. apply (proj2 (proj1 Hexact Hmatch)).
  apply (bool_decide_unpack (20 ∈ [0; 1; 4; 17; 20])). vm_compute. exact I.
Defined.

(** A word that does not fit 64 bits reads as empty. *)
Example wide_word_is_empty :
  validate_capability_value (bstr "10000000000000000") = Ok tt ∧
  bitmap_codes (bstr "10000000000000000") = [].
Proof. vm_compute. split; reflexivity. Qed.
