(* ===== verification/BrokerSystem.v ===== *)
(** * The system calls of the activity broker, as an interface

    Descriptors, the input devices of the evdev crate, polling, sockets and the clock.  The
    state [W] is what the calls read and change. *)

From stdpp Require Import list.
From S2P Require Import Prelude Text Effects Host Codec DeviceSet.

(** An open descriptor. *)
Definition Fd : Type := Z.

(** [FileExt::metadata], with the number of links. *)
Record FdMetadata := { FdMetadata_metadata : Metadata; FdMetadata_nlink : Z }.

(** [PollFlags], as reported. *)
Record Revents := { Revents_IN : bool; Revents_ERR : bool; Revents_HUP : bool; Revents_NVAL : bool }.

(** What is polled, for input. *)
Inductive Source :=
| Source_Listener (fd : Fd)
| Source_Provider (fd : Fd)
| Source_Eligibility (fd : Fd)
| Source_Device (fd : Fd).

(** [evdev::InputEvent]: type and code of the kernel's record. *)
Record InputEvent := { InputEvent_type : Z; InputEvent_code : Z }.

Inductive AcceptError := AcceptError_WouldBlock | AcceptError_Other (text : string).

Class BrokerSystem (W : Type) := {
  (** [Instant::now()], in nanoseconds *)
  clock_now : W → Z * W;
  dup : Fd → M W string Fd;
  set_nonblocking : Fd → M W string unit;
  local_addr : Fd → M W string unit;
  fcntl_getfl : Fd → M W string Z;
  fcntl_setfl : Fd → Z → M W string unit;
  fcntl_getfd : Fd → M W string Z;
  fcntl_setfd : Fd → Z → M W string unit;
  (** [sd_listen_fds::get()] *)
  listen_fds : M W string (list Fd);
  fd_metadata : Fd → M W string FdMetadata;
  fd_read_to_end : Fd → Z → M W string bytes;
  (** [RawDevice::from_fd], and what the device supports: [None] when it lacks the kind *)
  device_from_fd : Fd → M W string Fd;
  device_codes : Fd → CapabilityKind → W → option (list Z);
  get_key_state : Fd → M W string (list Z);
  fetch_events : Fd → M W string (list InputEvent);
  (** one [Revents] for each source; no timeout is [None] *)
  poll : list Source → option Z → M W string (list Revents);
  accept : Fd → M W AcceptError Fd;
  socket_peercred : Fd → M W string Z;
  (** what further reads of the descriptor return, and those that remain *)
  pending : Fd → W → Reader;
  consume : Fd → Reader → W → W;
  write_stream : Fd → bytes → M W string unit;
  flush_stream : Fd → M W string unit;
  getrandom : Z → M W string bytes
}.

(** [EAGAIN], the error of a read that would block. *)
Definition WOULD_BLOCK : Z := 11.
(** [O_NONBLOCK], [FD_CLOEXEC] *)
Definition NONBLOCK : Z := 2048.
Definition CLOEXEC : Z := 1.

(** [0o777], [0o600] *)
Definition PERMISSION_BITS : Z := 511.
Definition OWNER_ONLY : Z := 384.

(** [map_err(|error| format!("{prefix}: {error}"))] *)
Definition explain {S A} (prefix : string) (m : M S string A) : M S string A :=
  map_error (λ error, prefix +:+ ": " +:+ error) m.

Definition decimal_text (n : Z) : string := string_of_str (to_dec n).
