(* ===== verification/InheritedFiles.v ===== *)
(** * [agent-seat-activity-broker/src/inherited_files.rs]: descriptors of the service manager

    The activation environment announces so many descriptors and a name for each; the
    adoption checks both and sets close-on-exec. [env] is [std::env::var]: [None] when the
    variable is missing or is not Unicode. *)

From stdpp Require Import list.
From S2P Require Import Prelude Text Effects BrokerSystem.

Record InheritedFile := { InheritedFile_name : str; InheritedFile_descriptor : Fd }.

Inductive InheritedFileError :=
| InheritedFileError_Missing
| InheritedFileError_Malformed
| InheritedFileError_CannotConfine.

Definition InheritedFileError_to_string (self : InheritedFileError) : string :=
  match self with
  | InheritedFileError_Missing => "no inherited descriptor set was addressed to this process"
  | InheritedFileError_Malformed => "the inherited descriptor environment is malformed"
  | InheritedFileError_CannotConfine => "an inherited descriptor could not be confined"
  end.

(** [u8::is_ascii_control] *)
Definition is_ascii_control (b : Z) : bool := within 0 31 b || (b =? 127).

Definition validate_names (source : str) (count : Z) : result (list str) InheritedFileError :=
  if count =? 0 then Err InheritedFileError_Missing
  else
    let names := split 58 source in
    if negb (len names =? count)
       || existsb (λ name, is_empty name || (255 <? len name) || existsb is_ascii_control name) names
    then Err InheritedFileError_Malformed
    else Ok names.

(** [str::parse::<usize>], on a 64-bit machine. *)
Definition parse_usize (s : str) : option Z :=
  let digits := match s with c :: ((_ :: _) as s') => if c =? 43 then s' else s | _ => s end in
  if negb (is_empty digits) && forallb is_ascii_digit digits then checked_u64 (dec_value digits) else None.

Section broker.
Context {W : Type} `{BrokerSystem W}.

Fixpoint confine_all (files : list (Fd * str)) : M W InheritedFileError (list InheritedFile) :=
  match files with
  | [] => ret []
  | (descriptor, name) :: files =>
      let! flags := map_error (λ _, InheritedFileError_CannotConfine) (fcntl_getfd descriptor) in
      map_error (λ _, InheritedFileError_CannotConfine)
        (fcntl_setfd descriptor (Z.lor flags CLOEXEC)) ;!
      let! files := confine_all files in
      ret ({| InheritedFile_name := name; InheritedFile_descriptor := descriptor |} :: files)
  end.

Definition receive_inherited_files (env : string → option str) (maximum_count consumed_name_count : Z)
  : M W InheritedFileError (list InheritedFile) :=
  let! announced := lift (ok_or (env "LISTEN_FDS"%string) InheritedFileError_Missing) in
  let! announced_count := lift (ok_or (parse_usize announced) InheritedFileError_Malformed) in
  if (announced_count =? 0) || (maximum_count <? announced_count)
  then fail InheritedFileError_Malformed
  else
    let! announced_names := lift (ok_or (env "LISTEN_FDNAMES"%string) InheritedFileError_Malformed) in
    let! total_name_count := lift (ok_or (checked_u64 (announced_count + consumed_name_count))
                                     InheritedFileError_Malformed) in
    let! names := lift (validate_names announced_names total_name_count) in
    let active_names := drop (Z.to_nat consumed_name_count) names in
    let! received := map_error (λ _, InheritedFileError_Malformed) listen_fds in
    if negb (len received =? announced_count) then fail InheritedFileError_Missing
    else confine_all (zip received active_names).
End broker.
