(* ===== verification/Broker.v ===== *)
(** * [agent-seat-activity-broker/src/main.rs]: the activity broker

    The broker adopts the descriptors the service manager passes, checks them against the
    reviewed device set, and then answers status requests while it watches the devices and
    the eligibility channel: any evidence ends in a terminal status.  Two messages omit the
    text of the error they report (reading and decoding the initial eligibility). *)

From stdpp Require Import list.
From S2P Require Import Prelude Text Effects Host Codec BrokerProtocol InputSet DeviceSet BrokerSystem InheritedFiles.

Definition ARM_QUIET_INTERVAL : Z := 250 * 1000000.
Definition INITIAL_ELIGIBILITY_WAIT : Z := 2 * 1000000000.

(** Why the broker ends; the last is the model's own bound on waiting loops. *)
Inductive BrokerStop :=
| BrokerStop_Error (message : string)
| BrokerStop_OutOfFuel.

Section broker.
Context {W : Type} `{BrokerSystem W}.

(** ** Start-up *)

(** [parse_u32], of the value of [option] *)
Definition parse_uid (value : option str) (option : string) : result Z string :=
  let? value := ok_or (value ≫= λ v, if utf8_valid v then Some v else None)
                  (option +:+ " requires a value") in
  ok_or (parse_u32 value) (option +:+ " requires an unsigned integer").

(** [Arguments::parse]; [None] is [--help], which prints and exits.  [debug] is [{:?}]. *)
Fixpoint parse_arguments (debug : str → string) (uid : option Z) (arguments : list str)
  : result (option Z) string :=
  match arguments with
  | [] => let? uid := ok_or uid "--uid is required"%string in Ok (Some uid)
  | argument :: arguments =>
      if negb (utf8_valid argument) then Err "arguments must be UTF-8"%string
      else if bool_decide (argument = bstr "--uid") then
        match uid, arguments with
        | Some _, _ => Err "--uid may be specified once"%string
        | None, value :: arguments =>
            let? uid := parse_uid (Some value) "--uid" in parse_arguments debug (Some uid) arguments
        | None, [] => let? uid := parse_uid None "--uid" in Ok (Some uid)
        end
      else if bool_decide (argument = bstr "--help") then Ok None
      else Err ("unknown argument " +:+ debug argument)
  end.

Definition STDIN : Fd := 0.
Definition STDOUT : Fd := 1.

Definition open_inherited_listener : M W string Fd :=
  let! listener := explain "standard output is not an inherited listener" (dup STDOUT) in
  explain "cannot make provider listener nonblocking" (set_nonblocking listener) ;!
  explain "standard output is not a local socket listener" (local_addr listener) ;!
  ret listener.

Definition open_inherited_eligibility : M W string Fd :=
  let! file := explain "standard input is not inherited eligibility" (dup STDIN) in
  let! flags := explain "cannot inspect inherited eligibility flags" (fcntl_getfl file) in
  explain "cannot make inherited eligibility nonblocking" (fcntl_setfl file (Z.lor flags NONBLOCK)) ;!
  ret file.

Definition confine_inherited_file (descriptor : Fd) (kind : string) : M W string Fd :=
  let! flags := explain ("cannot inspect " +:+ kind +:+ " descriptor flags") (fcntl_getfl descriptor) in
  explain ("cannot make " +:+ kind +:+ " descriptor nonblocking")
    (fcntl_setfl descriptor (Z.lor flags NONBLOCK)) ;!
  ret descriptor.

Definition open_inherited_device (descriptor : Fd) (index : Z) : M W string Fd :=
  let! descriptor := confine_inherited_file descriptor "event" in
  explain ("event descriptor " +:+ decimal_text index +:+ " is not an evdev device")
    (device_from_fd descriptor).

Definition read_enrolled_device_set (descriptor : Fd) (owner_uid : Z) : M W string (list EnrolledDevice) :=
  let! file := confine_inherited_file descriptor "device-set" in
  let! metadata := explain "cannot inspect enrolled device set" (fd_metadata file) in
  let m := FdMetadata_metadata metadata in
  if negb (is_file m) || negb (FdMetadata_nlink metadata =? 1) || negb (Metadata_uid m =? owner_uid)
     || negb (Z.land (Metadata_mode m) PERMISSION_BITS =? OWNER_ONLY)
     || (MAX_DEVICE_SET_BYTES <? Metadata_len m)
  then fail "enrolled device set is not an exact private peer-owned file"%string
  else
    let! bytes := explain "cannot read enrolled device set" (fd_read_to_end file (MAX_DEVICE_SET_BYTES + 1)) in
    if MAX_DEVICE_SET_BYTES <? len bytes then fail "enrolled device set exceeds its read bound"%string
    else lift (map_err (λ error, "invalid enrolled device set: " +:+ DeviceSetError_to_string error)
                 (decode_device_set bytes)).

(** In the order of the code; a kind the device lacks has no codes. *)
Definition capability_order : list CapabilityKind :=
  [CapabilityKind_Event; CapabilityKind_Key; CapabilityKind_Relative; CapabilityKind_Absolute;
   CapabilityKind_Misc; CapabilityKind_Switch; CapabilityKind_Led; CapabilityKind_Sound;
   CapabilityKind_ForceFeedback; CapabilityKind_Property].

Definition matches_device_capabilities (device : Fd) (expected : DeviceCapabilities) (w : W) : bool :=
  forallb (λ kind, DeviceCapabilities_matches expected kind (default [] (device_codes device kind w)))
    capability_order.

(** [for (device, enrolled) in devices.iter().zip(&enrolled_devices)] *)
Definition check_devices (devices : list (Fd * EnrolledDevice)) : M W string unit :=
  for_each (λ '(device, enrolled),
    let! matching := gets (matches_device_capabilities device (EnrolledDevice_capabilities enrolled)) in
    if (matching : bool) then ret tt
    else fail ("inherited event descriptor for event"
               +:+ decimal_text (EnrolledDevice_event_number enrolled)
               +:+ " does not match enrollment")) devices.

Fixpoint open_devices (index : Z) (files : list InheritedFile) : M W string (list Fd) :=
  match files with
  | [] => ret []
  | file :: files =>
      if bool_decide (InheritedFile_name file ≠ event_name index)
      then fail ("inherited event descriptor " +:+ decimal_text index +:+ " has the wrong name")
      else
        let! device := open_inherited_device (InheritedFile_descriptor file) index in
        let! devices := open_devices (index + 1) files in
        ret (device :: devices)
  end.

(** ** Evidence *)

Definition Update : Type := BrokerState * StopReason.

(** [events.intersects(ERR | HUP | NVAL)] *)
Definition is_lost (events : Revents) : bool := Revents_ERR events || Revents_HUP events || Revents_NVAL events.
Definition no_events : Revents :=
  {| Revents_IN := false; Revents_ERR := false; Revents_HUP := false; Revents_NVAL := false |}.
Definition is_none (events : Revents) : bool := negb (Revents_IN events || is_lost events).

(** [EventSummary]: the synchronization events of the kernel, by type and code. *)
Definition EV_SYN : Z := 0.
Definition SYN_REPORT : Z := 0.
Definition SYN_DROPPED : Z := 3.

Definition classify_input_event (event : InputEvent) : option Update :=
  if (InputEvent_type event =? EV_SYN) && (InputEvent_code event =? SYN_REPORT) then None
  else if (InputEvent_type event =? EV_SYN) && (InputEvent_code event =? SYN_DROPPED)
  then Some (BrokerState_Unavailable, StopReason_EventLoss)
  else Some (BrokerState_Stopped, StopReason_Activity).

Definition classify_eligibility_transition (transition : result EligibilityState ProtocolError) : Update :=
  match transition with
  | Ok EligibilityState_Ineligible => (BrokerState_Stopped, StopReason_EligibilityChanged)
  | Ok EligibilityState_Eligible | Err _ => (BrokerState_Unavailable, StopReason_EvidenceLost)
  end.

Definition evidence_lost : Update := (BrokerState_Unavailable, StopReason_EvidenceLost).

(** [find_map(classify_input_event)], as the inner loop does. *)
Fixpoint first_update (events : list InputEvent) : option Update :=
  match events with
  | [] => None
  | event :: events =>
      match classify_input_event event with
      | Some update => Some update
      | None => first_update events
      end
  end.

(** A frame read from a descriptor, with the fuel its reader needs. *)
Definition receive_frame {E A} (read : nat → Reader → option (result A ProtocolError * Reader)) (fd : Fd)
  : M W E (result A ProtocolError) := λ w,
  match read (fuel_for (pending fd w)) (pending fd w) with
  | Some (frame, rest) => (Ok frame, consume fd rest w)
  | None => (Ok (Err ProtocolError_Unavailable), w)
  end.

(** ** The evidence at start-up *)

(** [poll] with one source *)
Definition poll_one {E} (prefix : string) (stop : string → E) (source : Source) (timeout : Z)
  : M W E Revents :=
  let! events := map_error stop (explain prefix (poll [source] (Some timeout))) in
  ret (nth 0 events no_events).

Definition now {E} : M W E Z := λ w, let '(t, w) := clock_now w in (Ok t, w).

(** The loop, with [got] of the frame's bytes read. *)
Fixpoint initial_frame (fuel : nat) (source : Fd) (deadline : Z) (got : bytes) : M W BrokerStop bytes :=
  match fuel with
  | O => fail BrokerStop_OutOfFuel
  | S fuel =>
      if (ELIGIBILITY_FRAME_BYTES <=? length got)%nat then ret got
      else
        let! outcome := λ w,
          let '(outcome, rest) := read (pending source w) (ELIGIBILITY_FRAME_BYTES - length got) in
          (Ok outcome, consume source rest w) in
        match outcome with
        | Ok [] => fail (BrokerStop_Error "eligibility channel closed during initial frame")
        | Ok chunk => initial_frame fuel source deadline (got ++ chunk)
        | Err ErrorKind_Interrupted => initial_frame fuel source deadline got
        | Err error =>
            if negb (bool_decide (error = ErrorKind_Other WOULD_BLOCK))
            then fail (BrokerStop_Error "cannot read initial eligibility evidence")
            else
              let! present := now in
              let remaining := Z.max 0 (deadline - present) in
              if remaining =? 0
              then fail (BrokerStop_Error "timed out waiting for initial eligibility evidence")
              else
                let! events := poll_one "initial eligibility poll failed" BrokerStop_Error
                                 (Source_Eligibility source) remaining in
                if Revents_ERR events || Revents_NVAL events
                then fail (BrokerStop_Error "initial eligibility evidence was lost")
                else if is_none events
                then fail (BrokerStop_Error "timed out waiting for initial eligibility evidence")
                else if Revents_HUP events && negb (Revents_IN events)
                then fail (BrokerStop_Error "eligibility channel closed during initial frame")
                else initial_frame fuel source deadline got
        end
  end.

Definition read_initial_eligibility (fuel : nat) (source : Fd) (timeout : Z)
  : M W BrokerStop EligibilityState :=
  let! present := now in
  let! frame := initial_frame fuel source (present + timeout) [] in
  lift (map_err (λ _, BrokerStop_Error "cannot decode initial eligibility evidence")
          (decode_eligibility frame)).

(** The first loop: whether some device has a key down. *)
Fixpoint some_key_down (devices : list Fd) : M W string bool :=
  match devices with
  | [] => ret false
  | device :: devices =>
      let! keys := gets (device_codes device CapabilityKind_Key) in
      match keys with
      | None => some_key_down devices
      | Some _ =>
          let! state := explain "cannot inspect initial key/button state" (get_key_state device) in
          if is_empty state then some_key_down devices else ret true
      end
  end.

(** The events of one queue: the first loss, or whether there was activity. *)
Fixpoint queued_update (activity : bool) (events : list InputEvent) : option Update + bool :=
  match events with
  | [] => inr activity
  | event :: events =>
      match classify_input_event event with
      | Some (BrokerState_Unavailable, reason) => inl (Some (BrokerState_Unavailable, reason))
      | Some (BrokerState_Stopped, StopReason_Activity) => queued_update true events
      | Some _ | None => queued_update activity events
      end
  end.

Fixpoint queued_updates (activity : bool) (devices : list (Fd * Revents)) : M W string (option Update) :=
  match devices with
  | [] => ret (if activity then Some (BrokerState_Stopped, StopReason_Activity) else None)
  | (device, events) :: devices =>
      if is_lost events then ret (Some evidence_lost)
      else if negb (Revents_IN events) then queued_updates activity devices
      else
        let! fetched := explain "cannot inspect initial event queue" (fetch_events device) in
        match queued_update activity fetched with
        | inl update => ret update
        | inr activity => queued_updates activity devices
        end
  end.

Definition initial_device_update (devices : list Fd) : M W string (option Update) :=
  let! down := some_key_down devices in
  if (down : bool) then ret (Some (BrokerState_Stopped, StopReason_Activity))
  else
    let! events := explain "initial device poll failed" (poll (Source_Device <$> devices) (Some 0)) in
    queued_updates false (zip devices events).

(** Bytes until there are eight. *)
Fixpoint instance_bytes (fuel : nat) (got : bytes) : M W string bytes :=
  match fuel with
  | O => ret got
  | S fuel =>
      if (8 <=? length got)%nat then ret got
      else
        let! chunk := explain "cannot create broker instance identifier" (getrandom (8 - len got)) in
        if is_empty chunk then fail "random source returned no instance bytes"%string
        else instance_bytes fuel (got ++ take (8 - length got) chunk)
  end.

(** [u64::from_ne_bytes] on a little-endian machine; each round adds a byte, so nine rounds
    fill the buffer. *)
Definition random_instance : M W string Z :=
  let! bytes := instance_bytes 9 [] in
  let instance := from_le bytes in
  if instance =? 0 then fail "random broker instance identifier was zero"%string else ret instance.

(** ** The loop *)

Record Broker := {
  Broker_status : BrokerStatus;
  Broker_devices : list Fd;
  Broker_eligibility : option Fd;
  Broker_arm_deadline : option Z;
  Broker_provider : option Fd
}.

Definition terminal (status : BrokerStatus) (update : Update) : BrokerStatus := {|
  BrokerStatus_instance := BrokerStatus_instance status;
  BrokerStatus_epoch := Z.min (BrokerStatus_epoch status + 1) U64_MAX;
  BrokerStatus_state := fst update;
  BrokerStatus_reason := snd update |}.

(** The sources of one round, in the order of [polls]. *)
Definition sources (listener : Fd) (b : Broker) : list Source :=
  match Broker_provider b with
  | None => [Source_Listener listener]
  | Some provider => [Source_Provider provider]
  end
  ++ (Source_Eligibility <$> option_list (Broker_eligibility b))
  ++ (Source_Device <$> Broker_devices b).

Definition eligibility_update {E} (eligibility : option Fd) (events : Revents) : M W E (option Update) :=
  match eligibility with
  | None => ret None
  | Some source =>
      if is_lost events then ret (Some evidence_lost)
      else if Revents_IN events then
        let! transition := receive_frame read_eligibility source in
        ret (Some (classify_eligibility_transition transition))
      else ret None
  end.

Fixpoint device_update {E} (terminal_update : option Update) (devices : list (Fd * Revents))
  : M W E (option Update) :=
  match devices with
  | [] => ret terminal_update
  | (device, events) :: devices =>
      match terminal_update with
      | Some update => ret (Some update)
      | None =>
          if is_lost events then ret (Some evidence_lost)
          else if negb (Revents_IN events) then device_update None devices
          else
            let! fetched := attempt (fetch_events device) in
            match fetched with
            | Err _ => ret (Some evidence_lost)
            | Ok fetched => device_update (first_update fetched) devices
            end
      end
  end.

(** What a round does with its evidence. *)
Definition settle_evidence {E} (update : option Update) (b : Broker) : M W E Broker :=
  match update with
  | Some update =>
      ret {| Broker_status := terminal (Broker_status b) update; Broker_devices := [];
             Broker_eligibility := None; Broker_arm_deadline := None;
             Broker_provider := Broker_provider b |}
  | None =>
      match Broker_arm_deadline b with
      | None => ret b
      | Some deadline =>
          let! present := now in
          if deadline <=? present then
            ret {| Broker_status := {|
                     BrokerStatus_instance := BrokerStatus_instance (Broker_status b);
                     BrokerStatus_epoch := BrokerStatus_epoch (Broker_status b);
                     BrokerStatus_state := BrokerState_Ready;
                     BrokerStatus_reason := BrokerStatus_reason (Broker_status b) |};
                   Broker_devices := Broker_devices b; Broker_eligibility := Broker_eligibility b;
                   Broker_arm_deadline := None; Broker_provider := Broker_provider b |}
          else ret b
      end
  end.

Definition accept_provider (listener : Fd) (uid : Z) : M W string (option Fd) :=
  let! accepted := attempt (accept listener) in
  match accepted with
  | Err AcceptError_WouldBlock => ret None
  | Err (AcceptError_Other error) => fail ("cannot accept provider connection: " +:+ error)
  | Ok stream =>
      let! peer := explain "cannot authenticate provider connection" (socket_peercred stream) in
      if negb (peer =? uid) then ret None
      else
        explain "cannot make provider connection nonblocking" (set_nonblocking stream) ;!
        ret (Some stream)
  end.

(** Whether the provider asked well and was answered. *)
Definition answer_provider {E} (status : BrokerStatus) (stream : Fd) : M W E bool :=
  let! request := receive_frame read_status_request stream in
  match request with
  | Err _ => ret false
  | Ok _ =>
      let! written := attempt (write_stream stream (BrokerStatus_encode status)) in
      match written with
      | Err _ => ret false
      | Ok _ =>
          let! flushed := attempt (flush_stream stream) in
          ret (match flushed with Ok _ => true | Err _ => false end)
      end
  end.

Definition with_provider (provider : option Fd) (b : Broker) : Broker := {|
  Broker_status := Broker_status b; Broker_devices := Broker_devices b;
  Broker_eligibility := Broker_eligibility b; Broker_arm_deadline := Broker_arm_deadline b;
  Broker_provider := provider |}.

(** The rest of a round: a new connection, or a request of the present one.  Only one of the
    two is polled. *)
Definition serve_provider (listener : Fd) (uid : Z) (before : option Fd) (events : Revents) (b : Broker)
  : M W string Broker :=
  match before with
  | None =>
      if is_lost events then fail "provider listener was lost"%string
      else if Revents_IN events then
        let! provider := accept_provider listener uid in ret (with_provider provider b)
      else ret b
  | Some stream =>
      if is_lost events then ret (with_provider None b)
      else if Revents_IN events then
        let! keep := answer_provider (Broker_status b) stream in
        ret (if (keep : bool) then b else with_provider None b)
      else ret b
  end.

Definition round (listener : Fd) (uid : Z) (b : Broker) : M W string Broker :=
  let! timeout := match Broker_arm_deadline b with
                  | None => ret None
                  | Some deadline => let! present := now in ret (Some (Z.max 0 (deadline - present)))
                  end in
  let! events := explain "poll failed" (poll (sources listener b) timeout) in
  let peer_events := nth 0 events no_events in
  let eligibility_events := nth 1 events no_events in
  let device_events := drop (1 + length (option_list (Broker_eligibility b))) events in
  let! update := eligibility_update (Broker_eligibility b) eligibility_events in
  let! update := device_update update (zip (Broker_devices b) device_events) in
  let before := Broker_provider b in
  let! b := settle_evidence update b in
  serve_provider listener uid before peer_events b.

(** [loop { .. }], for so many rounds. *)
Fixpoint rounds (n : nat) (listener : Fd) (uid : Z) (b : Broker) : M W string Broker :=
  match n with
  | O => ret b
  | S n => let! b := round listener uid b in rounds n listener uid b
  end.

(** ** The program *)

Definition is_usable (state : BrokerState) : bool :=
  match state with BrokerState_Arming | BrokerState_Ready => true | _ => false end.

Definition initial_state (eligibility : EligibilityState) (update : option Update) : Update :=
  match eligibility, update with
  | EligibilityState_Ineligible, _ => (BrokerState_Stopped, StopReason_EligibilityChanged)
  | EligibilityState_Eligible, Some update => update
  | EligibilityState_Eligible, None => (BrokerState_Arming, StopReason_None)
  end.

Definition stop {A} (m : M W string A) : M W BrokerStop A := map_error BrokerStop_Error m.

(** The descriptors: the listener, and the devices that match the reviewed set. *)
Definition adopt (env : string → option str) : M W string (Fd * list Fd) :=
  let! listener := open_inherited_listener in
  let! inherited := map_error (λ error, "cannot receive inherited descriptors: "
                                        +:+ InheritedFileError_to_string error)
                      (receive_inherited_files env (Z.of_nat MAX_EVENT_DESCRIPTORS + 1) 1) in
  match inherited with
  | first :: inherited =>
      if bool_decide (InheritedFile_name first ≠ bstr "enrolled-device-set")
      then fail "first inherited descriptor must be named enrolled-device-set"%string
      else
        let! enrolled := read_enrolled_device_set (InheritedFile_descriptor first) 0 in
        if negb (length enrolled =? length inherited)%nat
        then fail "inherited event descriptor count does not match enrollment"%string
        else
          let! devices := open_devices 0 inherited in
          if is_empty devices
          then fail "at least one inherited event descriptor is required"%string
          else
            check_devices (zip devices enrolled) ;!
            ret (listener, devices)
  | [] => fail "first inherited descriptor must be named enrolled-device-set"%string
  end.

(** The first status, and what is watched. *)
Definition begin (fuel : nat) (devices : list Fd) : M W BrokerStop Broker :=
  let! source := stop open_inherited_eligibility in
  let! eligibility := read_initial_eligibility fuel source INITIAL_ELIGIBILITY_WAIT in
  let! update := stop (initial_device_update devices) in
  let! instance := stop random_instance in
  let '(state, reason) := initial_state eligibility update in
  let! arm_deadline := if bool_decide (state = BrokerState_Arming)
                       then let! present := now in ret (Some (present + ARM_QUIET_INTERVAL))
                       else ret None in
  ret {| Broker_status := {| BrokerStatus_instance := instance; BrokerStatus_epoch := 1;
                             BrokerStatus_state := state; BrokerStatus_reason := reason |};
         Broker_devices := if is_usable state then devices else [];
         Broker_eligibility := if is_usable state then Some source else None;
         Broker_arm_deadline := arm_deadline;
         Broker_provider := None |}.

(** [run], for so many rounds of its loop; [None] is [--help]. *)
Definition run_broker (fuel n : nat) (debug : str → string) (arguments : list str)
  (env : string → option str) (broker_uid : Z) : M W BrokerStop (option Broker) :=
  let! uid := stop (lift (parse_arguments debug None arguments)) in
  match uid with
  | None => ret None
  | Some uid =>
      if broker_uid =? 0
      then fail (BrokerStop_Error "broker must run as a confined non-root service user")
      else if broker_uid =? uid
      then fail (BrokerStop_Error "broker and enrolled provider must use distinct UIDs")
      else
        let! '(listener, devices) := stop (adopt env) in
        let! b := begin fuel devices in
        let! b := stop (rounds n listener uid b) in
        ret (Some b)
  end.
End broker.
