(* ===== verification/BrokerTheorems.v ===== *)
(** * The loop of the activity broker, against a journal

    The calls of the broker are noted in a journal.  The invariant of the loop relates its
    status to the notes: [Ready] is not said once there was evidence of activity, of lost
    events or of a change of eligibility, nor before the quiet interval has passed; and a
    terminal answer is final.  [BrokerRuns] adds the start-up. *)

From stdpp Require Import list.
From S2P Require Import Prelude Text Effects Host Codec BrokerProtocol InputSet DeviceSet BrokerSystem InheritedFiles Broker.

(** ** The journal *)

Inductive Note :=
| Note_Clock (t : Z)
| Note_Polled (sources : list Source) (events : list Revents)
| Note_Read (fd : Fd) (before after : Reader)
| Note_Fetched (fd : Fd) (events : result (list InputEvent) string)
| Note_Peer (fd : Fd) (uid : Z)
| Note_Wrote (fd : Fd) (frame : bytes).

(** A system that keeps a journal: the calls that are noted, and those that are not. *)
Class Journal (W : Type) `{BrokerSystem W} := {
  broker_journal :: Journaled W Note;
  clock_noted w : journal (snd (clock_now w)) = journal w ++ [Note_Clock (fst (clock_now w))];
  poll_noted sources timeout w :
    wp (poll sources timeout)
      (λ events w', journal w' = journal w ++ [Note_Polled sources events] ∧ length events = length sources)
      (λ _ w', journal w' = journal w) w;
  read_noted fd rest w : journal (consume fd rest w) = journal w ++ [Note_Read fd (pending fd w) rest];
  fetch_noted fd w :
    journal (snd (fetch_events fd w)) = journal w ++ [Note_Fetched fd (fst (fetch_events fd w))];
  peer_noted fd w :
    wp (socket_peercred fd) (λ uid w', journal w' = journal w ++ [Note_Peer fd uid])
      (λ _ w', journal w' = journal w) w;
  write_noted fd frame w : journal (snd (write_stream fd frame w)) = journal w ++ [Note_Wrote fd frame];
  dup_silent fd :: Preserves journal (dup fd);
  set_nonblocking_silent fd :: Preserves journal (set_nonblocking fd);
  local_addr_silent fd :: Preserves journal (local_addr fd);
  fcntl_getfl_silent fd :: Preserves journal (fcntl_getfl fd);
  fcntl_setfl_silent fd flags :: Preserves journal (fcntl_setfl fd flags);
  fcntl_getfd_silent fd :: Preserves journal (fcntl_getfd fd);
  fcntl_setfd_silent fd flags :: Preserves journal (fcntl_setfd fd flags);
  listen_fds_silent :: Preserves journal listen_fds;
  fd_metadata_silent fd :: Preserves journal (fd_metadata fd);
  fd_read_to_end_silent fd count :: Preserves journal (fd_read_to_end fd count);
  device_from_fd_silent fd :: Preserves journal (device_from_fd fd);
  get_key_state_silent fd :: Preserves journal (get_key_state fd);
  accept_silent fd :: Preserves journal (accept fd);
  flush_stream_silent fd :: Preserves journal (flush_stream fd);
  getrandom_silent count :: Preserves journal (getrandom count);
  getrandom_u8 count w : wp (getrandom count) (λ chunk _, Forall is_u8 chunk) (λ _ _, True) w
}.

(** ** Evidence *)

Definition is_source_lost (p : Source * Revents) : Prop :=
  match p with
  | (Source_Device _, events) => is_lost events = true
  | _ => False
  end.
Definition is_eligibility_signal (p : Source * Revents) : Prop :=
  match p with
  | (Source_Eligibility _, events) => is_lost events || Revents_IN events = true
  | _ => False
  end.

(** A kernel record that is not the end of a report. *)
Definition is_evidence (event : InputEvent) : Prop :=
  ¬ (InputEvent_type event = EV_SYN ∧ InputEvent_code event = SYN_REPORT).

(** A lost device, a failed read of one, or an event that is not a mere report. *)
Definition device_evidence (note : Note) : Prop :=
  match note with
  | Note_Polled sources events => Exists is_source_lost (zip sources events)
  | Note_Fetched _ (Ok events) => Exists is_evidence events
  | Note_Fetched _ (Err _) => True
  | _ => False
  end.
(** Also anything on the eligibility channel. *)
Definition evidence (note : Note) : Prop :=
  device_evidence note ∨
  match note with
  | Note_Polled sources events => Exists is_eligibility_signal (zip sources events)
  | _ => False
  end.

Definition is_write (note : Note) : Prop := match note with Note_Wrote _ _ => True | _ => False end.
Definition silent (note : Note) : Prop := ¬ is_write note.
Definition calm (note : Note) : Prop := silent note ∧ ¬ evidence note.

(** ** Programs and what they note *)

Section logs.
Context {W : Type} `{Journal W}.

Lemma logs_now {E} (R : list Note → Prop) : logs (E:=E) now (λ t n, n = [Note_Clock t]) R.
Proof.
  intros w. unfold wp, now. pose proof (clock_noted w) as Hw. destruct (clock_now w) as [t w'].
  cbn in *. eauto.
Qed.
Lemma logs_receive {E A} (read : nat → Reader → option (result A ProtocolError * Reader)) fd R :
  logs (E:=E) (receive_frame read fd)
    (λ frame n, (frame = Err ProtocolError_Unavailable ∧ n = []) ∨
       ∃ before after, n = [Note_Read fd before after] ∧ read (fuel_for before) before = Some (frame, after)) R.
Proof.
  intros w. unfold wp, receive_frame. destruct (read _ _) as [[frame rest]|] eqn:Hread.
  - exists [Note_Read fd (pending fd w) rest]. split; [apply read_noted|]. right. by eexists _, _.
  - exists []. rewrite app_nil_r. split; [done|]. by left.
Qed.
Lemma calm_read fd before after : calm (Note_Read fd before after).
Proof. split; [by intros []|by intros [[]|[]]]. Qed.
Lemma logs_fetch fd :
  logs (fetch_events fd) (λ events n, n = [Note_Fetched fd (Ok events)])
    (λ n, ∃ e, n = [Note_Fetched fd (Err e)]).
Proof.
  intros w. unfold wp. pose proof (fetch_noted fd w) as Hw. destruct (fetch_events fd w) as [[events|e] w'];
    cbn in *; eauto.
Qed.
Lemma logs_poll sources timeout :
  logs (poll sources timeout)
    (λ events n, n = [Note_Polled sources events] ∧ length events = length sources) (λ n, n = []).
Proof.
  intros w. eapply wp_mono; [apply poll_noted|..]; cbn; [naive_solver|].
  intros e w' ->. exists []. by rewrite app_nil_r.
Qed.

Lemma logs_peer fd :
  logs (socket_peercred fd) (λ uid n, n = [Note_Peer fd uid]) (λ n, n = []).
Proof.
  intros w. eapply wp_mono; [apply peer_noted|..]; cbn; [naive_solver|].
  intros e w' ->. exists []. by rewrite app_nil_r.
Qed.
Lemma logs_write fd frame :
  logs (write_stream fd frame) (λ _ n, n = [Note_Wrote fd frame]) (λ n, n = [Note_Wrote fd frame]).
Proof.
  intros w. unfold wp. pose proof (write_noted fd frame w) as Hw.
  destruct (write_stream fd frame w) as [[[]|e] w']; cbn in *; eauto.
Qed.

(** ** What updates say *)

Definition update_ok (u : option Update) : Prop :=
  match u with
  | Some (state, reason) => is_usable state = false ∧ valid_state state reason = true
  | None => True
  end.

Lemma classify_input_event_ok event : update_ok (classify_input_event event).
Proof. unfold classify_input_event. by repeat case_match. Qed.

Lemma classify_input_event_evidence event :
  is_Some (classify_input_event event) ↔ is_evidence event.
Proof.
  unfold classify_input_event, is_evidence.
  destruct (Z.eqb_spec (InputEvent_type event) EV_SYN), (Z.eqb_spec (InputEvent_code event) SYN_REPORT);
    cbn [andb]; (split; [by (intros [? [=]] || intros _; tauto)|]); intros ?; try tauto; try case_match; by eexists.
Qed.

Lemma first_update_spec events :
  update_ok (first_update events) ∧
  (is_Some (first_update events) ↔ Exists is_evidence events).
Proof.
  induction events as [|event events [IHok IH]]; cbn [first_update].
  - split; [done|]. rewrite Exists_nil. by split; [intros []|].
  - rewrite Exists_cons. pose proof (classify_input_event_ok event).
    pose proof (classify_input_event_evidence event) as Hev.
    destruct (classify_input_event event) as [u|] eqn:Hu.
    + split; [done|]. split; [left; by apply Hev; eexists|by eexists].
    + split; [done|]. rewrite IH. pose proof (is_Some_None (A:=Update)). tauto.
Qed.

Lemma fetched_evidence fd events :
  evidence (Note_Fetched fd (Ok events)) ↔ Exists is_evidence events.
Proof. unfold evidence. cbn. tauto. Qed.

Lemma eligibility_update_logs {E} eligibility events R :
  logs (E:=E) (eligibility_update eligibility events)
    (λ u n, Forall calm n ∧ update_ok u ∧
            (is_Some u ↔ is_Some eligibility ∧ is_lost events || Revents_IN events = true)) R.
Proof.
  unfold eligibility_update. destruct eligibility as [source|].
  2: { apply logs_ret. split_and!; [done..|]. split; [by intros []|by intros [[] _]]. }
  destruct (is_lost events); [apply logs_ret; split_and!; [done..|split; [by eexists|by eexists]]|].
  destruct (Revents_IN events).
  2: { apply logs_ret. split_and!; [done..|]. split; [by intros []|by intros [_ ?]]. }
  eapply logs_bind; [apply (logs_receive _ _ R)|done|]. intros transition n Hn. apply logs_ret.
  rewrite app_nil_r. split_and!; [|by destruct transition as [[]|]|split; [by eexists|by eexists]].
  destruct Hn as [[_ ->]|(? & ? & -> & _)]; [done|]. repeat constructor; apply calm_read.
Qed.

Lemma device_update_logs {E} update devices R :
  update_ok update →
  logs (E:=E) (device_update update devices)
    (λ u n, Forall silent n ∧ update_ok u ∧ (devices = [] → u = update) ∧
            (is_Some u ↔ is_Some update ∨ Exists (λ p, is_lost p.2 = true) devices ∨ Exists evidence n)) R.
Proof.
  revert update R. induction devices as [|[device events] devices IH]; intros update R Hok; cbn [device_update].
  { apply logs_ret. rewrite !Exists_nil. naive_solver. }
  destruct update as [u|].
  { apply logs_ret. split_and!; [done..|]. split; [by left|by eexists]. }
  destruct (is_lost events) eqn:Hlost.
  { apply logs_ret. split_and!; [done..|]. rewrite Exists_cons. split; [by auto|by eexists]. }
  destruct (Revents_IN events); cbn [negb].
  2: { eapply logs_mono; [apply (IH None R I)| |done]. intros u n (? & ? & _ & Hu). split_and!; [done..|].
       rewrite Hu, Exists_cons. cbn. rewrite Hlost. naive_solver. }
  eapply logs_bind; [eapply (logs_attempt _ _ _ R), logs_fetch|done|]. intros [fetched|e] n Hn; cbn in Hn.
  - subst n. destruct (first_update_spec fetched) as [Hfirst Hevents].
    eapply logs_mono; [apply (IH _ (λ n2, R ([Note_Fetched device (Ok fetched)] ++ n2)) Hfirst)| |done].
    intros u n (Hs & Hu & _ & Hiff). split_and!; [constructor; [by intros []|done]|done..|].
    rewrite Hiff. cbn [app]. rewrite !Exists_cons, fetched_evidence, Hevents. cbn [snd].
    rewrite Hlost. pose proof (is_Some_None (A:=Update)). assert (false ≠ true) by done. tauto.
  - destruct Hn as [e' ->]. apply logs_ret. split_and!; [repeat constructor; by intros []|done..|].
    split; [|by eexists]. intros _. right. right. constructor. by left.
Qed.

(** ** The invariant of the loop

    [uid] is the enrolled provider, [deadline] the end of the quiet interval, and [usable]
    says whether the broker began with usable evidence. *)

Context (instance uid deadline : Z) (usable : bool).

Definition status_ok (s : BrokerStatus) : Prop := BrokerStatus_instance s = instance ∧ BrokerStatus_wf s.

(** The status that these notes call for. *)
Definition current (notes : list Note) (s : BrokerStatus) : Prop :=
  status_ok s ∧
  (is_usable (BrokerStatus_state s) = true ↔ usable = true ∧ ¬ Exists evidence notes) ∧
  BrokerStatus_epoch s = (if usable && negb (is_usable (BrokerStatus_state s)) then 2 else 1) ∧
  (BrokerStatus_state s = BrokerState_Ready → ∃ t, deadline ≤ t ∧ Note_Clock t ∈ notes).

(** What was answered before: a usable status, or this one. *)
Definition past (notes : list Note) (frame : bytes) : Prop :=
  ∀ fd frame', Note_Wrote fd frame' ∈ notes →
    frame' = frame ∨
    ∃ s, frame' = BrokerStatus_encode s ∧ status_ok s ∧ is_usable (BrokerStatus_state s) = true.

(** The connection's peer was checked, it has just asked, what was answered before still
    stands, and the answer is current. *)
Definition answer_ok (notes : list Note) (fd : Fd) (frame : bytes) : Prop :=
  Note_Peer fd uid ∈ notes ∧
  (∃ earlier before after, notes = earlier ++ [Note_Read fd before after] ∧
     read_status_request (fuel_for before) before = Some (Ok tt, after)) ∧
  past notes frame ∧
  ∃ s, frame = BrokerStatus_encode s ∧ current notes s.

Definition answered (notes : list Note) : Prop :=
  ∀ before fd frame after, notes = before ++ Note_Wrote fd frame :: after → answer_ok before fd frame.

Definition watching (b : Broker) : Prop :=
  match BrokerStatus_state (Broker_status b) with
  | BrokerState_Arming => Broker_arm_deadline b = Some deadline
  | BrokerState_Ready => Broker_arm_deadline b = None
  | _ => Broker_arm_deadline b = None ∧ Broker_eligibility b = None ∧ Broker_devices b = []
  end.

Definition loop_inv (notes : list Note) (b : Broker) : Prop :=
  answered notes ∧ current notes (Broker_status b) ∧
  past notes (BrokerStatus_encode (Broker_status b)) ∧
  (∀ fd, Broker_provider b = Some fd → Note_Peer fd uid ∈ notes) ∧ watching b.

(** Splits conjunctions, keeping those the context has. *)
Ltac conjuncts := repeat match goal with |- _ ∧ _ => first [assumption | split] end; try done.

Lemma app_eq_silent (notes more before after : list Note) fd frame :
  notes ++ more = before ++ Note_Wrote fd frame :: after → Forall silent more →
  ∃ after', notes = before ++ Note_Wrote fd frame :: after'.
Proof.
  revert before. induction notes as [|note notes IH]; intros before Heq Hmore.
  - cbn in Heq. subst more. apply Forall_app in Hmore as [_ [Hw _]%Forall_cons]. by destruct Hw.
  - destruct before as [|x before]; cbn in Heq; injection Heq as <- Heq; [by exists notes|].
    destruct (IH before) as [after' ->]; [done..|]. by exists after'.
Qed.

Lemma answered_silent notes more : answered notes → Forall silent more → answered (notes ++ more).
Proof.
  intros Hn Hmore before fd frame after Heq. apply app_eq_silent in Heq as [after' ->]; [|done].
  by eapply Hn.
Qed.

Lemma answered_write notes fd frame :
  answered notes → answer_ok notes fd frame → answered (notes ++ [Note_Wrote fd frame]).
Proof.
  intros Hn Ha before fd' frame' after Heq.
  destruct after as [|x after _] using rev_ind.
  - apply app_inj_tail in Heq as [<- [= <- <-]]. done.
  - assert (notes = before ++ Note_Wrote fd' frame' :: after) as ->; [|by eapply Hn].
    rewrite app_comm_cons, (assoc_L (++)) in Heq. by apply app_inj_tail in Heq as [-> _].
Qed.

Lemma past_silent notes more frame : past notes frame → Forall silent more → past (notes ++ more) frame.
Proof.
  intros Hp Hmore fd frame' [Hin|Hin]%elem_of_app; [by eapply Hp|].
  rewrite Forall_forall in Hmore. by destruct (Hmore _ Hin).
Qed.

Lemma calm_silent notes : Forall calm notes → Forall silent notes.
Proof. intros Hn. eapply Forall_impl; [exact Hn|]. by intros note []. Qed.
Lemma calm_no_evidence notes : Forall calm notes → ¬ Exists evidence notes.
Proof.
  intros Hn. apply Forall_Exists_neg. eapply Forall_impl; [exact Hn|]. by intros note [].
Qed.

Lemma current_more notes more s : current notes s → ¬ Exists evidence more → current (notes ++ more) s.
Proof.
  intros (Hs & Hu & He & Hr) Hmore.
  split_and!; [done| |done|].
  - rewrite Hu, Exists_app. tauto.
  - intros Hready. destruct (Hr Hready) as (t & ? & ?). exists t. split; [done|].
    apply elem_of_app. by left.
Qed.

Lemma loop_inv_calm notes more b : loop_inv notes b → Forall calm more → loop_inv (notes ++ more) b.
Proof.
  intros (Ha & Hc & Hp & Hpeer & Hw) Hmore. split_and!; try done.
  - by apply answered_silent, calm_silent.
  - by apply current_more, calm_no_evidence.
  - by apply past_silent, calm_silent.
  - intros fd Hfd. apply elem_of_app. left. by apply Hpeer.
Qed.

Lemma watching_terminal b :
  watching b → is_usable (BrokerStatus_state (Broker_status b)) = false →
  Broker_arm_deadline b = None ∧ Broker_eligibility b = None ∧ Broker_devices b = [].
Proof. unfold watching. by destruct (BrokerStatus_state _). Qed.

(** ** A round *)

Lemma current_terminal notes more state reason s :
  current notes s → update_ok (Some (state, reason)) → Exists evidence more →
  is_usable (BrokerStatus_state s) = true → current (notes ++ more) (terminal s (state, reason)).
Proof.
  intros ((Hi & Hv & Hinst & Hepoch) & Hu & He & _) [Hterm Hvalid] Hev Husable.
  rewrite Husable, andb_false_r in He. apply Hu in Husable as [Husable _].
  unfold current, status_ok, BrokerStatus_wf, terminal. cbn [BrokerStatus_state BrokerStatus_reason
    BrokerStatus_instance BrokerStatus_epoch fst snd]. rewrite Hterm, He, Husable, Exists_app.
  split; [split; [done|split; [done|split; [done|by vm_compute]]]|]. split; [naive_solver|]. split; [done|]. by intros ->.
Qed.

Lemma loop_inv_terminal notes more state reason b :
  loop_inv notes b → Forall silent more → update_ok (Some (state, reason)) → Exists evidence more →
  is_usable (BrokerStatus_state (Broker_status b)) = true →
  loop_inv (notes ++ more)
    {| Broker_status := terminal (Broker_status b) (state, reason); Broker_devices := [];
       Broker_eligibility := None; Broker_arm_deadline := None; Broker_provider := Broker_provider b |}.
Proof.
  intros (Ha & Hc & Hp & Hpeer & _) Hmore Hok Hev Husable. split; [by apply answered_silent|].
  split; [by apply current_terminal|]. split; [|split].
  - apply past_silent; [|done]. intros fd frame Hin. right.
    destruct (Hp fd frame Hin) as [->|?]; [|done]. exists (Broker_status b).
    split; [done|]. split; [by apply Hc|done].
  - intros fd Hfd. apply elem_of_app. left. by apply Hpeer.
  - destruct Hok as [Hterm _]. unfold watching. cbn. by destruct state.
Qed.

(** The status at the end of the quiet interval. *)
Definition armed (s : BrokerStatus) : BrokerStatus := {|
  BrokerStatus_instance := BrokerStatus_instance s; BrokerStatus_epoch := BrokerStatus_epoch s;
  BrokerStatus_state := BrokerState_Ready; BrokerStatus_reason := BrokerStatus_reason s |}.

Lemma loop_inv_armed notes t b :
  loop_inv notes b → BrokerStatus_state (Broker_status b) = BrokerState_Arming →
  deadline ≤ t → Note_Clock t ∈ notes →
  loop_inv notes
    {| Broker_status := armed (Broker_status b); Broker_devices := Broker_devices b;
       Broker_eligibility := Broker_eligibility b; Broker_arm_deadline := None;
       Broker_provider := Broker_provider b |}.
Proof.
  intros (Ha & ((Hi & Hv & Hinst & Hepoch) & Hu & He & _) & Hp & Hpeer & _) Harm Ht Hin.
  split; [done|]. rewrite Harm in Hu, He, Hv. split; [|split; [|split]].
  - unfold current, status_ok, BrokerStatus_wf, armed. cbn [Broker_status BrokerStatus_state
      BrokerStatus_reason BrokerStatus_instance BrokerStatus_epoch]. conjuncts.
    by exists t.
  - intros fd frame Hw. right. destruct (Hp fd frame Hw) as [->|?]; [|done]. exists (Broker_status b).
    rewrite Harm. unfold status_ok, BrokerStatus_wf. rewrite Harm. conjuncts.
  - done.
  - done.
Qed.

Lemma settle_evidence_logs {E} notes more update b R :
  loop_inv notes b → Forall silent more → update_ok update →
  (is_Some update ↔ Exists evidence more) →
  (is_Some update → is_usable (BrokerStatus_state (Broker_status b)) = true) →
  logs (E:=E) (settle_evidence update b)
    (λ b' n, Forall silent n ∧ loop_inv (notes ++ more ++ n) b' ∧ Broker_provider b' = Broker_provider b) R.
Proof.
  intros Hinv Hmore Hok Hiff Husable. unfold settle_evidence. destruct update as [[state reason]|].
  - apply logs_ret. split; [done|]. rewrite app_nil_r. split; [|done].
    apply loop_inv_terminal; [done..|apply Hiff; by eexists|apply Husable; by eexists].
  - assert (Forall calm more) as Hcalm.
    { assert (¬ Exists evidence more) as Hno by (intros Hev%Hiff; by destruct Hev).
      apply Forall_Exists_neg in Hno. rewrite Forall_forall in *. split; auto. }
    pose proof (loop_inv_calm _ _ _ Hinv Hcalm) as Hinv'.
    destruct (Broker_arm_deadline b) as [dl|] eqn:Hdl.
    2: { apply logs_ret. by rewrite app_nil_r. }
    assert (BrokerStatus_state (Broker_status b) = BrokerState_Arming ∧ dl = deadline) as [Harm ->].
    { destruct Hinv as (_ & _ & _ & _ & Hw). unfold watching in Hw. rewrite Hdl in Hw.
      destruct (BrokerStatus_state _); naive_solver. }
    eapply logs_bind; [apply (logs_now R)|done|]. intros t n ->.
    assert (Forall calm [Note_Clock t]) as Hclock.
    { repeat constructor; [by intros []|by intros [[]|[]]]. }
    pose proof (loop_inv_calm _ _ _ Hinv' Hclock) as Hinv''.
    destruct (Z.leb_spec deadline t) as [Hle|Hlt]; apply logs_ret; rewrite app_nil_r.
    all: split; [by apply calm_silent|]; rewrite (assoc_L (++)); split; [|done].
    + apply (loop_inv_armed _ t); [done..|]. apply elem_of_app. right. left.
    + done.
Qed.

Lemma loop_inv_write notes b fd :
  loop_inv notes b → answer_ok notes fd (BrokerStatus_encode (Broker_status b)) →
  loop_inv (notes ++ [Note_Wrote fd (BrokerStatus_encode (Broker_status b))]) b.
Proof.
  intros (Ha & Hc & Hp & Hpeer & Hw) Hok. unfold loop_inv. conjuncts.
  - by apply answered_write.
  - apply current_more; [done|]. intros [[[]|[]]|Hnil]%Exists_cons. by apply Exists_nil in Hnil.
  - intros fd' frame [Hin|Hin]%elem_of_app; [by eapply Hp|]. left.
    apply list_elem_of_singleton in Hin. by injection Hin.
  - intros fd' Hfd. apply elem_of_app. left. by apply Hpeer.
Qed.

Lemma loop_inv_answer notes b fd before after :
  loop_inv notes b → Note_Peer fd uid ∈ notes →
  read_status_request (fuel_for before) before = Some (Ok tt, after) →
  loop_inv (notes ++ [Note_Read fd before after; Note_Wrote fd (BrokerStatus_encode (Broker_status b))]) b.
Proof.
  intros Hinv Hpeer Hread.
  assert (loop_inv (notes ++ [Note_Read fd before after]) b) as Hinv'.
  { apply loop_inv_calm; [done|]. repeat constructor; apply calm_read. }
  change [?a; ?b] with ([a] ++ [b]). rewrite (assoc_L (++)). apply loop_inv_write; [done|].
  split; [apply elem_of_app; by left|]. split; [by exists notes, before, after|].
  destruct Hinv' as (_ & Hc & Hp & _). split; [done|by eexists].
Qed.

Lemma loop_inv_provider notes b provider :
  loop_inv notes b → (∀ fd, provider = Some fd → Note_Peer fd uid ∈ notes) →
  loop_inv notes (with_provider provider b).
Proof. by intros (Ha & Hc & Hp & _ & Hw) Hpeer. Qed.

Lemma answer_provider_logs {E} notes b fd R :
  loop_inv notes b → Note_Peer fd uid ∈ notes →
  logs (E:=E) (answer_provider (Broker_status b) fd) (λ _ n, loop_inv (notes ++ n) b) R.
Proof.
  intros Hinv Hpeer. unfold answer_provider.
  eapply logs_bind; [apply (logs_receive _ _ R)|done|]. intros request n1 Hn1.
  destruct request as [[]|e]; [destruct Hn1 as [[[=] _]|(before & after & -> & Hread)]|].
  2: { apply logs_ret. rewrite app_nil_r. destruct Hn1 as [[_ ->]|(before & after & -> & _)].
       - by rewrite app_nil_r.
       - apply loop_inv_calm; [done|]. repeat constructor; apply calm_read. }
  pose proof (loop_inv_answer _ _ _ _ _ Hinv Hpeer Hread) as Hinv'.
  eapply logs_bind.
  { apply (logs_attempt _ (λ _ n, n = [Note_Wrote fd (BrokerStatus_encode (Broker_status b))])
             (λ n, n = [Note_Wrote fd (BrokerStatus_encode (Broker_status b))])), logs_write. }
  { exact (λ n Hn, Hn). }
  intros written n2 Hn2.
  assert (n2 = [Note_Wrote fd (BrokerStatus_encode (Broker_status b))]) as -> by by destruct written.
  destruct written; [|by apply logs_ret].
  eapply logs_bind; [apply (logs_attempt _ (λ _ n, n = []) (λ n, n = [])), logs_silent, _|
                     exact (λ n Hn, Hn)|].
  intros flushed n3 Hn3. apply logs_ret. by destruct flushed; subst n3.
Qed.

Lemma accept_provider_logs listener :
  logs (accept_provider listener uid)
    (λ provider n, Forall calm n ∧ ∀ fd, provider = Some fd → Note_Peer fd uid ∈ n) (Forall calm).
Proof.
  unfold accept_provider.
  eapply logs_bind; [apply (logs_attempt _ (λ _ n, n = []) (λ n, n = [])), logs_silent, _|
                     exact (λ n Hn, Hn)|].
  intros accepted n Hn. assert (n = []) as -> by by destruct accepted. cbn [app].
  destruct accepted as [stream|[]]; [|by apply logs_ret|by apply logs_fail].
  eapply logs_bind; [apply logs_map_error, logs_peer|by intros n ->|]. intros peer n ->.
  assert (calm (Note_Peer stream peer)) as Hcalm by (split; [by intros []|by intros [[]|[]]]).
  destruct (Z.eqb_spec peer uid) as [->|]; cbn [negb].
  2: { apply logs_ret. split; [by apply Forall_singleton|done]. }
  eapply logs_bind; [apply logs_map_error, logs_silent, _|by intros n ->; apply Forall_singleton|].
  intros _ n ->. apply logs_ret. cbn [app]. split; [by apply Forall_singleton|]. intros fd [= ->]. left.
Qed.

Lemma serve_provider_logs listener notes before events b :
  loop_inv notes b → Broker_provider b = before →
  logs (serve_provider listener uid before events b)
    (λ b' n, loop_inv (notes ++ n) b') (λ n, answered (notes ++ n)).
Proof.
  intros Hinv Hbefore. unfold serve_provider.
  assert (loop_inv (notes ++ []) (with_provider None b)) as Hnone.
  { rewrite app_nil_r. by apply loop_inv_provider. }
  assert (loop_inv (notes ++ []) b) as Hsame by by rewrite app_nil_r.
  destruct before as [fd|], (is_lost events), (Revents_IN events);
    try (by apply logs_ret); try (apply logs_fail; apply Hsame).
  - eapply logs_bind; [apply (answer_provider_logs notes b fd (λ n, answered (notes ++ n)) Hinv)|done|].
    { by apply Hinv. }
    intros keep n Hn. apply logs_ret. rewrite app_nil_r. destruct keep; [done|].
    by apply loop_inv_provider.
  - eapply logs_bind; [apply accept_provider_logs|..].
    { intros n Hn. apply answered_silent; [apply Hinv|by apply calm_silent]. }
    intros provider n [Hcalm Hpeer]. apply logs_ret. rewrite app_nil_r.
    apply loop_inv_provider; [by apply loop_inv_calm|].
    intros fd Hfd. apply elem_of_app. right. by apply Hpeer.
Qed.

Lemma lost_devices devices events :
  Exists is_source_lost (zip (Source_Device <$> devices) events) ↔
  Exists (λ p, is_lost p.2 = true) (zip devices events).
Proof.
  revert events. induction devices as [|d devices IH]; intros [|e es]; csimpl; try (by rewrite !Exists_nil).
  rewrite !Exists_cons, IH. done.
Qed.

(** What a poll of the loop says, by the places the code looks at. *)
Lemma poll_evidence listener b events :
  length events = length (sources listener b) →
  evidence (Note_Polled (sources listener b) events) ↔
  (is_Some (Broker_eligibility b) ∧
   is_lost (nth 1 events no_events) || Revents_IN (nth 1 events no_events) = true) ∨
  Exists (λ p, is_lost p.2 = true)
    (zip (Broker_devices b) (drop (1 + length (option_list (Broker_eligibility b))) events)).
Proof.
  set (first := match Broker_provider b with Some fd => Source_Provider fd | None => Source_Listener listener end).
  assert (sources listener b = first :: (Source_Eligibility <$> option_list (Broker_eligibility b))
                                 ++ (Source_Device <$> Broker_devices b)) as ->.
  { unfold sources, first. by destruct (Broker_provider b). }
  assert (∀ devices events, ¬ Exists is_eligibility_signal (zip (Source_Device <$> devices) events)) as Hsignal.
  { intros devices. induction devices as [|d devices IH]; intros [|e es]; csimpl; try (by intros ?%Exists_nil).
    rewrite Exists_cons. intros [[]|?]. by eapply IH. }
  assert (∀ e, ¬ is_source_lost (first, e) ∧ ¬ is_eligibility_signal (first, e)) as Hfirst.
  { intros e. unfold first. destruct (Broker_provider b); split; by intros []. }
  intros Hlen. destruct events as [|e0 events]; [done|]. unfold evidence. cbn.
  rewrite !Exists_cons. destruct (Hfirst e0) as [? ?].
  destruct (Broker_eligibility b) as [source|]; cbn in *.
  - destruct events as [|e1 events]; [done|]. cbn. rewrite !Exists_cons, lost_devices.
    specialize (Hsignal (Broker_devices b) events). cbn. assert (is_Some (Some source)) by by eexists. tauto.
  - rewrite drop_0, lost_devices. specialize (Hsignal (Broker_devices b) events).
    pose proof (is_Some_None (A:=Fd)). tauto.
Qed.

(** Evidence of a round: what the poll said, and what the devices delivered. *)
Lemma round_update_logs listener b events R :
  length events = length (sources listener b) → watching b →
  logs (E:=string)
    (let! update := eligibility_update (Broker_eligibility b) (nth 1 events no_events) in
     device_update update
       (zip (Broker_devices b) (drop (1 + length (option_list (Broker_eligibility b))) events)))
    (λ u n, Forall silent n ∧ update_ok u ∧
       (is_Some u ↔ Exists evidence (Note_Polled (sources listener b) events :: n)) ∧
       (is_Some u → is_usable (BrokerStatus_state (Broker_status b)) = true)) R.
Proof.
  intros Hlen Hwatch. eapply logs_bind; [apply (eligibility_update_logs _ _ R)|done|].
  intros u1 n1 (Hcalm & Hok1 & Hu1).
  eapply logs_mono; [apply (device_update_logs _ _ (λ n, R (n1 ++ n)) Hok1)| |done].
  intros u n2 (Hs & Hok & Hnone & Hu). split_and!; [|done|..].
  - apply Forall_app. split; [by apply calm_silent|done].
  - rewrite Exists_cons, (poll_evidence _ _ _ Hlen), Exists_app, Hu, Hu1.
    pose proof (calm_no_evidence _ Hcalm). tauto.
  - intros Hsome. destruct (is_usable _) eqn:Husable; [done|]. exfalso.
    destruct (watching_terminal b Hwatch Husable) as (_ & Helig & Hdev).
    rewrite Hdev in Hnone. rewrite (Hnone eq_refl), Hu1, Helig in Hsome. by destruct Hsome as [[] _].
Qed.

Lemma round_timeout_logs {E} b R :
  logs (E:=E) (match Broker_arm_deadline b with
               | None => ret None
               | Some deadline => let! present := now in ret (Some (Z.max 0 (deadline - present)))
               end) (λ _ n, Forall calm n) R.
Proof.
  destruct (Broker_arm_deadline b); [|by apply logs_ret].
  eapply logs_bind; [apply (logs_now R)|done|]. intros t n ->. apply logs_ret, Forall_singleton.
  split; [by intros []|by intros [[]|[]]].
Qed.

Lemma round_logs listener notes b :
  loop_inv notes b →
  logs (round listener uid b) (λ b' n, loop_inv (notes ++ n) b') (λ n, answered (notes ++ n)).
Proof.
  intros Hinv. unfold round.
  eapply logs_bind; [apply (round_timeout_logs b (λ n, answered (notes ++ n)))|done|].
  intros timeout n1 Hn1. pose proof (loop_inv_calm _ _ _ Hinv Hn1) as Hinv1.
  eapply logs_bind; [apply logs_map_error, logs_poll|intros n ->; rewrite app_nil_r; apply Hinv1|].
  intros events n2 [-> Hlen].
  eapply (logs_mono _ (λ b' n, loop_inv ((notes ++ n1) ++ [Note_Polled (sources listener b) events] ++ n) b')
            _ (λ n, answered ((notes ++ n1) ++ [Note_Polled (sources listener b) events] ++ n)));
    [|by intros *; rewrite <- !(assoc_L (++))..].
  cbv zeta. apply logs_assoc.
  eapply logs_bind; [apply (round_update_logs listener b events
    (λ n, answered ((notes ++ n1) ++ [Note_Polled (sources listener b) events] ++ n)) Hlen)| |].
  { apply Hinv. }
  { done. }
  intros update n2 (Hs & Hok & Hev & Husable).
  set (more := Note_Polled (sources listener b) events :: n2).
  assert (Forall silent more) as Hmore by (constructor; [by intros []|done]).
  eapply logs_bind; [apply (settle_evidence_logs (notes ++ n1) more update b
    (λ n, answered ((notes ++ n1) ++ more ++ n)) Hinv1 Hmore Hok Hev Husable)|done|].
  intros b' n3 (Hs3 & Hinv3 & Hprovider).
  eapply logs_mono; [by apply (serve_provider_logs listener _ (Broker_provider b) (nth 0 events no_events) b' Hinv3)|..];
    intros *; unfold more; by rewrite <- !(assoc_L (++)).
Qed.

Lemma rounds_logs n listener notes b :
  loop_inv notes b →
  logs (rounds n listener uid b) (λ b' n, loop_inv (notes ++ n) b') (λ n, answered (notes ++ n)).
Proof.
  revert notes b. induction n as [|n IH]; intros notes b Hinv; cbn [rounds].
  { apply logs_ret. by rewrite app_nil_r. }
  eapply logs_bind; [apply (round_logs listener _ _ Hinv)|done|]. intros b' n1 Hinv'.
  eapply logs_mono; [apply (IH _ _ Hinv')|..]; cbv beta; intros *; by rewrite <- !(assoc_L (++)).
Qed.
End logs.
