(* ===== verification/BrokerRuns.v ===== *)
(** * Runs of the activity broker

    Start-up notes no answer and says when the evidence is usable; with the invariant of
    the loop, every answer of a run is justified by what was noted before it.  A run on a
    small system ends the file. *)

From stdpp Require Import list.
From S2P Require Import Prelude Text Effects Host Codec BrokerProtocol InputSet DeviceSet BrokerSystem InheritedFiles Broker BrokerTheorems.

(** ** Start-up *)

Section start.
Context {W : Type} `{Journal W}.

(** The bytes a read took. *)
Definition received (note : Note) : bytes :=
  match note with
  | Note_Read _ before after => take (length (content before) - length (content after)) (content before)
  | _ => []
  end.

Definition quiet (note : Note) : Prop := silent note ∧ ¬ device_evidence note.
Definition unheard (note : Note) : Prop := silent note ∧ received note = [].

#[local] Instance explain_preserves {A T} (part : W → T) prefix (m : M W string A) :
  Preserves part m → Preserves part (explain prefix m).
Proof. intros. apply map_error_preserves, _. Qed.
#[local] Instance stop_preserves {A T} (part : W → T) (m : M W string A) :
  Preserves part m → Preserves part (stop m).
Proof. intros. apply map_error_preserves, _. Qed.

#[local] Instance confine_all_silent files : Preserves journal (confine_all files).
Proof. induction files as [|[descriptor name] files IH]; cbn [confine_all]; solve_preserves. Qed.
#[local] Instance receive_inherited_files_silent env maximum consumed :
  Preserves journal (receive_inherited_files env maximum consumed).
Proof. unfold receive_inherited_files. solve_preserves. Qed.
#[local] Instance open_inherited_listener_silent : Preserves journal open_inherited_listener.
Proof. unfold open_inherited_listener. solve_preserves. Qed.
#[local] Instance open_inherited_eligibility_silent : Preserves journal open_inherited_eligibility.
Proof. unfold open_inherited_eligibility. solve_preserves. Qed.
#[local] Instance confine_inherited_file_silent descriptor kind :
  Preserves journal (confine_inherited_file descriptor kind).
Proof. unfold confine_inherited_file. solve_preserves. Qed.
#[local] Instance open_devices_silent index files : Preserves journal (open_devices index files).
Proof.
  revert index. induction files as [|file files IH]; intros index; cbn [open_devices];
    unfold open_inherited_device; solve_preserves.
Qed.
#[local] Instance read_enrolled_device_set_silent descriptor owner :
  Preserves journal (read_enrolled_device_set descriptor owner).
Proof. unfold read_enrolled_device_set. cbv zeta. solve_preserves. Qed.
#[local] Instance check_devices_silent devices : Preserves journal (check_devices devices).
Proof. unfold check_devices. solve_preserves. Qed.
#[local] Instance adopt_silent env : Preserves journal (adopt env).
Proof. unfold adopt. solve_preserves. Qed.
#[local] Instance some_key_down_silent devices : Preserves journal (some_key_down devices).
Proof. induction devices as [|device devices IH]; cbn [some_key_down]; solve_preserves. Qed.
#[local] Instance instance_bytes_silent fuel got : Preserves journal (instance_bytes fuel got).
Proof. revert got. induction fuel as [|fuel IH]; intros got; cbn [instance_bytes]; solve_preserves. Qed.
#[local] Instance random_instance_silent : Preserves journal random_instance.
Proof. unfold random_instance. cbv zeta. solve_preserves. Qed.

Lemma read_content r n :
  match read r n with
  | (Ok chunk, r') => content r = chunk ++ content r'
  | (Err _, r') => content r = content r'
  end.
Proof.
  destruct r as [|[chunk| |code] r]; cbn; try done. case_bool_decide; cbn; [done|].
  by rewrite (assoc_L (++)), take_drop.
Qed.

Lemma received_read fd before after n outcome :
  read before n = (outcome, after) →
  received (Note_Read fd before after) = match outcome with Ok chunk => chunk | Err _ => [] end.
Proof.
  intros Hread. pose proof (read_content before n) as Hc. rewrite Hread in Hc. unfold received.
  destruct outcome as [chunk|e]; rewrite Hc; [|by rewrite Nat.sub_diag].
  rewrite length_app, Nat.add_sub. apply take_app_length.
Qed.

Lemma quiet_clock t : quiet (Note_Clock t).
Proof. split; by intros []. Qed.
Lemma quiet_read fd before after : quiet (Note_Read fd before after).
Proof. split; by intros []. Qed.
Lemma quiet_silent notes : Forall quiet notes → Forall silent notes.
Proof. intros Hn. eapply Forall_impl; [exact Hn|]. by intros note []. Qed.
Lemma quiet_no_evidence notes : Forall quiet notes → ¬ Exists device_evidence notes.
Proof. intros Hn. apply Forall_Exists_neg. eapply Forall_impl; [exact Hn|]. by intros note []. Qed.

Lemma logs_read source count R :
  logs (E:=BrokerStop) (λ w, let '(outcome, rest) := read (pending source w) count in
                             (Ok outcome, consume source rest w))
    (λ outcome n, ∃ before after, n = [Note_Read source before after] ∧ read before count = (outcome, after)) R.
Proof.
  intros w. unfold wp. destruct (read (pending source w) count) as [outcome rest] eqn:Hread.
  exists [Note_Read source (pending source w) rest]. split; [apply read_noted|by eexists _, _].
Qed.

Lemma logs_poll_one {E} prefix (f : string → E) source timeout :
  logs (poll_one prefix f source timeout)
    (λ _ n, ∃ events, n = [Note_Polled [source] events]) (λ n, n = []).
Proof.
  unfold poll_one. eapply logs_bind; [apply logs_map_error, logs_map_error, logs_poll|done|].
  intros events n [-> _]. apply logs_ret. by exists events.
Qed.
Lemma quiet_polled fd events : quiet (Note_Polled [Source_Eligibility fd] events).
Proof.
  split; [by intros []|]. cbn. destruct events as [|e events]; cbn; [by intros ?%Exists_nil|].
  intros [[]|?%Exists_nil]%Exists_cons; done.
Qed.

(** The frame is what was read after the bytes [got]. *)
Lemma initial_frame_logs fuel source deadline got :
  logs (initial_frame fuel source deadline got)
    (λ frame n, Forall quiet n ∧ frame = got ++ (n ≫= received)) (Forall quiet).
Proof.
  revert got. induction fuel as [|fuel IH]; intros got; cbn [initial_frame]; [by apply logs_fail|].
  destruct (_ <=? _)%nat; [apply logs_ret; by rewrite app_nil_r|].
  assert (∀ notes got', Forall quiet notes → got ++ (notes ≫= received) = got' →
    logs (initial_frame fuel source deadline got')
      (λ frame n, Forall quiet (notes ++ n) ∧ frame = got ++ ((notes ++ n) ≫= received))
      (λ n, Forall quiet (notes ++ n))) as Hnext.
  { intros notes got' Hnotes <-. eapply logs_mono; [apply IH|..].
    - intros frame n [Hn ->]. split; [by apply Forall_app|]. by rewrite bind_app, (assoc_L (++)).
    - intros n Hn. by apply Forall_app. }
  eapply logs_bind; [apply (logs_read _ _ (Forall quiet))|done|].
  intros outcome n (before & after & -> & Hread).
  assert (Forall quiet [Note_Read source before after]) as Hquiet by apply Forall_singleton, quiet_read.
  pose proof (received_read source _ _ _ _ Hread) as Hgot.
  destruct outcome as [[|c chunk]|[| |code]].
  - by apply logs_fail.
  - apply (Hnext [Note_Read source before after]); [done|].
    cbn [mbind list_bind]. by rewrite Hgot, app_nil_r.
  - apply (Hnext [Note_Read source before after]); [done|].
    cbn [mbind list_bind]. by rewrite Hgot, !app_nil_r.
  - by apply logs_fail.
  - destruct (negb _); [by apply logs_fail|].
    eapply logs_bind; [apply (logs_now (λ n, Forall quiet ([Note_Read source before after] ++ n)))|done|].
    intros t n ->. cbv zeta.
    assert (∀ more, Forall quiet more →
              Forall quiet ([Note_Read source before after] ++ [Note_Clock t] ++ more)) as Hmore.
    { intros more ?. repeat (apply Forall_app; split); [done|apply Forall_singleton, quiet_clock|done]. }
    destruct (_ =? 0); [by apply logs_fail, Hmore|].
    eapply logs_bind; [apply logs_poll_one|by intros n ->; apply Hmore|].
    intros events n [all ->].
    assert (Forall quiet [Note_Polled [Source_Eligibility source] all]) as Hpolled
      by apply Forall_singleton, quiet_polled.
    destruct (_ || _); [by apply logs_fail, Hmore|]. destruct (is_none _); [by apply logs_fail, Hmore|].
    destruct (_ && _); [by apply logs_fail, Hmore|].
    apply (Hnext ([Note_Read source before after] ++ [Note_Clock t] ++ [Note_Polled [Source_Eligibility source] all])); [by apply Hmore|].
    cbn [mbind list_bind app]. by rewrite Hgot, !app_nil_r.
Qed.

Lemma read_initial_eligibility_logs fuel source timeout :
  logs (read_initial_eligibility fuel source timeout)
    (λ state n, Forall quiet n ∧ decode_eligibility (n ≫= received) = Ok state) (Forall quiet).
Proof.
  unfold read_initial_eligibility.
  eapply logs_bind; [apply (logs_now (Forall quiet))|done|]. intros t n ->.
  assert (∀ n, Forall quiet n → Forall quiet ([Note_Clock t] ++ n)) as Hclock.
  { intros n ?. apply Forall_app. split; [apply Forall_singleton, quiet_clock|done]. }
  eapply logs_bind; [apply initial_frame_logs|done|]. intros frame n [Hn ->].
  intros w. apply wp_lift.
  - intros state Hstate. exists []. rewrite !app_nil_r. split; [done|]. split; [by apply Hclock|].
    cbn in *. by destruct (decode_eligibility _) as [|e]; [injection Hstate as ->|].
  - intros e _. exists []. rewrite !app_nil_r. split; [done|by apply Hclock].
Qed.

Lemma queued_update_spec activity events :
  match queued_update activity events with
  | inl u => is_Some u ∧ update_ok u
  | inr active => active = false → activity = false ∧ ¬ Exists is_evidence events
  end.
Proof.
  revert activity. induction events as [|event events IH]; intros activity; cbn [queued_update].
  { intros ->. split; [done|]. by intros ?%Exists_nil. }
  pose proof (classify_input_event_ok event) as Hok. specialize (IH activity) as IHa. specialize (IH true) as IHt.
  destruct (classify_input_event event) as [[state reason]|] eqn:Hevent.
  - assert (match queued_update true events with
            | inl u => is_Some u ∧ update_ok u
            | inr active => active = false → activity = false ∧
                ¬ Exists is_evidence (event :: events)
            end) as Ht.
    { destruct (queued_update true events); [done|]. intros Hfalse. by destruct (IHt Hfalse). }
    unfold classify_input_event in Hevent. repeat case_match; simplify_eq; done || (split; [by eexists|done]).
  - destruct (queued_update activity events); [done|]. intros Hfalse. destruct (IHa Hfalse) as [? Hno].
    split; [done|]. intros [Hev%classify_input_event_evidence|?]%Exists_cons; [|by apply Hno].
    rewrite Hevent in Hev. by destruct Hev.
Qed.

Lemma unheard_fetched fd events : unheard (Note_Fetched fd events).
Proof. split; [by intros []|done]. Qed.

Lemma queued_updates_logs activity devices :
  logs (queued_updates activity devices)
    (λ u n, Forall unheard n ∧ update_ok u ∧
       (u = None → activity = false ∧ ¬ Exists device_evidence n ∧ ¬ Exists (λ p, is_lost p.2 = true) devices))
    (Forall unheard).
Proof.
  revert activity. induction devices as [|[device events] devices IH]; intros activity; cbn [queued_updates].
  { apply logs_ret. destruct activity; (split_and!; [done..|]); [done|].
    intros _. split_and!; [done|by intros ?%Exists_nil..]. }
  destruct (is_lost events) eqn:Hlost; [by apply logs_ret|].
  assert (∀ l, ¬ Exists (λ p, is_lost p.2 = true) l → ¬ Exists (λ p, is_lost p.2 = true) ((device, events) :: l))
    as Hcons.
  { intros l Hl [?|?]%Exists_cons; cbn in *; [congruence|done]. }
  destruct (Revents_IN events); cbn [negb].
  2: { eapply logs_mono; [apply IH| |done]. intros u n (? & ? & Hu). split_and!; [done..|].
       intros Hnone. destruct (Hu Hnone) as (? & ? & ?). split_and!; auto. }
  eapply logs_bind; [apply logs_map_error, logs_fetch|intros n [e ->]; apply Forall_singleton, unheard_fetched|].
  intros fetched n ->.
  assert (∀ n, Forall unheard n → Forall unheard ([Note_Fetched device (Ok fetched)] ++ n)) as Hn.
  { intros n ?. apply Forall_app. split; [apply Forall_singleton, unheard_fetched|done]. }
  pose proof (queued_update_spec activity fetched) as Hspec. destruct (queued_update activity fetched) as [u|active].
  { apply logs_ret. destruct Hspec as [[x ->] Hok]. split_and!; [by apply Hn|done|done]. }
  eapply logs_mono; [apply IH| |exact Hn]. intros u n (? & ? & Hu). split_and!; [by apply Hn|done|].
  intros Hnone. destruct (Hu Hnone) as (Hactive & Hno & Hl). destruct (Hspec Hactive) as [? Hev].
  split_and!; [done| |by apply Hcons]. by intros [[?|?%Exists_nil]%Exists_cons|?]%Exists_app.
Qed.

Lemma unheard_silent notes : Forall unheard notes → Forall silent notes.
Proof. intros Hn. eapply Forall_impl; [exact Hn|]. by intros note []. Qed.
Lemma unheard_received notes : Forall unheard notes → notes ≫= received = [].
Proof. induction 1 as [|note notes [_ Hnote] _ IH]; [done|]. cbn [mbind list_bind]. by rewrite Hnote, IH. Qed.

Lemma initial_device_update_logs devices :
  logs (initial_device_update devices)
    (λ u n, Forall unheard n ∧ update_ok u ∧ (u = None → ¬ Exists device_evidence n)) (Forall unheard).
Proof.
  unfold initial_device_update.
  eapply logs_bind; [apply logs_silent, _|by intros n ->|]. intros down n ->.
  destruct down; [by apply logs_ret|].
  eapply logs_bind; [apply logs_map_error, logs_poll|by intros n ->|]. intros events n [-> _].
  assert (unheard (Note_Polled (Source_Device <$> devices) events)) as Hpoll by (split; [by intros []|done]).
  eapply logs_mono; [apply queued_updates_logs|..].
  - intros u n (Hn & Hok & Hu). split_and!; [by constructor|done|]. intros Hnone.
    destruct (Hu Hnone) as (_ & Hno & Hlost). intros [Hev|?]%Exists_cons; [|done].
    by apply Hlost, lost_devices.
  - intros n Hn. by constructor.
Qed.

(** A call that notes nothing, and whose result is known. *)
Lemma logs_value {E A} (m : M W E A) (P : A → Prop) :
  Preserves journal m → (∀ w, wp m (λ a _, P a) (λ _ _, True) w) →
  logs m (λ a n, n = [] ∧ P a) (λ n, n = []).
Proof.
  intros Hm HP w. eapply wp_mono; [apply (wp_preserves journal m _ _ w Hm (HP w))|..].
  - intros a w' [Ha Hw]. exists []. by rewrite app_nil_r.
  - intros e w' [_ Hw]. exists []. by rewrite app_nil_r.
Qed.

Lemma instance_bytes_spec fuel got w :
  Forall is_u8 got → (length got ≤ 8)%nat →
  wp (instance_bytes fuel got) (λ b _, Forall is_u8 b ∧ (length b ≤ 8)%nat) (λ _ _, True) w.
Proof.
  revert got w. induction fuel as [|fuel IH]; intros got w Hgot Hlen; cbn [instance_bytes]; [by apply wp_ret|].
  destruct (_ <=? _)%nat; [by apply wp_ret|]. apply wp_bind, wp_map_error.
  eapply wp_mono; [apply getrandom_u8| |done]. intros chunk w' Hchunk.
  destruct (is_empty chunk); [done|]. apply IH.
  - apply Forall_app. split; [done|by apply Forall_take].
  - rewrite length_app, length_take. lia.
Qed.

Lemma random_instance_logs :
  logs random_instance (λ instance n, n = [] ∧ 1 ≤ instance ≤ U64_MAX) (λ n, n = []).
Proof.
  apply logs_value; [apply _|]. intros w. unfold random_instance. apply wp_bind.
  eapply wp_mono; [apply (instance_bytes_spec 9 [] w); [done|cbn; lia]| |done].
  intros b w' [Hb Hlen]. cbv zeta. pose proof (from_le_bound b Hb) as Hbound.
  assert (256 ^ Z.of_nat (length b) ≤ 256 ^ 8) by (apply Z.pow_le_mono_r; lia).
  destruct (Z.eqb_spec (from_le b) 0); [done|]. apply wp_ret. int_bounds. lia.
Qed.

(** What start-up must have noted before the broker calls its evidence usable. *)
Definition begun (notes : list Note) (deadline : Z) (usable : bool) : Prop :=
  Forall silent notes ∧
  (usable = true →
     ¬ Exists device_evidence notes ∧
     decode_eligibility (notes ≫= received) = Ok EligibilityState_Eligible ∧
     ∃ t, Note_Clock t ∈ notes ∧ deadline = t + ARM_QUIET_INTERVAL).

Lemma initial_state_cases eligibility u state reason :
  update_ok u → initial_state eligibility u = (state, reason) →
  (state = BrokerState_Arming ∧ reason = StopReason_None ∧ eligibility = EligibilityState_Eligible ∧ u = None) ∨
  update_ok (Some (state, reason)).
Proof.
  intros Hok. destruct eligibility, u as [[]|]; cbn; intros [= <- <-]; auto.
Qed.

Lemma loop_inv_start instance uid deadline state reason b :
  Broker_status b = {| BrokerStatus_instance := instance; BrokerStatus_epoch := 1;
                       BrokerStatus_state := state; BrokerStatus_reason := reason |} →
  valid_state state reason = true → state ≠ BrokerState_Ready → 1 ≤ instance ≤ U64_MAX →
  Broker_provider b = None → watching deadline b →
  loop_inv instance uid deadline (is_usable state) [] b.
Proof.
  intros Hb Hvalid Hready Hinstance Hprovider Hwatch. split; [|split; [|split; [|split]]].
  - intros before fd frame after Hnil. by destruct before.
  - rewrite Hb. split; [|split; [|split]]; cbn [BrokerStatus_state BrokerStatus_epoch].
    + split; [done|]. split; [done|]. split; [done|]. split; by vm_compute.
    + split; [|by intros []]. intros ->. split; [done|]. by intros ?%Exists_nil.
    + by destruct (is_usable state).
    + done.
  - by intros fd frame ?%elem_of_nil.
  - by rewrite Hprovider.
  - done.
Qed.

Lemma logs_arm :
  logs (E:=BrokerStop) (let! present := now in ret (Some (present + ARM_QUIET_INTERVAL)))
    (λ d n, ∃ t, n = [Note_Clock t] ∧ d = Some (t + ARM_QUIET_INTERVAL)) (λ n, n = []).
Proof.
  eapply logs_bind; [apply (logs_now (λ n, n = []))|done|]. intros t n ->. apply logs_ret. by exists t.
Qed.

Lemma begin_logs fuel devices uid :
  logs (begin fuel devices)
    (λ b n, ∃ instance deadline usable, begun n deadline usable ∧ loop_inv instance uid deadline usable [] b)
    (Forall silent).
Proof.
  unfold begin.
  eapply logs_bind; [apply logs_silent, _|by intros n ->|]. intros source n ->.
  eapply logs_bind; [apply read_initial_eligibility_logs|apply quiet_silent|]. intros eligibility n1 [Hn1 Hheard].
  assert (∀ n, Forall unheard n → Forall silent (n1 ++ n)) as Hsilent.
  { intros n Hn. apply Forall_app. split; [by apply quiet_silent|by apply unheard_silent]. }
  eapply logs_bind; [apply logs_map_error, initial_device_update_logs|exact Hsilent|].
  intros u n2 (Hn2 & Hok & Hu). specialize (Hsilent _ Hn2).
  eapply logs_bind; [apply logs_map_error, random_instance_logs|by intros n ->; rewrite app_nil_r|].
  intros instance n [-> Hinstance].
  destruct (initial_state eligibility u) as [state reason] eqn:Hstate.
  destruct (initial_state_cases _ _ _ _ Hok Hstate) as [(-> & -> & -> & ->)|[Hterm Hvalid]].
  - rewrite bool_decide_true by done.
    eapply logs_bind; [apply logs_arm|intros n ->; by rewrite app_nil_r|].
    intros deadline n (t & -> & ->). apply logs_ret. rewrite app_nil_r. cbn [app].
    exists instance, (t + ARM_QUIET_INTERVAL), true.
    split; [split|by apply (loop_inv_start _ _ _ BrokerState_Arming StopReason_None)].
    { rewrite (assoc_L (++)). apply Forall_app. split; [done|]. apply Forall_singleton. by intros []. }
    intros _. split; [|split].
    + rewrite !Exists_app. pose proof (quiet_no_evidence _ Hn1). specialize (Hu eq_refl).
      intros [?|[?|[[]|?%Exists_nil]%Exists_cons]]; done.
    + rewrite !bind_app, (unheard_received n2 Hn2). cbn. by rewrite app_nil_r.
    + exists t. split; [|done]. rewrite !elem_of_app. right. right. left.
  - rewrite bool_decide_false by by intros ->.
    eapply logs_bind; [by apply (logs_ret _ (λ d n, d = None ∧ n = []) (Forall silent))|..].
    { intros n Hn. cbn. rewrite (assoc_L (++)). by apply Forall_app. }
    intros arm n [-> ->]. apply logs_ret. rewrite !app_nil_r. cbn [app].
    exists instance, 0, false. split; [by split|]. pose proof Hterm as Hfalse. cbn in Hfalse. rewrite <- Hfalse at 1.
    apply (loop_inv_start _ _ _ state reason); [done|done|by intros ->|done..|].
    rewrite Hfalse. unfold watching. cbn. by destruct state.
Qed.

(** What the notes of a run may be. *)
Definition answers_safely (debug : str → string) (arguments : list str) (broker_uid : Z)
  (notes : list Note) : Prop :=
  Forall silent notes ∨
  ∃ uid start loop instance deadline usable,
    parse_arguments debug None arguments = Ok (Some uid) ∧ uid ≠ broker_uid ∧ broker_uid ≠ 0 ∧
    notes = start ++ loop ∧ begun start deadline usable ∧
    answered instance uid deadline usable loop.

End start.

(** ** A run *)

Module BrokerToy.
(** One reviewed device, descriptor 4 behind the device set at 3; the polls, the events of
    the device and what the connections deliver are scripted.  Each look at the clock takes
    a fifth of a second. *)
Record World := {
  World_notes : list Note;
  World_clock : Z;
  World_polls : list (list Revents);
  World_events : list (list InputEvent);
  World_pending : list (Fd * Reader)
}.

Definition noted (note : Note) (w : World) : World := {|
  World_notes := World_notes w ++ [note]; World_clock := World_clock w; World_polls := World_polls w;
  World_events := World_events w; World_pending := World_pending w |}.

Definition pending_of (fd : Fd) (w : World) : Reader :=
  from_option snd [] (find (λ p, fst p =? fd) (World_pending w)).

Definition set_pending (fd : Fd) (rest : Reader) (w : World) : World := {|
  World_notes := World_notes w; World_clock := World_clock w; World_polls := World_polls w;
  World_events := World_events w;
  World_pending := (fd, rest) :: filter (λ p, fst p ≠ fd) (World_pending w) |}.

Definition device := example_device None.

Definition device_set : bytes :=
  match encode_device_set [device] with Ok b => b | Err _ => [] end.

#[export] Instance system : BrokerSystem World := {
  clock_now w :=
    (World_clock w,
     noted (Note_Clock (World_clock w)) {|
       World_notes := World_notes w; World_clock := World_clock w + 200 * 1000000;
       World_polls := World_polls w; World_events := World_events w; World_pending := World_pending w |});
  dup fd := ret (fd + 10);
  set_nonblocking _ := ret tt;
  local_addr _ := ret tt;
  fcntl_getfl _ := ret 0;
  fcntl_setfl _ _ := ret tt;
  fcntl_getfd _ := ret 0;
  fcntl_setfd _ _ := ret tt;
  listen_fds := ret [3; 4];
  fd_metadata _ := ret {|
    FdMetadata_metadata := {|
      Metadata_file_type := FileType_File; Metadata_dev := 0; Metadata_ino := 7; Metadata_uid := 0;
      Metadata_mode := OWNER_ONLY; Metadata_len := len device_set |};
    FdMetadata_nlink := 1 |};
  fd_read_to_end _ _ := ret device_set;
  device_from_fd fd := ret fd;
  device_codes _ kind _ :=
    Some (bitmap_codes (nth (capability_index kind)
                          (DeviceCapabilities_values (EnrolledDevice_capabilities device)) []));
  get_key_state _ := ret [];
  fetch_events fd w :=
    let events := from_option id [] (head (World_events w)) in
    (Ok events,
     noted (Note_Fetched fd (Ok events)) {|
       World_notes := World_notes w; World_clock := World_clock w; World_polls := World_polls w;
       World_events := tail (World_events w); World_pending := World_pending w |});
  poll sources _ w :=
    let events := resize (length sources) no_events (from_option id [] (head (World_polls w))) in
    (Ok events,
     noted (Note_Polled sources events) {|
       World_notes := World_notes w; World_clock := World_clock w; World_polls := tail (World_polls w);
       World_events := World_events w; World_pending := World_pending w |});
  accept _ := ret 9;
  socket_peercred fd w := (Ok 1000, noted (Note_Peer fd 1000) w);
  pending := pending_of;
  consume fd rest w := noted (Note_Read fd (pending_of fd w) rest) (set_pending fd rest w);
  write_stream fd frame w := (Ok tt, noted (Note_Wrote fd frame) w);
  flush_stream _ := ret tt;
  getrandom count := ret (replicate (Z.to_nat count) 1)
}.

#[export] Instance journaled : Journal World.
Proof.
  refine {| broker_journal := World_notes |}; try (intros; apply _); try done.
  - intros sources timeout w. split; [done|]. apply length_resize.
  - intros count w. apply wp_ret, Forall_replicate. by vm_compute.
Defined.

Definition input : Revents :=
  {| Revents_IN := true; Revents_ERR := false; Revents_HUP := false; Revents_NVAL := false |}.

(** Nothing queued at start-up; a connection; two requests, the second in the round in which
    a key is pressed. *)
Definition start : World := {|
  World_notes := [];
  World_clock := 0;
  World_polls := [[no_events]; [input; no_events; no_events]; [input; no_events; no_events];
                  [input; no_events; input]];
  World_events := [[{| InputEvent_type := 1; InputEvent_code := 30 |}]];
  World_pending := [(10, [Data (eligibility_frame EligibilityState_Eligible)]);
                    (9, [Data status_request; Interrupted; Data status_request])] |}.

Definition env (name : string) : option str :=
  if bool_decide (name = "LISTEN_FDS"%string) then Some (bstr "2")
  else if bool_decide (name = "LISTEN_FDNAMES"%string)
  then Some (bstr "eligibility:enrolled-device-set:event0")
  else None.

Definition written (note : Note) : option bytes :=
  match note with Note_Wrote _ frame => Some frame | _ => None end.

Definition status (epoch : Z) (state : BrokerState) (reason : StopReason) : BrokerStatus := {|
  BrokerStatus_instance := 72340172838076673; BrokerStatus_epoch := epoch;
  BrokerStatus_state := state; BrokerStatus_reason := reason |}.

Definition run := run_broker 10 3 (λ _, "?"%string) [bstr "--uid"; bstr "1000"] env 990.

End BrokerToy.
