(* ===== verification/Uevent.v ===== *)
(** * Kernel device-change messages

    [is_input_uevent] of agent-seat-activity-broker/src/bin/agent-seat-eligibility-guard.rs:
    a message of the kernel is [action@path] and its fields, each ended by a zero byte.  It
    accepts exactly the messages of a grammar, and tells those of the input subsystem. *)

From stdpp Require Import list.
From S2P Require Import Prelude Text.

Definition MAX_UEVENT_FIELDS : Z := 128.

(** The loop over the fields after the header. *)
Fixpoint uevent_fields (count : Z) (subsystem : option bytes) (ended : bool) (fields : list bytes)
  : result (option bytes) string :=
  match fields with
  | [] => Ok subsystem
  | field :: fields =>
      if is_empty field then uevent_fields count subsystem true fields
      else if ended then Err "kernel device-change message has an interior terminator"%string
      else
        let count := Z.min (count + 1) U64_MAX in
        if MAX_UEVENT_FIELDS <? count then Err "kernel device-change message has too many fields"%string
        else
          match strip_prefix (bstr "SUBSYSTEM=") field with
          | Some value =>
              if is_empty value || bool_decide (is_Some subsystem)
              then Err "kernel device-change message has invalid subsystem evidence"%string
              else uevent_fields count (Some value) ended fields
          | None => uevent_fields count subsystem ended fields
          end
  end.

Definition is_input_uevent (message : bytes) : result bool string :=
  if is_empty message || negb (ends_with [0] message)
  then Err "kernel device-change message is incomplete"%string
  else
    match split 0 message with
    | [] => Err "kernel device-change message has no header"%string
    | header :: fields =>
        match split_once 64 header with
        | None => Err "kernel device-change message header is malformed"%string
        | Some (action, path) =>
            if is_empty action || negb (starts_with (bstr "/") path)
            then Err "kernel device-change message header is malformed"%string
            else
              let? subsystem := uevent_fields 1 None false fields in
              let? subsystem := ok_or subsystem "kernel device-change message has no subsystem evidence"%string in
              if bool_decide (subsystem = bstr "input") && negb (starts_with (bstr "/devices/") path)
              then Err "kernel input-device change has an invalid device path"%string
              else Ok (bool_decide (subsystem = bstr "input"))
        end
    end.

(** ** The grammar *)

Definition is_subsystem (field : bytes) : Prop := starts_with (bstr "SUBSYSTEM=") field = true.

(** The one subsystem of the fields, none of them empty. *)
Definition names_subsystem (fields : list bytes) (value : bytes) : Prop :=
  ∃ before after, fields = before ++ (bstr "SUBSYSTEM=" ++ value) :: after ∧ value ≠ [] ∧
    Forall (λ field, ¬ is_subsystem field) (before ++ after).

(** A message about the subsystem [value]; zero bytes may follow it. *)
Record uevent (message value : bytes) : Prop := {
  uevent_parts : ∃ action path fields padding,
    message = terminated 0 ((action ++ 64 :: path) :: fields) ++ replicate padding 0 ∧
    action ≠ [] ∧ 64 ∉ action ∧ 0 ∉ action ∧ 0 ∉ path ∧ starts_with (bstr "/") path = true ∧
    Forall (λ field, field ≠ [] ∧ 0 ∉ field) fields ∧ len fields < MAX_UEVENT_FIELDS ∧
    names_subsystem fields value ∧
    (value = bstr "input" → starts_with (bstr "/devices/") path = true)
}.

Lemma starts_with_strip p s : starts_with p s = bool_decide (is_Some (strip_prefix p s)).
Proof. unfold starts_with. by destruct (strip_prefix p s). Qed.

(** What the loop accepts: fields, then nothing but empty ones. *)
Lemma uevent_fields_ended count subsystem fields r :
  uevent_fields count subsystem true fields = Ok r ↔
  r = subsystem ∧ fields = replicate (length fields) [].
Proof.
  revert r. induction fields as [|field fields IH]; intros r; cbn [uevent_fields length replicate].
  { split; [by intros [= ->]|by intros [-> _]]. }
  destruct field as [|c field]; cbn [is_empty]; [|split; [done|by intros [_ ?]]].
  rewrite IH. split; intros [-> Hf]; (split; [done|]); [by rewrite <- Hf|by injection Hf].
Qed.

(** The subsystem after the fields, given the one before. *)
Definition subsystem_after (subsystem r : option bytes) (fields : list bytes) : Prop :=
  (r = subsystem ∧ Forall (λ field, ¬ is_subsystem field) fields) ∨
  (subsystem = None ∧ ∃ value, r = Some value ∧ names_subsystem fields value).

Lemma is_subsystem_named value : is_subsystem (bstr "SUBSYSTEM=" ++ value).
Proof. unfold is_subsystem. apply starts_with_true. by exists value. Qed.

(** The subsystem field is the first of the fields, or among the others. *)
Lemma names_subsystem_cons field fields value :
  names_subsystem (field :: fields) value ↔
  (field = bstr "SUBSYSTEM=" ++ value ∧ value ≠ [] ∧ Forall (λ field, ¬ is_subsystem field) fields) ∨
  (¬ is_subsystem field ∧ names_subsystem fields value).
Proof.
  unfold names_subsystem. split.
  - intros ([|f before] & after & Heq & Hne & H); cbn [app] in Heq; injection Heq as -> ->; [by left|right].
    cbn [app] in H. apply Forall_cons in H as [? H]. split; [done|]. by exists before, after.
  - intros [(-> & Hne & H)|(Hf & before & after & -> & Hne & H)]; [by exists [], fields|].
    exists (field :: before), after. split; [done|]. split; [done|]. cbn [app]. by constructor.
Qed.

Lemma subsystem_after_other field subsystem r fields :
  ¬ is_subsystem field → subsystem_after subsystem r (field :: fields) ↔ subsystem_after subsystem r fields.
Proof.
  intros Hf. unfold subsystem_after. rewrite Forall_cons. setoid_rewrite names_subsystem_cons.
  assert (∀ value, field ≠ bstr "SUBSYSTEM=" ++ value) as Hnamed by (intros value ->; by destruct Hf; apply is_subsystem_named).
  naive_solver.
Qed.

(** A subsystem field without a value is not accepted. *)
Lemma subsystem_after_empty subsystem r fields :
  ¬ subsystem_after subsystem r ((bstr "SUBSYSTEM=" ++ []) :: fields).
Proof.
  pose proof (is_subsystem_named []) as Hsub.
  intros [[_ [? _]%Forall_cons]|(-> & v & _ & [(Heq & Hv & _)|[? _]]%names_subsystem_cons)]; [done| |done].
  by apply app_inv_head in Heq as <-.
Qed.

Lemma subsystem_after_named value subsystem r fields :
  value ≠ [] →
  subsystem_after subsystem r ((bstr "SUBSYSTEM=" ++ value) :: fields) ↔
  subsystem = None ∧ subsystem_after (Some value) r fields.
Proof.
  intros Hne. pose proof (is_subsystem_named value) as Hsub. unfold subsystem_after. split.
  - intros [[_ [? _]%Forall_cons]|(-> & v & -> & [(Heq & Hv & H)|[? _]]%names_subsystem_cons)]; [done| |done].
    apply app_inv_head in Heq as ->. split; [done|]. by left.
  - intros [-> [[-> H]|[? _]]]; [|done]. right. split; [done|]. exists value. split; [done|].
    apply names_subsystem_cons. by left.
Qed.

Lemma uevent_fields_spec count subsystem fields r :
  0 ≤ count ≤ MAX_UEVENT_FIELDS →
  uevent_fields count subsystem false fields = Ok r ↔
  ∃ real padding, fields = real ++ replicate padding [] ∧ Forall (λ field, field ≠ []) real ∧
    count + len real ≤ MAX_UEVENT_FIELDS ∧ subsystem_after subsystem r real.
Proof.
  revert count subsystem r. induction fields as [|field fields IH]; intros count subsystem r Hcount; cbn [uevent_fields].
  { split.
    - intros [= ->]. exists [], 0%nat. split_and!; [done|done|unfold len; cbn [length]; lia|by left].
    - intros ([|] & [|] & ? & _ & _ & [[-> _]|(_ & ? & _ & [|] & ? & ? & _)]); by simplify_list_eq. }
  assert (∀ real padding, field :: fields = real ++ replicate padding [] → field ≠ [] →
    ∃ real', real = field :: real' ∧ fields = real' ++ replicate padding []) as Hcons.
  { intros [|f real] padding Heq Hne; [|simplify_eq/=; by eexists]. destruct padding; by simplify_eq/=. }
  destruct field as [|c field]; [cbn [is_empty]|].
  { rewrite uevent_fields_ended. split.
    - intros [-> Hf]. exists [], (S (length fields)). split_and!; [cbn; by rewrite <- Hf|done|unfold len; cbn [length]; lia|by left].
    - intros (real & padding & Heq & Hreal & _ & Hr). destruct real as [|f real].
      + destruct padding as [|padding]; [done|]. cbn in Heq. injection Heq as ->. rewrite length_replicate.
        split; [|done]. destruct Hr as [[-> _]|(_ & ? & _ & [|] & ? & ? & _)]; by simplify_list_eq.
      + simplify_eq/=. by apply Forall_cons in Hreal as [? _]. }
  cbn [is_empty]. set (f := c :: field) in *. assert (f ≠ []) as Hf by done. clearbody f. clear c field.
  assert (∀ next, (∃ real padding, fields = real ++ replicate padding [] ∧ Forall (λ field, field ≠ []) real ∧
      Z.min (count + 1) U64_MAX + len real ≤ MAX_UEVENT_FIELDS ∧ subsystem_after next r real) →
    (∀ real, subsystem_after next r real → subsystem_after subsystem r (f :: real)) →
    ∃ real padding, f :: fields = real ++ replicate padding [] ∧ Forall (λ field, field ≠ []) real ∧
      count + len real ≤ MAX_UEVENT_FIELDS ∧ subsystem_after subsystem r real) as Hback.
  { intros next (real & padding & -> & Hreal & Hlen & Hr) Hnext. exists (f :: real), padding.
    split_and!; [done|by constructor| |by apply Hnext].
    unfold len in *. cbn [length]. unfold U64_MAX, MAX_UEVENT_FIELDS in *. lia. }
  destruct (MAX_UEVENT_FIELDS <? Z.min (count + 1) U64_MAX) eqn:Hmany.
  { split; [done|]. intros (real & padding & Heq & _ & Hlen & _). destruct (Hcons _ _ Heq Hf) as (real' & -> & _).
    unfold len in Hlen. cbn [length] in Hlen. unfold U64_MAX, MAX_UEVENT_FIELDS in *. lia. }
  assert (0 ≤ Z.min (count + 1) U64_MAX ≤ MAX_UEVENT_FIELDS) as Hnext
    by (unfold U64_MAX, MAX_UEVENT_FIELDS in *; lia).
  assert (∀ real, count + len (f :: real) ≤ MAX_UEVENT_FIELDS → Z.min (count + 1) U64_MAX + len real ≤ MAX_UEVENT_FIELDS)
    as Hlens.
  { intros real. unfold len. cbn [length]. unfold U64_MAX, MAX_UEVENT_FIELDS in *. lia. }
  destruct (strip_prefix (bstr "SUBSYSTEM=") f) as [value|] eqn:Hstrip.
  - apply strip_prefix_Some in Hstrip. subst f.
    destruct (is_empty value) eqn:Hvalue; cbn [orb].
    { destruct value; [|done]. split; [done|]. intros (real & padding & Heq & _ & _ & Hr).
      destruct (Hcons _ _ Heq Hf) as (real' & -> & _). exfalso. revert Hr. apply subsystem_after_empty. }
    apply is_empty_false in Hvalue. case_bool_decide as Hsome.
    + split; [done|]. intros (real & padding & Heq & _ & _ & Hr). destruct (Hcons _ _ Heq Hf) as (real' & -> & _).
      apply subsystem_after_named in Hr as [-> _]; [|done]. by destruct Hsome.
    + destruct subsystem; [by destruct Hsome|]. rewrite IH by done. split.
      * intros H. eapply Hback; [exact H|]. intros real Hr. by apply subsystem_after_named.
      * intros (real & padding & Heq & Hreal & Hlen & Hr). destruct (Hcons _ _ Heq Hf) as (real' & -> & ->).
        apply subsystem_after_named in Hr as [_ Hr]; [|done]. apply Forall_cons in Hreal as [_ Hreal].
        exists real', padding. split_and!; [done|done|by apply Hlens|done].
  - assert (¬ is_subsystem f) as Hother.
    { unfold is_subsystem, starts_with. by rewrite Hstrip. }
    rewrite IH by done. split.
    + intros H. eapply Hback; [exact H|]. intros real Hr. by apply subsystem_after_other.
    + intros (real & padding & Heq & Hreal & Hlen & Hr). destruct (Hcons _ _ Heq Hf) as (real' & -> & ->).
      apply subsystem_after_other in Hr; [|done]. apply Forall_cons in Hreal as [_ Hreal].
      exists real', padding. split_and!; [done|done|by apply Hlens|done].
Qed.

(** ** Messages *)

Lemma terminated_app sep ls ls' : terminated sep (ls ++ ls') = terminated sep ls ++ terminated sep ls'.
Proof.
  induction ls as [|l ls IH]; [done|]. cbn [terminated app]. by rewrite IH, <- (assoc_L (++)).
Qed.
Lemma terminated_empty sep n : terminated sep (replicate n []) = replicate n sep.
Proof. induction n as [|n IH]; [done|]. cbn [terminated app replicate]. by rewrite IH. Qed.

Lemma padded_end (fields real : list bytes) padding :
  fields ++ [[]] = real ++ replicate padding [] → Forall (λ field, field ≠ []) real →
  ∃ p, padding = S p ∧ fields = real ++ replicate p [].
Proof.
  intros Heq Hreal. destruct padding as [|p].
  - rewrite app_nil_r in Heq. subst real. apply Forall_app in Hreal as [_ [? _]%Forall_cons]. done.
  - exists p. split; [done|]. rewrite replicate_S_end, (assoc_L (++)) in Heq. by apply app_inj_tail in Heq as [-> _].
Qed.

(** Messages end with a zero byte: they are what is between the zero bytes. *)
Lemma split_ended ls :
  ls ≠ [] → Forall (λ l, 0 ∉ l) ls →
  is_empty (terminated 0 ls) || negb (ends_with [0] (terminated 0 ls)) = false ∧
  split 0 (terminated 0 ls) = ls ++ [[]].
Proof.
  intros Hne Hclean. split; [|by apply split_terminated]. rewrite terminated_join by done.
  apply orb_false_iff. split; [by destruct (join [0] ls)|].
  apply negb_false_iff, ends_with_true. by eexists.
Qed.

(** what the guard takes for kernel evidence.  [is_input_uevent] answers for exactly the
    messages of the grammar: an action and an absolute path joined by the first at sign,
    then fewer than 128 nonempty fields, each ended by a zero byte, exactly one of them a
    subsystem and that one not empty; it answers whether the subsystem is input, which must
    be below /devices/.  Everything else, a missing or repeated subsystem, a missing
    terminator, an empty field in the middle, is an error, which ends the guard. *)
Theorem is_input_uevent_exact message input :
  is_input_uevent message = Ok input ↔
  ∃ value, uevent message value ∧ input = bool_decide (value = bstr "input").
Proof.
  split.
  - unfold is_input_uevent. destruct (is_empty message || _) eqn:Hends; [done|].
    apply orb_false_iff in Hends as [_ Hends%negb_false_iff].
    apply ends_with_true in Hends as [r ->]. pose proof (join_split 0 r) as Hjoin.
    pose proof (split_no_sep 0 r) as Hclean. pose proof (split_nonempty 0 r) as Hne.
    set (ls := split 0 r) in *. clearbody ls. subst r. rewrite <- terminated_join, split_terminated by done.
    destruct ls as [|header fields]; [done|]. apply Forall_cons in Hclean as [Hheader Hclean]. cbn [app].
    destruct (split_once 64 header) as [[action path]|] eqn:Honce; [|done].
    apply split_once_Some in Honce as [-> Hat].
    destruct (is_empty action || _) eqn:Hbad; [done|].
    apply orb_false_iff in Hbad as [Haction%is_empty_false Hpath%negb_false_iff].
    destruct (uevent_fields 1 None false (fields ++ [[]])) as [r|e] eqn:Hfields; [|done]. cbn [and_then].
    apply uevent_fields_spec in Hfields as (real & padding & Heq & Hreal & Hlen & Hr); [|done].
    apply padded_end in Heq as (p & -> & ->); [|done].
    destruct r as [value|]; [|done]. cbn [ok_or and_then].
    destruct (bool_decide _ && _) eqn:Hdevice; [done|]. intros [= <-]. exists value. split; [|done].
    destruct Hr as [[? _]|(_ & v & [= <-] & Hnames)]; [done|].
    apply not_elem_of_app in Hheader as [Ha [_ Hp]%not_elem_of_cons]. apply Forall_app in Hclean as [Hclean _].
    split. exists action, path, real, p. split_and!; try done.
    + rewrite app_comm_cons, terminated_app, terminated_empty. done.
    + apply Forall_and. by split.
    + lia.
    + intros ->. rewrite bool_decide_true in Hdevice by done. by apply negb_false_iff in Hdevice.
  - intros (value & [(action & path & fields & padding & -> & Haction & Hat & Ha & Hp & Hpath & Hfields & Hlen & Hnames & Hdevice)] & ->).
    apply Forall_and in Hfields as [Hreal Hclean].
    rewrite <- terminated_empty, <- terminated_app. cbn [app].
    destruct (split_ended ((action ++ 64 :: path) :: fields ++ replicate padding [])) as [Hends Hsplit]; [done|..].
    { constructor; [rewrite not_elem_of_app, not_elem_of_cons; by split_and!|]. apply Forall_app. split; [done|].
      apply Forall_replicate. apply not_elem_of_nil. }
    unfold is_input_uevent. rewrite Hends, Hsplit. cbn [app].
    rewrite (proj2 (split_once_Some 64 (action ++ 64 :: path) action path)) by done.
    rewrite (proj2 (is_empty_false action)), Hpath by done. cbn [orb negb].
    rewrite (proj2 (uevent_fields_spec 1 None _ (Some value) ltac:(done))).
    2: { exists fields, (S padding). split_and!; [|done|lia|].
         - by rewrite <- (assoc_L (++)), replicate_S_end.
         - right. split; [done|]. by exists value. }
    cbn [and_then ok_or]. case_bool_decide as Hinput; [|done]. by rewrite Hdevice.
Qed.
