(* ===== verification/Guard.v ===== *)
(** * [agent-seat-activity-broker/src/bin/agent-seat-eligibility-guard.rs]: the guard

    The guard reduces what logind and the kernel say about one session to a channel with at
    most two frames: whether the session is eligible, and, once, that it is not any more.
    The system calls beside those of [BrokerSystem] are an interface, and so is the message
    bus; the callbacks of its match rules run when the bus is processed. *)

From stdpp Require Import list sorting.
From S2P Require Import Prelude Text Effects Host Codec BrokerProtocol InputSet BrokerSystem InheritedFiles Uevent.

(** ** The system *)

(** [File::metadata], with the time of the last change. *)
Record FileState := { FileState_metadata : FdMetadata; FileState_mtime : Z; FileState_mtime_nsec : Z }.

(** One datagram: the bytes in the buffer, the size received, and the source: none, one
    that is no netlink address, or the process identity. *)
Record Datagram := {
  Datagram_bytes : bytes;
  Datagram_received : Z;
  Datagram_source : option (option Z)
}.
Inductive RecvError := RecvError_Again | RecvError_Other (text : string).

(** [MatchRule] *)
Record MatchRule := {
  MatchRule_interface : string;
  MatchRule_member : string;
  MatchRule_sender : option string;
  MatchRule_path : option string;
  MatchRule_namespaced : bool
}.
(** A signal for the callback of a rule, with its first text. *)
Record Delivery := { Delivery_rule : MatchRule; Delivery_name : string }.

#[export] Instance MatchRule_eq_dec : EqDecision MatchRule.
Proof. solve_decision. Defined.

(** What the bus is asked for: an object path, an interface and a property. *)
Record Question := { Question_path : str; Question_interface : string; Question_property : string }.

Class GuardSystem (W : Type) := {
  file_state : Fd → M W string FileState;
  (** the names in a directory, or the error of an entry *)
  directory_entries : str → M W string (list (result str string));
  link_metadata : str → M W string Metadata;
  canonicalize : str → M W string str;
  uevent_socket : M W string Fd;
  uevent_bind : Fd → M W string unit;
  recvfrom : Fd → Z → M W RecvError Datagram;
  bind_listener : str → M W string Fd;
  set_permissions : str → Z → M W string unit;
  remove_file : str → W → W;
  accept_stream : Fd → M W string Fd;
  set_stream_write_timeout : Fd → Z → M W string unit;
  bus_connect : M W string unit;
  add_match : MatchRule → M W string unit;
  (** [process(timeout)]: whether a message was handled, and the callbacks it reached *)
  bus_process : Z → M W string (bool * list Delivery);
  get_session : str → M W string str;
  ask_bool : Question → M W string bool;
  ask_text : Question → M W string str;
  (** properties that are a pair with an object path *)
  ask_owner : Question → M W string (Z * str);
  ask_named : Question → M W string (str * str)
}.

Definition LOGIN_SERVICE : string := "org.freedesktop.login1".
Definition LOGIN_PATH : string := "/org/freedesktop/login1".
Definition MANAGER_INTERFACE : string := "org.freedesktop.login1.Manager".
Definition SESSION_INTERFACE : string := "org.freedesktop.login1.Session".
Definition SEAT_INTERFACE : string := "org.freedesktop.login1.Seat".
Definition PROPERTIES_INTERFACE : string := "org.freedesktop.DBus.Properties".
Definition DBUS_INTERFACE : string := "org.freedesktop.DBus".
Definition MAX_SESSION_ID_BYTES : Z := 64.
Definition MAX_SOCKET_PATH_BYTES : Z := 100.
Definition WRITE_TIMEOUT : Z := 2 * 1000000000.
Definition EVIDENCE_POLL_INTERVAL : Z := 10 * 1000000.
Definition MAX_UEVENT_BYTES : Z := 16 * 1024.
Definition SYSFS_INPUT : str := bstr "/sys/class/input".

(** ** Arguments *)

Inductive Endpoint := Endpoint_Path (path : str) | Endpoint_StandardInput.

Record Arguments := {
  Arguments_session : str;
  Arguments_uid : Z;
  Arguments_seat : str;
  Arguments_endpoint : Endpoint;
  Arguments_peer_uid : Z
}.

(** What was given so far. *)
Record Given := {
  Given_session : option str;
  Given_uid : option Z;
  Given_seat : option str;
  Given_socket : option str;
  Given_listen_stdin : bool;
  Given_peer_uid : option Z
}.
Definition nothing_given : Given := {|
  Given_session := None; Given_uid := None; Given_seat := None; Given_socket := None;
  Given_listen_stdin := false; Given_peer_uid := None |}.
Definition is_untouched (g : Given) : bool :=
  match g with
  | {| Given_session := None; Given_uid := None; Given_seat := None; Given_socket := None;
       Given_listen_stdin := false; Given_peer_uid := None |} => true
  | _ => false
  end.

(** The arguments that remain are consumed by an option with a value. *)
Definition value (arguments : list str) (option : string) : result (str * list str) string :=
  match arguments with
  | v :: arguments => if utf8_valid v then Ok (v, arguments) else Err (option +:+ " requires a UTF-8 value")
  | [] => Err (option +:+ " requires a UTF-8 value")
  end.
Definition number (arguments : list str) (option : string) : result (Z * list str) string :=
  let? '(v, arguments) := value arguments option in
  let? n := ok_or (parse_u32 v) (option +:+ " requires an unsigned integer") in
  Ok (n, arguments).

(** One option; [None] is the help. *)
Definition parse_option (g : Given) (argument : str) (arguments : list str)
  : result (option (Given * list str)) string :=
  if (bool_decide (argument = bstr "-h") || bool_decide (argument = bstr "--help"))
     && is_untouched g && is_empty arguments then Ok None
  else if bool_decide (argument = bstr "--session") && bool_decide (Given_session g = None) then
    let? '(v, arguments) := value arguments "--session" in
    Ok (Some ({| Given_session := Some v; Given_uid := Given_uid g; Given_seat := Given_seat g;
                 Given_socket := Given_socket g; Given_listen_stdin := Given_listen_stdin g;
                 Given_peer_uid := Given_peer_uid g |}, arguments))
  else if bool_decide (argument = bstr "--uid") && bool_decide (Given_uid g = None) then
    let? '(v, arguments) := number arguments "--uid" in
    Ok (Some ({| Given_session := Given_session g; Given_uid := Some v; Given_seat := Given_seat g;
                 Given_socket := Given_socket g; Given_listen_stdin := Given_listen_stdin g;
                 Given_peer_uid := Given_peer_uid g |}, arguments))
  else if bool_decide (argument = bstr "--seat") && bool_decide (Given_seat g = None) then
    let? '(v, arguments) := value arguments "--seat" in
    Ok (Some ({| Given_session := Given_session g; Given_uid := Given_uid g; Given_seat := Some v;
                 Given_socket := Given_socket g; Given_listen_stdin := Given_listen_stdin g;
                 Given_peer_uid := Given_peer_uid g |}, arguments))
  else if bool_decide (argument = bstr "--socket") && bool_decide (Given_socket g = None) then
    let? '(v, arguments) := value arguments "--socket" in
    Ok (Some ({| Given_session := Given_session g; Given_uid := Given_uid g; Given_seat := Given_seat g;
                 Given_socket := Some v; Given_listen_stdin := Given_listen_stdin g;
                 Given_peer_uid := Given_peer_uid g |}, arguments))
  else if bool_decide (argument = bstr "--listen-stdin") && negb (Given_listen_stdin g) then
    Ok (Some ({| Given_session := Given_session g; Given_uid := Given_uid g; Given_seat := Given_seat g;
                 Given_socket := Given_socket g; Given_listen_stdin := true;
                 Given_peer_uid := Given_peer_uid g |}, arguments))
  else if bool_decide (argument = bstr "--peer-uid") && bool_decide (Given_peer_uid g = None) then
    let? '(v, arguments) := number arguments "--peer-uid" in
    Ok (Some ({| Given_session := Given_session g; Given_uid := Given_uid g; Given_seat := Given_seat g;
                 Given_socket := Given_socket g; Given_listen_stdin := Given_listen_stdin g;
                 Given_peer_uid := Some v |}, arguments))
  else if bool_decide (argument ∈ [bstr "--session"; bstr "--uid"; bstr "--seat"; bstr "--socket";
                                   bstr "--listen-stdin"; bstr "--peer-uid"])
  then Err (string_of_str argument +:+ " may be specified only once")
  else Err ("unknown argument: " +:+ string_of_str argument).

(** An option takes at least its own argument, so their number is fuel enough. *)
Fixpoint parse_options (fuel : nat) (g : Given) (arguments : list str) : result (option Given) string :=
  match fuel, arguments with
  | _, [] | O, _ => Ok (Some g)
  | S fuel, argument :: arguments =>
      if negb (utf8_valid argument) then Err "arguments must be valid UTF-8"%string
      else
        let? step := parse_option g argument arguments in
        match step with
        | None => Ok None
        | Some (g, arguments) => parse_options fuel g arguments
        end
  end.

Definition valid_session_id (session : str) : bool :=
  negb (is_empty session || (MAX_SESSION_ID_BYTES <? len session)
        || negb (forallb (λ b, is_ascii_alphanumeric b || contains b (bstr "_.-")) session)).

Definition endpoint_of (socket : option str) (listen_stdin : bool) : result Endpoint string :=
  match socket, listen_stdin with
  | Some socket, false =>
      if negb (is_absolute socket) || (MAX_SOCKET_PATH_BYTES <? len socket)
      then Err "--socket must be an absolute bounded path"%string
      else Ok (Endpoint_Path socket)
  | None, true => Ok Endpoint_StandardInput
  | Some _, true => Err "--socket and --listen-stdin are mutually exclusive"%string
  | None, false => Err "--socket or --listen-stdin is required"%string
  end.

(** Of the arguments after the program. *)
Definition Arguments_parse (arguments : list str) : result (option Arguments) string :=
  let? given := parse_options (length arguments) nothing_given arguments in
  match given with
  | None => Ok None
  | Some g =>
      let? session := ok_or (Given_session g) "--session is required"%string in
      if negb (valid_session_id session) then Err "--session is malformed"%string
      else
        let? seat := ok_or (Given_seat g) "--seat is required"%string in
        if bool_decide (seat ≠ bstr "seat0") then Err "only seat0 is currently supported"%string
        else
          let? endpoint := endpoint_of (Given_socket g) (Given_listen_stdin g) in
          let? uid := ok_or (Given_uid g) "--uid is required"%string in
          Ok (Some {| Arguments_session := session; Arguments_uid := uid; Arguments_seat := seat;
                      Arguments_endpoint := endpoint;
                      Arguments_peer_uid := default 0 (Given_peer_uid g) |})
  end.

(** ** The input class *)

Definition is_private_file (owner_uid : Z) (m : FdMetadata) : bool :=
  is_file (FdMetadata_metadata m) && (FdMetadata_nlink m =? 1)
  && (Metadata_uid (FdMetadata_metadata m) =? owner_uid)
  && (Z.land (Metadata_mode (FdMetadata_metadata m)) PERMISSION_BITS =? OWNER_ONLY).

Definition same_file (before after : FileState) : bool :=
  let b := FdMetadata_metadata (FileState_metadata before) in
  let a := FdMetadata_metadata (FileState_metadata after) in
  (Metadata_dev b =? Metadata_dev a) && (Metadata_ino b =? Metadata_ino a)
  && (Metadata_len b =? Metadata_len a) && (FileState_mtime before =? FileState_mtime after)
  && (FileState_mtime_nsec before =? FileState_mtime_nsec after).

(** [event_number], of a name that starts with [event]; a canonical decimal. *)
Definition guard_event_number (name : str) : option Z :=
  if negb (utf8_valid name) then None
  else
    v ← strip_prefix (bstr "event") name;
    if is_empty v || negb (forallb is_ascii_digit v) then None
    else
      n ← parse_u32 v;
      if bool_decide (name = event_name n) then Some n else None.

(** [dir.join(name)] *)
Definition entry_path (directory name : str) : str := directory ++ bstr "/" ++ name.

Section guard.
Context {W : Type} `{BrokerSystem W, GuardSystem W}.

Definition read_initial_input_set (file : Fd) (owner_uid : Z) : M W string (list InputClassMapping) :=
  let! before := explain "cannot inspect initial input-set descriptor" (file_state file) in
  if negb (is_private_file owner_uid (FileState_metadata before))
     || (MAX_INPUT_SET_BYTES <? Metadata_len (FdMetadata_metadata (FileState_metadata before)))
  then fail "initial input set is not an exact private peer-owned file"%string
  else
    let! source := explain "cannot read initial input set" (fd_read_to_end file (MAX_INPUT_SET_BYTES + 1)) in
    if MAX_INPUT_SET_BYTES <? len source then fail "initial input set exceeds its bound"%string
    else
      let! after := explain "cannot recheck initial input set" (file_state file) in
      if negb (same_file before after) || negb (is_private_file owner_uid (FileState_metadata after))
      then fail "initial input set changed while it was read"%string
      else lift (map_err InputSetError_to_string (decode_input_set source)).

(** The loop over the entries; [raw] holds those resolved before. *)
Fixpoint resolve_entries (directory : str) (entries : list (result str string)) (raw : list (Z * str))
  : M W string (list (Z * str)) :=
  match entries with
  | [] => ret raw
  | Err error :: _ => fail ("cannot enumerate input class: " +:+ error)
  | Ok name :: entries =>
      if negb (starts_with (bstr "event") name) then resolve_entries directory entries raw
      else
        match guard_event_number name with
        | None => fail "kernel input class contains a malformed event name"%string
        | Some number =>
            if MAX_INPUT_CLASS_MAPPINGS <=? len raw
            then fail "kernel input class exceeds its mapping bound"%string
            else
              let! metadata := explain "cannot inspect kernel input class entry"
                                 (link_metadata (entry_path directory name)) in
              if negb (is_symlink metadata)
              then fail "kernel input class event entry is not a symlink"%string
              else
                let! canonical := explain "cannot resolve kernel input class entry"
                                    (canonicalize (entry_path directory name)) in
                resolve_entries directory entries (raw ++ [(number, canonical)])
        end
  end.

(** The numbers of different names differ, so the order is that of the sort of the code. *)
Definition inspect_input_class_entries (directory : str) : M W string (list (Z * str)) :=
  let! entries := explain ("cannot enumerate " +:+ string_of_str directory) (directory_entries directory) in
  let! raw := resolve_entries directory entries [] in
  ret (merge_sort number_le raw).

Fixpoint new_mappings (raw : list (Z * str)) : result (list InputClassMapping) string :=
  match raw with
  | [] => Ok []
  | (number, path) :: raw =>
      let? mapping := map_err (λ error, "kernel input class mapping is invalid: "
                                        +:+ InputSetError_to_string error)
                        (InputClassMapping_new number path) in
      let? mappings := new_mappings raw in
      Ok (mapping :: mappings)
  end.

Definition inspect_input_class (directory : str) : M W string (list InputClassMapping) :=
  let! raw := inspect_input_class_entries directory in
  let! mappings := lift (new_mappings raw) in
  if is_empty mappings then fail "kernel input class contains no event devices"%string
  else ret mappings.

(** ** Kernel evidence *)

Definition UeventMonitor_open : M W string Fd :=
  let! socket := explain "cannot open kernel device-change evidence" uevent_socket in
  explain "cannot subscribe to kernel device-change evidence" (uevent_bind socket) ;!
  ret socket.

(** What one datagram says. *)
Definition datagram_changed (datagram : Datagram) : result bool string :=
  match Datagram_source datagram with
  | None => Err "kernel device-change evidence has no source"%string
  | Some source =>
      if (MAX_UEVENT_BYTES <? Datagram_received datagram)
         || negb (len (Datagram_bytes datagram) =? Datagram_received datagram)
      then Err "kernel device-change evidence was truncated"%string
      else
        let? pid := ok_or source "kernel device-change evidence has an invalid source"%string in
        if negb (pid =? 0) then Err "kernel device-change evidence came from a userspace sender"%string
        else is_input_uevent (Datagram_bytes datagram)
  end.

(** Why the guard ends; the last is the model's own bound on waiting loops. *)
Inductive GuardStop :=
| GuardStop_Error (message : string)
| GuardStop_Panic
| GuardStop_OutOfFuel.

Definition stop {A} (m : M W string A) : M W GuardStop A := map_error GuardStop_Error m.
Definition refuse {A} (message : string) : M W GuardStop A := fail (GuardStop_Error message).

Fixpoint drain (fuel : nat) (socket : Fd) (changed : bool) : M W GuardStop bool :=
  match fuel with
  | O => fail GuardStop_OutOfFuel
  | S fuel =>
      let! received := attempt (recvfrom socket MAX_UEVENT_BYTES) in
      match received with
      | Ok datagram =>
          let! input := lift (map_err GuardStop_Error (datagram_changed datagram)) in
          drain fuel socket (changed || input)
      | Err RecvError_Again => ret changed
      | Err (RecvError_Other error) => refuse ("kernel device-change evidence was lost: " +:+ error)
      end
  end.

(** ** The listener *)

Inductive ListenerSource :=
| ListenerSource_Owned (listener : Fd) (path : str) (device inode : Z)
| ListenerSource_Inherited (listener : Fd).

Definition ListenerSource_listener (self : ListenerSource) : Fd :=
  match self with ListenerSource_Owned listener _ _ _ | ListenerSource_Inherited listener => listener end.

(** [Drop]: the path is removed while it is still the socket that was bound. *)
Definition drop_listener (self : ListenerSource) (w : W) : W :=
  match self with
  | ListenerSource_Inherited _ => w
  | ListenerSource_Owned _ path device inode =>
      match link_metadata path w with
      | (Ok m, w) => if (Metadata_dev m =? device) && (Metadata_ino m =? inode) then remove_file path w else w
      | (Err _, w) => w
      end
  end.

Definition or_drop {E A} (listener : ListenerSource) (m : M W E A) : M W E A := λ w,
  match m w with
  | (Ok a, w) => (Ok a, w)
  | (Err error, w) => (Err error, drop_listener listener w)
  end.

Definition OwnedListener_bind (path : str) : M W string ListenerSource :=
  let! listener := explain ("cannot bind " +:+ string_of_str path) (bind_listener path) in
  let! m := explain ("cannot inspect " +:+ string_of_str path) (link_metadata path) in
  let owned := ListenerSource_Owned listener path (Metadata_dev m) (Metadata_ino m) in
  or_drop owned (explain ("cannot protect " +:+ string_of_str path) (set_permissions path OWNER_ONLY)) ;!
  ret owned.

Definition GUARD_STDIN : Fd := 0.

Definition ListenerSource_open (endpoint : Endpoint) : M W string ListenerSource :=
  match endpoint with
  | Endpoint_Path path => OwnedListener_bind path
  | Endpoint_StandardInput =>
      let! listener := explain "cannot duplicate inherited listener" (dup GUARD_STDIN) in
      explain "standard input is not an AF_UNIX listener" (local_addr listener) ;!
      ret (ListenerSource_Inherited listener)
  end.

(** Connections of others are dropped. *)
Fixpoint accept_peer (fuel : nat) (listener : Fd) (expected_uid : Z) : M W GuardStop Fd :=
  match fuel with
  | O => fail GuardStop_OutOfFuel
  | S fuel =>
      let! stream := stop (explain "cannot accept eligibility consumer" (accept_stream listener)) in
      let! peer := stop (explain "cannot authenticate eligibility consumer" (socket_peercred stream)) in
      if peer =? expected_uid then ret stream else accept_peer fuel listener expected_uid
  end.

(** ** Stops *)

Inductive Stop := Stop_None | Stop_Changed | Stop_Lost.

Definition Stop_encode (self : Stop) : Z :=
  match self with Stop_None => 0 | Stop_Changed => 1 | Stop_Lost => 2 end.
(** Of the value of the atomic. *)
Definition Stop_load (value : Z) : Stop :=
  if value =? 0 then Stop_None else if value =? 1 then Stop_Changed else Stop_Lost.
(** [fetch_max] *)
Definition Stop_record (self : Stop) (value : Z) : Z := Z.max value (Stop_encode self).

Definition properties_rule : MatchRule := {|
  MatchRule_interface := PROPERTIES_INTERFACE; MatchRule_member := "PropertiesChanged";
  MatchRule_sender := Some LOGIN_SERVICE; MatchRule_path := Some LOGIN_PATH; MatchRule_namespaced := true |}.
Definition manager_rule (member : string) : MatchRule := {|
  MatchRule_interface := MANAGER_INTERFACE; MatchRule_member := member;
  MatchRule_sender := Some LOGIN_SERVICE; MatchRule_path := Some LOGIN_PATH; MatchRule_namespaced := false |}.
Definition owner_rule : MatchRule := {|
  MatchRule_interface := DBUS_INTERFACE; MatchRule_member := "NameOwnerChanged";
  MatchRule_sender := None; MatchRule_path := None; MatchRule_namespaced := false |}.

(** The rules, with what their callbacks record of a signal. *)
Definition callbacks : list (MatchRule * (string → Stop)) :=
  [(properties_rule, λ _, Stop_Changed);
   (manager_rule "PrepareForSleep", λ _, Stop_Changed);
   (manager_rule "PrepareForShutdown", λ _, Stop_Changed);
   (owner_rule, λ name, if bool_decide (name = LOGIN_SERVICE) then Stop_Lost else Stop_None)].

Definition callback (delivery : Delivery) : Stop :=
  match find (λ c, bool_decide (fst c = Delivery_rule delivery)) callbacks with
  | Some (_, f) => f (Delivery_name delivery)
  | None => Stop_None
  end.

Definition dbus {A} (m : M W string A) : M W string A := explain "logind evidence is unavailable" m.

Definition subscribe : M W string unit := for_each (λ c, dbus (add_match (fst c))) callbacks.

(** The atomic after the callbacks of one call. *)
Definition process (prefix : string) (timeout : Z) (value : Z) : M W GuardStop (bool * Z) :=
  let! '(handled, deliveries) := stop (explain prefix (bus_process timeout)) in
  ret (handled, fold_left (λ value delivery, Stop_record (callback delivery) value) deliveries value).

(** [while connection.process(Duration::ZERO)? {}] *)
Fixpoint synchronize (fuel : nat) (value : Z) : M W GuardStop Z :=
  match fuel with
  | O => fail GuardStop_OutOfFuel
  | S fuel =>
      let! '(handled, value) := process "cannot synchronize logind evidence" 0 value in
      if (handled : bool) then synchronize fuel value else ret value
  end.

(** ** Eligibility *)

Record EligibilityFacts := {
  owner_matches : bool;
  seat_matches : bool;
  foreground_session_matches : bool;
  session_active : bool;
  session_local : bool;
  session_x11 : bool;
  session_user_class : bool;
  session_state_active : bool;
  session_unlocked : bool;
  system_awake : bool;
  system_not_shutting_down : bool
}.

Definition EligibilityFacts_state (self : EligibilityFacts) : EligibilityState :=
  if owner_matches self && seat_matches self && foreground_session_matches self && session_active self
     && session_local self && session_x11 self && session_user_class self && session_state_active self
     && session_unlocked self && system_awake self && system_not_shutting_down self
  then EligibilityState_Eligible else EligibilityState_Ineligible.

Definition question (path : str) (interface property : string) : Question :=
  {| Question_path := path; Question_interface := interface; Question_property := property |}.

Definition current_eligibility (arguments : Arguments) : M W string EligibilityState :=
  let! session_path := dbus (get_session (Arguments_session arguments)) in
  let session := question session_path SESSION_INTERFACE in
  let manager := question (bstr LOGIN_PATH) MANAGER_INTERFACE in
  let! '(session_uid, _) := dbus (ask_owner (session "User")) in
  let! '(seat_name, seat_path) := dbus (ask_named (session "Seat")) in
  let! '(active_session, active_path) := dbus (ask_named (question seat_path SEAT_INTERFACE "ActiveSession")) in
  let! active := dbus (ask_bool (session "Active")) in
  let! remote := dbus (ask_bool (session "Remote")) in
  let! type := dbus (ask_text (session "Type")) in
  let! class := dbus (ask_text (session "Class")) in
  let! state := dbus (ask_text (session "State")) in
  let! locked := dbus (ask_bool (session "LockedHint")) in
  let! sleeping := dbus (ask_bool (manager "PreparingForSleep")) in
  let! shutting_down := dbus (ask_bool (manager "PreparingForShutdown")) in
  ret (EligibilityFacts_state {|
    owner_matches := session_uid =? Arguments_uid arguments;
    seat_matches := bool_decide (seat_name = Arguments_seat arguments);
    foreground_session_matches := bool_decide (active_session = Arguments_session arguments)
                                  && bool_decide (active_path = session_path);
    session_active := active;
    session_local := negb remote;
    session_x11 := bool_decide (type = bstr "x11");
    session_user_class := bool_decide (class = bstr "user");
    session_state_active := bool_decide (state = bstr "active");
    session_unlocked := negb locked;
    system_awake := negb sleeping;
    system_not_shutting_down := negb shutting_down |}).

(** ** The program *)

(** How a run that does not fail ends; [GuardEnd_Running] is the model's bound on rounds. *)
Inductive GuardEnd := GuardEnd_Help | GuardEnd_Done | GuardEnd_Running.

Definition say (stream : Fd) (state : EligibilityState) (message : string) : M W GuardStop unit :=
  map_error (λ _, GuardStop_Error message) (write_stream stream (eligibility_frame state)).

(** The loop that watches, after the initial frame said that the session is eligible. *)
Fixpoint watch (rounds fuel : nat) (stream uevents : Fd) (value : Z) : M W GuardStop GuardEnd :=
  match rounds with
  | O => ret GuardEnd_Running
  | S rounds =>
      let! '(_, value) := process "required logind evidence was lost" EVIDENCE_POLL_INTERVAL value in
      let! changed := drain fuel uevents false in
      let value := if (changed : bool) then Stop_record Stop_Changed value else value in
      match Stop_load value with
      | Stop_None => watch rounds fuel stream uevents value
      | Stop_Changed =>
          say stream EligibilityState_Ineligible "cannot write terminal eligibility" ;!
          ret GuardEnd_Done
      | Stop_Lost => refuse "required logind evidence was lost"
      end
  end.

(** The initial frame, and the loop. *)
Definition report (rounds fuel : nat) (arguments : Arguments) (input_set_matches : bool) (stream uevents : Fd)
  : M W GuardStop GuardEnd :=
  stop (explain "cannot bound eligibility writes" (set_stream_write_timeout stream WRITE_TIMEOUT)) ;!
  stop (explain "cannot connect to the system bus" bus_connect) ;!
  stop subscribe ;!
  let! eligibility := stop (current_eligibility arguments) in
  let! value := synchronize fuel (Stop_encode Stop_None) in
  let! changed := drain fuel uevents false in
  let value := if (changed : bool) then Stop_record Stop_Changed value else value in
  let eligibility := if input_set_matches && match Stop_load value with Stop_None => true | _ => false end
                     then eligibility else EligibilityState_Ineligible in
  say stream eligibility "cannot write initial eligibility" ;!
  match eligibility with
  | EligibilityState_Ineligible => ret GuardEnd_Done
  | EligibilityState_Eligible => watch rounds fuel stream uevents value
  end.

(** The listener is dropped when the run is over. *)
Definition with_listener {A} (listener : ListenerSource) (m : M W GuardStop A) : M W GuardStop A := λ w,
  let '(result, w) := m w in (result, drop_listener listener w).

(** [run], for so many rounds of its loop. *)
Definition run_guard (rounds fuel : nat) (env : string → option str) (arguments : list str)
  : M W GuardStop GuardEnd :=
  let! arguments := stop (lift (Arguments_parse arguments)) in
  match arguments with
  | None => ret GuardEnd_Help
  | Some arguments =>
      let! inherited := stop (map_error (λ error, "cannot receive inherited descriptors: "
                                                  +:+ InheritedFileError_to_string error)
                                (receive_inherited_files env 1 1)) in
      match inherited with
      | [] => fail GuardStop_Panic
      | file :: _ =>
          if bool_decide (InheritedFile_name file ≠ bstr "initial-input-set")
          then refuse "inherited descriptor must be named initial-input-set"
          else
            let! expected := stop (read_initial_input_set (InheritedFile_descriptor file)
                                     (Arguments_peer_uid arguments)) in
            let! uevents := stop UeventMonitor_open in
            let! current := stop (inspect_input_class SYSFS_INPUT) in
            let! listener := stop (ListenerSource_open (Arguments_endpoint arguments)) in
            with_listener listener
              (let! stream := accept_peer fuel (ListenerSource_listener listener)
                                (Arguments_peer_uid arguments) in
               report rounds fuel arguments (mappings_eq current expected) stream uevents)
      end
  end.
End guard.
