(* ===== verification/GuardTheorems.v ===== *)
(** * Properties of the eligibility guard: it fails closed

    The calls of the guard are noted in a journal.  Its conduct is a predicate on what one
    run notes: which frames it says, to whom, and what had been asked and heard before.  Last,
    a small system on which the guard runs from its arguments to its last frame. *)

From stdpp Require Import list sorting.
From S2P Require Import Prelude Text Effects Host Codec BrokerProtocol InputSet BrokerSystem InheritedFiles Uevent Guard.

#[export] Instance Stop_eq_dec : EqDecision Stop.
Proof. solve_decision. Defined.

(** ** The journal *)

Inductive GuardNote :=
| GuardNote_Source (source : bytes)
| GuardNote_Bound (socket : Fd)
| GuardNote_Entries (entries : list (result str string))
| GuardNote_Resolved (path canonical : str)
| GuardNote_Peer (stream : Fd) (uid : Z)
| GuardNote_Subscribed (rule : MatchRule)
| GuardNote_Session (session path : str)
| GuardNote_Bool (asked : Question) (answer : bool)
| GuardNote_Text (asked : Question) (answer : str)
| GuardNote_Owner (asked : Question) (answer : Z * str)
| GuardNote_Named (asked : Question) (answer : str * str)
| GuardNote_Delivered (deliveries : list Delivery)
| GuardNote_Datagram (datagram : Datagram)
| GuardNote_Said (stream : Fd) (frame : bytes).

(** A call that notes what it returns, and nothing when it fails. *)
Definition noted {W E A} `{Journaled W GuardNote} (m : M W E A) (note : A → GuardNote) : Prop :=
  logs m (λ a n, n = [note a]) (λ n, n = []).

Class GuardJournal (W : Type) `{BrokerSystem W, GuardSystem W} := {
  guard_journal :: Journaled W GuardNote;
  source_noted fd count : noted (fd_read_to_end fd count) GuardNote_Source;
  bound_noted socket : noted (uevent_bind socket) (λ _, GuardNote_Bound socket);
  entries_noted directory : noted (directory_entries directory) GuardNote_Entries;
  resolved_noted path : noted (canonicalize path) (GuardNote_Resolved path);
  guard_peer_noted stream : noted (socket_peercred stream) (GuardNote_Peer stream);
  subscribed_noted rule : noted (add_match rule) (λ _, GuardNote_Subscribed rule);
  session_noted session : noted (get_session session) (GuardNote_Session session);
  bool_noted asked : noted (ask_bool asked) (GuardNote_Bool asked);
  text_noted asked : noted (ask_text asked) (GuardNote_Text asked);
  owner_noted asked : noted (ask_owner asked) (GuardNote_Owner asked);
  named_noted asked : noted (ask_named asked) (GuardNote_Named asked);
  delivered_noted timeout : noted (bus_process timeout) (λ r, GuardNote_Delivered (snd r));
  datagram_noted socket count : noted (recvfrom socket count) GuardNote_Datagram;
  said_noted stream frame :
    logs (write_stream stream frame) (λ _ n, n = [GuardNote_Said stream frame])
      (λ n, n = [GuardNote_Said stream frame]);
  file_state_silent fd :: Preserves journal (file_state fd);
  link_metadata_silent path :: Preserves journal (link_metadata path);
  uevent_socket_silent :: Preserves journal uevent_socket;
  bind_listener_silent path :: Preserves journal (bind_listener path);
  set_permissions_silent path mode :: Preserves journal (set_permissions path mode);
  remove_file_silent path w : journal (remove_file path w) = journal w;
  accept_stream_silent listener :: Preserves journal (accept_stream listener);
  set_stream_write_timeout_silent stream t :: Preserves journal (set_stream_write_timeout stream t);
  bus_connect_silent :: Preserves journal bus_connect;
  guard_dup_silent fd :: Preserves journal (dup fd);
  guard_local_addr_silent fd :: Preserves journal (local_addr fd);
  guard_getfd_silent fd :: Preserves journal (fcntl_getfd fd);
  guard_setfd_silent fd flags :: Preserves journal (fcntl_setfd fd flags);
  guard_listen_fds_silent :: Preserves journal listen_fds
}.

(** ** The conduct of a run *)

Definition unsaid (note : GuardNote) : Prop := match note with GuardNote_Said _ _ => False | _ => True end.

(** Evidence that ends eligibility: a signal whose callback stops the guard, or a device
    change. *)
Definition stops (note : GuardNote) : Prop :=
  match note with
  | GuardNote_Delivered deliveries => Exists (λ delivery, callback delivery ≠ Stop_None) deliveries
  | GuardNote_Datagram datagram => datagram_changed datagram = Ok true
  | _ => False
  end.
(** What was heard without such evidence. *)
Definition calm (note : GuardNote) : Prop :=
  match note with
  | GuardNote_Delivered deliveries => Forall (λ delivery, callback delivery = Stop_None) deliveries
  | GuardNote_Datagram datagram => datagram_changed datagram = Ok false
  | _ => False
  end.
Definition heard (note : GuardNote) : Prop :=
  match note with GuardNote_Delivered _ | GuardNote_Datagram _ => True | _ => False end.

(** The event entries of the input class and what they resolve to are the mappings. *)
Definition listed (mappings : list InputClassMapping) (notes : list GuardNote) : Prop :=
  ∃ names raw,
    notes = GuardNote_Entries (Ok <$> names) ::
            ((λ '(number, path), GuardNote_Resolved (entry_path SYSFS_INPUT (event_name number)) path) <$> raw) ∧
    filter (λ name, starts_with (bstr "event") name = true) names = event_name <$> raw.*1 ∧
    (λ m, (event_number m, sysfs_path m)) <$> mappings ≡ₚ raw.

(** Connections of others, and then of the expected user. *)
Definition admits (stream : Fd) (uid : Z) (notes : list GuardNote) : Prop :=
  ∃ others, notes = ((λ '(fd, other), GuardNote_Peer fd other) <$> others) ++ [GuardNote_Peer stream uid] ∧
            Forall (λ p, snd p ≠ uid) others.

(** Every question about the session, its seat and the system, with the answers that make
    the session eligible. *)
Definition eligible_answers (arguments : Arguments) (notes : list GuardNote) : Prop :=
  ∃ path owner_path seat_path,
    let session := question path SESSION_INTERFACE in
    let manager := question (bstr LOGIN_PATH) MANAGER_INTERFACE in
    notes =
      [GuardNote_Session (Arguments_session arguments) path;
       GuardNote_Owner (session "User"%string) (Arguments_uid arguments, owner_path);
       GuardNote_Named (session "Seat"%string) (Arguments_seat arguments, seat_path);
       GuardNote_Named (question seat_path SEAT_INTERFACE "ActiveSession") (Arguments_session arguments, path);
       GuardNote_Bool (session "Active"%string) true;
       GuardNote_Bool (session "Remote"%string) false;
       GuardNote_Text (session "Type"%string) (bstr "x11");
       GuardNote_Text (session "Class"%string) (bstr "user");
       GuardNote_Text (session "State"%string) (bstr "active");
       GuardNote_Bool (session "LockedHint"%string) false;
       GuardNote_Bool (manager "PreparingForSleep"%string) false;
       GuardNote_Bool (manager "PreparingForShutdown"%string) false].

(** What precedes the frame that says eligible, in its order: the evidence channels are open
    before the facts they guard are read, and they are drained after. *)
Definition admitted (arguments : Arguments) (stream : Fd) (notes : list GuardNote) : Prop :=
  ∃ source mappings current socket listing peers answers rest,
    notes = GuardNote_Source source :: GuardNote_Bound socket :: listing ++ peers
            ++ (GuardNote_Subscribed <$> callbacks.*1) ++ answers ++ rest ∧
    decode_input_set source = Ok mappings ∧ listed current listing ∧ mappings_eq current mappings = true ∧
    admits stream (Arguments_peer_uid arguments) peers ∧
    eligible_answers arguments answers ∧ Forall calm rest.

Definition eligible_said (stream : Fd) : GuardNote := GuardNote_Said stream (eligibility_frame EligibilityState_Eligible).
Definition ineligible_said (stream : Fd) : GuardNote := GuardNote_Said stream (eligibility_frame EligibilityState_Ineligible).

(** After that frame: nothing was said and nothing stopped the guard, or it failed, or it
    was stopped and said so, once and last. *)
Definition watched (stream : Fd) (r : result GuardEnd GuardStop) (notes : list GuardNote) : Prop :=
  match r with
  | Ok GuardEnd_Running => Forall calm notes
  | Ok GuardEnd_Done => ∃ l, notes = l ++ [ineligible_said stream] ∧ Forall heard l ∧ Exists stops l
  | Ok GuardEnd_Help => False
  | Err _ => Forall heard notes ∨ ∃ l, notes = l ++ [ineligible_said stream] ∧ Forall heard l ∧ Exists stops l
  end.

Definition conduct (arguments : Arguments) (r : result GuardEnd GuardStop) (notes : list GuardNote) : Prop :=
  (Forall unsaid notes ∧ ∃ e, r = Err e) ∨
  (∃ stream before peers after,
     notes = before ++ peers ++ after ++ [ineligible_said stream] ∧ Forall unsaid before ∧ Forall unsaid after ∧
     admits stream (Arguments_peer_uid arguments) peers ∧ r ≠ Ok GuardEnd_Running ∧ r ≠ Ok GuardEnd_Help) ∨
  (∃ stream before after,
     notes = before ++ eligible_said stream :: after ∧ admitted arguments stream before ∧ watched stream r after).

(** ** What the parts note *)

Section guard.
Context {W : Type} `{GuardJournal W}.

Lemma logs_noted {E A} (m : M W E A) note (Q : A → list GuardNote → Prop) (R : list GuardNote → Prop) :
  noted m note → (∀ a, Q a [note a]) → R [] → logs m Q R.
Proof. intros Hm HQ HR. eapply logs_mono; [exact Hm|by intros a n ->|by intros n ->]. Qed.

#[local] Instance explain_silent {A} prefix (m : M W string A) :
  Preserves journal m → Preserves journal (explain prefix m).
Proof. intros. apply map_error_preserves, _. Qed.
#[local] Instance stop_silent {A} (m : M W string A) : Preserves journal m → Preserves journal (stop m).
Proof. intros. apply map_error_preserves, _. Qed.

#[local] Instance confine_all_noteless files : Preserves journal (confine_all files).
Proof. induction files as [|[descriptor name] files IH]; cbn [confine_all]; solve_preserves. Qed.
#[local] Instance receive_inherited_files_noteless env maximum consumed :
  Preserves journal (receive_inherited_files env maximum consumed).
Proof. unfold receive_inherited_files. solve_preserves. Qed.

Lemma drop_listener_noteless listener w : journal (drop_listener listener w) = journal w.
Proof.
  destruct listener as [fd path device inode|fd]; [|done]. cbn. pose proof (link_metadata_silent path w) as Hw.
  destruct (link_metadata path w) as [[m|e] w']; cbn in Hw; [|done]. by destruct (_ && _); [rewrite remove_file_silent|].
Qed.

#[local] Instance or_drop_noteless {E A} listener (m : M W E A) :
  Preserves journal m → Preserves journal (or_drop listener m).
Proof.
  intros Hm w. unfold or_drop. specialize (Hm w). destruct (m w) as [[a|e] w']; [done|]. cbn in *.
  by rewrite drop_listener_noteless.
Qed.
#[local] Instance listener_open_noteless endpoint : Preserves journal (ListenerSource_open endpoint).
Proof. unfold ListenerSource_open, OwnedListener_bind. solve_preserves. Qed.

Ltac unsaid := repeat first [apply Forall_nil_2 | apply Forall_cons; split; [exact I|] | apply Forall_app; split]; try done.

Lemma logs_explain {A} prefix (m : M W string A) Q R : logs m Q R → logs (explain prefix m) Q R.
Proof. apply logs_map_error. Qed.
Lemma logs_stop {A} (m : M W string A) Q R : logs m Q R → logs (stop m) Q R.
Proof. apply logs_map_error. Qed.
Lemma logs_lift {E A} (r : result A E) (Q : A → list GuardNote → Prop) (R : list GuardNote → Prop) :
  (∀ a, r = Ok a → Q a []) → R [] → logs (S:=W) (lift r) Q R.
Proof. intros HQ HR. destruct r as [a|e]; [by apply (logs_ret a), HQ|by apply (logs_fail e)]. Qed.

Lemma logs_pure {E A B} (r : result A E) (k : A → M W E B) (Q : B → list GuardNote → Prop) R :
  R [] → (∀ a, r = Ok a → logs (k a) Q R) → logs (bind (lift r) k) Q R.
Proof. intros HR Hk. destruct r as [a|e]; [by apply (Hk a)|by apply (logs_fail e)]. Qed.

(** A call that notes nothing, and then the rest. *)
Lemma logs_quietly {E A B} (m : M W E A) (k : A → M W E B) (Q : B → list GuardNote → Prop) R :
  Preserves journal m → R [] → (∀ a, logs (k a) Q R) → logs (bind m k) Q R.
Proof.
  intros Hm HR Hk. eapply logs_bind; [apply (logs_preserves m (λ _ n, n = []) R Hm); done|done|].
  intros a n ->. apply Hk.
Qed.
(** A call that is noted, and then the rest. *)
Lemma logs_after {E A B} (m : M W E A) note (k : A → M W E B) (Q : B → list GuardNote → Prop) R :
  noted m note → R [] → (∀ a, logs (k a) (λ b n, Q b (note a :: n)) (λ n, R (note a :: n))) → logs (bind m k) Q R.
Proof.
  intros Hm HR Hk. eapply logs_bind; [exact Hm|by intros n ->|]. intros a n ->. apply Hk.
Qed.
Lemma noted_explain {A} prefix (m : M W string A) note : noted m note → noted (explain prefix m) note.
Proof. apply logs_map_error. Qed.

Lemma logs_read_set file uid :
  logs (read_initial_input_set file uid)
    (λ mappings n, ∃ source, n = [GuardNote_Source source] ∧ decode_input_set source = Ok mappings) (Forall unsaid).
Proof.
  unfold read_initial_input_set. apply logs_quietly; [apply _|done|]. intros before.
  destruct (_ || _); [by apply logs_fail|].
  eapply logs_after; [apply noted_explain, source_noted|done|]. intros source.
  destruct (_ <? _); [apply logs_fail; unsaid|]. apply logs_quietly; [apply _|unsaid|]. intros after.
  destruct (_ || _); [apply logs_fail; unsaid|]. apply logs_lift; [|unsaid].
  intros mappings Hdecode. exists source. split; [done|]. by destruct (decode_input_set source); simplify_eq/=.
Qed.

Lemma guard_event_number_name name number : guard_event_number name = Some number → name = event_name number.
Proof.
  unfold guard_event_number. destruct (negb _); [done|]. intros (v & _ & Hv)%bind_Some.
  destruct (_ || _); [done|]. apply bind_Some in Hv as (n & _ & Hn). case_bool_decide; by simplify_eq.
Qed.

Definition resolutions (directory : str) (raw : list (Z * str)) : list GuardNote :=
  (λ '(number, path), GuardNote_Resolved (entry_path directory (event_name number)) path) <$> raw.

Lemma resolutions_unsaid directory raw : Forall unsaid (resolutions directory raw).
Proof. apply Forall_fmap, Forall_forall. by intros [number path] _. Qed.

Lemma logs_resolve directory entries raw :
  logs (resolve_entries directory entries raw)
    (λ all n, ∃ names new, entries = Ok <$> names ∧ all = raw ++ new ∧ n = resolutions directory new ∧
       filter (λ name, starts_with (bstr "event") name = true) names = event_name <$> new.*1)
    (Forall unsaid).
Proof.
  revert raw. induction entries as [|[name|e] entries IH]; intros raw; cbn [resolve_entries].
  - apply logs_ret. exists [], []. by rewrite app_nil_r.
  - destruct (starts_with (bstr "event") name) eqn:Hevent; cbn [negb].
    2: { eapply logs_mono; [apply IH| |done]. intros all n (names & new & -> & -> & -> & Hf).
         exists (name :: names), new. split_and!; [done..|]. by rewrite filter_cons, Hevent. }
    destruct (guard_event_number name) as [number|] eqn:Hnumber; [|by apply logs_fail].
    apply guard_event_number_name in Hnumber as ->.
    destruct (_ <=? _); [by apply logs_fail|]. apply logs_quietly; [apply _|done|]. intros m.
    destruct (negb _); [by apply logs_fail|].
    eapply logs_after; [apply noted_explain, resolved_noted|done|]. intros path.
    eapply logs_mono; [apply IH|..]; cbn beta.
    + intros all n (names & new & -> & -> & -> & Hf). exists (event_name number :: names), ((number, path) :: new).
      rewrite filter_cons, Hevent, Hf. by rewrite <- (assoc_L (++)).
    + intros n Hn. unsaid.
  - by apply logs_fail.
Qed.

Lemma new_mappings_raw raw mappings :
  new_mappings raw = Ok mappings → (λ m, (event_number m, sysfs_path m)) <$> mappings = raw.
Proof.
  revert mappings. induction raw as [|[number path] raw IH]; intros mappings; cbn [new_mappings]; [by intros [= <-]|].
  unfold InputClassMapping_new. destruct (valid_sysfs_path number path); [|done]. cbn [negb map_err and_then].
  destruct (new_mappings raw) as [rest|e]; [|done]. cbn. intros [= <-]. cbn. by rewrite (IH rest).
Qed.

Lemma logs_inspect_entries directory :
  logs (inspect_input_class_entries directory)
    (λ raw n, ∃ names new, n = GuardNote_Entries (Ok <$> names) :: resolutions directory new ∧ new ≡ₚ raw ∧
       filter (λ name, starts_with (bstr "event") name = true) names = event_name <$> new.*1)
    (Forall unsaid).
Proof.
  eapply logs_after; [apply noted_explain, entries_noted|done|]. intros entries.
  eapply logs_bind; [apply logs_resolve|intros n Hn; unsaid|].
  intros raw n (names & new & -> & -> & -> & Hf). apply logs_ret. exists names, new. rewrite app_nil_r.
  split; [done|]. split; [|done]. symmetry. apply merge_sort_Permutation.
Qed.

Lemma logs_inspect :
  logs (inspect_input_class SYSFS_INPUT) (λ mappings n, listed mappings n ∧ Forall unsaid n) (Forall unsaid).
Proof.
  eapply logs_bind; [apply logs_inspect_entries|done|].
  intros raw n (names & new & -> & Hnew & Hf). pose proof (resolutions_unsaid SYSFS_INPUT new) as Hres.
  apply logs_pure; [by unsaid|]. intros mappings Hraw%new_mappings_raw.
  destruct (is_empty mappings); [apply logs_fail; by unsaid|]. apply logs_ret. rewrite app_nil_r.
  split; [|by unsaid]. exists names, new. by rewrite Hraw.
Qed.

Lemma logs_monitor :
  logs UeventMonitor_open (λ _ n, ∃ socket, n = [GuardNote_Bound socket]) (Forall unsaid).
Proof.
  apply logs_quietly; [apply _|done|]. intros socket.
  eapply logs_after; [apply noted_explain, bound_noted|done|]. intros []. apply logs_ret. by exists socket.
Qed.

Lemma admits_unsaid stream uid notes : admits stream uid notes → Forall unsaid notes.
Proof.
  intros (others & -> & _). unsaid. apply Forall_fmap, Forall_forall. by intros [fd other] _.
Qed.

Lemma logs_accept_peer fuel listener uid :
  logs (accept_peer fuel listener uid) (λ stream n, admits stream uid n) (Forall unsaid).
Proof.
  induction fuel as [|fuel IH]; cbn [accept_peer]; [by apply logs_fail|].
  apply logs_quietly; [apply _|done|]. intros stream.
  eapply logs_after; [apply logs_stop, noted_explain, guard_peer_noted|done|]. intros peer.
  destruct (Z.eqb_spec peer uid) as [->|Hne].
  - apply logs_ret. by exists [].
  - eapply logs_mono; [exact IH| |intros n Hn; by unsaid].
    intros s n (others & -> & Hothers). exists ((stream, peer) :: others). split; [done|]. by constructor.
Qed.

Lemma logs_subscribe :
  logs subscribe (λ _ n, n = GuardNote_Subscribed <$> callbacks.*1) (Forall unsaid).
Proof.
  unfold subscribe. generalize callbacks as l. induction l as [|c l IH]; cbn [for_each]; [by apply logs_ret|].
  eapply logs_after; [apply noted_explain, subscribed_noted|done|]. intros [].
  eapply logs_mono; [exact IH|by intros a n ->|intros n Hn; by unsaid].
Qed.

Lemma subscribed_unsaid rules : Forall unsaid (GuardNote_Subscribed <$> rules).
Proof. by apply Forall_fmap, Forall_forall. Qed.

Lemma logs_current_eligibility arguments :
  logs (current_eligibility arguments)
    (λ state n, Forall unsaid n ∧ (state = EligibilityState_Eligible → eligible_answers arguments n))
    (Forall unsaid).
Proof.
  unfold current_eligibility.
  eapply logs_after; [apply noted_explain, session_noted|done|]. intros path. cbv zeta.
  eapply logs_after; [apply noted_explain, owner_noted|by unsaid|]. intros [uid owner_path].
  eapply logs_after; [apply noted_explain, named_noted|by unsaid|]. intros [seat seat_path].
  eapply logs_after; [apply noted_explain, named_noted|by unsaid|]. intros [foreground foreground_path].
  do 2 (eapply logs_after; [apply noted_explain, bool_noted|by unsaid|]; intros ?).
  do 3 (eapply logs_after; [apply noted_explain, text_noted|by unsaid|]; intros ?).
  do 3 (eapply logs_after; [apply noted_explain, bool_noted|by unsaid|]; intros ?).
  apply logs_ret. split; [by unsaid|].
  unfold EligibilityFacts_state. destruct (_ && _) eqn:Hall; [intros _|done].
  cbn [owner_matches seat_matches foreground_session_matches session_active session_local session_x11
    session_user_class session_state_active session_unlocked system_awake system_not_shutting_down] in Hall.
  repeat match goal with H : _ && _ = true |- _ => apply andb_true_iff in H as [? H] end.
  rewrite ?negb_true_iff, ?bool_decide_eq_true, ?Z.eqb_eq in *.
  exists path, owner_path, seat_path. naive_solver.
Qed.

(** *** Evidence *)

(** What the value of the atomic says about the notes since it was zero. *)
Record sums (value : Z) (notes : list GuardNote) : Prop := {
  sums_nonneg : 0 ≤ value;
  sums_calm : value = 0 → Forall calm notes;
  sums_stops : value ≠ 0 → Exists stops notes;
  sums_heard : Forall heard notes
}.

Lemma heard_unsaid notes : Forall heard notes → Forall unsaid notes.
Proof. intros Hn. eapply Forall_impl; [exact Hn|]. by intros []. Qed.
Lemma calm_heard notes : Forall calm notes → Forall heard notes.
Proof. intros Hn. eapply Forall_impl; [exact Hn|]. by intros []. Qed.

Lemma sums_nil : sums 0 [].
Proof. by split. Qed.

Lemma record_zero stop value : 0 ≤ value → 0 ≤ Stop_record stop value ∧ (Stop_record stop value = 0 ↔ value = 0 ∧ stop = Stop_None).
Proof.
  intros Hv. unfold Stop_record. split; [destruct stop; cbn; lia|].
  destruct stop; cbn; split; try (by intros [-> ?]); intros Hm; first [exfalso; lia|split; [lia|done]].
Qed.

Lemma callbacks_zero deliveries value :
  0 ≤ value →
  let value' := fold_left (λ value delivery, Stop_record (callback delivery) value) deliveries value in
  0 ≤ value' ∧ (value' = 0 → value = 0 ∧ Forall (λ delivery, callback delivery = Stop_None) deliveries) ∧
  (value' ≠ 0 → value ≠ 0 ∨ Exists (λ delivery, callback delivery ≠ Stop_None) deliveries).
Proof.
  revert value. induction deliveries as [|d l IH]; intros value Hv; cbn [fold_left]; [by split_and!; auto|].
  destruct (record_zero (callback d) value Hv) as [Hnonneg Hzero].
  destruct (IH _ Hnonneg) as (Hv' & Hcalm & Hstops). cbv zeta in *. split; [done|]. split.
  - intros Heq. destruct (Hcalm Heq) as [[? ?]%Hzero Hl]. split; [done|]. by constructor.
  - intros Hne. destruct (Hstops Hne) as [Hr|Hl]; [|right; by apply Exists_cons_tl].
    destruct (decide (callback d = Stop_None)) as [Hd|Hd].
    + left. intros ->. apply Hr, Hzero. done.
    + right. by apply Exists_cons_hd.
Qed.

Lemma logs_process prefix timeout value notes :
  sums value notes →
  logs (process prefix timeout value) (λ r n, sums (snd r) (notes ++ n)) (λ n, n = []).
Proof.
  intros Hsums. eapply logs_after; [apply logs_stop, noted_explain, delivered_noted|done|].
  intros [handled deliveries]. cbn beta iota. apply logs_ret. cbn [snd].
  destruct (callbacks_zero deliveries value (sums_nonneg _ _ Hsums)) as (Hv & Hcalm & Hstops). cbv zeta in *. split.
  - done.
  - intros Heq. destruct (Hcalm Heq) as [? ?]. apply Forall_app. split; [by apply Hsums|by apply Forall_singleton].
  - intros Hne. apply Exists_app. destruct (Hstops Hne); [left; by apply Hsums|right; by constructor].
  - apply Forall_app. split; [by apply Hsums|by apply Forall_singleton].
Qed.

Lemma logs_synchronize fuel value notes :
  sums value notes →
  logs (synchronize fuel value) (λ value n, sums value (notes ++ n)) (Forall unsaid).
Proof.
  revert value notes. induction fuel as [|fuel IH]; intros value notes Hsums; cbn [synchronize]; [by apply logs_fail|].
  eapply logs_bind; [by apply logs_process|by intros n ->|]. intros [handled value'] n Hsums'. cbn [snd] in Hsums'.
  pose proof (sums_heard _ _ Hsums') as [_ Hn%heard_unsaid]%Forall_app.
  destruct handled; [|apply logs_ret; by rewrite app_nil_r].
  eapply logs_mono; [exact (IH _ _ Hsums')|..]; cbn beta.
  - intros a n'. by rewrite (assoc_L (++)).
  - intros n' Hn'. by apply Forall_app.
Qed.

Lemma logs_drain fuel socket changed :
  logs (drain fuel socket changed)
    (λ r n, Forall heard n ∧ if r then changed = true ∨ Exists stops n else changed = false ∧ Forall calm n)
    (Forall heard).
Proof.
  revert changed. induction fuel as [|fuel IH]; intros changed; cbn [drain]; [by apply logs_fail|].
  eapply logs_bind; [exact (logs_attempt _ _ _ (λ _, False) (datagram_noted socket MAX_UEVENT_BYTES))|done|].
  intros [datagram|[|error]] n Hn; subst n.
  - destruct (datagram_changed datagram) as [input|e] eqn:Hdatagram; [|apply logs_fail; by repeat constructor].
    apply logs_pure; [by repeat constructor|]. intros ? [= <-].
    eapply logs_mono; [apply IH|..]; cbn beta; [|intros n Hn; by constructor].
    intros r n [Hn Hr]. split; [by constructor|]. cbn [app].
    destruct r, input; cbn in *.
    + right. by constructor.
    + rewrite orb_false_r in Hr. destruct Hr; [by left|]. right. by apply Exists_cons_tl.
    + rewrite orb_true_r in Hr. by destruct Hr.
    + rewrite orb_false_r in Hr. destruct Hr. split; [done|]. by constructor.
  - apply logs_ret. split; [done|]. destruct changed; [by left|done].
  - by apply logs_fail.
Qed.

(** Draining, with the value that the code goes on with. *)
Lemma sums_drain value notes (changed : bool) n :
  sums value notes → Forall heard n →
  (if changed then false = true ∨ Exists stops n else false = false ∧ Forall calm n) →
  sums (if changed then Stop_record Stop_Changed value else value) (notes ++ n).
Proof.
  intros Hsums Hn Hc. destruct changed.
  - destruct Hc as [|Hstops]; [done|]. destruct (record_zero Stop_Changed value (sums_nonneg _ _ Hsums)) as [Hv Hz].
    split; [done| | |apply Forall_app; split; [apply Hsums|done]].
    + by intros [_ ?]%Hz.
    + intros _. apply Exists_app. by right.
  - destruct Hc as [_ Hcalm]. split.
    + apply Hsums.
    + intros Heq. apply Forall_app. split; [by apply Hsums|done].
    + intros Hne. apply Exists_app. left. by apply Hsums.
    + apply Forall_app. split; [apply Hsums|done].
Qed.

Lemma load_none value : 0 ≤ value → Stop_load value = Stop_None → value = 0.
Proof. unfold Stop_load. intros Hv. destruct (Z.eqb_spec value 0); [done|]. by destruct (value =? 1). Qed.
Lemma load_some value : Stop_load value ≠ Stop_None → value ≠ 0.
Proof. unfold Stop_load. destruct (Z.eqb_spec value 0); [done|]. done. Qed.

Lemma logs_say stream state message :
  logs (say stream state message) (λ _ n, n = [GuardNote_Said stream (eligibility_frame state)])
    (λ n, n = [GuardNote_Said stream (eligibility_frame state)]).
Proof. apply logs_map_error, said_noted. Qed.

(** The notes of the loop, after those since the first frame. *)
Lemma logs_watch rounds fuel stream uevents value notes :
  sums value notes → value = 0 →
  logs (watch rounds fuel stream uevents value)
    (λ r n, watched stream (Ok r) (notes ++ n)) (λ n, ∀ e, watched stream (Err e) (notes ++ n)).
Proof.
  revert value notes. induction rounds as [|rounds IH]; intros value notes Hsums Hvalue; cbn [watch].
  { apply logs_ret. rewrite app_nil_r. by apply Hsums. }
  eapply logs_bind; [by apply logs_process| |].
  { intros n -> e. rewrite app_nil_r. left. apply Hsums. }
  intros [handled value1] n1 Hsums1. cbn [snd] in Hsums1.
  eapply logs_bind; [apply logs_drain| |].
  { intros n Hn e. left. rewrite (assoc_L (++)). apply Forall_app. split; [apply Hsums1|done]. }
  intros changed n2 [Hn2 Hchanged]. cbv zeta. pose proof (sums_drain _ _ _ _ Hsums1 Hn2 Hchanged) as Hsums2.
  rewrite <- (assoc_L (++)) in Hsums2. revert Hsums2. generalize (if changed then Stop_record Stop_Changed value1 else value1).
  intros value2 Hsums2.
  destruct (Stop_load value2) eqn:Hload.
  - eapply logs_mono; [apply (IH _ _ Hsums2), load_none; [apply Hsums2|done]|..]; cbn beta.
    + intros r n. by rewrite <- !(assoc_L (++)).
    + intros n Hn e. specialize (Hn e). by rewrite <- !(assoc_L (++)) in Hn.
  - assert (Exists stops (notes ++ n1 ++ n2)) as Hstops by (apply Hsums2, load_some; by rewrite Hload).
    eapply logs_bind; [apply logs_say| |].
    + intros n -> e. right. exists (notes ++ n1 ++ n2). split; [by rewrite <- !(assoc_L (++))|]. split; [apply Hsums2|done].
    + intros [] n ->. apply logs_ret. exists (notes ++ n1 ++ n2). rewrite app_nil_r.
      split; [by rewrite <- !(assoc_L (++))|]. split; [apply Hsums2|done].
  - apply logs_fail. intros e. left. rewrite app_nil_r. apply Hsums2.
Qed.

(** What a run notes from the first subscription on, when the consumer was admitted. *)
Definition reported (arguments : Arguments) (matches : bool) (stream : Fd) (r : result GuardEnd GuardStop)
    (notes : list GuardNote) : Prop :=
  (Forall unsaid notes ∧ ∃ e, r = Err e) ∨
  (∃ after, notes = after ++ [ineligible_said stream] ∧ Forall unsaid after ∧
            r ≠ Ok GuardEnd_Running ∧ r ≠ Ok GuardEnd_Help) ∨
  (matches = true ∧ ∃ answers rest after,
     notes = (GuardNote_Subscribed <$> callbacks.*1) ++ answers ++ rest ++ eligible_said stream :: after ∧
     eligible_answers arguments answers ∧ Forall calm rest ∧ watched stream r after).

Lemma logs_decide rounds fuel arguments (matches : bool) stream uevents eligibility value before answers rest :
  Forall unsaid before → Forall unsaid answers → Forall heard rest →
  (eligibility = EligibilityState_Eligible →
     matches = true ∧ value = 0 ∧ Forall calm rest ∧ before = GuardNote_Subscribed <$> callbacks.*1 ∧
     eligible_answers arguments answers) →
  logs (let! _ := say stream eligibility "cannot write initial eligibility" in
        match eligibility with
        | EligibilityState_Ineligible => ret GuardEnd_Done
        | EligibilityState_Eligible => watch rounds fuel stream uevents value
        end)
    (λ r n, reported arguments matches stream (Ok r) (before ++ answers ++ rest ++ n))
    (λ n, ∀ e, reported arguments matches stream (Err e) (before ++ answers ++ rest ++ n)).
Proof.
  intros Hbefore Hanswers Hrest%heard_unsaid Heligible. destruct eligibility.
  - destruct (Heligible eq_refl) as (-> & -> & Hcalm & -> & Hall). eapply logs_bind; [apply logs_say| |].
    + intros n -> e. right; right. split; [done|]. exists answers, rest, []. split_and!; [done..|]. by left.
    + intros [] n ->. eapply logs_mono; [by apply (logs_watch _ _ _ _ _ [] sums_nil)|..]; cbn beta.
      * intros r n Hn. right; right. split; [done|]. by exists answers, rest, n.
      * intros n Hn e. right; right. split; [done|]. exists answers, rest, n. by split_and!.
  - eapply logs_bind; [apply logs_say| |].
    + intros n -> e. right; left. exists (before ++ answers ++ rest).
      rewrite <- !(assoc_L (++)). split; [done|]. split; [by unsaid|done].
    + intros [] n ->. apply logs_ret. right; left. exists (before ++ answers ++ rest).
      rewrite <- !(assoc_L (++)). split; [done|]. split; [by unsaid|done].
Qed.

Lemma logs_report rounds fuel arguments matches stream uevents :
  logs (report rounds fuel arguments matches stream uevents)
    (λ r n, reported arguments matches stream (Ok r) n) (λ n, ∀ e, reported arguments matches stream (Err e) n).
Proof.
  assert (∀ n, Forall unsaid n → ∀ e, reported arguments matches stream (Err e) n) as Hsilent.
  { intros n Hn e. left. by split; [|exists e]. }
  apply logs_quietly; [apply _|by apply Hsilent|]. intros [].
  apply logs_quietly; [apply _|by apply Hsilent|]. intros [].
  eapply logs_bind; [apply logs_stop, logs_subscribe|by apply Hsilent|]. intros [] before ->.
  pose proof (subscribed_unsaid callbacks.*1) as Hbefore.
  eapply logs_bind; [apply logs_stop, logs_current_eligibility|intros n Hn; apply Hsilent; by unsaid|].
  intros state answers [Hanswers Hstate].
  eapply logs_bind; [apply (logs_synchronize _ _ [] sums_nil)|intros n Hn; apply Hsilent; by unsaid|].
  intros value1 n1 Hsums1.
  pose proof (heard_unsaid _ (sums_heard _ _ Hsums1)) as Hn1.
  eapply logs_bind; [apply logs_drain|intros n Hn%heard_unsaid; apply Hsilent; by unsaid|].
  intros changed n2 [Hn2 Hchanged]. cbv zeta. pose proof (sums_drain _ _ _ _ Hsums1 Hn2 Hchanged) as Hsums2.
  revert Hsums2. generalize (if changed then Stop_record Stop_Changed value1 else value1). intros value Hsums.
  eapply logs_mono; [apply (logs_decide _ _ arguments matches _ _ _ _ _ answers (n1 ++ n2) Hbefore Hanswers)|..].
  - apply Hsums.
  - destruct matches; [|done]. destruct (Stop_load value) eqn:Hload; [|done..]. cbn [andb]. intros ->.
    apply load_none in Hload; [|apply Hsums]. split_and!; [done..|by apply Hsums|done|by apply Hstate].
  - cbn beta. intros r n. by rewrite <- !(assoc_L (++)).
  - cbn beta. intros n Hn e. specialize (Hn e). by rewrite <- !(assoc_L (++)) in Hn.
Qed.

Lemma logs_with_listener {A} listener (m : M W GuardStop A) Q R : logs m Q R → logs (with_listener listener m) Q R.
Proof.
  intros Hm w. specialize (Hm w). unfold wp, with_listener in *.
  by destruct (m w) as [[a|e] w']; rewrite drop_listener_noteless.
Qed.

Lemma logs_guarded rounds fuel arguments file :
  logs (let! expected := stop (read_initial_input_set file (Arguments_peer_uid arguments)) in
        let! uevents := stop UeventMonitor_open in
        let! current := stop (inspect_input_class SYSFS_INPUT) in
        let! listener := stop (ListenerSource_open (Arguments_endpoint arguments)) in
        with_listener listener
          (let! stream := accept_peer fuel (ListenerSource_listener listener) (Arguments_peer_uid arguments) in
           report rounds fuel arguments (mappings_eq current expected) stream uevents))
    (λ r n, conduct arguments (Ok r) n) (λ n, ∀ e, conduct arguments (Err e) n).
Proof.
  assert (∀ n, Forall unsaid n → ∀ e, conduct arguments (Err e) n) as Hsilent.
  { intros n Hn e. left. by split; [|exists e]. }
  eapply logs_bind; [apply logs_stop, logs_read_set|by apply Hsilent|]. intros expected n1 (source & -> & Hsource).
  eapply logs_bind; [apply logs_stop, logs_monitor|intros n Hn; apply Hsilent; by unsaid|]. intros uevents n2 (socket & ->).
  eapply logs_bind; [apply logs_stop, logs_inspect|intros n Hn; apply Hsilent; by unsaid|].
  intros current listing [Hlisted Hlisting].
  apply logs_quietly; [apply _|apply Hsilent; by unsaid|]. intros listener. apply logs_with_listener.
  eapply logs_bind; [apply logs_accept_peer|intros n Hn; apply Hsilent; by unsaid|]. intros stream peers Hadmits.
  pose proof (admits_unsaid _ _ _ Hadmits) as Hpeers.
  assert (∀ r n, reported arguments (mappings_eq current expected) stream r n →
    conduct arguments r ([GuardNote_Source source] ++ [GuardNote_Bound socket] ++ listing ++ peers ++ n)) as Hr.
  { intros r n [[Hn ?]|[(after & -> & Hafter & ? & ?)|(Heq & answers & rest & after & -> & ?)]].
    - left. split; [by unsaid|done].
    - right; left. exists stream, ([GuardNote_Source source] ++ [GuardNote_Bound socket] ++ listing), peers, after.
      rewrite <- !(assoc_L (++)). split_and!; [done|by unsaid|done..].
    - right; right. exists stream,
        ([GuardNote_Source source] ++ [GuardNote_Bound socket] ++ listing ++ peers
         ++ (GuardNote_Subscribed <$> callbacks.*1) ++ answers ++ rest), after.
      rewrite <- !(assoc_L (++)). split; [done|]. split; [|naive_solver].
      exists source, expected, current, socket, listing, peers, answers, rest. naive_solver. }
  eapply logs_mono; [apply logs_report|..]; cbn beta; intros; by apply Hr.
Qed.

(** *** No inherited descriptor is missing *)

Definition spares {A} (m : M W GuardStop A) : Prop := ∀ w, wp m (λ _ _, True) (λ e _, e ≠ GuardStop_Panic) w.

Lemma spares_bind {A B} (m : M W GuardStop A) (k : A → M W GuardStop B) :
  spares m → (∀ a, spares (k a)) → spares (bind m k).
Proof. intros Hm Hk w. apply wp_bind. eapply wp_mono; [apply Hm|intros a w' _; apply Hk|done]. Qed.
Lemma spares_stop {A} (m : M W string A) : spares (stop m).
Proof. intros w. unfold wp, stop, map_error. by destruct (m w) as [[] ?]. Qed.
Lemma spares_say stream state message : spares (say stream state message).
Proof. intros w. unfold wp, say, map_error. by destruct (write_stream _ _ _) as [[] ?]. Qed.
Lemma spares_lift {A} (r : result A string) : spares (lift (map_err GuardStop_Error r)).
Proof. intros w. by destruct r. Qed.
Lemma spares_fail {A} e : e ≠ GuardStop_Panic → spares (A:=A) (fail e).
Proof. by intros He w. Qed.
Lemma spares_attempt {E A} (m : M W E A) : spares (attempt m).
Proof. intros w. unfold wp, attempt. by destruct (m w). Qed.
Lemma spares_ret {A} (a : A) : spares (ret a).
Proof. done. Qed.

Ltac spares :=
  repeat first
    [ done | apply spares_stop | apply spares_say | apply spares_lift | apply spares_attempt | apply spares_ret
    | by apply spares_fail | apply spares_bind; [|intros ?] | case_match ].

Lemma spares_accept_peer fuel listener uid : spares (accept_peer fuel listener uid).
Proof. induction fuel as [|fuel IH]; cbn [accept_peer]; spares. Qed.
Lemma spares_drain fuel socket changed : spares (drain fuel socket changed).
Proof. revert changed. induction fuel as [|fuel IH]; intros changed; cbn [drain]; spares. Qed.
Lemma spares_synchronize fuel value : spares (synchronize fuel value).
Proof. revert value. induction fuel as [|fuel IH]; intros v; cbn [synchronize]; unfold process; spares. Qed.
Lemma spares_watch rounds fuel stream uevents value : spares (watch rounds fuel stream uevents value).
Proof.
  revert value. induction rounds as [|rounds IH]; intros v; cbn [watch]; unfold process, refuse; cbv zeta; spares.
  apply spares_drain.
Qed.

Lemma confine_all_length files w :
  wp (confine_all files) (λ inherited _, length inherited = length files) (λ _ _, True) w.
Proof.
  revert w. induction files as [|[descriptor name] files IH]; intros w; cbn [confine_all]; [done|].
  apply wp_bind, wp_map_error. eapply wp_mono; [apply wp_true|intros flags w1 _|done].
  apply wp_bind, wp_map_error. eapply wp_mono; [apply wp_true|intros [] w2 _|done].
  apply wp_bind. eapply wp_mono; [apply IH|intros inherited w3 Hl|done]. apply wp_ret. cbn. by rewrite Hl.
Qed.

(** One descriptor is announced and one received, so there is a first. *)
Lemma received_one env w :
  wp (receive_inherited_files env 1 1) (λ files _, files ≠ []) (λ _ _, True) w.
Proof.
  unfold receive_inherited_files.
  apply wp_bind, wp_lift; [intros announced _|done]. apply wp_bind, wp_lift; [intros count _|done].
  destruct (_ || _) eqn:Hcount; [done|].
  apply orb_false_iff in Hcount as [Hzero%Z.eqb_neq Hone%Z.ltb_ge].
  apply wp_bind, wp_lift; [intros source _|done]. apply wp_bind, wp_lift; [intros total Htotal|done].
  apply wp_bind, wp_lift; [intros names Hnames|done].
  assert (total = count + 1) as ->.
  { unfold checked_u64, checked_in in Htotal. by destruct (_ && _); simplify_eq/=. }
  assert (len names = count + 1) as Hlen.
  { unfold validate_names in Hnames. destruct (_ =? 0); [done|].
    destruct (negb _) eqn:Hl; [done|]. cbn [orb] in Hnames. destruct (existsb _ _); [done|]. simplify_eq.
    by apply negb_false_iff, Z.eqb_eq in Hl. }
  apply wp_bind, wp_map_error. eapply wp_mono; [apply wp_true|intros received w1 _|done].
  destruct (negb _) eqn:Hreceived; [done|]. apply negb_false_iff, Z.eqb_eq in Hreceived.
  eapply wp_mono; [apply confine_all_length|intros files w2 Hfiles ->|done]. cbn in Hfiles.
  change (Z.to_nat 1) with 1%nat in Hfiles. unfold len in *.
  destruct received as [|fd received]; [done|]. destruct names as [|? [|name names]]; cbn in *; lia.
Qed.

Lemma spares_with_listener {A} listener (m : M W GuardStop A) : spares m → spares (with_listener listener m).
Proof. intros Hm w. specialize (Hm w). unfold wp, with_listener in *. by destruct (m w) as [[] ?]. Qed.

Lemma spares_run rounds fuel env args : spares (run_guard rounds fuel env args).
Proof.
  unfold run_guard. apply spares_bind; [apply spares_stop|]. intros [arguments|]; [|done].
  intros w. apply wp_bind. unfold stop. do 2 apply wp_map_error.
  eapply wp_mono; [apply received_one| |done]. intros [|file files] w1; [done|]. intros _. revert w1.
  match goal with |- ∀ w1, wp ?m _ _ w1 => change (spares m) end. spares.
  apply spares_with_listener. unfold report, process. cbv zeta. spares;
    first [apply spares_accept_peer|apply spares_drain|apply spares_synchronize|apply spares_watch].
Qed.

End guard.

(** ** A run of the guard *)

Module GuardToy.
(** The connections, what each look at the bus handles and the datagrams are scripted; the
    questions are answered in favour of session [c2], and the input class has two devices. *)
Record World := {
  World_notes : list GuardNote;
  World_peers : list Z;
  World_bus : list (bool * list Delivery);
  World_datagrams : list (option Datagram)
}.

Definition note (n : GuardNote) (w : World) : World := {|
  World_notes := World_notes w ++ [n]; World_peers := World_peers w; World_bus := World_bus w;
  World_datagrams := World_datagrams w |}.

(** A call with a fixed answer, which it notes. *)
Definition answer {E A} (a : A) (n : GuardNote) : M World E A := λ w, (Ok a, note n w).

Definition input_set : bytes :=
  match encode_input_set [mapping 2; mapping 10] with Ok b => b | Err _ => [] end.

Definition metadata (type : FileType) : FdMetadata := {|
  FdMetadata_metadata := {|
    Metadata_file_type := type; Metadata_dev := 0; Metadata_ino := 7; Metadata_uid := 990;
    Metadata_mode := OWNER_ONLY; Metadata_len := len input_set |};
  FdMetadata_nlink := 1 |}.

#[export] Instance broker_system : BrokerSystem World := {
  clock_now w := (0, w);
  dup fd := ret (fd + 10);
  set_nonblocking _ := ret tt;
  local_addr _ := ret tt;
  fcntl_getfl _ := ret 0;
  fcntl_setfl _ _ := ret tt;
  fcntl_getfd _ := ret 0;
  fcntl_setfd _ _ := ret tt;
  listen_fds := ret [3];
  fd_metadata _ := ret (metadata FileType_File);
  fd_read_to_end _ _ := answer input_set (GuardNote_Source input_set);
  device_from_fd fd := ret fd;
  device_codes _ _ _ := None;
  get_key_state _ := ret [];
  fetch_events _ := ret [];
  poll _ _ := ret [];
  accept _ := ret 9;
  socket_peercred stream w :=
    let uid := from_option id 0 (head (World_peers w)) in
    (Ok uid, note (GuardNote_Peer stream uid) {|
       World_notes := World_notes w; World_peers := tail (World_peers w); World_bus := World_bus w;
       World_datagrams := World_datagrams w |});
  pending _ _ := [];
  consume _ _ w := w;
  write_stream stream frame := answer tt (GuardNote_Said stream frame);
  flush_stream _ := ret tt;
  getrandom count := ret (replicate (Z.to_nat count) 1)
}.

Definition session_path : str := bstr "/org/freedesktop/login1/session/c2".
Definition seat_path : str := bstr "/org/freedesktop/login1/seat/seat0".
Definition property (asked : Question) : string := Question_property asked.

Definition names : list (result str string) := [Ok (bstr "event10"); Ok (bstr "input3"); Ok (bstr "event2")].
Definition resolved (path : str) : str := sysfs_path (mapping (if ends_with (bstr "event2") path then 2 else 10)).
Definition bool_answer (asked : Question) : bool := bool_decide (property asked = "Active"%string).
Definition text_answer (asked : Question) : str :=
  if bool_decide (property asked = "Type"%string) then bstr "x11"
  else if bool_decide (property asked = "Class"%string) then bstr "user" else bstr "active".
Definition named_answer (asked : Question) : str * str :=
  if bool_decide (property asked = "Seat"%string) then (bstr "seat0", seat_path) else (bstr "c2", session_path).

#[export] Instance guard_system : GuardSystem World := {
  file_state _ := ret {| FileState_metadata := metadata FileType_File; FileState_mtime := 5; FileState_mtime_nsec := 0 |};
  directory_entries _ := answer names (GuardNote_Entries names);
  link_metadata _ := ret (FdMetadata_metadata (metadata FileType_Symlink));
  canonicalize path := answer (resolved path) (GuardNote_Resolved path (resolved path));
  uevent_socket := ret 20;
  uevent_bind socket := answer tt (GuardNote_Bound socket);
  recvfrom _ _ w :=
    let rest := {| World_notes := World_notes w; World_peers := World_peers w; World_bus := World_bus w;
                   World_datagrams := tail (World_datagrams w) |} in
    match head (World_datagrams w) with
    | Some (Some d) => (Ok d, note (GuardNote_Datagram d) rest)
    | _ => (Err RecvError_Again, rest)
    end;
  bind_listener _ := ret 30;
  set_permissions _ _ := ret tt;
  remove_file _ w := w;
  accept_stream _ := ret 9;
  set_stream_write_timeout _ _ := ret tt;
  bus_connect := ret tt;
  add_match rule := answer tt (GuardNote_Subscribed rule);
  bus_process _ w :=
    let r := from_option id (false, []) (head (World_bus w)) in
    (Ok r, note (GuardNote_Delivered r.2) {|
       World_notes := World_notes w; World_peers := World_peers w; World_bus := tail (World_bus w);
       World_datagrams := World_datagrams w |});
  get_session session := answer session_path (GuardNote_Session session session_path);
  ask_bool asked := answer (bool_answer asked) (GuardNote_Bool asked (bool_answer asked));
  ask_text asked := answer (text_answer asked) (GuardNote_Text asked (text_answer asked));
  ask_owner asked := answer (1000, session_path) (GuardNote_Owner asked (1000, session_path));
  ask_named asked := answer (named_answer asked) (GuardNote_Named asked (named_answer asked))
}.

#[export] Instance journaled : GuardJournal World.
Proof.
  refine {| guard_journal := World_notes |}; try (intros; apply _); try done;
    intros; intros w; cbn; try (by eexists); try by exists [].
  unfold wp. destruct (head (World_datagrams w)) as [[d|]|]; [by eexists|exists []; by rewrite app_nil_r..].
Defined.

(** A block device is added while the guard starts; in its second round an input device
    goes away. *)
Definition kernel_message (text : string) (subsystem : string) : Datagram :=
  let message := bstr text ++ [0] ++ bstr "SUBSYSTEM=" ++ bstr subsystem ++ [0] in
  {| Datagram_bytes := message; Datagram_received := len message; Datagram_source := Some (Some 0) |}.

Definition start : World := {|
  World_notes := [];
  World_peers := [1234; 990];
  World_bus := [(true, [{| Delivery_rule := owner_rule; Delivery_name := "org.example" |}])];
  World_datagrams := [Some (kernel_message "add@/devices/sda" "block"); None; None;
                      Some (kernel_message "remove@/devices/event2" "input")] |}.

Definition env (name : string) : option str :=
  if bool_decide (name = "LISTEN_FDS"%string) then Some (bstr "1")
  else if bool_decide (name = "LISTEN_FDNAMES"%string) then Some (bstr "eligibility:initial-input-set")
  else None.

Definition arguments : list str :=
  [bstr "--session"; bstr "c2"; bstr "--uid"; bstr "1000"; bstr "--seat"; bstr "seat0"; bstr "--listen-stdin";
   bstr "--peer-uid"; bstr "990"].

Definition run (rounds : nat) := run_guard rounds 3 env arguments start.

Definition said (note : GuardNote) : option (Fd * bytes) :=
  match note with GuardNote_Said stream frame => Some (stream, frame) | _ => None end.

Example guard_runs :
  (run 3).1 = Ok GuardEnd_Done ∧
  omap said (World_notes (run 3).2) =
    [(9, eligibility_frame EligibilityState_Eligible); (9, eligibility_frame EligibilityState_Ineligible)] ∧
  (run 1).1 = Ok GuardEnd_Running ∧
  omap said (World_notes (run 1).2) = [(9, eligibility_frame EligibilityState_Eligible)].
Proof. vm_compute. done. Qed.

End GuardToy.
