(* ===== verification/Json.v ===== *)
(** * JSON values of [serde_json], as the companion uses them

    [Value] is the public data type of the library, an object being a map ordered by its
    keys.  Its parser and printer, and the derived conversions, stay parameters of what
    uses them. *)

From Stdlib Require Import Sorted.
From stdpp Require Import list.
From S2P Require Import Prelude Text.

(** ** [BTreeMap] with string keys *)

Definition StrMap (V : Type) : Type := list (str * V).

Section map.
Context {V : Type}.

Fixpoint map_get (key : str) (m : StrMap V) : option V :=
  match m with
  | [] => None
  | (k, v) :: m => if bool_decide (k = key) then Some v else map_get key m
  end.

(** In place of an equal key, or in the order of the keys. *)
Fixpoint map_insert (key : str) (value : V) (m : StrMap V) : StrMap V :=
  match m with
  | [] => [(key, value)]
  | (k, v) :: m' =>
      if bool_decide (k = key) then (key, value) :: m'
      else if str_ltb key k then (key, value) :: m
      else (k, v) :: map_insert key value m'
  end.

Fixpoint map_remove (key : str) (m : StrMap V) : StrMap V :=
  match m with
  | [] => []
  | (k, v) :: m => if bool_decide (k = key) then m else (k, v) :: map_remove key m
  end.

(** Keys in increasing order, each once. *)
Definition map_sorted (m : StrMap V) : Prop :=
  StronglySorted (λ p q, str_ltb (fst p) (fst q) = true) m.

Lemma map_get_insert key value m : map_get key (map_insert key value m) = Some value.
Proof.
  induction m as [|[k v] m IH]; cbn [map_insert map_get]; [by rewrite bool_decide_true|].
  case_bool_decide as Hk; cbn [map_get]; [by rewrite bool_decide_true|].
  destruct (str_ltb key k); cbn [map_get]; [by rewrite bool_decide_true|by rewrite bool_decide_false].
Qed.

Lemma map_get_insert_ne key key' value m :
  key ≠ key' → map_get key' (map_insert key value m) = map_get key' m.
Proof.
  intros Hne. induction m as [|[k v] m IH]; cbn [map_insert map_get]; [by rewrite bool_decide_false|].
  case_bool_decide as Hk; cbn [map_get]; [subst; by rewrite !bool_decide_false|].
  destruct (str_ltb key k); cbn [map_get]; [by rewrite bool_decide_false|by rewrite IH].
Qed.

Lemma map_get_Some key m value : map_get key m = Some value → (key, value) ∈ m.
Proof.
  induction m as [|[k v] m IH]; cbn [map_get]; [done|].
  case_bool_decide as Hk; [subst; intros [= ->]; by left|]. intros Hm. right. by apply IH.
Qed.

Lemma map_insert_in key value m p : p ∈ map_insert key value m → p = (key, value) ∨ p ∈ m.
Proof.
  induction m as [|[k v] m IH]; cbn [map_insert].
  { intros ->%list_elem_of_singleton. by left. }
  case_bool_decide; [|destruct (str_ltb key k)]; rewrite !elem_of_cons; tauto.
Qed.

Lemma map_insert_sorted key value m :
  map_sorted m → map_sorted (map_insert key value m).
Proof.
  intros Hm. unfold map_sorted in *.
  induction Hm as [|[k v] m Hm IH Hk]; cbn [map_insert]; [by repeat constructor|].
  rewrite Forall_forall in Hk. case_bool_decide as Heq; [|destruct (str_ltb key k) eqn:Hlt].
  - subst. constructor; [done|]. by apply Forall_forall.
  - repeat constructor; [done|by apply Forall_forall|done|]. apply Forall_forall. intros p Hp.
    by eapply str_ltb_trans, (Hk p).
  - constructor; [done|]. apply Forall_forall. intros p [->|Hp]%map_insert_in; [|by apply Hk].
    cbn. destruct (str_ltb k key) eqn:Hgt; [done|]. by destruct Heq; apply str_ltb_total.
Qed.

(** Replacing keeps the size; a new key adds one. *)
Lemma map_insert_length key value m :
  map_sorted m →
  length (map_insert key value m) = (length m + if map_get key m then 0 else 1)%nat.
Proof.
  intros Hm. unfold map_sorted in Hm.
  induction Hm as [|[k v] m Hm IH Hk]; cbn [map_insert map_get]; [done|].
  case_bool_decide as Heq; [cbn; lia|]. destruct (str_ltb key k) eqn:Hlt; cbn [length].
  - destruct (map_get key m) as [value'|] eqn:Hget; [|lia]. apply map_get_Some in Hget.
    rewrite Forall_forall in Hk. specialize (Hk _ Hget). cbn in Hk. by rewrite (str_ltb_asym _ _ Hlt) in Hk.
  - rewrite IH. lia.
Qed.
End map.

(** ** Values *)

Inductive Number :=
| Number_PosInt (n : Z)
| Number_NegInt (n : Z)
| Number_Float (text : string).

Inductive Value :=
| Value_Null
| Value_Bool (b : bool)
| Value_Number (n : Number)
| Value_String (s : str)
| Value_Array (items : list Value)
| Value_Object (fields : StrMap Value).

Definition I64_MAX : Z := 2 ^ 63 - 1.

(** [as_u64], [as_i64] *)
Definition as_u64 (n : Number) : option Z :=
  match n with Number_PosInt n => Some n | _ => None end.
Definition as_i64 (n : Number) : option Z :=
  match n with
  | Number_PosInt n => if n <=? I64_MAX then Some n else None
  | Number_NegInt n => Some n
  | Number_Float _ => None
  end.

Definition value_str (v : Value) : option str := match v with Value_String s => Some s | _ => None end.
Definition value_object (v : Value) : option (StrMap Value) :=
  match v with Value_Object fields => Some fields | _ => None end.
Definition is_object (v : Value) : bool := match v with Value_Object _ => true | _ => false end.
Definition is_null (v : Value) : bool := match v with Value_Null => true | _ => false end.

(** [value.get(key)]; [value[key]] is null where there is none. *)
Definition value_get (key : str) (v : Value) : option Value := value_object v ≫= map_get key.
Definition value_index (key : str) (v : Value) : Value := default Value_Null (value_get key v).

(** [json!({ .. })] *)
Definition json_object (fields : list (string * Value)) : Value :=
  Value_Object (fold_left (λ m '(key, value), map_insert (bstr key) value m) fields []).
Definition json_str (s : string) : Value := Value_String (bstr s).
Definition json_uint (n : Z) : Value := Value_Number (Number_PosInt n).
Definition json_bool (b : bool) : Value := Value_Bool b.
Definition json_array (items : list Value) : Value := Value_Array items.
Definition json_strs (items : list string) : Value := Value_Array (json_str <$> items).
