(* ===== verification/McpTools.v ===== *)
(** * [agent-seat-mcp/src/mcp.rs]: the published tools

    The names, descriptions and argument schemas of the tools of both protocol eras. *)

From stdpp Require Import list.
From S2P Require Import Prelude Text Json.

#[local] Open Scope string_scope.

Definition KEYBOARD_KEYS : list string :=
  ["backspace"; "delete"; "enter"; "escape"; "tab"; "space"; "insert"; "home"; "end";
   "page_up"; "page_down"; "arrow_left"; "arrow_right"; "arrow_up"; "arrow_down"; "a"; "b";
   "c"; "d"; "e"; "f"; "g"; "h"; "i"; "j"; "k"; "l"; "m"; "n"; "o"; "p"; "q"; "r"; "s"; "t";
   "u"; "v"; "w"; "x"; "y"; "z"; "0"; "1"; "2"; "3"; "4"; "5"; "6"; "7"; "8"; "9"; "f1";
   "f2"; "f3"; "f4"; "f5"; "f6"; "f7"; "f8"; "f9"; "f10"; "f11"; "f12"].

Inductive Era := Era_Legacy | Era_Modern.

(** [name], [title] and [description] are static texts. *)
Record Tool := {
  Tool_name : string;
  Tool_title : string;
  Tool_description : string;
  Tool_input_schema : Value
}.

Definition tool (name title description : string) (input_schema : Value) : Tool :=
  {| Tool_name := name; Tool_title := title; Tool_description := description;
     Tool_input_schema := input_schema |}.

(** ** Schemas *)

Definition empty_schema : Value :=
  json_object [("type", json_str "object"); ("additionalProperties", json_bool false)].

Definition positive_schema : Value := json_object [("type", json_str "integer"); ("minimum", json_uint 1)].
Definition natural_schema : Value := json_object [("type", json_str "integer"); ("minimum", json_uint 0)].

Definition target_schema : Value :=
  json_object [
    ("type", json_str "object");
    ("properties", json_object [("client", positive_schema); ("generation", natural_schema)]);
    ("required", json_strs ["client"; "generation"]);
    ("additionalProperties", json_bool false)].

(** [object.extend(extra)] *)
Definition extend (fields extra : StrMap Value) : StrMap Value :=
  fold_left (λ m '(key, value), map_insert key value m) extra fields.

Definition object_with_target (extra : Value) (extra_required : list string) : Value :=
  let properties := map_insert (bstr "generation") natural_schema
                      (map_insert (bstr "client") positive_schema []) in
  let properties := match extra with Value_Object extra => extend properties extra | _ => properties end in
  json_object [
    ("type", json_str "object");
    ("properties", Value_Object properties);
    ("required", json_strs (["client"; "generation"] ++ extra_required)%list);
    ("additionalProperties", json_bool false)].

(** [object.entry(key).or_insert_with(..)] and a change of what is there. *)
Definition entry_or (key : string) (default : Value) (change : Value → Value) (fields : StrMap Value)
  : StrMap Value :=
  map_insert (bstr key)
    (change (match map_get (bstr key) fields with Some value => value | None => default end)) fields.

Definition add_context_schema (schema : Value) : Value :=
  match schema with
  | Value_Object fields =>
      let fields := entry_or "properties" (json_object [])
        (λ properties, match properties with
                       | Value_Object properties =>
                           Value_Object (map_insert (bstr "context") positive_schema properties)
                       | other => other
                       end) fields in
      let fields := entry_or "required" (json_array [])
        (λ required, match required with
                     | Value_Array required => Value_Array (required ++ [json_str "context"])%list
                     | other => other
                     end) fields in
      Value_Object fields
  | other => other
  end.

(** ** The tools *)

Definition build_tools : list Tool :=
  [
   tool "seat_status" "Agent Seat status"
      "Resolve and authenticate the current Agent Seat provider. Call this before desktop work."
      empty_schema;
   tool "desktop_snapshot" "Desktop snapshot"
      ("Observe the bounded Tier 0 desktop before choosing a target or mutation. Repeat after "
      +:+ "an action that may open a dialog or window; compare active and client IDs before more "
      +:+ "input.")
      empty_schema;
   tool "events_subscribe" "Subscribe to desktop changes"
      "Start a bounded event stream; an empty kinds list subscribes to every core event."
      (json_object [
          ("type", json_str "object");
          ("properties", json_object [
            ("kinds", json_object [
              ("type", json_str "array");
              ("maxItems", json_uint 8);
              ("uniqueItems", json_bool true);
              ("items", json_object [
                ("enum", json_strs ["client_added"; "client_changed"; "client_removed"; "active_changed";
                  "workspace_changed"; "applications_changed"])])])]);
          ("additionalProperties", json_bool false)]);
   tool "events_poll" "Poll desktop changes"
      "Read bounded changes after a provider sequence cursor."
      (json_object [
          ("type", json_str "object");
          ("properties", json_object [
            ("after", json_object [("type", json_str "integer"); ("minimum", json_uint 0)]);
            ("limit", json_object [
              ("type", json_str "integer");
              ("minimum", json_uint 1);
              ("maximum", json_uint 1024)]);
            ("wait_ms", json_object [
              ("type", json_str "integer");
              ("minimum", json_uint 0);
              ("maximum", json_uint 30000)])]);
          ("required", json_strs ["after"; "limit"; "wait_ms"]);
          ("additionalProperties", json_bool false)]);
   tool "client_activate" "Activate client"
      ("Request advertised EWMH activation of a freshly observed client, then report what was "
      +:+ "observed.")
      target_schema;
   tool "client_close" "Close client politely"
      ("Request polite close only when the client advertises WM_DELETE_WINDOW, then report what "
      +:+ "was observed.")
      target_schema;
   tool "workspace_switch" "Switch workspace"
      "Request an advertised current-workspace change from a fresh snapshot."
      (json_object [
          ("type", json_str "object");
          ("properties", json_object [
            ("workspace", json_object [
              ("type", json_str "integer");
              ("minimum", json_uint 0);
              ("maximum", json_uint 65535)]);
            ("sequence", json_object [("type", json_str "integer"); ("minimum", json_uint 0)])]);
          ("required", json_strs ["workspace"; "sequence"]);
          ("additionalProperties", json_bool false)]);
   tool "client_workspace" "Send client to workspace"
      "Request moving a freshly observed client to an advertised workspace."
      (object_with_target (json_object [
          ("workspace", json_object [
            ("type", json_str "integer");
            ("minimum", json_uint 0);
            ("maximum", json_uint 65535)])])
          ["workspace"]);
   tool "client_state" "Change client state"
      "Request one supported EWMH state transition on a freshly observed client."
      (object_with_target (json_object [
          ("state", json_object [
            ("enum", json_strs ["above"; "below"; "fullscreen"; "hidden"; "maximized_horizontal";
              "maximized_vertical"; "demands_attention"; "sticky"; "shaded"])]);
          ("action", json_object [("enum", json_strs ["add"; "remove"; "toggle"])])])
          ["state"; "action"]);
   tool "client_geometry" "Change client geometry"
      "Request supported EWMH frame geometry for a freshly observed client."
      (object_with_target (json_object [
          ("frame", json_object [
            ("type", json_str "object");
            ("properties", json_object [
              ("x", json_object [("type", json_str "integer")]);
              ("y", json_object [("type", json_str "integer")]);
              ("width", json_object [
                ("type", json_str "integer");
                ("minimum", json_uint 1);
                ("maximum", json_uint 4294967295)]);
              ("height", json_object [
                ("type", json_str "integer");
                ("minimum", json_uint 1);
                ("maximum", json_uint 4294967295)])]);
            ("required", json_strs ["x"; "y"; "width"; "height"]);
            ("additionalProperties", json_bool false)])])
          ["frame"]);
   tool "applications_list" "List launchable applications"
      "List a bounded page of desktop entries visible under current provider policy."
      (json_object [
          ("type", json_str "object");
          ("properties", json_object [
            ("cursor", json_object [
              ("type", json_str "integer");
              ("minimum", json_uint 0);
              ("maximum", json_uint 4294967295);
              ("default", json_uint 0)]);
            ("limit", json_object [
              ("type", json_str "integer");
              ("minimum", json_uint 1);
              ("maximum", json_uint 256)])]);
          ("required", json_strs ["limit"]);
          ("additionalProperties", json_bool false)]);
   tool "application_launch" "Launch desktop application"
      "Launch one current policy-approved desktop ID without a shell."
      (json_object [
          ("type", json_str "object");
          ("properties", json_object [
            ("application", json_object [
              ("type", json_str "string");
              ("minLength", json_uint 9);
              ("maxLength", json_uint 256);
              ("pattern", json_str "^[^/\u0000]+\.desktop$")])]);
          ("required", json_strs ["application"]);
          ("additionalProperties", json_bool false)]);
   tool "pointer_move" "Move pointer within client"
      ("Move the pointer once to a currently visible client-relative point while the operator "
      +:+ "seat remains enabled.")
      (object_with_target (json_object [
          ("x", json_object [
            ("type", json_str "integer");
            ("minimum", json_uint 0);
            ("maximum", json_uint 4294967295)]);
          ("y", json_object [
            ("type", json_str "integer");
            ("minimum", json_uint 0);
            ("maximum", json_uint 4294967295)])])
          ["x"; "y"]);
   tool "pointer_click" "Click within client"
      ("Move to and click one currently visible client-relative point while the operator seat "
      +:+ "remains enabled.")
      (object_with_target (json_object [
          ("x", json_object [
            ("type", json_str "integer");
            ("minimum", json_uint 0);
            ("maximum", json_uint 4294967295)]);
          ("y", json_object [
            ("type", json_str "integer");
            ("minimum", json_uint 0);
            ("maximum", json_uint 4294967295)]);
          ("button", json_object [("enum", json_strs ["primary"; "middle"; "secondary"])])])
          ["x"; "y"; "button"]);
   tool "pointer_slot_save" "Remember pointer click"
      ("Save one previously verified client-relative click in the current provider session. A "
      +:+ "slot remembers coordinates, not a UI element; saving does not perform the click.")
      (object_with_target (json_object [
          ("name", json_object [
            ("type", json_str "string");
            ("minLength", json_uint 1);
            ("maxLength", json_uint 64);
            ("pattern", json_str "^[A-Za-z0-9._-]+$")]);
          ("x", json_object [
            ("type", json_str "integer");
            ("minimum", json_uint 0);
            ("maximum", json_uint 4294967295)]);
          ("y", json_object [
            ("type", json_str "integer");
            ("minimum", json_uint 0);
            ("maximum", json_uint 4294967295)]);
          ("button", json_object [("enum", json_strs ["primary"; "middle"; "secondary"])])])
          ["name"; "x"; "y"; "button"]);
   tool "pointer_slot_replay" "Replay remembered click"
      ("Replay one remembered click using the target's freshly observed generation and all "
      +:+ "current provider geometry, visibility, hit-test, grant, and seat checks. Reobserve "
      +:+ "before relying on a slot after UI changes.")
      (json_object [
          ("type", json_str "object");
          ("properties", json_object [
            ("name", json_object [
              ("type", json_str "string");
              ("minLength", json_uint 1);
              ("maxLength", json_uint 64);
              ("pattern", json_str "^[A-Za-z0-9._-]+$")]);
            ("generation", json_object [("type", json_str "integer"); ("minimum", json_uint 0)])]);
          ("required", json_strs ["name"; "generation"]);
          ("additionalProperties", json_bool false)]);
   tool "pointer_slots_list" "List remembered clicks"
      "List the at most 32 pointer clicks remembered only in the current provider session."
      (json_object [
          ("type", json_str "object");
          ("properties", json_object []);
          ("required", json_array []);
          ("additionalProperties", json_bool false)]);
   tool "keyboard_type" "Type text into client"
      ("Type bounded text through the current X11 keyboard layout only when the target already "
      +:+ "owns keyboard focus.")
      (object_with_target (json_object [
          ("text", json_object [
            ("type", json_str "string");
            ("minLength", json_uint 1);
            ("maxLength", json_uint 256)])])
          ["text"]);
   tool "keyboard_key" "Send key to client"
      ("Send one complete layout-aware key or shortcut only when the target already owns "
      +:+ "keyboard focus.")
      (object_with_target (json_object [
          ("key", json_object [("enum", json_strs KEYBOARD_KEYS)]);
          ("modifiers", json_object [
            ("type", json_str "array");
            ("items", json_object [("enum", json_strs ["control"; "alt"; "shift"; "super"])]);
            ("maxItems", json_uint 4);
            ("uniqueItems", json_bool true);
            ("default", json_array []);
            ("description", json_str "Use canonical order: control, alt, shift, super.")])])
          ["key"]);
   tool "keyboard_write" "Write long-form text into client"
      ("Type up to 4,096 characters and 16 KiB of preflighted multiline text through direct "
      +:+ "symbols in the current X11 keyboard layout. Refusal identifies the first unavailable "
      +:+ "scalar. Never change the user's XKB layout or mapping as a workaround. The target must "
      +:+ "retain keyboard focus; completion is reported exactly and may be interrupted.")
      (object_with_target (json_object [
          ("text", json_object [
            ("type", json_str "string");
            ("minLength", json_uint 1);
            ("maxLength", json_uint 4096)])])
          ["text"]);
   tool "text_insert" "Transfer exact text to client"
      ("Offer up to 16,384 Unicode scalars and 32 KiB of exact UTF-8 to one freshly observed "
      +:+ "focused target. This separately granted write-only operation replaces X11 clipboard "
      +:+ "ownership; a clipboard manager may retain the text. It never reads the prior clipboard "
      +:+ "and reports selection delivery, not application insertion.")
      (object_with_target (json_object [
          ("text", json_object [
            ("type", json_str "string");
            ("minLength", json_uint 1);
            ("maxLength", json_uint 16384)])])
          ["text"]);
   tool "capture_obscured" "Capture client pixels"
      ("Capture one freshly observed client's own pixels, including content covered by dialogs "
      +:+ "or other windows. This does not prove visibility, focus, or interactivity; use "
      +:+ "desktop_snapshot to inspect the active and newly added clients.")
      target_schema;
   tool "capture_region" "Capture part of client"
      ("Capture a bounded client-relative rectangle, including content covered by dialogs or "
      +:+ "other windows. This does not prove visibility, focus, or interactivity; use "
      +:+ "desktop_snapshot after UI-changing actions. The region may be at most 1,024 pixels on "
      +:+ "either side and 262,144 pixels total.")
      (object_with_target (json_object [
          ("x", json_object [
            ("type", json_str "integer");
            ("minimum", json_uint 0);
            ("maximum", json_uint 2047)]);
          ("y", json_object [
            ("type", json_str "integer");
            ("minimum", json_uint 0);
            ("maximum", json_uint 2047)]);
          ("width", json_object [
            ("type", json_str "integer");
            ("minimum", json_uint 1);
            ("maximum", json_uint 1024)]);
          ("height", json_object [
            ("type", json_str "integer");
            ("minimum", json_uint 1);
            ("maximum", json_uint 1024)])])
          ["x"; "y"; "width"; "height"])].

Definition build_modern_tools : list Tool :=
  ((λ t,
     if bool_decide (Tool_name t = "seat_status")
     then tool (Tool_name t) (Tool_title t)
            ("Open one of at most eight Agent Seat contexts and report status; carry the returned "
             +:+ "context until seat_release, provider failure, or companion exit.")
            (Tool_input_schema t)
     else tool (Tool_name t) (Tool_title t) (Tool_description t) (add_context_schema (Tool_input_schema t)))
   <$> build_tools)
  ++ [tool "seat_release" "Release Agent Seat context"
        "Release one explicit Agent Seat context when desktop work is complete."
        (json_object [
           ("type", json_str "object");
           ("properties", json_object [("context", positive_schema)]);
           ("required", json_strs ["context"]);
           ("additionalProperties", json_bool false)])].

(** The tables are built once. *)
Definition tools (era : Era) : list Tool :=
  match era with Era_Legacy => build_tools | Era_Modern => build_modern_tools end.
