(* ===== verification/SeatClient.v ===== *)
(** * [agent-seat-mcp/src/seat.rs]: the connection of the companion to a provider

    A seat is a connection on which the session was opened, and the identity of its next
    request.  The streams, with the frame codec of agent-seat-proto on them, are an
    interface; dropping a stream closes it. *)

From S2P Require Import Prelude Text Bounded Protocol Effects Codec Message.

Definition Stream : Type := Z.

(** [CodecError], with the text of its JSON error. *)
Definition CodecFailure : Type := CodecError string.

Class SeatStreams (W : Type) := {
  (** [UnixStream::connect] *)
  connect_stream : str → M W string Stream;
  (** in nanoseconds *)
  set_stream_read_timeout : Stream → Z → M W string unit;
  set_stream_write_timeout : Stream → Z → M W string unit;
  (** [write_frame(stream, message, MAX_REQUEST_FRAME_BYTES)] *)
  send : Stream → ClientMessage → M W CodecFailure unit;
  (** [read_frame(stream, MAX_RESPONSE_FRAME_BYTES)] *)
  receive_frame : Stream → M W CodecFailure (ReadFrame ServerMessage);
  close_stream : Stream → W → W
}.

Definition IO_TIMEOUT : Z := 10 * 1000000000.
Definition LONG_INPUT_TIMEOUT : Z := 120 * 1000000000.

Record Seat := { Seat_stream : Stream; Seat_next_request : Z }.

Record SeatError := { SeatError_code : ErrorCode; SeatError_retry : Retry; SeatError_message : string }.

Definition unavailable (message : string) : SeatError :=
  {| SeatError_code := ErrorCode_Unavailable; SeatError_retry := Retry_Reconnect; SeatError_message := message |}.
Definition malformed (message : string) : SeatError :=
  {| SeatError_code := ErrorCode_Malformed; SeatError_retry := Retry_Reconnect; SeatError_message := message |}.
Definition internal (message : string) : SeatError :=
  {| SeatError_code := ErrorCode_Internal; SeatError_retry := Retry_Never; SeatError_message := message |}.

Section seat.
(** The text of an I/O error. *)
Context (io_text : ErrorKind → string).

Definition CodecError_to_string (error : CodecFailure) : string :=
  match error with
  | CodecError_Io error => "stream I/O failed: " +:+ io_text error
  | CodecError_TruncatedPrefix => "frame length prefix was truncated"
  | CodecError_TruncatedPayload => "frame payload was truncated"
  | CodecError_Empty => "frame payload is empty"
  | CodecError_TooLarge length limit =>
      "frame has " +:+ decimal length +:+ " bytes; maximum is " +:+ decimal limit
  | CodecError_Json error => "frame JSON is invalid: " +:+ error
  | CodecError_Invalid error => "frame message is invalid: " +:+ error
  end.

Definition codec_error (error : CodecFailure) : SeatError :=
  match error with
  | CodecError_Io error => unavailable ("provider I/O failed: " +:+ io_text error)
  | CodecError_TooLarge _ _ =>
      {| SeatError_code := ErrorCode_TooLarge; SeatError_retry := Retry_Never;
         SeatError_message := CodecError_to_string error |}
  | _ => malformed (CodecError_to_string error)
  end.

Definition goodbye_retry (code : ErrorCode) : Retry :=
  match code with
  | ErrorCode_NoSuchClient | ErrorCode_Stale | ErrorCode_TimedOut | ErrorCode_ResyncRequired => Retry_Reobserve
  | ErrorCode_Unavailable | ErrorCode_Malformed | ErrorCode_Internal | ErrorCode_Revoked
  | ErrorCode_SessionClosed => Retry_Reconnect
  | ErrorCode_IncompatibleRevision | ErrorCode_Refused | ErrorCode_Unsupported
  | ErrorCode_InvalidArgument | ErrorCode_TooLarge => Retry_Never
  end.

Definition goodbye_error (context : string) (goodbye : Goodbye) : SeatError :=
  let diagnostic := match Goodbye_message goodbye with
                    | None => EmptyString
                    | Some message => ": " +:+ string_of_str (as_str message)
                    end in
  {| SeatError_code := Goodbye_code goodbye; SeatError_retry := goodbye_retry (Goodbye_code goodbye);
     SeatError_message := context +:+ ": " +:+ ErrorCode_as_str (Goodbye_code goodbye) +:+ diagnostic |}.

(** [text(value)?] *)
Definition seat_text {MAX : N} (value : str) : result (BoundedText MAX) SeatError :=
  map_err (λ error, internal (BoundError_to_string error)) (BoundedText_new value).

Definition requested_capabilities : list Capability :=
  [Capability_ObserveStructure; Capability_ObserveTitles; Capability_ObserveEvents;
   Capability_ManageActivate; Capability_ManageClose; Capability_ManageWorkspace;
   Capability_ManageState; Capability_ManageGeometry; Capability_LaunchList;
   Capability_LaunchExecute; Capability_InputPointer; Capability_InputKeyboard;
   Capability_TextTransfer; Capability_CaptureObscured].

(** [env!("CARGO_PKG_VERSION")] is a parameter. *)
Definition hello (version : str) : result Hello SeatError :=
  let? requested := map_err (λ error, internal (BoundError_to_string error))
                      (BoundedList_new requested_capabilities) in
  let? protocol := seat_text PROTOCOL_NAME in
  let? name := seat_text (bstr "agent-seat-mcp") in
  let? version := seat_text version in
  let? purpose := seat_text (bstr "translate MCP desktop tools") in
  Ok {| Hello_protocol := protocol; Hello_revision := PROTOCOL_REVISION;
        Hello_peer := {| PeerInfo_name := name; PeerInfo_version := version; PeerInfo_purpose := purpose |};
        Hello_requested := requested |}.

Context {W : Type} `{SeatStreams W} (version : str).

(** The stream is dropped when what follows fails. *)
Definition or_close {A} (stream : Stream) (m : M W SeatError A) : M W SeatError A := λ w,
  match m w with
  | (Ok a, w) => (Ok a, w)
  | (Err error, w) => (Err error, close_stream stream w)
  end.

Definition Seat_from_stream (stream : Stream) : M W SeatError Seat :=
  or_close stream
    (map_error (λ error, unavailable ("cannot bound provider I/O: " +:+ error))
       (set_stream_read_timeout stream IO_TIMEOUT ;! set_stream_write_timeout stream IO_TIMEOUT) ;!
     let! hello := lift (hello version) in
     map_error codec_error (send stream (ClientMessage_Hello hello)) ;!
     let! frame := map_error codec_error (receive_frame stream) in
     let! welcome := match frame with
                     | ReadFrame_Message (ServerMessage_Welcome welcome) => ret welcome
                     | ReadFrame_Message (ServerMessage_Goodbye goodbye) =>
                         fail (goodbye_error "provider refused the session" goodbye)
                     | ReadFrame_Message (ServerMessage_Response _) =>
                         fail (malformed "provider responded before opening the session")
                     | ReadFrame_CleanEof => fail (unavailable "provider closed during session opening")
                     end in
     map_error malformed (lift (Welcome_validate welcome)) ;!
     ret {| Seat_stream := stream; Seat_next_request := 1 |}).

(** A path is shown as its bytes. *)
Definition Seat_connect (path : str) : M W SeatError Seat :=
  let! stream := map_error (λ error, unavailable ("cannot connect to " +:+ string_of_str path +:+ ": " +:+ error))
                   (connect_stream path) in
  Seat_from_stream stream.

(** What is said of the answer to the request [id]. *)
Definition paired_response (id : RequestId) (frame : ReadFrame ServerMessage) : result Response SeatError :=
  match frame with
  | ReadFrame_Message (ServerMessage_Response response) =>
      if Response_id response =? id then Ok response
      else Err (malformed "provider response identity does not match the request")
  | ReadFrame_Message (ServerMessage_Goodbye goodbye) =>
      Err (goodbye_error "provider closed the session" goodbye)
  | ReadFrame_Message (ServerMessage_Welcome _) => Err (malformed "provider repeated the opening response")
  | ReadFrame_CleanEof => Err (unavailable "provider closed before responding")
  end.

(** On the seat and the world. *)
Definition on_world {S E A} (m : M W E A) : M (S * W) E A := zoom snd (λ w s, (fst s, w)) m.

Definition Seat_call (call : Call) : M (Seat * W) SeatError Response :=
  let long_input := match call with Call_KeyboardWrite _ => true | _ => false end in
  let! stream := gets (λ s, Seat_stream (fst s)) in
  (if long_input
   then map_error (λ error, unavailable ("cannot extend provider I/O bound: " +:+ error))
          (on_world (set_stream_read_timeout stream LONG_INPUT_TIMEOUT))
   else ret tt) ;!
  let! id := gets (λ s, Seat_next_request (fst s)) in
  let! next := lift (ok_or (checked_u64 (id + 1)) (internal "provider request identity space is exhausted")) in
  modify (λ s, ({| Seat_stream := stream; Seat_next_request := next |}, snd s)) ;!
  map_error codec_error
    (on_world (send stream (ClientMessage_Request {| Request_id := id; Request_call := call |}))) ;!
  let! frame := map_error codec_error (on_world (receive_frame stream)) in
  let response := paired_response id frame in
  (if long_input
   then map_error (λ error, unavailable ("cannot restore provider I/O bound: " +:+ error))
          (on_world (set_stream_read_timeout stream IO_TIMEOUT))
   else ret tt) ;!
  lift response.
End seat.
