(* ===== verification/Mcp.v ===== *)
(** * [agent-seat-mcp/src/mcp.rs]: the MCP companion

    A JSON-RPC server on standard input and output, in two protocol eras: a legacy client
    has one implicit provider session, a modern client names bounded contexts.  The JSON
    library, with the conversions it derives, is a parameter ([Serde]); so are the lines of
    standard input and the writing of standard output. *)

From stdpp Require Import gmap list.
From S2P Require Import Prelude Text Bounded Protocol Effects Codec Message Json McpTools SeatClient Discovery.

Definition MODERN_MCP_VERSION : str := bstr "2026-07-28".
Definition LEGACY_MCP_VERSION : str := bstr "2025-11-25".
Definition SUPPORTED_MCP_VERSIONS : list str := [MODERN_MCP_VERSION; LEGACY_MCP_VERSION].
Definition MODERN_PROTOCOL_VERSION : str := bstr "io.modelcontextprotocol/protocolVersion".
Definition MODERN_CLIENT_INFO : str := bstr "io.modelcontextprotocol/clientInfo".
Definition MODERN_CLIENT_CAPABILITIES : str := bstr "io.modelcontextprotocol/clientCapabilities".
Definition STATIC_RESULT_TTL_MS : Z := 3600000.
Definition MAX_MODERN_CONTEXTS : Z := 8.
Definition MAX_POINTER_SLOTS : Z := 32.
Definition MAX_POINTER_SLOT_NAME_BYTES : Z := 64.
Definition MAX_MCP_LINE_BYTES : Z := 1024 * 1024.

Definition CAPTURE_INTERACTIVITY_WARNING : string :=
  "Target-owned pixels may be covered by another client and do not prove visibility, "
  +:+ "focus, or interactivity. Inspect every mutation result. After an action that may open a "
  +:+ "dialog or window, take desktop_snapshot and handle its active or newly added client "
  +:+ "before more input.".

(** What both texts of [instructions] begin with. *)
Definition INSTRUCTIONS : string :=
  "Use seat_status, then observe. Inspect every mutation result; never batch or discard "
  +:+ "it. Captures are target-owned and can show pixels behind dialogs, so they do not prove "
  +:+ "visibility, focus, or interactivity. After an action that may open a dialog/window, or "
  +:+ "when behavior is unexpected, take desktop_snapshot and handle active/new clients before "
  +:+ "more input. Prefer focused key commands, titles, and small regions. Use text_insert for "
  +:+ "exact multilingual or long text; it replaces clipboard ownership and reports delivery, "
  +:+ "not insertion. Never mutate XKB or bypass Agent Seat through a shell/browser clipboard. "
  +:+ "Save a pointer slot only after verifying its click; reobserve changed UI. On "
  +:+ "unavailable/reconnect, stale_context, stale, or timed_out, call seat_status and "
  +:+ "reobserve; never replay an old client ID or assume a failed mutation did not occur. ".

(** ** Messages *)

Record RpcRequest := {
  RpcRequest_jsonrpc : str;
  RpcRequest_id : option Value;
  RpcRequest_method : str;
  RpcRequest_params : Value
}.

(** [_meta] is decoded and not looked at. *)
Record InitializeParams := {
  InitializeParams_protocol_version : str;
  InitializeParams_capabilities : Value;
  InitializeParams_client_info : Value;
  InitializeParams_meta : option Value
}.
Record DiscoverParams := { DiscoverParams_meta : Value }.
Record ListToolsParams := { ListToolsParams_cursor : option str; ListToolsParams_meta : option Value }.
Record CallToolParams := {
  CallToolParams_name : str;
  CallToolParams_arguments : option Value;
  CallToolParams_meta : option Value
}.

Record PointerSlotSaveRequest := {
  PointerSlotSaveRequest_name : str;
  PointerSlotSaveRequest_client : ClientId;
  PointerSlotSaveRequest_generation : Generation;
  PointerSlotSaveRequest_x : Z;
  PointerSlotSaveRequest_y : Z;
  PointerSlotSaveRequest_button : PointerButton
}.
Record PointerSlotReplayRequest := {
  PointerSlotReplayRequest_name : str;
  PointerSlotReplayRequest_generation : Generation
}.

Inductive ToolContent :=
| ToolContent_Text (text : str)
| ToolContent_Image (data : str). (* of type image/png *)

Record ToolResult := {
  ToolResult_content : list ToolContent;
  ToolResult_structured_content : Value;
  ToolResult_is_error : bool
}.

(** What [RpcResult] carries. *)
Inductive Payload :=
| Payload_Value (value : Value)
| Payload_Tool (result : ToolResult)
| Payload_Tools (tools : list Tool).

(** [RpcResult], [RpcError] with its [ErrorBody]; both of [jsonrpc] 2.0. *)
Inductive RpcReply :=
| RpcReply_Result (id : Value) (result : Payload)
| RpcReply_Error (id : Value) (code : Z) (message : string) (data : option Value).

(** ** The JSON library *)

(** [serde_json::from_value::<T>] *)
Class FromValue (T : Type) := from_value : Value → result T string.

Class Serde := {
  (** [from_str::<Value>], [Value::to_string] *)
  parse_json : str → option Value;
  print_json : Value → str;
  from_RpcRequest :: FromValue RpcRequest;
  from_InitializeParams :: FromValue InitializeParams;
  from_DiscoverParams :: FromValue DiscoverParams;
  from_ListToolsParams :: FromValue ListToolsParams;
  from_CallToolParams :: FromValue CallToolParams;
  from_PointerSlotSaveRequest :: FromValue PointerSlotSaveRequest;
  from_PointerSlotReplayRequest :: FromValue PointerSlotReplayRequest;
  from_Empty :: FromValue Empty;
  from_SubscribeRequest :: FromValue SubscribeRequest;
  from_PollRequest :: FromValue PollRequest;
  from_TargetRequest :: FromValue TargetRequest;
  from_WorkspaceRequest :: FromValue WorkspaceRequest;
  from_ClientWorkspaceRequest :: FromValue ClientWorkspaceRequest;
  from_ClientStateRequest :: FromValue ClientStateRequest;
  from_ClientGeometryRequest :: FromValue ClientGeometryRequest;
  from_ApplicationListRequest :: FromValue ApplicationListRequest;
  from_ApplicationLaunchRequest :: FromValue ApplicationLaunchRequest;
  from_PointerMoveRequest :: FromValue PointerMoveRequest;
  from_PointerClickRequest :: FromValue PointerClickRequest;
  from_KeyboardTypeRequest :: FromValue KeyboardTypeRequest;
  from_KeyboardWriteRequest :: FromValue KeyboardWriteRequest;
  from_KeyboardKeyRequest :: FromValue KeyboardKeyRequest;
  from_TextInsertRequest :: FromValue TextInsertRequest;
  from_CaptureRegionRequest :: FromValue CaptureRegionRequest;
  (** [to_value] *)
  outcome_value : Outcome → result Value string;
  tool_result_value : ToolResult → result Value string;
  tool_list_value : list Tool → result Value string;
  (** of the parts of replies in [json!] *)
  click_value : PointerClickRequest → Value;
  target_value : TargetRequest → Value;
  region_value : CaptureRegion → Value;
  format_value : CaptureFormat → Value
}.

(** Standard input and output. *)
Class Stdio (W : Type) := {
  (** [take(limit).read_line(..)]: the line with its end, empty at the end of input *)
  read_line : Z → M W string str;
  (** [serde_json::to_writer], [write_all], [flush] *)
  write_value : RpcReply → M W string unit;
  write_bytes : bytes → M W string unit;
  flush_output : M W string unit
}.

(** ** Contexts *)

Record ProviderFailure := {
  ProviderFailure_code : string;
  ProviderFailure_retry : string;
  ProviderFailure_message : string
}.

Definition provider_error (code retry message : string) : ProviderFailure :=
  {| ProviderFailure_code := code; ProviderFailure_retry := retry; ProviderFailure_message := message |}.

Definition unavailable_provider_session : ProviderFailure :=
  provider_error "unavailable" "reconnect" "provider session is unavailable".
Definition ended_modern_provider_session : ProviderFailure :=
  provider_error "stale_context" "reconnect"
    ("provider session ended; this context and its client IDs are invalid. Call seat_status, reobserve, "
     +:+ "and decide whether to retry; the previous call's outcome may be unknown").
Definition ended_legacy_provider_session : ProviderFailure :=
  provider_error "unavailable" "reconnect"
    ("provider session ended; call seat_status and reobserve before deciding whether to retry; the "
     +:+ "previous call's outcome may be unknown").
Definition legacy_status_required : ProviderFailure :=
  provider_error "unavailable" "reconnect"
    ("the previous provider session ended; call seat_status and reobserve before using any client ID").
Definition stale_context : ProviderFailure :=
  provider_error "stale_context" "reconnect" "Agent Seat context is unknown or expired".

Record ProviderSession := {
  ProviderSession_seat : Seat;
  ProviderSession_pointer_slots : StrMap PointerClickRequest
}.

Definition ProviderSession_new (seat : Seat) : ProviderSession :=
  {| ProviderSession_seat := seat; ProviderSession_pointer_slots := [] |}.

(** [BTreeMap<u64, T>] *)
Record Contexts (T : Type) := {
  Contexts_limit : Z;
  Contexts_next : Z;
  Contexts_entries : gmap Z T
}.
Arguments Contexts_limit {T}.
Arguments Contexts_next {T}.
Arguments Contexts_entries {T}.

Section contexts.
Context {T : Type}.

Definition Contexts_new (limit : Z) : Contexts T :=
  {| Contexts_limit := limit; Contexts_next := 1; Contexts_entries := ∅ |}.

Definition Contexts_is_full (self : Contexts T) : bool :=
  Contexts_limit self <=? Z.of_nat (size (Contexts_entries self)).

Definition Contexts_insert (value : T) : M (Contexts T) ProviderFailure Z := λ self,
  if Contexts_is_full self
  then (Err (provider_error "capacity" "reconnect"
               ("context limit " +:+ decimal (Contexts_limit self) +:+ " reached")), self)
  else
    let context := Contexts_next self in
    match checked_u64 (context + 1) with
    | None => (Err (provider_error "capacity" "reconnect" "context identity space is exhausted"), self)
    | Some next =>
        (Ok context, {| Contexts_limit := Contexts_limit self; Contexts_next := next;
                        Contexts_entries := <[context := value]> (Contexts_entries self) |})
    end.

Definition Contexts_put (context : Z) (value : T) (self : Contexts T) : Contexts T :=
  {| Contexts_limit := Contexts_limit self; Contexts_next := Contexts_next self;
     Contexts_entries := <[context := value]> (Contexts_entries self) |}.

(** The map after [remove]; the value removed is the one [get_mut] finds. *)
Definition Contexts_remove (context : Z) (self : Contexts T) : Contexts T :=
  {| Contexts_limit := Contexts_limit self; Contexts_next := Contexts_next self;
     Contexts_entries := delete context (Contexts_entries self) |}.

Definition Contexts_get_mut (self : Contexts T) (context : Z) : option T := Contexts_entries self !! context.
End contexts.

(** ** Checks *)

Definition valid_pointer_slot_name (name : str) : bool :=
  negb (is_empty name) && (len name <=? MAX_POINTER_SLOT_NAME_BYTES)
  && forallb (λ b, is_ascii_alphanumeric b || (b =? 46) || (b =? 95) || (b =? 45)) name.

Definition is_pointer_slot_tool (name : str) : bool :=
  bool_decide (name ∈ [bstr "pointer_slot_save"; bstr "pointer_slot_replay"; bstr "pointer_slots_list"]).

Definition valid_id (id : option Value) : bool :=
  match id with
  | None | Some (Value_String _) => true
  | Some (Value_Number number) =>
      bool_decide (is_Some (as_i64 number)) || bool_decide (is_Some (as_u64 number))
  | _ => false
  end.

Definition valid_implementation (value : Value) : bool :=
  match value_object value with
  | None => false
  | Some fields =>
      forallb (λ field, match map_get (bstr field) fields ≫= value_str with
                        | Some text => negb (is_empty text) && (len text <=? 128)
                        | None => false
                        end) ["name"%string; "version"%string]
  end.

Inductive ModernMetadataError :=
| ModernMetadataError_Invalid
| ModernMetadataError_Unsupported (requested : str).

Definition metadata_of (params : Value) : option (StrMap Value) := value_get (bstr "_meta") params ≫= value_object.

Definition has_modern_version (params : Value) : bool :=
  match metadata_of params with
  | Some metadata => bool_decide (is_Some (map_get MODERN_PROTOCOL_VERSION metadata))
  | None => false
  end.

Definition validate_modern_metadata (params : Value) : result unit ModernMetadataError :=
  let? metadata := ok_or (metadata_of params) ModernMetadataError_Invalid in
  let? requested := ok_or (map_get MODERN_PROTOCOL_VERSION metadata ≫= value_str) ModernMetadataError_Invalid in
  if bool_decide (requested ≠ MODERN_MCP_VERSION) then Err (ModernMetadataError_Unsupported requested)
  else if negb (match map_get MODERN_CLIENT_CAPABILITIES metadata with
                | Some capabilities => is_object capabilities
                | None => false
                end) then Err ModernMetadataError_Invalid
  else if match map_get MODERN_CLIENT_INFO metadata with
          | Some client => negb (valid_implementation client)
          | None => false
          end then Err ModernMetadataError_Invalid
  else Ok tt.

(** The context, and the arguments without it. *)
Definition take_context (arguments : option Value) : result (option Z * option Value) string :=
  let? arguments := match arguments with
                    | None => Ok []
                    | Some (Value_Object arguments) => Ok arguments
                    | Some _ => Err "tool arguments must be an object"%string
                    end in
  let? context := match map_get (bstr "context") arguments with
                  | Some (Value_Number number) =>
                      match as_u64 number with
                      | Some value => if value =? 0 then Err "context must be a positive integer"%string
                                      else Ok (Some value)
                      | None => Err "context must be a positive integer"%string
                      end
                  | Some _ => Err "context must be a positive integer"%string
                  | None => Ok None
                  end in
  Ok (context, Some (Value_Object (map_remove (bstr "context") arguments))).

Definition outcome_requires_reconnect (outcome : Outcome) : bool :=
  match outcome with
  | Outcome_Error error => bool_decide (ProtocolError_retry error = Retry_Reconnect)
  | _ => false
  end.

(** ** Tool results *)

Section mcp.
Context `{Serde}.

Definition tool_result (structured_content : Value) (is_error : bool) : ToolResult :=
  {| ToolResult_content := [ToolContent_Text (print_json structured_content)];
     ToolResult_structured_content := structured_content; ToolResult_is_error := is_error |}.

Definition tool_error (code retry message : string) : ToolResult :=
  tool_result
    (json_object [("status"%string, json_str "error");
                  ("body"%string, json_object [("code"%string, json_str code);
                                               ("retry"%string, json_str retry);
                                               ("message"%string, json_str message)])]) true.

Definition tool_failure (error : ProviderFailure) : ToolResult :=
  tool_error (ProviderFailure_code error) (ProviderFailure_retry error) (ProviderFailure_message error).

Definition capture_content (data : str) : list ToolContent :=
  [ToolContent_Image data; ToolContent_Text (bstr CAPTURE_INTERACTIVITY_WARNING)].

Definition capture_structure (kind : string) (value : Value) : Value :=
  json_object [("status"%string, json_str "ok");
               ("body"%string, json_object [("kind"%string, json_str kind); ("value"%string, value)])].

Definition tool_outcome (outcome : Outcome) : ToolResult :=
  match outcome with
  | Outcome_Ok (Reply_Capture capture) =>
      {| ToolResult_content := capture_content (as_str (CaptureReply_data capture));
         ToolResult_structured_content := capture_structure "capture"
           (json_object [("target"%string, target_value (CaptureReply_target capture));
                         ("width"%string, json_uint (CaptureReply_width capture));
                         ("height"%string, json_uint (CaptureReply_height capture));
                         ("format"%string, format_value (CaptureReply_format capture))]);
         ToolResult_is_error := false |}
  | Outcome_Ok (Reply_CaptureRegion capture) =>
      {| ToolResult_content := capture_content (as_str (CaptureRegionReply_data capture));
         ToolResult_structured_content := capture_structure "capture_region"
           (json_object [("target"%string, target_value (CaptureRegionReply_target capture));
                         ("region"%string, region_value (CaptureRegionReply_region capture));
                         ("format"%string, format_value (CaptureRegionReply_format capture))]);
         ToolResult_is_error := false |}
  | _ =>
      match outcome_value outcome with
      | Ok structured_content =>
          tool_result structured_content (match outcome with Outcome_Error _ => true | _ => false end)
      | Err error => tool_error "internal" "never" error
      end
  end.

(** The first content, when it is text, is printed again. *)
Definition with_context (context : Z) (self : ToolResult) : ToolResult :=
  let structured_content :=
    match ToolResult_structured_content self with
    | Value_Object fields => Value_Object (map_insert (bstr "context") (json_uint context) fields)
    | other => other
    end in
  {| ToolResult_content := match ToolResult_content self with
                           | ToolContent_Text _ :: content =>
                               ToolContent_Text (print_json structured_content) :: content
                           | content => content
                           end;
     ToolResult_structured_content := structured_content;
     ToolResult_is_error := ToolResult_is_error self |}.

Definition requires_provider_reconnect (self : ToolResult) : bool :=
  match value_index (bstr "retry") (value_index (bstr "body") (ToolResult_structured_content self)) with
  | Value_String retry => bool_decide (retry = bstr "reconnect")
  | _ => false
  end.

(** [env!("CARGO_PKG_VERSION")] is a parameter. *)
Context (version : str).

Definition server_info : Value :=
  json_object [("name"%string, json_str "agent-seat-mcp"); ("title"%string, json_str "Agent Seat");
               ("version"%string, Value_String version)].

Definition modern_result (value : Value) : Value :=
  match value with
  | Value_Object fields =>
      Value_Object
        (map_insert (bstr "_meta") (json_object [("io.modelcontextprotocol/serverInfo"%string, server_info)])
           (map_insert (bstr "resultType") (json_str "complete") fields))
  | other => other
  end.

Definition modern_result_with (value extra : Value) : result Value string :=
  match value with
  | Value_Object fields =>
      match extra with
      | Value_Object extra => Ok (modern_result (Value_Object (extend fields extra)))
      | _ => Err "modern MCP result fields must be an object"%string
      end
  | _ => Err "modern MCP result must be an object"%string
  end.

Definition modern_tool_result (result : ToolResult) : Value :=
  match tool_result_value result with
  | Ok value => modern_result value
  | Err error =>
      modern_result
        (json_object [("content"%string, json_array [json_object [("type"%string, json_str "text");
                                                                  ("text"%string, json_str error)]]);
                      ("isError"%string, json_bool true)])
  end.

(** ** Tool calls *)

Inductive CallError :=
| CallError_UnknownTool
| CallError_Arguments (message : string).

(** [arguments!(T, variant)] *)
Definition decode_as {T} `{FromValue T} (variant : T → Call) (arguments : Value) : result Call CallError :=
  map_err CallError_Arguments (result_map variant (from_value arguments)).

(** The arms of the match, by the tool they name. *)
Definition call_decoders : list (string * (Value → result Call CallError)) :=
  [("seat_status"%string, decode_as Call_SeatStatus);
   ("desktop_snapshot"%string, decode_as Call_DesktopSnapshot);
   ("events_subscribe"%string, decode_as Call_EventsSubscribe);
   ("events_poll"%string, decode_as Call_EventsPoll);
   ("client_activate"%string, decode_as Call_ClientActivate);
   ("client_close"%string, decode_as Call_ClientClose);
   ("workspace_switch"%string, decode_as Call_WorkspaceSwitch);
   ("client_workspace"%string, decode_as Call_ClientWorkspace);
   ("client_state"%string, decode_as Call_ClientState);
   ("client_geometry"%string, decode_as Call_ClientGeometry);
   ("applications_list"%string, decode_as Call_ApplicationsList);
   ("application_launch"%string, decode_as Call_ApplicationLaunch);
   ("pointer_move"%string, decode_as Call_PointerMove);
   ("pointer_click"%string, decode_as Call_PointerClick);
   ("keyboard_type"%string, decode_as Call_KeyboardType);
   ("keyboard_write"%string, decode_as Call_KeyboardWrite);
   ("keyboard_key"%string, decode_as Call_KeyboardKey);
   ("text_insert"%string, decode_as Call_TextInsert);
   ("capture_obscured"%string, decode_as Call_CaptureObscured);
   ("capture_region"%string, decode_as Call_CaptureRegion)].

Definition decoder (name : str) : option (Value → result Call CallError) :=
  snd <$> find (λ p, bool_decide (bstr (fst p) = name)) call_decoders.

Definition translate_call (name : str) (arguments : option Value) : result Call CallError :=
  let arguments := default (json_object []) arguments in
  let? call := match decoder name with
               | Some decode => decode arguments
               | None => Err CallError_UnknownTool
               end in
  map_err CallError_Arguments (Call_validate call) ;?
  Ok call.

(** ** Provider sessions *)

Context {W : Type} `{SeatStreams W, DiscoveryServer W, Stdio W} (io_text : ErrorKind → string).

Definition seat_failure (error : SeatError) : ProviderFailure :=
  provider_error (ErrorCode_as_str (SeatError_code error)) (Retry_as_str (SeatError_retry error))
    (SeatError_message error).
Definition discovery_failure (error : DiscoveryError) : ProviderFailure :=
  provider_error (DiscoveryError_code error) (DiscoveryError_retry error) (DiscoveryError_to_string error).

Definition call_seat (call : Call) : M (Seat * W) ProviderFailure Outcome :=
  let! response := map_error seat_failure (Seat_call io_text call) in
  ret (Response_outcome response).

(** On the seat of a session. *)
Definition on_seat {E A} (m : M (Seat * W) E A) : M (ProviderSession * W) E A :=
  zoom (λ s, (ProviderSession_seat (fst s), snd s))
    (λ s t, ({| ProviderSession_seat := fst s;
                ProviderSession_pointer_slots := ProviderSession_pointer_slots (fst t) |}, snd s)) m.

Definition set_slots (slots : StrMap PointerClickRequest) : M (ProviderSession * W) ProviderFailure unit :=
  modify (λ s, ({| ProviderSession_seat := ProviderSession_seat (fst s);
                   ProviderSession_pointer_slots := slots |}, snd s)).

Definition pointer_slot_save (arguments : Value) : M (ProviderSession * W) ProviderFailure ToolResult :=
  match from_value arguments : result PointerSlotSaveRequest string with
  | Err error => ret (tool_error "invalid_argument" "never" error)
  | Ok request =>
      let name := PointerSlotSaveRequest_name request in
      if negb (valid_pointer_slot_name name)
      then ret (tool_error "invalid_argument" "never"
                  ("slot name must be 1 to 64 bytes of ASCII letters, digits, '.', '_', or '-'"))
      else
        let action := {|
          PointerClickRequest_target := {|
            TargetRequest_client := PointerSlotSaveRequest_client request;
            TargetRequest_generation := PointerSlotSaveRequest_generation request |};
          PointerClickRequest_x := PointerSlotSaveRequest_x request;
          PointerClickRequest_y := PointerSlotSaveRequest_y request;
          PointerClickRequest_button := PointerSlotSaveRequest_button request |} in
        match PointerClickRequest_validate action with
        | Err error => ret (tool_error "invalid_argument" "never" error)
        | Ok _ =>
            let! slots := gets (λ s, ProviderSession_pointer_slots (fst s)) in
            let replaced := bool_decide (is_Some (map_get name slots)) in
            if (MAX_POINTER_SLOTS <=? Z.of_nat (length slots)) && negb replaced
            then ret (tool_error "capacity" "never" "pointer action slot limit 32 reached")
            else
              set_slots (map_insert name action slots) ;!
              ret (tool_result
                     (json_object [("status"%string, json_str "ok");
                        ("body"%string, json_object [("kind"%string, json_str "pointer_slot_saved");
                           ("value"%string, json_object [("name"%string, Value_String name);
                                                         ("action"%string, click_value action);
                                                         ("replaced"%string, json_bool replaced)])])]) false)
        end
  end.

Definition pointer_slot_replay (arguments : Value) : M (ProviderSession * W) ProviderFailure ToolResult :=
  match from_value arguments : result PointerSlotReplayRequest string with
  | Err error => ret (tool_error "invalid_argument" "never" error)
  | Ok request =>
      if negb (valid_pointer_slot_name (PointerSlotReplayRequest_name request))
      then ret (tool_error "invalid_argument" "never" "slot name is invalid")
      else
        let! slots := gets (λ s, ProviderSession_pointer_slots (fst s)) in
        match map_get (PointerSlotReplayRequest_name request) slots with
        | None => ret (tool_error "not_found" "refresh" "pointer action slot is unknown in this provider session")
        | Some action =>
            let action := {|
              PointerClickRequest_target := {|
                TargetRequest_client := TargetRequest_client (PointerClickRequest_target action);
                TargetRequest_generation := PointerSlotReplayRequest_generation request |};
              PointerClickRequest_x := PointerClickRequest_x action;
              PointerClickRequest_y := PointerClickRequest_y action;
              PointerClickRequest_button := PointerClickRequest_button action |} in
            let! outcome := on_seat (call_seat (Call_PointerClick action)) in
            ret (tool_outcome outcome)
        end
  end.

Definition pointer_slots_list (arguments : Value) : M (ProviderSession * W) ProviderFailure ToolResult :=
  match from_value arguments : result Empty string with
  | Err _ => ret (tool_error "invalid_argument" "never" "pointer_slots_list accepts no arguments")
  | Ok _ =>
      let! slots := gets (λ s, ProviderSession_pointer_slots (fst s)) in
      ret (tool_result
             (json_object [("status"%string, json_str "ok");
                ("body"%string, json_object [("kind"%string, json_str "pointer_slots");
                   ("value"%string, json_object [("limit"%string, json_uint MAX_POINTER_SLOTS);
                      ("slots"%string, json_array
                         ((λ '(name, action), json_object [("name"%string, Value_String name);
                                                           ("action"%string, click_value action)])
                          <$> slots))])])]) false)
  end.

Definition pointer_slot_call (name : str) (arguments : option Value)
  : M (ProviderSession * W) ProviderFailure ToolResult :=
  let arguments := default (json_object []) arguments in
  if bool_decide (name = bstr "pointer_slot_save") then pointer_slot_save arguments
  else if bool_decide (name = bstr "pointer_slot_replay") then pointer_slot_replay arguments
  else if bool_decide (name = bstr "pointer_slots_list") then pointer_slots_list arguments
  else ret (tool_error "invalid_argument" "never" "unknown local tool").

(** ** The server *)

Record Server := {
  Server_socket : option str;
  Server_inherited_seat : option Seat;
  Server_legacy_session : option ProviderSession;
  Server_legacy_recovery_required : bool;
  Server_legacy_negotiated : bool;
  Server_legacy_initialized : bool;
  Server_modern_contexts : Contexts ProviderSession
}.

Definition Server_new (socket : option str) (seat : option Seat) : Server := {|
  Server_socket := socket; Server_inherited_seat := seat; Server_legacy_session := None;
  Server_legacy_recovery_required := false; Server_legacy_negotiated := false;
  Server_legacy_initialized := false; Server_modern_contexts := Contexts_new MAX_MODERN_CONTEXTS |}.

Definition set_inherited (seat : option Seat) (s : Server) : Server := {|
  Server_socket := Server_socket s; Server_inherited_seat := seat;
  Server_legacy_session := Server_legacy_session s;
  Server_legacy_recovery_required := Server_legacy_recovery_required s;
  Server_legacy_negotiated := Server_legacy_negotiated s;
  Server_legacy_initialized := Server_legacy_initialized s;
  Server_modern_contexts := Server_modern_contexts s |}.
Definition set_legacy (session : option ProviderSession) (recovery : bool) (s : Server) : Server := {|
  Server_socket := Server_socket s; Server_inherited_seat := Server_inherited_seat s;
  Server_legacy_session := session; Server_legacy_recovery_required := recovery;
  Server_legacy_negotiated := Server_legacy_negotiated s;
  Server_legacy_initialized := Server_legacy_initialized s;
  Server_modern_contexts := Server_modern_contexts s |}.
Definition set_phase (negotiated initialized : bool) (s : Server) : Server := {|
  Server_socket := Server_socket s; Server_inherited_seat := Server_inherited_seat s;
  Server_legacy_session := Server_legacy_session s;
  Server_legacy_recovery_required := Server_legacy_recovery_required s;
  Server_legacy_negotiated := negotiated; Server_legacy_initialized := initialized;
  Server_modern_contexts := Server_modern_contexts s |}.
Definition set_contexts (contexts : Contexts ProviderSession) (s : Server) : Server := {|
  Server_socket := Server_socket s; Server_inherited_seat := Server_inherited_seat s;
  Server_legacy_session := Server_legacy_session s;
  Server_legacy_recovery_required := Server_legacy_recovery_required s;
  Server_legacy_negotiated := Server_legacy_negotiated s;
  Server_legacy_initialized := Server_legacy_initialized s; Server_modern_contexts := contexts |}.

Notation S := (Server * W)%type.

Definition server {E A} (f : Server → A) : M S E A := gets (λ s, f (fst s)).
Definition update {E} (f : Server → Server) : M S E unit := modify (λ s, (f (fst s), snd s)).

Definition close_session (session : ProviderSession) (w : W) : W :=
  close_stream (Seat_stream (ProviderSession_seat session)) w.

Definition connect_seat : M S ProviderFailure Seat :=
  let! inherited := server Server_inherited_seat in
  match inherited with
  | Some seat => update (set_inherited None) ;! ret seat
  | None =>
      let! socket := server Server_socket in
      let! path := map_error discovery_failure (on_world (resolve socket)) in
      match path with
      | None => fail (provider_error "unavailable" "reconnect" "no live Agent Seat provider is advertised")
      | Some path => map_error seat_failure (on_world (Seat_connect io_text version path))
      end
  end.

(** Contexts of modern clients *)

(** A session that the server does not hold yet is dropped when the operation fails. *)
Definition on_fresh {A} (session : ProviderSession) (m : M (ProviderSession * W) ProviderFailure A)
  : M S ProviderFailure (A * ProviderSession) := λ '(s, w),
  match m (session, w) with
  | (Ok a, (session, w)) => (Ok (a, session), (s, w))
  | (Err error, (session, w)) => (Err error, (s, close_session session w))
  end.

Definition insert_context (session : ProviderSession) : M S ProviderFailure Z := λ '(s, w),
  match Contexts_insert session (Server_modern_contexts s) with
  | (Ok context, contexts) => (Ok context, (set_contexts contexts s, w))
  | (Err error, contexts) => (Err error, (set_contexts contexts s, close_session session w))
  end.

(** Whether there was such a context. *)
Definition remove_context {E} (context : Z) : M S E bool := λ '(s, w),
  let contexts := Server_modern_contexts s in
  match Contexts_get_mut contexts context with
  | Some session => (Ok true, (set_contexts (Contexts_remove context contexts) s, close_session session w))
  | None => (Ok false, (s, w))
  end.

(** [match self.modern_contexts.get_mut(context) { .. }]: the result of what is done with it *)
Definition on_context {A} (context : Z) (m : M (ProviderSession * W) ProviderFailure A)
  : M S ProviderFailure (result A ProviderFailure) := λ '(s, w),
  let contexts := Server_modern_contexts s in
  match Contexts_get_mut contexts context with
  | None => (Err stale_context, (s, w))
  | Some session =>
      let '(result, (session, w)) := m (session, w) in
      (Ok result, (set_contexts (Contexts_put context session contexts) s, w))
  end.

Definition create_modern_context (call : Call) : M S ProviderFailure (Z * Outcome) :=
  let! full := server (λ s, Contexts_is_full (Server_modern_contexts s)) in
  if (full : bool)
  then fail (provider_error "capacity" "reconnect"
               ("modern Agent Seat context limit " +:+ decimal MAX_MODERN_CONTEXTS +:+ " reached"))
  else
    let! seat := connect_seat in
    let! '(outcome, session) := on_fresh (ProviderSession_new seat) (on_seat (call_seat call)) in
    let! context := insert_context session in
    ret (context, outcome).

(** [match result { .. }], for both kinds of calls: [reconnect] says that the provider asked
    for a new session. *)
Definition settle_modern {A} (context : Z) (reconnect : A → bool) (result : result A ProviderFailure)
  : M S ProviderFailure A :=
  match result with
  | Ok outcome =>
      let! _ := if reconnect outcome then remove_context context else ret false in
      ret outcome
  | Err _ => let! _ := remove_context context in fail ended_modern_provider_session
  end.

Definition provider_call_modern (context : Z) (call : Call) : M S ProviderFailure Outcome :=
  let! result := on_context context (on_seat (call_seat call)) in
  settle_modern context outcome_requires_reconnect result.

Definition pointer_slot_modern (context : Z) (name : str) (arguments : option Value)
  : M S ProviderFailure ToolResult :=
  let! result := on_context context (pointer_slot_call name arguments) in
  settle_modern context requires_provider_reconnect result.

(** The session of a legacy client *)

Definition on_legacy {A} (m : M (ProviderSession * W) ProviderFailure A)
  : M S ProviderFailure (result A ProviderFailure) := λ '(s, w),
  match Server_legacy_session s with
  | None => (Err unavailable_provider_session, (s, w))
  | Some session =>
      let '(result, (session, w)) := m (session, w) in
      (Ok result, (set_legacy (Some session) (Server_legacy_recovery_required s) s, w))
  end.

(** [self.legacy_session = None; self.legacy_recovery_required = true] *)
Definition end_legacy {E} : M S E unit := λ '(s, w),
  (Ok tt, (set_legacy None true s,
           match Server_legacy_session s with Some session => close_session session w | None => w end)).

Definition open_legacy : M S ProviderFailure unit :=
  let! session := server Server_legacy_session in
  match session with
  | Some _ => ret tt
  | None =>
      let! seat := connect_seat in
      update (λ s, set_legacy (Some (ProviderSession_new seat)) (Server_legacy_recovery_required s) s)
  end.

Definition provider_call_legacy (call : Call) : M S ProviderFailure Outcome :=
  let is_status := match call with Call_SeatStatus _ => true | _ => false end in
  let! recovery_required := server Server_legacy_recovery_required in
  if recovery_required && negb is_status then fail legacy_status_required
  else
    open_legacy ;!
    let! result := on_legacy (on_seat (call_seat call)) in
    match result with
    | Ok outcome =>
        (if outcome_requires_reconnect outcome then end_legacy
         else if is_status && (match outcome with Outcome_Ok _ => true | _ => false end)
         then update (λ s, set_legacy (Server_legacy_session s) false s)
         else ret tt) ;!
        ret outcome
    | Err _ => end_legacy ;! fail ended_legacy_provider_session
    end.

Definition pointer_slot_legacy (name : str) (arguments : option Value) : M S ProviderFailure ToolResult :=
  let! recovery_required := server Server_legacy_recovery_required in
  if (recovery_required : bool) then fail legacy_status_required
  else
    open_legacy ;!
    let! result := on_legacy (pointer_slot_call name arguments) in
    match result with
    | Ok outcome => (if requires_provider_reconnect outcome then end_legacy else ret tt) ;! ret outcome
    | Err _ => end_legacy ;! fail ended_legacy_provider_session
    end.

(** ** Requests *)

Definition write_json (reply : RpcReply) : M S string unit :=
  map_error (λ error, "cannot encode MCP response: " +:+ error) (on_world (write_value reply)) ;!
  map_error (λ error, "cannot write MCP response: " +:+ error) (on_world (write_bytes [10] ;! flush_output)).

Definition write_result (id : Value) (result : Payload) : M S string unit :=
  write_json (RpcReply_Result id result).
Definition write_error (id : Value) (code : Z) (message : string) : M S string unit :=
  write_json (RpcReply_Error id code message None).
Definition write_error_data (id : Value) (code : Z) (message : string) (data : Value) : M S string unit :=
  write_json (RpcReply_Error id code message (Some data)).

(** What a tool call yields: the failure of the provider is a tool result. *)
Definition tool_or_failure {A} (show : A → ToolResult) (m : M S ProviderFailure A) : M S string ToolResult :=
  let! result := attempt m in
  ret (match result with Ok a => show a | Err error => tool_failure error end).

Definition tools_capability : Value :=
  json_object [("tools"%string, json_object [("listChanged"%string, json_bool false)])].

Definition initialize (id params : Value) : M S string unit :=
  let! negotiated := server Server_legacy_negotiated in
  if (negotiated : bool) then write_error id (-32600) "initialize was already completed"
  else
    match from_value params : result InitializeParams string with
    | Err _ => write_error id (-32602) "invalid initialize parameters"
    | Ok params =>
        if negb (is_object (InitializeParams_capabilities params))
           || negb (valid_implementation (InitializeParams_client_info params))
        then write_error id (-32602) "invalid initialize parameters"
        else
          update (λ s, set_phase true (Server_legacy_initialized s) s) ;!
          (** either way the version answered is the legacy one *)
          write_result id
            (Payload_Value
               (json_object [("protocolVersion"%string, Value_String LEGACY_MCP_VERSION);
                             ("capabilities"%string, tools_capability);
                             ("serverInfo"%string, server_info);
                             ("instructions"%string,
                              json_str (INSTRUCTIONS +:+ "The provider owns grants and policy."))]))
    end.

Definition discover (id params : Value) : M S string unit :=
  match from_value params : result DiscoverParams string with
  | Err _ => write_error id (-32602) "invalid server/discover parameters"
  | Ok _ =>
      write_result id
        (Payload_Value
           (modern_result
              (json_object [("supportedVersions"%string, json_array (Value_String <$> SUPPORTED_MCP_VERSIONS));
                            ("capabilities"%string, tools_capability);
                            ("instructions"%string,
                             json_str (INSTRUCTIONS +:+ "Report qualified work exactly."));
                            ("ttlMs"%string, json_uint STATIC_RESULT_TTL_MS);
                            ("cacheScope"%string, json_str "public")])))
  end.

Definition list_tools (id params : Value) (era : Era) : M S string unit :=
  let params := if is_null params then json_object [] else params in
  match from_value params : result ListToolsParams string with
  | Ok {| ListToolsParams_cursor := None |} =>
      match era with
      | Era_Legacy => write_result id (Payload_Tools (tools era))
      | Era_Modern =>
          let! value := lift (map_err (λ error, "cannot encode MCP tool list: " +:+ error)
                                (tool_list_value (tools era))) in
          let! result := lift (modern_result_with value
                                 (json_object [("ttlMs"%string, json_uint STATIC_RESULT_TTL_MS);
                                               ("cacheScope"%string, json_str "public")])) in
          write_result id (Payload_Value result)
      end
  | _ => write_error id (-32602) "invalid tools/list parameters"
  end.

Definition call_tool_legacy (id params : Value) : M S string unit :=
  match from_value params : result CallToolParams string with
  | Err _ => write_error id (-32602) "invalid tools/call parameters"
  | Ok params =>
      let name := CallToolParams_name params in
      let arguments := CallToolParams_arguments params in
      if is_pointer_slot_tool name then
        let! result := tool_or_failure (λ result, result) (pointer_slot_legacy name arguments) in
        write_result id (Payload_Tool result)
      else
        match translate_call name arguments with
        | Err CallError_UnknownTool => write_error id (-32602) "unknown tool"
        | Err (CallError_Arguments message) =>
            write_result id (Payload_Tool (tool_error "invalid_argument" "never" message))
        | Ok call =>
            let! result := tool_or_failure tool_outcome (provider_call_legacy call) in
            write_result id (Payload_Tool result)
        end
  end.

Definition write_modern (id : Value) (result : ToolResult) : M S string unit :=
  write_result id (Payload_Value (modern_tool_result result)).

Definition write_modern_call_error (id : Value) (error : CallError) : M S string unit :=
  match error with
  | CallError_UnknownTool => write_error id (-32602) "unknown tool"
  | CallError_Arguments message => write_modern id (tool_error "invalid_argument" "never" message)
  end.

Definition seat_release (id : Value) (context : option Z) (arguments : option Value) : M S string unit :=
  if match arguments ≫= value_object with Some fields => negb (is_empty fields) | None => false end
  then write_modern id (tool_error "invalid_argument" "never" "seat_release accepts only context")
  else
    let! result :=
      match context with
      | None => ret (tool_error "invalid_argument" "never" "context is required")
      | Some context =>
          let! removed := remove_context context in
          ret (if (removed : bool)
               then tool_result
                      (json_object [("status"%string, json_str "ok");
                         ("body"%string, json_object [("kind"%string, json_str "context_released");
                            ("value"%string, json_object [("context"%string, json_uint context)])])]) false
               else tool_failure stale_context)
      end in
    write_modern id result.

Definition seat_status (id : Value) (context : option Z) (name : str) (arguments : option Value)
  : M S string unit :=
  match context with
  | Some _ => write_modern id (tool_error "invalid_argument" "never" "seat_status does not accept a context")
  | None =>
      match translate_call name arguments with
      | Err error => write_modern_call_error id error
      | Ok call =>
          let! result := tool_or_failure
                           (λ '(context, outcome), with_context context (tool_outcome outcome))
                           (create_modern_context call) in
          write_modern id result
      end
  end.

Definition call_tool_modern (id params : Value) : M S string unit :=
  match from_value params : result CallToolParams string with
  | Err _ => write_error id (-32602) "invalid tools/call parameters"
  | Ok params =>
      let name := CallToolParams_name params in
      match take_context (CallToolParams_arguments params) with
      | Err message => write_modern id (tool_error "invalid_argument" "never" message)
      | Ok (context, arguments) =>
          if bool_decide (name = bstr "seat_release") then seat_release id context arguments
          else if bool_decide (name = bstr "seat_status") then seat_status id context name arguments
          else if is_pointer_slot_tool name then
            match context with
            | None => write_modern id (tool_error "invalid_argument" "never" "context is required")
            | Some context =>
                let! result := tool_or_failure (λ result, result) (pointer_slot_modern context name arguments) in
                write_modern id result
            end
          else
            match translate_call name arguments with
            | Err error => write_modern_call_error id error
            | Ok call =>
                match context with
                | None => write_modern id (tool_error "invalid_argument" "never" "context is required")
                | Some context =>
                    let! result := tool_or_failure tool_outcome (provider_call_modern context call) in
                    write_modern id result
                end
            end
      end
  end.

Definition handle_modern (id : Value) (method : str) (params : Value) : M S string unit :=
  match validate_modern_metadata params with
  | Err ModernMetadataError_Invalid => write_error id (-32602) "invalid modern request metadata"
  | Err (ModernMetadataError_Unsupported requested) =>
      write_error_data id (-32022) "Unsupported protocol version"
        (json_object [("supported"%string, json_array (Value_String <$> SUPPORTED_MCP_VERSIONS));
                      ("requested"%string, Value_String requested)])
  | Ok _ =>
      if bool_decide (method = bstr "server/discover") then discover id params
      else if bool_decide (method = bstr "tools/list") then list_tools id params Era_Modern
      else if bool_decide (method = bstr "tools/call") then call_tool_modern id params
      else write_error id (-32601) "method not found"
  end.

Definition handle_legacy (id : Value) (method : str) (params : Value) : M S string unit :=
  let! initialized := server Server_legacy_initialized in
  if bool_decide (method = bstr "ping") then write_result id (Payload_Value (json_object []))
  else if bool_decide (method = bstr "tools/list") && initialized then list_tools id params Era_Legacy
  else if bool_decide (method = bstr "tools/call") && initialized then call_tool_legacy id params
  else if bool_decide (method = bstr "tools/list") || bool_decide (method = bstr "tools/call")
  then write_error id (-32002) "server is not initialized"
  else write_error id (-32601) "method not found".

Definition handle (request : RpcRequest) : M S string unit :=
  let method := RpcRequest_method request in
  let params := RpcRequest_params request in
  if bool_decide (method = bstr "notifications/initialized") then
    let! negotiated := server Server_legacy_negotiated in
    if (negotiated : bool) then update (set_phase true true) else ret tt
  else if bool_decide (method = bstr "notifications/cancelled") then ret tt
  else
    match RpcRequest_id request with
    | None => ret tt
    | Some id =>
        if bool_decide (method = bstr "initialize") then initialize id params
        else if has_modern_version params || bool_decide (method = bstr "server/discover")
        then handle_modern id method params
        else handle_legacy id method params
    end.

(** ** The loop *)

(** [while line.ends_with(['\n', '\r']) { line.pop(); }] *)
Fixpoint drop_line_ends (reversed : str) : str :=
  match reversed with
  | c :: reversed' => if (c =? 10) || (c =? 13) then drop_line_ends reversed' else reversed
  | [] => []
  end.
Definition trim_line (line : str) : str := reverse (drop_line_ends (reverse line)).

Definition request_of (value : Value) : option RpcRequest :=
  if match value_get (bstr "id") value with Some id => is_null id | None => false end then None
  else
    match from_value value : result RpcRequest string with
    | Err _ => None
    | Ok request =>
        if bool_decide (RpcRequest_jsonrpc request = bstr "2.0") && negb (is_empty (RpcRequest_method request))
           && (len (RpcRequest_method request) <=? 128) && valid_id (RpcRequest_id request)
        then Some request else None
    end.

(** One round: whether the input has ended. *)
Definition serve_line : M S string bool :=
  let! line := map_error (λ error, "cannot read MCP stdio: " +:+ error)
                 (on_world (read_line (MAX_MCP_LINE_BYTES + 1))) in
  if is_empty line then ret true
  else if MAX_MCP_LINE_BYTES <? len line
  then fail ("MCP message exceeds " +:+ decimal MAX_MCP_LINE_BYTES +:+ " bytes")
  else
    let line := trim_line line in
    (if is_empty line then write_error Value_Null (-32600) "empty request"
     else
       match parse_json line with
       | None => write_error Value_Null (-32700) "parse error"
       | Some value =>
           match request_of value with
           | None => write_error Value_Null (-32600) "invalid JSON-RPC request"
           | Some request => handle request
           end
       end) ;!
    ret false.

(** [serve], for so many lines at most: whether the input ended among them. *)
Fixpoint serve (n : nat) : M S string bool :=
  match n with
  | O => ret false
  | Datatypes.S n =>
      let! ended := serve_line in
      if (ended : bool) then ret true else serve n
  end.
End mcp.
