(* ===== verification/McpTheorems.v ===== *)
(** * Properties of the companion: its provider sessions

    A journal notes the lines read, the replies written and the frames exchanged with
    providers.  Replaying it checks each connection against the protocol a client must
    follow; the server holds exactly the connections that are open and idle. *)

From stdpp Require Import gmap fin_maps fin_map_dom sets list.
From S2P Require Import Prelude Text Bounded Protocol Effects Codec Message Json McpTools SeatClient Discovery Mcp.

(** ** The journal *)

Inductive Note :=
| Note_Line (line : str)
| Note_Reply (reply : RpcReply)
| Note_Opened (stream : Stream)
| Note_Sent (stream : Stream) (message : ClientMessage) (ok : bool)
| Note_Got (stream : Stream) (frame : result (ReadFrame ServerMessage) CodecFailure)
| Note_Closed (stream : Stream).

(** What is noted, and the streams in use: a new one is not in use yet. *)
Class Companion (W : Type) `{SeatStreams W, DiscoveryServer W, Stdio W} := {
  notes : W → list Note;
  in_use : W → gset Stream;
  connect_noted path w :
    wp (connect_stream path)
      (λ st w', notes w' = notes w ++ [Note_Opened st] ∧ st ∉ in_use w ∧ in_use w' = {[st]} ∪ in_use w)
      (λ _ w', notes w' = notes w ∧ in_use w' = in_use w) w;
  send_noted st message w :
    notes (snd (send st message w)) = notes w ++ [Note_Sent st message (is_ok (fst (send st message w)))];
  receive_noted st w :
    notes (snd (receive_frame st w)) = notes w ++ [Note_Got st (fst (receive_frame st w))];
  close_noted st w : notes (close_stream st w) = notes w ++ [Note_Closed st];
  close_in_use st w : in_use (close_stream st w) = in_use w ∖ {[st]};
  line_noted limit w :
    wp (read_line limit) (λ line w', notes w' = notes w ++ [Note_Line line]) (λ _ w', notes w' = notes w) w;
  reply_noted reply w :
    wp (write_value reply) (λ _ w', notes w' = notes w ++ [Note_Reply reply]) (λ _ w', notes w' = notes w) w;
  send_in_use st message :: Preserves in_use (send st message);
  receive_in_use st :: Preserves in_use (receive_frame st);
  line_in_use limit :: Preserves in_use (read_line limit);
  reply_in_use reply :: Preserves in_use (write_value reply);
  read_timeout_silent st t :: Preserves (λ w, (notes w, in_use w)) (set_stream_read_timeout st t);
  write_timeout_silent st t :: Preserves (λ w, (notes w, in_use w)) (set_stream_write_timeout st t);
  connect_x11_silent :: Preserves (λ w, (notes w, in_use w)) connect_x11;
  existing_atom_silent name :: Preserves (λ w, (notes w, in_use w)) (existing_atom name);
  selection_owner_silent selection :: Preserves (λ w, (notes w, in_use w)) (selection_owner selection);
  window_property_silent window property longs ::
    Preserves (λ w, (notes w, in_use w)) (window_property window property longs);
  write_bytes_silent b :: Preserves (λ w, (notes w, in_use w)) (write_bytes b);
  flush_silent :: Preserves (λ w, (notes w, in_use w)) flush_output
}.

(** ** What a client may do on a connection *)

Inductive Phase :=
| Phase_Opened
| Phase_Greeted
| Phase_Idle (next : RequestId)
| Phase_Busy (id : RequestId)
| Phase_Ended.

Definition welcomes (frame : result (ReadFrame ServerMessage) CodecFailure) : bool :=
  match frame with
  | Ok (ReadFrame_Message (ServerMessage_Welcome welcome)) => is_ok (Welcome_validate welcome)
  | _ => false
  end.
Definition answers (id : RequestId) (frame : result (ReadFrame ServerMessage) CodecFailure) : bool :=
  match frame with
  | Ok (ReadFrame_Message (ServerMessage_Response response)) => Response_id response =? id
  | _ => false
  end.

(** One greeting, then requests with the next identity, each after the answer to the one
    before; what fails in any way is not used again. *)
Definition step (m : gmap Stream Phase) (note : Note) : option (gmap Stream Phase) :=
  match note with
  | Note_Line _ | Note_Reply _ => Some m
  | Note_Opened st => match m !! st with None => Some (<[st := Phase_Opened]> m) | Some _ => None end
  | Note_Sent st message ok =>
      match m !! st, message with
      | Some Phase_Opened, ClientMessage_Hello _ =>
          Some (<[st := if ok : bool then Phase_Greeted else Phase_Ended]> m)
      | Some (Phase_Idle next), ClientMessage_Request request =>
          if Request_id request =? next
          then Some (<[st := if ok : bool then Phase_Busy next else Phase_Ended]> m) else None
      | _, _ => None
      end
  | Note_Got st frame =>
      match m !! st with
      | Some Phase_Greeted => Some (<[st := if welcomes frame then Phase_Idle 1 else Phase_Ended]> m)
      | Some (Phase_Busy id) => Some (<[st := if answers id frame then Phase_Idle (id + 1) else Phase_Ended]> m)
      | _ => None
      end
  | Note_Closed st => match m !! st with Some _ => Some (delete st m) | None => None end
  end.

Fixpoint replay (m : gmap Stream Phase) (l : list Note) : option (gmap Stream Phase) :=
  match l with
  | [] => Some m
  | note :: l => step m note ≫= λ m, replay m l
  end.

Lemma replay_app m l l' : replay m (l ++ l') = replay m l ≫= λ m, replay m l'.
Proof.
  revert m. induction l as [|note l IH]; intros m; cbn [replay app]; [done|].
  destruct (step m note); cbn; [apply IH|done].
Qed.

Section sessions.
Context {W : Type} `{Companion W} (start : gmap Stream Phase).

(** The notes are those of a well-behaved client, which leaves the connections [p]. *)
Definition at_ (p : gmap Stream Phase) (w : W) : Prop :=
  replay start (notes w) = Some p ∧ dom p ⊆ in_use w.

Lemma at_step p note w w' p' :
  at_ p w → notes w' = notes w ++ [note] → step p note = Some p' → dom p' ⊆ in_use w' → at_ p' w'.
Proof.
  intros [Hp _] Hw Hstep Hdom. split; [|done]. rewrite Hw, replay_app, Hp. cbn. by rewrite Hstep.
Qed.

Lemma at_silent {E A} (m : M W E A) p w :
  Preserves (λ w, (notes w, in_use w)) m → at_ p w → wp m (λ _ w', at_ p w') (λ _ w', at_ p w') w.
Proof.
  intros Hm [Hp Hdom]. eapply wp_mono; [exact (preserves_wp _ m w Hm)|..];
    intros _ w' [= Hn Hu]; (split; [by rewrite Hn|by rewrite Hu]).
Qed.

(** *** A connection in the phase [ph], beside the others *)

Notation "p .[ st := ph ]" := (<[st := ph]> p) (at level 1, left associativity, format "p .[ st  :=  ph ]").

Lemma insert_dom (p : gmap Stream Phase) st ph ph' : dom p.[st := ph] = dom p.[st := ph'].
Proof. by rewrite !dom_insert_L. Qed.

Lemma at_change p st ph ph' note w w' :
  at_ p.[st := ph] w → notes w' = notes w ++ [note] → in_use w' = in_use w →
  step p.[st := ph] note = Some p.[st := ph'] → at_ p.[st := ph'] w'.
Proof.
  intros Hat Hn Hu Hstep. eapply at_step; [done..|]. rewrite Hu, (insert_dom _ _ _ ph). apply Hat.
Qed.

Lemma close_at p st ph w : at_ p.[st := ph] w → p !! st = None → at_ p (close_stream st w).
Proof.
  intros Hat Hst. eapply at_step; [done|apply close_noted| |].
  - cbn. by rewrite lookup_insert_eq, delete_insert_id.
  - rewrite close_in_use. destruct Hat as [_ Hdom]. rewrite dom_insert_L in Hdom.
    apply not_elem_of_dom in Hst. set_solver.
Qed.

Lemma send_at p st ph ph' ph'' message w :
  step p.[st := ph] (Note_Sent st message true) = Some p.[st := ph'] →
  step p.[st := ph] (Note_Sent st message false) = Some p.[st := ph''] →
  at_ p.[st := ph] w →
  wp (send st message) (λ _, at_ p.[st := ph']) (λ _, at_ p.[st := ph'']) w.
Proof.
  intros Ht Hf Hat. unfold wp. pose proof (send_noted st message w) as Hn.
  pose proof (send_in_use st message w) as Hu. destruct (send st message w) as [[[]|e] w'];
    cbn [fst snd is_ok] in Hn, Hu; by eapply at_change.
Qed.

Lemma receive_at p st ph next w :
  (∀ frame, step p.[st := ph] (Note_Got st frame) = Some p.[st := next frame]) →
  at_ p.[st := ph] w →
  wp (receive_frame st) (λ frame, at_ p.[st := next (Ok frame)]) (λ e, at_ p.[st := next (Err e)]) w.
Proof.
  intros Hstep Hat. unfold wp. pose proof (receive_noted st w) as Hn.
  pose proof (receive_in_use st w) as Hu. destruct (receive_frame st w) as [[frame|e] w'];
    cbn [fst snd] in Hn, Hu; by eapply at_change.
Qed.

Lemma hello_at p st hi w :
  at_ p.[st := Phase_Opened] w →
  wp (send st (ClientMessage_Hello hi)) (λ _, at_ p.[st := Phase_Greeted]) (λ _, at_ p.[st := Phase_Ended]) w.
Proof. apply send_at; cbn; by rewrite lookup_insert_eq, insert_insert_eq. Qed.

Lemma request_at p st id call w :
  at_ p.[st := Phase_Idle id] w →
  wp (send st (ClientMessage_Request {| Request_id := id; Request_call := call |}))
    (λ _, at_ p.[st := Phase_Busy id]) (λ _, at_ p.[st := Phase_Ended]) w.
Proof.
  apply send_at; cbn [step]; rewrite lookup_insert_eq; cbn [Request_id]; by rewrite Z.eqb_refl, insert_insert_eq.
Qed.

Lemma welcome_at p st w :
  at_ p.[st := Phase_Greeted] w →
  wp (receive_frame st)
    (λ frame, at_ p.[st := if welcomes (Ok frame) then Phase_Idle 1 else Phase_Ended])
    (λ _, at_ p.[st := Phase_Ended]) w.
Proof.
  intros Hat. eapply wp_mono; [apply (receive_at p st Phase_Greeted
    (λ frame, if welcomes frame then Phase_Idle 1 else Phase_Ended) w); [|done]|done..].
  intros frame. cbn [step]. by rewrite lookup_insert_eq, insert_insert_eq.
Qed.

Lemma answer_at p st id w :
  at_ p.[st := Phase_Busy id] w →
  wp (receive_frame st)
    (λ frame, at_ p.[st := if answers id (Ok frame) then Phase_Idle (id + 1) else Phase_Ended])
    (λ _, at_ p.[st := Phase_Ended]) w.
Proof.
  intros Hat. eapply wp_mono; [apply (receive_at p st (Phase_Busy id)
    (λ frame, if answers id frame then Phase_Idle (id + 1) else Phase_Ended) w); [|done]|done..].
  intros frame. cbn [step]. by rewrite lookup_insert_eq, insert_insert_eq.
Qed.

Lemma or_close_at {A} p st (m : M W SeatError A) Q w :
  p !! st = None →
  wp m Q (λ _ w', ∃ ph, at_ p.[st := ph] w') w → wp (or_close st m) Q (λ _, at_ p) w.
Proof.
  intros Hst. unfold wp, or_close. destruct (m w) as [[a|e] w']; [done|]. intros [ph Hat].
  by eapply close_at.
Qed.

Context (io_text : ErrorKind → string) (version : str).

Definition seat_at (st : Stream) (next : RequestId) : Seat := {| Seat_stream := st; Seat_next_request := next |}.

Lemma Seat_from_stream_at p st w :
  p !! st = None → at_ p.[st := Phase_Opened] w →
  wp (Seat_from_stream io_text version st)
    (λ seat w', seat = seat_at st 1 ∧ at_ p.[st := Phase_Idle 1] w') (λ _, at_ p) w.
Proof.
  intros Hst Hat. apply or_close_at; [done|].
  apply wp_bind, wp_map_error. eapply wp_mono; [apply (at_silent _ _ _ _ Hat)| |intros e w' Hw; eexists; exact Hw].
  intros [] w1 Hat1. apply wp_bind, wp_lift; [|intros e _; eexists; eassumption]. intros hi _.
  apply wp_bind, wp_map_error. eapply wp_mono; [apply (hello_at _ _ _ _ Hat1)| |intros e w' Hw; eexists; exact Hw].
  intros [] w2 Hat2.
  apply wp_bind, wp_map_error. eapply wp_mono; [apply (welcome_at _ _ _ Hat2)| |intros e w' Hw; eexists; exact Hw].
  intros frame w3 Hat3. apply wp_bind.
  destruct frame as [[welcome|response|goodbye]|]; try (apply wp_fail; eexists; exact Hat3).
  apply wp_ret, wp_bind, wp_map_error, wp_lift; [|intros e _; eexists; eassumption].
  intros [] Hvalid. apply wp_ret. split; [done|]. cbn in Hat3. by rewrite Hvalid in Hat3.
Qed.

Lemma Seat_connect_at p path w :
  at_ p w →
  wp (Seat_connect io_text version path)
    (λ seat w', ∃ st, p !! st = None ∧ seat = seat_at st 1 ∧ at_ p.[st := Phase_Idle 1] w') (λ _, at_ p) w.
Proof.
  intros Hat. apply wp_bind, wp_map_error. eapply wp_mono; [apply connect_noted| |].
  - intros st w1 (Hn & Hfresh & Hu).
    assert (p !! st = None) as Hst.
    { apply not_elem_of_dom. intros Hin. by apply Hfresh, Hat. }
    assert (at_ p.[st := Phase_Opened] w1) as Hat1.
    { eapply at_step; [done..| |]; [cbn; by rewrite Hst|]. rewrite dom_insert_L, Hu.
      destruct Hat as [_ Hdom]. set_solver. }
    eapply wp_mono; [by apply Seat_from_stream_at|by intros seat w' [? ?]; exists st|done].
  - intros e w1 [Hn Hu]. destruct Hat as [Hp Hdom]. split; [by rewrite Hn|by rewrite Hu].
Qed.

Lemma on_world_wp {X E A} (m : M W E A) Q R (x : X) w :
  wp m (λ a w', Q a (x, w')) (λ e w', R e (x, w')) w → wp (on_world m) Q R (x, w).
Proof. intros Hm. by apply wp_zoom. Qed.

(** Any phase of the connection, after a failure. *)
Definition failed_at {E} (p : gmap Stream Phase) (st : Stream) (e : E) (s : Seat * W) : Prop :=
  Seat_stream (fst s) = st ∧ ∃ ph, at_ p.[st := ph] (snd s).

Lemma failed_intro {E} p st ph (e : E) seat w :
  Seat_stream seat = st → at_ p.[st := ph] w → failed_at p st e (seat, w).
Proof. intros Hst Hat. split; [done|by exists ph]. Qed.

Lemma timeout_at {X} p st ph (long : bool) t prefix (x : X) w Q R :
  at_ p.[st := ph] w →
  (∀ w', at_ p.[st := ph] w' → Q tt (x, w')) → (∀ e w', at_ p.[st := ph] w' → R e (x, w')) →
  wp (if long then map_error (λ error, unavailable (prefix +:+ error)) (on_world (set_stream_read_timeout st t))
      else ret tt) Q R (x, w).
Proof.
  intros Hat HQ HR. destruct long; [|by apply wp_ret, HQ]. apply wp_map_error, on_world_wp.
  eapply wp_mono; [apply (at_silent _ _ _ _ Hat)|intros [] w' ?; by apply HQ|intros e w' ?; by apply HR].
Qed.

Lemma Seat_call_at p st next call w :
  at_ p.[st := Phase_Idle next] w →
  wp (Seat_call io_text call)
    (λ response s, Response_id response = next ∧ fst s = seat_at st (next + 1) ∧
                   at_ p.[st := Phase_Idle (next + 1)] (snd s))
    (failed_at p st) (seat_at st next, w).
Proof.
  intros Hat. unfold Seat_call. cbv zeta. apply wp_bind, wp_gets. cbn [fst Seat_stream seat_at]. apply wp_bind.
  eapply (timeout_at p st _ _ _ _ _ _ _ _ Hat); [|intros e w' Hw; eapply failed_intro; [done|exact Hw]]. intros w1 Hat1.
  apply wp_bind, wp_gets. cbn [fst Seat_next_request seat_at].
  apply wp_bind, wp_lift; [|intros e _; eapply failed_intro; [done|exact Hat1]]. intros n Hn.
  assert (n = next + 1) as ->.
  { unfold checked_u64, checked_in in Hn. case_match; naive_solver. }
  apply wp_bind, wp_modify. cbn [snd].
  apply wp_bind, wp_map_error, on_world_wp.
  eapply wp_mono; [apply (request_at _ _ _ _ _ Hat1)| |intros e w' Hw; eapply failed_intro; [done|exact Hw]]. intros [] w2 Hat2.
  apply wp_bind, wp_map_error, on_world_wp.
  eapply wp_mono; [apply (answer_at _ _ _ _ Hat2)| |intros e w' Hw; eapply failed_intro; [done|exact Hw]]. intros frame w3 Hat3.
  apply wp_bind. eapply (timeout_at p st _ _ _ _ _ _ _ _ Hat3); [|intros e w' Hw; eapply failed_intro; [done|exact Hw]].
  intros w4 Hat4. destruct frame as [[welcome|response|goodbye]|]; cbn [paired_response answers] in *;
    try (apply wp_fail; eapply failed_intro; [done|exact Hat4]).
  destruct (Z.eqb_spec (Response_id response) next) as [Hid|]; [|apply wp_fail; eapply failed_intro; [done|exact Hat4]].
  by apply wp_ret.
Qed.

Lemma call_seat_at p st next call w :
  at_ p.[st := Phase_Idle next] w →
  wp (call_seat io_text call)
    (λ _ s, fst s = seat_at st (next + 1) ∧ at_ p.[st := Phase_Idle (next + 1)] (snd s))
    (failed_at p st) (seat_at st next, w).
Proof.
  intros Hat. apply wp_bind, wp_map_error. eapply wp_mono; [by apply Seat_call_at| |done].
  intros response s (_ & ? & ?). by apply wp_ret.
Qed.

(** *** Sessions *)

Definition session_at (p : gmap Stream Phase) (st : Stream) (s : ProviderSession * W) : Prop :=
  ∃ next, ProviderSession_seat (fst s) = seat_at st next ∧ at_ p.[st := Phase_Idle next] (snd s).
Definition session_failed {E} (p : gmap Stream Phase) (st : Stream) (e : E) (s : ProviderSession * W) : Prop :=
  Seat_stream (ProviderSession_seat (fst s)) = st ∧ ∃ ph, at_ p.[st := ph] (snd s).

(** Leaves an idle connection idle, unless it fails. *)
Definition tame {E A} (m : M (ProviderSession * W) E A) : Prop :=
  ∀ p st s, session_at p st s → wp m (λ _, session_at p st) (session_failed p st) s.

Lemma tame_ret {E A} (a : A) : tame (E:=E) (ret a).
Proof. intros p st s Hs. by apply wp_ret. Qed.
Lemma tame_bind {E A B} (m : M (ProviderSession * W) E A) (k : A → M (ProviderSession * W) E B) :
  tame m → (∀ a, tame (k a)) → tame (bind m k).
Proof.
  intros Hm Hk p st s Hs. apply wp_bind. eapply wp_mono; [by apply Hm| |done].
  intros a s' Hs'. by apply Hk.
Qed.
Lemma tame_gets {E A} (f : ProviderSession * W → A) : tame (E:=E) (gets f).
Proof. intros p st s Hs. by apply wp_gets. Qed.
Lemma tame_set_slots slots : tame (set_slots slots).
Proof. intros p st s Hs. by apply wp_modify. Qed.
Lemma tame_call call : tame (on_seat (call_seat io_text call)).
Proof.
  intros p st [session w] (next & Hseat & Hat). unfold on_seat. apply wp_zoom. cbn [fst snd] in *. rewrite Hseat.
  eapply wp_mono; [by apply call_seat_at|..].
  - intros outcome [seat w'] [-> Hat']. by exists (next + 1).
  - intros e [seat w'] Hfailed. exact Hfailed.
Qed.

Context `{Serde}.

Lemma tame_pointer_slot_call name arguments : tame (pointer_slot_call io_text name arguments).
Proof.
  unfold pointer_slot_call, pointer_slot_save, pointer_slot_replay, pointer_slots_list. cbv zeta.
  repeat first [apply tame_ret | apply tame_bind | apply tame_call | apply tame_gets | apply tame_set_slots
               | case_match | intros ?].
Qed.

(** *** The server holds the idle connections *)

Definition seat_entry (seat : Seat) : Stream * RequestId := (Seat_stream seat, Seat_next_request seat).
Definition session_entry (session : ProviderSession) : Stream * RequestId :=
  seat_entry (ProviderSession_seat session).

Definition held (s : Server) : list (Stream * RequestId) :=
  (seat_entry <$> option_list (Server_inherited_seat s))
  ++ (session_entry <$> option_list (Server_legacy_session s))
  ++ (session_entry <$> (snd <$> map_to_list (Contexts_entries (Server_modern_contexts s)))).

(** [p] is these connections, each idle. *)
Definition idle (l : list (Stream * RequestId)) (p : gmap Stream Phase) : Prop :=
  NoDup l.*1 ∧ p = list_to_map (prod_map id Phase_Idle <$> l).

Lemma fst_idle (l : list (Stream * RequestId)) : (prod_map id Phase_Idle <$> l).*1 = l.*1.
Proof. rewrite <- list_fmap_compose. by apply list_fmap_ext. Qed.

#[local] Instance idle_proper : Proper ((≡ₚ) ==> (=) ==> impl) idle.
Proof.
  intros l l' Hl p p' <- [Hnd ->]. split; [by rewrite <- Hl|].
  apply list_to_map_proper; [by rewrite fst_idle|]. by rewrite Hl.
Qed.

Lemma idle_cons l p st next : idle l p → p !! st = None → idle ((st, next) :: l) p.[st := Phase_Idle next].
Proof.
  intros [Hnd ->] Hst. split; [|done]. cbn. constructor; [|done].
  rewrite <- fst_idle. by apply not_elem_of_list_to_map.
Qed.

Lemma idle_uncons l p st next :
  idle ((st, next) :: l) p → ∃ p', p = p'.[st := Phase_Idle next] ∧ p' !! st = None ∧ idle l p'.
Proof.
  intros [[Hin Hnd]%NoDup_cons ->]. eexists. split; [done|]. split; [|done].
  apply not_elem_of_list_to_map. by rewrite fst_idle.
Qed.

(** *** What holding means for the tables *)

Definition contexts_ok (c : Contexts ProviderSession) : Prop :=
  Contexts_limit c = MAX_MODERN_CONTEXTS ∧ Z.of_nat (size (Contexts_entries c)) ≤ MAX_MODERN_CONTEXTS ∧
  1 ≤ Contexts_next c ∧ map_Forall (λ context _, 1 ≤ context < Contexts_next c) (Contexts_entries c).

Definition held_contexts (c : Contexts ProviderSession) : list (Stream * RequestId) :=
  session_entry <$> (snd <$> map_to_list (Contexts_entries c)).

Lemma held_get c context session :
  Contexts_get_mut c context = Some session →
  held_contexts c ≡ₚ session_entry session :: held_contexts (Contexts_remove context c).
Proof.
  intros Hget. unfold held_contexts, Contexts_remove. cbn [Contexts_entries].
  by rewrite <- (map_to_list_delete _ _ _ Hget).
Qed.

Lemma held_put c context session session' :
  Contexts_get_mut c context = Some session →
  held_contexts (Contexts_put context session' c) ≡ₚ session_entry session' :: held_contexts (Contexts_remove context c).
Proof.
  intros Hget. unfold held_contexts, Contexts_put, Contexts_remove. cbn [Contexts_entries].
  rewrite <- insert_delete_eq. by rewrite map_to_list_insert by apply lookup_delete_eq.
Qed.

Lemma contexts_ok_put c context session session' :
  Contexts_get_mut c context = Some session → contexts_ok c → contexts_ok (Contexts_put context session' c).
Proof.
  intros Hget (Hlimit & Hsize & Hnext & Hkeys). split_and!; cbn; [done| |done|].
  - rewrite map_size_insert. unfold Contexts_get_mut in Hget. by rewrite Hget.
  - apply map_Forall_insert_2; [by apply (Hkeys _ _ Hget)|done].
Qed.

Lemma contexts_ok_remove c context : contexts_ok c → contexts_ok (Contexts_remove context c).
Proof.
  intros (Hlimit & Hsize & Hnext & Hkeys). split_and!; cbn; [done| |done|by apply map_Forall_delete].
  rewrite map_size_delete. destruct (Contexts_entries c !! context); cbn; lia.
Qed.

Lemma Contexts_insert_ok session c :
  contexts_ok c →
  match Contexts_insert session c with
  | (Ok context, c') =>
      context = Contexts_next c ∧ contexts_ok c' ∧ Contexts_next c < Contexts_next c' ∧
      held_contexts c' ≡ₚ session_entry session :: held_contexts c
  | (Err _, c') => c' = c
  end.
Proof.
  intros (Hlimit & Hsize & Hnext & Hkeys). unfold Contexts_insert. destruct (Contexts_is_full c) eqn:Hfull; [done|].
  unfold Contexts_is_full in Hfull. apply Z.leb_gt in Hfull.
  destruct (checked_u64 _) as [next|] eqn:Hchecked; [|done].
  unfold checked_u64, checked_in in Hchecked. case_match; simplify_eq.
  assert (Contexts_entries c !! Contexts_next c = None) as Hfresh.
  { destruct (Contexts_entries c !! Contexts_next c) as [v|] eqn:Hv; [|done]. specialize (Hkeys _ _ Hv). cbn in Hkeys. lia. }
  split; [done|]. split; [|split; [cbn; lia|]].
  - split_and!; cbn; [done| |lia|].
    + rewrite map_size_insert, Hfresh. lia.
    + apply map_Forall_insert_2; [lia|]. eapply map_Forall_impl; [exact Hkeys|]. cbn. lia.
  - unfold held_contexts. cbn [Contexts_entries]. by rewrite map_to_list_insert by done.
Qed.

Lemma held_split s :
  held s = (seat_entry <$> option_list (Server_inherited_seat s))
           ++ (session_entry <$> option_list (Server_legacy_session s))
           ++ held_contexts (Server_modern_contexts s).
Proof. done. Qed.

(** *** The server *)

(** It holds [l], and its tables are in order. *)
Definition holds (l : list (Stream * RequestId)) (s : Server * W) : Prop :=
  contexts_ok (Server_modern_contexts (fst s)) ∧ ∃ p, at_ p (snd s) ∧ idle l p.
Definition sound (s : Server * W) : Prop := holds (held (fst s)) s.
(** Beside what it holds, there is this idle connection. *)
Definition sound_beside (seat : Seat) (s : Server * W) : Prop := holds (seat_entry seat :: held (fst s)) s.
(** The connection of a session is in any phase, the others are idle. *)
Definition sound_but (session : ProviderSession) (others : list (Stream * RequestId)) (s : Server * W) : Prop :=
  contexts_ok (Server_modern_contexts (fst s)) ∧
  ∃ p ph, p !! Seat_stream (ProviderSession_seat session) = None ∧
    at_ p.[Seat_stream (ProviderSession_seat session) := ph] (snd s) ∧ idle others p.

Lemma holds_perm l l' s : l ≡ₚ l' → holds l s → holds l' s.
Proof. intros Hl (Hok & p & Hat & Hidle). split; [done|]. exists p. split; [done|]. by rewrite <- Hl. Qed.

Lemma holds_but session l s : holds (session_entry session :: l) s → sound_but session l s.
Proof.
  intros (Hok & p & Hat & Hidle). apply idle_uncons in Hidle as (p' & -> & Hp' & Hidle).
  split; [done|]. by eexists p', _.
Qed.

(** Dropping a session. *)
Lemma close_but session l s w s' :
  sound_but session l (s, w) → contexts_ok (Server_modern_contexts s') → held s' ≡ₚ l →
  sound (s', close_session session w).
Proof.
  intros (_ & p & ph & Hp & Hat & Hidle) Hok Hheld. split; [done|]. exists p.
  split; [by eapply close_at|]. cbn. by rewrite Hheld.
Qed.

(** A computation on the session of a connection that is held or beside. *)
Lemma tame_holds {A} (m : M (ProviderSession * W) ProviderFailure A) session l s w :
  tame m → holds (session_entry session :: l) (s, w) →
  wp m (λ _ s', holds (session_entry (fst s') :: l) (s, snd s'))
       (λ _ s', sound_but (fst s') l (s, snd s')) (session, w).
Proof.
  intros Hm (Hok & p & Hat & Hidle). cbn [snd] in Hat. apply idle_uncons in Hidle as (p' & -> & Hp' & Hidle).
  eapply wp_mono; [apply (Hm p' (Seat_stream (ProviderSession_seat session)))|..].
  - exists (Seat_next_request (ProviderSession_seat session)). split; [|done]. cbn.
    by destruct (ProviderSession_seat session).
  - intros a [session' w'] (next & Hseat & Hat'). cbn [fst] in Hseat. split; [done|]. eexists. split; [exact Hat'|].
    unfold session_entry, seat_entry. cbn [fst]. rewrite Hseat. by apply idle_cons.
  - intros e [session' w'] [Hst [ph Hat']]. cbn [fst] in Hst. split; [done|]. exists p', ph. cbn [fst].
    by rewrite Hst.
Qed.

Definition keeps {E A} (m : M (Server * W) E A) : Prop := ∀ s, sound s → wp m (λ _, sound) (λ _, sound) s.

Lemma keeps_silent {E A} (m : M W E A) : Preserves (λ w, (notes w, in_use w)) m → keeps (on_world m).
Proof.
  intros Hm [s w] (Hok & p & Hat & Hidle). apply on_world_wp.
  eapply wp_mono; [apply (at_silent _ _ _ _ Hat)|..]; intros x w' Hat'; (split; [done|]; by exists p).
Qed.

Lemma resolve_silent explicit : Preserves (λ w, (notes w, in_use w)) (resolve explicit).
Proof.
  assert (∀ A (m : M W string A), Preserves (λ w, (notes w, in_use w)) m → Preserves (λ w, (notes w, in_use w)) (x11 m))
    as Hx11 by (intros; apply map_error_preserves, _).
  assert (∀ window property utf8, Preserves (λ w, (notes w, in_use w)) (read_property window property utf8)) as Hproperty.
  { intros. unfold read_property. solve_preserves. }
  unfold resolve, discover_x11. solve_preserves.
Qed.

Lemma connect_seat_keeps s :
  sound s →
  wp (connect_seat version io_text)
    (λ seat s', sound_beside seat s' ∧ Server_legacy_session (fst s') = Server_legacy_session (fst s))
    (λ _, sound) s.
Proof.
  destruct s as [s w]. intros Hs. apply wp_bind, wp_gets. cbn [fst].
  destruct (Server_inherited_seat s) as [seat|] eqn:Hseat.
  - apply wp_bind, wp_modify, wp_ret. split; [|done]. unfold sound, sound_beside in *.
    rewrite held_split in *. cbn [fst] in *. by rewrite Hseat in Hs.
  - apply wp_bind, wp_gets, wp_bind, wp_map_error.
    eapply wp_mono; [apply (wp_preserves fst); [|apply (keeps_silent _ (resolve_silent _) _ Hs)]|..].
    { intros [s' w']. unfold on_world, zoom. cbn. by destruct (resolve _ w'). }
    + intros path [s' w'] [Hs' Heq]. cbn in Heq. subst s'.
      destruct path as [path|]; [|by apply wp_fail]. destruct Hs' as (Hok & p & Hat & Hidle).
      apply wp_map_error, on_world_wp. eapply wp_mono; [apply (Seat_connect_at p path w' Hat)|..].
      * intros seat w1 (st & Hst & -> & Hat1). split; [|done]. split; [done|]. eexists. split; [exact Hat1|].
        by apply idle_cons.
      * intros e w1 Hat1. split; [done|]. by exists p.
    + intros e [s' w'] [Hs' _]. done.
Qed.

(** *** Contexts *)

Definition removed (context : Z) (s : Server) : Server :=
  set_contexts (Contexts_remove context (Server_modern_contexts s)) s.

Lemma held_context s context session :
  Contexts_get_mut (Server_modern_contexts s) context = Some session →
  held s ≡ₚ session_entry session :: held (removed context s).
Proof.
  intros Hget. rewrite !held_split. cbn. rewrite (held_get _ _ _ Hget). by rewrite <- !Permutation_middle.
Qed.

Lemma held_put_context s context session session' :
  Contexts_get_mut (Server_modern_contexts s) context = Some session →
  held (set_contexts (Contexts_put context session' (Server_modern_contexts s)) s)
  ≡ₚ session_entry session' :: held (removed context s).
Proof.
  intros Hget. rewrite !held_split. cbn. rewrite (held_put _ _ _ session' Hget). by rewrite <- !Permutation_middle.
Qed.

Lemma on_fresh_holds {A} (m : M (ProviderSession * W) ProviderFailure A) session s :
  tame m → holds (session_entry session :: held (fst s)) s →
  wp (on_fresh session m)
    (λ '(_, session'), λ s', holds (session_entry session' :: held (fst s')) s') (λ _, sound) s.
Proof.
  intros Hm Hs. destruct s as [s w]. pose proof (tame_holds m session _ s w Hm Hs) as Hrun.
  unfold wp, on_fresh in *. destruct (m (session, w)) as [[a|e] [session' w']]; [done|].
  eapply close_but; [exact Hrun|apply Hs|done].
Qed.

Lemma insert_context_sound session s :
  holds (session_entry session :: held (fst s)) s → wp (insert_context session) (λ _, sound) (λ _, sound) s.
Proof.
  destruct s as [s w]. intros Hs. unfold wp, insert_context. destruct Hs as [Hok Hs]. cbn [fst] in *.
  pose proof (Contexts_insert_ok session _ Hok) as Hinsert. cbn [fst] in *.
  destruct (Contexts_insert session _) as [[context|e] contexts].
  - destruct Hinsert as (_ & Hok' & _ & Hheld). split; [done|].
    eapply (holds_perm (session_entry session :: held s) _ (s, w)); [|by split].
    cbn [fst]. rewrite !held_split. cbn. rewrite Hheld. by rewrite <- !Permutation_middle.
  - subst contexts. eapply close_but; [apply holds_but; split; [exact Hok|exact Hs]|done|done].
Qed.

Lemma create_modern_context_keeps call : keeps (create_modern_context version io_text call).
Proof.
  intros s Hs. apply wp_bind, wp_gets. destruct (Contexts_is_full _); [by apply wp_fail|].
  apply wp_bind. eapply wp_mono; [by apply connect_seat_keeps| |done]. intros seat s1 [Hs1 _].
  apply wp_bind. eapply wp_mono; [apply on_fresh_holds; [apply tame_call|exact Hs1]| |done].
  intros [outcome session] s2 Hs2. apply wp_bind.
  eapply wp_mono; [by apply insert_context_sound| |done]. intros context s3 Hs3. by apply wp_ret.
Qed.

(** A session that a context names is in any phase. *)
Definition sound_but_context (context : Z) (s : Server * W) : Prop :=
  ∃ session, Contexts_get_mut (Server_modern_contexts (fst s)) context = Some session ∧
             sound_but session (held (removed context (fst s))) s.

Lemma remove_context_but {E} context s :
  sound_but_context context s → wp (E:=E) (remove_context context) (λ _, sound) (λ _, sound) s.
Proof.
  destruct s as [s w]. intros (session & Hget & Hs). unfold wp, remove_context. cbn [fst] in Hget. rewrite Hget.
  eapply close_but; [exact Hs| |done]. apply contexts_ok_remove, Hs.
Qed.

Lemma remove_context_keeps {E} context : keeps (E:=E) (remove_context context).
Proof.
  intros [s w] Hs. destruct (Contexts_get_mut (Server_modern_contexts s) context) as [session|] eqn:Hget.
  - apply remove_context_but. exists session. split; [done|]. apply holds_but.
    eapply holds_perm; [by apply held_context|done].
  - unfold wp, remove_context. by rewrite Hget.
Qed.

Lemma on_context_sound {A} context (m : M (ProviderSession * W) ProviderFailure A) s :
  tame m → sound s →
  wp (on_context context m)
    (λ result s', match result with Ok _ => sound s' | Err _ => sound_but_context context s' end) (λ _, sound) s.
Proof.
  destruct s as [s w]. intros Hm Hs. unfold wp, on_context.
  destruct (Contexts_get_mut (Server_modern_contexts s) context) as [session|] eqn:Hget; [|done].
  assert (holds (session_entry session :: held (removed context s)) (s, w)) as Hbut.
  { eapply holds_perm; [by apply held_context|done]. }
  pose proof (tame_holds m session _ s w Hm Hbut) as Hrun. unfold wp in Hrun.
  assert (contexts_ok (Server_modern_contexts s)) as Hok by apply Hs.
  destruct (m (session, w)) as [[a|e] [session' w']]; cbn [fst snd] in Hrun.
  - destruct Hrun as [_ Hrun]. split; [by eapply contexts_ok_put|].
    destruct (holds_perm _ _ (s, w') (symmetry (held_put_context s context session session' Hget)))
      as [_ Hheld]; [by split|]. done.
  - exists session'. split; [cbn; apply lookup_insert_eq|].
    destruct Hrun as (_ & p & ph & Hp & Hat & Hidle). split; [by eapply contexts_ok_put|].
    exists p, ph. split; [done|]. split; [done|].
    assert (removed context (set_contexts (Contexts_put context session' (Server_modern_contexts s)) s)
            = removed context s) as Heq.
    { unfold removed, set_contexts, Contexts_remove, Contexts_put. cbn. by rewrite delete_insert_eq. }
    cbn [fst]. by rewrite Heq.
Qed.

Lemma settle_modern_sound {A} context (reconnect : A → bool) result s :
  match result with Ok _ => sound s | Err _ => sound_but_context context s end →
  wp (settle_modern context reconnect result) (λ _, sound) (λ _, sound) s.
Proof.
  intros Hs. destruct result as [outcome|e]; cbn [settle_modern]; apply wp_bind.
  - destruct (reconnect outcome); [|by apply wp_ret, wp_ret].
    eapply wp_mono; [by apply remove_context_keeps| |done]. intros x s' Hs'. by apply wp_ret.
  - eapply wp_mono; [by apply remove_context_but| |done]. intros x s' Hs'. by apply wp_fail.
Qed.

Lemma modern_keeps {A} context (m : M (ProviderSession * W) ProviderFailure A) reconnect :
  tame m → keeps (let! result := on_context context m in settle_modern context reconnect result).
Proof.
  intros Hm s Hs. apply wp_bind. eapply wp_mono; [by apply on_context_sound| |done].
  intros result s' Hs'. by apply settle_modern_sound.
Qed.

(** *** The legacy session *)

Lemma held_legacy s session recovery :
  Server_legacy_session s = Some session → held s ≡ₚ session_entry session :: held (set_legacy None recovery s).
Proof. intros Hs. rewrite !held_split. cbn. rewrite Hs. cbn. by rewrite <- Permutation_middle. Qed.

Definition sound_but_legacy (s : Server * W) : Prop :=
  ∃ session, Server_legacy_session (fst s) = Some session ∧
             sound_but session (held (set_legacy None true (fst s))) s.

Lemma end_legacy_but {E} s : sound_but_legacy s → wp (E:=E) end_legacy (λ _, sound) (λ _, sound) s.
Proof.
  destruct s as [s w]. intros (session & Hsession & Hs). unfold wp, end_legacy. cbn [fst] in Hsession.
  rewrite Hsession. eapply close_but; [exact Hs| |done]. apply Hs.
Qed.

Lemma end_legacy_keeps {E} : keeps (E:=E) end_legacy.
Proof.
  intros [s w] Hs. destruct (Server_legacy_session s) as [session|] eqn:Hsession.
  - apply end_legacy_but. exists session. split; [done|]. apply holds_but.
    eapply holds_perm; [by apply (held_legacy _ _ true)|done].
  - unfold wp, end_legacy. rewrite Hsession. unfold sound in *. rewrite held_split in *. cbn [fst] in *.
    by rewrite Hsession in Hs.
Qed.

Lemma open_legacy_keeps : keeps (open_legacy version io_text).
Proof.
  intros s Hs. apply wp_bind, wp_gets. destruct (Server_legacy_session (fst s)) as [session|] eqn:Hsession.
  { by apply wp_ret. }
  apply wp_bind. eapply wp_mono; [by apply connect_seat_keeps| |done].
  intros seat [s1 w1] [Hs1 Heq]. apply wp_modify. unfold sound, sound_beside in *. cbn [fst snd] in *.
  eapply (holds_perm (seat_entry seat :: held s1)); [|exact Hs1].
  rewrite !held_split. cbn. rewrite Heq, Hsession. cbn. by rewrite <- Permutation_middle.
Qed.

Lemma on_legacy_sound {A} (m : M (ProviderSession * W) ProviderFailure A) s :
  tame m → sound s →
  wp (on_legacy m) (λ result s', match result with Ok _ => sound s' | Err _ => sound_but_legacy s' end)
    (λ _, sound) s.
Proof.
  destruct s as [s w]. intros Hm Hs. unfold wp, on_legacy.
  destruct (Server_legacy_session s) as [session|] eqn:Hsession; [|done].
  assert (holds (session_entry session :: held (set_legacy None true s)) (s, w)) as Hbut.
  { eapply holds_perm; [by apply (held_legacy _ _ true)|done]. }
  pose proof (tame_holds m session _ s w Hm Hbut) as Hrun. unfold wp in Hrun.
  destruct (m (session, w)) as [[a|e] [session' w']]; cbn [fst snd] in Hrun.
  - destruct Hrun as [Hok Hrun]. split; [done|]. destruct Hrun as (p & Hat & Hidle). exists p. split; [done|].
    cbn [fst]. by rewrite (held_legacy _ session' true) by done.
  - exists session'. split; [done|]. exact Hrun.
Qed.

Lemma keeps_update {E} f :
  (∀ s, held (f s) = held s ∧ Server_modern_contexts (f s) = Server_modern_contexts s) → keeps (E:=E) (update f).
Proof.
  intros Hf [s w] Hs. apply wp_modify. unfold sound, holds in *. cbn [fst snd] in *.
  by destruct (Hf s) as [-> ->].
Qed.
Lemma keeps_ret {E A} (a : A) : keeps (E:=E) (ret a).
Proof. intros s Hs. by apply wp_ret. Qed.
Lemma keeps_fail {E A} (e : E) : keeps (A:=A) (fail e).
Proof. intros s Hs. by apply wp_fail. Qed.
Lemma keeps_lift {E A} (r : result A E) : keeps (lift r).
Proof. intros s Hs. by apply wp_lift. Qed.
Lemma keeps_server {E A} (f : Server → A) : keeps (E:=E) (server f).
Proof. intros s Hs. by apply wp_gets. Qed.
Lemma keeps_bind {E A B} (m : M (Server * W) E A) (k : A → M (Server * W) E B) :
  keeps m → (∀ a, keeps (k a)) → keeps (bind m k).
Proof.
  intros Hm Hk s Hs. apply wp_bind. eapply wp_mono; [by apply Hm| |done]. intros a s' Hs'. by apply Hk.
Qed.
Lemma keeps_attempt {E F A} (m : M (Server * W) E A) : keeps m → keeps (E:=F) (attempt m).
Proof. intros Hm s Hs. apply wp_attempt. eapply wp_mono; [by apply Hm|done..]. Qed.
Lemma keeps_map_error {E F A} (f : E → F) (m : M (Server * W) E A) : keeps m → keeps (map_error f m).
Proof. intros Hm s Hs. apply wp_map_error. eapply wp_mono; [by apply Hm|done..]. Qed.

Lemma legacy_keeps {A B} (m : M (ProviderSession * W) ProviderFailure A) (k : A → M (Server * W) ProviderFailure B) :
  tame m → (∀ a, keeps (k a)) →
  keeps (let! result := on_legacy m in
         match result with
         | Ok a => k a
         | Err _ => end_legacy ;! fail ended_legacy_provider_session
         end).
Proof.
  intros Hm Hk s Hs. apply wp_bind. eapply wp_mono; [by apply on_legacy_sound| |done].
  intros [a|e] s' Hs'; [by apply Hk|]. apply wp_bind.
  eapply wp_mono; [by apply end_legacy_but| |done]. intros [] s'' Hs''. by apply wp_fail.
Qed.

Lemma provider_call_legacy_keeps call : keeps (provider_call_legacy version io_text call).
Proof.
  unfold provider_call_legacy. cbv zeta. apply keeps_bind; [apply keeps_server|]. intros recovery.
  destruct (recovery && _); [apply keeps_fail|]. apply keeps_bind; [apply open_legacy_keeps|]. intros [].
  apply legacy_keeps; [apply tame_call|]. intros outcome. apply keeps_bind; [|intros []; apply keeps_ret].
  destruct (outcome_requires_reconnect outcome); [apply end_legacy_keeps|].
  destruct (_ && _); [by apply keeps_update|apply keeps_ret].
Qed.

Lemma pointer_slot_legacy_keeps name arguments : keeps (pointer_slot_legacy version io_text name arguments).
Proof.
  unfold pointer_slot_legacy. apply keeps_bind; [apply keeps_server|]. intros recovery.
  destruct recovery; [apply keeps_fail|]. apply keeps_bind; [apply open_legacy_keeps|]. intros [].
  apply legacy_keeps; [apply tame_pointer_slot_call|]. intros result.
  apply keeps_bind; [|intros []; apply keeps_ret]. destruct (requires_provider_reconnect result); [apply end_legacy_keeps|apply keeps_ret].
Qed.

(** *** Requests *)

Lemma keeps_noted {E A} (m : M W E A) (noted : A → Note → Prop) :
  Preserves in_use m → (∀ a note, noted a note → ∀ p, step p note = Some p) →
  (∀ w, wp m (λ a w', ∃ note, noted a note ∧ notes w' = notes w ++ [note]) (λ _ w', notes w' = notes w) w) →
  keeps (on_world m).
Proof.
  intros Huse Hnoted Hm [s w] (Hok & p & Hat & Hidle). apply on_world_wp.
  eapply wp_mono; [apply (wp_preserves _ _ _ _ w Huse (Hm w))|..]; cbn; (intros a w' [Hw Hu]; split; [done|];
    exists p; split; [|done]).
  - destruct Hw as (note & Hnote & Hw). eapply at_step; [exact Hat|exact Hw|by eapply Hnoted|].
    cbn [snd]. rewrite Hu. apply Hat.
  - destruct Hat as [Hp Hdom]. split; cbn [snd]; [by rewrite Hw|by rewrite Hu].
Qed.

Lemma write_json_keeps reply : keeps (write_json reply).
Proof.
  apply keeps_bind; [|intros []; apply keeps_map_error, keeps_silent, _].
  apply keeps_map_error, (keeps_noted _ (λ _ note, note = Note_Reply reply)); [apply _|by intros ? ? -> ?|].
  intros w. eapply wp_mono; [apply reply_noted|intros [] w' Hw; by exists (Note_Reply reply)|done].
Qed.

Lemma tool_or_failure_keeps {A} (show : A → ToolResult) (m : M (Server * W) ProviderFailure A) :
  keeps m → keeps (tool_or_failure show m).
Proof. intros Hm. apply keeps_bind; [by apply keeps_attempt|]. intros result. apply keeps_ret. Qed.

Create HintDb keeps.
#[local] Hint Resolve keeps_ret keeps_fail keeps_lift keeps_server write_json_keeps provider_call_legacy_keeps
  pointer_slot_legacy_keeps create_modern_context_keeps remove_context_keeps modern_keeps tame_call
  tame_pointer_slot_call : keeps.

Ltac solve_keeps :=
  repeat first
    [ progress intros
    | solve [eauto 2 with keeps]
    | apply tool_or_failure_keeps | apply keeps_bind
    | match goal with
      | |- keeps (match ?x with _ => _ end) => destruct x
      | |- keeps (let _ := _ in _) => cbv zeta
      end ].

Lemma initialize_keeps id params : keeps (initialize version id params).
Proof. unfold initialize, write_error, write_result. solve_keeps. by apply keeps_update. Qed.

Lemma list_tools_keeps id params era : keeps (list_tools version id params era).
Proof. unfold list_tools, write_error, write_result. cbv zeta. solve_keeps. Qed.

Lemma call_tool_legacy_keeps id params : keeps (call_tool_legacy version io_text id params).
Proof. unfold call_tool_legacy, write_error, write_result. solve_keeps. Qed.

Lemma call_tool_modern_keeps id params : keeps (call_tool_modern version io_text id params).
Proof.
  unfold call_tool_modern, seat_release, seat_status, write_modern_call_error, write_modern, write_error,
    write_result, pointer_slot_modern, provider_call_modern. solve_keeps.
Qed.

Lemma handle_keeps request : keeps (handle version io_text request).
Proof.
  unfold handle, handle_modern, handle_legacy, discover, write_error_data, write_error, write_result. cbv zeta.
  pose proof initialize_keeps. pose proof list_tools_keeps. pose proof call_tool_legacy_keeps.
  pose proof call_tool_modern_keeps. solve_keeps. by apply keeps_update.
Qed.

Lemma serve_line_keeps : keeps (serve_line version io_text).
Proof.
  unfold serve_line, write_error. pose proof handle_keeps. solve_keeps. apply keeps_map_error.
  apply (keeps_noted _ (λ line note, note = Note_Line line)); [apply _|by intros ? ? -> ?|].
  intros w. eapply wp_mono; [apply line_noted|intros line w' Hw; by exists (Note_Line line)|done].
Qed.

Lemma serve_keeps n : keeps (serve version io_text n).
Proof. induction n as [|n IH]; cbn [serve]; pose proof serve_line_keeps; solve_keeps. Qed.
End sessions.

Lemma held_length s :
  contexts_ok (Server_modern_contexts s) → (length (held s) ≤ 10)%nat.
Proof.
  intros (_ & Hsize & _). rewrite held_split. unfold held_contexts.
  rewrite !length_app, !length_fmap, length_map_to_list. unfold MAX_MODERN_CONTEXTS in Hsize.
  destruct (Server_inherited_seat s), (Server_legacy_session s); cbn; lia.
Qed.

Lemma sound_new {W} `{Companion W} socket seat w :
  notes w = [] →
  (∀ st id, seat = Some {| Seat_stream := st; Seat_next_request := id |} → st ∈ in_use w) →
  sound (list_to_map (prod_map id Phase_Idle <$> (seat_entry <$> option_list seat))) (Server_new socket seat, w).
Proof.
  intros Hn Hseat.
  assert (held (Server_new socket seat) = seat_entry <$> option_list seat) as Hheld.
  { rewrite held_split. unfold held_contexts. cbn. rewrite map_to_list_empty. cbn. by rewrite app_nil_r. }
  split.
  - cbn. split_and!; [done|by vm_compute|done|apply map_Forall_empty].
  - eexists. split.
    + split; [cbn [snd]; by rewrite Hn|]. cbn [snd]. destruct seat as [[st id]|]; cbn; [|set_solver].
      rewrite dom_insert_L. specialize (Hseat _ _ eq_refl). set_solver.
    + unfold idle. cbn [fst]. rewrite Hheld. split; [|done].
      destruct seat; cbn; [apply NoDup_singleton|apply NoDup_nil_2].
Qed.

(** C10: the companion's side of every provider connection follows the protocol.  In any run,
    over any number of lines, each connection is greeted once, and only after a valid welcome
    carries requests, whose identities are 1, 2, 3 and so on, each sent only after the
    response with the identity of the one before; once a write, a read or an answer fails,
    the connection is only closed.  The connections left open are exactly those the server
    holds, each by one owner and idle, with the identity it will use next; there are at most
    ten (the inherited one, the legacy session and eight contexts), and the contexts' names
    are all below the next one given out. *)
Theorem provider_sessions_sound {W} `{Companion W, Serde} io_text version socket seat n w :
  notes w = [] →
  (∀ st id, seat = Some {| Seat_stream := st; Seat_next_request := id |} → st ∈ in_use w) →
  let start := list_to_map (prod_map id Phase_Idle <$> (seat_entry <$> option_list seat)) in
  let open s' :=
    ∃ p, replay start (notes (snd s')) = Some p ∧
      p = list_to_map (prod_map id Phase_Idle <$> held (fst s')) ∧ NoDup (held (fst s')).*1 ∧
      (length (held (fst s')) ≤ 10)%nat ∧ contexts_ok (Server_modern_contexts (fst s')) in
  wp (serve version io_text n) (λ _, open) (λ _, open) (Server_new socket seat, w).
Proof.
  intros Hn Hseat. cbv zeta.
  eapply wp_mono; [apply serve_keeps, (sound_new socket seat w Hn Hseat)|..];
    intros _ s' (Hok & p & [Hp _] & Hnd & Hidle); exists p; split_and!; try done; by apply held_length.
Qed.
