(* ===== verification/McpReplies.v ===== *)
(** * Properties of the companion: its replies

    Every line that asks for an answer gets exactly one, in order and with its identity,
    whatever happens to the provider. *)

From stdpp Require Import gmap list.
From S2P Require Import Prelude Text Bounded Protocol Effects Codec Message Json McpTools SeatClient Discovery Mcp McpTheorems.

Definition reply_id (reply : RpcReply) : Value :=
  match reply with RpcReply_Result id _ => id | RpcReply_Error id _ _ _ => id end.

Definition line_of (note : Note) : option str := match note with Note_Line line => Some line | _ => None end.
Definition reply_of (note : Note) : option RpcReply := match note with Note_Reply reply => Some reply | _ => None end.

Section replies.
Context {W : Type} `{Companion W, Serde} (io_text : ErrorKind → string) (version : str).

Definition lines_read (w : W) : list str := omap line_of (notes w).
Definition replies (w : W) : list RpcReply := omap reply_of (notes w).
Definition outputs (w : W) : list str * list RpcReply := (lines_read w, replies w).

Lemma outputs_app w w' note :
  notes w' = notes w ++ [note] → line_of note = None → reply_of note = None → outputs w' = outputs w.
Proof.
  intros Hn Hl Hr. unfold outputs, lines_read, replies. rewrite Hn, !omap_app. cbn. rewrite Hl, Hr.
  by rewrite !app_nil_r.
Qed.

#[local] Instance silent_outputs {E A} (m : M W E A) :
  Preserves (λ w, (notes w, in_use w)) m → Preserves outputs m.
Proof.
  intros Hm w. specialize (Hm w). cbn in Hm. injection Hm as Hn _. unfold outputs, lines_read, replies. by rewrite Hn.
Qed.
#[local] Instance connect_outputs path : Preserves outputs (connect_stream path).
Proof.
  intros w. pose proof (connect_noted path w) as Hw. unfold wp in Hw.
  destruct (connect_stream path w) as [[st|e] w']; cbn [snd].
  - destruct Hw as (Hn & _). by eapply outputs_app.
  - destruct Hw as [Hn _]. unfold outputs, lines_read, replies. by rewrite Hn.
Qed.
#[local] Instance send_outputs st message : Preserves outputs (send st message).
Proof. intros w. by eapply outputs_app; [apply send_noted|..]. Qed.
#[local] Instance receive_outputs st : Preserves outputs (receive_frame st).
Proof. intros w. by eapply outputs_app; [apply receive_noted|..]. Qed.
Lemma close_outputs st w : outputs (close_stream st w) = outputs w.
Proof. by eapply outputs_app; [apply close_noted|..]. Qed.

(** On a state that has the world beside it. *)
Abbreviation Quiet m := (Preserves (λ s, outputs (snd s)) m).

#[local] Instance on_world_quiet {X E A} (m : M W E A) :
  Preserves outputs m → Preserves (λ s : X * W, outputs (snd s)) (on_world m).
Proof. intros Hm [x w]. unfold on_world, zoom. specialize (Hm w). cbn. by destruct (m w). Qed.
#[local] Instance modify_quiet {X E} (f : X → X) :
  Preserves (λ s : X * W, outputs (snd s)) (modify (E:=E) (λ s, (f (fst s), snd s))).
Proof. done. Qed.

#[local] Instance or_close_outputs {A} st (m : M W SeatError A) : Preserves outputs m → Preserves outputs (or_close st m).
Proof.
  intros Hm w. unfold or_close. specialize (Hm w). destruct (m w) as [[a|e] w']; cbn in *; [done|].
  by rewrite close_outputs.
Qed.
#[local] Instance Seat_from_stream_outputs st : Preserves outputs (Seat_from_stream io_text version st).
Proof. unfold Seat_from_stream. apply or_close_outputs. solve_preserves. Qed.
#[local] Instance Seat_connect_outputs path : Preserves outputs (Seat_connect io_text version path).
Proof. unfold Seat_connect. solve_preserves. Qed.
#[local] Instance Seat_call_quiet call : Quiet (Seat_call io_text call).
Proof.
  unfold Seat_call. cbv zeta. apply bind_preserves; [apply _|]. intros stream.
  apply bind_preserves; [destruct call; apply _|]. intros _. apply bind_preserves; [apply _|]. intros id.
  apply bind_preserves; [apply _|]. intros next. apply bind_preserves; [done|]. intros _.
  solve_preserves.
Qed.
#[local] Instance resolve_outputs explicit : Preserves outputs (resolve explicit).
Proof. apply silent_outputs, resolve_silent. Qed.

#[local] Instance call_seat_quiet call : Quiet (call_seat io_text call).
Proof. unfold call_seat. solve_preserves. Qed.
#[local] Instance on_seat_quiet {E A} (m : M (Seat * W) E A) : Quiet m → Quiet (on_seat m).
Proof.
  intros Hm [session w]. unfold on_seat, zoom. cbn. specialize (Hm (ProviderSession_seat session, w)).
  by destruct (m _) as [r [seat w']].
Qed.
#[local] Instance set_slots_quiet slots : Quiet (set_slots (W:=W) slots).
Proof. done. Qed.
#[local] Instance pointer_slot_call_quiet name arguments : Quiet (pointer_slot_call io_text name arguments).
Proof.
  unfold pointer_slot_call, pointer_slot_save, pointer_slot_replay, pointer_slots_list. cbv zeta. solve_preserves.
Qed.

#[local] Instance server_quiet {E A} (f : Server → A) : Quiet (server (W:=W) (E:=E) f).
Proof. done. Qed.
#[local] Instance update_quiet {E} f : Quiet (update (W:=W) (E:=E) f).
Proof. done. Qed.
#[local] Instance connect_seat_quiet : Quiet (connect_seat version io_text).
Proof. unfold connect_seat. solve_preserves. Qed.
#[local] Instance on_fresh_quiet {A} session (m : M (ProviderSession * W) ProviderFailure A) :
  Quiet m → Quiet (on_fresh session m).
Proof.
  intros Hm [s w]. unfold on_fresh. specialize (Hm (session, w)).
  destruct (m (session, w)) as [[a|e] [session' w']]; cbn in *; [done|]. unfold close_session. by rewrite close_outputs.
Qed.
#[local] Instance insert_context_quiet session : Quiet (insert_context (W:=W) session).
Proof.
  intros [s w]. unfold insert_context. destruct (Contexts_insert _ _) as [[context|e] contexts]; cbn; [done|].
  apply close_outputs.
Qed.
#[local] Instance remove_context_quiet {E} context : Quiet (remove_context (W:=W) (E:=E) context).
Proof.
  intros [s w]. unfold remove_context. destruct (Contexts_get_mut _ _); cbn; [apply close_outputs|done].
Qed.
#[local] Instance on_context_quiet {A} context (m : M (ProviderSession * W) ProviderFailure A) :
  Quiet m → Quiet (on_context context m).
Proof.
  intros Hm [s w]. unfold on_context. destruct (Contexts_get_mut _ _) as [session|]; [|done].
  specialize (Hm (session, w)). by destruct (m (session, w)) as [r [session' w']].
Qed.
#[local] Instance settle_modern_quiet {A} context (reconnect : A → bool) result :
  Quiet (settle_modern (W:=W) context reconnect result).
Proof. unfold settle_modern. solve_preserves. Qed.
#[local] Instance create_modern_context_quiet call : Quiet (create_modern_context version io_text call).
Proof. unfold create_modern_context. solve_preserves. Qed.
#[local] Instance provider_call_modern_quiet context call : Quiet (provider_call_modern io_text context call).
Proof. unfold provider_call_modern. solve_preserves. Qed.
#[local] Instance pointer_slot_modern_quiet context name arguments :
  Quiet (pointer_slot_modern io_text context name arguments).
Proof. unfold pointer_slot_modern. solve_preserves. Qed.
#[local] Instance on_legacy_quiet {A} (m : M (ProviderSession * W) ProviderFailure A) : Quiet m → Quiet (on_legacy m).
Proof.
  intros Hm [s w]. unfold on_legacy. destruct (Server_legacy_session s) as [session|]; [|done].
  specialize (Hm (session, w)). by destruct (m (session, w)) as [r [session' w']].
Qed.
#[local] Instance end_legacy_quiet {E} : Quiet (end_legacy (W:=W) (E:=E)).
Proof. intros [s w]. unfold end_legacy. destruct (Server_legacy_session s); cbn; [apply close_outputs|done]. Qed.
#[local] Instance open_legacy_quiet : Quiet (open_legacy version io_text).
Proof. unfold open_legacy. solve_preserves. Qed.
#[local] Instance provider_call_legacy_quiet call : Quiet (provider_call_legacy version io_text call).
Proof. unfold provider_call_legacy. cbv zeta. solve_preserves. Qed.
#[local] Instance pointer_slot_legacy_quiet name arguments : Quiet (pointer_slot_legacy version io_text name arguments).
Proof. unfold pointer_slot_legacy. solve_preserves. Qed.
#[local] Instance tool_or_failure_quiet {A} show (m : M (Server * W) ProviderFailure A) :
  Quiet m → Quiet (tool_or_failure show m).
Proof. unfold tool_or_failure. intros Hm. solve_preserves. Qed.

(** *** One reply *)

(** [m] reads no line and replies to [ids], or to some of them, in order, when it fails. *)
Definition says {A} (m : M (Server * W) string A) (ids : list Value) : Prop :=
  ∀ s, wp m
    (λ _ s', ∃ rs, outputs (snd s') = (lines_read (snd s), replies (snd s) ++ rs) ∧ reply_id <$> rs = ids)
    (λ _ s', ∃ rs, outputs (snd s') = (lines_read (snd s), replies (snd s) ++ rs) ∧ reply_id <$> rs `prefix_of` ids) s.

Lemma says_quiet {A} (m : M (Server * W) string A) : Quiet m → says m [].
Proof.
  intros Hm s. eapply wp_mono; [exact (preserves_wp _ m s Hm)|..]; intros x s' Hs'; exists [];
    by rewrite app_nil_r.
Qed.

Lemma says_after {A B} (m : M (Server * W) string A) (k : A → M (Server * W) string B) ids :
  Quiet m → (∀ a, says (k a) ids) → says (bind m k) ids.
Proof.
  intros Hm Hk s. apply wp_bind. eapply wp_mono; [exact (preserves_wp _ m s Hm)|..].
  - intros a s' [= Hl Hr]. specialize (Hk a s'). by rewrite Hl, Hr in Hk.
  - intros e s' Hs'. exists []. rewrite app_nil_r. split; [done|]. apply prefix_nil.
Qed.

Lemma says_write reply : says (write_json reply) [reply_id reply].
Proof.
  intros [s w]. apply wp_bind, wp_map_error, on_world_wp.
  eapply wp_mono; [apply reply_noted|..]; intros x w1 Hn.
  - assert (outputs w1 = (lines_read w, replies w ++ [reply])) as Hw1.
    { unfold outputs, lines_read, replies. rewrite Hn, !omap_app. cbn. by rewrite app_nil_r. }
    assert (Quiet (on_world (S:=Server) (write_bytes [10] ;! flush_output))) as Hflush by apply _.
    apply wp_map_error. eapply wp_mono; [exact (preserves_wp _ _ (s, w1) Hflush)|..]; cbn [snd];
      intros y s' Hs'; exists [reply]; (split; [by rewrite Hs'|done]).
  - exists []. rewrite app_nil_r. cbn [snd]. unfold outputs, lines_read, replies. rewrite Hn.
    split; [done|]. apply prefix_nil.
Qed.

Lemma says_write_result id payload : says (write_result id payload) [id].
Proof. apply (says_write (RpcReply_Result id payload)). Qed.
Lemma says_write_error id code message : says (write_error id code message) [id].
Proof. apply (says_write (RpcReply_Error id code message None)). Qed.
Lemma says_write_error_data id code message data : says (write_error_data id code message data) [id].
Proof. apply (says_write (RpcReply_Error id code message (Some data))). Qed.

Ltac solve_says :=
  repeat first
    [ progress intros
    | apply says_write_result | apply says_write_error | apply says_write_error_data
    | match goal with |- says (match ?x with _ => _ end) _ => destruct x end
    | apply says_after; [solve [solve_preserves]|]
    | match goal with |- says (let _ := _ in _) _ => cbv zeta end ].

Lemma initialize_says id params : says (initialize version id params) [id].
Proof. unfold initialize. solve_says. Qed.
Lemma discover_says id params : says (discover version id params) [id].
Proof. unfold discover. solve_says. Qed.
Lemma list_tools_says id params era : says (list_tools version id params era) [id].
Proof. unfold list_tools. cbv zeta. solve_says. Qed.
Lemma call_tool_legacy_says id params : says (call_tool_legacy version io_text id params) [id].
Proof. unfold call_tool_legacy. solve_says. Qed.
Lemma call_tool_modern_says id params : says (call_tool_modern version io_text id params) [id].
Proof.
  unfold call_tool_modern, seat_release, seat_status, write_modern_call_error, write_modern. solve_says.
Qed.

(** To whom a request is answered. *)
Definition due (request : RpcRequest) : list Value :=
  if bool_decide (RpcRequest_method request = bstr "notifications/initialized")
     || bool_decide (RpcRequest_method request = bstr "notifications/cancelled")
  then [] else option_list (RpcRequest_id request).

Lemma handle_says request : says (handle version io_text request) (due request).
Proof.
  unfold handle, due. cbv zeta.
  case_bool_decide; cbn [orb]; [apply says_quiet; solve_preserves|].
  case_bool_decide; [apply says_quiet, _|]. destruct (RpcRequest_id request) as [id|]; [|apply says_quiet, _].
  cbn [option_list]. case_bool_decide; [apply initialize_says|].
  destruct (_ || _); unfold handle_modern, handle_legacy.
  - pose proof discover_says. pose proof list_tools_says. pose proof call_tool_modern_says. solve_says; done.
  - pose proof list_tools_says. pose proof call_tool_legacy_says. solve_says; done.
Qed.

(** The identities a line of input must be answered with: that of a request, null for what
    is none. *)
Definition due_line (line : str) : list Value :=
  if is_empty line || (MAX_MCP_LINE_BYTES <? len line) then []
  else if is_empty (trim_line line) then [Value_Null]
  else match parse_json (trim_line line) with
       | None => [Value_Null]
       | Some value => match request_of value with None => [Value_Null] | Some request => due request end
       end.

(** The lines read, and the replies to them. *)
Definition answered {A} (m : M (Server * W) string A) : Prop :=
  ∀ s, wp m
    (λ _ s', ∃ ls rs, outputs (snd s') = (lines_read (snd s) ++ ls, replies (snd s) ++ rs) ∧
                      reply_id <$> rs = ls ≫= due_line)
    (λ _ s', ∃ ls rs, outputs (snd s') = (lines_read (snd s) ++ ls, replies (snd s) ++ rs) ∧
                      reply_id <$> rs `prefix_of` ls ≫= due_line) s.

Lemma read_line_outputs s :
  wp (on_world (S:=Server) (read_line (MAX_MCP_LINE_BYTES + 1)))
    (λ line s', outputs (snd s') = (lines_read (snd s) ++ [line], replies (snd s)))
    (λ _ s', outputs (snd s') = outputs (snd s)) s.
Proof.
  destruct s as [s w]. apply on_world_wp. eapply wp_mono; [apply line_noted|..]; cbn [snd].
  - intros line w' Hn. unfold outputs, lines_read, replies. rewrite Hn, !omap_app. cbn. by rewrite app_nil_r.
  - intros e w' Hn. unfold outputs, lines_read, replies. by rewrite Hn.
Qed.

Lemma serve_line_answered : answered (serve_line version io_text).
Proof.
  intros s. unfold serve_line. apply wp_bind, wp_map_error.
  eapply wp_mono; [apply read_line_outputs| |].
  2: { intros e s' Hs'. exists [], []. rewrite !app_nil_r. split; [exact Hs'|done]. }
  intros line s1 [= Hl Hr]. destruct (is_empty line) eqn:Hempty.
  { apply wp_ret. exists [line], []. rewrite app_nil_r. split; [unfold outputs; by rewrite Hl, Hr|]. cbn.
    unfold due_line. by rewrite Hempty. }
  destruct (MAX_MCP_LINE_BYTES <? len line) eqn:Hlong.
  { apply wp_fail. exists [line], []. rewrite app_nil_r. split; [unfold outputs; by rewrite Hl, Hr|]. apply prefix_nil. }
  apply wp_bind. cbv zeta.
  match goal with |- wp ?m _ _ _ => assert (says m (due_line line)) as Hm end.
  { unfold due_line. rewrite Hempty, Hlong. cbn [orb]. destruct (is_empty (trim_line line)); [apply says_write_error|].
    destruct (parse_json _) as [value|]; [|apply says_write_error].
    destruct (request_of value); [apply handle_says|apply says_write_error]. }
  eapply wp_mono; [apply (Hm s1)|..].
  - intros [] s2 (rs & Hs2 & Hids). apply wp_ret. exists [line], rs. rewrite Hs2, Hl, Hr. split; [done|].
    cbn. by rewrite app_nil_r.
  - intros e s2 (rs & Hs2 & Hids). exists [line], rs. rewrite Hs2, Hl, Hr. split; [done|].
    cbn. by rewrite app_nil_r.
Qed.

Lemma answered_bind {A B} (m : M (Server * W) string A) (k : A → M (Server * W) string B) :
  answered m → (∀ a, answered (k a)) → answered (bind m k).
Proof.
  intros Hm Hk s. apply wp_bind. eapply wp_mono; [apply Hm| |done].
  intros a s1 (ls1 & rs1 & [= Hl1 Hr1] & Hids1). eapply wp_mono; [apply (Hk a s1)|..];
    intros x s2 (ls2 & rs2 & Hs2 & Hids2); exists (ls1 ++ ls2), (rs1 ++ rs2);
    rewrite Hs2, Hl1, Hr1, !(assoc_L (++)), fmap_app, bind_app; (split; [done|]).
  - by rewrite Hids1, Hids2.
  - rewrite Hids1. by apply prefix_app.
Qed.
Lemma answered_ret {A} (a : A) : answered (ret a).
Proof. intros s. apply wp_ret. exists [], []. by rewrite !app_nil_r. Qed.

End replies.
