(* ===== verification/McpCalls.v ===== *)
(** * Properties of the companion: remembered clicks, recovery, published tools *)

From Stdlib Require Import Sorted.
From stdpp Require Import gmap list.
From S2P Require Import Prelude Text Bounded Protocol Effects Codec Message Json McpTools SeatClient Discovery Mcp.

(** ** Pointer slots *)

Definition with_generation (generation : Generation) (action : PointerClickRequest) : PointerClickRequest := {|
  PointerClickRequest_target := {|
    TargetRequest_client := TargetRequest_client (PointerClickRequest_target action);
    TargetRequest_generation := generation |};
  PointerClickRequest_x := PointerClickRequest_x action;
  PointerClickRequest_y := PointerClickRequest_y action;
  PointerClickRequest_button := PointerClickRequest_button action |}.

(** The click a save asks to remember. *)
Definition action_of (request : PointerSlotSaveRequest) : PointerClickRequest := {|
  PointerClickRequest_target := {|
    TargetRequest_client := PointerSlotSaveRequest_client request;
    TargetRequest_generation := PointerSlotSaveRequest_generation request |};
  PointerClickRequest_x := PointerSlotSaveRequest_x request;
  PointerClickRequest_y := PointerSlotSaveRequest_y request;
  PointerClickRequest_button := PointerSlotSaveRequest_button request |}.

(** At most 32 valid clicks under valid names, in the order of the names. *)
Definition slots_ok (slots : StrMap PointerClickRequest) : Prop :=
  map_sorted slots ∧ Z.of_nat (length slots) ≤ MAX_POINTER_SLOTS ∧
  Forall (λ slot, valid_pointer_slot_name (fst slot) = true ∧ PointerClickRequest_validate (snd slot) = Ok tt) slots.

(** Whether a save is carried out. *)
Definition admitted_save (slots : StrMap PointerClickRequest) (request : PointerSlotSaveRequest) : bool :=
  valid_pointer_slot_name (PointerSlotSaveRequest_name request)
  && is_ok (PointerClickRequest_validate (action_of request))
  && ((Z.of_nat (length slots) <? MAX_POINTER_SLOTS)
      || bool_decide (is_Some (map_get (PointerSlotSaveRequest_name request) slots))).

Lemma map_insert_ok slots request :
  slots_ok slots → admitted_save slots request = true →
  slots_ok (map_insert (PointerSlotSaveRequest_name request) (action_of request) slots).
Proof.
  intros (Hsorted & Hlen & Hall) [[Hname Hvalid]%andb_true_iff Hroom]%andb_true_iff. split_and!.
  - by apply map_insert_sorted.
  - rewrite map_insert_length by done. destruct (map_get _ slots) eqn:Hget; [lia|].
    apply orb_true_iff in Hroom as [Hroom%Z.ltb_lt|Hroom%bool_decide_eq_true]; [lia|by destruct Hroom].
  - rewrite Forall_forall in *. intros p [->|Hp]%map_insert_in; [|by apply Hall]. split; [done|]. cbn.
    by destruct (PointerClickRequest_validate _) as [[]|].
Qed.

Section slots.
Context `{Serde} {W : Type} `{SeatStreams W, DiscoveryServer W, Stdio W} (io_text : ErrorKind → string).

(** What a tool call leaves remembered: a save that is admitted adds its click or puts it
    in the place of the one of that name. *)
Definition slots_after (name : str) (arguments : Value) (slots : StrMap PointerClickRequest)
  : StrMap PointerClickRequest :=
  if bool_decide (name = bstr "pointer_slot_save") then
    match from_value arguments with
    | Ok request =>
        if admitted_save slots request
        then map_insert (PointerSlotSaveRequest_name request) (action_of request) slots else slots
    | Err _ => slots
    end
  else slots.

(** The click that a tool call sends to the provider: the remembered one, for the generation
    the caller has observed. *)
Definition replayed (name : str) (arguments : Value) (slots : StrMap PointerClickRequest)
  : option PointerClickRequest :=
  if bool_decide (name = bstr "pointer_slot_replay") then
    match from_value arguments with
    | Ok request =>
        with_generation (PointerSlotReplayRequest_generation request)
          <$> map_get (PointerSlotReplayRequest_name request) slots
    | Err _ => None
    end
  else None.

Lemma pointer_slot_save_run arguments (session : ProviderSession) (w : W) :
  ∃ result,
    pointer_slot_save arguments (session, w) =
    (Ok result, ({| ProviderSession_seat := ProviderSession_seat session;
                    ProviderSession_pointer_slots :=
                      slots_after (bstr "pointer_slot_save") arguments (ProviderSession_pointer_slots session) |}, w)).
Proof.
  unfold pointer_slot_save, slots_after. rewrite bool_decide_true by done.
  destruct session as [seat slots]. cbn [ProviderSession_seat ProviderSession_pointer_slots].
  destruct (from_value arguments) as [request|e]; [|by eexists]. cbv zeta. fold (action_of request).
  unfold admitted_save. destruct (valid_pointer_slot_name _); cbn [negb andb]; [|by eexists].
  destruct (PointerClickRequest_validate _) as [[]|e]; cbn [is_ok andb]; [|by eexists].
  unfold bind, gets. cbn [fst ProviderSession_pointer_slots]. rewrite Z.ltb_antisym.
  destruct (MAX_POINTER_SLOTS <=? _), (bool_decide _); cbn [negb andb orb]; by eexists.
Qed.

Lemma pointer_slot_replay_run arguments (session : ProviderSession) (w : W) :
  slots_ok (ProviderSession_pointer_slots session) →
  match replayed (bstr "pointer_slot_replay") arguments (ProviderSession_pointer_slots session) with
  | Some action =>
      pointer_slot_replay io_text arguments (session, w) =
      (let! outcome := on_seat (call_seat io_text (Call_PointerClick action)) in ret (tool_outcome outcome)) (session, w)
  | None => ∃ result, pointer_slot_replay io_text arguments (session, w) = (Ok result, (session, w))
  end.
Proof.
  intros (_ & _ & Hall). rewrite Forall_forall in Hall. unfold pointer_slot_replay, replayed.
  rewrite bool_decide_true by done. destruct (from_value arguments) as [request|e]; [|by eexists].
  destruct (map_get _ _) as [action|] eqn:Hget; cbn [fmap option_fmap option_map].
  - destruct (Hall _ (map_get_Some _ _ _ Hget)) as [Hname _]. cbn in Hname. rewrite Hname. cbn [negb].
    unfold bind at 1, gets. cbn [fst]. by rewrite Hget.
  - destruct (valid_pointer_slot_name _); cbn [negb]; [|by eexists]. unfold bind, gets. cbn [fst]. rewrite Hget. by eexists.
Qed.

Lemma pointer_slots_list_run arguments (session : ProviderSession) (w : W) :
  ∃ result, pointer_slots_list arguments (session, w) = (Ok result, (session, w)).
Proof. unfold pointer_slots_list. destruct (from_value arguments); by eexists. Qed.

(** Remembered clicks.  A pointer-slot tool leaves at most 32 slots, in the order of their
    names, every one a valid click under a valid name.  A save stores exactly its own click
    when its name and its click are valid and there is room for it or a slot of that name,
    and nothing else changes a slot.  A replay of a remembered slot calls the provider with
    the remembered click and the generation of the caller, never the remembered generation,
    and its answer and its failure are the provider's; no other use of these tools reaches
    the provider or changes the connection, and none of those fails. *)
Theorem pointer_slots_exact name arguments (session : ProviderSession) (w : W) :
  let slots := ProviderSession_pointer_slots session in
  let arguments' := default (json_object []) arguments in
  slots_ok slots →
  let '(result, (session', w')) := pointer_slot_call io_text name arguments (session, w) in
  slots_ok (ProviderSession_pointer_slots session') ∧
  ProviderSession_pointer_slots session' = slots_after name arguments' slots ∧
  match replayed name arguments' slots with
  | Some action =>
      let '(outcome, (seat, world)) := call_seat io_text (Call_PointerClick action) (ProviderSession_seat session, w) in
      result = result_map tool_outcome outcome ∧ ProviderSession_seat session' = seat ∧ w' = world
  | None => (∃ shown, result = Ok shown) ∧ ProviderSession_seat session' = ProviderSession_seat session ∧ w' = w
  end.
Proof.
  cbv zeta. intros Hok. unfold pointer_slot_call.
  assert (∀ name arguments, slots_ok (slots_after name arguments (ProviderSession_pointer_slots session))) as Hafter.
  { intros name' arguments'. unfold slots_after. case_bool_decide; [|done]. destruct (from_value _); [|done].
    destruct (admitted_save _ _) eqn:?; [by apply map_insert_ok|done]. }
  set (arguments' := default _ _). specialize (Hafter name arguments').
  case_bool_decide as Hsave; [|case_bool_decide as Hreplay]; [subst name..|].
  - destruct (pointer_slot_save_run arguments' session w) as [result ->]. split; [done|]. split; [done|].
    cbn. by split; [eexists|].
  - pose proof (pointer_slot_replay_run arguments' session w Hok) as Hrun.
    change (slots_after _ _ _) with (ProviderSession_pointer_slots session) in *.
    destruct (replayed _ _ _) as [action|]; [|destruct Hrun as [result ->]].
    2: { split; [done|]. split; [done|]. by split; [eexists|]. }
    rewrite Hrun. unfold bind, on_seat, zoom. cbn [fst snd].
    by destruct (call_seat _ _ _) as [[outcome|e] [seat w']].
  - assert (slots_after name arguments' (ProviderSession_pointer_slots session) = ProviderSession_pointer_slots session)
      as Hslots by (unfold slots_after; by rewrite bool_decide_false).
    assert (replayed name arguments' (ProviderSession_pointer_slots session) = None) as ->
      by (unfold replayed; by rewrite bool_decide_false).
    rewrite Hslots in *.
    case_bool_decide; [destruct (pointer_slots_list_run arguments' session w) as [result ->]|];
      (split; [done|split; [done|split; [by eexists|by split]]]).
Qed.
End slots.

(** ** Recovery of a legacy client *)

Definition is_status (call : Call) : bool := match call with Call_SeatStatus _ => true | _ => false end.
Definition is_good (outcome : Outcome) : bool := match outcome with Outcome_Ok _ => true | _ => false end.

Section recovery.
Context `{Serde} {W : Type} `{SeatStreams W, DiscoveryServer W, Stdio W} (io_text : ErrorKind → string) (version : str).

(** How a legacy call ends: [status] when it may reconnect, [reconnects] and [recovers] of
    its outcome. *)
Definition legacy_after {A} (status : bool) (reconnects recovers : A → bool)
    (s : Server * W) (r : result A ProviderFailure) (s' : Server * W) : Prop :=
  let before := fst s in
  let after := fst s' in
  Server_modern_contexts after = Server_modern_contexts before ∧
  if Server_legacy_recovery_required before && negb status
  then r = Err legacy_status_required ∧ s' = s
  else
    (Server_legacy_session before = None ∧ after = before ∧ is_ok r = false) ∨
    (Server_legacy_session after = None ∧ Server_legacy_recovery_required after = true ∧
     match r with Ok a => reconnects a = true | Err error => error = ended_legacy_provider_session end) ∨
    (is_Some (Server_legacy_session after) ∧
     ∃ a, r = Ok a ∧ reconnects a = false ∧
          Server_legacy_recovery_required after = Server_legacy_recovery_required before && negb (recovers a)).

Lemma connect_seat_fields (s : Server * W) :
  wp (connect_seat version io_text)
    (λ _ s', Server_legacy_recovery_required (fst s') = Server_legacy_recovery_required (fst s) ∧
             Server_modern_contexts (fst s') = Server_modern_contexts (fst s))
    (λ _ s', fst s' = fst s) s.
Proof.
  apply wp_bind, wp_gets. destruct (Server_inherited_seat (fst s)) as [seat|]; [by apply wp_bind, wp_modify, wp_ret|].
  apply wp_bind, wp_gets, wp_bind, wp_map_error. unfold on_world at 1. apply wp_zoom. unfold wp at 1.
  destruct (resolve _ _) as [[[path|]|e] w']; [|by apply wp_fail|done].
  apply wp_map_error. unfold on_world. apply wp_zoom. unfold wp. by destruct (Seat_connect _ _ _ _) as [[]].
Qed.

Lemma open_legacy_fields (s : Server * W) :
  wp (open_legacy version io_text)
    (λ _ s', is_Some (Server_legacy_session (fst s')) ∧
             Server_legacy_recovery_required (fst s') = Server_legacy_recovery_required (fst s) ∧
             Server_modern_contexts (fst s') = Server_modern_contexts (fst s))
    (λ _ s', Server_legacy_session (fst s) = None ∧ fst s' = fst s) s.
Proof.
  apply wp_bind, wp_gets. destruct (Server_legacy_session (fst s)) as [session|] eqn:Hsession.
  { apply wp_ret. by rewrite Hsession. }
  apply wp_bind. eapply wp_mono; [apply connect_seat_fields| |done]. intros seat s1 Hs1. apply wp_modify. by split.
Qed.

(** What both kinds of legacy calls do. *)
Lemma legacy_call_after {A} status (reconnects recovers : A → bool)
    (op : M (ProviderSession * W) ProviderFailure A) (settle : A → M (Server * W) ProviderFailure unit) s :
  (∀ a s, is_Some (Server_legacy_session (fst s)) →
     let '(r, s') := settle a s in
     r = Ok tt ∧ Server_modern_contexts (fst s') = Server_modern_contexts (fst s) ∧
     if reconnects a then Server_legacy_session (fst s') = None ∧ Server_legacy_recovery_required (fst s') = true
     else Server_legacy_session (fst s') = Server_legacy_session (fst s) ∧
          Server_legacy_recovery_required (fst s') = Server_legacy_recovery_required (fst s) && negb (recovers a)) →
  Server_legacy_recovery_required (fst s) && negb status = false →
  let '(r, s') :=
    (open_legacy version io_text ;!
     let! result := on_legacy op in
     match result with
     | Ok a => settle a ;! ret a
     | Err _ => end_legacy ;! fail ended_legacy_provider_session
     end) s in
  legacy_after status reconnects recovers s r s'.
Proof.
  intros Hsettle Hopen. unfold legacy_after. rewrite Hopen. unfold bind at 1. pose proof (open_legacy_fields s) as Hw.
  unfold wp in Hw. destruct (open_legacy _ _ s) as [[[]|e] s1]; [|destruct Hw as [? Hs]; rewrite Hs; by eauto].
  destruct Hw as ([session Hsession] & Hrecovery & Hcontexts). destruct s1 as [s1 w1]. cbn [fst] in *.
  unfold bind, on_legacy. rewrite Hsession. destruct (op _) as [[a|e] [session' w']].
  - specialize (Hsettle a (set_legacy (Some session') (Server_legacy_recovery_required s1) s1, w')).
    destruct (settle a _) as [r [s2 w2]]. cbn [fst] in *. destruct Hsettle as (-> & Hc & Hif); [by eexists|].
    unfold ret. cbn in *. rewrite Hc. split; [done|]. right.
    destruct (reconnects a) eqn:Ha; [left|right]; [naive_solver|]. destruct Hif as [Hl Hr].
    rewrite Hl, Hr. split; [by eexists|]. exists a. cbn. by rewrite Hrecovery.
  - cbn. split; [done|]. right. by left.
Qed.

End recovery.

(** ** The published tools *)

Definition schema_keys (schema : Value) : list str :=
  match value_get (bstr "properties") schema with Some (Value_Object fields) => fst <$> fields | _ => [] end.
Definition schema_required (schema : Value) : option (list str) :=
  match value_get (bstr "required") schema with
  | None => Some []
  | Some (Value_Array required) => mapM value_str required
  | Some _ => None
  end.

(** An object of the properties given and no others, the required ones among them. *)
Definition closed_schema (schema : Value) : bool :=
  bool_decide ((value_get (bstr "type") schema ≫= value_str) = Some (bstr "object"))
  && match value_get (bstr "additionalProperties") schema with Some (Value_Bool false) => true | _ => false end
  && match schema_required schema with
     | Some required => bool_decide (NoDup required) && forallb (λ key, bool_decide (key ∈ schema_keys schema)) required
     | None => false
     end.

(** Whether the schema has a context, and requires it. *)
Definition wants_context (schema : Value) : bool :=
  bool_decide (bstr "context" ∈ schema_keys schema)
  && match schema_required schema with Some required => bool_decide (bstr "context" ∈ required) | None => false end.

Section published.
Context `{Serde}.

Lemma decode_as_known {T} `{FromValue T} variant value : decode_as (T:=T) variant value ≠ Err CallError_UnknownTool.
Proof. unfold decode_as, result_map, map_err. by destruct (from_value value). Qed.

Lemma call_decoders_known : Forall (λ p, ∀ value, snd p value ≠ Err CallError_UnknownTool) call_decoders.
Proof. repeat constructor; intros value; apply decode_as_known. Qed.

Lemma decoder_Some name decode :
  decoder name = Some decode → ∃ text, (text, decode) ∈ call_decoders ∧ name = bstr text.
Proof.
  unfold decoder. destruct (find _ call_decoders) as [[text decode']|] eqn:Hfind; [|done]. cbn. intros [= ->].
  apply find_some in Hfind as [Hin Hname%bool_decide_eq_true]. exists text. split; [|done].
  by apply list_elem_of_In.
Qed.

Lemma translate_known name arguments :
  translate_call name arguments = Err CallError_UnknownTool ↔ decoder name = None.
Proof.
  unfold translate_call. cbv zeta. destruct (decoder name) as [decode|] eqn:Hdecode; [|done].
  apply decoder_Some in Hdecode as (text & Hin & _). pose proof call_decoders_known as Hknown.
  rewrite Forall_forall in Hknown. specialize (Hknown _ Hin (default (json_object []) arguments)). cbn in Hknown.
  destruct (decode _) as [call|e]; cbn; [|by split; intros [= ->]]. by destruct (Call_validate call).
Qed.

Definition published (era : Era) : list str := (λ t, bstr (Tool_name t)) <$> tools era.


(** The names two lists share, by computation. *)
Definition same_names (l l' : list str) : bool :=
  forallb (λ name, bool_decide (name ∈ l')) l && forallb (λ name, bool_decide (name ∈ l)) l'.

Lemma same_names_in l l' name : same_names l l' = true → name ∈ l ↔ name ∈ l'.
Proof.
  intros [Hl Hl']%andb_true_iff. rewrite forallb_forall in Hl, Hl'.
  split; intros Hname%list_elem_of_In; [apply Hl in Hname|apply Hl' in Hname]; by apply bool_decide_eq_true in Hname.
Qed.
Abbreviation slot_tools := [bstr "pointer_slot_save"; bstr "pointer_slot_replay"; bstr "pointer_slots_list"].

Lemma published_same : same_names (published Era_Legacy) (((λ p, bstr (fst p)) <$> call_decoders) ++ slot_tools) = true.
Proof. by vm_compute. Qed.

Lemma decoder_in name : is_Some (decoder name) ↔ name ∈ ((λ p, bstr (fst p)) <$> call_decoders).
Proof.
  split.
  - intros [decode (text & Hin & ->)%decoder_Some]. by apply (list_elem_of_fmap_2 (λ p, bstr (fst p)) _ (text, decode)).
  - intros ((text & decode) & -> & Hin)%list_elem_of_fmap. unfold decoder. apply list_elem_of_In in Hin.
    destruct (find _ call_decoders) as [p|] eqn:Hfind; [by eexists|].
    pose proof (find_none _ _ Hfind _ Hin) as Hnone. by apply bool_decide_eq_false in Hnone.
Qed.

(** What is published is what is served.  The names of a list of tools differ, and a
    name is published to a legacy client exactly when a call of it is not refused as an
    unknown tool; a modern client is offered the same tools and seat_release besides.  Every
    argument schema is a closed object whose required properties are among its properties,
    each required once; every modern tool but seat_status demands a context, and no legacy
    tool, nor seat_status, has one. *)
Theorem published_tools_served :
  (∀ era, NoDup (published era)) ∧
  (∀ name, name ∈ published Era_Legacy ↔
     is_pointer_slot_tool name = true ∨ ∀ arguments, translate_call name arguments ≠ Err CallError_UnknownTool) ∧
  published Era_Modern = published Era_Legacy ++ [bstr "seat_release"] ∧
  (∀ era, Forall (λ t, closed_schema (Tool_input_schema t) = true) (tools era)) ∧
  Forall (λ t, bstr "context" ∉ schema_keys (Tool_input_schema t)) (tools Era_Legacy) ∧
  Forall (λ t, wants_context (Tool_input_schema t) = negb (bool_decide (Tool_name t = "seat_status"%string))
               ∧ (Tool_name t = "seat_status"%string → bstr "context" ∉ schema_keys (Tool_input_schema t)))
    (tools Era_Modern).
Proof.
  split_and!.
  - intros []; apply (bool_decide_unpack _); by vm_compute.
  - intros name. rewrite (same_names_in _ _ name published_same), elem_of_app, <- decoder_in.
    unfold is_pointer_slot_tool. rewrite bool_decide_eq_true, (comm or). apply or_iff_compat_l. split.
    + intros [decode Hdecode] arguments Hnone%translate_known. congruence.
    + intros Hknown. destruct (decoder name) eqn:Hdecode; [by eexists|].
      by destruct (Hknown None); apply translate_known.
  - by vm_compute.
  - intros []; apply (bool_decide_unpack _); by vm_compute.
  - apply (bool_decide_unpack _); by vm_compute.
  - apply (bool_decide_unpack _); by vm_compute.
Qed.
End published.
