(* ===== verification/McpContexts.v ===== *)
(** * Properties of the companion: contexts are isolated

    A modern client names the context a call is for.  A request touches no context but the
    one it names, a name is given out once, and a context that ended stays ended.  At the
    end a companion at work: a small world with a JSON library of four requests, a provider
    that welcomes everyone and answers everything, and a script of input lines. *)

From Stdlib Require Import Sorted.
From stdpp Require Import gmap list.
From S2P Require Import Prelude Text Bounded Protocol Effects Codec Message Session Json McpTools SeatClient Discovery Mcp McpTheorems McpCalls.

(** The context that a request names. *)
Definition addressed `{Serde} (request : RpcRequest) : option Z :=
  match from_value (RpcRequest_params request) : result CallToolParams string with
  | Ok params => match take_context (CallToolParams_arguments params) with Ok (context, _) => context | Err _ => None end
  | Err _ => None
  end.

(** Every name in use was given out. *)
Definition names_given (c : Contexts ProviderSession) : Prop :=
  map_Forall (λ context _, context < Contexts_next c) (Contexts_entries c).

(** From [c] to [c'] only the context [named], and contexts with new names, were touched. *)
Record isolates (named : option Z) (c c' : Contexts ProviderSession) : Prop := {
  isolates_given : names_given c → names_given c';
  isolates_next : Contexts_next c ≤ Contexts_next c';
  isolates_others context :
    context < Contexts_next c → named ≠ Some context →
    Contexts_entries c' !! context = Contexts_entries c !! context;
  isolates_ended context :
    context < Contexts_next c → Contexts_entries c !! context = None → Contexts_entries c' !! context = None
}.

#[export] Instance isolates_refl named : Reflexive (isolates named).
Proof. by split. Qed.
#[export] Instance isolates_trans named : Transitive (isolates named).
Proof.
  intros c1 c2 c3 H12 H23. pose proof (isolates_next _ _ _ H12). pose proof (isolates_next _ _ _ H23). split.
  - intros Hc. by apply H23, H12.
  - lia.
  - intros context Hcontext Hnamed.
    by rewrite (isolates_others _ _ _ H23), (isolates_others _ _ _ H12) by (done || lia).
  - intros context Hcontext Hnone. apply (isolates_ended _ _ _ H23); [lia|]. by apply (isolates_ended _ _ _ H12).
Qed.

Lemma isolates_put context session session' c :
  Contexts_get_mut c context = Some session → isolates (Some context) c (Contexts_put context session' c).
Proof.
  intros Hget. split; cbn; [|done| |].
  - intros Hc. apply map_Forall_insert_2; [by apply (Hc _ _ Hget)|done].
  - intros context' _ Hne. apply lookup_insert_ne. congruence.
  - intros context' _ Hnone. rewrite lookup_insert_ne; [done|]. intros ->. unfold Contexts_get_mut in Hget. congruence.
Qed.

Lemma isolates_remove context c : isolates (Some context) c (Contexts_remove context c).
Proof.
  split; cbn; [|done| |].
  - by apply map_Forall_delete.
  - intros context' _ Hne. apply lookup_delete_ne. congruence.
  - intros context' _ Hnone. apply lookup_delete_None. by right.
Qed.

Lemma isolates_insert named session c :
  isolates named c (snd (Contexts_insert session c)).
Proof.
  unfold Contexts_insert. destruct (Contexts_is_full c); [done|].
  destruct (checked_u64 _) as [next|] eqn:Hnext; [|done]. unfold checked_u64, checked_in in Hnext.
  case_match; simplify_eq. split; cbn.
  - intros Hc. apply map_Forall_insert_2; [cbn; lia|]. eapply map_Forall_impl; [exact Hc|]. cbn. lia.
  - lia.
  - intros context Hcontext _. apply lookup_insert_ne. lia.
  - intros context Hcontext Hnone. rewrite lookup_insert_ne by lia. done.
Qed.

Section isolation.
Context `{Serde} {W : Type} `{SeatStreams W, DiscoveryServer W, Stdio W} (io_text : ErrorKind → string) (version : str).

Definition isolated {E A} (named : option Z) (m : M (Server * W) E A) : Prop :=
  ∀ s, isolates named (Server_modern_contexts (fst s)) (Server_modern_contexts (fst (snd (m s)))).

Lemma isolated_ret {E A} named (a : A) : isolated (E:=E) named (ret a).
Proof. done. Qed.
Lemma isolated_fail {E A} named (e : E) : isolated (A:=A) named (fail e).
Proof. done. Qed.
Lemma isolated_lift {E A} named (r : result A E) : isolated named (lift r).
Proof. done. Qed.
Lemma isolated_server {E A} named (f : Server → A) : isolated (E:=E) named (server (W:=W) f).
Proof. done. Qed.
Lemma isolated_bind {E A B} named (m : M (Server * W) E A) (k : A → M (Server * W) E B) :
  isolated named m → (∀ a, isolated named (k a)) → isolated named (bind m k).
Proof.
  intros Hm Hk s. unfold bind. specialize (Hm s). destruct (m s) as [[a|e] s']; [|done].
  by etransitivity; [|apply (Hk a s')].
Qed.
Lemma isolated_map_error {E F A} named (f : E → F) (m : M (Server * W) E A) :
  isolated named m → isolated named (map_error f m).
Proof. intros Hm s. unfold map_error. specialize (Hm s). by destruct (m s). Qed.
Lemma isolated_attempt {E F A} named (m : M (Server * W) E A) :
  isolated named m → isolated (E:=F) named (attempt m).
Proof. intros Hm s. unfold attempt. specialize (Hm s). by destruct (m s). Qed.
Lemma isolated_world {E A} named (m : M W E A) : isolated named (on_world m).
Proof. intros [s w]. unfold on_world, zoom. cbn. by destruct (m w). Qed.
Lemma isolated_update {E} named f :
  (∀ s, Server_modern_contexts (f s) = Server_modern_contexts s) → isolated (E:=E) named (update (W:=W) f).
Proof. intros Hf [s w]. cbn. by rewrite Hf. Qed.
Lemma isolated_fresh {A} named session (m : M (ProviderSession * W) ProviderFailure A) : isolated named (on_fresh session m).
Proof. intros [s w]. unfold on_fresh. by destruct (m (session, w)) as [[a|e] [session' w']]. Qed.
Lemma isolated_legacy {A} named (m : M (ProviderSession * W) ProviderFailure A) : isolated named (on_legacy m).
Proof.
  intros [s w]. unfold on_legacy. destruct (Server_legacy_session s) as [session|]; [|done].
  by destruct (m (session, w)) as [r [session' w']].
Qed.
Lemma isolated_end_legacy {E} named : isolated (E:=E) named (end_legacy (W:=W)).
Proof. intros [s w]. done. Qed.
Lemma isolated_insert named session : isolated named (insert_context (W:=W) session).
Proof.
  intros [s w]. unfold insert_context. pose proof (isolates_insert named session (Server_modern_contexts s)) as Hi.
  by destruct (Contexts_insert _ _) as [[context|e] contexts].
Qed.
Lemma isolated_remove {E} context : isolated (E:=E) (Some context) (remove_context (W:=W) context).
Proof.
  intros [s w]. unfold remove_context. destruct (Contexts_get_mut _ _); [|done]. apply isolates_remove.
Qed.
Lemma isolated_context {A} context (m : M (ProviderSession * W) ProviderFailure A) :
  isolated (Some context) (on_context context m).
Proof.
  intros [s w]. unfold on_context. destruct (Contexts_get_mut _ _) as [session|] eqn:Hget; [|done].
  destruct (m (session, w)) as [r [session' w']]. by eapply isolates_put.
Qed.

Create HintDb isolation.
#[local] Hint Resolve isolated_ret isolated_fail isolated_lift isolated_server isolated_world isolated_fresh
  isolated_legacy isolated_end_legacy isolated_insert isolated_remove isolated_context : isolation.

Ltac solve_isolated :=
  repeat first
    [ progress intros
    | solve [eauto 2 with isolation]
    | apply isolated_bind | apply isolated_map_error | apply isolated_attempt
    | solve [by apply isolated_update]
    | match goal with
      | |- isolated _ (match ?x with _ => _ end) => destruct x
      | |- isolated _ (let _ := _ in _) => cbv zeta
      end ].

Lemma isolated_write_json named reply : isolated named (write_json (W:=W) reply).
Proof. unfold write_json. solve_isolated. Qed.
Lemma isolated_connect named : isolated named (connect_seat (W:=W) version io_text).
Proof. unfold connect_seat. solve_isolated. Qed.
Lemma isolated_tool {A} named (show : A → ToolResult) (m : M (Server * W) ProviderFailure A) :
  isolated named m → isolated named (tool_or_failure show m).
Proof. intros Hm. unfold tool_or_failure. by solve_isolated. Qed.
#[local] Hint Resolve isolated_write_json isolated_connect : isolation.

Lemma isolated_open named : isolated named (open_legacy (W:=W) version io_text).
Proof. unfold open_legacy. solve_isolated. Qed.
#[local] Hint Resolve isolated_open : isolation.

Lemma isolated_call_legacy named call : isolated named (provider_call_legacy (W:=W) version io_text call).
Proof. unfold provider_call_legacy. cbv zeta. solve_isolated. Qed.
Lemma isolated_slot_legacy named name arguments : isolated named (pointer_slot_legacy (W:=W) version io_text name arguments).
Proof. unfold pointer_slot_legacy. solve_isolated. Qed.
Lemma isolated_create named call : isolated named (create_modern_context (W:=W) version io_text call).
Proof. unfold create_modern_context. solve_isolated. Qed.
Lemma isolated_call_modern context call : isolated (Some context) (provider_call_modern (W:=W) io_text context call).
Proof. unfold provider_call_modern, settle_modern. solve_isolated. Qed.
Lemma isolated_slot_modern context name arguments :
  isolated (Some context) (pointer_slot_modern (W:=W) io_text context name arguments).
Proof. unfold pointer_slot_modern, settle_modern. solve_isolated. Qed.
#[local] Hint Resolve isolated_call_legacy isolated_slot_legacy isolated_create isolated_call_modern
  isolated_slot_modern isolated_tool : isolation.

Lemma isolated_list named id params era : isolated named (list_tools (W:=W) version id params era).
Proof. unfold list_tools, write_error, write_result. cbv zeta. solve_isolated. Qed.
Lemma isolated_initialize named id params : isolated named (initialize (W:=W) version id params).
Proof. unfold initialize, write_error, write_result. solve_isolated. Qed.
Lemma isolated_tool_legacy named id params : isolated named (call_tool_legacy (W:=W) version io_text id params).
Proof. unfold call_tool_legacy, write_error, write_result. solve_isolated. Qed.

Lemma isolated_tool_modern request id :
  isolated (addressed request) (call_tool_modern (W:=W) version io_text id (RpcRequest_params request)).
Proof.
  unfold call_tool_modern, addressed, write_modern_call_error, write_modern, write_error, write_result.
  destruct (from_value _) as [params|e]; [|solve_isolated]. cbv zeta.
  destruct (take_context _) as [[context arguments]|e]; [|solve_isolated].
  unfold seat_release, seat_status, write_modern_call_error, write_modern, write_error, write_result. solve_isolated.
Qed.
#[local] Hint Resolve isolated_list isolated_initialize isolated_tool_legacy isolated_tool_modern : isolation.

End isolation.

Module McpToy.

(** ** JSON *)

Definition field (name : string) (value : Value) : result Value string :=
  ok_or (value_get (bstr name) value) "missing field"%string.
Definition text_field (name : string) (value : Value) : result str string :=
  ok_or (value_get (bstr name) value ≫= value_str) "missing text"%string.
Definition number_field (name : string) (value : Value) : result Z string :=
  ok_or (match value_get (bstr name) value with Some (Value_Number number) => as_u64 number | _ => None end)
    "missing number"%string.
Definition or_null (value : option Value) : Value := default Value_Null value.

Definition undecoded {T} : FromValue T := λ _, Err "not in this library"%string.

(** A line is a digit, which names one of these. *)
Definition call_request (tool : string) (arguments : list (string * Value)) : Value :=
  json_object [("jsonrpc"%string, json_str "2.0"); ("id"%string, json_uint 7);
               ("method"%string, json_str "tools/call");
               ("params"%string, json_object [("name"%string, json_str tool);
                                              ("arguments"%string, json_object arguments)])].
Definition script : list Value :=
  [json_object [("jsonrpc"%string, json_str "2.0"); ("id"%string, json_uint 1);
                ("method"%string, json_str "initialize");
                ("params"%string, json_object
                   [("protocolVersion"%string, json_str "2025-11-25"); ("capabilities"%string, json_object []);
                    ("clientInfo"%string, json_object [("name"%string, json_str "client");
                                                       ("version"%string, json_str "1")])])];
   json_object [("jsonrpc"%string, json_str "2.0"); ("method"%string, json_str "notifications/initialized")];
   call_request "seat_status" [];
   call_request "pointer_slot_save"
     [("name"%string, json_str "ok"); ("client"%string, json_uint 5); ("generation"%string, json_uint 2);
      ("x"%string, json_uint 10); ("y"%string, json_uint 20)];
   call_request "pointer_slot_replay" [("name"%string, json_str "ok"); ("generation"%string, json_uint 3)]].

#[export] Instance toy_serde : Serde := {
  parse_json line := match line with [digit] => script !! Z.to_nat (digit - 48) | _ => None end;
  print_json _ := bstr "json";
  from_RpcRequest value :=
    let? jsonrpc := text_field "jsonrpc" value in
    let? method := text_field "method" value in
    Ok {| RpcRequest_jsonrpc := jsonrpc; RpcRequest_id := value_get (bstr "id") value;
          RpcRequest_method := method; RpcRequest_params := or_null (value_get (bstr "params") value) |};
  from_InitializeParams value :=
    let? version := text_field "protocolVersion" value in
    let? capabilities := field "capabilities" value in
    let? client := field "clientInfo" value in
    Ok {| InitializeParams_protocol_version := version; InitializeParams_capabilities := capabilities;
          InitializeParams_client_info := client; InitializeParams_meta := None |};
  from_DiscoverParams := undecoded;
  from_ListToolsParams := undecoded;
  from_CallToolParams value :=
    let? name := text_field "name" value in
    Ok {| CallToolParams_name := name; CallToolParams_arguments := value_get (bstr "arguments") value;
          CallToolParams_meta := None |};
  from_PointerSlotSaveRequest value :=
    let? name := text_field "name" value in
    let? client := number_field "client" value in
    let? generation := number_field "generation" value in
    let? x := number_field "x" value in
    let? y := number_field "y" value in
    Ok {| PointerSlotSaveRequest_name := name; PointerSlotSaveRequest_client := client;
          PointerSlotSaveRequest_generation := generation; PointerSlotSaveRequest_x := x;
          PointerSlotSaveRequest_y := y; PointerSlotSaveRequest_button := PointerButton_Primary |};
  from_PointerSlotReplayRequest value :=
    let? name := text_field "name" value in
    let? generation := number_field "generation" value in
    Ok {| PointerSlotReplayRequest_name := name; PointerSlotReplayRequest_generation := generation |};
  from_Empty value := Ok tt;
  from_SubscribeRequest := undecoded; from_PollRequest := undecoded; from_TargetRequest := undecoded;
  from_WorkspaceRequest := undecoded; from_ClientWorkspaceRequest := undecoded;
  from_ClientStateRequest := undecoded; from_ClientGeometryRequest := undecoded;
  from_ApplicationListRequest := undecoded; from_ApplicationLaunchRequest := undecoded;
  from_PointerMoveRequest := undecoded; from_PointerClickRequest := undecoded;
  from_KeyboardTypeRequest := undecoded; from_KeyboardWriteRequest := undecoded;
  from_KeyboardKeyRequest := undecoded; from_TextInsertRequest := undecoded;
  from_CaptureRegionRequest := undecoded;
  outcome_value _ := Ok (json_object []);
  tool_result_value _ := Ok (json_object []);
  tool_list_value _ := Ok (json_object []);
  click_value _ := Value_Null; target_value _ := Value_Null; region_value _ := Value_Null; format_value _ := Value_Null
}.

(** ** The world *)

Record World := { input : list str; journal : list Note; used : gset Stream; fresh_stream : Stream }.

Definition note (n : Note) (w : World) : World :=
  {| input := input w; journal := journal w ++ [n]; used := used w; fresh_stream := fresh_stream w |}.

(** The provider answers the last message it was sent. *)
Definition provider_frame (st : Stream) (w : World) : result (ReadFrame ServerMessage) CodecFailure :=
  match last (omap (λ n, match n with Note_Sent st' message _ => if st' =? st then Some message else None | _ => None end)
                (journal w)) with
  | Some (ClientMessage_Hello _) =>
      match welcome (bstr "1") 42 (mkBoundedList (MAX := MAX_CAPABILITIES) [Capability_InputPointer] eq_refl) with
      | Ok welcome => Ok (ReadFrame_Message (ServerMessage_Welcome welcome))
      | Err _ => Ok ReadFrame_CleanEof
      end
  | Some (ClientMessage_Request request) =>
      Ok (ReadFrame_Message (ServerMessage_Response
        {| Response_id := Request_id request;
           Response_outcome := Outcome_Ok (Reply_Launched {| LaunchReply_token := 1; LaunchReply_client := None |}) |}))
  | _ => Ok ReadFrame_CleanEof
  end.

#[export] Instance toy_streams : SeatStreams World := {
  connect_stream path w :=
    let st := fresh_stream w in
    if bool_decide (st ∈ used w) then (Err "no more streams"%string, w)
    else (Ok st, {| input := input w; journal := journal w ++ [Note_Opened st]; used := {[st]} ∪ used w;
                    fresh_stream := st + 1 |});
  set_stream_read_timeout st t := ret tt;
  set_stream_write_timeout st t := ret tt;
  send st message w := (Ok tt, note (Note_Sent st message true) w);
  receive_frame st w := (provider_frame st w, note (Note_Got st (provider_frame st w)) w);
  close_stream st w :=
    {| input := input w; journal := journal w ++ [Note_Closed st]; used := used w ∖ {[st]};
       fresh_stream := fresh_stream w |}
}.

#[export] Instance toy_discovery : DiscoveryServer World := {
  environment name w := if bool_decide (name = "AGENT_SEAT_SOCKET"%string) then Some (bstr "/run/seat") else None;
  connect_x11 := fail "no display"%string;
  existing_atom name := fail "no display"%string;
  selection_owner selection := fail "no display"%string;
  window_property window property longs := fail "no display"%string
}.

#[export] Instance toy_stdio : Stdio World := {
  read_line limit w :=
    let line := default [] (head (input w)) in
    (Ok line, {| input := tail (input w); journal := journal w ++ [Note_Line line]; used := used w;
                 fresh_stream := fresh_stream w |});
  write_value reply w := (Ok tt, note (Note_Reply reply) w);
  write_bytes b := ret tt;
  flush_output := ret tt
}.

#[export] Instance toy_companion : Companion World.
Proof.
  refine {| notes := journal; in_use := used |}; try done.
  intros path w. unfold wp. cbn. by case_bool_decide.
Defined.

(** Nobody is connected yet; the inherited connection is stream 9, at its request 4. *)
Definition world (lines : list string) : World :=
  {| input := bstr <$> lines; journal := []; used := {[9]}; fresh_stream := 10 |}.
Definition inherited : option Seat := Some {| Seat_stream := 9; Seat_next_request := 4 |}.
Definition no_text : ErrorKind → string := λ _, "I/O error"%string.

Abbreviation run lines := (serve (bstr "1") no_text 9 (Server_new None inherited, world lines)).

Definition session : list string := ["0"; "1"; "2"; "3"; "4"; "?"]%string.

(** The replayed click carries the generation of the caller. *)
Example replayed_click :
  last (omap (λ n, match n with Note_Sent _ (ClientMessage_Request request) _ => Some (Request_id request, Request_call request) | _ => None end)
          (journal (snd (snd (run session))))) =
  Some (5, Call_PointerClick {| PointerClickRequest_target := {| TargetRequest_client := 5; TargetRequest_generation := 3 |};
                                PointerClickRequest_x := 10; PointerClickRequest_y := 20;
                                PointerClickRequest_button := PointerButton_Primary |}).
Proof. vm_compute. reflexivity. Qed.

Definition start : gmap Stream Phase := list_to_map (prod_map id Phase_Idle <$> (seat_entry <$> option_list inherited)).

Lemma provider_sessions_sound_witness :
  fst (run session) = Ok true ∧ held (fst (snd (run session))) = [(9, 6)] ∧
  ∃ p, replay start (notes (snd (snd (run session)))) = Some p.
Proof.
  split; [vm_compute; reflexivity|]. split; [vm_compute; reflexivity|].
  pose proof (provider_sessions_sound no_text (bstr "1") None inherited 9 (world session) eq_refl
    ltac:(intros st id [= <- <-]; cbn; set_solver)) as Hrun.
  apply wp_either in Hrun as (p & Hp & _). exists p. exact Hp.
Defined.

Definition click (generation : Z) : PointerClickRequest :=
  {| PointerClickRequest_target := {| TargetRequest_client := 5; TargetRequest_generation := generation |};
     PointerClickRequest_x := 10; PointerClickRequest_y := 20; PointerClickRequest_button := PointerButton_Primary |}.
Definition slots : StrMap PointerClickRequest := [(bstr "ok", click 2)].
Definition seat : Seat := {| Seat_stream := 9; Seat_next_request := 4 |}.
Definition replay_arguments : Value :=
  json_object [("name"%string, json_str "ok"); ("generation"%string, json_uint 3)].

Lemma pointer_slots_exact_witness :
  slots_ok slots ∧
  let '(result, (session', w')) :=
    pointer_slot_call no_text (bstr "pointer_slot_replay") (Some replay_arguments)
      ({| ProviderSession_seat := seat; ProviderSession_pointer_slots := slots |}, world []) in
  let '(outcome, (seat', world')) := call_seat no_text (Call_PointerClick (click 3)) (seat, world []) in
  result = result_map tool_outcome outcome ∧ ProviderSession_seat session' = seat' ∧ w' = world'.
Proof.
  assert (slots_ok slots) as Hok.
  { split_and!; [repeat constructor|by vm_compute|]. repeat constructor; by vm_compute. }
  split; [exact Hok|].
  pose proof (pointer_slots_exact no_text (bstr "pointer_slot_replay") (Some replay_arguments)
    {| ProviderSession_seat := seat; ProviderSession_pointer_slots := slots |} (world []) Hok) as Hrun.
  assert (replayed (bstr "pointer_slot_replay") replay_arguments slots = Some (click 3)) as Hreplayed
    by (vm_compute; reflexivity).
  destruct (pointer_slot_call _ _ _ _) as [result [session' w']]. destruct Hrun as (_ & _ & Hcase).
  cbn [default from_option id ProviderSession_pointer_slots ProviderSession_seat] in Hcase.
  rewrite Hreplayed in Hcase. exact Hcase.
Defined.
End McpToy.
