(* ===== verification/Companion.v ===== *)
(** * [agent-seat-mcp/src/lib.rs]: the companion's command line

    The flags choose between serving standard input, with a socket to resolve or with the
    connection the service manager passed, and printing a registration.  The private
    registration is a transient service without authority that is given the connection. *)

From S2P Require Import Prelude Text Effects Protocol Advertisement Discovery Codec SeatClient Json McpTools Mcp Launch.

Definition INSTALLED_COMPANION : str := bstr "/usr/bin/agent-seat-mcp".
Definition PRIVATE_SOCKET_NAME : str := bstr "x11-input.sock".
Definition PROVIDER_FD_NAME : str := bstr "agent-seat-provider".

Class CompanionSystem (W : Type) := {
  (** [println!] *)
  print : str → W → W;
  (** [sd_listen_fds::get()] *)
  named_descriptors : M W string (list (option str * Stream))
}.

(** ** Arguments *)

Record Flags := { Flags_socket : option str; Flags_print_private : bool; Flags_provider_fd : bool }.
Definition no_flags : Flags := {| Flags_socket := None; Flags_print_private := false; Flags_provider_fd := false |}.

Definition with_socket (path : str) (f : Flags) : Flags :=
  {| Flags_socket := Some path; Flags_print_private := Flags_print_private f; Flags_provider_fd := Flags_provider_fd f |}.
Definition with_print_private (f : Flags) : Flags :=
  {| Flags_socket := Flags_socket f; Flags_print_private := true; Flags_provider_fd := Flags_provider_fd f |}.
Definition with_provider_fd (f : Flags) : Flags :=
  {| Flags_socket := Flags_socket f; Flags_print_private := Flags_print_private f; Flags_provider_fd := true |}.

Inductive Parsed := Parsed_Config | Parsed_Help | Parsed_Flags (flags : Flags).

(** [{:?}] of an argument *)
Fixpoint parse_flags (debug : str → string) (f : Flags) (arguments : list str) : result Parsed string :=
  match arguments with
  | [] => Ok (Parsed_Flags f)
  | argument :: arguments =>
      if bool_decide (argument = bstr "--socket") then
        if bool_decide (is_Some (Flags_socket f)) then Err "--socket may be specified only once"%string
        else match arguments with
             | path :: arguments => parse_flags debug (with_socket path f) arguments
             | [] => Err "--socket requires an absolute path"%string
             end
      else if bool_decide (argument = bstr "--print-mcp-config") then Ok Parsed_Config
      else if bool_decide (argument = bstr "--print-private-mcp-config") then
        if Flags_print_private f then Err "--print-private-mcp-config may be specified only once"%string
        else parse_flags debug (with_print_private f) arguments
      else if bool_decide (argument = bstr "--provider-fd") then
        if Flags_provider_fd f then Err "--provider-fd may be specified only once"%string
        else parse_flags debug (with_provider_fd f) arguments
      else if bool_decide (argument = bstr "--help") || bool_decide (argument = bstr "-h") then Ok Parsed_Help
      else Err ("unknown argument " +:+ debug argument)
  end.

(** ** The private registration *)

Definition private_systemd_arguments (socket : str) : list str :=
  [ bstr "--user";
    bstr "--pipe";
    bstr "--wait";
    bstr "--collect";
    bstr "--quiet";
    bstr "--service-type=exec";
    bstr "--property=PrivateDevices=yes";
    bstr "--property=DevicePolicy=strict";
    bstr "--property=PrivateNetwork=yes";
    bstr "--property=RestrictAddressFamilies=AF_UNIX";
    bstr "--property=SystemCallArchitectures=native";
    bstr "--property=SystemCallFilter=@system-service";
    bstr "--property=SystemCallErrorNumber=EPERM";
    bstr "--property=NoNewPrivileges=yes";
    bstr "--property=CapabilityBoundingSet=";
    bstr "--property=AmbientCapabilities=";
    bstr "--property=LockPersonality=yes";
    bstr "--property=MemoryDenyWriteExecute=yes";
    bstr "--property=RestrictNamespaces=yes";
    bstr "--property=RestrictRealtime=yes";
    bstr "--property=RestrictSUIDSGID=yes";
    bstr "--property=RemoveIPC=yes";
    bstr "--property=ProtectSystem=strict";
    bstr "--property=ProtectHome=yes";
    bstr "--property=PrivateTmp=yes";
    bstr "--property=ProtectProc=invisible";
    bstr "--property=ProcSubset=pid";
    bstr "--property=ProtectClock=yes";
    bstr "--property=ProtectControlGroups=yes";
    bstr "--property=ProtectHostname=yes";
    bstr "--property=ProtectKernelLogs=yes";
    bstr "--property=ProtectKernelModules=yes";
    bstr "--property=ProtectKernelTunables=yes";
    bstr "--property=InaccessiblePaths=-/dev/input -/dev/uinput";
    bstr "--property=TemporaryFileSystem=/run:ro";
    bstr "--property=NoExecPaths=/";
    bstr "--property=ExecPaths=/usr/bin/agent-seat-mcp -/usr/lib -/usr/lib64 -/lib -/lib64";
    bstr "--property=UnsetEnvironment=DISPLAY XAUTHORITY WAYLAND_DISPLAY DBUS_SESSION_BUS_ADDRESS SSH_AUTH_SOCK AGENT_SEAT_SOCKET HOME XDG_CONFIG_HOME XDG_DATA_HOME XDG_DATA_DIRS XDG_RUNTIME_DIR PATH";
    bstr "--property=UMask=0077";
    bstr "--property=TasksMax=2";
    bstr "--property=LimitNOFILE=32";
    bstr "--property=LimitCORE=0";
    bstr "--property=MemoryMax=64M";
    bstr "--property=CPUQuota=25%";
    bstr "--property=KillMode=mixed";
    bstr "--property=Restart=no";
    bstr "--property=OpenFile=" ++ socket ++ bstr ":" ++ PROVIDER_FD_NAME;
    bstr "--"; INSTALLED_COMPANION; bstr "--provider-fd" ].

(** [~] stands for the quotation mark. *)
Definition MCP_CONFIG : str :=
  map (λ b, if b =? 126 then 34 else b) (bstr "{~mcpServers~:{~agent-seat~:{~command~:~agent-seat-mcp~}}}").

Definition HELP : str := bstr
"agent-seat-mcp [--socket PATH]
agent-seat-mcp [--socket PATH] --print-private-mcp-config

Generic MCP companion for Agent Seat providers. Socket resolution order:
--socket, AGENT_SEAT_SOCKET, then selection-bound X11 discovery.
Initialization and tool listing do not resolve or connect to a seat.

--print-private-mcp-config emits a copyable systemd user-service
registration for the optional input deployment. It uses an explicit
provider socket and gives the companion no X11, input-device, broker,
home, network, or arbitrary-executable authority.".

Section companion.
Context `{Serde} {W : Type} `{SeatStreams W, DiscoveryServer W, Stdio W, CompanionSystem W}.
Context (io_text : ErrorKind → string) (version : str) (pid : Z) (debug : str → string).

Definition say (text : str) : M W string unit := modify (print text).

Definition private_socket (explicit : option str) : M W string str :=
  match explicit with
  | Some path => ret path
  | None =>
      let! runtime := gets (environment "XDG_RUNTIME_DIR") in
      match runtime with
      | None => fail "XDG_RUNTIME_DIR or an explicit --socket is required for the private MCP profile"%string
      | Some runtime =>
          if negb (is_absolute runtime) then fail "XDG_RUNTIME_DIR must be absolute"%string
          else ret (path_join (path_join runtime (bstr "agent-seat")) PRIVATE_SOCKET_NAME)
      end
  end.

Definition print_private_mcp_config (explicit_socket : option str) : M W string unit :=
  let! socket := private_socket explicit_socket in
  if negb (utf8_valid socket) then fail "private-profile socket path must be UTF-8"%string
  else
    let! _ := lift (map_err (λ error, "invalid private-profile socket path: " +:+ AdvertisementError_to_string error)
                      (Advertisement_new socket)) in
    say (print_json (json_object [("mcpServers"%string, json_object [("agent-seat"%string, json_object [
      ("command"%string, Value_String SYSTEMD_RUN);
      ("args"%string, Value_Array (Value_String <$> private_systemd_arguments socket))])])])).

Definition inherited_seat : M W string Seat :=
  let! listen_pid := gets (environment "LISTEN_PID") in
  let! listen_fds := gets (environment "LISTEN_FDS") in
  let! listen_names := gets (environment "LISTEN_FDNAMES") in
  if bool_decide (listen_pid ≠ Some (to_dec pid)) || bool_decide (listen_fds ≠ Some (bstr "1"))
     || bool_decide (listen_names ≠ Some PROVIDER_FD_NAME)
  then fail "inherited provider descriptor environment is not exact"%string
  else
    let! descriptors := map_error (λ _, "inherited provider descriptor environment is malformed"%string)
                          named_descriptors in
    match descriptors with
    | [(name, descriptor)] =>
        if bool_decide (name ≠ Some PROVIDER_FD_NAME)
        then fail "inherited provider descriptor name is invalid"%string
        else map_error SeatError_message (Seat_from_stream io_text version descriptor)
    | _ => fail "exactly one inherited provider descriptor is required"%string
    end.

(** The loop over the lines; whether the input ended among so many of them. *)
Definition serve_from (lines : nat) (socket : option str) (seat : option Seat) : M W string bool := λ w,
  let '(r, (_, w)) := Mcp.serve version io_text lines (Server_new socket seat, w) in (r, w).

Definition run (lines : nat) (arguments : list str) : M W string bool :=
  let! parsed := lift (parse_flags debug no_flags arguments) in
  match parsed with
  | Parsed_Config => say MCP_CONFIG ;! ret true
  | Parsed_Help => say HELP ;! ret true
  | Parsed_Flags flags =>
      if Flags_print_private flags then
        if Flags_provider_fd flags then fail "--provider-fd cannot print an MCP configuration"%string
        else print_private_mcp_config (Flags_socket flags) ;! ret true
      else if Flags_provider_fd flags then
        if bool_decide (is_Some (Flags_socket flags))
        then fail "--provider-fd cannot be combined with --socket"%string
        else
          let! seat := inherited_seat in
          serve_from lines None (Some seat)
      else serve_from lines (Flags_socket flags) None
  end.
End companion.

(** Of all arguments only one holds the socket. *)
Example private_arguments_named :
  filter (λ argument, contains_str (bstr "/run/user/1000/agent-seat/x11-input.sock") argument = true)
    (private_systemd_arguments (bstr "/run/user/1000/agent-seat/x11-input.sock")) =
  [bstr "--property=OpenFile=/run/user/1000/agent-seat/x11-input.sock:agent-seat-provider"].
Proof. vm_compute. reflexivity. Qed.
