(* ===== verification/Enroll.v ===== *)
(** * [agent-seat-activity-enroll.rs]: arguments and the inspection of the devices

    The administrator's tool for the activity broker.  It asks sysfs and udev what the input
    devices are, without opening one, and asks again before it believes them. *)

From stdpp Require Import gmap sorting strings.
From S2P Require Import Prelude Text Effects Host BrokerProtocol InputSet DeviceSet BrokerSystem PolicyStore.

Definition UDEVADM : str := bstr "/usr/bin/udevadm".
Definition SYSFS_INPUT : str := bstr "/sys/class/input".
Definition DEV_INPUT : str := bstr "/dev/input".
Definition SUPPORTED_SEAT : str := bstr "seat0".
Definition MAX_UDEV_OUTPUT_BYTES : Z := 16 * 1024.
Definition MAX_SYSFS_PATH_BYTES : Z := 4 * 1024.
Definition MAX_SYSFS_CAPABILITY_BYTES : Z := 4 * 1024.
(** in nanoseconds *)
Definition MAX_UDEV_QUERY_DURATION : Z := 2 * 1000000000.
Definition PROPERTY_NAMES : str := bstr "ID_BUS,ID_INPUT,ID_INPUT_KEY,ID_INPUT_KEYBOARD,ID_INPUT_MOUSE,ID_INPUT_TOUCHPAD,ID_INPUT_TOUCHSCREEN,ID_INPUT_TABLET,ID_MODEL_ID,ID_PATH,ID_REVISION,ID_SEAT,ID_SERIAL_SHORT,ID_VENDOR_ID".

(** ** What the tool calls *)

(** [fs::symlink_metadata] *)
Record Status := {
  Status_type : FileType;
  Status_char_device : bool;
  Status_dev : Z;
  Status_ino : Z;
  Status_nlink : Z;
  Status_uid : Z;
  Status_mode : Z;
  Status_rdev : Z;
  Status_len : Z;
  Status_mtime : Z;
  Status_mtime_nsec : Z
}.

(** [ExitStatus]: whether it is a success, and its text. *)
Record ExitStatus := { ExitStatus_success : bool; ExitStatus_text : string }.

Class EnrollSystem (W : Type) := {
  lstat : str → M W IoError Status;
  (** [fs::read_dir]: the name of each entry, or its error *)
  list_directory : str → M W IoError (list (result str IoError));
  canonical_path : str → M W IoError str;
  (** [File::open(path)] and [take(count).read_to_end(..)]; [fs::read] *)
  read_at_most : str → Z → M W IoError bytes;
  read_file : str → M W IoError bytes;
  (** a child with its standard output piped, or with none; without an environment *)
  spawn_piped : str → list str → M W IoError Child;
  spawn_silent : str → list str → M W IoError Child;
  take_stdout : Child → W → option Fd * W;
  stdout_getfl : Fd → M W IoError Z;
  stdout_setfl : Fd → Z → M W IoError unit;
  stdout_read : Fd → Z → M W IoError bytes;
  try_status : Child → M W IoError (option ExitStatus);
  kill_child : Child → M W IoError unit;
  wait_child : Child → M W IoError unit;
  (** [Instant::now()], in nanoseconds; [thread::sleep] *)
  instant : W → Z * W;
  pause : Z → W → W;
  (** [writeln!] to the locked standard output; [println!] *)
  write_line : str → M W IoError unit;
  say_line : str → W → W;
  (** [fs::create_dir] and [DirBuilder::mode(..).create(..)] *)
  make_directory : str → M W IoError unit;
  make_private_directory : str → M W IoError unit;
  change_mode : str → Z → M W IoError unit;
  (** [OpenOptions::new().write(true).create_new(true).mode(..)] *)
  create_file : str → Z → M W IoError File;
  change_file_mode : File → Z → M W IoError unit;
  write_file : File → bytes → M W IoError unit;
  sync_file : File → M W IoError unit;
  unlink : str → M W IoError unit;
  remove_directory : str → M W IoError unit;
  (** [File::open] of a directory, and the calls relative to it *)
  open_directory : str → M W IoError File;
  openat_exclusive : File → str → Z → M W IoError File;
  renameat_noreplace : File → str → str → M W IoError unit;
  unlinkat : File → str → M W IoError unit
}.

(** A failure, or the end of the fuel of a loop that waits. *)
Inductive EnrollStop := EnrollStop_Error (message : string) | EnrollStop_OutOfFuel.

(** ** Arguments *)

Record BundleOptions := { BundleOptions_uid : Z; BundleOptions_session : str; BundleOptions_directory : str }.
Record ArmOptions := { ArmOptions_uid : Z; ArmOptions_session : str }.

Inductive Options :=
| Options_Help
| Options_Inspect
| Options_Render (options : BundleOptions)
| Options_Verify (options : BundleOptions)
| Options_Install (options : BundleOptions)
| Options_Arm (options : ArmOptions)
| Options_Stop (uid : Z)
| Options_Purge (uid : Z).

Definition utf8_value (value : option str) (option : string) : result str string :=
  match value with
  | Some value => if utf8_valid value then Ok value else Err (option +:+ " requires a valid UTF-8 value")
  | None => Err (option +:+ " requires a valid UTF-8 value")
  end.

Definition parse_nonzero_uid (value : option str) : result Z string :=
  let? value := utf8_value value "--uid" in
  let? uid := ok_or (parse_u32 value) "--uid requires a nonzero numeric UID"%string in
  if uid =? 0 then Err "--uid requires a nonzero numeric UID"%string else Ok uid.

(** [byte.is_ascii_alphanumeric() || b"_.-".contains(&byte)] *)
Definition is_name_byte (b : Z) : bool := is_ascii_alphanumeric b || contains b (bstr "_.-").
Definition is_plain_name (value : str) : bool :=
  negb (is_empty value) && (len value <=? 64) && forallb is_name_byte value.

Definition parse_session (value : option str) : result str string :=
  let? value := utf8_value value "--session" in
  if negb (is_plain_name value) then Err "--session is malformed"%string else Ok value.

Definition is_safe_absolute_path (path : str) : bool :=
  is_absolute path && forallb is_root_or_normal (components path).

(** [debug] is not needed here: arguments are shown as they are. *)
Definition unknown {A} (argument : str) : result A string := Err ("unknown argument: " +:+ display argument).
Definition once {A} (argument : str) : result A string := Err (display argument +:+ " may be specified only once").
Definition not_utf8 {A} : result A string := Err "arguments must be valid UTF-8"%string.

(** What is left of the iterator after [next()] *)
Definition next (arguments : list str) : option str := head arguments.

(** The loops end with their arguments, of which each round takes one or two. *)
Fixpoint parse_inspect (fuel : nat) (seat : option str) (arguments : list str) : result Options string :=
  match fuel, arguments with
  | S fuel, argument :: arguments =>
      if negb (utf8_valid argument) then not_utf8
      else if bool_decide (argument = bstr "--seat") then
        if bool_decide (is_Some seat) then Err "--seat may be specified only once"%string
        else
          let? value := ok_or (value ← next arguments; if utf8_valid value then Some value else None)
                          "--seat requires seat0"%string in
          parse_inspect fuel (Some value) (tail arguments)
      else unknown argument
  | _, _ =>
      if bool_decide (default SUPPORTED_SEAT seat ≠ SUPPORTED_SEAT)
      then Err "only seat0 is currently supported"%string else Ok Options_Inspect
  end.

Fixpoint parse_arm (fuel : nat) (confirmed : bool) (uid : option Z) (session : option str) (arguments : list str)
  : result ArmOptions string :=
  match fuel, arguments with
  | S fuel, argument :: arguments =>
      if negb (utf8_valid argument) then not_utf8
      else if bool_decide (argument = bstr "--confirm-arm") then
        if confirmed then once argument else parse_arm fuel true uid session arguments
      else if bool_decide (argument = bstr "--uid") then
        if bool_decide (is_Some uid) then once argument
        else let? value := parse_nonzero_uid (next arguments) in
             parse_arm fuel confirmed (Some value) session (tail arguments)
      else if bool_decide (argument = bstr "--session") then
        if bool_decide (is_Some session) then once argument
        else let? value := parse_session (next arguments) in
             parse_arm fuel confirmed uid (Some value) (tail arguments)
      else unknown argument
  | _, _ =>
      if negb confirmed then Err "arm requires --confirm-arm"%string
      else
        let? uid := ok_or uid "--uid is required"%string in
        let? session := ok_or session "--session is required"%string in
        Ok {| ArmOptions_uid := uid; ArmOptions_session := session |}
  end.
Definition parse_arm_options (arguments : list str) : result ArmOptions string :=
  parse_arm (length arguments) false None None arguments.

Definition parse_stop_options (arguments : list str) : result Z string :=
  match arguments with
  | [] => Err "stop requires --uid"%string
  | option :: arguments =>
      if bool_decide (option ≠ bstr "--uid") then Err "stop accepts only --uid UID"%string
      else
        let? uid := parse_nonzero_uid (next arguments) in
        if negb (is_empty (tail arguments)) then Err "stop accepts only --uid UID"%string else Ok uid
  end.

Fixpoint parse_confirmed (fuel : nat) (confirmation : str) (confirmed : bool) (uid : option Z) (arguments : list str)
  : result Z string :=
  match fuel, arguments with
  | S fuel, argument :: arguments =>
      if negb (utf8_valid argument) then not_utf8
      else if bool_decide (argument = confirmation) && negb confirmed
      then parse_confirmed fuel confirmation true uid arguments
      else if bool_decide (argument = bstr "--uid") && negb (bool_decide (is_Some uid)) then
        let? value := parse_nonzero_uid (next arguments) in
        parse_confirmed fuel confirmation confirmed (Some value) (tail arguments)
      else if bool_decide (argument = confirmation) || bool_decide (argument = bstr "--uid") then once argument
      else unknown argument
  | _, _ =>
      if negb confirmed then Err ("operation requires " +:+ display confirmation)
      else ok_or uid "--uid is required"%string
  end.
Definition parse_confirmed_uid (arguments : list str) (confirmation : str) : result Z string :=
  parse_confirmed (length arguments) confirmation false None arguments.

Fixpoint parse_bundle (fuel : nat) (directory_option : str) (uid : option Z) (session directory : option str)
    (arguments : list str) : result BundleOptions string :=
  match fuel, arguments with
  | S fuel, argument :: arguments =>
      if negb (utf8_valid argument) then Err "arguments must be valid UTF-8 except for --output"%string
      else if bool_decide (argument = bstr "--uid") && negb (bool_decide (is_Some uid)) then
        let? value := parse_nonzero_uid (next arguments) in
        parse_bundle fuel directory_option (Some value) session directory (tail arguments)
      else if bool_decide (argument = bstr "--session") && negb (bool_decide (is_Some session)) then
        let? value := parse_session (next arguments) in
        parse_bundle fuel directory_option uid (Some value) directory (tail arguments)
      else if bool_decide (argument = directory_option) && negb (bool_decide (is_Some directory)) then
        let? value := ok_or (next arguments) (display directory_option +:+ " requires an absolute directory") in
        if negb (is_safe_absolute_path value)
        then Err (display directory_option +:+ " requires a normalized absolute directory")
        else parse_bundle fuel directory_option uid session (Some value) (tail arguments)
      else if bool_decide (argument = bstr "--uid") || bool_decide (argument = bstr "--session")
              || bool_decide (argument = directory_option) then once argument
      else unknown argument
  | _, _ =>
      let? uid := ok_or uid "--uid is required"%string in
      let? session := ok_or session "--session is required"%string in
      let? directory := ok_or directory (display directory_option +:+ " is required") in
      Ok {| BundleOptions_uid := uid; BundleOptions_session := session; BundleOptions_directory := directory |}
  end.
Definition parse_bundle_options (arguments : list str) (directory_option : string) : result BundleOptions string :=
  parse_bundle (length arguments) (bstr directory_option) None None None arguments.

(** The confirmation and the arguments that remain. *)
Fixpoint split_confirmation (confirmed : bool) (remaining arguments : list str) : result (bool * list str) string :=
  match arguments with
  | [] => Ok (confirmed, remaining)
  | argument :: arguments =>
      if bool_decide (argument = bstr "--confirm-install") then
        if confirmed then Err "--confirm-install may be specified only once"%string
        else split_confirmation true remaining arguments
      else split_confirmation confirmed (remaining ++ [argument]) arguments
  end.
Definition parse_install_options (arguments : list str) : result BundleOptions string :=
  let? '(confirmed, remaining) := split_confirmation false [] arguments in
  if negb confirmed then Err "install requires --confirm-install"%string
  else parse_bundle_options remaining "--bundle".

Definition Options_parse (arguments : list str) : result Options string :=
  match tail arguments with
  | [] => Err "a command is required; use --help"%string
  | command :: arguments =>
      if negb (utf8_valid command) then not_utf8
      else if bool_decide (command = bstr "-h") || bool_decide (command = bstr "--help") then
        if negb (is_empty arguments) then Err "--help does not accept arguments"%string else Ok Options_Help
      else if bool_decide (command = bstr "inspect") then parse_inspect (length arguments) None arguments
      else if bool_decide (command = bstr "render") then
        result_map Options_Render (parse_bundle_options arguments "--output")
      else if bool_decide (command = bstr "verify") then
        result_map Options_Verify (parse_bundle_options arguments "--bundle")
      else if bool_decide (command = bstr "install") then result_map Options_Install (parse_install_options arguments)
      else if bool_decide (command = bstr "arm") then result_map Options_Arm (parse_arm_options arguments)
      else if bool_decide (command = bstr "stop") then result_map Options_Stop (parse_stop_options arguments)
      else if bool_decide (command = bstr "purge") then
        result_map Options_Purge (parse_confirmed_uid arguments (bstr "--confirm-purge"))
      else Err ("unknown command: " +:+ display command)
  end.

(** ** The properties of udev *)

(** [BTreeMap<String, String>] *)
Definition Properties : Type := gmap str str.

Fixpoint parse_properties (debug : str → string) (properties : Properties) (ls : list str) : result Properties string :=
  match ls with
  | [] => Ok properties
  | line :: ls =>
      if is_empty line then parse_properties debug properties ls
      else
        let? '(name, value) := ok_or (split_once 61 line) "udev property output is malformed"%string in
        if negb (bool_decide (name ∈ split 44 PROPERTY_NAMES))
        then Err ("udev returned unexpected property " +:+ debug name)
        else if bool_decide (is_Some (properties !! name))
        then Err ("udev returned duplicate property " +:+ debug name)
        else parse_properties debug (<[name := value]> properties) ls
  end.

Definition Properties_parse (debug : str → string) (output : bytes) : result Properties string :=
  if MAX_UDEV_OUTPUT_BYTES <? len output then Err "udev property output exceeds its bound"%string
  else if negb (utf8_valid output) then Err "udev property output is not UTF-8"%string
  else parse_properties debug ∅ (lines output).

Definition flag (self : Properties) (name : string) : result bool string :=
  match self !! bstr name with
  | None => Ok false
  | Some value => if bool_decide (value = bstr "1") then Ok true
                  else Err ("udev property " +:+ name +:+ " has an unexpected value")
  end.

Definition Properties_seat (self : Properties) : result str string :=
  let seat := default SUPPORTED_SEAT (self !! bstr "ID_SEAT") in
  if negb (is_plain_name seat) then Err "udev ID_SEAT is malformed"%string else Ok seat.

Definition class_properties : list (string * str) :=
  [("ID_INPUT_KEY"%string, bstr "key"); ("ID_INPUT_KEYBOARD"%string, bstr "keyboard");
   ("ID_INPUT_MOUSE"%string, bstr "mouse"); ("ID_INPUT_TOUCHPAD"%string, bstr "touchpad");
   ("ID_INPUT_TOUCHSCREEN"%string, bstr "touchscreen"); ("ID_INPUT_TABLET"%string, bstr "tablet")].

Fixpoint flagged (self : Properties) (properties : list (string * str)) : result (list str) string :=
  match properties with
  | [] => Ok []
  | (property, label) :: properties =>
      let? set := flag self property in
      let? classes := flagged self properties in
      Ok (if set then label :: classes else classes)
  end.

Definition relevant_classes (self : Properties) : result (list str) string :=
  let? input := flag self "ID_INPUT" in
  if negb input then Ok [] else flagged self class_properties.

Definition Properties_identity (self : Properties) : result DeviceIdentity string :=
  let? path := ok_or (self !! bstr "ID_PATH") "udev ID_PATH is required for relevant-device identity"%string in
  map_err (λ error, "udev relevant-device identity is malformed: " +:+ DeviceSetError_to_string error)
    (DeviceIdentity_new path (self !! bstr "ID_BUS") (self !! bstr "ID_VENDOR_ID") (self !! bstr "ID_MODEL_ID")
       (self !! bstr "ID_REVISION") (self !! bstr "ID_SERIAL_SHORT")).

(** [strip_suffix('\n').unwrap_or(..)] *)
Definition strip_newline (value : str) : str :=
  if bool_decide (last value = Some 10) then removelast value else value.

(** What [Path::strip_prefix("/")] leaves of an absolute path that starts with a name: no
    empty components or [.] at the end. *)
Definition relative_part (path : str) : str :=
  join (bstr "/") (reverse (drop_while skippable (reverse (split 47 (tail path))))).

Definition is_normal (c : Component) : bool := match c with Normal _ => true | _ => false end.

Definition parse_sysfs_path (output : bytes) : result str string :=
  if MAX_SYSFS_PATH_BYTES <? len output then Err "udev sysfs path exceeds its bound"%string
  else if negb (utf8_valid output) then Err "udev sysfs path is not UTF-8"%string
  else
    let value := strip_newline output in
    if is_empty value || contains 10 value || negb (starts_with (bstr "/devices/") value)
    then Err "udev sysfs path is malformed"%string
    else
      let relative := relative_part value in
      if negb (forallb is_normal (components relative)) then Err "udev sysfs path is malformed"%string
      else Ok (path_join (bstr "/sys") relative).

(** ** Queries *)

Section enroll.
Context {W : Type} `{EnrollSystem W}.

Definition stop {A} (m : M W string A) : M W EnrollStop A := map_error EnrollStop_Error m.
Definition refuse {A} (message : string) : M W EnrollStop A := fail (EnrollStop_Error message).
(** [map_err(|error| format!("{prefix}: {error}"))?] *)
Definition call {A} (prefix : string) (m : M W IoError A) : M W EnrollStop A := stop (context prefix m).
Definition checked {A} (r : result A string) : M W EnrollStop A := lift (map_err EnrollStop_Error r).
Definition read_clock : M W EnrollStop Z := λ w, let '(now, w) := instant w in (Ok now, w).
Definition say (text : str) : M W EnrollStop unit := modify (say_line text).

Definition stop_child (child : Child) : M W EnrollStop unit :=
  ignore (kill_child child) ;! ignore (wait_child child).

(** The child is stopped and the failure returned. *)
Definition stopping {A} (child : Child) (message : string) : M W EnrollStop A :=
  stop_child child ;! refuse message.

(** The loop over the output, up to its end. *)
Fixpoint read_output (fuel : nat) (executable : str) (child : Child) (stdout : Fd) (deadline : Z) (output : bytes)
  : M W EnrollStop bytes :=
  match fuel with
  | O => fail EnrollStop_OutOfFuel
  | S fuel =>
      let! got := attempt (stdout_read stdout 4096) in
      match got with
      | Ok [] => ret output
      | Ok got =>
          if MAX_UDEV_OUTPUT_BYTES <? len output + len got
          then stopping child (display executable +:+ " output exceeds its bound")
          else read_output fuel executable child stdout deadline (output ++ got)
      | Err error =>
          match IoError_kind error with
          | IoError_WouldBlock =>
              let! now := read_clock in
              if deadline <=? now then stopping child (display executable +:+ " query exceeded its time bound")
              else modify (pause (5 * 1000000)) ;! read_output fuel executable child stdout deadline output
          | _ => stopping child ("cannot read " +:+ display executable +:+ " output: " +:+ IoError_text error)
          end
      end
  end.

(** The loop until the child has ended; [cannot_wait] and [late] are its errors. *)
Fixpoint await_child (fuel : nat) (child : Child) (deadline interval : Z) (late cannot_wait : string)
  : M W EnrollStop ExitStatus :=
  match fuel with
  | O => fail EnrollStop_OutOfFuel
  | S fuel =>
      let! status := attempt (try_status child) in
      match status with
      | Ok (Some status) => ret status
      | Ok None =>
          let! now := read_clock in
          if now <? deadline
          then modify (pause interval) ;! await_child fuel child deadline interval late cannot_wait
          else stopping child late
      | Err error => stopping child (cannot_wait +:+ ": " +:+ IoError_text error)
      end
  end.

Definition run_udevadm (fuel : nat) (executable : str) (arguments : list str) : M W EnrollStop bytes :=
  let! child := call ("cannot execute " +:+ display executable) (spawn_piped executable arguments) in
  let! stdout := λ w, let '(stdout, w) := take_stdout child w in (Ok stdout, w) in
  match stdout with
  | None => stopping child ("cannot read " +:+ display executable +:+ " output")
  | Some stdout =>
      let unbounded error := "cannot bound " +:+ display executable +:+ " output: " +:+ IoError_text error in
      let! flags := attempt (stdout_getfl stdout) in
      match flags with
      | Err error => stopping child (unbounded error)
      | Ok flags =>
          let! set := attempt (stdout_setfl stdout (Z.lor flags NONBLOCK)) in
          match set with
          | Err error => stopping child (unbounded error)
          | Ok _ =>
              let! start := read_clock in
              let deadline := start + MAX_UDEV_QUERY_DURATION in
              let! output := read_output fuel executable child stdout deadline [] in
              let! status := await_child fuel child deadline (5 * 1000000)
                               (display executable +:+ " query exceeded its time bound")
                               ("cannot wait for " +:+ display executable) in
              if negb (ExitStatus_success status)
              then refuse (display executable +:+ " refused an input device query")
              else ret output
          end
      end
  end.

Context (debug : str → string) (fuel : nat).

Definition query_properties (udevadm device : str) : M W EnrollStop Properties :=
  let! output := run_udevadm fuel udevadm
                   [bstr "info"; bstr "--query=property"; bstr "--property"; PROPERTY_NAMES; bstr "--name"; device] in
  checked (Properties_parse debug output).

Definition query_sysfs_path (udevadm device : str) : M W EnrollStop str :=
  let! output := run_udevadm fuel udevadm [bstr "info"; bstr "--query=path"; bstr "--name"; device] in
  checked (parse_sysfs_path output).

Definition read_sysfs_value (path : str) : M W EnrollStop str :=
  let! metadata := call ("cannot inspect " +:+ display path) (lstat path) in
  if bool_decide (Status_type metadata ≠ FileType_File)
  then refuse (display path +:+ " is not a direct sysfs attribute")
  else
    let! bytes := call ("cannot read " +:+ display path) (read_at_most path (MAX_SYSFS_CAPABILITY_BYTES + 1)) in
    if MAX_SYSFS_CAPABILITY_BYTES <? len bytes then refuse (display path +:+ " exceeds its read bound")
    else if negb (utf8_valid bytes) then refuse (display path +:+ " is not UTF-8")
    else
      let value := strip_newline bytes in
      if contains 10 value then refuse (display path +:+ " contains multiple lines") else ret value.

Definition capability_files : list str :=
  bstr <$> ["capabilities/abs"; "capabilities/ev"; "capabilities/ff"; "capabilities/key"; "capabilities/led";
            "capabilities/msc"; "capabilities/rel"; "capabilities/snd"; "capabilities/sw"; "properties"]%string.

Definition read_device_capabilities (class_path : str) : M W EnrollStop DeviceCapabilities :=
  let device_path := path_join class_path (bstr "device") in
  let! values := traverse (λ relative, read_sysfs_value (path_join device_path relative)) capability_files in
  checked (map_err (λ error, "kernel input capabilities are malformed: " +:+ DeviceSetError_to_string error)
             (DeviceCapabilities_new values)).

(** ** The inspection *)

Record InspectedDevice := {
  InspectedDevice_event_number : Z;
  InspectedDevice_device_node : str;
  InspectedDevice_sysfs_path : str;
  InspectedDevice_classes : list str;
  InspectedDevice_identity : DeviceIdentity;
  InspectedDevice_capabilities : DeviceCapabilities;
  InspectedDevice_device_id : Z
}.

Record InspectedInputSet := {
  InspectedInputSet_mappings : list InputClassMapping;
  InspectedInputSet_devices : list InspectedDevice
}.

Record ObservedInputEvent := {
  ObservedInputEvent_mapping : InputClassMapping;
  ObservedInputEvent_device_node : str;
  ObservedInputEvent_device_id : Z
}.

#[local] Instance DeviceIdentity_eq_dec : EqDecision DeviceIdentity.
Proof. solve_decision. Defined.
#[local] Instance DeviceCapabilities_eq_dec : EqDecision DeviceCapabilities.
Proof. solve_decision. Defined.

(** [event_number]: the canonical decimal after [event] *)
Definition enroll_event_number (name : str) : option Z :=
  if negb (utf8_valid name) then None
  else
    number ← strip_prefix (bstr "event") name;
    if is_empty number || negb (forallb is_ascii_digit number) then None
    else
      parsed ← parse_u32 number;
      if bool_decide (to_dec parsed = number) then Some parsed else None.

(** The entries with a number, up to the first that fails. *)
Fixpoint event_entries (sysfs_input : str) (entries : list (result str IoError)) : result (list (Z * str)) string :=
  match entries with
  | [] => Ok []
  | Err error :: _ => Err ("cannot enumerate input devices: " +:+ IoError_text error)
  | Ok name :: entries =>
      let? rest := event_entries sysfs_input entries in
      Ok (match enroll_event_number name with
          | Some number => (number, path_join sysfs_input name) :: rest
          | None => rest
          end)
  end.

(** The numbers of different names differ, so the order is that of the sort of the code. *)
Definition sort_event_entries (entries : list (Z * str)) : list (Z * str) := merge_sort number_le entries.

(** Paths are compared by their components. *)
Definition same_path (p q : str) : bool := bool_decide (components p = components q).

Definition disappeared (node : str) : string := "device node " +:+ display node +:+ " disappeared during inspection".

(** One event of the class: what is observed, and the device when it is relevant. *)
Definition inspect_entry (dev_input udevadm seat : str) (event_number : Z) (class_path : str) (relevant : Z)
  : M W EnrollStop (ObservedInputEvent * option InspectedDevice) :=
  let device_node := path_join dev_input (event_name event_number) in
  let! metadata := call (disappeared device_node) (lstat device_node) in
  if negb (Status_char_device metadata) then refuse (display device_node +:+ " is not a direct character device")
  else
    let! canonical_class := call ("cannot resolve input sysfs path " +:+ display class_path) (canonical_path class_path) in
    let! properties := query_properties udevadm device_node in
    let! capabilities := read_device_capabilities class_path in
    let! reported_sysfs := query_sysfs_path udevadm device_node in
    if negb (same_path canonical_class reported_sysfs)
    then refuse ("sysfs and udev identity disagree for " +:+ display device_node)
    else
      let! mapping := checked (map_err (λ error, "invalid input class mapping: " +:+ InputSetError_to_string error)
                                 (InputClassMapping_new event_number reported_sysfs)) in
      let! classes := checked (relevant_classes properties) in
      let! device_seat := checked (Properties_seat properties) in
      let observed := {| ObservedInputEvent_mapping := mapping; ObservedInputEvent_device_node := device_node;
                         ObservedInputEvent_device_id := Status_rdev metadata |} in
      if bool_decide (device_seat = seat) && negb (is_empty classes) then
        if Z.of_nat MAX_EVENT_DESCRIPTORS <=? relevant
        then refuse ("relevant device count exceeds the " +:+ display (to_dec (Z.of_nat MAX_EVENT_DESCRIPTORS))
                     +:+ "-device runtime bound")
        else
          let! identity := checked (Properties_identity properties) in
          ret (observed, Some {| InspectedDevice_event_number := event_number;
                                 InspectedDevice_device_node := device_node;
                                 InspectedDevice_sysfs_path := reported_sysfs;
                                 InspectedDevice_classes := classes;
                                 InspectedDevice_identity := identity;
                                 InspectedDevice_capabilities := capabilities;
                                 InspectedDevice_device_id := Status_rdev metadata |})
      else ret (observed, None).

Fixpoint inspect_entries (dev_input udevadm seat : str) (entries : list (Z * str))
    (observed : list ObservedInputEvent) (devices : list InspectedDevice)
  : M W EnrollStop (list ObservedInputEvent * list InspectedDevice) :=
  match entries with
  | [] => ret (observed, devices)
  | (event_number, class_path) :: entries =>
      let! '(event, device) := inspect_entry dev_input udevadm seat event_number class_path (len devices) in
      inspect_entries dev_input udevadm seat entries (observed ++ [event])
        (match device with Some device => devices ++ [device] | None => devices end)
  end.

(** The node and the path of an event, asked for again. *)
Definition recheck_event (sysfs_input : str) (event : ObservedInputEvent) : M W EnrollStop unit :=
  let node := ObservedInputEvent_device_node event in
  let mapping := ObservedInputEvent_mapping event in
  let! metadata := call (disappeared node) (lstat node) in
  let class_path := path_join sysfs_input (event_name (event_number mapping)) in
  let! canonical_class := call ("input sysfs path " +:+ display class_path +:+ " changed during inspection")
                            (canonical_path class_path) in
  if negb (Status_char_device metadata) || negb (Status_rdev metadata =? ObservedInputEvent_device_id event)
     || negb (same_path canonical_class (sysfs_path mapping))
  then refuse ("device identity changed during inspection: " +:+ display node) else ret tt.

(** The evidence of a relevant device, asked for again: each question only when the ones
    before had the same answer. *)
Definition recheck_device (sysfs_input udevadm seat : str) (device : InspectedDevice) : M W EnrollStop unit :=
  let changed := refuse ("relevant device evidence changed during inspection: "
                         +:+ display (InspectedDevice_device_node device)) in
  let! properties := query_properties udevadm (InspectedDevice_device_node device) in
  let class_path := path_join sysfs_input (event_name (InspectedDevice_event_number device)) in
  let! device_seat := checked (Properties_seat properties) in
  if bool_decide (device_seat ≠ seat) then changed
  else
    let! classes := checked (relevant_classes properties) in
    if bool_decide (classes ≠ InspectedDevice_classes device) then changed
    else
      let! identity := checked (Properties_identity properties) in
      if bool_decide (identity ≠ InspectedDevice_identity device) then changed
      else
        let! capabilities := read_device_capabilities class_path in
        if bool_decide (capabilities ≠ InspectedDevice_capabilities device) then changed else ret tt.

Definition inspect_devices (sysfs_input dev_input udevadm seat : str) : M W EnrollStop InspectedInputSet :=
  let! entries := call ("cannot enumerate " +:+ display sysfs_input) (list_directory sysfs_input) in
  let! entries := checked (event_entries sysfs_input entries) in
  if MAX_INPUT_CLASS_MAPPINGS <? len entries
  then refuse ("input device count exceeds the " +:+ display (to_dec MAX_INPUT_CLASS_MAPPINGS) +:+ "-device scan bound")
  else
    let! '(observed, devices) := inspect_entries dev_input udevadm seat (sort_event_entries entries) [] [] in
    if is_empty devices then refuse ("no relevant input devices were found for " +:+ display seat)
    else
      for_each (recheck_event sysfs_input) observed ;!
      for_each (recheck_device sysfs_input udevadm seat) devices ;!
      ret {| InspectedInputSet_mappings := ObservedInputEvent_mapping <$> observed;
             InspectedInputSet_devices := devices |}.

Definition inspect_seat : M W EnrollStop InspectedInputSet :=
  inspect_devices SYSFS_INPUT DEV_INPUT UDEVADM SUPPORTED_SEAT.

(** ** The report *)

Definition identity_strength (strength : IdentityStrength) : str :=
  match strength with
  | IdentityStrength_Topology => bstr "topology"
  | IdentityStrength_Serial => bstr "serial"
  end.

(** The lines on one device, in the report and in the review. *)
Definition device_lines (device : InspectedDevice) : list str :=
  [ []; bstr "device=" ++ InspectedDevice_device_node device; bstr "sysfs=" ++ InspectedDevice_sysfs_path device;
    bstr "classes=" ++ join (bstr ",") (InspectedDevice_classes device);
    bstr "identity_strength=" ++ identity_strength (DeviceIdentity_strength (InspectedDevice_identity device));
    bstr "coverage_evidence=topology+capabilities" ].

Definition report_lines (seat : str) (devices : list InspectedDevice) : list str :=
  [bstr "Agent Seat physical-input candidate"; bstr "seat=" ++ seat; bstr "device_count=" ++ to_dec (len devices)]
  ++ concat (device_lines <$> devices)
  ++ [[]; bstr "review_only=true"; bstr "No input device was opened and no enrollment was written."].

Definition write_report (seat : str) (devices : list InspectedDevice) : M W EnrollStop unit :=
  for_each (λ line, call "cannot write inspection report" (write_line line)) (report_lines seat devices).
End enroll.
