(* ===== verification/EnrollInstall.v ===== *)
(** * [agent-seat-activity-enroll.rs]: the bundle, its installation and its life

    A bundle is four units, the two manifests and a review; it is rendered into a new
    directory, verified against the current seat, installed without overwriting anything,
    armed and purged.  The four unit sources are those of [contrib/systemd]. *)

From stdpp Require Import gmap strings.
From S2P Require Import Prelude Text Effects Host BrokerProtocol InputSet DeviceSet BrokerSystem PolicyStore Enroll.

Definition BROKER_EXEC : str := bstr "/usr/bin/agent-seat-activity-broker".
Definition GUARD_EXEC : str := bstr "/usr/bin/agent-seat-eligibility-guard".
Definition GUARD_USER : str := bstr "agent-seat-guard".
Definition SYSTEMD_UNIT_DIRECTORY : str := bstr "/etc/systemd/system".
Definition ENROLLMENT_BASE_DIRECTORY : str := bstr "/etc/agent-seat/activity".
Definition MAX_BUNDLE_FILE_BYTES : Z := 64 * 1024.
(** in nanoseconds *)
Definition ARM_STABILITY_INTERVAL : Z := 750 * 1000000.
Definition SYSTEMCTL : str := bstr "/usr/bin/systemctl".
Definition SYSTEMCTL_TIMEOUT : Z := 5 * 1000000000.

Definition BROKER_SERVICE_SOURCE : str := bstr
"# Enrollment renders this source as one uniquely named persistent .service unit.
# It is deliberately not installable or runnable with placeholders intact.
[Unit]
Description=Agent Seat physical-activity broker connection
Documentation=https://github.com/ZaguanLabs/agent-seat-proto
Requires=@SOCKET_UNIT@
Requires=@ELIGIBILITY_SOCKET_UNIT@
After=@SOCKET_UNIT@ @ELIGIBILITY_SOCKET_UNIT@
StartLimitIntervalSec=infinity
StartLimitBurst=1
CollectMode=inactive-or-failed

[Service]
Type=exec
DynamicUser=yes
StandardInput=file:@ELIGIBILITY_PATH@
StandardOutput=socket
StandardError=journal
ExecStart=@BROKER_EXEC@ --uid @PROVIDER_UID@
OpenFile=@DEVICE_SET_PATH@:enrolled-device-set:read-only
@EVENT_OPEN_FILES@

# Passed descriptors are usable, but the process cannot open devices or sockets.
DevicePolicy=strict
@EVENT_DEVICE_ALLOW@
PrivateDevices=yes
PrivateNetwork=yes
RestrictAddressFamilies=none
SystemCallArchitectures=native
SystemCallFilter=@system-service
SystemCallErrorNumber=EPERM

# The dedicated account retains no machine-administration authority.
NoNewPrivileges=yes
CapabilityBoundingSet=
AmbientCapabilities=
LockPersonality=yes
MemoryDenyWriteExecute=yes
RestrictNamespaces=yes
RestrictRealtime=yes
RestrictSUIDSGID=yes
RemoveIPC=yes

# Only the executable, loader, own process descriptors, and inherited FDs are needed.
ProtectSystem=strict
ProtectHome=yes
PrivateTmp=yes
ProtectProc=invisible
ProcSubset=pid
ProtectClock=yes
ProtectControlGroups=yes
ProtectHostname=yes
ProtectKernelLogs=yes
ProtectKernelModules=yes
ProtectKernelTunables=yes
UnsetEnvironment=DISPLAY XAUTHORITY WAYLAND_DISPLAY DBUS_SESSION_BUS_ADDRESS SSH_AUTH_SOCK
TemporaryFileSystem=/run:ro
NoExecPaths=/
ExecPaths=@BROKER_EXEC@ -/usr/lib -/usr/lib64 -/lib -/lib64

# Bounds are part of the service contract, not tuning suggestions.
UMask=0077
TasksMax=2
LimitNOFILE=64
LimitCORE=0
MemoryMax=32M
CPUQuota=10%
KillMode=mixed
Restart=no
".

Definition BROKER_SOCKET_SOURCE : str := bstr
"# Enrollment renders this source as a uniquely named .socket unit.
# There is intentionally no [Install] section: arming is an explicit start.
[Unit]
Description=Agent Seat physical-activity broker socket
Documentation=https://github.com/ZaguanLabs/agent-seat-proto

[Socket]
ListenStream=@BROKER_SOCKET@
SocketUser=@PROVIDER_UID@
SocketMode=0600
# Root owns the parent. Execute-only traversal lets the enrolled UID reach the
# exact 0600 socket without listing or replacing entries in the directory.
DirectoryMode=0711
Accept=no
Backlog=1
RemoveOnStop=yes
".

Definition GUARD_SERVICE_SOURCE : str := bstr
"# Enrollment renders this source as one uniquely named eligibility service.
# It has logind and input-class metadata visibility but no event-node or display authority.
[Unit]
Description=Agent Seat session-eligibility guard
Documentation=https://github.com/ZaguanLabs/agent-seat-proto
Requires=@ELIGIBILITY_SOCKET_UNIT@
After=@ELIGIBILITY_SOCKET_UNIT@ dbus.socket systemd-logind.service
StartLimitIntervalSec=infinity
StartLimitBurst=1
CollectMode=inactive-or-failed

[Service]
Type=exec
User=@GUARD_USER@
StandardInput=socket
StandardOutput=journal
StandardError=journal
ExecStart=@GUARD_EXEC@ --session @SESSION_ID@ --uid @PROVIDER_UID@ --seat seat0 --listen-stdin --peer-uid 0
OpenFile=@INPUT_SET_PATH@:initial-input-set:read-only

DevicePolicy=strict
PrivateDevices=yes
PrivateNetwork=yes
# AF_NETLINK is used only for the kernel kobject-uevent group. PrivateNetwork
# keeps other network-namespace metadata outside the service's view.
RestrictAddressFamilies=AF_UNIX AF_NETLINK
SystemCallArchitectures=native
SystemCallFilter=@system-service
SystemCallErrorNumber=EPERM

NoNewPrivileges=yes
CapabilityBoundingSet=
AmbientCapabilities=
LockPersonality=yes
MemoryDenyWriteExecute=yes
RestrictNamespaces=yes
RestrictRealtime=yes
RestrictSUIDSGID=yes
RemoveIPC=yes

ProtectSystem=strict
ProtectHome=yes
PrivateTmp=yes
ProtectProc=invisible
ProcSubset=pid
ProtectClock=yes
ProtectControlGroups=yes
ProtectHostname=yes
ProtectKernelLogs=yes
ProtectKernelModules=yes
ProtectKernelTunables=yes
UnsetEnvironment=DISPLAY XAUTHORITY WAYLAND_DISPLAY DBUS_SESSION_BUS_ADDRESS SSH_AUTH_SOCK
TemporaryFileSystem=/run:ro
BindReadOnlyPaths=/run/dbus/system_bus_socket
NoExecPaths=/
ExecPaths=@GUARD_EXEC@ -/usr/lib -/usr/lib64 -/lib -/lib64

UMask=0077
TasksMax=2
LimitNOFILE=32
LimitCORE=0
MemoryMax=32M
CPUQuota=10%
KillMode=mixed
Restart=no
".

Definition GUARD_SOCKET_SOURCE : str := bstr
"# Enrollment renders this source as a uniquely named .socket unit.
# There is intentionally no [Install] section: arming is an explicit start.
[Unit]
Description=Agent Seat session-eligibility socket
Documentation=https://github.com/ZaguanLabs/agent-seat-proto

[Socket]
ListenStream=@ELIGIBILITY_SOCKET@
SocketMode=0600
DirectoryMode=0711
Accept=no
Backlog=1
RemoveOnStop=yes
Service=@ELIGIBILITY_SERVICE_UNIT@
".

Definition HELP : str := bstr
"agent-seat-activity-enroll - inspect a physical-seat input candidate

USAGE:
  agent-seat-activity-enroll inspect [--seat seat0]
  agent-seat-activity-enroll render --uid UID --session ID --output ABSOLUTE-DIRECTORY
  agent-seat-activity-enroll verify --uid UID --session ID --bundle ABSOLUTE-DIRECTORY
  agent-seat-activity-enroll install --uid UID --session ID --bundle ABSOLUTE-DIRECTORY --confirm-install
  agent-seat-activity-enroll arm --uid UID --session ID --confirm-arm
  agent-seat-activity-enroll stop --uid UID
  agent-seat-activity-enroll purge --uid UID --confirm-purge
  agent-seat-activity-enroll --help

OPTIONS:
  --seat seat0       Inspect the only currently supported physical seat
  --uid UID          Numeric owner of the X11 session
  --session ID       Exact logind session identifier
  --output DIRECTORY New private directory for the review bundle
  --bundle DIRECTORY Existing private review bundle to verify
  --confirm-install  Confirm the explicit root-only file installation
  --confirm-arm      Confirm one explicit root-only arm cycle
  --confirm-purge    Confirm removal of the exact UID-bound installed files
  -h, --help         Print this help

Inspect, render, and verify are unprivileged and read only sysfs metadata, device-node
metadata, and selected udev properties. They do not open input devices, read
events, install units, start services, change permissions, or modify Agent
Seat policy. Render writes four inert unit files, complete input-class and
reviewed-device manifests, and a human-readable review record to a new
mode-0700 directory. It never overwrites an existing path.
Verify regenerates the expected bundle from the current seat and requires an
exact, private, direct-file match. It changes nothing.

Install is a separate root-only transaction. It re-verifies the current seat
and the UID-owned review bundle, requires root-owned packaged executables, and
creates new root-owned enrollment and unit files without overwrite. It never
enables, reloads, starts, stops, or rearms a service and never changes groups,
ACLs, udev rules, provider policy, or device permissions.

Arm is a separate root-only current-set verification and one fresh service
cycle. After verification it stops any prior terminal cycle before starting a
new instance. It does not enable automatic startup. Stop terminates only the
exact UID-bound broker and guard units. Neither command changes enrollment or
provider policy.
Purge first stops those units, removes only exact root-owned Agent Seat files,
and reloads the system manager. It does not remove another package's files.

These commands make the experimental deployment testable; they do not make
input a supported Agent Seat profile. The separate deployment, confinement,
session, lock, and hostile-test gates still apply.".

(** ** The bundle *)

Record RenderedFile := { RenderedFile_name : str; RenderedFile_contents : bytes }.
Record RenderedBundle := { RenderedBundle_files : list RenderedFile }.

Record UnitNames := {
  UnitNames_broker_service : str;
  UnitNames_broker_socket : str;
  UnitNames_guard_service : str;
  UnitNames_guard_socket : str
}.

Definition UnitNames_new (uid : Z) : UnitNames := {|
  UnitNames_broker_service := bstr "agent-seat-activity-broker-" ++ to_dec uid ++ bstr ".service";
  UnitNames_broker_socket := bstr "agent-seat-activity-broker-" ++ to_dec uid ++ bstr ".socket";
  UnitNames_guard_service := bstr "agent-seat-eligibility-guard-" ++ to_dec uid ++ bstr ".service";
  UnitNames_guard_socket := bstr "agent-seat-eligibility-guard-" ++ to_dec uid ++ bstr ".socket" |}.
Definition unit_names (units : UnitNames) : list str :=
  [UnitNames_broker_service units; UnitNames_broker_socket units; UnitNames_guard_service units;
   UnitNames_guard_socket units].

Definition INPUT_SET_FILE : str := bstr "initial-input-set.v1".
Definition DEVICE_SET_FILE : str := bstr "enrolled-device-set.v1".
Definition REVIEW_FILE : str := bstr "REVIEW.txt".

(** [str::replace] of a nonempty pattern; each round takes at least a byte of the text. *)
Fixpoint replace_from (fuel : nat) (pattern to s : str) : str :=
  match fuel with
  | O => s
  | S fuel =>
      match strip_prefix pattern s, s with
      | Some rest, _ => to ++ replace_from fuel pattern to rest
      | None, c :: s => c :: replace_from fuel pattern to s
      | None, [] => []
      end
  end.
Definition replace (pattern : string) (to s : str) : str := replace_from (length s) (bstr pattern) to s.

Fixpoint replace_all (replacements : list (string * str)) (s : str) : str :=
  match replacements with
  | [] => s
  | (pattern, to) :: replacements => replace_all replacements (replace pattern to s)
  end.

Definition markers : list string :=
  ["@SOCKET_UNIT@"; "@ELIGIBILITY_SOCKET_UNIT@"; "@BROKER_EXEC@"; "@PROVIDER_UID@"; "@ELIGIBILITY_PATH@";
   "@EVENT_OPEN_FILES@"; "@EVENT_DEVICE_ALLOW@"; "@DEVICE_SET_PATH@"; "@BROKER_SOCKET@"; "@GUARD_EXEC@";
   "@GUARD_USER@"; "@SESSION_ID@"; "@INPUT_SET_PATH@"; "@ELIGIBILITY_SOCKET@"; "@ELIGIBILITY_SERVICE_UNIT@"]%string.

Definition is_resolved (source : str) : bool := negb (existsb (λ marker, contains_str (bstr marker) source) markers).

Fixpoint check_resolved (units : list (str * str)) : result unit string :=
  match units with
  | [] => Ok tt
  | (name, source) :: units =>
      if is_resolved source then check_resolved units
      else Err ("rendered unit " +:+ display name +:+ " contains an unresolved marker")
  end.

Definition runtime_directory (uid : Z) : str := bstr "/run/agent-seat/" ++ to_dec uid.
Definition enrollment_directory (uid : Z) : str := path_join ENROLLMENT_BASE_DIRECTORY (to_dec uid).

Definition open_file_line (index : Z) (device : InspectedDevice) : str :=
  bstr "OpenFile=" ++ InspectedDevice_device_node device ++ bstr ":event" ++ to_dec index ++ bstr ":read-only".
Definition event_open_files (devices : list InspectedDevice) : str :=
  join [10] (imap (λ index device, open_file_line (Z.of_nat index) device) devices).
Definition event_device_allow (devices : list InspectedDevice) : str :=
  join [10] ((λ device, bstr "DeviceAllow=" ++ InspectedDevice_device_node device ++ bstr " r") <$> devices).

(** The four units with their names. *)
Definition rendered_units (options : BundleOptions) (devices : list InspectedDevice) : list (str * str) :=
  let units := UnitNames_new (BundleOptions_uid options) in
  let provider_uid := to_dec (BundleOptions_uid options) in
  let broker_socket_path := runtime_directory (BundleOptions_uid options) ++ bstr "/activity.sock" in
  let eligibility_socket_path := runtime_directory (BundleOptions_uid options) ++ bstr "/eligibility.sock" in
  let installed := bstr "/etc/agent-seat/activity/" ++ provider_uid ++ bstr "/" in
  [ (UnitNames_broker_service units,
     replace_all [("@SOCKET_UNIT@"%string, UnitNames_broker_socket units);
                  ("@ELIGIBILITY_SOCKET_UNIT@"%string, UnitNames_guard_socket units);
                  ("@BROKER_EXEC@"%string, BROKER_EXEC); ("@PROVIDER_UID@"%string, provider_uid);
                  ("@ELIGIBILITY_PATH@"%string, eligibility_socket_path);
                  ("@DEVICE_SET_PATH@"%string, installed ++ DEVICE_SET_FILE);
                  ("@EVENT_OPEN_FILES@"%string, event_open_files devices);
                  ("@EVENT_DEVICE_ALLOW@"%string, event_device_allow devices)] BROKER_SERVICE_SOURCE);
    (UnitNames_broker_socket units,
     replace_all [("@BROKER_SOCKET@"%string, broker_socket_path); ("@PROVIDER_UID@"%string, provider_uid)]
       BROKER_SOCKET_SOURCE);
    (UnitNames_guard_service units,
     replace_all [("@ELIGIBILITY_SOCKET_UNIT@"%string, UnitNames_guard_socket units);
                  ("@GUARD_EXEC@"%string, GUARD_EXEC); ("@GUARD_USER@"%string, GUARD_USER);
                  ("@SESSION_ID@"%string, BundleOptions_session options);
                  ("@PROVIDER_UID@"%string, provider_uid);
                  ("@INPUT_SET_PATH@"%string, installed ++ INPUT_SET_FILE)] GUARD_SERVICE_SOURCE);
    (UnitNames_guard_socket units,
     replace_all [("@ELIGIBILITY_SOCKET@"%string, eligibility_socket_path);
                  ("@ELIGIBILITY_SERVICE_UNIT@"%string, UnitNames_guard_service units)] GUARD_SOCKET_SOURCE) ].

Definition review_lines (options : BundleOptions) (inspection : InspectedInputSet) : list str :=
  let units := UnitNames_new (BundleOptions_uid options) in
  [ bstr "AGENT SEAT EXPERIMENTAL INPUT REVIEW BUNDLE"; [];
    bstr "review_only=true";
    bstr "supported=false";
    bstr "seat=" ++ SUPPORTED_SEAT;
    bstr "provider_uid=" ++ to_dec (BundleOptions_uid options);
    bstr "session=" ++ BundleOptions_session options;
    bstr "device_count=" ++ to_dec (len (InspectedInputSet_devices inspection));
    bstr "complete_input_class_count=" ++ to_dec (len (InspectedInputSet_mappings inspection));
    bstr "input_set_file=initial-input-set.v1";
    bstr "device_set_file=enrolled-device-set.v1";
    bstr "installed_input_set=/etc/agent-seat/activity/" ++ to_dec (BundleOptions_uid options) ++ bstr "/" ++ INPUT_SET_FILE;
    [];
    bstr "This directory was generated without elevated privilege. It was not";
    bstr "installed, enabled, or started. Generic Openbox input remains gated on";
    bstr "a trusted lock transition and the documented hostile deployment tests."; [];
    bstr "units:" ]
  ++ ((λ name, bstr "  " ++ name) <$> unit_names units)
  ++ concat (device_lines <$> InspectedInputSet_devices inspection)
  ++ [ []; bstr "The desktop user and dynamic broker require no input-group membership.";
       bstr "PID 1 would open only the listed event nodes and pass read-only FDs." ].

(** Writing to a vector does not fail. *)
Definition render_review (options : BundleOptions) (inspection : InspectedInputSet) : bytes :=
  concat ((λ line, line ++ [10]) <$> review_lines options inspection).

Fixpoint enrolled_devices (devices : list InspectedDevice) : result (list EnrolledDevice) DeviceSetError :=
  match devices with
  | [] => Ok []
  | device :: devices =>
      let? enrolled := EnrolledDevice_new (InspectedDevice_event_number device) (InspectedDevice_sysfs_path device)
                         (InspectedDevice_classes device) (InspectedDevice_identity device)
                         (InspectedDevice_capabilities device) in
      let? rest := enrolled_devices devices in
      Ok (enrolled :: rest)
  end.

Definition build_bundle (options : BundleOptions) (inspection : InspectedInputSet) : result RenderedBundle string :=
  let devices := InspectedInputSet_devices inspection in
  if is_empty devices || (Z.of_nat MAX_EVENT_DESCRIPTORS <? len devices)
  then Err "render device set is outside the runtime bound"%string
  else
    let units := rendered_units options devices in
    check_resolved units ;?
    let review := render_review options inspection in
    let? input_set := map_err (λ error, "cannot render initial input set: " +:+ InputSetError_to_string error)
                        (encode_input_set (InspectedInputSet_mappings inspection)) in
    let unrendered error := "cannot render reviewed device set: " +:+ DeviceSetError_to_string error in
    let? enrolled := map_err unrendered (enrolled_devices devices) in
    let? device_set := map_err unrendered (encode_device_set enrolled) in
    Ok {| RenderedBundle_files :=
            ((λ '(name, source), {| RenderedFile_name := name; RenderedFile_contents := source |}) <$> units)
            ++ [ {| RenderedFile_name := INPUT_SET_FILE; RenderedFile_contents := input_set |};
                 {| RenderedFile_name := DEVICE_SET_FILE; RenderedFile_contents := device_set |};
                 {| RenderedFile_name := REVIEW_FILE; RenderedFile_contents := review |} ] |}.

(** [name.ends_with(".service") || name.ends_with(".socket")] *)
Definition is_unit_name (name : str) : bool := ends_with (bstr ".service") name || ends_with (bstr ".socket") name.

Section install.
Context {W : Type} `{EnrollSystem W}.
(** [geteuid()], [process::id()] *)
Context (debug : str → string) (fuel : nat) (euid pid : Z).

(** ** Rendering into a new directory *)

Record NewBundleDirectory := {
  NewBundleDirectory_path : str;
  NewBundleDirectory_files : list str;
  NewBundleDirectory_finished : bool
}.

Definition NewBundleDirectory_create (path : str) : M W EnrollStop NewBundleDirectory :=
  call ("cannot create new review directory " +:+ display path) (make_private_directory path) ;!
  let! private := attempt (change_mode path PRIVATE_DIRECTORY) in
  match private with
  | Err error =>
      ignore (remove_directory path) ;!
      refuse ("cannot make review directory private " +:+ display path +:+ ": " +:+ IoError_text error)
  | Ok _ =>
      ret {| NewBundleDirectory_path := path; NewBundleDirectory_files := []; NewBundleDirectory_finished := false |}
  end.

Notation Rendering := (NewBundleDirectory * W)%type.

Definition in_system {S A} (m : M W EnrollStop A) : M (S * W) EnrollStop A := zoom snd (λ w t, (fst t, w)) m.
Definition change_first {S} (f : S → S) : M (S * W) EnrollStop unit := modify (λ t, (f (fst t), snd t)).

Definition with_file (path : str) (self : NewBundleDirectory) : NewBundleDirectory :=
  {| NewBundleDirectory_path := NewBundleDirectory_path self;
     NewBundleDirectory_files := NewBundleDirectory_files self ++ [path];
     NewBundleDirectory_finished := NewBundleDirectory_finished self |}.
Definition finish (self : NewBundleDirectory) : NewBundleDirectory :=
  {| NewBundleDirectory_path := NewBundleDirectory_path self;
     NewBundleDirectory_files := NewBundleDirectory_files self; NewBundleDirectory_finished := true |}.

Definition NewBundleDirectory_write (name : str) (source : bytes) : M Rendering EnrollStop unit :=
  let! self := gets fst in
  let path := path_join (NewBundleDirectory_path self) name in
  let! file := in_system (call ("cannot create " +:+ display path) (create_file path PRIVATE_FILE)) in
  change_first (with_file path) ;!
  in_system (call ("cannot make " +:+ display path +:+ " private") (change_file_mode file PRIVATE_FILE)) ;!
  in_system (call ("cannot write " +:+ display path) (write_file file source ;! sync_file file)).

(** [impl Drop for NewBundleDirectory] *)
Definition drop_bundle_directory (self : NewBundleDirectory) : M W EnrollStop unit :=
  if NewBundleDirectory_finished self then ret tt
  else
    for_each (λ path, ignore (unlink path)) (reverse (NewBundleDirectory_files self)) ;!
    ignore (remove_directory (NewBundleDirectory_path self)).

Definition write_files (files : list RenderedFile) : M Rendering EnrollStop unit :=
  for_each (λ file, NewBundleDirectory_write (RenderedFile_name file) (RenderedFile_contents file)) files ;!
  change_first finish.

(** Run with a value that is dropped whatever the outcome. *)
Definition with_dropped {S A} (cleanup : S → M W EnrollStop unit) (start : S) (m : M (S * W) EnrollStop A)
  : M W EnrollStop A := λ w,
  let '(r, (s, w)) := m (start, w) in
  let '(_, w) := cleanup s w in (r, w).

Definition render_bundle (options : BundleOptions) (inspection : InspectedInputSet) : M W EnrollStop unit :=
  let! bundle := checked (build_bundle options inspection) in
  let! directory := NewBundleDirectory_create (BundleOptions_directory options) in
  with_dropped drop_bundle_directory directory
    (write_files (RenderedBundle_files bundle) ;!
     in_system (
       say (bstr "Rendered inert review bundle: " ++ BundleOptions_directory options) ;!
       say (bstr "Read REVIEW.txt before taking any administrative action.") ;!
       say (bstr "No unit was installed, enabled, or started."))).

(** ** Verification *)

Definition is_directory (m : Status) : bool := bool_decide (Status_type m = FileType_Dir).
Definition is_regular (m : Status) : bool := bool_decide (Status_type m = FileType_File).
Definition permissions (m : Status) : Z := Z.land (Status_mode m) PERMISSION_BITS.

(** A file only its owner uses, under one name. *)
Definition is_private_review (owner_uid : Z) (m : Status) : bool :=
  is_regular m && (Status_nlink m =? 1) && (Status_uid m =? owner_uid) && (permissions m =? PRIVATE_FILE).

Definition verify_bundle_file (path : str) (expected : bytes) (current_uid : Z) : M W EnrollStop unit :=
  let! before := call ("cannot inspect " +:+ display path) (lstat path) in
  if negb (is_private_review current_uid before) || (MAX_BUNDLE_FILE_BYTES <? Status_len before)
     || negb (Status_len before =? len expected)
  then refuse (display path +:+ " is not an exact private direct review file")
  else
    let! actual := call ("cannot read " +:+ display path) (read_file path) in
    let! after := call ("cannot recheck " +:+ display path) (lstat path) in
    if negb (Status_dev before =? Status_dev after) || negb (Status_ino before =? Status_ino after)
       || negb (Status_len before =? Status_len after) || negb (is_private_review current_uid after)
       || negb (Status_mtime before =? Status_mtime after)
       || negb (Status_mtime_nsec before =? Status_mtime_nsec after) || bool_decide (actual ≠ expected)
    then refuse (display path +:+ " changed or differs from the current candidate")
    else ret tt.

Definition is_private_directory (owner_uid : Z) (m : Status) : bool :=
  is_directory m && (permissions m =? PRIVATE_DIRECTORY) && (Status_uid m =? owner_uid).

(** The names of a directory, of which at most [bound] are taken. *)
Fixpoint bounded_names (bound : nat) (names : gset str) (entries : list (result str IoError))
  : result (gset str) string :=
  match entries with
  | [] => Ok names
  | entry :: entries =>
      if (bound <=? size names)%nat then Err "bundle contains more files than the review format permits"%string
      else
        match entry with
        | Err error => Err ("cannot enumerate bundle directory: " +:+ IoError_text error)
        | Ok name =>
            if negb (utf8_valid name) then Err "bundle contains a non-UTF-8 file name"%string
            else bounded_names bound ({[name]} ∪ names) entries
        end
  end.

Definition names_of (files : list RenderedFile) : gset str := list_to_set (RenderedFile_name <$> files).

Definition verify_bundle_for_owner (options : BundleOptions) (inspection : InspectedInputSet) (owner_uid : Z)
  : M W EnrollStop RenderedBundle :=
  let directory := BundleOptions_directory options in
  let! expected := checked (build_bundle options inspection) in
  let files := RenderedBundle_files expected in
  let! directory_metadata := call ("cannot inspect bundle directory " +:+ display directory) (lstat directory) in
  if negb (is_private_directory owner_uid directory_metadata)
  then refuse "bundle directory must be a direct owner-bound mode-0700 directory"
  else
    let! entries := call "cannot enumerate bundle directory" (list_directory directory) in
    let! actual_names := checked (bounded_names (length files) ∅ entries) in
    if bool_decide (actual_names ≠ names_of files)
    then refuse "bundle file set does not exactly match the current candidate"
    else
      for_each (λ file, verify_bundle_file (path_join directory (RenderedFile_name file))
                          (RenderedFile_contents file) owner_uid) files ;!
      let! directory_after := call ("cannot recheck bundle directory " +:+ display directory) (lstat directory) in
      if negb (Status_dev directory_metadata =? Status_dev directory_after)
         || negb (Status_ino directory_metadata =? Status_ino directory_after)
         || negb (is_private_directory owner_uid directory_after)
      then refuse "bundle directory changed during verification"
      else ret expected.

Definition verify_bundle (options : BundleOptions) (inspection : InspectedInputSet) : M W EnrollStop unit :=
  let! _ := verify_bundle_for_owner options inspection euid in
  say (bstr "Verified exact current review bundle: " ++ BundleOptions_directory options) ;!
  say (bstr "No unit was installed, enabled, or started.") ;!
  say (bstr "Input remains unsupported until the remaining deployment gates pass.").

(** ** Installation *)

Definition verify_packaged_executable (path : str) : M W EnrollStop unit :=
  let! metadata := call ("cannot inspect packaged executable " +:+ display path) (lstat path) in
  if negb (is_regular metadata) || negb (Status_nlink metadata =? 1) || negb (Status_uid metadata =? 0)
     || (Z.land (Status_mode metadata) 73 =? 0) || negb (Z.land (Status_mode metadata) WRITABLE_BY_OTHERS =? 0)
     || (Status_len metadata =? 0)
  then refuse (display path +:+ " is not an exact root-owned packaged executable") else ret tt.

Definition ensure_install_directory (path : str) (create : bool) (owner_uid : Z) : M W EnrollStop unit :=
  (if create then
     let! made := attempt (make_directory path) in
     match made with
     | Ok _ => call ("cannot make install directory private " +:+ display path) (change_mode path PRIVATE_DIRECTORY)
     | Err error =>
         match IoError_kind error with
         | IoError_AlreadyExists => ret tt
         | _ => refuse ("cannot prepare " +:+ display path +:+ ": " +:+ IoError_text error)
         end
     end
   else ret tt) ;!
  let! metadata := call ("cannot inspect " +:+ display path) (lstat path) in
  if negb (is_directory metadata) || negb (Status_uid metadata =? owner_uid)
     || negb (Z.land (Status_mode metadata) WRITABLE_BY_OTHERS =? 0)
  then refuse (display path +:+ " is not a direct owner-controlled install directory") else ret tt.

(** The directory is that of the units or that of the enrollment. *)
Record InstallEntry := {
  InstallEntry_unit : bool;
  InstallEntry_temporary : str;
  InstallEntry_target : str;
  InstallEntry_published : bool
}.

Record InstallTransaction := {
  InstallTransaction_units : File;
  InstallTransaction_enrollment : File;
  InstallTransaction_entries : list InstallEntry;
  InstallTransaction_finished : bool
}.

Notation Installing := (InstallTransaction * W)%type.

Definition directory_of (self : InstallTransaction) (unit_file : bool) : File :=
  if unit_file then InstallTransaction_units self else InstallTransaction_enrollment self.
Definition with_entries (f : list InstallEntry → list InstallEntry) (self : InstallTransaction) : InstallTransaction :=
  {| InstallTransaction_units := InstallTransaction_units self;
     InstallTransaction_enrollment := InstallTransaction_enrollment self;
     InstallTransaction_entries := f (InstallTransaction_entries self);
     InstallTransaction_finished := InstallTransaction_finished self |}.
Definition finished (self : InstallTransaction) : InstallTransaction :=
  {| InstallTransaction_units := InstallTransaction_units self;
     InstallTransaction_enrollment := InstallTransaction_enrollment self;
     InstallTransaction_entries := InstallTransaction_entries self; InstallTransaction_finished := true |}.
Definition mark_published (entry : InstallEntry) : InstallEntry :=
  {| InstallEntry_unit := InstallEntry_unit entry; InstallEntry_temporary := InstallEntry_temporary entry;
     InstallEntry_target := InstallEntry_target entry; InstallEntry_published := true |}.

Definition InstallTransaction_new (unit_directory enrollment : str) : M W EnrollStop InstallTransaction :=
  let! units := call ("cannot open " +:+ display unit_directory) (open_directory unit_directory) in
  let! enrollment := call ("cannot open " +:+ display enrollment) (open_directory enrollment) in
  ret {| InstallTransaction_units := units; InstallTransaction_enrollment := enrollment;
         InstallTransaction_entries := []; InstallTransaction_finished := false |}.

Definition temporary_name (index : nat) : str :=
  bstr ".agent-seat-install-" ++ to_dec pid ++ bstr "-" ++ to_dec (Z.of_nat index).

Definition InstallTransaction_stage (unit_file : bool) (index : nat) (file : RenderedFile) : M Installing EnrollStop unit :=
  let! self := gets fst in
  let temporary := temporary_name index in
  let! output := in_system (call ("cannot stage " +:+ display (RenderedFile_name file))
                              (openat_exclusive (directory_of self unit_file) temporary PRIVATE_FILE)) in
  change_first (with_entries (λ entries, entries ++ [
    {| InstallEntry_unit := unit_file; InstallEntry_temporary := temporary;
       InstallEntry_target := RenderedFile_name file; InstallEntry_published := false |}])) ;!
  in_system (call ("cannot write staged " +:+ display (RenderedFile_name file))
    (change_file_mode output PRIVATE_FILE ;! write_file output (RenderedFile_contents file) ;! sync_file output)).

(** The entries from [index] on; [fail_after] is [None] outside the tests. *)
Fixpoint publish_from (index : nat) (entries : list InstallEntry) : M Installing EnrollStop unit :=
  match entries with
  | [] => ret tt
  | entry :: entries =>
      let! self := gets fst in
      in_system (call ("cannot publish " +:+ display (InstallEntry_target entry))
        (renameat_noreplace (directory_of self (InstallEntry_unit entry)) (InstallEntry_temporary entry)
           (InstallEntry_target entry))) ;!
      change_first (with_entries (alter mark_published index)) ;!
      publish_from (Datatypes.S index) entries
  end.

Definition InstallTransaction_publish : M Installing EnrollStop unit :=
  let! self := gets fst in
  publish_from 0 (InstallTransaction_entries self) ;!
  in_system (call "cannot synchronize install directory" (sync_file (InstallTransaction_units self))) ;!
  in_system (call "cannot synchronize install directory" (sync_file (InstallTransaction_enrollment self))) ;!
  change_first finished.

(** The name under which the entry is. *)
Definition current_name (entry : InstallEntry) : str :=
  if InstallEntry_published entry then InstallEntry_target entry else InstallEntry_temporary entry.

(** [impl Drop for InstallTransaction] *)
Definition drop_transaction (self : InstallTransaction) : M W EnrollStop unit :=
  if InstallTransaction_finished self then ret tt
  else
    for_each (λ entry, ignore (unlinkat (directory_of self (InstallEntry_unit entry)) (current_name entry)))
      (reverse (InstallTransaction_entries self)).

Fixpoint stage_from (unit_directory enrollment : str) (index : nat) (files : list RenderedFile)
  : M Installing EnrollStop unit :=
  match files with
  | [] => ret tt
  | file :: files =>
      let unit_file := is_unit_name (RenderedFile_name file) in
      let target := path_join (if unit_file then unit_directory else enrollment) (RenderedFile_name file) in
      let! found := in_system (attempt (lstat target)) in
      match found with
      | Ok _ => in_system (refuse ("install target already exists: " +:+ display target))
      | Err error =>
          match IoError_kind error with
          | IoError_NotFound =>
              InstallTransaction_stage unit_file index file ;!
              stage_from unit_directory enrollment (Datatypes.S index) files
          | _ => in_system (refuse ("cannot inspect " +:+ display target +:+ ": " +:+ IoError_text error))
          end
      end
  end.

Definition install_rendered_bundle (bundle : RenderedBundle) (unit_directory enrollment : str) : M W EnrollStop unit :=
  let! transaction := InstallTransaction_new unit_directory enrollment in
  with_dropped drop_transaction transaction
    (stage_from unit_directory enrollment 0 (RenderedBundle_files bundle) ;! InstallTransaction_publish).

Definition require_root (operation : string) : M W EnrollStop unit :=
  if euid =? 0 then ret tt else refuse (operation +:+ " requires an explicit root invocation").

Definition install (options : BundleOptions) : M W EnrollStop unit :=
  require_root "install" ;!
  verify_packaged_executable BROKER_EXEC ;!
  verify_packaged_executable GUARD_EXEC ;!
  let! inspection := inspect_seat debug fuel in
  let! bundle := verify_bundle_for_owner options inspection (BundleOptions_uid options) in
  let enrollment := enrollment_directory (BundleOptions_uid options) in
  for_each (λ directory, ensure_install_directory directory true 0)
    [bstr "/etc/agent-seat"; ENROLLMENT_BASE_DIRECTORY; enrollment] ;!
  ensure_install_directory SYSTEMD_UNIT_DIRECTORY false 0 ;!
  install_rendered_bundle bundle SYSTEMD_UNIT_DIRECTORY enrollment ;!
  say (bstr "Installed reviewed files for UID " ++ to_dec (BundleOptions_uid options) ++ bstr ".") ;!
  say (bstr "No service was enabled, reloaded, started, stopped, or rearmed.") ;!
  say (bstr "Provider policy and device permissions were not changed.").

(** ** The units *)

Definition run_systemctl (arguments : list str) : M W EnrollStop unit :=
  let! child := call "cannot execute systemctl" (spawn_silent SYSTEMCTL arguments) in
  let! start := read_clock in
  let! status := await_child fuel child (start + SYSTEMCTL_TIMEOUT) (10 * 1000000)
                   "systemctl exceeded its five-second bound" "cannot wait for systemctl" in
  if ExitStatus_success status then ret tt else refuse ("systemctl exited with " +:+ ExitStatus_text status).

Definition stop_unit_names (units : UnitNames) : M W EnrollStop unit :=
  run_systemctl (bstr "stop" :: unit_names units).

(** [map_err] of the text of a failure. *)
Definition describe {A} (prefix : string) (m : M W EnrollStop A) : M W EnrollStop A :=
  map_error (λ error, match error with
                      | EnrollStop_Error message => EnrollStop_Error (prefix +:+ ": " +:+ message)
                      | EnrollStop_OutOfFuel => EnrollStop_OutOfFuel
                      end) m.

Definition require_units_active (units : UnitNames) : M W EnrollStop unit :=
  for_each (λ unit_name, describe (display unit_name +:+ " is not active")
                           (run_systemctl [bstr "is-active"; bstr "--quiet"; unit_name])) (unit_names units).

(** A failure stops the units. *)
Definition or_stop {A} (units : UnitNames) (m : M W EnrollStop A) : M W EnrollStop A :=
  let! result := attempt m in
  match result with
  | Ok a => ret a
  | Err EnrollStop_OutOfFuel => fail EnrollStop_OutOfFuel
  | Err error =>
      let! stopped := attempt (stop_unit_names units) in
      match stopped with Err EnrollStop_OutOfFuel => fail EnrollStop_OutOfFuel | _ => fail error end
  end.

(** The names of the installed enrollment. *)
Fixpoint installed_names (entries : list (result str IoError)) : result (gset str) string :=
  match entries with
  | [] => Ok ∅
  | Err error :: _ => Err ("cannot enumerate installed enrollment: " +:+ IoError_text error)
  | Ok name :: entries =>
      if negb (utf8_valid name) then Err "installed enrollment contains a non-UTF-8 name"%string
      else let? names := installed_names entries in Ok ({[name]} ∪ names)
  end.

Definition read_installed (enrollment : str) : M W EnrollStop (gset str) :=
  let! entries := call "cannot enumerate installed enrollment" (list_directory enrollment) in
  checked (installed_names entries).

Definition verify_installed_bundle (bundle : RenderedBundle) (unit_directory enrollment : str) (owner_uid : Z)
  : M W EnrollStop unit :=
  let files := RenderedBundle_files bundle in
  let! actual := read_installed enrollment in
  if bool_decide (actual ≠ names_of (filter (λ file, is_unit_name (RenderedFile_name file) = false) files))
  then refuse "installed enrollment file set is not exact"
  else
    for_each (λ file,
      verify_bundle_file (path_join (if is_unit_name (RenderedFile_name file) then unit_directory else enrollment)
                            (RenderedFile_name file)) (RenderedFile_contents file) owner_uid) files.

Definition arm (options : ArmOptions) : M W EnrollStop unit :=
  require_root "arm" ;!
  verify_packaged_executable BROKER_EXEC ;!
  verify_packaged_executable GUARD_EXEC ;!
  let! inspection := inspect_seat debug fuel in
  let! bundle := checked (build_bundle {| BundleOptions_uid := ArmOptions_uid options;
                                          BundleOptions_session := ArmOptions_session options;
                                          BundleOptions_directory := [] |} inspection) in
  let enrollment := enrollment_directory (ArmOptions_uid options) in
  ensure_install_directory SYSTEMD_UNIT_DIRECTORY false 0 ;!
  ensure_install_directory enrollment false 0 ;!
  verify_installed_bundle bundle SYSTEMD_UNIT_DIRECTORY enrollment 0 ;!
  let units := UnitNames_new (ArmOptions_uid options) in
  run_systemctl [bstr "daemon-reload"] ;!
  describe "cannot replace the prior broker cycle" (stop_unit_names units) ;!
  let! reset := attempt (run_systemctl [bstr "reset-failed"; UnitNames_broker_service units;
                                        UnitNames_guard_service units]) in
  (match reset with Err EnrollStop_OutOfFuel => fail EnrollStop_OutOfFuel | _ => ret tt end) ;!
  or_stop units (describe "cannot arm reviewed activity broker"
                   (run_systemctl [bstr "start"; UnitNames_broker_service units])) ;!
  or_stop units (describe "armed units did not become active" (require_units_active units)) ;!
  modify (pause ARM_STABILITY_INTERVAL) ;!
  or_stop units (describe "armed units did not remain active" (require_units_active units)) ;!
  say (bstr "Armed one reviewed activity-broker cycle for UID " ++ to_dec (ArmOptions_uid options) ++ bstr ".") ;!
  say (bstr "No unit was enabled; any stop or evidence loss requires another explicit arm.").

Definition stop_units (uid : Z) : M W EnrollStop unit :=
  require_root "stop" ;!
  stop_unit_names (UnitNames_new uid) ;!
  say (bstr "Stopped the activity broker and eligibility guard for UID " ++ to_dec uid ++ bstr ".") ;!
  say (bstr "Enrollment and provider policy were not changed.").

(** ** Removal *)

Definition enrollment_names : list str := [INPUT_SET_FILE; DEVICE_SET_FILE; REVIEW_FILE].

Definition verify_removable_file (path : str) (owner_uid : Z) : M W EnrollStop unit :=
  let! metadata := call ("cannot inspect purge target " +:+ display path) (lstat path) in
  if negb (is_private_review owner_uid metadata)
  then refuse (display path +:+ " is not an exact private installed file; refusing purge") else ret tt.

Definition purge_installed_files (uid : Z) (unit_directory enrollment : str) (owner_uid : Z) : M W EnrollStop unit :=
  let units := unit_names (UnitNames_new uid) in
  let! actual := read_installed enrollment in
  if bool_decide (actual ≠ list_to_set enrollment_names)
  then refuse "installed enrollment contains an unexpected file; refusing purge"
  else
    for_each (λ name, verify_removable_file (path_join unit_directory name) owner_uid) units ;!
    for_each (λ name, verify_removable_file (path_join enrollment name) owner_uid) enrollment_names ;!
    for_each (λ name, call ("cannot remove enrollment file " +:+ display name) (unlink (path_join enrollment name)))
      enrollment_names ;!
    for_each (λ name, call ("cannot remove unit file " +:+ display name) (unlink (path_join unit_directory name))) units ;!
    call ("cannot remove empty enrollment directory " +:+ display enrollment) (remove_directory enrollment) ;!
    call "cannot synchronize unit directory" (let! directory := open_directory unit_directory in sync_file directory).

Definition purge (uid : Z) : M W EnrollStop unit :=
  require_root "purge" ;!
  let units := UnitNames_new uid in
  run_systemctl [bstr "daemon-reload"] ;!
  stop_unit_names units ;!
  let enrollment := enrollment_directory uid in
  ensure_install_directory SYSTEMD_UNIT_DIRECTORY false 0 ;!
  ensure_install_directory enrollment false 0 ;!
  purge_installed_files uid SYSTEMD_UNIT_DIRECTORY enrollment 0 ;!
  run_systemctl [bstr "daemon-reload"] ;!
  say (bstr "Purged exact installed activity-broker files for UID " ++ to_dec uid ++ bstr ".") ;!
  say (bstr "Provider policy, device permissions, groups, ACLs, and udev rules were not changed.").

(** ** The program *)

Definition run_enroll (arguments : list str) : M W EnrollStop unit :=
  let! options := checked (Options_parse arguments) in
  match options with
  | Options_Help => say HELP
  | Options_Inspect =>
      let! inspection := inspect_seat debug fuel in
      write_report SUPPORTED_SEAT (InspectedInputSet_devices inspection)
  | Options_Render options =>
      let! inspection := inspect_seat debug fuel in render_bundle options inspection
  | Options_Verify options =>
      let! inspection := inspect_seat debug fuel in verify_bundle options inspection
  | Options_Install options => install options
  | Options_Arm options => arm options
  | Options_Stop uid => stop_units uid
  | Options_Purge uid => purge uid
  end.
End install.
