(* ===== verification/EnrollTheorems.v ===== *)
(** * An installation of the enrollment tool

    [EnrollDiskLaws] says what the calls do to the directories and the files.  An
    installation publishes the whole bundle or nothing, and never replaces a file. *)

From stdpp Require Import gmap strings.
From S2P Require Import Prelude Text Effects Host BrokerProtocol InputSet DeviceSet BrokerSystem PolicyStore Enroll EnrollInstall.

(** ** The directories *)

Record Inode := { Inode_mode : Z; Inode_data : bytes }.

(** The directories that are open, by their paths; what a name leads to; and the files. *)
Record Tree := {
  Tree_directories : gmap str Z;
  Tree_names : gmap (Z * str) Z;
  Tree_inodes : gmap Z Inode
}.

Definition with_names (f : gmap (Z * str) Z → gmap (Z * str) Z) (t : Tree) : Tree :=
  {| Tree_directories := Tree_directories t; Tree_names := f (Tree_names t); Tree_inodes := Tree_inodes t |}.
Definition with_inode (i : Z) (n : Inode) (t : Tree) : Tree :=
  {| Tree_directories := Tree_directories t; Tree_names := Tree_names t; Tree_inodes := <[i := n]> (Tree_inodes t) |}.

Lemma with_inode_id i n t : Tree_inodes t !! i = Some n → with_inode i n t = t.
Proof. intros Hi. destruct t as [directories names inodes]. unfold with_inode. cbn in *. by rewrite insert_id. Qed.

(** A write that fails may have written any part. *)
Definition appends (file : Z) (data : bytes) : Effect Tree IoError unit := λ t r t',
  match r with
  | Ok _ => ∃ n, Tree_inodes t !! file = Some n ∧
              t' = with_inode file {| Inode_mode := Inode_mode n; Inode_data := Inode_data n ++ data |} t
  | Err _ => t' = t ∨ ∃ n part, Tree_inodes t !! file = Some n ∧
               t' = with_inode file {| Inode_mode := Inode_mode n; Inode_data := Inode_data n ++ part |} t
  end.

(** Nobody else changes the directories meanwhile.  A descriptor is the file or the
    directory it was opened for. *)
Class EnrollDiskLaws (W : Type) `{EnrollSystem W} := {
  tree : W → Tree;
  lstat_law path : performs tree (lstat path) (looks (λ _ _, True));
  open_directory_law path : performs tree (open_directory path)
    (looks (λ t (directory : Z), Tree_directories t !! path = Some directory));
  sync_file_law file : performs tree (sync_file file) (looks (λ _ _, True));
  openat_exclusive_law (directory : Z) name mode : performs tree (openat_exclusive directory name mode)
    (changes (λ t (i : Z) t', Tree_names t !! (directory, name) = None ∧ Tree_inodes t !! i = None ∧
       t' = with_inode i {| Inode_mode := mode; Inode_data := [] |} (with_names (insert (directory, name) i) t)));
  change_file_mode_law (file : Z) mode : performs tree (change_file_mode file mode)
    (changes (λ t _ t', ∃ n, Tree_inodes t !! file = Some n ∧
       t' = with_inode file {| Inode_mode := mode; Inode_data := Inode_data n |} t));
  write_file_law file data : performs tree (write_file file data) (appends file data);
  renameat_noreplace_law (directory : Z) old new : performs tree (renameat_noreplace directory old new)
    (changes (λ t _ t', ∃ i, Tree_names t !! (directory, old) = Some i ∧ Tree_names t !! (directory, new) = None ∧
       t' = with_names (λ names, <[(directory, new) := i]> (delete (directory, old) names)) t));
  unlinkat_law (directory : Z) name : performs tree (unlinkat directory name)
    (changes (λ t _ t', t' = with_names (delete (directory, name)) t))
}.

(** ** The transaction *)

Section install.
Context {W : Type} `{EnrollDiskLaws W}.
Context (pid : Z) (unit_directory enrollment : str).

(** A name can be removed. *)
Definition removable : Prop := ∀ directory name i w,
  Tree_names (tree w) !! (directory, name) = Some i → is_ok (unlinkat directory name w).1 = true.

Section transaction.
Context (t0 : Tree) (units enrolled : Z).

Definition key (entry : InstallEntry) : Z * str :=
  (if InstallEntry_unit entry then units else enrolled, current_name entry).
Definition own (entries : list InstallEntry) (inodes : list Z) : gmap (Z * str) Z :=
  list_to_map (zip (key <$> entries) inodes).

(** The entries are the only names that were added, and lead to new files. *)
Record added (entries : list InstallEntry) (inodes : list Z) (t : Tree) : Prop := {
  added_length : length inodes = length entries;
  added_distinct : NoDup (key <$> entries);
  added_fresh : Forall (λ entry, Tree_names t0 !! key entry = None) entries;
  added_names : Tree_names t = own entries inodes ∪ Tree_names t0;
  added_inodes : Tree_inodes t0 ⊆ Tree_inodes t;
  added_new : Forall (λ i, Tree_inodes t0 !! i = None) inodes
}.

(** The staged files hold what they should. *)
Definition written (files : list RenderedFile) (entries : list InstallEntry) (inodes : list Z) (t : Tree) : Prop :=
  Forall2 (λ file entry, InstallEntry_target entry = RenderedFile_name file ∧
                         InstallEntry_unit entry = is_unit_name (RenderedFile_name file)) files entries ∧
  Forall2 (λ file i, Tree_inodes t !! i = Some {| Inode_mode := PRIVATE_FILE; Inode_data := RenderedFile_contents file |})
    files inodes ∧
  NoDup inodes.

Definition of_transaction (self : InstallTransaction) : Prop :=
  InstallTransaction_units self = units ∧ InstallTransaction_enrollment self = enrolled.

Lemma added_nil : added [] [] t0.
Proof.
  split; [done|by apply NoDup_nil|by apply Forall_nil| |done|by apply Forall_nil].
  unfold own. cbn. by rewrite (left_id_L ∅ (∪)).
Qed.

Lemma own_lookup entries inodes k :
  length inodes = length entries → own entries inodes !! k = None → k ∉ key <$> entries.
Proof.
  intros Hlen Hnone. apply not_elem_of_list_to_map in Hnone. by rewrite fst_zip in Hnone by (rewrite length_fmap; lia).
Qed.

Lemma added_unused entries inodes t k :
  added entries inodes t → Tree_names t !! k = None → k ∉ key <$> entries ∧ Tree_names t0 !! k = None.
Proof.
  intros Ha Hk. rewrite (added_names _ _ _ Ha) in Hk. apply lookup_union_None in Hk as [Hown Hold].
  split; [|done]. by apply (own_lookup entries inodes), Hown; apply Ha.
Qed.

Lemma added_snoc entries inodes t entry i n :
  added entries inodes t → Tree_names t !! key entry = None → Tree_inodes t !! i = None →
  added (entries ++ [entry]) (inodes ++ [i]) (with_inode i n (with_names (insert (key entry) i) t)).
Proof.
  intros Ha Hname Hinode. destruct (added_unused _ _ _ _ Ha Hname) as [Hkey Hold].
  destruct Ha as [Hlen Hdistinct Hfresh Hnames Hinodes Hnew]. split.
  - rewrite !length_app. cbn. lia.
  - rewrite fmap_app. cbn. apply NoDup_app. split; [done|]. split; [|apply NoDup_singleton].
    intros k Hk ->%list_elem_of_singleton. done.
  - apply Forall_app. split; [done|]. by constructor.
  - cbn. rewrite Hnames. unfold own. rewrite fmap_app, zip_with_app by (rewrite length_fmap; lia).
    rewrite list_to_map_app. cbn. rewrite insert_empty, insert_union_l.
    f_equal. rewrite <- insert_empty. symmetry. rewrite <- insert_union_r; [by rewrite map_union_empty|].
    apply not_elem_of_list_to_map. by rewrite fst_zip by (rewrite length_fmap; lia).
  - cbn. etrans; [exact Hinodes|]. by apply insert_subseteq.
  - apply Forall_app. split; [done|]. constructor; [|done].
    destruct (Tree_inodes t0 !! i) as [m|] eqn:Hi; [|done]. by rewrite (lookup_weaken _ _ _ _ Hi Hinodes) in Hinode.
Qed.

Lemma added_inode entries inodes t i n :
  added entries inodes t → i ∈ inodes → added entries inodes (with_inode i n t).
Proof.
  intros [Hlen Hdistinct Hfresh Hnames Hinodes Hnew] Hi. split; [done..| |done]. cbn.
  rewrite Forall_forall in Hnew.
  apply map_subseteq_spec. intros j m Hj. rewrite lookup_insert_ne; [by eapply lookup_weaken|].
  intros ->. rewrite (Hnew j Hi) in Hj. done.
Qed.

Lemma own_middle l1 entry l2 m1 i m2 :
  NoDup (key <$> l1 ++ entry :: l2) → length m1 = length l1 → length m2 = length l2 →
  own (l1 ++ entry :: l2) (m1 ++ i :: m2) = <[key entry := i]> (own (l1 ++ l2) (m1 ++ m2)) ∧
  own (l1 ++ l2) (m1 ++ m2) !! key entry = None.
Proof.
  intros Hdistinct H1 H2. unfold own. rewrite !fmap_app in *. cbn in *.
  rewrite !zip_with_app by (rewrite length_fmap; lia). cbn. split.
  - rewrite <- list_to_map_cons. apply list_to_map_proper; [|by rewrite <- Permutation_middle].
    change ((key <$> l1) ++ key entry :: (key <$> l2)) with ((key <$> l1) ++ [key entry] ++ (key <$> l2)) in Hdistinct.
    rewrite fmap_app. cbn. rewrite !fst_zip by (rewrite length_fmap; lia). exact Hdistinct.
  - apply not_elem_of_list_to_map. rewrite fmap_app, !fst_zip by (rewrite length_fmap; lia).
    rewrite <- Permutation_middle in Hdistinct. by apply NoDup_cons in Hdistinct as [? _].
Qed.

Lemma added_rename l1 entry l2 inodes i t new :
  added (l1 ++ entry :: l2) inodes t →
  Tree_names t !! key entry = Some i → Tree_names t !! key new = None →
  added (l1 ++ new :: l2) inodes (with_names (λ names, <[key new := i]> (delete (key entry) names)) t).
Proof.
  intros Ha Hold Hnew. destruct (added_unused _ _ _ _ Ha Hnew) as [Hkey Hnone].
  destruct Ha as [Hlen Hdistinct Hfresh Hnames Hinodes Hnews].
  assert (∃ m1 j m2, inodes = m1 ++ j :: m2 ∧ length m1 = length l1 ∧ length m2 = length l2) as (m1 & j & m2 & -> & H1 & H2).
  { rewrite length_app in Hlen. cbn in Hlen. exists (take (length l1) inodes).
    destruct (drop (length l1) inodes) as [|j m2] eqn:Hdrop.
    { apply (f_equal length) in Hdrop. rewrite length_drop in Hdrop. cbn in Hdrop. lia. }
    exists j, m2. rewrite <- Hdrop, take_drop, length_take. split; [done|]. split; [lia|].
    apply (f_equal length) in Hdrop. rewrite length_drop in Hdrop. cbn in Hdrop. lia. }
  destruct (own_middle l1 entry l2 m1 j m2 Hdistinct H1 H2) as [Hown Hrest].
  assert (∀ e, key <$> l1 ++ e :: l2 ≡ₚ key e :: (key <$> l1 ++ l2)) as Hperm by (intros e; by rewrite <- Permutation_middle).
  assert (NoDup (key <$> l1 ++ new :: l2)) as Hdistinct'.
  { rewrite Hperm in Hdistinct, Hkey |- *. apply NoDup_cons in Hdistinct as [_ ?]. apply NoDup_cons. split; [|done].
    intros Hin. apply Hkey. by right. }
  destruct (own_middle l1 new l2 m1 j m2 Hdistinct' H1 H2) as [Hown' Hrest'].
  assert (Tree_names t0 !! key entry = None) as Hentry.
  { by apply Forall_app in Hfresh as [_ [? _]%Forall_cons]. }
  assert (j = i) as ->.
  { rewrite Hnames, Hown in Hold. apply lookup_union_Some_raw in Hold as [Hold|[_ Hold]]; [|congruence].
    rewrite lookup_insert_eq in Hold. by injection Hold. }
  split.
  - rewrite !length_app in *. cbn in *. lia.
  - done.
  - rewrite Forall_app, Forall_cons in *. tauto.
  - cbn. rewrite Hnames, Hown, Hown', delete_union, delete_insert_eq, !delete_id by done. apply insert_union_l.
  - done.
  - done.
Qed.

Lemma written_other files entries inodes t i n :
  written files entries inodes t → i ∉ inodes → written files entries inodes (with_inode i n t).
Proof.
  intros (Hentries & Hcontents & Hdistinct) Hi. split; [done|]. split; [|done]. cbn.
  clear Hentries Hdistinct. induction Hcontents as [|file j files inodes Hj _ IH]; [constructor|].
  apply not_elem_of_cons in Hi as [Hne Hi]. constructor; [by rewrite lookup_insert_ne|by apply IH].
Qed.

(** *** The calls *)

Lemma wp_in_call {S A} prefix (m : M W IoError A) Q R (s : S) w :
  wp m (λ a w', Q a (s, w')) (λ _ w', ∀ e, R e (s, w')) w → wp (in_system (call prefix m)) Q R (s, w).
Proof.
  intros Hm. unfold in_system, call, stop, context. wp_step. cbn [fst snd]. do 2 wp_step.
  eapply wp_mono; [exact Hm|done|]. cbn. auto.
Qed.

Notation Self := (InstallTransaction * W)%type.

(** What holds when the transaction is dropped before it has ended. *)
Definition pending (t : Self) : Prop :=
  of_transaction (fst t) ∧ InstallTransaction_finished (fst t) = false ∧
  ∃ inodes, added (InstallTransaction_entries (fst t)) inodes (tree (snd t)).
(** The files that were staged, and how many were published. *)
Definition staged (files : list RenderedFile) (entries : list InstallEntry) (t : Self) : Prop :=
  of_transaction (fst t) ∧ InstallTransaction_finished (fst t) = false ∧ InstallTransaction_entries (fst t) = entries ∧
  ∃ inodes, added entries inodes (tree (snd t)) ∧ written files entries inodes (tree (snd t)).

Lemma staged_pending files entries t : staged files entries t → pending t.
Proof. intros (? & ? & Hentries & inodes & Ha & _). split; [done|]. split; [done|]. exists inodes. by rewrite Hentries. Qed.

Definition entry_of (index : nat) (file : RenderedFile) : InstallEntry :=
  {| InstallEntry_unit := is_unit_name (RenderedFile_name file); InstallEntry_temporary := temporary_name pid index;
     InstallEntry_target := RenderedFile_name file; InstallEntry_published := false |}.

(** The last of the entries, to the file [i], holds [data]. *)
Definition opened (files : list RenderedFile) (entries : list InstallEntry) (inodes : list Z) (entry : InstallEntry)
    (i : Z) (data : bytes) (t : Self) : Prop :=
  of_transaction (fst t) ∧ InstallTransaction_finished (fst t) = false ∧
  InstallTransaction_entries (fst t) = entries ++ [entry] ∧
  added (entries ++ [entry]) (inodes ++ [i]) (tree (snd t)) ∧ written files entries inodes (tree (snd t)) ∧
  i ∉ inodes ∧ Tree_inodes (tree (snd t)) !! i = Some {| Inode_mode := PRIVATE_FILE; Inode_data := data |}.

Lemma opened_pending files entries inodes entry i data t : opened files entries inodes entry i data t → pending t.
Proof. intros (? & ? & Hentries & Ha & _). split; [done|]. split; [done|]. exists (inodes ++ [i]). by rewrite Hentries. Qed.

Lemma opened_fill files entries inodes entry i data data' self w w' :
  opened files entries inodes entry i data (self, w) →
  tree w' = with_inode i {| Inode_mode := PRIVATE_FILE; Inode_data := data' |} (tree w) →
  opened files entries inodes entry i data' (self, w').
Proof.
  intros (Hof & Hfinished & Hentries & Ha & Hw & Hi & _) Hw'. cbn [fst snd] in *.
  split_and!; try done; cbn [snd]; rewrite Hw'.
  - apply added_inode; [done|]. set_solver.
  - by apply written_other.
  - apply lookup_insert_eq.
Qed.

Lemma fill_staged file files entries inodes entry i self w :
  opened files entries inodes entry i [] (self, w) →
  InstallEntry_target entry = RenderedFile_name file → InstallEntry_unit entry = is_unit_name (RenderedFile_name file) →
  wp (in_system (call ("cannot write staged " +:+ display (RenderedFile_name file))
        (change_file_mode i PRIVATE_FILE ;! write_file i (RenderedFile_contents file) ;! sync_file i)))
    (λ _, staged (files ++ [file]) (entries ++ [entry])) (λ _, pending) (self, w).
Proof.
  intros Hopened Htarget Hunit.
  assert (∀ data t, opened files entries inodes entry i data t → pending t) as Hpending by (intros ? ?; apply opened_pending).
  assert (Tree_inodes (tree w) !! i = Some {| Inode_mode := PRIVATE_FILE; Inode_data := [] |}) as Hempty by apply Hopened.
  apply wp_in_call. wp_step. eapply wp_changes; [apply change_file_mode_law| |]; cbn beta.
  2: { intros _ w1 Hw1 e. apply (Hpending []), (opened_fill _ _ _ _ _ [] _ self w); [done|]. rewrite Hw1.
       symmetry. by apply with_inode_id. }
  intros [] w1 (n & Hn & Hw1). rewrite Hempty in Hn. injection Hn as <-. cbn [Inode_data] in Hw1.
  assert (opened files entries inodes entry i [] (self, w1)) as Hopened1 by (by eapply opened_fill).
  assert (Tree_inodes (tree w1) !! i = Some {| Inode_mode := PRIVATE_FILE; Inode_data := [] |}) as Hempty1 by apply Hopened1.
  wp_step. pose proof (write_file_law i (RenderedFile_contents file) w1) as Hwrite. unfold wp at 1.
  destruct (write_file i (RenderedFile_contents file) w1) as [[[]|e] w2]; cbn [fst snd appends] in Hwrite.
  2: { intros e'. destruct Hwrite as [Hw2|(n & part & Hn & Hw2)].
       - apply (Hpending []), (opened_fill _ _ _ _ _ [] _ self w1); [done|]. rewrite Hw2. symmetry. by apply with_inode_id.
       - rewrite Hempty1 in Hn. injection Hn as <-. eapply Hpending, opened_fill; [exact Hopened1|exact Hw2]. }
  destruct Hwrite as (n & Hn & Hw2). rewrite Hempty1 in Hn. injection Hn as <-. cbn [Inode_mode Inode_data app] in Hw2.
  assert (opened files entries inodes entry i (RenderedFile_contents file) (self, w2)) as Hopened2 by (by eapply opened_fill).
  assert (∀ w3, tree w3 = tree w2 → opened files entries inodes entry i (RenderedFile_contents file) (self, w3)) as Hopened3.
  { intros w3 Hw3. eapply opened_fill; [exact Hopened2|]. rewrite Hw3. symmetry. apply with_inode_id, Hopened2. }
  eapply wp_looks; [apply sync_file_law|intros [] w3 Hw3 _|intros _ w3 Hw3 e; by eapply Hpending, Hopened3].
  destruct (Hopened3 w3 Hw3) as (Hof & Hfinished & Hentries & Ha & (Hfiles & Hcontents & Hdistinct) & Hi & Hdata).
  split_and!; [done..|]. exists (inodes ++ [i]). split; [done|]. split_and!.
  - apply Forall2_app; [done|]. by constructor.
  - apply Forall2_app; [done|]. by constructor.
  - apply NoDup_app. split; [done|]. split; [set_solver|]. apply NoDup_singleton.
Qed.

Lemma stage_staged index file files entries t :
  staged files entries t →
  wp (InstallTransaction_stage pid (is_unit_name (RenderedFile_name file)) index file)
    (λ _, staged (files ++ [file]) (entries ++ [entry_of index file])) (λ _, pending) t.
Proof.
  destruct t as [self w]. intros Hstaged.
  pose proof Hstaged as ([Hunits Henrolled] & Hfinished & Hentries & inodes & Ha & Hw).
  cbn [fst snd] in *. unfold InstallTransaction_stage. wp_step. wp_step. cbn [fst]. wp_step. apply wp_in_call.
  eapply wp_changes; [apply openat_exclusive_law| |]; cbn beta.
  2: { intros _ w1 Hw1 e. apply (staged_pending files entries). split_and!; [done..|]. exists inodes. cbn. by rewrite Hw1. }
  intros i w1 (Hname & Hinode & Hw1).
  assert (key (entry_of index file) = (directory_of self (is_unit_name (RenderedFile_name file)), temporary_name pid index)) as Hkey.
  { unfold key, directory_of. cbn. by rewrite Hunits, Henrolled. }
  assert (Tree_names (tree w) !! key (entry_of index file) = None) as Hnew by (rewrite Hkey; exact Hname).
  assert (tree w1 = with_inode i {| Inode_mode := PRIVATE_FILE; Inode_data := [] |}
                      (with_names (insert (key (entry_of index file)) i) (tree w))) as Hw1' by (rewrite Hkey; exact Hw1).
  assert (i ∉ inodes) as Hi.
  { intros Hin. destruct Hw as (_ & Hcontents & _). apply list_elem_of_lookup in Hin as [k Hk].
    destruct (Forall2_lookup_r _ _ _ _ _ Hcontents Hk) as (f & _ & Hf). congruence. }
  wp_step. unfold change_first. wp_step. cbn [fst snd]. apply (fill_staged _ _ _ inodes); [|done..].
  split_and!; cbn [fst snd]; try done.
  - cbn. by rewrite Hentries.
  - rewrite Hw1'. by apply added_snoc.
  - rewrite Hw1'. by apply written_other.
  - rewrite Hw1'. apply lookup_insert_eq.
Qed.
Lemma staged_same_tree files entries self w w' :
  staged files entries (self, w) → tree w' = tree w → staged files entries (self, w').
Proof.
  intros (Hof & Hfinished & Hentries & inodes & Ha & Hw) Htree. split_and!; [done..|]. exists inodes. cbn [snd] in *.
  by rewrite Htree.
Qed.

Definition unpublished (entries : list InstallEntry) : Prop :=
  Forall (λ entry, InstallEntry_published entry = false) entries.

(** A call that only looks, between two steps of the transaction. *)
Lemma wp_in_look {A} (m : M W IoError A) sees files entries (Q : A → Self → Prop) (R : EnrollStop → Self → Prop) prefix t :
  performs tree m (looks sees) → staged files entries t →
  (∀ a t', staged files entries t' → Q a t') → (∀ e t', staged files entries t' → R e t') →
  wp (in_system (call prefix m)) Q R t.
Proof.
  destruct t as [self w]. intros Hm Hstaged HQ HR. apply wp_in_call.
  eapply wp_looks; [exact Hm|intros a w' Hw' _; apply HQ|intros _ w' Hw' e; apply HR]; by eapply staged_same_tree.
Qed.

Lemma stage_from_staged index files done_files entries t :
  staged done_files entries t → unpublished entries →
  wp (stage_from pid unit_directory enrollment index files)
    (λ _ t', ∃ entries', staged (done_files ++ files) entries' t' ∧ unpublished entries') (λ _, pending) t.
Proof.
  revert index done_files entries t. induction files as [|file files IH]; intros index done_files entries t Hstaged Hun;
    cbn [stage_from].
  { apply wp_ret. exists entries. by rewrite app_nil_r. }
  wp_step. destruct t as [self w]. unfold in_system at 1. do 2 wp_step.
  assert (∀ message w', tree w' = tree w →
    wp (A:=unit) (in_system (refuse message))
      (λ _ t', ∃ entries', staged (done_files ++ file :: files) entries' t' ∧ unpublished entries') (λ _, pending) (self, w')) as Hrefuse.
  { intros message w' Hw'. apply wp_zoom, wp_fail. by eapply staged_pending, staged_same_tree. }
  eapply wp_looks; [apply lstat_law|intros status w1 Hw1 _; by apply Hrefuse|intros e w1 Hw1]. cbn [fst].
  destruct (IoError_kind e); try by apply Hrefuse.
  wp_step. eapply wp_mono; [by eapply stage_staged, staged_same_tree| |done].
  intros [] t1 Ht1. rewrite cons_middle, app_assoc. eapply IH; [exact Ht1|].
  apply Forall_app. split; [done|]. by constructor.
Qed.

Lemma staged_published files entries1 entry entries2 self w w' :
  staged files ((mark_published <$> entries1) ++ entry :: entries2) (self, w) → InstallEntry_published entry = false →
  (∃ i, Tree_names (tree w) !! (directory_of self (InstallEntry_unit entry), InstallEntry_temporary entry) = Some i ∧
     Tree_names (tree w) !! (directory_of self (InstallEntry_unit entry), InstallEntry_target entry) = None ∧
     tree w' = with_names (λ names, <[(directory_of self (InstallEntry_unit entry), InstallEntry_target entry) := i]>
       (delete (directory_of self (InstallEntry_unit entry), InstallEntry_temporary entry) names)) (tree w)) →
  staged files ((mark_published <$> entries1) ++ mark_published entry :: entries2)
    (with_entries (alter mark_published (length entries1)) self, w').
Proof.
  intros ([Hunits Henrolled] & Hfinished & Hentries & inodes & Ha & Hw) Hun (i & Hold & Hnew & Hw').
  assert (directory_of self (InstallEntry_unit entry) = if InstallEntry_unit entry then units else enrolled) as Hdir.
  { unfold directory_of. cbn [fst] in *. by rewrite Hunits, Henrolled. }
  rewrite Hdir in Hold, Hnew, Hw'. clear Hdir.
  assert (key entry = (if InstallEntry_unit entry then units else enrolled, InstallEntry_temporary entry)) as Hkey.
  { unfold key, current_name. by rewrite Hun. }
  split_and!; [done|done|cbn [fst] in *|].
  - unfold with_entries. cbn [InstallTransaction_entries]. rewrite Hentries.
    rewrite alter_app_r_alt by (rewrite length_fmap; lia). by rewrite length_fmap, Nat.sub_diag.
  - exists inodes. cbn [snd] in *. destruct Hw as (Hfiles & Hcontents & Hdistinct). split.
    + assert (Tree_names (tree w) !! key entry = Some i) as Hold' by (rewrite Hkey; exact Hold).
      pose proof (added_rename _ _ _ _ _ _ (mark_published entry) Ha Hold' Hnew) as Hrenamed.
      rewrite Hkey in Hrenamed. rewrite Hw'. exact Hrenamed.
    + rewrite Hw'. split; [|done]. clear -Hfiles. apply Forall2_app_inv_r in Hfiles as (f1 & f2 & H1 & H2 & ->).
      apply Forall2_app; [done|]. inversion H2; subst. by constructor.
Qed.

Lemma publish_from_staged files entries1 entries2 t :
  staged files ((mark_published <$> entries1) ++ entries2) t → unpublished entries2 →
  wp (publish_from (length entries1) entries2)
    (λ _, staged files (mark_published <$> entries1 ++ entries2)) (λ _, pending) t.
Proof.
  revert entries1 t. induction entries2 as [|entry entries2 IH]; intros entries1 t Hstaged Hun; cbn [publish_from].
  { apply wp_ret. by rewrite app_nil_r in *. }
  apply Forall_cons in Hun as [Hentry Hun]. destruct t as [self w]. do 2 wp_step. cbn [fst]. wp_step. apply wp_in_call.
  eapply wp_changes; [apply renameat_noreplace_law| |]; cbn beta.
  2: { intros _ w1 Hw1 e. by eapply staged_pending, staged_same_tree. }
  intros [] w1 Hw1. wp_step. unfold change_first. wp_step. cbn [fst snd].
  rewrite cons_middle, app_assoc. specialize (IH (entries1 ++ [entry])). rewrite length_app, Nat.add_comm in IH. apply IH; [|done].
  rewrite fmap_app, <- app_assoc. by eapply staged_published.
Qed.

(** What the installation promises of the whole bundle. *)
Record published (files : list RenderedFile) (entries : list InstallEntry) (t : Tree) : Prop := {
  published_all : Forall (λ entry, InstallEntry_published entry = true) entries;
  published_inodes : ∃ inodes, added entries inodes t ∧ written files entries inodes t
}.

Lemma publish_published files entries t :
  staged files entries t → unpublished entries →
  wp InstallTransaction_publish
    (λ _ t', InstallTransaction_finished (fst t') = true ∧ published files (mark_published <$> entries) (tree (snd t')))
    (λ _, pending) t.
Proof.
  intros Hstaged Hun. unfold InstallTransaction_publish. do 3 wp_step.
  assert (InstallTransaction_entries (fst t) = entries) as -> by apply Hstaged.
  eapply wp_mono; [by apply (publish_from_staged files [] entries)| |done]. cbn [app]. intros [] t1 Ht1.
  wp_step. eapply wp_in_look; [apply sync_file_law|exact Ht1| |exact (λ _, staged_pending _ _)].
  intros [] t2 Ht2. wp_step. eapply wp_in_look; [apply sync_file_law|exact Ht2| |exact (λ _, staged_pending _ _)].
  intros [] t3 (_ & _ & _ & Hinodes). unfold change_first. wp_step. split; [done|]. split; [|done].
  apply Forall_fmap, Forall_true. by intros entry.
Qed.

(** *** What is left when the transaction is dropped *)

(** Names of [keys] went, and nothing else changed. *)
Record swept (keys : list (Z * str)) (t t' : Tree) : Prop := {
  swept_inodes : Tree_inodes t' = Tree_inodes t;
  swept_names : Tree_names t' ⊆ Tree_names t;
  swept_others : ∀ k, k ∉ keys → Tree_names t' !! k = Tree_names t !! k;
  swept_all : removable → ∀ k, k ∈ keys → Tree_names t' !! k = None
}.

Lemma unlink_swept (directory : Z) name w :
  wp (ignore (E:=IoError) (F:=EnrollStop) (unlinkat directory name))
    (λ _ w', swept [(directory, name)] (tree w) (tree w')) (λ _ _, False) w.
Proof.
  unfold ignore. do 2 wp_step. pose proof (unlinkat_law directory name w) as Hlaw.
  assert (removable → ∀ i, Tree_names (tree w) !! (directory, name) = Some i → is_ok (unlinkat directory name w).1 = true)
    as Hremovable by (intros Hr i; apply Hr).
  unfold wp at 1. destruct (unlinkat directory name w) as [[[]|e] w1]; cbn [fst snd changes is_ok] in *; apply wp_ret; rewrite Hlaw.
  - split; cbn; [done|apply delete_subseteq| |].
    + intros k Hk. apply lookup_delete_ne. set_solver.
    + intros _ k ->%list_elem_of_singleton. apply lookup_delete_eq.
  - split; [done..|]. intros Hr k ->%list_elem_of_singleton.
    destruct (Tree_names (tree w) !! (directory, name)) as [i|] eqn:Hk; [|done]. by specialize (Hremovable Hr i eq_refl).
Qed.

Lemma swept_app keys1 keys2 t t1 t2 : swept keys1 t t1 → swept keys2 t1 t2 → swept (keys1 ++ keys2) t t2.
Proof.
  intros [Hi1 Hn1 Ho1 Ha1] [Hi2 Hn2 Ho2 Ha2]. split; [congruence|by etrans| |].
  - intros k Hk. rewrite not_elem_of_app in Hk. rewrite Ho2, Ho1; tauto.
  - intros Hr k Hk. destruct (decide (k ∈ keys2)) as [|Hk2]; [by apply Ha2|].
    rewrite elem_of_app in Hk. rewrite Ho2 by done. apply Ha1; tauto.
Qed.

Lemma drop_swept self w :
  of_transaction self → InstallTransaction_finished self = false →
  wp (drop_transaction self)
    (λ _ w', swept (key <$> reverse (InstallTransaction_entries self)) (tree w) (tree w')) (λ _ _, False) w.
Proof.
  intros [Hunits Henrolled] Hfinished. unfold drop_transaction. rewrite Hfinished.
  generalize (reverse (InstallTransaction_entries self)) as entries. intros entries. revert w.
  induction entries as [|entry entries IH]; intros w; cbn [for_each].
  { apply wp_ret. by split; [| | |intros _ k ?%not_elem_of_nil]. }
  wp_step. eapply wp_mono; [apply unlink_swept| |done]. intros [] w1 Hw1.
  assert ((directory_of self (InstallEntry_unit entry), current_name entry) = key entry) as Hkey.
  { unfold key, directory_of. by rewrite Hunits, Henrolled. }
  eapply wp_mono; [apply IH| |done]. intros [] w2 Hw2. rewrite fmap_cons.
  apply (swept_app [key entry] _ _ (tree w1)); [|done]. rewrite <- Hkey. exact Hw1.
Qed.
End transaction.

(** Nothing that was there has changed, and the names that are new lead to new files. *)
Record kept (t t' : Tree) : Prop := {
  kept_names : Tree_names t ⊆ Tree_names t';
  kept_inodes : Tree_inodes t ⊆ Tree_inodes t';
  kept_new : ∀ k i, Tree_names t' !! k = Some i → Tree_names t !! k = None → Tree_inodes t !! i = None
}.

Lemma own_new t0 units enrolled entries inodes k i :
  length inodes = length entries → Forall (λ i, Tree_inodes t0 !! i = None) inodes →
  own units enrolled entries inodes !! k = Some i → Tree_inodes t0 !! i = None.
Proof.
  intros Hlen Hnew Hk%elem_of_list_to_map_2. apply elem_of_zip_r in Hk. by apply (Forall_forall _ _) with (x := i) in Hnew.
Qed.

Lemma swept_kept t0 units enrolled entries inodes t t' :
  added t0 units enrolled entries inodes t → swept (key units enrolled <$> reverse entries) t t' →
  kept t0 t' ∧ (removable → Tree_names t' = Tree_names t0).
Proof.
  intros [Hlen Hdistinct Hfresh Hnames Hinodes Hnew] [Hi Hn Ho Hall].
  assert (∀ k, k ∈ key units enrolled <$> reverse entries ↔ k ∈ key units enrolled <$> entries) as Hreverse.
  { intros k. by rewrite reverse_Permutation. }
  assert (∀ k, k ∈ key units enrolled <$> entries → Tree_names t0 !! k = None) as Hold.
  { intros k (entry & -> & Hentry)%list_elem_of_fmap. by apply (Forall_forall _ _) with (x := entry) in Hfresh. }
  assert (∀ k, k ∉ key units enrolled <$> entries → Tree_names t' !! k = Tree_names t0 !! k) as Hothers.
  { intros k Hk. rewrite Ho by (by rewrite Hreverse). rewrite Hnames. apply lookup_union_r.
    apply not_elem_of_list_to_map. by rewrite fst_zip by (rewrite length_fmap; lia). }
  split; [split|].
  - apply map_subseteq_spec. intros k i Hk. rewrite Hothers; [done|]. intros Hin. by rewrite (Hold k Hin) in Hk.
  - by rewrite Hi.
  - intros k i Hk Hnone. pose proof (lookup_weaken _ _ _ _ Hk Hn) as Ht. rewrite Hnames in Ht.
    apply lookup_union_Some_raw in Ht as [Ht|[_ Ht]]; [by eapply own_new|congruence].
  - intros Hr. apply map_eq. intros k. destruct (decide (k ∈ key units enrolled <$> entries)) as [Hk|Hk].
    + rewrite (Hold k Hk). apply Hall; [done|]. by apply Hreverse.
    + by apply Hothers.
Qed.

(** A file of the bundle is at its place, which was free. *)
Definition in_place (units enrolled : Z) (t t' : Tree) (file : RenderedFile) : Prop :=
  let k := (if is_unit_name (RenderedFile_name file) then units else enrolled, RenderedFile_name file) in
  Tree_names t !! k = None ∧
  ∃ i, Tree_names t' !! k = Some i ∧ Tree_inodes t !! i = None ∧
    Tree_inodes t' !! i = Some {| Inode_mode := PRIVATE_FILE; Inode_data := RenderedFile_contents file |}.

(** The bundle is installed, and no other name was touched. *)
Record installed (units enrolled : Z) (files : list RenderedFile) (t t' : Tree) : Prop := {
  installed_files : Forall (in_place units enrolled t t') files;
  installed_only : dom (Tree_names t') =
    dom (Tree_names t) ∪ list_to_set ((λ file, (if is_unit_name (RenderedFile_name file) then units else enrolled,
                                                RenderedFile_name file)) <$> files);
  installed_kept : kept t t'
}.

Lemma published_installed t0 units enrolled files entries t :
  published t0 units enrolled files entries t → installed units enrolled files t0 t.
Proof.
  intros [Hpublished (inodes & [Hlen Hdistinct Hfresh Hnames Hinodes Hnew] & Hfiles & Hcontents & Hnodup)].
  assert (key units enrolled <$> entries =
    (λ file, (if is_unit_name (RenderedFile_name file) then units else enrolled, RenderedFile_name file)) <$> files) as Hkeys.
  { clear -Hpublished Hfiles. induction Hfiles as [|file entry files entries [Htarget Hunit] _ IH]; [done|].
    apply Forall_cons in Hpublished as [Hentry Hpublished]. cbn. rewrite IH by done. unfold key, current_name.
    by rewrite Hentry, Htarget, Hunit. }
  assert (own units enrolled entries inodes ⊆ Tree_names t) as Hown by (rewrite Hnames; apply map_union_subseteq_l).
  split.
  - apply Forall_lookup. intros n file Hfile. destruct (Forall2_lookup_l _ _ _ _ _ Hcontents Hfile) as (i & Hi & Hdata).
    assert ((key units enrolled <$> entries) !! n =
      Some (if is_unit_name (RenderedFile_name file) then units else enrolled, RenderedFile_name file)) as Hk.
    { by rewrite Hkeys, list_lookup_fmap, Hfile. }
    unfold in_place. split.
    + rewrite list_lookup_fmap in Hk. apply fmap_Some in Hk as (entry & Hentry & ->).
      by apply (Forall_lookup_1 _ _ _ _ Hfresh Hentry).
    + exists i. split; [|split; [exact (Forall_lookup_1 _ _ _ _ Hnew Hi)|done]]. eapply lookup_weaken; [|exact Hown].
      apply elem_of_list_to_map; [by rewrite fst_zip by (rewrite length_fmap; lia)|].
      apply list_elem_of_lookup. exists n. by rewrite lookup_zip_with, Hk, Hi.
  - rewrite Hnames, dom_union_L, (union_comm_L (dom _)). f_equal. unfold own. rewrite dom_list_to_map_L, <- Hkeys.
    by rewrite fst_zip by (rewrite length_fmap; lia).
  - split; [|done|].
    + rewrite Hnames. apply map_union_subseteq_r. apply map_disjoint_list_to_map_zip_l; [rewrite length_fmap; lia|].
      by apply Forall_fmap.
    + intros k i Hk Hnone. rewrite Hnames in Hk. apply lookup_union_Some_raw in Hk as [Hk|[_ Hk]]; [|congruence].
      by eapply own_new.
Qed.

Lemma wp_with_dropped {S A} (cleanup : S → M W EnrollStop unit) start (m : M (S * W) EnrollStop A) Q R w :
  wp m (λ a t, wp (cleanup (fst t)) (λ _, Q a) (λ _, Q a) (snd t))
       (λ e t, wp (cleanup (fst t)) (λ _, R e) (λ _, R e) (snd t)) (start, w) →
  wp (with_dropped cleanup start m) Q R w.
Proof.
  unfold wp, with_dropped. destruct (m (start, w)) as [[a|e] [s w1]]; cbn [fst snd]; by destruct (cleanup s w1) as [[[]|] ?].
Qed.

(** C14: [install_rendered_bundle] installs a bundle whole or not at all, and never replaces a
    file.  When it succeeds, every file of the bundle is at its own name in the unit directory
    or the enrollment, which was free, as a new file with exactly the rendered contents and
    mode 0600, and these are the only new names.  When it fails, wherever it does — in a check,
    a write, a rename or the last synchronization — every name and file there was before is as
    before, and if names can be removed not one of the new names is left, published or not. *)
Theorem install_all_or_nothing (bundle : RenderedBundle) (w : W) :
  wp (install_rendered_bundle pid bundle unit_directory enrollment)
    (λ _ w', ∃ units enrolled, Tree_directories (tree w) !! unit_directory = Some units ∧
       Tree_directories (tree w) !! enrollment = Some enrolled ∧
       installed units enrolled (RenderedBundle_files bundle) (tree w) (tree w'))
    (λ _ w', kept (tree w) (tree w') ∧ (removable → Tree_names (tree w') = Tree_names (tree w))) w.
Proof.
  assert (∀ w', tree w' = tree w → kept (tree w) (tree w') ∧ (removable → Tree_names (tree w') = Tree_names (tree w))) as Hsame.
  { intros w' ->. split; [split; [done..|]|done]. intros k i. congruence. }
  unfold install_rendered_bundle, InstallTransaction_new, call, context, stop. repeat wp_step.
  eapply wp_looks; [apply open_directory_law|intros units w1 Hw1 Hunits|intros; by apply Hsame]. repeat wp_step.
  eapply wp_looks; [apply open_directory_law|intros enrolled w2 Hw2 Henrolled|intros; apply Hsame; congruence].
  rewrite Hw1 in Hw2, Henrolled. wp_step. apply wp_with_dropped.
  assert (∀ (e : EnrollStop) t, pending (tree w) units enrolled t →
    wp (drop_transaction (fst t))
      (λ _ w', kept (tree w) (tree w') ∧ (removable → Tree_names (tree w') = Tree_names (tree w)))
      (λ _ w', kept (tree w) (tree w') ∧ (removable → Tree_names (tree w') = Tree_names (tree w))) (snd t)) as Hdrop.
  { intros _ t (Hof & Hfinished & inodes & Ha). eapply wp_mono; [by apply (drop_swept units enrolled)| |done].
    intros [] w3. by apply swept_kept with (inodes := inodes). }
  match goal with |- wp _ _ _ (?transaction, _) => set (start := transaction) end.
  assert (staged (tree w) units enrolled [] [] (start, w2)) as Hstart.
  { split_and!; [done..|]. exists []. cbn [snd]. rewrite Hw2. split; [apply added_nil|by split_and!; constructor]. }
  wp_step. eapply wp_mono; [apply (stage_from_staged (tree w) units enrolled 0 _ _ _ _ Hstart); by constructor| |exact Hdrop].
  intros [] t1 (entries & Hstaged & Hun).
  cbn [app] in Hstaged. eapply wp_mono; [by apply (publish_published (tree w) units enrolled)| |exact Hdrop].
  intros [] t2 [Hfinished Hpublished]. unfold drop_transaction. rewrite Hfinished. apply wp_ret.
  exists units, enrolled. split; [done|]. split; [done|]. by eapply published_installed.
Qed.
End install.
