(* ===== verification/EnrollRuns.v ===== *)
(** * The children of the enrollment tool

    Every wait of the tool is bounded by a deadline, so that each of its commands ends.  The
    runs of [systemctl] are noted in a journal: an arm cycle either returns with every unit
    seen active twice, or is followed by the command that stops the units.  Last, a small
    system on which the tool installs a bundle and arms it. *)

From stdpp Require Import gmap strings.
From S2P Require Import Prelude Text Effects Host BrokerProtocol InputSet DeviceSet BrokerSystem PolicyStore Enroll EnrollInstall EnrollTheorems.

(** ** Time *)

(** The clock is read between the two states, and a pause lasts at least as long as asked. *)
Class EnrollClockLaws (W : Type) `{EnrollSystem W} := {
  now : W → Z;
  instant_law w : now w ≤ fst (instant w) ≤ now (snd (instant w));
  pause_law d w : now w + d ≤ now (pause d w);
  spawn_silent_advances executable arguments :: Advances now (spawn_silent executable arguments);
  stdout_read_advances stdout count :: Advances now (stdout_read stdout count);
  try_status_advances child :: Advances now (try_status child);
  kill_child_advances child :: Advances now (kill_child child);
  wait_child_advances child :: Advances now (wait_child child)
}.

(** Every loop that waits has fuel for its deadline. *)
Definition ENOUGH : Z := 20000.

Definition waits (e : EnrollStop) : Prop := e ≠ EnrollStop_OutOfFuel.
Notation Ends := (Errs waits).

Lemma error_waits message : waits (EnrollStop_Error message).
Proof. done. Qed.
#[local] Hint Resolve error_waits : core.

Ltac errs_lemma ::= apply error_waits.

Section ends.
Context {W : Type} `{EnrollClockLaws W}.

#[export] Instance refuse_ends {A} message : Ends (refuse (A:=A) message : M W _ _).
Proof. unfold refuse. solve_errs. Qed.
#[export] Instance stop_ends {A} (m : M W string A) : Ends (stop m).
Proof. unfold stop. solve_errs. Qed.
#[export] Instance call_ends {A} prefix (m : M W IoError A) : Ends (call prefix m).
Proof. unfold call. solve_errs. Qed.
#[export] Instance checked_ends {A} (r : result A string) : Ends (checked r : M W _ _).
Proof. unfold checked. solve_errs. Qed.
#[export] Instance say_ends text : Ends (say text).
Proof. unfold say. solve_errs. Qed.
#[export] Instance ignore_ends {F A} (m : M W F A) : Ends (ignore m).
Proof. unfold ignore. solve_errs. Qed.
#[export] Instance stopping_ends {A} child message : Ends (stopping (A:=A) child message).
Proof. unfold stopping, stop_child. solve_errs. Qed.
#[export] Instance read_clock_ends : Ends read_clock.
Proof. intros w e w'. unfold read_clock. by destruct (instant w). Qed.

Lemma wp_read_clock Q (R : EnrollStop → W → Prop) w :
  (∀ t w', now w ≤ t ≤ now w' → Q t w') → wp read_clock Q R w.
Proof.
  intros HQ. unfold wp, read_clock. pose proof (instant_law w) as Hlaw. destruct (instant w) as [t w']. by apply HQ.
Qed.
Lemma wp_pause d Q (R : EnrollStop → W → Prop) w :
  (∀ w', now w + d ≤ now w' → Q tt w') → wp (modify (pause d)) Q R w.
Proof. intros HQ. apply wp_modify, HQ, pause_law. Qed.
Lemma wp_advances {E A} (m : M W E A) (Q : A → W → Prop) (R : E → W → Prop) w :
  Advances now m → (∀ a w', now w ≤ now w' → Q a w') → (∀ e w', now w ≤ now w' → R e w') → wp m Q R w.
Proof. intros Hm HQ HR. specialize (Hm w). unfold wp. destruct (m w) as [[a|e] w']; auto. Qed.

Lemma wp_stopping {A} child message (Q : A → W → Prop) (R : EnrollStop → W → Prop) w :
  (∀ w', now w ≤ now w' → R (EnrollStop_Error message) w') → wp (stopping child message) Q R w.
Proof.
  intros HR. unfold wp, stopping, stop_child, refuse, ignore, attempt, bind.
  pose proof (kill_child_advances child w) as H1. destruct (kill_child child w) as [? w1]. cbn in *.
  pose proof (wait_child_advances child w1) as H2. destruct (wait_child child w1) as [? w2]. apply HR. cbn in *. lia.
Qed.

(** What is left to wait for: the rest of the output and the rounds up to the deadline. *)
Lemma read_output_ends fuel executable child stdout deadline output w :
  len output ≤ MAX_UDEV_OUTPUT_BYTES →
  (MAX_UDEV_OUTPUT_BYTES - len output) * 5000000 + Z.max 0 (deadline - now w + 5000000) < Z.of_nat fuel * 5000000 →
  wp (read_output fuel executable child stdout deadline output) (λ _ w', now w ≤ now w') (λ e _, waits e) w.
Proof.
  revert output w. induction fuel as [|fuel IH]; intros output w Hlen Hfuel; [lia|]. cbn [read_output].
  do 2 wp_step. apply wp_advances; [apply _|intros got w1 Hw1|intros e w1 Hw1].
  - destruct got as [|b got]; [by apply wp_ret|]. set (data := b :: got). assert (0 < len data) by (unfold data; rewrite len_cons; pose proof (len_nonneg got); lia).
    destruct (Z.ltb_spec MAX_UDEV_OUTPUT_BYTES (len output + len data)); [by apply wp_stopping|].
    eapply wp_mono; [apply IH| |done]; rewrite ?len_app; [lia|lia|]. cbn beta. lia.
  - destruct (IoError_kind e); try by apply wp_stopping. wp_step. apply wp_read_clock. intros t w2 Ht.
    destruct (Z.leb_spec deadline t); [by apply wp_stopping|]. wp_step. apply wp_pause. intros w3 Hw3.
    eapply wp_mono; [apply IH; [done|lia]| |done]. cbn beta. lia.
Qed.

Lemma await_child_ends fuel child deadline interval late cannot_wait w :
  0 < interval → Z.max 0 (deadline - now w + interval) < Z.of_nat fuel * interval →
  wp (await_child fuel child deadline interval late cannot_wait) (λ _ w', now w ≤ now w') (λ e w', waits e ∧ now w ≤ now w') w.
Proof.
  intros Hinterval. revert w. induction fuel as [|fuel IH]; intros w Hfuel; [lia|]. cbn [await_child].
  assert (∀ message w1, now w ≤ now w1 →
    wp (A:=ExitStatus) (stopping child message) (λ _ w', now w ≤ now w') (λ e w', waits e ∧ now w ≤ now w') w1) as Hstop.
  { intros message w1 Hw1. apply wp_stopping. intros w2 Hw2. split; [done|lia]. }
  do 2 wp_step. apply wp_advances; [apply _|intros [status|] w1 Hw1|intros e w1 Hw1; by apply Hstop].
  - by apply wp_ret.
  - wp_step. apply wp_read_clock. intros t w2 Ht. destruct (Z.ltb_spec t deadline); [|apply Hstop; lia].
    wp_step. apply wp_pause. intros w3 Hw3. eapply wp_mono; [apply IH; lia| |]; cbn beta; [lia|].
    intros e w4 [? ?]. split; [done|lia].
Qed.

Lemma ends_wp {A} (m : M W EnrollStop A) : (∀ w, wp m (λ _ _, True) (λ e _, waits e) w) → Ends m.
Proof. intros Hm w e w' Hrun. by apply (wp_run _ _ _ _ _ _ (Hm w)) in Hrun. Qed.
Lemma wp_ended {A} (m : M W EnrollStop A) w : Ends m → wp m (λ _ _, True) (λ e _, waits e) w.
Proof. intros Hm. unfold wp. destruct (m w) as [[a|e] w'] eqn:Hrun; [done|by eapply Hm]. Qed.

(** *** Every command *)

Context (debug : str → string) (fuel : nat) (euid pid : Z) (enough : ENOUGH ≤ Z.of_nat fuel).

#[local] Instance run_udevadm_ends executable arguments : Ends (run_udevadm fuel executable arguments).
Proof.
  apply ends_wp. intros w. unfold run_udevadm. wp_step. eapply wp_mono; [by apply wp_ended, call_ends| |done]. intros child w1 _.
  wp_step. unfold wp at 1. destruct (take_stdout child w1) as [[stdout|] w2]; [|by apply wp_stopping]. cbv zeta.
  do 2 wp_step. eapply wp_mono; [apply wp_true|intros flags w3 _|intros e w3 _; by apply wp_stopping].
  do 2 wp_step. eapply wp_mono; [apply wp_true|intros [] w4 _|intros e w4 _; by apply wp_stopping].
  wp_step. apply wp_read_clock. intros start w5 Hw5. unfold ENOUGH in enough.
  wp_step. eapply wp_mono; [apply read_output_ends| |done].
  { change (len []) with 0. unfold MAX_UDEV_OUTPUT_BYTES. lia. }
  { change (len []) with 0. unfold MAX_UDEV_OUTPUT_BYTES, MAX_UDEV_QUERY_DURATION. lia. }
  cbn beta. intros output w6 Hw6. wp_step. eapply wp_mono; [apply await_child_ends| |naive_solver].
  { lia. }
  { unfold MAX_UDEV_QUERY_DURATION. lia. }
  intros status w7 _. destruct (negb _); [apply error_waits|exact I].
Qed.

#[local] Instance run_systemctl_ends arguments : Ends (run_systemctl fuel arguments).
Proof.
  apply ends_wp. intros w. unfold run_systemctl. wp_step. eapply wp_mono; [by apply wp_ended, call_ends| |done]. intros child w1 _.
  wp_step. apply wp_read_clock. intros start w2 Hw2. unfold ENOUGH in enough.
  wp_step. eapply wp_mono; [apply await_child_ends| |naive_solver]; [lia|unfold SYSTEMCTL_TIMEOUT; lia|].
  intros status w3 _. destruct (ExitStatus_success status); [exact I|apply error_waits].
Qed.

#[local] Instance query_properties_ends udevadm device : Ends (query_properties debug fuel udevadm device).
Proof. unfold query_properties. solve_errs. Qed.
#[local] Instance query_sysfs_path_ends udevadm device : Ends (query_sysfs_path fuel udevadm device).
Proof. unfold query_sysfs_path. solve_errs. Qed.
#[local] Instance read_sysfs_value_ends path : Ends (read_sysfs_value path).
Proof. unfold read_sysfs_value. solve_errs. Qed.
#[local] Instance read_device_capabilities_ends class_path : Ends (read_device_capabilities class_path).
Proof. unfold read_device_capabilities. solve_errs. Qed.
#[local] Instance inspect_entry_ends dev_input udevadm seat event_number class_path relevant :
  Ends (inspect_entry debug fuel dev_input udevadm seat event_number class_path relevant).
Proof. unfold inspect_entry. solve_errs. Qed.
#[local] Instance inspect_entries_ends dev_input udevadm seat entries observed devices :
  Ends (inspect_entries debug fuel dev_input udevadm seat entries observed devices).
Proof.
  revert observed devices. induction entries as [|[event_number class_path] entries IH]; intros observed devices;
    cbn [inspect_entries]; solve_errs.
Qed.
#[local] Instance inspect_seat_ends : Ends (inspect_seat debug fuel).
Proof. unfold inspect_seat, inspect_devices, recheck_event, recheck_device. solve_errs. Qed.
#[local] Instance write_report_ends seat devices : Ends (write_report seat devices).
Proof. unfold write_report. solve_errs. Qed.

#[export] Instance in_system_ends {S A} (m : M W EnrollStop A) : Ends m → Ends (in_system (S:=S) m).
Proof. intros Hm. unfold in_system. solve_errs. Qed.
#[export] Instance change_first_ends {S} (f : S → S) : Ends (change_first f : M (S * W) _ _).
Proof. unfold change_first. solve_errs. Qed.
#[export] Instance with_dropped_ends {S A} (cleanup : S → M W EnrollStop unit) start (m : M (S * W) EnrollStop A) :
  Ends m → Ends (with_dropped cleanup start m).
Proof.
  intros Hm w e w'. unfold with_dropped. destruct (m (start, w)) as [r [s w1]] eqn:Hrun.
  destruct (cleanup s w1) as [? w2]. intros [= -> <-]. by eapply Hm.
Qed.
#[export] Instance describe_ends {A} prefix (m : M W EnrollStop A) : Ends m → Ends (describe prefix m).
Proof.
  intros Hm w e w'. unfold describe, map_error. destruct (m w) as [[a|e'] w1] eqn:Hrun; [done|].
  intros [= <- <-]. by specialize (Hm w e' w1 Hrun); destruct e'.
Qed.
#[local] Ltac errs_lemma ::= first [apply error_waits | apply with_dropped_ends | apply in_system_ends | apply describe_ends].
#[local] Instance render_bundle_ends options inspection : Ends (render_bundle options inspection).
Proof. unfold render_bundle, NewBundleDirectory_create, write_files, NewBundleDirectory_write. solve_errs. Qed.
#[local] Instance verify_bundle_file_ends path expected uid : Ends (verify_bundle_file path expected uid).
Proof. unfold verify_bundle_file. solve_errs. Qed.
#[local] Instance verify_bundle_for_owner_ends options inspection owner : Ends (verify_bundle_for_owner options inspection owner).
Proof. unfold verify_bundle_for_owner. solve_errs. Qed.
#[local] Instance verify_packaged_executable_ends path : Ends (verify_packaged_executable path).
Proof. unfold verify_packaged_executable. solve_errs. Qed.
#[local] Instance ensure_install_directory_ends path create owner : Ends (ensure_install_directory path create owner).
Proof. unfold ensure_install_directory. solve_errs. Qed.
#[local] Instance stage_from_ends unit_directory enrollment index files : Ends (stage_from pid unit_directory enrollment index files).
Proof.
  revert index. induction files as [|file files IH]; intros index; cbn [stage_from]; unfold InstallTransaction_stage; solve_errs.
Qed.
#[local] Instance publish_from_ends index entries : Ends (publish_from index entries).
Proof. revert index. induction entries as [|entry entries IH]; intros index; cbn [publish_from]; solve_errs. Qed.
#[local] Instance install_rendered_bundle_ends bundle unit_directory enrollment :
  Ends (install_rendered_bundle pid bundle unit_directory enrollment).
Proof. unfold install_rendered_bundle, InstallTransaction_new, InstallTransaction_publish. solve_errs. Qed.
#[local] Instance require_root_ends operation : Ends (require_root euid operation : M W _ _).
Proof. unfold require_root. solve_errs. Qed.
#[local] Instance install_ends options : Ends (install debug fuel euid pid options).
Proof. unfold install. solve_errs. Qed.
#[local] Instance stop_unit_names_ends units : Ends (stop_unit_names fuel units).
Proof. unfold stop_unit_names. solve_errs. Qed.
#[local] Instance require_units_active_ends units : Ends (require_units_active fuel units).
Proof. unfold require_units_active. solve_errs. Qed.
#[local] Instance or_stop_ends {A} units (m : M W EnrollStop A) : Ends m → Ends (or_stop fuel units m).
Proof. intros Hm. unfold or_stop. solve_errs. Qed.
#[local] Ltac errs_lemma ::= first [apply error_waits | apply describe_ends | apply or_stop_ends].
#[local] Instance read_installed_ends enrollment : Ends (read_installed enrollment).
Proof. unfold read_installed. solve_errs. Qed.
#[local] Instance verify_installed_bundle_ends bundle unit_directory enrollment owner :
  Ends (verify_installed_bundle bundle unit_directory enrollment owner).
Proof. unfold verify_installed_bundle. solve_errs. Qed.
#[local] Instance arm_ends options : Ends (arm debug fuel euid options).
Proof. unfold arm. solve_errs. Qed.
#[local] Instance purge_ends uid : Ends (purge fuel euid uid).
Proof. unfold purge, purge_installed_files, verify_removable_file. solve_errs. Qed.

End ends.

(** ** The runs of [systemctl] *)

Record SystemctlRun := { Run_arguments : list str; Run_child : option Child; Run_time : Z }.

(** A run is noted when it is started, with the child unless that fails; every child has one
    outcome, which is the status that is read. *)
Class EnrollJournalLaws (W : Type) `{EnrollClockLaws W} := {
  enroll_journal :: Journaled W SystemctlRun;
  outcome : Child → bool;
  spawn_silent_noted executable arguments w : ∃ t,
    now w ≤ t ≤ now (snd (spawn_silent executable arguments w)) ∧
    journal (snd (spawn_silent executable arguments w)) =
      journal w ++ [{| Run_arguments := arguments; Run_child := result_ok (fst (spawn_silent executable arguments w)); Run_time := t |}];
  try_status_outcome child w status :
    fst (try_status child w) = Ok (Some status) → ExitStatus_success status = outcome child;
  instant_silent w : journal (snd (instant w)) = journal w;
  pause_silent d w : journal (pause d w) = journal w;
  say_line_silent text w : journal (say_line text w) = journal w;
  take_stdout_silent child w : journal (snd (take_stdout child w)) = journal w;
  lstat_silent path :: Preserves journal (lstat path);
  list_directory_silent path :: Preserves journal (list_directory path);
  canonical_path_silent path :: Preserves journal (canonical_path path);
  read_at_most_silent path count :: Preserves journal (read_at_most path count);
  read_file_silent path :: Preserves journal (read_file path);
  spawn_piped_silent executable arguments :: Preserves journal (spawn_piped executable arguments);
  stdout_getfl_silent stdout :: Preserves journal (stdout_getfl stdout);
  stdout_setfl_silent stdout flags :: Preserves journal (stdout_setfl stdout flags);
  stdout_read_silent stdout count :: Preserves journal (stdout_read stdout count);
  try_status_silent child :: Preserves journal (try_status child);
  kill_child_silent child :: Preserves journal (kill_child child);
  wait_child_silent child :: Preserves journal (wait_child child);
  make_directory_silent path :: Preserves journal (make_directory path);
  change_mode_silent path mode :: Preserves journal (change_mode path mode)
}.

Section silent.
Context {W : Type} `{EnrollJournalLaws W}.

#[export] Instance refuse_silent {A} message : Preserves journal (refuse (A:=A) message : M W _ _).
Proof. unfold refuse. solve_preserves. Qed.
#[export] Instance call_silent {A} prefix (m : M W IoError A) : Preserves journal m → Preserves journal (call prefix m).
Proof. intros Hm. unfold call, stop, context. solve_preserves. Qed.
#[export] Instance checked_silent {A} (r : result A string) : Preserves journal (checked r : M W _ _).
Proof. unfold checked. solve_preserves. Qed.
#[export] Instance ignore_silent {E F A} (m : M W E A) : Preserves journal m → Preserves journal (ignore (F:=F) m).
Proof. intros Hm. unfold ignore. solve_preserves. Qed.
#[export] Instance stopping_silent {A} child message : Preserves journal (stopping (A:=A) child message : M W _ _).
Proof. unfold stopping, stop_child. solve_preserves. Qed.
#[export] Instance read_clock_silent : Preserves journal (read_clock : M W _ _).
Proof. intros w. unfold read_clock. pose proof (instant_silent w). by destruct (instant w). Qed.
#[export] Instance modify_pause_silent {E} d : Preserves journal (modify (pause d) : M W E _).
Proof. intros w. apply pause_silent. Qed.
#[export] Instance say_silent text : Preserves journal (say text : M W _ _).
Proof. intros w. apply say_line_silent. Qed.
#[export] Instance read_output_silent fuel executable child stdout deadline output :
  Preserves journal (read_output fuel executable child stdout deadline output : M W _ _).
Proof. revert output. induction fuel as [|fuel IH]; intros output; cbn [read_output]; solve_preserves. Qed.
#[export] Instance await_child_silent fuel child deadline interval late cannot_wait :
  Preserves journal (await_child fuel child deadline interval late cannot_wait : M W _ _).
Proof. induction fuel as [|fuel IH]; cbn [await_child]; solve_preserves. Qed.

Context (debug : str → string) (fuel : nat).

#[local] Instance run_udevadm_silent executable arguments : Preserves journal (run_udevadm fuel executable arguments : M W _ _).
Proof.
  unfold run_udevadm. apply bind_preserves; [apply _|]. intros child. apply bind_preserves; [|solve_preserves].
  intros w. pose proof (take_stdout_silent child w). by destruct (take_stdout child w).
Qed.
#[local] Instance read_sysfs_value_silent path : Preserves journal (read_sysfs_value path : M W _ _).
Proof. unfold read_sysfs_value. solve_preserves. Qed.
#[local] Instance inspect_entry_silent dev_input udevadm seat event_number class_path relevant :
  Preserves journal (inspect_entry debug fuel dev_input udevadm seat event_number class_path relevant : M W _ _).
Proof. unfold inspect_entry, query_properties, read_device_capabilities, query_sysfs_path. solve_preserves. Qed.
#[local] Instance inspect_entries_silent dev_input udevadm seat entries observed devices :
  Preserves journal (inspect_entries debug fuel dev_input udevadm seat entries observed devices : M W _ _).
Proof.
  revert observed devices. induction entries as [|[event_number class_path] entries IH]; intros observed devices;
    cbn [inspect_entries]; solve_preserves.
Qed.
#[export] Instance inspect_seat_silent : Preserves journal (inspect_seat debug fuel : M W _ _).
Proof.
  unfold inspect_seat, inspect_devices, recheck_event, recheck_device, query_properties, read_device_capabilities.
  solve_preserves.
Qed.
#[export] Instance verify_packaged_executable_silent path : Preserves journal (verify_packaged_executable path : M W _ _).
Proof. unfold verify_packaged_executable. solve_preserves. Qed.
#[export] Instance ensure_install_directory_silent path create owner :
  Preserves journal (ensure_install_directory path create owner : M W _ _).
Proof. unfold ensure_install_directory. solve_preserves. Qed.
#[export] Instance verify_installed_bundle_silent bundle unit_directory enrollment owner :
  Preserves journal (verify_installed_bundle bundle unit_directory enrollment owner : M W _ _).
Proof. unfold verify_installed_bundle, read_installed, verify_bundle_file. solve_preserves. Qed.
#[export] Instance require_root_silent euid operation : Preserves journal (require_root euid operation : M W _ _).
Proof. unfold require_root. solve_preserves. Qed.
End silent.

Section arm.
Context {W : Type} `{EnrollJournalLaws W}.

(** [runs] were noted between the two states. *)
Record grew (w : W) (runs : list SystemctlRun) (w' : W) : Prop := {
  grew_journal : journal w' = journal w ++ runs;
  grew_clock : now w ≤ now w';
  grew_times : Forall (λ run, now w ≤ Run_time run ≤ now w') runs
}.

(** What a computation runs, when it returns and when it fails; and it ends. *)
Definition runs {A} (m : M W EnrollStop A) (Q R : list SystemctlRun → Prop) : Prop := ∀ w,
  wp m (λ _ w', ∃ n, grew w n w' ∧ Q n) (λ e w', waits e ∧ ∃ n, grew w n w' ∧ R n) w.

Definition attempted (arguments : list str) (n : list SystemctlRun) : Prop :=
  ∃ child t, n = [{| Run_arguments := arguments; Run_child := child; Run_time := t |}].
Definition succeeded (arguments : list str) (n : list SystemctlRun) : Prop :=
  ∃ child t, n = [{| Run_arguments := arguments; Run_child := Some child; Run_time := t |}] ∧ outcome child = true.

Lemma grew_trans w1 n1 w2 n2 w3 : grew w1 n1 w2 → grew w2 n2 w3 → grew w1 (n1 ++ n2) w3.
Proof.
  intros [Hj1 Hc1 Ht1] [Hj2 Hc2 Ht2]. split; [by rewrite Hj2, Hj1, (assoc_L (++))|lia|].
  apply Forall_app. split; (eapply Forall_impl; [eassumption|]); cbn beta; intros; lia.
Qed.

Lemma runs_mono {A} (m : M W EnrollStop A) (Q Q' R R' : list SystemctlRun → Prop) :
  runs m Q R → (∀ n, Q n → Q' n) → (∀ n, R n → R' n) → runs m Q' R'.
Proof. intros Hm HQ HR w. eapply wp_mono; [apply Hm|naive_solver..]. Qed.
Lemma runs_ret {A} (a : A) (Q R : list SystemctlRun → Prop) : Q [] → runs (ret a) Q R.
Proof. intros HQ w. apply wp_ret. exists []. split; [split; [by rewrite app_nil_r|lia|constructor]|done]. Qed.
Lemma runs_bind {A B} (m : M W EnrollStop A) (k : A → M W EnrollStop B) Q1 R1 (Q R : list SystemctlRun → Prop) :
  runs m Q1 R1 → (∀ n, R1 n → R n) → (∀ a n1, Q1 n1 → runs (k a) (λ n2, Q (n1 ++ n2)) (λ n2, R (n1 ++ n2))) →
  runs (bind m k) Q R.
Proof.
  intros Hm HR Hk w. apply wp_bind. eapply wp_mono; [apply Hm| |naive_solver].
  intros a w1 (n1 & Hw1 & Hn1). eapply wp_mono; [by apply Hk| |];
    [intros b w2 (n2 & Hw2 & Hn2)|intros e w2 (He & n2 & Hw2 & Hn2); split; [done|]]; exists (n1 ++ n2);
    (split; [by eapply grew_trans|done]).
Qed.
Lemma runs_describe {A} prefix (m : M W EnrollStop A) Q R : runs m Q R → runs (describe prefix m) Q R.
Proof. intros Hm w. unfold describe. apply wp_map_error. eapply wp_mono; [apply Hm|done|]. intros [] w' [? ?]; done. Qed.
Lemma runs_for_each {A} (f : A → M W EnrollStop unit) l (P : A → list SystemctlRun → Prop) (R : list SystemctlRun → Prop) :
  (∀ a, runs (f a) (P a) R) → (∀ n1 n2, R n2 → R (n1 ++ n2)) →
  runs (for_each f l) (λ n, ∃ parts, n = concat parts ∧ Forall2 P l parts) R.
Proof.
  intros Hf HR. induction l as [|a l IH]; cbn [for_each].
  { apply runs_ret. by exists []. }
  eapply runs_bind; [apply Hf|done|]. intros [] n1 Hn1.
  eapply runs_mono; [exact IH| |auto]. intros n (parts & -> & Hparts). exists (n1 :: parts). split; [done|by constructor].
Qed.

Context (debug : str → string) (fuel : nat) (euid : Z) (enough : ENOUGH ≤ Z.of_nat fuel).

Lemma await_child_outcome count child deadline interval late cannot_wait w :
  wp (await_child count child deadline interval late cannot_wait) (λ status _, ExitStatus_success status = outcome child)
    (λ _ _, True) w.
Proof.
  revert w. induction count as [|count IH]; intros w; cbn [await_child]; [done|]. do 2 wp_step.
  pose proof (try_status_outcome child w) as Hlaw. unfold wp at 1.
  destruct (try_status child w) as [[[status|]|e] w1]; cbn [fst] in Hlaw; [by apply wp_ret, Hlaw| |by apply wp_stopping].
  wp_step. apply wp_read_clock. intros t w2 _. destruct (t <? deadline); [|by apply wp_stopping].
  wp_step. apply wp_modify. apply IH.
Qed.

Lemma run_systemctl_runs arguments :
  runs (run_systemctl fuel arguments) (succeeded arguments) (attempted arguments).
Proof.
  intros w. unfold run_systemctl, call, stop, context. wp_step. do 2 wp_step.
  destruct (spawn_silent_noted SYSTEMCTL arguments w) as (t & Ht & Hnoted). pose proof (spawn_silent_advances SYSTEMCTL arguments w).
  unfold wp at 1. destruct (spawn_silent SYSTEMCTL arguments w) as [[child|e] w1]; cbn [fst snd result_ok] in *.
  2: { split; [done|]. eexists. split; [|by exists None, t]. split; [done|lia|by constructor; [cbn; lia|]]. }
  assert (∀ w', journal w' = journal w1 → now w1 ≤ now w' →
    grew w [{| Run_arguments := arguments; Run_child := Some child; Run_time := t |}] w') as Hgrew.
  { intros w' Hw' Hnow. split; [congruence|lia|]. constructor; [cbn; lia|constructor]. }
  wp_step. eapply wp_mono; [apply wp_both; [by apply (preserves_wp journal); apply _|apply (wp_read_clock _ (λ _ _, False)); intros start w2 Hw2; exact Hw2]| |naive_solver].
  cbn beta. intros start w2 [Hj2 Hw2]. unfold ENOUGH in enough. wp_step.
  eapply wp_mono; [apply wp_both; [by apply (preserves_wp journal); apply _|apply wp_both; [apply await_child_outcome|apply await_child_ends]]|..].
  { lia. }
  { unfold SYSTEMCTL_TIMEOUT. lia. }
  - intros status w3 (Hj3 & Houtcome & Hw3). cbn beta in *.
    assert (grew w [{| Run_arguments := arguments; Run_child := Some child; Run_time := t |}] w3) as Hw by (apply Hgrew; [congruence|lia]).
    destruct (ExitStatus_success status); [apply wp_ret|apply wp_fail; split; [done|]]; eexists; (split; [exact Hw|]).
    + by exists child, t.
    + by exists (Some child), t.
  - intros e w3 (Hj3 & _ & He & Hw3). split; [done|]. eexists. split; [apply Hgrew; [congruence|lia]|]. by exists (Some child), t.
Qed.

Definition is_active (unit_name : str) : list str := [bstr "is-active"; bstr "--quiet"; unit_name].
(** Every unit was asked for, in order, and is active. *)
Definition active (units : UnitNames) (n : list SystemctlRun) : Prop :=
  ∃ parts, n = concat parts ∧ Forall2 (λ unit_name, succeeded (is_active unit_name)) (unit_names units) parts.
Definition stop_arguments (units : UnitNames) : list str := bstr "stop" :: unit_names units.
Definition start_arguments (units : UnitNames) : list str := [bstr "start"; UnitNames_broker_service units].

(** The last thing that is run is the stop of the units. *)
Definition stops (units : UnitNames) (n : list SystemctlRun) : Prop :=
  ∃ n1 n2, n = n1 ++ n2 ∧ attempted (stop_arguments units) n2.

Lemma require_units_active_runs units : runs (require_units_active fuel units) (active units) (λ _, True).
Proof.
  apply runs_for_each; [|done]. intros unit_name. apply runs_describe.
  eapply runs_mono; [apply run_systemctl_runs|done..].
Qed.

Lemma or_stop_runs {A} units (m : M W EnrollStop A) Q R : runs m Q R → runs (or_stop fuel units m) Q (stops units).
Proof.
  intros Hm w. unfold or_stop. do 2 wp_step. eapply wp_mono; [apply Hm| |].
  - intros a w1 Hw1. by apply wp_ret.
  - intros e w1 (He & n1 & Hw1 & Hn1). destruct e as [message|]; [|done]. do 2 wp_step.
    assert (∀ n2 w2, grew w1 n2 w2 → attempted (stop_arguments units) n2 →
      wp (A:=A) (fail (EnrollStop_Error message)) (λ _ w', ∃ n, grew w n w' ∧ Q n)
        (λ e w', waits e ∧ ∃ n, grew w n w' ∧ stops units n) w2) as Hfail.
    { intros n2 w2 Hw2 Hn2. apply wp_fail. split; [done|]. exists (n1 ++ n2). split; [by eapply grew_trans|by exists n1, n2]. }
    eapply wp_mono; [apply run_systemctl_runs| |].
    + intros [] w2 (n2 & Hw2 & child & t & -> & _). eapply Hfail; [done|]. by exists (Some child), t.
    + intros e w2 (He2 & n2 & Hw2 & Hn2). destruct e as [?|]; [|done]. by eapply Hfail.
Qed.

(** What an arm cycle ran when it returns, and when it fails. *)
Definition armed (units : UnitNames) (n : list SystemctlRun) : Prop :=
  ∃ reload stopped reset started first second,
    n = reload ++ stopped ++ reset ++ started ++ first ++ second ∧
    succeeded [bstr "daemon-reload"] reload ∧ succeeded (stop_arguments units) stopped ∧
    attempted [bstr "reset-failed"; UnitNames_broker_service units; UnitNames_guard_service units] reset ∧
    succeeded (start_arguments units) started ∧ active units first ∧ active units second ∧
    (∀ a b, a ∈ first → b ∈ second → Run_time a + ARM_STABILITY_INTERVAL ≤ Run_time b).
Definition not_armed (units : UnitNames) (n : list SystemctlRun) : Prop :=
  Forall (λ run, Run_arguments run ≠ start_arguments units) n ∨ stops units n.

Lemma stops_app units n1 n2 : stops units n2 → not_armed units (n1 ++ n2).
Proof. intros (n & n' & -> & Hn'). right. exists (n1 ++ n), n'. by rewrite (assoc_L (++)). Qed.
Lemma attempted_not_armed units n arguments n' :
  Forall (λ run, Run_arguments run ≠ start_arguments units) n → attempted arguments n' →
  arguments ≠ start_arguments units → Forall (λ run, Run_arguments run ≠ start_arguments units) (n ++ n').
Proof. intros Hn (child & t & ->) Hne. apply Forall_app. split; [done|]. by constructor. Qed.
Lemma succeeded_attempted arguments n : succeeded arguments n → attempted arguments n.
Proof. intros (child & t & -> & _). by exists (Some child), t. Qed.

Lemma wp_runs_bind {A B} (m : M W EnrollStop A) (k : A → M W EnrollStop B) Q1 R1 (Q : B → W → Prop) (F : list SystemctlRun → Prop) (w : W) n (w1 : W) :
  runs m Q1 R1 → journal w1 = journal w ++ n → (∀ n1, R1 n1 → F (n ++ n1)) →
  (∀ a n1 w2, Q1 n1 → grew w1 n1 w2 → journal w2 = journal w ++ n ++ n1 →
     wp (k a) Q (λ _ w', ∃ n, journal w' = journal w ++ n ∧ F n) w2) →
  wp (bind m k) Q (λ _ w', ∃ n, journal w' = journal w ++ n ∧ F n) w1.
Proof.
  intros Hm Hn HF Hk. apply wp_bind. eapply wp_mono; [apply Hm| |].
  - intros a w2 (n1 & Hw2 & Hn1). eapply Hk; [exact Hn1|exact Hw2|]. by rewrite (grew_journal _ _ _ Hw2), Hn, (assoc_L (++)).
  - intros e w2 (_ & n1 & Hw2 & Hn1). exists (n ++ n1). split; [|by apply HF].
    by rewrite (grew_journal _ _ _ Hw2), Hn, (assoc_L (++)).
Qed.

Lemma wp_silent_bind {A B} (m : M W EnrollStop A) (k : A → M W EnrollStop B) (Q : B → W → Prop) (F : list SystemctlRun → Prop) (w w1 : W) :
  Preserves journal m → journal w1 = journal w → F [] →
  (∀ a w2, journal w2 = journal w → wp (k a) Q (λ _ w', ∃ n, journal w' = journal w ++ n ∧ F n) w2) →
  wp (bind m k) Q (λ _ w', ∃ n, journal w' = journal w ++ n ∧ F n) w1.
Proof.
  intros Hm Hw1 HF Hk. apply wp_bind. eapply wp_mono; [exact (preserves_wp journal m w1 Hm)| |].
  - intros a w2 Hw2. apply Hk. congruence.
  - intros e w2 Hw2. exists []. rewrite app_nil_r. split; [congruence|done].
Qed.

(** From the start of the broker on. *)
Lemma wp_start_cycle units text1 text2 (w : W) n (w1 : W) :
  journal w1 = journal w ++ n →
  wp (or_stop fuel units (describe "cannot arm reviewed activity broker"
        (run_systemctl fuel [bstr "start"; UnitNames_broker_service units])) ;!
      or_stop fuel units (describe "armed units did not become active" (require_units_active fuel units)) ;!
      modify (pause ARM_STABILITY_INTERVAL) ;!
      or_stop fuel units (describe "armed units did not remain active" (require_units_active fuel units)) ;!
      say text1 ;! say text2)
    (λ _ w', ∃ started first second, journal w' = journal w ++ n ++ started ++ first ++ second ∧
       succeeded (start_arguments units) started ∧ active units first ∧ active units second ∧
       (∀ a b, a ∈ first → b ∈ second → Run_time a + ARM_STABILITY_INTERVAL ≤ Run_time b))
    (λ _ w', ∃ n, journal w' = journal w ++ n ∧ not_armed units n) w1.
Proof.
  intros Hn. eapply wp_runs_bind; [eapply or_stop_runs, runs_describe, run_systemctl_runs|exact Hn|apply stops_app|].
  intros [] started w2 Hstarted _ Hw2. eapply wp_runs_bind; [eapply or_stop_runs, runs_describe, require_units_active_runs|exact Hw2|apply stops_app|].
  intros [] first w3 Hfirst Hg3 Hw3. wp_step. apply wp_modify.
  eapply wp_runs_bind; [eapply or_stop_runs, runs_describe, require_units_active_runs| |apply stops_app|].
  { rewrite pause_silent. exact Hw3. }
  intros [] second w4 Hsecond Hg4 Hw4. wp_step. apply wp_modify, wp_modify.
  exists started, first, second. split; [by rewrite !say_line_silent, Hw4, !(assoc_L (++))|]. split_and!; [done..|].
  intros a b Ha Hb. pose proof (grew_times _ _ _ Hg3) as Ht3. pose proof (grew_times _ _ _ Hg4) as Ht4.
  rewrite Forall_forall in Ht3, Ht4. specialize (Ht3 a Ha). specialize (Ht4 b Hb).
  pose proof (pause_law ARM_STABILITY_INTERVAL w3). cbn beta in *. lia.
Qed.

(** C15: an arm cycle that fails is stopped.  When [arm] returns, it reloaded the units and
    stopped the cycle before, then started the broker, and saw each of the four units active
    twice, at least 750 milliseconds apart.  When it fails, either the broker was never
    started, or the last thing the tool ran is the stop of all four units. *)
Theorem arm_or_stopped (options : ArmOptions) (w : W) :
  let units := UnitNames_new (ArmOptions_uid options) in
  wp (arm debug fuel euid options) (λ _ w', ∃ n, journal w' = journal w ++ n ∧ armed units n)
    (λ _ w', ∃ n, journal w' = journal w ++ n ∧ not_armed units n) w.
Proof.
  cbv zeta. assert (not_armed (UnitNames_new (ArmOptions_uid options)) []) as Hnothing by (left; constructor).
  unfold arm. cbv zeta. set (units := UnitNames_new (ArmOptions_uid options)) in *.
  do 7 (eapply wp_silent_bind; [apply _|try assumption; reflexivity|exact Hnothing|intros ? ?v ?Hv]).
  eapply wp_silent_bind; [apply _|assumption|exact Hnothing|intros [] start Hstart].
  eapply wp_runs_bind; [apply run_systemctl_runs|by rewrite app_nil_r|..].
  { intros n1 Hn1. left. by eapply (attempted_not_armed _ []). }
  intros [] reload w1 Hreload _ Hw1. cbn [app] in Hw1.
  assert (Forall (λ run, Run_arguments run ≠ start_arguments units) reload) as Hnone1.
  { by eapply (attempted_not_armed _ []); [|by apply succeeded_attempted|]. }
  eapply wp_runs_bind; [apply runs_describe, run_systemctl_runs|exact Hw1|..].
  { intros n1 Hn1. left. by eapply attempted_not_armed. }
  intros [] stopped w2 Hstopped _ Hw2. wp_step. wp_step.
  assert (∀ reset w3, attempted [bstr "reset-failed"; UnitNames_broker_service units; UnitNames_guard_service units] reset →
    grew w2 reset w3 → journal w3 = journal w ++ reload ++ stopped ++ reset) as Hreset.
  { intros reset w3 _ Hw3. by rewrite (grew_journal _ _ _ Hw3), Hw2, !(assoc_L (++)). }
  eapply wp_mono; [apply run_systemctl_runs|intros [] w3 (reset & Hw3 & Hn3)|intros [e|] w3 (He & reset & Hw3 & Hn3); [|done]];
    try apply succeeded_attempted in Hn3; (eapply wp_mono; [apply wp_start_cycle; by eapply Hreset| |done]);
    intros [] w4 (started & first & second & Hw4 & ?); eexists; (split; [rewrite Hw4; reflexivity|]);
    exists reload, stopped, reset, started, first, second; rewrite !(assoc_L (++)); tauto.
Qed.
End arm.

(** ** A small system *)

Module EnrollToy.
(** One keyboard; what is installed is given.  The directories cannot be synchronized when
    the disk is [World_broken], and no unit is active when [World_dead]. *)
Record World := {
  World_tree : Tree;
  World_clock : Z;
  World_runs : list SystemctlRun;
  World_unread : bool;
  World_installed : list RenderedFile;
  World_broken : bool;
  World_dead : bool
}.

Definition set_tree (f : Tree → Tree) (w : World) : World :=
  {| World_tree := f (World_tree w); World_clock := World_clock w; World_runs := World_runs w;
     World_unread := World_unread w; World_installed := World_installed w; World_broken := World_broken w;
     World_dead := World_dead w |}.
Definition set_clock (f : Z → Z) (w : World) : World :=
  {| World_tree := World_tree w; World_clock := f (World_clock w); World_runs := World_runs w;
     World_unread := World_unread w; World_installed := World_installed w; World_broken := World_broken w;
     World_dead := World_dead w |}.
Definition add_run (run : SystemctlRun) (w : World) : World :=
  {| World_tree := World_tree w; World_clock := World_clock w; World_runs := World_runs w ++ [run];
     World_unread := World_unread w; World_installed := World_installed w; World_broken := World_broken w;
     World_dead := World_dead w |}.
Definition set_unread (b : bool) (w : World) : World :=
  {| World_tree := World_tree w; World_clock := World_clock w; World_runs := World_runs w;
     World_unread := b; World_installed := World_installed w; World_broken := World_broken w;
     World_dead := World_dead w |}.

Definition error (kind : IoErrorKind) : IoError := {| IoError_kind := kind; IoError_text := "error" |}.
Definition status (type : FileType) (char_device : bool) (mode size : Z) : Status :=
  {| Status_type := type; Status_char_device := char_device; Status_dev := 1; Status_ino := 1; Status_nlink := 1;
     Status_uid := 0; Status_mode := mode; Status_rdev := 0; Status_len := size; Status_mtime := 0; Status_mtime_nsec := 0 |}.

Definition input_path : str := bstr "/devices/example/input/input2/event2".
Definition enrollment : str := bstr "/etc/agent-seat/activity/1000".
Definition paths : list (str * Status) :=
  [ (BROKER_EXEC, status FileType_File false 493 1); (GUARD_EXEC, status FileType_File false 493 1);
    (bstr "/dev/input/event2", status FileType_Other true 432 0);
    (SYSTEMD_UNIT_DIRECTORY, status FileType_Dir false 493 0); (enrollment, status FileType_Dir false 448 0) ].
Definition attributes : list (str * bytes) :=
  (λ '(name, value), (path_join (bstr "/sys/class/input/event2/device") (bstr name), bstr value ++ [10])) <$>
  [("capabilities/abs", "0"); ("capabilities/ev", "120013"); ("capabilities/ff", "0"); ("capabilities/key", "ff9f207ac14057ff");
   ("capabilities/led", "1f"); ("capabilities/msc", "10"); ("capabilities/rel", "0"); ("capabilities/snd", "0");
   ("capabilities/sw", "0"); ("properties", "0")]%string.
Definition find_path {A} (path : str) (table : list (str * A)) : option A :=
  snd ∘ snd <$> list_find (λ entry, entry.1 = path) table.
Definition installed_files (w : World) : list (str * RenderedFile) :=
  (λ file, (path_join (if is_unit_name (RenderedFile_name file) then SYSTEMD_UNIT_DIRECTORY else enrollment)
              (RenderedFile_name file), file)) <$> World_installed w.
Definition status_at (path : str) (w : World) : option Status :=
  match find_path path (paths ++ ((λ '(path, _), (path, status FileType_File false 292 0)) <$> attributes)) with
  | Some found => Some found
  | None => (λ file, status FileType_File false 384 (len (RenderedFile_contents file))) <$> find_path path (installed_files w)
  end.

Definition answer (kind : IoErrorKind) {A} (found : option A) : M World IoError A := lift (ok_or found (error kind)).
Definition asked (f : World → option World) : M World IoError unit := λ w,
  match f w with Some w' => (Ok tt, w') | None => (Err (error IoError_Other), w) end.
Definition output (child : Child) : bytes :=
  if child =? 1 then join [10] [bstr "ID_INPUT=1"; bstr "ID_INPUT_KEYBOARD=1"; bstr "ID_PATH=platform-i8042-serio-0"]
  else input_path ++ [10].
(** The one child that fails. *)
Definition inactive : Child := 13.

#[export] Instance system : EnrollSystem World := {
  lstat path := let! found := gets (status_at path) in answer IoError_NotFound found;
  list_directory path :=
    if bool_decide (path = SYSFS_INPUT) then ret [Ok (bstr "event2")] else ret (Ok <$> enrollment_names);
  canonical_path _ := ret (bstr "/sys" ++ input_path);
  read_at_most path _ := answer IoError_NotFound (find_path path attributes);
  read_file path := let! w := gets installed_files in
    let! file := answer IoError_NotFound (find_path path w) in ret (RenderedFile_contents file);
  spawn_piped _ arguments := modify (set_unread true) ;!
    ret (if bool_decide (bstr "--query=property" ∈ arguments) then 1 else 2);
  spawn_silent _ arguments w :=
    let child := if World_dead w && bool_decide (head arguments = Some (bstr "is-active")) then inactive else 10 in
    (Ok child, add_run {| Run_arguments := arguments; Run_child := Some child; Run_time := World_clock w |} w);
  take_stdout child w := (Some child, w);
  stdout_getfl _ := ret 0;
  stdout_setfl _ _ := ret tt;
  stdout_read stdout _ w := if World_unread w then (Ok (output stdout), set_unread false w) else (Ok [], w);
  try_status child := ret (Some {| ExitStatus_success := negb (child =? inactive); ExitStatus_text := "status" |});
  kill_child _ := ret tt;
  wait_child _ := ret tt;
  instant w := (World_clock w, set_clock (Z.add 1) w);
  pause d := set_clock (Z.add (Z.max 0 d));
  write_line _ := ret tt;
  say_line _ w := w;
  make_directory _ := fail (error IoError_AlreadyExists);
  make_private_directory _ := fail (error IoError_Other);
  change_mode _ _ := ret tt;
  create_file _ _ := fail (error IoError_Other);
  change_file_mode file mode := asked (λ w,
    n ← Tree_inodes (World_tree w) !! (file : Z);
    Some (set_tree (with_inode file {| Inode_mode := mode; Inode_data := Inode_data n |}) w));
  write_file file data := asked (λ w,
    n ← Tree_inodes (World_tree w) !! (file : Z);
    Some (set_tree (with_inode file {| Inode_mode := Inode_mode n; Inode_data := Inode_data n ++ data |}) w));
  sync_file file := asked (λ w, if World_broken w && (100 <=? file) then None else Some w);
  unlink _ := ret tt;
  remove_directory _ := ret tt;
  open_directory path := let! w := gets World_tree in answer IoError_NotFound (Tree_directories w !! path);
  openat_exclusive directory name mode w :=
    let t := World_tree w in
    let i := Z.of_nat (size (Tree_inodes t)) in
    match Tree_names t !! ((directory, name) : Z * str), Tree_inodes t !! i with
    | None, None => (Ok i, set_tree (λ t, with_inode i {| Inode_mode := mode; Inode_data := [] |}
                                            (with_names (insert (directory, name) i) t)) w)
    | _, _ => (Err (error IoError_AlreadyExists), w)
    end;
  renameat_noreplace directory old new := asked (λ w,
    i ← Tree_names (World_tree w) !! ((directory, old) : Z * str);
    match Tree_names (World_tree w) !! ((directory, new) : Z * str) with
    | Some _ => None
    | None => Some (set_tree (with_names (λ names, <[(directory, new) := i]> (delete (directory, old) names))) w)
    end);
  unlinkat directory name := asked (λ w,
    i ← Tree_names (World_tree w) !! ((directory, name) : Z * str);
    Some (set_tree (with_names (delete (directory, name))) w))
}.

Lemma asked_performs (f : World → option World) does :
  (∀ w w', f w = Some w' → does (World_tree w) tt (World_tree w')) → performs World_tree (asked f) (changes does).
Proof. intros Hf w. unfold asked. destruct (f w) as [w'|] eqn:Hw; [by apply Hf|done]. Qed.

#[export] Instance disk_laws : EnrollDiskLaws World.
Proof.
  refine {| tree := World_tree |}.
  - intros path w. cbn. unfold answer, lift, bind, gets. by destruct (ok_or _ _).
  - intros path w. cbn. unfold answer, lift, bind, gets. by destruct (Tree_directories (World_tree w) !! path) eqn:Hpath.
  - intros file w. cbn. unfold asked. by destruct (World_broken w && (100 <=? file)).
  - intros directory name mode w. unfold openat_exclusive. cbn -[lookup]. repeat case_match; done.
  - intros file mode. apply asked_performs. intros w w' (n & Hn & [= <-])%bind_Some. by exists n.
  - intros file data w. unfold write_file. cbn -[lookup]. unfold asked.
    destruct (Tree_inodes (World_tree w) !! (file : Z)) as [n|] eqn:Hn; [by exists n|by left].
  - intros directory old new. apply asked_performs. intros w w' (i & Hi & Hw')%bind_Some.
    case_match eqn:Hnew; [done|]. injection Hw' as <-. by exists i.
  - intros directory name. apply asked_performs. by intros w w' (i & Hi & [= <-])%bind_Some.
Defined.

Lemma names_removable : removable (W:=World).
Proof.
  intros directory name i w Hname. unfold unlinkat. cbn -[lookup]. unfold asked. 
  assert (Tree_names (World_tree w) !! ((directory, name) : Z * str) = Some i) as Hn by exact Hname. by rewrite Hn.
Qed.

#[export] Instance clock_laws : EnrollClockLaws World.
Proof.
  refine {| now := World_clock |}; try (intros; intros w; cbn; lia); [intros w; cbn; lia|intros d w; cbn; lia|].
  intros stdout count w. cbn. destruct (World_unread w); cbn; lia.
Defined.

#[export] Instance journal_laws : EnrollJournalLaws World.
Proof.
  refine {| enroll_journal := World_runs; outcome := λ child, negb (child =? inactive) |}; try done.
  - intros executable arguments w. exists (World_clock w). cbn. split; [lia|done].
  - by intros child w status [= <-].
  - intros path w. cbn. by case_bool_decide.
  - intros stdout count w. cbn. by destruct (World_unread w).
Defined.

Definition world (t : Tree) (files : list RenderedFile) (broken dead : bool) : World :=
  {| World_tree := t; World_clock := 0; World_runs := []; World_unread := false; World_installed := files;
     World_broken := broken; World_dead := dead |}.

(** *** An installation *)

Definition before : Tree := {|
  Tree_directories := list_to_map [(bstr "/units", 100); (bstr "/enrollment", 101)];
  Tree_names := {[ (101, bstr "other") := 0 ]};
  Tree_inodes := {[ 0 := {| Inode_mode := 420; Inode_data := bstr "other" |} ]} |}.
Definition files : list RenderedFile :=
  [ {| RenderedFile_name := bstr "a.service"; RenderedFile_contents := bstr "unit" |};
    {| RenderedFile_name := REVIEW_FILE; RenderedFile_contents := bstr "review" |} ].
Definition installation (broken : bool) : result unit EnrollStop * World :=
  install_rendered_bundle 7 {| RenderedBundle_files := files |} (bstr "/units") (bstr "/enrollment") (world before [] broken false).

Lemma install_all_or_nothing_witness :
  fst (installation false) = Ok tt ∧ installed 100 101 files before (World_tree (snd (installation false))) ∧
  is_ok (fst (installation true)) = false ∧ Tree_names (World_tree (snd (installation true))) = Tree_names before.
Proof.
  pose proof (install_all_or_nothing 7 (bstr "/units") (bstr "/enrollment") {| RenderedBundle_files := files |}
                (world before [] false false)) as Hdone.
  pose proof (install_all_or_nothing 7 (bstr "/units") (bstr "/enrollment") {| RenderedBundle_files := files |}
                (world before [] true false)) as Hundone.
  unfold wp in *. fold (installation false) in Hdone. fold (installation true) in Hundone.
  assert (fst (installation false) = Ok tt) as H1 by by vm_compute.
  assert (is_ok (fst (installation true)) = false) as H2 by by vm_compute.
  destruct (installation false) as [r1 w1], (installation true) as [r2 w2]. cbn [fst snd] in *. subst r1.
  destruct r2 as [|e]; [done|]. destruct Hdone as (units & enrolled & Hunits & Henrolled & Hinstalled).
  split_and!; [done| |done|by apply Hundone, names_removable].
  vm_compute in Hunits, Henrolled. injection Hunits as <-. injection Henrolled as <-. exact Hinstalled.
Defined.

(** *** Every command, and an arm cycle *)

Definition fuel : nat := Z.to_nat 20000.
Lemma fuel_enough : ENOUGH ≤ Z.of_nat fuel.
Proof. unfold fuel, ENOUGH. rewrite Z2Nat.id; lia. Qed.

Definition arguments (words : list string) : list str := bstr <$> "agent-seat-activity-enroll" :: words.
Definition debug (text : str) : string := display text.


Definition options : ArmOptions := {| ArmOptions_uid := 1000; ArmOptions_session := bstr "c2" |}.
Definition reviewed : list RenderedFile :=
  match fst (inspect_seat debug fuel (world before [] false false)) with
  | Ok inspection =>
      match build_bundle {| BundleOptions_uid := 1000; BundleOptions_session := bstr "c2"; BundleOptions_directory := [] |} inspection with
      | Ok bundle => RenderedBundle_files bundle
      | Err _ => []
      end
  | Err _ => []
  end.
Definition cycle (dead : bool) : result unit EnrollStop * World := arm debug fuel 0 options (world before reviewed false dead).
Definition commands (w : World) : list str := omap head (Run_arguments <$> World_runs w).

(** A cycle that is armed, and one whose units do not become active. *)
Example cycles :
  fst (cycle false) = Ok tt ∧
  commands (snd (cycle false)) = bstr <$> ["daemon-reload"; "stop"; "reset-failed"; "start"; "is-active"; "is-active"; "is-active";
    "is-active"; "is-active"; "is-active"; "is-active"; "is-active"]%string ∧
  is_ok (fst (cycle true)) = false ∧
  commands (snd (cycle true)) = bstr <$> ["daemon-reload"; "stop"; "reset-failed"; "start"; "is-active"; "stop"]%string.
Proof. vm_compute. done. Qed.

Lemma arm_or_stopped_witness :
  armed (UnitNames_new 1000) (World_runs (snd (cycle false))) ∧ not_armed (UnitNames_new 1000) (World_runs (snd (cycle true))).
Proof.
  pose proof (arm_or_stopped debug fuel 0 fuel_enough options (world before reviewed false false)) as Harmed.
  pose proof (arm_or_stopped debug fuel 0 fuel_enough options (world before reviewed false true)) as Hstopped.
  cbv zeta in *. unfold wp in *. fold (cycle false) in Harmed. fold (cycle true) in Hstopped.
  destruct cycles as (H1 & _ & H2 & _). destruct (cycle false) as [r1 w1], (cycle true) as [r2 w2]. cbn [fst snd] in *.
  subst r1. destruct r2 as [|e]; [done|]. destruct Harmed as (n1 & Hj1 & Hn1), Hstopped as (n2 & Hj2 & Hn2).
  change (World_runs w1 = n1) in Hj1. change (World_runs w2 = n2) in Hj2. by rewrite Hj1, Hj2.
Defined.
End EnrollToy.
